(* ===== verification/_CoqProject ===== *)
-Q . S2P
Prelude.v
StdAlgo.v
Checked.v
Status.v
Bytes.v
Hash.v
Model.v
ModelDigest.v
Validate.v
Explain.v
Records.v
Codec.v
CodecFacts.v
CodecExact.v
Wire.v
Transport.v
WireFacts.v
Store.v
JournalFacts.v
Ledger.v
StoreOps.v
StoreFacts.v
RecoveryFacts.v
StoreTyped.v
Durability.v
CompactFacts.v
Evaluate.v
Rank.v
Exclusions.v
Place.v
ScanFacts.v
PlaceCases.v
OrderFacts.v
DegradeFacts.v
Fixture.v
Threads.v
RuntimeState.v
Runtime.v
RuntimeInv.v
RuntimeCalm.v
RuntimeCommit.v
RuntimeThreads.v
RuntimeFacts.v
RuntimeAlone.v
RuntimeDemo.v
ServerState.v
Server.v
ServerFacts.v
Worker.v
ServerAlone.v
ServerDemo.v
Scenario.v
Bench.v
CommandLine.v
ScenarioText.v
ScenarioRound.v
ScenarioLines.v
ScenarioDocument.v
ScenarioStrict.v
BenchFacts.v
EngineProps.v
OutcomeProps.v
InputProps.v
CodecProps.v
ScenarioTyped.v
CommandLineFacts.v
CommandPlace.v
WireProps.v
StoreProps.v
RuntimeProps.v
ServerProps.v
ScenarioProps.v
BenchProps.v
CommandLineProps.v
Process.v
ProcessFacts.v
QuoteFacts.v
Sockets.v
SocketFacts.v
SystemProps.v
