(* ===== verification/Prelude.v ===== *)
(** * Flow Placement: a verification development

    This library models the core of Flow Placement, a C++ engine that chooses,
    for one flow, one path out of a set of already authorized candidate paths,
    and answers with a bounded explanation and an intent bound to the
    generations that justified it.  The definitions follow the sources
    ([src/src/*.cpp], [src/include/flowplace/*.hpp]); the theorems state what
    each part promises to the others.

    ** The program and how its parts interact

    A client builds a [PlacementRequest] (candidate paths, capacity and
    congestion evidence, QoS, policy, incumbent, expected generations).
    [ValidateRequest] (validate.cpp) rejects malformed or contradictory
    requests; [PlacementEngine::Place] (engine.cpp) excludes candidates in a
    fixed order, ranks the legal ones, decides about moving an incumbent, applies
    the admission gate, builds an intent, verifies it with [VerifyIntent] and
    returns a [PlacementDecision].  Requests and decisions carry 128-bit digests
    (hash.cpp, model.cpp, explain.cpp).  The codec (codec.cpp) turns them, and
    the records of the store, into bytes; frames (wire.cpp) carry them between
    client and server, and the store (store.cpp) journals them.  The coordinator
    (runtime.cpp) admits attempts, has workers or callers decide them, commits a
    decision behind a boundary that re-checks cancellation, epoch and authority,
    and records every attempt and placement in the store.  The server (server.cpp)
    serves each worker's connection from a thread of its own over the coordinator;
    [ConnectWorker] is the worker's end of the handshake.  The command line
    (flowplace_main.cpp) reads requests from a line-oriented text (scenario.cpp),
    writes them back to it, places them with or without a store, serves, works for
    a server and runs a synthetic benchmark (bench.cpp).  Connections are opened and
    owned by transport.cpp; process.cpp starts and supervises the processes of the
    multiprocess validation.

    ** Files

    Foundations:
    - [Prelude]: machine integers ([uint_fits], [wrap]), decimal rendering,
      booleans as propositions ([b2p]), generic list facts.
    - [StdAlgo]: the parts of [<algorithm>] the sources call, and [c_str].
    - [Checked]: checked.hpp, the counters and the comparisons of ids.hpp.
    - [Status]: status.hpp, status.cpp.
    - [Bytes]: bytes.hpp, bytes.cpp; [reads] is the interface the codec is
      proved against.
    - [Hash]: hash.hpp, hash.cpp; CRC-32C, FNV-1a, digests.

    Data:
    - [Model]: the enumerations and records of model.hpp, their names and
      parsers; [ModelDigest]: the digest functions of model.cpp and the
      equivalence of requests they respect.
    - [Explain]: outcomes, reasons, the decision and its digest and text
      (explain.hpp, explain.cpp).
    - [Records]: the durable records of store.hpp.

    Validation and the engine:
    - [Validate]: [ValidateRequest] and the declarative [well_formed].
    - [Evaluate]: [Prepare] and [Evaluate] with the declarative [violates];
      [Rank]: ranking keys and [RankLess]; [Exclusions]: the exclusion recorder
      and the explanation builders; [Place]: [Place] and [VerifyIntent].
    - [ScanFacts], [PlaceCases], [OrderFacts], [DegradeFacts]: lemmas about the
      loop over the candidates, the ways a placement ends, permuted inputs and
      degradation flags.

    The codec and the wire:
    - [Codec]: every encoder and decoder of codec.cpp; [CodecFacts]: decoding
      inverts encoding; [CodecExact]: what the decoders accept is an encoding.
    - [Wire]: frames, the incremental stream and the payloads of wire.cpp;
      [Transport]: [SendFrame] and [ReceiveFrame] of transport.cpp over the
      results of [send] and [recv]; [WireFacts]: their lemmas.
    - [Sockets]: the rest of transport.cpp, in a monad of calls of the host: the
      subsystem, connecting, moving and closing connections, listeners;
      [SocketFacts]: the effect of each call on the open descriptors, and who owns
      them.

    The store (store.hpp, store.cpp):
    - [Store]: the record format, the snapshot, the damage scan and [Open] with
      its accounting; [StoreOps]: the operations that write, in a monad over the
      open store, its two files and the answers of the file system, and store objects,
      which may have been moved from.
    - [JournalFacts]: reading a journal is the replay of its one parse; [Ledger]:
      the abstract store, a map of attempts and the placements of each flow, and
      the operations' effect on it; [StoreFacts]: every operation as labelled
      steps of the in-memory books, and the invariants of the indices;
      [RecoveryFacts]: what [Open] accounts for; [StoreTyped]: the ranges of the
      values; [Durability]: sessions without faults and their recovery;
      [CompactFacts]: compaction and the recovery after it.

    The coordinator (runtime.hpp, runtime.cpp):
    - [Threads]: a thread as a tree of critical sections, systems of threads that
      interleave section by section, and a program logic for them: an invariant,
      what threads guarantee each other, weakest preconditions, progress of the
      mutexes.
    - [RuntimeState]: the coordinator's data and one function for each block under
      [mu] or [store_mu]; [Runtime]: the member functions and the workers as
      threads of those sections.
    - [RuntimeInv]: the invariant and the guarantees of the coordinator's threads;
      [RuntimeCalm]: the sections that commit nothing; [RuntimeCommit]: the ones
      under [commit_mu]; [RuntimeThreads]: every thread keeps to the protocol;
      [RuntimeFacts]: counters, retention, the loops of a shutdown;
      [RuntimeAlone]: a placement nobody interferes with; [RuntimeDemo]: concrete
      coordinators and schedules.

    The server (server.hpp, server.cpp):
    - [ServerState]: options, counters, connections; [Server]: the handshake, the
      requests, the accept loop and the shutdown as threads over those of the
      coordinator ([lift]); [Worker]: [ConnectWorker].
    - [ServerFacts]: every thread of the server keeps to the coordinator's
      protocol, whatever bytes arrive; [ServerAlone]: a request nobody interferes
      with, and the handshake from both ends; [ServerDemo]: a concrete server and its
      schedules.

    The scenario text (scenario.hpp, scenario.cpp):
    - [Scenario]: tokens, numbers and lists; the argument parser and, as a monad
      over it, the chain of keys each directive reads; the loop over the lines; the
      rendering as a list of lines.
    - [ScenarioText]: splitting undoes joining, a line written from pairs is parsed to
      the pairs, and each call reads its key; [ScenarioRound], [ScenarioLines]: every
      rendered line is read back;
      [ScenarioDocument]: the lines one after the other; [ScenarioStrict]: what is
      refused; [ScenarioTyped]: the ranges of what is read.

    The benchmark and the command line (bench.hpp, bench.cpp, flowplace_main.cpp):
    - [Bench]: the generator as a monad over its state, the rounds, the sweep, the
      percentiles and rates in [SpecFloat] doubles, the rendering; [BenchFacts]: every
      generated request is valid and current and its candidates are legal.
    - [CommandLine]: options, files and every command, with its output and exit code;
      [CommandLineFacts]: files, the provenance of parsed requests, a worker's rounds;
      [CommandPlace]: the process of [place --store], a main thread beside the workers
      of its coordinator.

    Supervised processes (process.hpp, process.cpp):
    - [Process]: starting, watching, waiting for, killing and detaching a child, on
      POSIX and on Windows, over the calls of the system ([PosixHost],
      [WindowsHost]); [ProcessFacts]: the interface of the two and its laws, the
      calls a host sees, a child's life as an abstract machine and a host that keeps
      what POSIX documents; [QuoteFacts]: the rules of the Windows
      command line as the laws of a parser, and one that keeps them.

    Properties, on the concrete requests of [Fixture] (tests/fixtures.hpp) as
    witnesses:
    - [EngineProps]: soundness, completeness, optimality, churn, deferral,
      degradation, the delta and the self-verification of [Place], and the
      bounds of its explanation.
    - [OutcomeProps]: what an unsuccessful decision reports.
    - [InputProps]: independence of input order, the specifications of
      evaluation, validation, ranking and intent verification, digests,
      checksums, names, arithmetic.
    - [CodecProps]: round trips and canonical forms of the codec.
    - [WireProps]: delivery, integrity and bounds of frames over a connection.
    - [StoreProps]: recovery, durability, idempotence, compaction of the store.
    - [RuntimeProps]: the fence, finality, recording and answering of placements,
      admission, counters, shutdown, the mutexes.
    - [ServerProps]: what clients cannot get past, a request served from bytes to
      bytes, the handshake.
    - [ScenarioProps]: the round trip, what a parsed request is good for, and the
      refusals of the scenario text.
    - [BenchProps]: what the benchmark counts, and when its sweep ends.
    - [CommandLineProps]: the commands on a scenario file, a placement from the command
      line, what a worker sends and counts.
    - [SystemProps]: what a handle on a child reports and when it is done with the
      system, the command line of a child; the ownership of descriptors, the
      connections the server and the worker get.

    ** How state and operations correspond to the code

    A C++ [struct] is a [Record] whose fields carry the prefix of the struct
    ([rq_] request, [pol_] policy, [dec_] decision, [ex_] explanation, ...), an
    [enum class] is an [Inductive] in a module of its name, an identifier or
    generation is the [N] it wraps, [std::vector] is [list], [std::optional] is
    [option], and [std::map] is [gmap].  Unsigned integers are [N] with
    [uint_fits w] as their range and [wrap w] written where the C++ conversion
    or overflow would truncate.  An output parameter filled on success is the
    value of a [Result] or [option]; an early return is a branch; a loop is a
    [fold_left] or a structural recursion.  Two loops are driven by the bytes of a file and
    carry fuel: [Store.load_records] and [Store.scan_chunks] get the length of
    the file, which is enough because every round consumes at least one byte
    ([JournalFacts.LoadJournal_log], [JournalFacts.scan_chunks_spec]).  The reaping of
    [RuntimeState.reap] drops an attempt or moves one to the end of the order in
    each round; [reap_fuel], the square of one more than the length of the order, is enough
    ([RuntimeFacts.ReapRetainedSlots_spec]).  A function of
    several hundred lines ([Place], [DecodeRequest]) is cut at its own section
    comments, each piece handing on the state the next one uses.

    A [std::shared_ptr] to a slot is an index into a heap, so threads share the
    slot and a slot dropped from the table lives on.  A block under [mu] is one
    atomic step of its thread; [commit_mu] and [store_mu] are taken and given
    back in steps of their own, so everything the sources leave unlocked between
    two blocks can interleave.  A wait on a condition variable is a step that
    needs its predicate; a missed notification is not modelled.  The clock is a
    field of the state that may take any value between two steps.

    A connection is a [Link]: its [TcpConnection], what [recv] will return, and
    the kernel's answers to [send]; both grow by what happens outside
    ([Server.happens]), as do the connections the listener reports.  A frame is
    received or sent in one step of its thread, which waits while the kernel would
    block; every read or write of an atomic counter or flag is a step.

    [std::sort] is not stable; [StdAlgo.std_sort] is the stable result, and
    [StdAlgo.std_sort_unique] is what the order-independence theorems use: where
    the order separates the elements the result is the same for every
    implementation.  The enumerations a caller can set to any byte have a
    constructor [kOther] for the bytes no enumerator names.

    ** What the theorems show

    - A path is only bound when the request is valid and current and no hard
      constraint excludes the path; conversely a placement or deferral is
      returned whenever such a path exists and diversity holds; the path is the
      best under the policy's lexicographic objectives, up to the incumbent's
      hysteresis; the engine never reports an internal violation.
    - The decision on a valid request is a function of the sets in it, the labels
      of a path included, not of the order they are listed in, except for the order
      of a path's reservations where the policy names affinity references
      ([InputProps.reservation_order_matters]).
    - The validator accepts exactly the well-formed requests; each rejection,
      stale generation and empty legal set is answered with the outcome and code
      the sources give it; counts, samples and bounds of the explanation.
    - Decoding inverts encoding for every typed request the validator accepts
      that has no optional identifier present and zero, and for every fitting
      decision and record; a decoder accepts nothing but the
      encodings of values within its limits (for requests, up to the optional
      identifiers); two exceptions are proved ([CodecProps.optional_id_lost],
      [CodecProps.oversized_note]).
    - Over a connection that splits and joins bytes as it likes, the frames sent
      are the frames received; on any bytes only well-formed frames are returned,
      and the connection implements the parse of the bytes in one piece; damage
      of up to four consecutive body bytes is detected; the buffer is bounded.
    - Any journal is read to the end as the replay of its one parse, and the
      chunked scan after damage misses no complete record.  After any operations
      under any answers of the file system the indices of the store agree with
      its history and the values fit their types; a commit under an attempt
      happens once.  After a quiet session (no failing file-system call, no
      compaction or close, tails repaired, no committed attempt without a
      placement) what was acknowledged is what the next [Open] finds, a torn append
      included; after a compaction of such a session whose snapshot is within the
      bounds the latest placements and the retained attempts are found, or opening
      fails in exactly one case.  What goes wrong otherwise is proved on concrete runs
      ([StoreProps.compaction_unreadable], [StoreProps.failed_sync_loses_commit]).
    - In every coordinator that can be reached from a start by honest callers in any
      interleaving: a placement is added only for an attempt past the boundary
      under the current epoch and authority, and is the engine's decision on its
      request; a finished attempt never changes; what is reported committed is
      recorded; a cancelled, finished or overtaken attempt never crosses the
      boundary; the counters count; admission and shutdown forget no unfinished
      attempt; the mutexes are given back; a caller of [PlaceNow] gets the answer
      the engine, the authority and the store determine, where no mutex is held and
      the submission is valid, current and new.  Honest callers hand [Commit]
      decisions with an intent only where they place, and authorities with a 64-bit
      epoch ([RuntimeThreads.honest]); what a forged decision does is
      [RuntimeProps.forged_commit].  The bounds and comments that do not hold are
      refuted on concrete schedules ([RuntimeProps.queue_overrun],
      [RuntimeProps.failed_but_durable]).
    - In every server that [RunServer] sets up, whatever bytes its clients send, the
      coordinator's fence holds; a valid, current and new placement request that arrives
      in whatever pieces, and whose reply is within the negotiated bound, is answered by
      exactly one frame with the coordinator's outcome; the two ends of a handshake
      within the least frame bound agree on its outcome and on the frame bound.
    - A validated request with a plain provenance, no optional identifier present and
      zero and a whole reservation or none, rendered and parsed within the bounds, is the
      same request; a request parsed from any text fits its types, and once validated it
      reaches the other end of the wire unchanged; a refused document is over a
      bound, has a first bad line, which the message names, or lacks a directive; no
      unknown or repeated key of a directive is ignored but those of [flow] and
      [candidateset] ([ScenarioProps.unchecked_keys]).
    - [validate] and [roundtrip] agree on a document that names its producer and a time of
      observation that is not negative, and not on one that does not
      ([CommandLineProps.roundtrip_unnamed]); [place --store] of a valid request comes to
      its report with the store closed and the coordinator stopped, and its exit code is 0
      exactly for a committed placement whose store closed without a failure; every frame
      of a worker with a valid request is a submission the server admits to the engine, and
      a worker that comes to its end has counted each of its rounds once.
    - The benchmark ends for every fan-out up to 2^63 ([BenchProps.bench_sweep]) and,
      under the default limits and up to 2^20 paths, counts nothing but placements,
      whatever the clock says.
    - No descriptor is leaked, shared or closed twice, whatever the system answers and
      whatever is done with connections and listeners.  What an accept loop gets is the
      connection the server's model enters ([SystemProps.accepted_entry]); a connection
      that is assigned to another hands out what the other had buffered
      ([SystemProps.assigned_connection_stale]).
    - A handle on a child reports its exit code at most once and makes no call after the
      one that collected the process or closed the handle; on POSIX its operations are a
      run of the machine alive, ended, gone, with the answers [process.hpp] documents as
      long as the handle is marked running.  The arguments of a Windows child come back
      out of its command line.
    - The two halves of a digest are not independent
      ([InputProps.Digest_halves]).

    ** What is not modelled

    The calls of the operating system are parameters: their results for files, the
    bytes of connections and the worker's attempts to connect as lists, for sockets
    and processes as functions on the state of a host.  The wall clock and the process
    id are values given to the functions that read them; the Winsock text of a
    socket error is left out.  Of the coordinator the notifications of its condition variables, an
    exception of the engine and the destructor are left out; of the server the race on
    the descriptor of a connection that is closed while its thread reads; of the command
    line the failure of a write to the standard streams.  The elapsed time of a placement
    of the benchmark is a parameter.  The sweep of the command line gets 63 rounds of fuel,
    which is enough wherever it ends; the loop over a file gets one round more than the
    whole chunks of the file ([CommandLineFacts.read_chunks_all]).  The test suite is not
    modelled; its fixtures are the concrete inputs of the witnesses. *)

From Stdlib Require Export String.
From Stdlib Require Import Decimal DecimalString NArith ZArith.
From stdpp Require Export base list gmap option numbers sorting.
From stdpp Require Import strings.

#[export] Set Default Goal Selector "!".

Declare Scope flow_scope.
Delimit Scope flow_scope with flow.
Open Scope N_scope.

(** ** Machine integers

    Every unsigned C++ integer is an [N]; [uint_fits w n] says that [n] is a
    value of the [w]-bit type, and [wrap w n] is the value the C++ conversion
    or overflow leaves. *)

Definition uint_fits (w n : N) : Prop := n < 2 ^ w.
Abbreviation u8_fits := (uint_fits 8).
Abbreviation u16_fits := (uint_fits 16).
Abbreviation u32_fits := (uint_fits 32).
Abbreviation u64_fits := (uint_fits 64).

Definition wrap (w n : N) : N := n mod 2 ^ w.

(** [std::numeric_limits<std::uintW_t>::max()]. *)
Definition uint_max (w : N) : N := 2 ^ w - 1.

(** [vec.size()] of a [std::vector] as the [std::uint64_t] the code compares. *)
Definition size {A} (l : list A) : N := N.of_nat (length l).

(** [std::to_string] on an unsigned integer. *)
Definition to_string (n : N) : string :=
  DecimalString.NilZero.string_of_uint (N.to_uint n).

(** Number of [char]s of a [std::string]. *)
Definition string_size (s : string) : N := N.of_nat (String.length s).

(** ** Booleans as propositions *)

Create Rewrite HintDb b2p.
#[export] Hint Rewrite
  andb_true_iff orb_true_iff negb_true_iff negb_false_iff andb_false_iff
  orb_false_iff N.eqb_eq N.eqb_neq N.ltb_lt N.ltb_ge N.leb_le N.leb_gt
  String.eqb_eq String.eqb_neq : b2p.

(** [b2p] turns the boolean tests of the context and the goal into
    propositions. *)
Ltac b2p := autorewrite with b2p in *.

(** Splits every conjunction, existential and boolean test of the context. *)
Ltac unpack :=
  repeat (b2p; simplify_eq/=;
          match goal with
          | H : _ /\ _ |- _ => destruct H
          | H : exists _, _ |- _ => destruct H
          end); b2p.

(** ** Lists *)

Lemma size_nil {A} : size (A := A) [] = 0.
Proof. reflexivity. Qed.

Lemma size_cons {A} (x : A) l : size (x :: l) = 1 + size l.
Proof. unfold size. cbn [length]. lia. Qed.

Lemma size_app {A} (l k : list A) : size (l ++ k) = size l + size k.
Proof. unfold size. rewrite length_app. lia. Qed.

Lemma size_perm {A} (l k : list A) : l ≡ₚ k → size l = size k.
Proof. intros H. unfold size. by rewrite H. Qed.

Lemma size_zero {A} (l : list A) : size l = 0 ↔ l = [].
Proof. unfold size. destruct l; cbn [length]; split; intros; (done || lia). Qed.

Create Rewrite HintDb size.
#[export] Hint Rewrite @size_nil @size_cons @size_app : size.

Lemma forallb_Forall {A} (f : A → bool) l :
  forallb f l = true ↔ Forall (λ x, f x = true) l.
Proof. rewrite forallb_forall, Forall_forall. setoid_rewrite list_elem_of_In. done. Qed.

Lemma existsb_exists_elem {A} (f : A → bool) l :
  existsb f l = true ↔ ∃ x, x ∈ l ∧ f x = true.
Proof. rewrite existsb_exists. setoid_rewrite list_elem_of_In. done. Qed.

Lemma existsb_false_Forall {A} (f : A → bool) l :
  existsb f l = false ↔ Forall (λ x, f x = false) l.
Proof.
  induction l as [|x l IH]; cbn; [by split|].
  rewrite Forall_cons, orb_false_iff, IH. done.
Qed.

Lemma existsb_perm {A} (f : A → bool) l k : l ≡ₚ k → existsb f l = existsb f k.
Proof.
  intros H. apply eq_true_iff_eq. rewrite !existsb_exists_elem.
  by setoid_rewrite H.
Qed.

Lemma find_Some_elem {A} (f : A → bool) l x : find f l = Some x → x ∈ l ∧ f x = true.
Proof. intros [H1 H2]%find_some. split; [by apply list_elem_of_In|done]. Qed.

(** [find] on a list sorted by [key] returns the match with the least key. *)
Lemma find_Some_before {A} (key : A → N) (f : A → bool) l x y :
  StronglySorted (λ a b, key a < key b) l →
  find f l = Some x → y ∈ l → key y < key x → f y = false.
Proof.
  induction 1 as [|z l Hl IH Hz]; cbn; [done|]. rewrite Forall_forall in Hz.
  intros Hf Hy Hlt. destruct (f z) eqn:E.
  - injection Hf as ->. apply elem_of_cons in Hy as [->|Hy]; [lia|].
    specialize (Hz y Hy). lia.
  - apply elem_of_cons in Hy as [->|Hy]; [done|]. by apply IH.
Qed.

Lemma find_None_Forall {A} (f : A → bool) l :
  find f l = None ↔ Forall (λ x, f x = false) l.
Proof.
  induction l as [|x l IH]; cbn; [by split|].
  rewrite Forall_cons. destruct (f x) eqn:E; [|by rewrite IH; intuition].
  split; [done|]. intros [? _]. congruence.
Qed.

Lemma fold_left_inv {A B} (P : A → Prop) (f : A → B → A) l a :
  (∀ a b, b ∈ l → P a → P (f a b)) → P a → P (fold_left f l a).
Proof.
  revert a. induction l as [|x l IH]; intros a Hf Ha; [done|]. cbn.
  apply IH; [intros; apply Hf; [by right|done]|]. apply Hf; [by left|done].
Qed.

Lemma foldl_inv {A B} (P : A → Prop) (f : A → B → A) l a :
  (∀ a b, b ∈ l → P a → P (f a b)) → P a → P (foldl f a l).
Proof.
  revert a. induction l as [|x l IH]; intros a Hf Ha; [done|]. cbn.
  apply IH; [intros; apply Hf; [by right|done]|]. apply Hf; [by left|done].
Qed.

Lemma NoDup_fmap_elem_inj {A B} (f : A → B) l x y :
  NoDup (f <$> l) → x ∈ l → y ∈ l → f x = f y → x = y.
Proof.
  induction l as [|z l IH]; cbn; [by intros _ ?%elem_of_nil|].
  rewrite NoDup_cons. intros [Hz Hnd] Hx Hy Hf.
  apply elem_of_cons in Hx as [->|Hx]; apply elem_of_cons in Hy as [->|Hy]; auto.
  - destruct Hz. rewrite Hf. by apply list_elem_of_fmap_2.
  - destruct Hz. rewrite <-Hf. by apply list_elem_of_fmap_2.
Qed.
