(* ===== verification/StdAlgo.v ===== *)
(** * The parts of [<algorithm>] and [<string>] the sources use

    [std::sort], [std::unique], [std::adjacent_find], [std::lower_bound],
    [std::binary_search] and [std::min_element] over a boolean strict order
    [less], with the facts the components need about them.  [std::sort] is not
    stable in C++: where two elements are equivalent its result is one of
    several, and the sort below is the stable one among them.  The components
    prove their order-independence results from [std_sort_unique], which only
    speaks of inputs whose elements the order separates. *)

From S2P Require Import Prelude.

(** What a callee reads of [c_str()] or [data()]: the characters before the first NUL. *)
Fixpoint c_str (s : string) : string :=
  match s with
  | EmptyString => EmptyString
  | String c rest => if Ascii.eqb c Ascii.zero then EmptyString else String c (c_str rest)
  end.

(** A comparator accepted by [std::sort]. *)
Class StrictWeakOrder {A} (less : A → A → bool) : Prop := {
  swo_irrefl x : less x x = false;
  swo_trans x y z : less x y = true → less y z = true → less x z = true;
  swo_split x y z : less x z = true → less x y = true ∨ less y z = true;
}.

(** A comparator that separates distinct elements. *)
Class StrictTotalOrder {A} (less : A → A → bool) : Prop := {
  sto_weak :: StrictWeakOrder less;
  sto_total x y : less x y = false → less y x = false → x = y;
}.

(** Comparing by a key: [a.key < b.key]. *)
Definition by_key {A} (key : A → N) (x y : A) : bool := key x <? key y.

#[export] Instance N_ltb_order : StrictTotalOrder N.ltb.
Proof.
  split; [split|]; intros; b2p; lia.
Qed.

#[export] Instance by_key_order {A} (key : A → N) : StrictWeakOrder (by_key key).
Proof.
  unfold by_key. split; intros; b2p; lia.
Qed.

Section Sorting.
Context {A : Type} (less : A → A → bool).

(** [geb x y]: [y] does not come strictly before [x]. *)
Definition not_after (x y : A) : Prop := less y x = false.

Fixpoint sort_insert (x : A) (l : list A) : list A :=
  match l with
  | [] => [x]
  | y :: l' => if less y x then y :: sort_insert x l' else x :: y :: l'
  end.

(** [std::sort(l.begin(), l.end(), less)]. *)
Fixpoint std_sort (l : list A) : list A :=
  match l with
  | [] => []
  | x :: l' => sort_insert x (std_sort l')
  end.

(** The suffix [std::lower_bound] points at: the first element the probe is
    not after.  [before e] is the comparator applied to the probe. *)
Fixpoint std_lower_bound (before : A → bool) (l : list A) : list A :=
  match l with
  | [] => []
  | x :: l' => if before x then std_lower_bound before l' else l
  end.

(** [std::binary_search(l.begin(), l.end(), v, less)]. *)
Definition std_binary_search (l : list A) (v : A) : bool :=
  match std_lower_bound (λ e, less e v) l with
  | [] => false
  | x :: _ => negb (less v x)
  end.

(** [*std::min_element(l.begin(), l.end())] of a non-empty range. *)
Fixpoint std_min_element (x : A) (l : list A) : A :=
  match l with
  | [] => x
  | y :: l' => std_min_element (if less y x then y else x) l'
  end.
End Sorting.

Section Unique.
Context {A : Type} (eqb : A → A → bool).

Fixpoint unique_from (x : A) (l : list A) : list A :=
  match l with
  | [] => [x]
  | y :: l' => if eqb x y then unique_from x l' else x :: unique_from y l'
  end.

(** [l.erase(std::unique(l.begin(), l.end()), l.end())]. *)
Definition std_unique (l : list A) : list A :=
  match l with
  | [] => []
  | x :: l' => unique_from x l'
  end.

(** [std::adjacent_find(l.begin(), l.end()) != l.end()]. *)
Fixpoint std_adjacent_dup (l : list A) : bool :=
  match l with
  | [] => false
  | x :: l' =>
      match l' with
      | [] => false
      | y :: _ => eqb x y || std_adjacent_dup l'
      end
  end.
End Unique.

(** ** Facts about [std_sort] *)

Section SortFacts.
Context {A : Type} (less : A → A → bool) `{!StrictWeakOrder less}.

Lemma swo_asym x y : less x y = true → less y x = false.
Proof.
  intros H. destruct (less y x) eqn:E; [|done].
  rewrite <-(swo_irrefl (less := less) x). symmetry. eapply swo_trans; eauto.
Qed.

Lemma sort_insert_perm x l : sort_insert less x l ≡ₚ x :: l.
Proof.
  induction l as [|y l IH]; [done|]. cbn.
  destruct (less y x); [|done]. rewrite IH. by rewrite Permutation_swap.
Qed.

Lemma std_sort_perm l : std_sort less l ≡ₚ l.
Proof. induction l as [|x l IH]; [done|]. cbn. by rewrite sort_insert_perm, IH. Qed.

Lemma not_after_trans x y z :
  not_after less x y → not_after less y z → not_after less x z.
Proof.
  unfold not_after. intros Hxy Hyz. destruct (less z x) eqn:E; [|done].
  destruct (swo_split (less := less) z y x E); congruence.
Qed.

Lemma sort_insert_sorted x l :
  StronglySorted (not_after less) l →
  StronglySorted (not_after less) (sort_insert less x l).
Proof.
  induction 1 as [|y l Hl IH Hy]; cbn; [by repeat constructor|].
  destruct (less y x) eqn:E.
  - constructor; [done|]. rewrite sort_insert_perm. constructor; [|done].
    by apply swo_asym.
  - constructor; [by constructor|]. constructor; [done|].
    eapply Forall_impl; [exact Hy|]. intros z. by apply not_after_trans.
Qed.

Lemma std_sort_sorted l : StronglySorted (not_after less) (std_sort less l).
Proof. induction l; cbn; [constructor|by apply sort_insert_sorted]. Qed.

Lemma sorted_unique l k :
  StronglySorted (not_after less) l → StronglySorted (not_after less) k →
  (∀ x y, x ∈ l → y ∈ l → not_after less x y → not_after less y x → x = y) →
  l ≡ₚ k → l = k.
Proof.
  intros Hl. revert k. induction Hl as [|x l Hl IH Hx]; intros k Hk Hsep Hp.
  { symmetry. by apply Permutation_nil. }
  destruct k as [|y k]; [by apply Permutation_sym, Permutation_nil in Hp|].
  assert (y ∈ x :: l) as Hy by (rewrite Hp; left).
  assert (x ∈ y :: k) as Hx' by (rewrite <-Hp; left).
  inversion Hk as [|? ? Hk' Hyk]; subst.
  assert (x = y) as <-.
  { apply elem_of_cons in Hy as [->|Hy]; [done|].
    apply elem_of_cons in Hx' as [->|Hx']; [done|].
    rewrite Forall_forall in Hx, Hyk.
    apply Hsep; [left|by right|by apply Hx|by apply Hyk]. }
  f_equal. apply IH; [done| |by eapply Permutation_cons_inv].
  intros. apply Hsep; by try right.
Qed.

(** Sorting forgets the order of an input whose elements the comparator
    separates. *)
Lemma std_sort_unique l k :
  (∀ x y, x ∈ l → y ∈ l → less x y = false → less y x = false → x = y) →
  l ≡ₚ k → std_sort less l = std_sort less k.
Proof.
  intros Hsep Hp. apply sorted_unique; try apply std_sort_sorted.
  - intros x y. rewrite std_sort_perm. intros ????. by apply Hsep.
  - by rewrite !std_sort_perm.
Qed.

Lemma std_sort_sorted_id l :
  StronglySorted (not_after less) l → std_sort less l = l.
Proof.
  induction 1 as [|x l Hl IH Hx]; [done|]. cbn. rewrite IH.
  destruct l as [|y l]; [done|]. cbn. inversion Hx as [|? ? Hxy]; subst.
  unfold not_after in Hxy. by rewrite Hxy.
Qed.

(** The range a comparator partitions: once [before] fails it keeps failing. *)
Lemma lower_bound_elem (before : A → bool) l x :
  StronglySorted (λ x y, before x = false → before y = false) l →
  x ∈ l → before x = false → x ∈ std_lower_bound before l.
Proof.
  induction 1 as [|y l Hl IH Hy]; cbn; [done|].
  intros Hin Hx. destruct (before y) eqn:E; [|done].
  apply elem_of_cons in Hin as [->|Hin]; [congruence|]. by apply IH.
Qed.

Lemma std_binary_search_spec l v :
  StronglySorted (not_after less) l →
  std_binary_search less l v = true ↔
  ∃ x, x ∈ l ∧ less x v = false ∧ less v x = false.
Proof.
  unfold std_binary_search. induction 1 as [|y l Hl IH Hy]; cbn.
  { split; [done|]. intros (x & Hx & _). by apply elem_of_nil in Hx. }
  destruct (less y v) eqn:E.
  - rewrite IH. split; intros (x & Hx & H1 & H2); exists x.
    + split_and!; [by right|done..].
    + apply elem_of_cons in Hx as [->|Hx]; [congruence|done].
  - rewrite negb_true_iff. split.
    + intros. exists y. split_and!; [left|done..].
    + intros (x & Hx & H1 & H2). apply elem_of_cons in Hx as [->|Hx]; [done|].
      rewrite Forall_forall in Hy. specialize (Hy x Hx). unfold not_after in Hy.
      destruct (less v y) eqn:E2; [|done].
      destruct (swo_split (less := less) v x y E2); congruence.
Qed.
End SortFacts.

(** ** Facts for an order that separates distinct elements *)

Section TotalFacts.
Context {A : Type} (less : A → A → bool) `{!StrictTotalOrder less}.

Lemma std_sort_total_perm l k : l ≡ₚ k → std_sort less l = std_sort less k.
Proof. apply std_sort_unique; [apply _|]. intros. by apply sto_total. Qed.

Lemma std_sort_elem l x : x ∈ std_sort less l ↔ x ∈ l.
Proof. by rewrite std_sort_perm. Qed.

Lemma binary_search_elem l v :
  StronglySorted (not_after less) l → std_binary_search less l v = true ↔ v ∈ l.
Proof.
  intros Hl. rewrite (std_binary_search_spec less) by done. split.
  - intros (x & Hx & H1 & H2). by rewrite <-(sto_total x v H1 H2).
  - intros Hv. exists v. by rewrite swo_irrefl.
Qed.

Lemma binary_search_sort l v :
  std_binary_search less (std_sort less l) v = true ↔ v ∈ l.
Proof.
  rewrite binary_search_elem by (apply (std_sort_sorted less)). apply std_sort_elem.
Qed.

Lemma min_element_spec x l :
  std_min_element less x l ∈ x :: l ∧
  ∀ y, y ∈ x :: l → less y (std_min_element less x l) = false.
Proof.
  revert x. induction l as [|y l IH]; intros x; cbn.
  { split; [left|]. intros y ->%list_elem_of_singleton. apply swo_irrefl. }
  destruct (IH (if less y x then y else x)) as [H1 H2]. split.
  - apply elem_of_cons in H1 as [->|]; [|by right; right].
    destruct (less y x); [right; left|left].
  - assert (∀ m, less (if less y x then y else x) m = false →
              less x m = false ∧ less y m = false) as Hm.
    { intros m Hm. destruct (less y x) eqn:E; split; try done.
      - apply (not_after_trans less m y x Hm). by apply (swo_asym less).
      - by apply (not_after_trans less m x y Hm). }
    destruct (Hm _ (H2 _ ltac:(left))) as [Hx Hy].
    intros z [->|[->|Hz]%elem_of_cons]%elem_of_cons; [done..|].
    apply H2. by right.
Qed.

Lemma min_element_perm x l y k :
  x :: l ≡ₚ y :: k → std_min_element less x l = std_min_element less y k.
Proof.
  intros Hp. destruct (min_element_spec x l) as [H1 H2].
  destruct (min_element_spec y k) as [H3 H4].
  apply sto_total; [apply H4; by rewrite <-Hp|apply H2; by rewrite Hp].
Qed.

(** [std_unique] and [std_adjacent_dup] on a sorted range. *)
Context (eqb : A → A → bool) (Heqb : ∀ x y, eqb x y = true ↔ x = y).

Lemma unique_from_elem x l z : z ∈ unique_from eqb x l ↔ z ∈ x :: l.
Proof.
  revert x. induction l as [|y l IH]; intros x; cbn; [done|].
  destruct (eqb x y) eqn:E.
  - apply Heqb in E as ->. rewrite IH. rewrite !elem_of_cons. tauto.
  - rewrite elem_of_cons, IH. by rewrite !elem_of_cons.
Qed.

Lemma std_unique_elem l z : z ∈ std_unique eqb l ↔ z ∈ l.
Proof. destruct l; [done|]. apply unique_from_elem. Qed.

Lemma unique_from_sorted x l :
  StronglySorted (not_after less) (x :: l) →
  StronglySorted (λ a b, less a b = true) (unique_from eqb x l).
Proof.
  revert x. induction l as [|y l IH]; intros x Hs; cbn; [by repeat constructor|].
  inversion Hs as [|? ? Hs' Hx]; subst. destruct (eqb x y) eqn:E.
  { apply Heqb in E as ->. by apply IH. }
  constructor; [by apply IH|]. rewrite Forall_forall. intros z Hz.
  rewrite unique_from_elem in Hz.
  assert (less x y = true) as Hxy.
  { destruct (less x y) eqn:E2; [done|]. inversion Hx as [|? ? Hxy _]; subst.
    rewrite (sto_total x y E2 Hxy) in E.
    assert (eqb y y = true) by (by apply Heqb). congruence. }
  apply elem_of_cons in Hz as [->|Hz]; [done|].
  inversion Hs' as [|? ? _ Hy]; subst. rewrite Forall_forall in Hy.
  specialize (Hy z Hz). unfold not_after in Hy.
  destruct (swo_split (less := less) x z y Hxy) as [|?]; [done|congruence].
Qed.

Lemma std_unique_sorted l :
  StronglySorted (not_after less) l →
  StronglySorted (λ a b, less a b = true) (std_unique eqb l).
Proof. destruct l; [constructor|]. apply unique_from_sorted. Qed.

Lemma strictly_sorted_not_after l :
  StronglySorted (λ a b, less a b = true) l → StronglySorted (not_after less) l.
Proof.
  induction 1 as [|x l Hl IH Hx]; constructor; [done|].
  eapply Forall_impl; [exact Hx|]. intros y. by apply swo_asym; apply _.
Qed.

Lemma strictly_sorted_NoDup l : StronglySorted (λ a b, less a b = true) l → NoDup l.
Proof.
  induction 1 as [|x l Hl IH Hx]; constructor; [|done].
  intros Hin. rewrite Forall_forall in Hx. specialize (Hx x Hin).
  by rewrite swo_irrefl in Hx.
Qed.

(** On a sorted range [std::adjacent_find] decides whether a value repeats. *)
Lemma adjacent_dup_sorted l :
  StronglySorted (not_after less) l → std_adjacent_dup eqb l = false ↔ NoDup l.
Proof.
  induction 1 as [|x l Hl IH Hx]; [by split; [constructor|]|].
  cbn. destruct l as [|y l]; [split; [repeat constructor; by intros ?%elem_of_nil|done]|].
  rewrite orb_false_iff, IH, (NoDup_cons x). split; intros [H1 H2]; split; try done.
  - intros Hin. inversion Hx as [|? ? Hxy _]; subst.
    assert (x = y) as ->; [|by rewrite (proj2 (Heqb y y) eq_refl) in H1].
    apply elem_of_cons in Hin as [->|Hin]; [done|].
    inversion Hl as [|? ? _ Hy]; subst. rewrite Forall_forall in Hy.
    by apply sto_total; [apply Hy|].
  - destruct (eqb x y) eqn:E; [|done]. apply Heqb in E as ->.
    exfalso. apply H1. left.
Qed.

Lemma sort_adjacent_dup l :
  std_adjacent_dup eqb (std_sort less l) = false ↔ NoDup l.
Proof.
  rewrite adjacent_dup_sorted by (apply std_sort_sorted; apply _).
  by rewrite std_sort_perm.
Qed.

(** Sorting and removing duplicates yields the same list from two inputs with
    the same members. *)
Lemma sort_unique_ext l k :
  (∀ x, x ∈ l ↔ x ∈ k) →
  std_unique eqb (std_sort less l) = std_unique eqb (std_sort less k).
Proof.
  intros Hext.
  assert (∀ j, StronglySorted (λ a b, less a b = true)
                 (std_unique eqb (std_sort less j))) as Hs.
  { intros j. apply std_unique_sorted, std_sort_sorted; apply _. }
  eapply sorted_unique; try (by apply strictly_sorted_not_after, Hs); try apply _.
  - intros. by apply sto_total.
  - apply NoDup_Permutation; [apply strictly_sorted_NoDup, Hs..|].
    intros x. by rewrite !std_unique_elem, !std_sort_elem.
Qed.
End TotalFacts.

(** ** Lookup by key in a range sorted by that key *)

Section Keyed.
Context {A : Type} (key : A → N).

(** [LookupById]: [std::lower_bound] on the key, then the equality test. *)
Definition lookup_key (sorted : list A) (id : N) : option A :=
  match std_lower_bound (λ item, key item <? id) sorted with
  | [] => None
  | x :: _ => if key x =? id then Some x else None
  end.

Lemma lookup_key_Some l id x :
  lookup_key l id = Some x → x ∈ l ∧ key x = id.
Proof.
  unfold lookup_key. induction l as [|y l IH]; cbn; [done|].
  destruct (key y <? id).
  - intros H. destruct (IH H). by split; [right|].
  - destruct (N.eqb_spec (key y) id); [|done]. intros [= <-]. split; [left|done].
Qed.

Lemma lookup_key_sorted l x :
  StronglySorted (not_after (by_key key)) l → NoDup (key <$> l) →
  x ∈ l → lookup_key l (key x) = Some x.
Proof.
  unfold lookup_key, not_after, by_key.
  induction 1 as [|y l Hl IH Hy]; cbn; [by intros _ ?%elem_of_nil|].
  rewrite NoDup_cons. intros [Hny Hnd] Hin.
  apply elem_of_cons in Hin as [->|Hin].
  { rewrite N.ltb_irrefl, N.eqb_refl. done. }
  rewrite Forall_forall in Hy. specialize (Hy x Hin). b2p.
  destruct (N.ltb_spec (key y) (key x)) as [|Hge]; [by apply IH|].
  destruct Hny. replace (key y) with (key x) by lia. by apply list_elem_of_fmap_2.
Qed.

Lemma lookup_key_None l id :
  StronglySorted (not_after (by_key key)) l → NoDup (key <$> l) →
  lookup_key l id = None ↔ id ∉ key <$> l.
Proof.
  intros Hs Hnd. split.
  - intros Hn (x & -> & Hx)%list_elem_of_fmap.
    rewrite (lookup_key_sorted l x) in Hn; done.
  - intros Hn. destruct (lookup_key l id) as [x|] eqn:E; [|done].
    apply lookup_key_Some in E as [Hx <-]. by destruct Hn; apply list_elem_of_fmap_2.
Qed.

Lemma sort_by_key_perm l k :
  NoDup (key <$> l) → l ≡ₚ k → std_sort (by_key key) l = std_sort (by_key key) k.
Proof.
  intros Hnd. apply std_sort_unique; [apply _|].
  unfold by_key. intros x y Hx Hy ??. b2p. apply (NoDup_fmap_elem_inj key l); try done. lia.
Qed.

Lemma lookup_key_sort l id x :
  NoDup (key <$> l) →
  lookup_key (std_sort (by_key key) l) id = Some x ↔ x ∈ l ∧ key x = id.
Proof.
  intros Hnd. split.
  - intros H%lookup_key_Some. by rewrite std_sort_perm in H.
  - intros [Hx <-]. apply lookup_key_sorted.
    + apply std_sort_sorted; apply _.
    + by rewrite std_sort_perm.
    + by rewrite std_sort_perm.
Qed.
End Keyed.

(** ** Lexicographic and mapped comparators *)

(** Compares with [first], and with [second] where [first] ties. *)
Definition lex_less {A} (first second : A → A → bool) (x y : A) : bool :=
  if first x y then true else if first y x then false else second x y.

#[export] Instance lex_less_order {A} (first second : A → A → bool) :
  StrictWeakOrder first → StrictWeakOrder second → StrictWeakOrder (lex_less first second).
Proof.
  intros H1 H2. unfold lex_less. split.
  - intros x. by rewrite !swo_irrefl.
  - intros x y z Hxy Hyz.
    destruct (first x y) eqn:E1.
    + destruct (first y z) eqn:E2; [by rewrite (swo_trans x y z)|].
      destruct (first z y) eqn:E3; [done|].
      destruct (swo_split (less := first) x z y E1) as [->|]; [done|congruence].
    + destruct (first y x) eqn:E2; [done|]. destruct (first y z) eqn:E3.
      * destruct (swo_split (less := first) y x z E3) as [|H]; [congruence|by rewrite H].
      * destruct (first z y) eqn:E4; [done|].
        destruct (first x z) eqn:E5; [done|]. destruct (first z x) eqn:E6.
        { destruct (swo_split (less := first) z y x E6); congruence. }
        by apply (swo_trans x y z).
  - intros x y z. destruct (first x z) eqn:E.
    + intros _. destruct (swo_split (less := first) x y z E) as [->| ->]; [by left|by right].
    + destruct (first z x) eqn:E'; [done|]. intros Hxz.
      destruct (first x y) eqn:E1; [by left|]. destruct (first y z) eqn:E2; [by right|].
      destruct (first y x) eqn:E3.
      { destruct (swo_split (less := first) y z x E3); congruence. }
      destruct (first z y) eqn:E4.
      { destruct (swo_split (less := first) z x y E4); congruence. }
      by apply (swo_split (less := second)).
Qed.

(** Comparing through a function. *)
Definition map_less {A B} (f : A → B) (less : B → B → bool) (x y : A) : bool :=
  less (f x) (f y).

#[export] Instance map_less_order {A B} (f : A → B) (less : B → B → bool) :
  StrictWeakOrder less → StrictWeakOrder (map_less f less).
Proof.
  intros H. unfold map_less. split.
  - intros x. apply swo_irrefl.
  - intros x y z. apply swo_trans.
  - intros x y z. apply swo_split.
Qed.

(** Sorting only compares members of the list. *)
Lemma std_sort_ext {A} (less less' : A → A → bool) l :
  (∀ x y, x ∈ l → y ∈ l → less x y = less' x y) → std_sort less l = std_sort less' l.
Proof.
  assert (∀ x k, (∀ y, y ∈ k → less y x = less' y x) →
            sort_insert less x k = sort_insert less' x k) as Hins.
  { intros x k. induction k as [|y k IH]; intros H; [done|]. cbn.
    rewrite (H y) by left. rewrite IH; [done|]. intros z Hz. apply H. by right. }
  induction l as [|x l IH]; intros H; [done|]. cbn.
  rewrite IH by (intros; apply H; by right). apply Hins. intros y Hy.
  apply H; [right|left].
  assert (∀ less'' k, (y ∈ std_sort less'' k → y ∈ k)) as Hperm; [|by eapply Hperm].
  clear. intros less k. revert y. induction k as [|z k IH]; intros y; [done|]. cbn.
  assert (∀ j, y ∈ sort_insert less z j → y = z ∨ y ∈ j) as Hi.
  { induction j as [|w j IHj]; cbn; [by intros ->%list_elem_of_singleton; left|].
    destruct (less w z); rewrite !elem_of_cons; [|tauto].
    intros [->|H]; [by right; left|]. destruct (IHj H); tauto. }
  intros [->|H]%Hi; [left|right; by apply IH].
Qed.

(** The first element of a sorted range is no greater than any other. *)
Lemma std_sort_head {A} (less : A → A → bool) `{!StrictWeakOrder less} l x k :
  std_sort less l = x :: k → ∀ y, y ∈ l → less y x = false.
Proof.
  intros Hs y Hy. pose proof (std_sort_sorted less l) as Hsort. rewrite Hs in Hsort.
  rewrite <-(std_sort_perm less l), Hs in Hy. inversion Hsort as [|? ? _ Hx]; subst.
  apply elem_of_cons in Hy as [->|Hy]; [apply swo_irrefl|].
  rewrite Forall_forall in Hx. by apply Hx.
Qed.
