(* ===== verification/Checked.v ===== *)
(** * Checked integer arithmetic and generation counters

    [checked.hpp] (overflow-reporting and saturating [std::uint64_t]
    arithmetic, narrowing), and the counter operations and comparisons of [Id],
    [Generation] and [FabricEpoch] in [ids.hpp].  Each operation is written with the 64-bit
    wrap-around of the C++ expression it returns. *)

From S2P Require Import Prelude.

(** ** [checked.hpp] *)

Definition CheckedAdd (a b : N) : option N :=
  if uint_max 64 - b <? a then None else Some (wrap 64 (a + b)).

Definition CheckedSub (a b : N) : option N :=
  if a <? b then None else Some (a - b).

Definition CheckedMul (a b : N) : option N :=
  if (a =? 0) || (b =? 0) then Some 0
  else if uint_max 64 / b <? a then None else Some (wrap 64 (a * b)).

Definition SaturatingAdd (a b : N) : N :=
  match CheckedAdd a b with Some sum => sum | None => uint_max 64 end.

Definition SaturatingMul (a b : N) : N :=
  match CheckedMul a b with Some product => product | None => uint_max 64 end.

Definition Narrow (w v : N) : option N :=
  if uint_max w <? v then None else Some (wrap w v).
Definition NarrowU32 (v : N) : option N := Narrow 32 v.
Definition NarrowU16 (v : N) : option N := Narrow 16 v.
Definition NarrowU8 (v : N) : option N := Narrow 8 v.

(** ** [ids.hpp]

    Identities, generations and epochs are [std::uint64_t] values behind
    distinct C++ types; 0 means absent.  They are all [N] here. *)

(** [valid()] of [Id], [Generation] and [FabricEpoch]. *)
Definition valid (value : N) : bool := negb (value =? 0).

(** [IsNewerThan]. *)
Definition IsNewerThan (value other : N) : bool := other <? value.

(** [Advance]: the new counter, or [None] when it returns false and leaves the
    counter as it is. *)
Definition Advance (value : N) : option N :=
  if value =? uint_max 64 then None else Some (wrap 64 (value + 1)).

(** [Next]. *)
Definition Next (value : N) : N :=
  match Advance value with Some next => next | None => value end.

(** ** Facts *)

Lemma wrap_small w n : uint_fits w n → wrap w n = n.
Proof. apply N.mod_small. Qed.

Lemma wrap_fits w n : uint_fits w (wrap w n).
Proof. apply N.mod_lt, N.pow_nonzero. done. Qed.

Lemma valid_true n : valid n = true ↔ n ≠ 0.
Proof. unfold valid. b2p. done. Qed.

Lemma valid_false n : valid n = false ↔ n = 0.
Proof. unfold valid. b2p. done. Qed.

#[export] Hint Rewrite valid_true valid_false : b2p.
#[export] Hint Resolve wrap_fits : core.

Lemma uint_fits_max w n : uint_fits w n ↔ n ≤ uint_max w.
Proof.
  unfold uint_fits, uint_max.
  assert (2 ^ w ≠ 0) by (by apply N.pow_nonzero). lia.
Qed.

Lemma CheckedMul_div a b : b ≠ 0 → a ≤ uint_max 64 / b ↔ a * b ≤ uint_max 64.
Proof.
  intros Hb. rewrite (N.mul_comm a). split.
  - intros H. etransitivity; [apply N.mul_le_mono_l, H|]. by apply N.Div0.mul_div_le.
  - intros H. by apply N.div_le_lower_bound.
Qed.

Lemma CheckedMul_spec a b :
  u64_fits a → u64_fits b →
  CheckedMul a b = (if a * b <=? uint_max 64 then Some (a * b) else None).
Proof.
  intros Ha Hb. unfold CheckedMul.
  destruct (N.eqb_spec a 0) as [->|Ha0]; [done|].
  destruct (N.eqb_spec b 0) as [->|Hb0]; [by rewrite N.mul_0_r|]. cbn [orb].
  pose proof (CheckedMul_div a b Hb0) as Hdiv.
  destruct (N.ltb_spec (uint_max 64 / b) a); destruct (N.leb_spec (a * b) (uint_max 64));
    try lia; [done|].
  f_equal. apply wrap_small. by apply uint_fits_max.
Qed.

Lemma CheckedAdd_spec a b :
  u64_fits a → u64_fits b →
  CheckedAdd a b = (if a + b <=? uint_max 64 then Some (a + b) else None).
Proof.
  rewrite !uint_fits_max. intros Ha Hb. unfold CheckedAdd.
  destruct (N.ltb_spec (uint_max 64 - b) a); destruct (N.leb_spec (a + b) (uint_max 64));
    try lia; [done|].
  f_equal. apply wrap_small. by apply uint_fits_max.
Qed.

Lemma Advance_spec n :
  u64_fits n → Advance n = (if n <? uint_max 64 then Some (n + 1) else None).
Proof.
  rewrite uint_fits_max. intros Hn. unfold Advance.
  destruct (N.eqb_spec n (uint_max 64)); destruct (N.ltb_spec n (uint_max 64)); try lia; [done|].
  f_equal. apply wrap_small. apply uint_fits_max. lia.
Qed.

(** * Comparing identities, generations and epochs

    The comparison operators of [Id], [Generation] and [FabricEpoch] in [ids.hpp], which
    the maps and the sorts of the sources use, their texts, and the counter of
    [FabricEpoch]: each compares as the number it wraps does. *)

Record Comparisons := mkComparisons {
  op_eq : N → N → bool;
  op_ne : N → N → bool;
  op_lt : N → N → bool;
  op_gt : N → N → bool;
  op_le : N → N → bool;
  op_ge : N → N → bool;
}.

Definition Id_comparisons : Comparisons := {|
  op_eq a b := a =? b;
  op_ne a b := negb (a =? b);
  op_lt a b := a <? b;
  op_gt a b := b <? a;
  op_le a b := negb (b <? a);
  op_ge a b := negb (a <? b);
|}.

(** [operator<] of [Generation], which the other three are written with. *)
Definition Generation_less (a b : N) : bool := a <? b.

Definition Generation_comparisons : Comparisons := {|
  op_eq a b := a =? b;
  op_ne a b := negb (a =? b);
  op_lt := Generation_less;
  op_gt a b := Generation_less b a;
  op_le a b := negb (Generation_less b a);
  op_ge a b := negb (Generation_less a b);
|}.

Definition FabricEpoch_equal (a b : N) : bool := a =? b.
Definition FabricEpoch_less (a b : N) : bool := a <? b.

Definition FabricEpoch_comparisons : Comparisons := {|
  op_eq := FabricEpoch_equal;
  op_ne a b := negb (FabricEpoch_equal a b);
  op_lt := FabricEpoch_less;
  op_gt a b := FabricEpoch_less b a;
  op_le a b := negb (FabricEpoch_less b a);
  op_ge a b := negb (FabricEpoch_less a b);
|}.

Definition FabricEpoch_valid (value : N) : bool := negb (value =? 0).
Definition FabricEpoch_IsNewerThan (value other : N) : bool := other <? value.

(** The new epoch, or [None] when it returns false and leaves the epoch as it is. *)
Definition FabricEpoch_Advance (value : N) : option N :=
  if value =? uint_max 64 then None else Some (wrap 64 (value + 1)).

Definition Id_ToString (value : N) : string := to_string value.
Definition Generation_ToString (value : N) : string := to_string value.

(** ** What the operators are *)

(** The six operators are those of the numbers. *)
Class Numerical (c : Comparisons) : Prop := {
  numerical_eq a b : op_eq c a b = true ↔ a = b;
  numerical_ne a b : op_ne c a b = true ↔ a ≠ b;
  numerical_lt a b : op_lt c a b = true ↔ a < b;
  numerical_gt a b : op_gt c a b = true ↔ b < a;
  numerical_le a b : op_le c a b = true ↔ a ≤ b;
  numerical_ge a b : op_ge c a b = true ↔ b ≤ a;
}.

Ltac numerical :=
  split; intros a b; cbn;
    unfold Generation_less, FabricEpoch_equal, FabricEpoch_less; b2p; lia.

#[export] Instance Id_numerical : Numerical Id_comparisons.
Proof. numerical. Qed.
#[export] Instance Generation_numerical : Numerical Generation_comparisons.
Proof. numerical. Qed.
#[export] Instance FabricEpoch_numerical : Numerical FabricEpoch_comparisons.
Proof. numerical. Qed.

(** Exactly one of the three holds, which [std::map] relies on. *)
Lemma numerical_trichotomy c `{Numerical c} a b :
  (op_lt c a b = true ∧ op_eq c a b = false ∧ op_lt c b a = false) ∨
  (op_lt c a b = false ∧ op_eq c a b = true ∧ op_lt c b a = false) ∨
  (op_lt c a b = false ∧ op_eq c a b = false ∧ op_lt c b a = true).
Proof.
  rewrite <-!not_true_iff_false, !numerical_lt, !numerical_eq. lia.
Qed.

(** An advance makes the next newer counter, and fails at the last one only. *)
Lemma FabricEpoch_Advance_newer epoch :
  u64_fits epoch →
  match FabricEpoch_Advance epoch with
  | Some next =>
      FabricEpoch_IsNewerThan next epoch = true ∧ FabricEpoch_valid next = true ∧ u64_fits next ∧
      ∀ other, FabricEpoch_IsNewerThan other epoch = true → op_le FabricEpoch_comparisons next other = true
  | None => epoch = uint_max 64
  end.
Proof.
  intros He. pose proof (Advance_spec epoch He) as Ha.
  change (FabricEpoch_Advance epoch) with (Advance epoch). rewrite Ha.
  apply uint_fits_max in He. destruct (N.ltb_spec epoch (uint_max 64)); [|lia].
  unfold FabricEpoch_IsNewerThan, FabricEpoch_valid. rewrite uint_fits_max. split_and!.
  - b2p. lia.
  - b2p. lia.
  - lia.
  - intros other. rewrite numerical_le. b2p. lia.
Qed.
