(* ===== verification/Status.v ===== *)
(** * Status codes and results

    [status.hpp] and [status.cpp]: the enumeration of status codes with their
    numeric values, the name and category table, and the [Status] and
    [Result] types every fallible operation returns. *)

From Stdlib Require Import String.
From S2P Require Import Prelude.

Module StatusCode.
Inductive StatusCode :=
  | kOk
  | kMalformedRequest
  | kOversizeRequest
  | kDuplicatePathId
  | kInvalidId
  | kUnknownReference
  | kInconsistentAuthorityGeneration
  | kContradictoryConstraints
  | kUnrepresentableValue
  | kMissingField
  | kInvalidFieldValue
  | kStaleAuthorityGeneration
  | kStaleCandidateSet
  | kStaleCapacitySnapshot
  | kStalePolicy
  | kStaleQos
  | kStaleFabricEpoch
  | kStaleIncumbent
  | kStaleEvidence
  | kCapacityInsufficient
  | kServiceClassUnsatisfied
  | kFailureDomainDiversityUnmet
  | kLatencyBudgetUnmet
  | kPolicyRejectedFlow
  | kPolicyRejectedAllPaths
  | kPolicyDeferred
  | kPolicyMoveSuppressed
  | kPolicyHeadroomGate
  | kQueueFull
  | kShuttingDown
  | kFencedStaleEpoch
  | kFencedStaleIncarnation
  | kDuplicateAttemptConflict
  | kCancelled
  | kAlreadyCommitted
  | kUnknownAttempt
  | kWorkerLimitExceeded
  | kNotRunning
  | kStoreNotFound
  | kStoreCorrupt
  | kStoreTruncatedTail
  | kStoreVersionUnsupported
  | kStoreIoError
  | kStoreGrowthExceeded
  | kStoreAmbiguousAttempt
  | kFrameTooLarge
  | kFrameChecksumMismatch
  | kProtocolMismatch
  | kWireMalformed
  | kConnectionClosed
  | kIoError
  | kSocketError
  | kInvalidArgument
  | kNotFound
  | kAlreadyExists
  | kUnsupported
  | kArithmeticOverflow
  | kInternalInvariantViolation.

(** The underlying [std::uint16_t]. *)
Definition code_value (c : StatusCode) : N :=
  match c with
  | kOk => 0
  | kMalformedRequest => 10
  | kOversizeRequest => 11
  | kDuplicatePathId => 12
  | kInvalidId => 13
  | kUnknownReference => 14
  | kInconsistentAuthorityGeneration => 15
  | kContradictoryConstraints => 16
  | kUnrepresentableValue => 17
  | kMissingField => 18
  | kInvalidFieldValue => 19
  | kStaleAuthorityGeneration => 30
  | kStaleCandidateSet => 31
  | kStaleCapacitySnapshot => 32
  | kStalePolicy => 33
  | kStaleQos => 34
  | kStaleFabricEpoch => 35
  | kStaleIncumbent => 36
  | kStaleEvidence => 37
  | kCapacityInsufficient => 50
  | kServiceClassUnsatisfied => 51
  | kFailureDomainDiversityUnmet => 52
  | kLatencyBudgetUnmet => 53
  | kPolicyRejectedFlow => 70
  | kPolicyRejectedAllPaths => 71
  | kPolicyDeferred => 72
  | kPolicyMoveSuppressed => 73
  | kPolicyHeadroomGate => 74
  | kQueueFull => 90
  | kShuttingDown => 91
  | kFencedStaleEpoch => 92
  | kFencedStaleIncarnation => 93
  | kDuplicateAttemptConflict => 94
  | kCancelled => 95
  | kAlreadyCommitted => 96
  | kUnknownAttempt => 97
  | kWorkerLimitExceeded => 98
  | kNotRunning => 99
  | kStoreNotFound => 110
  | kStoreCorrupt => 111
  | kStoreTruncatedTail => 112
  | kStoreVersionUnsupported => 113
  | kStoreIoError => 114
  | kStoreGrowthExceeded => 115
  | kStoreAmbiguousAttempt => 116
  | kFrameTooLarge => 130
  | kFrameChecksumMismatch => 131
  | kProtocolMismatch => 132
  | kWireMalformed => 133
  | kConnectionClosed => 134
  | kIoError => 150
  | kSocketError => 151
  | kInvalidArgument => 152
  | kNotFound => 153
  | kAlreadyExists => 154
  | kUnsupported => 155
  | kArithmeticOverflow => 156
  | kInternalInvariantViolation => 157
  end.
End StatusCode.
Abbreviation StatusCode := StatusCode.StatusCode.
Abbreviation code_value := StatusCode.code_value.

(** [kCodeNames]: every code with its name and its category. *)
Definition kCodeNames : list (StatusCode * string * string) := [
  (StatusCode.kOk, "OK"%string, "ok"%string);
  (StatusCode.kMalformedRequest, "MALFORMED_REQUEST"%string, "structural"%string);
  (StatusCode.kOversizeRequest, "OVERSIZE_REQUEST"%string, "structural"%string);
  (StatusCode.kDuplicatePathId, "DUPLICATE_PATH_ID"%string, "structural"%string);
  (StatusCode.kInvalidId, "INVALID_ID"%string, "structural"%string);
  (StatusCode.kUnknownReference, "UNKNOWN_REFERENCE"%string, "structural"%string);
  (StatusCode.kInconsistentAuthorityGeneration, "INCONSISTENT_AUTHORITY_GENERATION"%string, "structural"%string);
  (StatusCode.kContradictoryConstraints, "CONTRADICTORY_CONSTRAINTS"%string, "structural"%string);
  (StatusCode.kUnrepresentableValue, "UNREPRESENTABLE_VALUE"%string, "structural"%string);
  (StatusCode.kMissingField, "MISSING_FIELD"%string, "structural"%string);
  (StatusCode.kInvalidFieldValue, "INVALID_FIELD_VALUE"%string, "structural"%string);
  (StatusCode.kStaleAuthorityGeneration, "STALE_AUTHORITY_GENERATION"%string, "staleness"%string);
  (StatusCode.kStaleCandidateSet, "STALE_CANDIDATE_SET"%string, "staleness"%string);
  (StatusCode.kStaleCapacitySnapshot, "STALE_CAPACITY_SNAPSHOT"%string, "staleness"%string);
  (StatusCode.kStalePolicy, "STALE_POLICY"%string, "staleness"%string);
  (StatusCode.kStaleQos, "STALE_QOS"%string, "staleness"%string);
  (StatusCode.kStaleFabricEpoch, "STALE_FABRIC_EPOCH"%string, "staleness"%string);
  (StatusCode.kStaleIncumbent, "STALE_INCUMBENT"%string, "staleness"%string);
  (StatusCode.kStaleEvidence, "STALE_EVIDENCE"%string, "staleness"%string);
  (StatusCode.kCapacityInsufficient, "CAPACITY_INSUFFICIENT"%string, "feasibility"%string);
  (StatusCode.kServiceClassUnsatisfied, "SERVICE_CLASS_UNSATISFIED"%string, "feasibility"%string);
  (StatusCode.kFailureDomainDiversityUnmet, "FAILURE_DOMAIN_DIVERSITY_UNMET"%string, "feasibility"%string);
  (StatusCode.kLatencyBudgetUnmet, "LATENCY_BUDGET_UNMET"%string, "feasibility"%string);
  (StatusCode.kPolicyRejectedFlow, "POLICY_REJECTED_FLOW"%string, "policy"%string);
  (StatusCode.kPolicyRejectedAllPaths, "POLICY_REJECTED_ALL_PATHS"%string, "policy"%string);
  (StatusCode.kPolicyDeferred, "POLICY_DEFERRED"%string, "policy"%string);
  (StatusCode.kPolicyMoveSuppressed, "POLICY_MOVE_SUPPRESSED"%string, "policy"%string);
  (StatusCode.kPolicyHeadroomGate, "POLICY_HEADROOM_GATE"%string, "policy"%string);
  (StatusCode.kQueueFull, "QUEUE_FULL"%string, "runtime"%string);
  (StatusCode.kShuttingDown, "SHUTTING_DOWN"%string, "runtime"%string);
  (StatusCode.kFencedStaleEpoch, "FENCED_STALE_EPOCH"%string, "runtime"%string);
  (StatusCode.kFencedStaleIncarnation, "FENCED_STALE_INCARNATION"%string, "runtime"%string);
  (StatusCode.kDuplicateAttemptConflict, "DUPLICATE_ATTEMPT_CONFLICT"%string, "runtime"%string);
  (StatusCode.kCancelled, "CANCELLED"%string, "runtime"%string);
  (StatusCode.kAlreadyCommitted, "ALREADY_COMMITTED"%string, "runtime"%string);
  (StatusCode.kUnknownAttempt, "UNKNOWN_ATTEMPT"%string, "runtime"%string);
  (StatusCode.kWorkerLimitExceeded, "WORKER_LIMIT_EXCEEDED"%string, "runtime"%string);
  (StatusCode.kNotRunning, "NOT_RUNNING"%string, "runtime"%string);
  (StatusCode.kStoreNotFound, "STORE_NOT_FOUND"%string, "store"%string);
  (StatusCode.kStoreCorrupt, "STORE_CORRUPT"%string, "store"%string);
  (StatusCode.kStoreTruncatedTail, "STORE_TRUNCATED_TAIL"%string, "store"%string);
  (StatusCode.kStoreVersionUnsupported, "STORE_VERSION_UNSUPPORTED"%string, "store"%string);
  (StatusCode.kStoreIoError, "STORE_IO_ERROR"%string, "store"%string);
  (StatusCode.kStoreGrowthExceeded, "STORE_GROWTH_EXCEEDED"%string, "store"%string);
  (StatusCode.kStoreAmbiguousAttempt, "STORE_AMBIGUOUS_ATTEMPT"%string, "store"%string);
  (StatusCode.kFrameTooLarge, "FRAME_TOO_LARGE"%string, "wire"%string);
  (StatusCode.kFrameChecksumMismatch, "FRAME_CHECKSUM_MISMATCH"%string, "wire"%string);
  (StatusCode.kProtocolMismatch, "PROTOCOL_MISMATCH"%string, "wire"%string);
  (StatusCode.kWireMalformed, "WIRE_MALFORMED"%string, "wire"%string);
  (StatusCode.kConnectionClosed, "CONNECTION_CLOSED"%string, "wire"%string);
  (StatusCode.kIoError, "IO_ERROR"%string, "generic"%string);
  (StatusCode.kSocketError, "SOCKET_ERROR"%string, "generic"%string);
  (StatusCode.kInvalidArgument, "INVALID_ARGUMENT"%string, "generic"%string);
  (StatusCode.kNotFound, "NOT_FOUND"%string, "generic"%string);
  (StatusCode.kAlreadyExists, "ALREADY_EXISTS"%string, "generic"%string);
  (StatusCode.kUnsupported, "UNSUPPORTED"%string, "generic"%string);
  (StatusCode.kArithmeticOverflow, "ARITHMETIC_OVERFLOW"%string, "generic"%string);
  (StatusCode.kInternalInvariantViolation, "INTERNAL_INVARIANT_VIOLATION"%string, "generic"%string)
].

Definition entry_code (e : StatusCode * string * string) : StatusCode := e.1.1.

Definition IsKnownStatusCode (value : N) : bool :=
  existsb (λ e, code_value (entry_code e) =? value) kCodeNames.

(** [static_cast<StatusCode>(value)] of a value the table lists; the decoders
    apply it only after [IsKnownStatusCode]. *)
Definition StatusCode_cast (value : N) : option StatusCode :=
  entry_code <$> find (λ e, code_value (entry_code e) =? value) kCodeNames.

Definition StatusCode_eqb (a b : StatusCode) : bool := code_value a =? code_value b.

Definition StatusCodeName (code : StatusCode) : string :=
  match find (λ e, StatusCode_eqb (entry_code e) code) kCodeNames with
  | Some e => e.1.2
  | None => "UNKNOWN_CODE"
  end.

Definition StatusCodeCategory (code : StatusCode) : string :=
  match find (λ e, StatusCode_eqb (entry_code e) code) kCodeNames with
  | Some e => e.2
  | None => "unknown"
  end.

(** A code and its message; [Status{}] is [Ok] with no message. *)
Record Status := mkStatus { status_code : StatusCode; status_message : string }.

Definition Status_Ok : Status := mkStatus StatusCode.kOk "".

Definition status_ok (s : Status) : bool := StatusCode_eqb (status_code s) StatusCode.kOk.

Definition Status_ToString (s : Status) : string :=
  (StatusCodeName (status_code s) ++
   (if String.eqb (status_message s) "" then "" else ": " ++ status_message s))%string.

(** [Result<T>]: [std::variant<T, Status>]. *)
Inductive Result (T : Type) := Value (value : T) | Error (status : Status).
Arguments Value {T} value.
Arguments Error {T} status.

Definition result_ok {T} (r : Result T) : bool :=
  match r with Value _ => true | Error _ => false end.

Definition result_status {T} (r : Result T) : Status :=
  match r with Value _ => Status_Ok | Error s => s end.

Definition result_bind {A B} (r : Result A) (k : A → Result B) : Result B :=
  match r with Value a => k a | Error s => Error s end.

Notation "'let?' x ':=' r 'in' k" := (result_bind r (fun x => k))
  (at level 10, x pattern, r at level 100, k at level 200,
   format "'[' 'let?'  x  ':='  r  'in' ']' '/' k") : flow_scope.

(** ** Facts *)

Lemma StatusCode_cast_value c : StatusCode_cast (code_value c) = Some c.
Proof. by destruct c. Qed.

#[export] Instance code_value_inj : Inj (=) (=) code_value.
Proof.
  intros a b H. apply (f_equal StatusCode_cast) in H.
  rewrite !StatusCode_cast_value in H. by injection H.
Qed.

#[export] Instance StatusCode_eq_dec : EqDecision StatusCode.
Proof.
  intros a b. destruct (decide (code_value a = code_value b)) as [H|H].
  - left. by apply (inj code_value).
  - right. by intros ->.
Defined.

Lemma StatusCode_eqb_eq a b : StatusCode_eqb a b = true ↔ a = b.
Proof.
  unfold StatusCode_eqb. rewrite N.eqb_eq. split; [apply (inj code_value)|by intros ->].
Qed.

Lemma StatusCode_eqb_neq a b : StatusCode_eqb a b = false ↔ a ≠ b.
Proof. rewrite <-not_true_iff_false, StatusCode_eqb_eq. done. Qed.

#[export] Hint Rewrite StatusCode_eqb_eq StatusCode_eqb_neq : b2p.

Lemma status_ok_true s : status_ok s = true ↔ status_code s = StatusCode.kOk.
Proof. apply StatusCode_eqb_eq. Qed.

Lemma code_value_fits c : u16_fits (code_value c).
Proof. by destruct c; vm_compute. Qed.

Lemma IsKnownStatusCode_value c : IsKnownStatusCode (code_value c) = true.
Proof. by destruct c. Qed.

Lemma IsKnownStatusCode_cast v :
  IsKnownStatusCode v = true ↔ is_Some (StatusCode_cast v).
Proof.
  unfold IsKnownStatusCode, StatusCode_cast. rewrite fmap_is_Some.
  rewrite existsb_exists_elem. split.
  - intros (e & He & Hv).
    destruct (find (λ e, code_value (entry_code e) =? v) kCodeNames) eqn:E; [by eexists|].
    rewrite find_None_Forall, Forall_forall in E.
    specialize (E e He). cbn in E. congruence.
  - intros [e He]. apply find_Some_elem in He. eauto.
Qed.

Lemma StatusCode_cast_Some v c : StatusCode_cast v = Some c → code_value c = v.
Proof.
  unfold StatusCode_cast. destruct (find _ _) as [e|] eqn:E; [|done].
  intros [= <-]. apply find_Some_elem in E as [_ E]. by b2p.
Qed.
