(* ===== verification/Bytes.v ===== *)
(** * Little-endian byte encoding

    [bytes.hpp] and [bytes.cpp]: [ByteWriter] appends to a byte vector,
    [ByteReader] reads from a buffer at an offset and fails on a short read.
    A byte is an [N] below 256.  The section [Reads] is the interface the
    codecs are proved against: [reads m bs a] says that the reader [m]
    consumes exactly the bytes [bs] and returns [a]. *)

From Stdlib Require Import String Ascii.
From S2P Require Import Prelude StdAlgo Checked.

(** ** Bytes and strings *)

(** The loop [out[i] = (v >> (8 * i)) & 0xFF] for [i < n]. *)
Definition le_bytes (n : nat) (v : N) : list N :=
  (λ i, N.land (N.shiftr v (8 * N.of_nat i)) 255) <$> seq 0 n.

(** The loop [value |= data[offset + i] << (8 * i)] for [i < n]. *)
Definition le_combine (n : nat) (data : list N) (offset : nat) : N :=
  fold_left (λ value i,
    N.lor value (N.shiftl (nth (offset + i) data 0) (8 * N.of_nat i))) (seq 0 n) 0.

Definition string_bytes (s : string) : list N := N_of_ascii <$> list_ascii_of_string s.
Definition bytes_string (l : list N) : string := string_of_list_ascii (ascii_of_N <$> l).

(** [static_cast<std::uint64_t>] of a signed value and back. *)
Definition u64_of_i64 (v : Z) : N := Z.to_N (v mod 2 ^ 64)%Z.
Definition i64_of_u64 (v : N) : Z :=
  if v <? 2 ^ 63 then Z.of_N v else (Z.of_N v - 2 ^ 64)%Z.
Definition i64_fits (v : Z) : Prop := (- 2 ^ 63 <= v < 2 ^ 63)%Z.

(** ** [ByteWriter] *)

Definition ByteWriter := list N.

Notation "w |> f" := (f w) (at level 50, left associativity, only parsing).

Definition wU8 (v : N) (w : ByteWriter) : ByteWriter := w ++ [wrap 8 v].
Definition wU16 (v : N) (w : ByteWriter) : ByteWriter :=
  w ++ [N.land v 255; N.land (N.shiftr v 8) 255].
Definition wU32 (v : N) (w : ByteWriter) : ByteWriter := w ++ le_bytes 4 v.
Definition wU64 (v : N) (w : ByteWriter) : ByteWriter := w ++ le_bytes 8 v.
Definition wI64 (v : Z) (w : ByteWriter) : ByteWriter := wU64 (u64_of_i64 v) w.
Definition wBytes (data : list N) (w : ByteWriter) : ByteWriter := w ++ data.
Definition wString (v : string) (w : ByteWriter) : ByteWriter :=
  w |> wU32 (wrap 32 (string_size v)) |> wBytes (string_bytes v).

(** [for (x : l) write(x, w)]. *)
Definition write_each {A} (write : A → ByteWriter → ByteWriter) (l : list A)
    (w : ByteWriter) : ByteWriter :=
  fold_left (λ w x, write x w) l w.

(** ** [ByteReader] *)

Record ByteReader := mkReader { rd_data : list N; rd_offset : nat }.

Definition Reader (A : Type) := ByteReader → option (A * ByteReader).

#[export] Instance Reader_ret : MRet Reader := λ A a r, Some (a, r).
#[export] Instance Reader_bind : MBind Reader := λ A B k m r,
  match m r with
  | Some (a, r') => k a r'
  | None => None
  end.

(** [if (!ok) return false;] *)
Definition rd_require (ok : bool) : Reader unit := λ r, if ok then Some (tt, r) else None.

Definition remaining (r : ByteReader) : nat := length (rd_data r) - rd_offset r.
Definition AtEnd (r : ByteReader) : bool := Nat.eqb (rd_offset r) (length (rd_data r)).
Definition advance (n : nat) (r : ByteReader) : ByteReader :=
  mkReader (rd_data r) (rd_offset r + n).

Definition rU8 : Reader N := λ r,
  if (remaining r <? 1)%nat then None
  else Some (nth (rd_offset r) (rd_data r) 0, advance 1 r).
Definition rU16 : Reader N := λ r,
  if (remaining r <? 2)%nat then None
  else Some (N.lor (nth (rd_offset r) (rd_data r) 0)
                   (N.shiftl (nth (rd_offset r + 1) (rd_data r) 0) 8), advance 2 r).
Definition rU32 : Reader N := λ r,
  if (remaining r <? 4)%nat then None
  else Some (le_combine 4 (rd_data r) (rd_offset r), advance 4 r).
Definition rU64 : Reader N := λ r,
  if (remaining r <? 8)%nat then None
  else Some (le_combine 8 (rd_data r) (rd_offset r), advance 8 r).
Definition rI64 : Reader Z := raw ← rU64; mret (i64_of_u64 raw).
Definition rBytes (n : nat) : Reader (list N) := λ r,
  if (remaining r <? n)%nat then None
  else Some (take n (drop (rd_offset r) (rd_data r)), advance n r).
Definition rString (max_length : N) : Reader string :=
  n ← rU32;
  _ ← rd_require (n <=? max_length);
  chars ← rBytes (N.to_nat n);
  mret (bytes_string chars).

(** [for (i = 0; i < n; ++i) out.push_back(read(r))]. *)
Fixpoint read_each {A} (n : nat) (read : Reader A) : Reader (list A) :=
  match n with
  | O => mret []
  | S n' => x ← read; l ← read_each n' read; mret (x :: l)
  end.

(** ** The little-endian value of a byte list *)

Fixpoint le_value (bs : list N) : N :=
  match bs with
  | [] => 0
  | b :: bs' => b + 256 * le_value bs'
  end.

Lemma le_bytes_length n v : length (le_bytes n v) = n.
Proof. unfold le_bytes. by rewrite length_fmap, length_seq. Qed.

Lemma le_bytes_S n v : le_bytes (S n) v = N.land v 255 :: le_bytes n (N.shiftr v 8).
Proof.
  unfold le_bytes. cbn [seq fmap list_fmap]. f_equal.
  rewrite <-seq_shift. change (map S (seq 0 n)) with (S <$> seq 0 n).
  rewrite <-list_fmap_compose. apply list_fmap_ext. intros _ i _. cbn.
  rewrite N.shiftr_shiftr. do 2 f_equal. lia.
Qed.

Lemma land_255 v : N.land v 255 = v mod 256.
Proof. apply (N.land_ones v 8). Qed.

Lemma le_value_bytes n v : le_value (le_bytes n v) = v mod 2 ^ (8 * N.of_nat n).
Proof.
  revert v. induction n as [|n IH]; intros v.
  { cbn. by rewrite N.mod_1_r. }
  rewrite le_bytes_S. cbn [le_value]. rewrite IH, land_255, N.shiftr_div_pow2.
  replace (8 * N.of_nat (S n)) with (8 + 8 * N.of_nat n) by lia.
  rewrite N.pow_add_r. change (2 ^ 8) with 256.
  by rewrite N.Div0.mod_mul_r.
Qed.

Lemma all_u8 bs : forallb (λ b, b <? 256) bs = true → Forall u8_fits bs.
Proof.
  rewrite Forall_forall, forallb_forall. intros H b Hb. apply list_elem_of_In in Hb.
  apply H in Hb. by b2p.
Qed.

Lemma le_bytes_u8 n v : Forall u8_fits (le_bytes n v).
Proof.
  unfold le_bytes. apply Forall_fmap, Forall_true. intros i. cbn.
  rewrite land_255. by apply N.mod_lt.
Qed.

Lemma le_value_bound bs : Forall u8_fits bs → le_value bs < 2 ^ (8 * N.of_nat (length bs)).
Proof.
  induction 1 as [|b bs Hb _ IH]; [done|]. cbn [le_value length].
  replace (8 * N.of_nat (S (length bs))) with (8 + 8 * N.of_nat (length bs)) by lia.
  rewrite N.pow_add_r. unfold uint_fits in Hb. change (2 ^ 8) with 256 in *. lia.
Qed.

Lemma lor_disjoint_add a b k : a < 2 ^ k → N.lor a (N.shiftl b k) = a + b * 2 ^ k.
Proof.
  intros Ha. rewrite N.shiftl_mul_pow2, <-N.lxor_lor, <-N.add_nocarry_lxor; [done|..].
  all: apply N.bits_inj; intros i; rewrite N.land_spec, N.bits_0;
    destruct (N.lt_ge_cases i k); [by rewrite (N.mul_pow2_bits_low _ _ i), andb_false_r|].
  all: rewrite <-(N.mod_small a (2 ^ k)) by done; by rewrite N.mod_pow2_bits_high.
Qed.

Lemma le_value_snoc bs b : le_value (bs ++ [b]) = le_value bs + b * 2 ^ (8 * N.of_nat (length bs)).
Proof.
  induction bs as [|c bs IH]; [cbn; lia|]. cbn [app le_value length]. rewrite IH.
  replace (8 * N.of_nat (S (length bs))) with (8 + 8 * N.of_nat (length bs)) by lia.
  rewrite N.pow_add_r. change (2 ^ 8) with 256. lia.
Qed.

Lemma le_combine_value n data off bs :
  Forall u8_fits bs → length bs = n → (∃ rest, drop off data = bs ++ rest) →
  le_combine n data off = le_value bs.
Proof.
  intros Hb. revert n. induction bs as [|b bs IH] using rev_ind; intros n Hn (rest & Hr).
  { by subst n. }
  rewrite length_app in Hn. cbn in Hn. destruct n as [|n]; [lia|].
  apply Forall_app in Hb as [Hbs Hb]. unfold le_combine.
  rewrite seq_S, fold_left_app, Nat.add_0_l. cbn [fold_left]. fold (le_combine n data off).
  rewrite IH; [|done|lia|exists (b :: rest); by rewrite Hr, <-app_assoc].
  assert (nth (off + n) data 0 = b) as ->.
  { apply nth_lookup_Some.
    rewrite <-lookup_drop, Hr, <-app_assoc. apply list_lookup_middle. lia. }
  rewrite lor_disjoint_add.
  - rewrite le_value_snoc. replace (length bs) with n by lia. done.
  - pose proof (le_value_bound bs Hbs) as Hv. by replace (length bs) with n in Hv by lia.
Qed.

(** ** What a reader consumes *)

Definition bytes_left (r : ByteReader) : list N := drop (rd_offset r) (rd_data r).

(** [reads m bs a]: on any buffer that continues with [bs] the reader [m]
    succeeds with [a] and leaves the reader just after [bs]. *)
Definition reads {A} (m : Reader A) (bs : list N) (a : A) : Prop :=
  ∀ r rest, bytes_left r = bs ++ rest → m r = Some (a, advance (length bs) r).

Lemma bytes_left_advance r bs rest :
  bytes_left r = bs ++ rest → bytes_left (advance (length bs) r) = rest.
Proof.
  unfold bytes_left. cbn. intros H. rewrite <-drop_drop, H. apply drop_app_length.
Qed.

Lemma advance_advance n k r : advance n (advance k r) = advance (k + n) r.
Proof. unfold advance. cbn. f_equal. lia. Qed.

Lemma advance_0 r : advance 0 r = r.
Proof. destruct r. unfold advance. cbn. f_equal. lia. Qed.

Lemma remaining_bytes_left r : remaining r = length (bytes_left r).
Proof. unfold remaining, bytes_left. by rewrite length_drop. Qed.

Lemma reads_ret {A} (a : A) : reads (mret a) [] a.
Proof. intros r rest _. cbn. by rewrite advance_0. Qed.

Lemma reads_bind {A B} (m : Reader A) (k : A → Reader B) bs1 bs2 a b :
  reads m bs1 a → reads (k a) bs2 b → reads (m ≫= k) (bs1 ++ bs2) b.
Proof.
  intros Hm Hk r rest Hr. rewrite <-app_assoc in Hr.
  unfold mbind, Reader_bind. rewrite (Hm _ _ Hr), (Hk _ _ (bytes_left_advance _ _ _ Hr)).
  by rewrite advance_advance, length_app.
Qed.

Lemma reads_require ok : ok = true → reads (rd_require ok) [] tt.
Proof. intros -> r rest _. cbn. by rewrite advance_0. Qed.

(** Reading a field, then returning: no trailing empty append. *)
Lemma reads_bind_ret {A B} (m : Reader A) (k : A → Reader B) bs a b :
  reads m bs a → reads (k a) [] b → reads (m ≫= k) bs b.
Proof. intros Hm Hk. rewrite <-(app_nil_r bs). by eapply reads_bind. Qed.

Lemma reads_require_bind {B} ok (k : unit → Reader B) bs b :
  ok = true → reads (k tt) bs b → reads (rd_require ok ≫= k) bs b.
Proof. intros Hok Hk. apply (reads_bind _ _ [] bs tt); [by apply reads_require|done]. Qed.

Section Primitive.
Local Lemma short_read r n bs rest :
  bytes_left r = bs ++ rest → length bs = n → (remaining r <? n)%nat = false.
Proof.
  intros Hr Hn. apply Nat.ltb_ge. rewrite remaining_bytes_left, Hr, length_app. lia.
Qed.

Lemma reads_u8 v : u8_fits v → reads rU8 [v] v.
Proof.
  intros Hv r rest Hr. unfold rU8. erewrite short_read by (exact Hr || done).
  do 2 f_equal. apply nth_lookup_Some. unfold bytes_left in Hr.
  rewrite <-(Nat.add_0_r (rd_offset r)), <-lookup_drop, Hr. done.
Qed.

Lemma le_combine_le_bytes n v r rest :
  v < 2 ^ (8 * N.of_nat n) → bytes_left r = le_bytes n v ++ rest →
  le_combine n (rd_data r) (rd_offset r) = v.
Proof.
  intros Hv Hr. rewrite (le_combine_value _ _ _ (le_bytes n v)).
  - rewrite le_value_bytes. by apply N.mod_small.
  - apply le_bytes_u8.
  - apply le_bytes_length.
  - by exists rest.
Qed.

Lemma reads_u32 v : u32_fits v → reads rU32 (le_bytes 4 v) v.
Proof.
  intros Hv r rest Hr. unfold rU32. erewrite short_read by (exact Hr || done).
  by erewrite le_combine_le_bytes.
Qed.

Lemma reads_u64 v : u64_fits v → reads rU64 (le_bytes 8 v) v.
Proof.
  intros Hv r rest Hr. unfold rU64. erewrite short_read by (exact Hr || done).
  by erewrite le_combine_le_bytes.
Qed.

Lemma u16_bytes v : [N.land v 255; N.land (N.shiftr v 8) 255] = le_bytes 2 v.
Proof. unfold le_bytes. cbn. do 2 f_equal. Qed.

Lemma reads_u16 v : u16_fits v → reads rU16 (le_bytes 2 v) v.
Proof.
  intros Hv r rest Hr. unfold rU16. erewrite short_read by (exact Hr || done).
  do 2 f_equal. pose proof (le_combine_le_bytes 2 v r rest Hv Hr) as H.
  unfold le_combine in H. cbn [seq fold_left] in H.
  rewrite Nat.add_0_r in H. cbn [N.of_nat] in H.
  rewrite N.lor_0_l, N.mul_0_r, N.shiftl_0_r in H. exact H.
Qed.

Lemma u64_of_i64_fits v : u64_fits (u64_of_i64 v).
Proof. 
  unfold u64_of_i64, uint_fits. change (2 ^ 64)%N with (Z.to_N (2 ^ 64)).
  pose proof (Z.mod_pos_bound v (2 ^ 64) eq_refl). lia.
Qed.

Lemma i64_of_u64_of_i64 v : i64_fits v → i64_of_u64 (u64_of_i64 v) = v.
Proof.
  unfold i64_fits, i64_of_u64, u64_of_i64. intros Hv.
  assert ((v mod 2 ^ 64 = v ∨ v mod 2 ^ 64 = v + 2 ^ 64) ∧ 0 <= v mod 2 ^ 64)%Z as [H H0].
  { split; [|by apply Z.mod_pos_bound].
    destruct (Z.lt_ge_cases v 0); [right|left].
    - symmetry. apply (Z.mod_unique _ _ (-1)); lia.
    - apply Z.mod_small. lia. }
  change (2 ^ 63)%N with (Z.to_N (2 ^ 63)).
  destruct (N.ltb_spec (Z.to_N (v mod 2 ^ 64)) (Z.to_N (2 ^ 63))); rewrite Z2N.id by done; lia.
Qed.

Lemma reads_i64 v : i64_fits v → reads rI64 (le_bytes 8 (u64_of_i64 v)) v.
Proof.
  intros Hv. eapply reads_bind_ret; [apply reads_u64, u64_of_i64_fits|].
  rewrite i64_of_u64_of_i64 by done. apply reads_ret.
Qed.

Lemma reads_bytes bs : reads (rBytes (length bs)) bs bs.
Proof.
  intros r rest Hr. unfold rBytes. erewrite short_read by (exact Hr || done).
  unfold bytes_left in Hr. by rewrite Hr, take_app_length.
Qed.

Lemma string_bytes_length s : N.of_nat (length (string_bytes s)) = string_size s.
Proof.
  unfold string_bytes, string_size. rewrite length_fmap.
  induction s; cbn [list_ascii_of_string length String.length]; lia.
Qed.

Lemma bytes_string_bytes s : bytes_string (string_bytes s) = s.
Proof.
  unfold bytes_string, string_bytes. rewrite <-list_fmap_compose.
  rewrite (list_fmap_ext _ id).
  - rewrite list_fmap_id. apply string_of_list_ascii_of_string.
  - intros _ a _. apply ascii_N_embedding.
Qed.

Lemma reads_string s max :
  string_size s <= max → u32_fits (string_size s) →
  reads (rString max) (le_bytes 4 (string_size s) ++ string_bytes s) s.
Proof.
  intros Hmax Hs. eapply reads_bind; [by apply reads_u32|].
  apply reads_require_bind; [by b2p|]. eapply reads_bind_ret.
  - rewrite <-string_bytes_length, Nat2N.id. apply reads_bytes.
  - rewrite bytes_string_bytes. apply reads_ret.
Qed.
End Primitive.

Lemma reads_each {A} (read : Reader A) (enc : A → list N) l :
  (∀ x, x ∈ l → reads read (enc x) x) →
  reads (read_each (length l) read) (mjoin (enc <$> l)) l.
Proof.
  induction l as [|x l IH]; intros H; cbn; [apply reads_ret|].
  eapply reads_bind; [apply H; left|]. eapply reads_bind_ret; [|apply reads_ret].
  apply IH. intros y Hy. apply H. by right.
Qed.

(** ** What a writer appends *)

Lemma wU8_app v w : u8_fits v → wU8 v w = w ++ [v].
Proof. intros Hv. unfold wU8. by rewrite wrap_small. Qed.

Lemma wU16_app v w : wU16 v w = w ++ le_bytes 2 v.
Proof. reflexivity. Qed.

Lemma wString_app s w :
  u32_fits (string_size s) →
  wString s w = w ++ le_bytes 4 (string_size s) ++ string_bytes s.
Proof. intros Hs. unfold wString, wBytes, wU32. by rewrite wrap_small, app_assoc. Qed.

Lemma write_each_app {A} (write : A → ByteWriter → ByteWriter) (enc : A → list N) l w :
  (∀ x w, x ∈ l → write x w = w ++ enc x) →
  write_each write l w = w ++ mjoin (enc <$> l).
Proof.
  revert w. induction l as [|x l IH]; intros w H; [cbn; by rewrite app_nil_r|].
  change (write_each write l (write x w) = w ++ enc x ++ mjoin (enc <$> l)).
  rewrite H by left. rewrite IH by (intros; apply H; by right).
  by rewrite app_assoc.
Qed.
