(* ===== verification/Hash.v ===== *)
(** * Integrity checksums and identity digests

    [hash.hpp] and [hash.cpp]: the table-driven CRC-32C, FNV-1a over 64 bits,
    the [CanonicalHasher] the digests are built with, and [Digest]. *)

From Stdlib Require Import String Ascii.
From S2P Require Import Prelude StdAlgo Checked Bytes.

(** ** CRC-32C *)

(** One bit of the table construction. *)
Definition crc_bit (crc : N) : N :=
  if N.testbit crc 0 then N.lxor (N.shiftr crc 1) 0x82F63B78 else N.shiftr crc 1.

(** [Crc32cTable]: the entry of [i] after eight [crc_bit] steps. *)
Definition kCrc32cTable : list N :=
  (λ i, Nat.iter 8 crc_bit (N.of_nat i)) <$> seq 0 256.

Definition crc_table_entry (i : N) : N := nth (N.to_nat i) kCrc32cTable 0.

Definition crc_step (state byte : N) : N :=
  N.lxor (crc_table_entry (N.land (N.lxor state byte) 255)) (N.shiftr state 8).

Definition Crc32C_init : N := 0xFFFFFFFF.

Definition Crc32C_Update (state : N) (data : list N) : N := fold_left crc_step data state.

(** [~state_] on 32 bits. *)
Definition Crc32C_value (state : N) : N := N.lxor state 0xFFFFFFFF.

Definition Crc32C_Compute (data : list N) : N :=
  Crc32C_value (Crc32C_Update Crc32C_init data).

(** ** FNV-1a *)

Definition kFnvOffsetBasis : N := 0xCBF29CE484222325.
Definition kFnvPrime : N := 0x100000001B3.
Definition kSecondOffsetBasis : N := 0x84222325CBF29CE4.

Definition fnv_step (state byte : N) : N := wrap 64 (N.lxor state byte * kFnvPrime).

Definition Fnv1a64_Update (state : N) (data : list N) : N := fold_left fnv_step data state.

(** ** [CanonicalHasher]

    The hasher is its FNV state. *)

Definition CanonicalHasher := N.
Definition hasher_init : CanonicalHasher := kFnvOffsetBasis.

Definition AddU8 (v : N) (h : CanonicalHasher) : CanonicalHasher :=
  Fnv1a64_Update h [wrap 8 v].
Definition AddU16 (v : N) (h : CanonicalHasher) : CanonicalHasher :=
  Fnv1a64_Update h [N.land v 255; N.land (N.shiftr v 8) 255].
Definition AddU32 (v : N) (h : CanonicalHasher) : CanonicalHasher :=
  Fnv1a64_Update h [N.land v 255; N.land (N.shiftr v 8) 255;
                    N.land (N.shiftr v 16) 255; N.land (N.shiftr v 24) 255].
Definition AddU64 (v : N) (h : CanonicalHasher) : CanonicalHasher :=
  Fnv1a64_Update h (le_bytes 8 v).
Definition AddI64 (v : Z) (h : CanonicalHasher) : CanonicalHasher :=
  AddU64 (u64_of_i64 v) h.
Definition AddBool (v : bool) (h : CanonicalHasher) : CanonicalHasher :=
  AddU8 (if v then 1 else 0) h.
Definition AddString (v : string) (h : CanonicalHasher) : CanonicalHasher :=
  let h := AddU32 (wrap 32 (string_size v)) h in
  if String.eqb v "" then h else Fnv1a64_Update h (string_bytes v).
Definition AddTag (tag : string) (h : CanonicalHasher) : CanonicalHasher :=
  h |> AddU8 0x1F |> AddString tag.
Definition AddBlob (data : list N) (h : CanonicalHasher) : CanonicalHasher :=
  let h := AddU32 (wrap 32 (size data)) h in
  if size data =? 0 then h else Fnv1a64_Update h data.

(** [for (x : l) add(x, h)]. *)
Definition hash_each {A} (add : A → CanonicalHasher → CanonicalHasher) (l : list A)
    (h : CanonicalHasher) : CanonicalHasher :=
  fold_left (λ h x, add x h) l h.

(** ** [Digest] *)

Record Digest := mkDigest { digest_hi : N; digest_lo : N }.

Definition Digest_zero : Digest := mkDigest 0 0.

#[export] Instance Digest_eq_dec : EqDecision Digest.
Proof. solve_decision. Defined.

Definition Digest_eqb (a b : Digest) : bool :=
  (digest_hi a =? digest_hi b) && (digest_lo a =? digest_lo b).

Definition Digest_ltb (a b : Digest) : bool :=
  if negb (digest_hi a =? digest_hi b) then digest_hi a <? digest_hi b
  else digest_lo a <? digest_lo b.

Definition Digest_IsZero (d : Digest) : bool := (digest_hi d =? 0) && (digest_lo d =? 0).

(** [Digest::OfCanonical]. *)
Definition OfCanonical (hasher : CanonicalHasher) : Digest :=
  let lo := hasher in
  let mixed := N.lxor lo kSecondOffsetBasis in
  let mixed := wrap 64 (mixed * kFnvPrime) in
  let mixed := N.lxor mixed (N.shiftr mixed 29) in
  let mixed := wrap 64 (mixed * 0xBF58476D1CE4E5B9) in
  let mixed := N.lxor mixed (N.shiftr mixed 32) in
  mkDigest (N.lxor mixed kFnvOffsetBasis) lo.

Definition hex_digit (n : N) : ascii :=
  match String.get (N.to_nat n) "0123456789abcdef" with
  | Some c => c
  | None => "0"%char
  end.

(** The sixteen digits of one part, [shift] from 60 down to 0. *)
Definition part_hex (part : N) : string :=
  string_of_list_ascii
    ((λ i, hex_digit (N.land (N.shiftr part (60 - 4 * N.of_nat i)) 15)) <$> seq 0 16).

Definition Digest_ToHex (d : Digest) : string :=
  (part_hex (digest_hi d) ++ part_hex (digest_lo d))%string.

(** ** Facts *)

Lemma Digest_eqb_eq a b : Digest_eqb a b = true ↔ a = b.
Proof.
  unfold Digest_eqb. destruct a, b; cbn. b2p. split; [by intros [-> ->]|by intros [= -> ->]].
Qed.

#[export] Hint Rewrite Digest_eqb_eq : b2p.

Lemma Crc32C_Update_app s d1 d2 :
  Crc32C_Update s (d1 ++ d2) = Crc32C_Update (Crc32C_Update s d1) d2.
Proof. apply fold_left_app. Qed.

Lemma Fnv1a64_Update_app s d1 d2 :
  Fnv1a64_Update s (d1 ++ d2) = Fnv1a64_Update (Fnv1a64_Update s d1) d2.
Proof. apply fold_left_app. Qed.

Lemma fits_testbit w n : uint_fits w n ↔ ∀ i, w <= i → N.testbit n i = false.
Proof.
  unfold uint_fits. split.
  - intros Hn i Hi. rewrite <-(N.mod_small n (2 ^ w)) by done.
    by apply N.mod_pow2_bits_high.
  - intros H. destruct (N.eq_dec n 0) as [->|Hn]; [by apply N.neq_0_lt_0, N.pow_nonzero|].
    apply N.log2_lt_pow2; [lia|]. destruct (N.lt_ge_cases (N.log2 n) w) as [|Hge]; [done|].
    specialize (H _ Hge). by rewrite N.bit_log2 in H.
Qed.

Lemma lxor_fits w a b : uint_fits w a → uint_fits w b → uint_fits w (N.lxor a b).
Proof.
  rewrite !fits_testbit. intros Ha Hb i Hi. by rewrite N.lxor_spec, Ha, Hb.
Qed.

Lemma shiftr_le a k : N.shiftr a k <= a.
Proof. rewrite N.shiftr_div_pow2. apply N.Div0.div_le_upper_bound. nia. Qed.

Lemma shiftr_fits w a k : uint_fits w a → uint_fits w (N.shiftr a k).
Proof. unfold uint_fits. pose proof (shiftr_le a k). lia. Qed.

Lemma lxor_cancel_l a x y : N.lxor a x = N.lxor a y → x = y.
Proof.
  intros H. apply (f_equal (N.lxor a)) in H.
  by rewrite <-!N.lxor_assoc, !N.lxor_nilpotent, !N.lxor_0_l in H.
Qed.

(** ** A corrupted byte changes the checksum

    The 256 table entries are 32-bit values with pairwise distinct top bytes, so
    the upper bits of a state determine the step that led to it. *)

Definition top_byte (n : N) : N := N.shiftr n 24.

Lemma crc_entry_facts i :
  i < 256 → u32_fits (crc_table_entry i) ∧
  ∀ j, j < 256 → top_byte (crc_table_entry i) = top_byte (crc_table_entry j) → i = j.
Proof.
  assert (forallb (λ i, (crc_table_entry (N.of_nat i) <? 2 ^ 32) &&
            forallb (λ j, negb (top_byte (crc_table_entry (N.of_nat i)) =?
                                top_byte (crc_table_entry (N.of_nat j)))
                          || Nat.eqb i j) (seq 0 256)) (seq 0 256) = true) as H
    by (vm_compute; reflexivity).
  rewrite forallb_forall in H.
  intros Hi. specialize (H (N.to_nat i)). rewrite in_seq, N2Nat.id in H.
  specialize (H ltac:(lia)). apply andb_true_iff in H as [H1 H2]. b2p. split; [done|].
  intros j Hj Htop. rewrite forallb_forall in H2.
  specialize (H2 (N.to_nat j)). rewrite in_seq, N2Nat.id in H2.
  specialize (H2 ltac:(lia)). b2p. destruct H2 as [H2|H2]; [done|].
  apply Nat.eqb_eq in H2. lia.
Qed.

Lemma land_255_lt n : N.land n 255 < 256.
Proof. rewrite land_255. by apply N.mod_lt. Qed.

Lemma crc_step_fits s b : u32_fits s → u32_fits (crc_step s b).
Proof.
  intros Hs. apply lxor_fits; [|by apply shiftr_fits].
  apply crc_entry_facts, land_255_lt.
Qed.

Lemma top_byte_lxor_shift a s : u32_fits s → top_byte (N.lxor a (N.shiftr s 8)) = top_byte a.
Proof.
  intros Hs. unfold top_byte. rewrite N.shiftr_lxor, N.shiftr_shiftr.
  rewrite (N.shiftr_div_pow2 s), N.div_small by exact Hs. apply N.lxor_0_r.
Qed.

Lemma low_high_eq a b : N.land a 255 = N.land b 255 → N.shiftr a 8 = N.shiftr b 8 → a = b.
Proof.
  rewrite !land_255, !N.shiftr_div_pow2. change (2 ^ 8) with 256. intros Hl Hh.
  rewrite (N.div_mod a 256), (N.div_mod b 256) by done. by rewrite Hl, Hh.
Qed.

(** The upper bits of a state determine the table index of the step before, and
    the upper bits of the state before. *)
Lemma crc_step_upper k s1 b1 s2 b2 :
  u32_fits s1 → u32_fits s2 → k <= 24 →
  N.shiftr (crc_step s1 b1) k = N.shiftr (crc_step s2 b2) k →
  N.land (N.lxor s1 b1) 255 = N.land (N.lxor s2 b2) 255 ∧
  N.shiftr s1 (8 + k) = N.shiftr s2 (8 + k).
Proof.
  intros H1 H2 Hk H. unfold crc_step in H.
  assert (N.land (N.lxor s1 b1) 255 = N.land (N.lxor s2 b2) 255) as Hidx.
  { apply (crc_entry_facts _ (land_255_lt _)); [apply land_255_lt|].
    apply (f_equal (λ x, N.shiftr x (24 - k))) in H.
    rewrite !N.shiftr_shiftr in H. replace (k + (24 - k)) with 24 in H by lia.
    change (N.shiftr ?x 24) with (top_byte x) in H. by rewrite !top_byte_lxor_shift in H. }
  split; [done|]. rewrite Hidx, !N.shiftr_lxor, !N.shiftr_shiftr in H.
  by apply lxor_cancel_l in H.
Qed.

Lemma land_255_lxor a b : N.land (N.lxor a b) 255 = N.lxor (N.land a 255) (N.land b 255).
Proof.
  apply N.bits_inj. intros i. rewrite N.lxor_spec, !N.land_spec, N.lxor_spec.
  by destruct (N.testbit a i), (N.testbit b i), (N.testbit 255 i).
Qed.

Lemma crc_step_state_inj b s1 s2 :
  u32_fits s1 → u32_fits s2 → crc_step s1 b = crc_step s2 b → s1 = s2.
Proof.
  intros H1 H2 H. apply (f_equal (λ x, N.shiftr x 0)) in H.
  apply crc_step_upper in H as [Hl Hh]; [|done..]. change (8 + 0) with 8 in Hh.
  rewrite !land_255_lxor, !(N.lxor_comm _ (N.land b 255)) in Hl.
  apply lxor_cancel_l in Hl. by apply low_high_eq.
Qed.

Lemma Crc32C_Update_fits s data : u32_fits s → u32_fits (Crc32C_Update s data).
Proof. intros Hs. apply (fold_left_inv u32_fits); [intros; by apply crc_step_fits|done]. Qed.

Lemma Crc32C_Update_inj data s1 s2 :
  u32_fits s1 → u32_fits s2 → Crc32C_Update s1 data = Crc32C_Update s2 data → s1 = s2.
Proof.
  revert s1 s2. induction data as [|b data IH]; intros s1 s2 H1 H2 H; [done|].
  apply (crc_step_state_inj b); [done..|]. by apply IH; [apply crc_step_fits..|].
Qed.

Lemma Crc32C_init_fits : u32_fits Crc32C_init.
Proof. by vm_compute. Qed.

Lemma Crc32C_Compute_fits data : u32_fits (Crc32C_Compute data).
Proof. apply lxor_fits; [apply Crc32C_Update_fits, Crc32C_init_fits|by vm_compute]. Qed.

(** A run of at most four bytes is determined by the state it leads to. *)
Lemma Crc32C_Update_burst k s l1 l2 :
  u32_fits s → Forall u8_fits l1 → Forall u8_fits l2 → length l1 = length l2 →
  k + 8 * N.of_nat (length l1) <= 32 →
  N.shiftr (Crc32C_Update s l1) k = N.shiftr (Crc32C_Update s l2) k → l1 = l2.
Proof.
  intros Hs. revert k l2. induction l1 as [|b1 l1 IH] using rev_ind; intros k l2 Hl1 Hl2 Hlen Hk H.
  { by destruct l2. }
  destruct l2 as [|b2 l2 _] using rev_ind; rewrite !length_app in Hlen; cbn in Hlen; [lia|].
  rewrite length_app in Hk. cbn in Hk. rewrite !Crc32C_Update_app in H. cbn in H.
  apply Forall_app in Hl1 as [Hl1 [Hb1 _]%Forall_cons].
  apply Forall_app in Hl2 as [Hl2 [Hb2 _]%Forall_cons].
  apply crc_step_upper in H as [Hidx Hup]; [|by apply Crc32C_Update_fits..|lia].
  assert (l1 = l2) as -> by (apply (IH (8 + k)); [done..|lia|lia|done]).
  f_equal. rewrite !land_255_lxor in Hidx. apply lxor_cancel_l in Hidx.
  rewrite !land_255, !N.mod_small in Hidx by assumption. by rewrite Hidx.
Qed.

(** Overwriting up to four consecutive bytes of a message changes its checksum. *)
Lemma Crc32C_Compute_burst pre l1 l2 suf :
  Forall u8_fits l1 → Forall u8_fits l2 → length l1 = length l2 → (length l1 <= 4)%nat →
  Crc32C_Compute (pre ++ l1 ++ suf) = Crc32C_Compute (pre ++ l2 ++ suf) → l1 = l2.
Proof.
  intros H1 H2 Hlen Hle H. unfold Crc32C_Compute, Crc32C_value in H.
  rewrite !(N.lxor_comm _ 0xFFFFFFFF) in H. apply lxor_cancel_l in H.
  rewrite !Crc32C_Update_app in H.
  pose proof (Crc32C_Update_fits _ pre Crc32C_init_fits) as Hs.
  apply Crc32C_Update_inj in H; [|by apply Crc32C_Update_fits..].
  apply (Crc32C_Update_burst 0 (Crc32C_Update Crc32C_init pre)); [done..|lia|by rewrite H].
Qed.

(** [OfCanonical] is a function of the 64-bit hasher value alone. *)
Lemma OfCanonical_inj h1 h2 : OfCanonical h1 = OfCanonical h2 ↔ h1 = h2.
Proof. split; [intros H; by apply (f_equal digest_lo) in H|by intros ->]. Qed.

Lemma Fnv1a64_Update_fits s data : u64_fits s → u64_fits (Fnv1a64_Update s data).
Proof. intros Hs. apply (fold_left_inv u64_fits); [intros; apply wrap_fits|done]. Qed.

(** The check values of the two algorithms. *)
Example crc32c_check : Crc32C_Compute (string_bytes "123456789") = 0xE3069283.
Proof. vm_compute. reflexivity. Qed.

Example fnv1a_check : Fnv1a64_Update hasher_init (string_bytes "a") = 0xAF63DC4C8601EC8C.
Proof. vm_compute. reflexivity. Qed.
