(* ===== verification/Model.v ===== *)
(** * The domain model

    [model.hpp] and the tables of [model.cpp]: the enumerations a request
    carries, the facts, policy, incumbent and authority records, and the
    default [Limits].

    An enumeration of the sources is a [std::uint8_t] that a caller may set to a
    value no enumerator names, and [ValidateEnumerations] rejects such a value;
    each enumeration therefore has one more constructor, [kOther raw], for it.
    [X_ordinal] is the underlying integer and [X_cast] is [static_cast<X>]. *)

From Stdlib Require Import String.
From S2P Require Import Prelude StdAlgo Checked.

(** ** Enumerations *)

Module ServiceClass.
Inductive ServiceClass :=
  | kBestEffort
  | kControlled
  | kAssured
  | kReserved
  | kOther (raw : N).
End ServiceClass.
Abbreviation ServiceClass := ServiceClass.ServiceClass.

Definition ServiceClass_ordinal (v : ServiceClass) : N :=
  match v with
  | ServiceClass.kBestEffort => 0
  | ServiceClass.kControlled => 1
  | ServiceClass.kAssured => 2
  | ServiceClass.kReserved => 3
  | ServiceClass.kOther raw => raw
  end.

Definition ServiceClass_cast (raw : N) : ServiceClass :=
  match raw with
  | 0 => ServiceClass.kBestEffort
  | 1 => ServiceClass.kControlled
  | 2 => ServiceClass.kAssured
  | 3 => ServiceClass.kReserved
  | _ => ServiceClass.kOther raw
  end.

Definition ServiceClassName (v : ServiceClass) : string :=
  match v with
  | ServiceClass.kBestEffort => "best_effort"
  | ServiceClass.kControlled => "controlled"
  | ServiceClass.kAssured => "assured"
  | ServiceClass.kReserved => "reserved"
  | ServiceClass.kOther _ => "unknown"
  end.

Definition kServiceClassNames : list (string * ServiceClass) := [
  ("best_effort"%string, ServiceClass.kBestEffort);
  ("controlled"%string, ServiceClass.kControlled);
  ("assured"%string, ServiceClass.kAssured);
  ("reserved"%string, ServiceClass.kReserved)
].

Module PriorityClass.
Inductive PriorityClass :=
  | kLow
  | kNormal
  | kHigh
  | kCritical
  | kOther (raw : N).
End PriorityClass.
Abbreviation PriorityClass := PriorityClass.PriorityClass.

Definition PriorityClass_ordinal (v : PriorityClass) : N :=
  match v with
  | PriorityClass.kLow => 0
  | PriorityClass.kNormal => 1
  | PriorityClass.kHigh => 2
  | PriorityClass.kCritical => 3
  | PriorityClass.kOther raw => raw
  end.

Definition PriorityClass_cast (raw : N) : PriorityClass :=
  match raw with
  | 0 => PriorityClass.kLow
  | 1 => PriorityClass.kNormal
  | 2 => PriorityClass.kHigh
  | 3 => PriorityClass.kCritical
  | _ => PriorityClass.kOther raw
  end.

Definition PriorityClassName (v : PriorityClass) : string :=
  match v with
  | PriorityClass.kLow => "low"
  | PriorityClass.kNormal => "normal"
  | PriorityClass.kHigh => "high"
  | PriorityClass.kCritical => "critical"
  | PriorityClass.kOther _ => "unknown"
  end.

Definition kPriorityNames : list (string * PriorityClass) := [
  ("low"%string, PriorityClass.kLow);
  ("normal"%string, PriorityClass.kNormal);
  ("high"%string, PriorityClass.kHigh);
  ("critical"%string, PriorityClass.kCritical)
].

Module PathTier.
Inductive PathTier :=
  | kPremium
  | kStandard
  | kEconomy
  | kOther (raw : N).
End PathTier.
Abbreviation PathTier := PathTier.PathTier.

Definition PathTier_ordinal (v : PathTier) : N :=
  match v with
  | PathTier.kPremium => 0
  | PathTier.kStandard => 1
  | PathTier.kEconomy => 2
  | PathTier.kOther raw => raw
  end.

Definition PathTier_cast (raw : N) : PathTier :=
  match raw with
  | 0 => PathTier.kPremium
  | 1 => PathTier.kStandard
  | 2 => PathTier.kEconomy
  | _ => PathTier.kOther raw
  end.

Definition PathTierName (v : PathTier) : string :=
  match v with
  | PathTier.kPremium => "premium"
  | PathTier.kStandard => "standard"
  | PathTier.kEconomy => "economy"
  | PathTier.kOther _ => "unknown"
  end.

Definition kTierNames : list (string * PathTier) := [
  ("premium"%string, PathTier.kPremium);
  ("standard"%string, PathTier.kStandard);
  ("economy"%string, PathTier.kEconomy)
].

Module LocalityScope.
Inductive LocalityScope :=
  | kNode
  | kRack
  | kZone
  | kRegion
  | kGlobal
  | kOther (raw : N).
End LocalityScope.
Abbreviation LocalityScope := LocalityScope.LocalityScope.

Definition LocalityScope_ordinal (v : LocalityScope) : N :=
  match v with
  | LocalityScope.kNode => 0
  | LocalityScope.kRack => 1
  | LocalityScope.kZone => 2
  | LocalityScope.kRegion => 3
  | LocalityScope.kGlobal => 4
  | LocalityScope.kOther raw => raw
  end.

Definition LocalityScope_cast (raw : N) : LocalityScope :=
  match raw with
  | 0 => LocalityScope.kNode
  | 1 => LocalityScope.kRack
  | 2 => LocalityScope.kZone
  | 3 => LocalityScope.kRegion
  | 4 => LocalityScope.kGlobal
  | _ => LocalityScope.kOther raw
  end.

Definition LocalityScopeName (v : LocalityScope) : string :=
  match v with
  | LocalityScope.kNode => "node"
  | LocalityScope.kRack => "rack"
  | LocalityScope.kZone => "zone"
  | LocalityScope.kRegion => "region"
  | LocalityScope.kGlobal => "global"
  | LocalityScope.kOther _ => "unknown"
  end.

Definition kScopeNames : list (string * LocalityScope) := [
  ("node"%string, LocalityScope.kNode);
  ("rack"%string, LocalityScope.kRack);
  ("zone"%string, LocalityScope.kZone);
  ("region"%string, LocalityScope.kRegion);
  ("global"%string, LocalityScope.kGlobal)
].

Module ObjectiveKind.
Inductive ObjectiveKind :=
  | kCost
  | kLatency
  | kResidualCapacity
  | kHopCount
  | kCongestionUtilization
  | kTier
  | kLocalityAffinity
  | kReservationAffinity
  | kIncumbentStability
  | kOther (raw : N).
End ObjectiveKind.
Abbreviation ObjectiveKind := ObjectiveKind.ObjectiveKind.

Definition ObjectiveKind_ordinal (v : ObjectiveKind) : N :=
  match v with
  | ObjectiveKind.kCost => 0
  | ObjectiveKind.kLatency => 1
  | ObjectiveKind.kResidualCapacity => 2
  | ObjectiveKind.kHopCount => 3
  | ObjectiveKind.kCongestionUtilization => 4
  | ObjectiveKind.kTier => 5
  | ObjectiveKind.kLocalityAffinity => 6
  | ObjectiveKind.kReservationAffinity => 7
  | ObjectiveKind.kIncumbentStability => 8
  | ObjectiveKind.kOther raw => raw
  end.

Definition ObjectiveKind_cast (raw : N) : ObjectiveKind :=
  match raw with
  | 0 => ObjectiveKind.kCost
  | 1 => ObjectiveKind.kLatency
  | 2 => ObjectiveKind.kResidualCapacity
  | 3 => ObjectiveKind.kHopCount
  | 4 => ObjectiveKind.kCongestionUtilization
  | 5 => ObjectiveKind.kTier
  | 6 => ObjectiveKind.kLocalityAffinity
  | 7 => ObjectiveKind.kReservationAffinity
  | 8 => ObjectiveKind.kIncumbentStability
  | _ => ObjectiveKind.kOther raw
  end.

Definition ObjectiveKindName (v : ObjectiveKind) : string :=
  match v with
  | ObjectiveKind.kCost => "cost"
  | ObjectiveKind.kLatency => "latency"
  | ObjectiveKind.kResidualCapacity => "residual_capacity"
  | ObjectiveKind.kHopCount => "hop_count"
  | ObjectiveKind.kCongestionUtilization => "congestion"
  | ObjectiveKind.kTier => "tier"
  | ObjectiveKind.kLocalityAffinity => "locality_affinity"
  | ObjectiveKind.kReservationAffinity => "reservation_affinity"
  | ObjectiveKind.kIncumbentStability => "incumbent_stability"
  | ObjectiveKind.kOther _ => "unknown"
  end.

Definition kObjectiveNames : list (string * ObjectiveKind) := [
  ("cost"%string, ObjectiveKind.kCost);
  ("latency"%string, ObjectiveKind.kLatency);
  ("residual_capacity"%string, ObjectiveKind.kResidualCapacity);
  ("hop_count"%string, ObjectiveKind.kHopCount);
  ("congestion"%string, ObjectiveKind.kCongestionUtilization);
  ("tier"%string, ObjectiveKind.kTier);
  ("locality_affinity"%string, ObjectiveKind.kLocalityAffinity);
  ("reservation_affinity"%string, ObjectiveKind.kReservationAffinity);
  ("incumbent_stability"%string, ObjectiveKind.kIncumbentStability)
].

Module Direction.
Inductive Direction :=
  | kMinimize
  | kMaximize
  | kOther (raw : N).
End Direction.
Abbreviation Direction := Direction.Direction.

Definition Direction_ordinal (v : Direction) : N :=
  match v with
  | Direction.kMinimize => 0
  | Direction.kMaximize => 1
  | Direction.kOther raw => raw
  end.

Definition Direction_cast (raw : N) : Direction :=
  match raw with
  | 0 => Direction.kMinimize
  | 1 => Direction.kMaximize
  | _ => Direction.kOther raw
  end.

Definition DirectionName (v : Direction) : string :=
  match v with
  | Direction.kMinimize => "min"
  | Direction.kMaximize => "max"
  | Direction.kOther _ => "unknown"
  end.

Definition kDirectionNames : list (string * Direction) := [
  ("min"%string, Direction.kMinimize);
  ("max"%string, Direction.kMaximize)
].

Module EvidencePolicyMode.
Inductive EvidencePolicyMode :=
  | kRankWorst
  | kHardExclude
  | kOther (raw : N).
End EvidencePolicyMode.
Abbreviation EvidencePolicyMode := EvidencePolicyMode.EvidencePolicyMode.

Definition EvidencePolicyMode_ordinal (v : EvidencePolicyMode) : N :=
  match v with
  | EvidencePolicyMode.kRankWorst => 0
  | EvidencePolicyMode.kHardExclude => 1
  | EvidencePolicyMode.kOther raw => raw
  end.

Definition EvidencePolicyMode_cast (raw : N) : EvidencePolicyMode :=
  match raw with
  | 0 => EvidencePolicyMode.kRankWorst
  | 1 => EvidencePolicyMode.kHardExclude
  | _ => EvidencePolicyMode.kOther raw
  end.

Definition EvidencePolicyModeName (v : EvidencePolicyMode) : string :=
  match v with
  | EvidencePolicyMode.kRankWorst => "rank_worst"
  | EvidencePolicyMode.kHardExclude => "hard_exclude"
  | EvidencePolicyMode.kOther _ => "unknown"
  end.

Definition kEvidenceModeNames : list (string * EvidencePolicyMode) := [
  ("rank_worst"%string, EvidencePolicyMode.kRankWorst);
  ("hard_exclude"%string, EvidencePolicyMode.kHardExclude)
].

Module GateAction.
Inductive GateAction :=
  | kPlace
  | kDefer
  | kOther (raw : N).
End GateAction.
Abbreviation GateAction := GateAction.GateAction.

Definition GateAction_ordinal (v : GateAction) : N :=
  match v with
  | GateAction.kPlace => 0
  | GateAction.kDefer => 1
  | GateAction.kOther raw => raw
  end.

Definition GateAction_cast (raw : N) : GateAction :=
  match raw with
  | 0 => GateAction.kPlace
  | 1 => GateAction.kDefer
  | _ => GateAction.kOther raw
  end.

Definition GateActionName (v : GateAction) : string :=
  match v with
  | GateAction.kPlace => "place"
  | GateAction.kDefer => "defer"
  | GateAction.kOther _ => "unknown"
  end.

Definition kGateNames : list (string * GateAction) := [
  ("place"%string, GateAction.kPlace);
  ("defer"%string, GateAction.kDefer)
].

Module ChurnAction.
Inductive ChurnAction :=
  | kAllowMove
  | kDefer
  | kOther (raw : N).
End ChurnAction.
Abbreviation ChurnAction := ChurnAction.ChurnAction.

Definition ChurnAction_ordinal (v : ChurnAction) : N :=
  match v with
  | ChurnAction.kAllowMove => 0
  | ChurnAction.kDefer => 1
  | ChurnAction.kOther raw => raw
  end.

Definition ChurnAction_cast (raw : N) : ChurnAction :=
  match raw with
  | 0 => ChurnAction.kAllowMove
  | 1 => ChurnAction.kDefer
  | _ => ChurnAction.kOther raw
  end.

Definition ChurnActionName (v : ChurnAction) : string :=
  match v with
  | ChurnAction.kAllowMove => "allow_move"
  | ChurnAction.kDefer => "defer"
  | ChurnAction.kOther _ => "unknown"
  end.

Definition kChurnNames : list (string * ChurnAction) := [
  ("allow_move"%string, ChurnAction.kAllowMove);
  ("defer"%string, ChurnAction.kDefer)
].

(** [ParseEnum]: the first table row whose name is [v]. *)
Definition ParseEnum {T} (table : list (string * T)) (v : string) : option T :=
  snd <$> find (λ row, String.eqb row.1 v) table.

Definition ParseServiceClass (v : string) : option ServiceClass := ParseEnum kServiceClassNames v.
Definition ParsePriorityClass (v : string) : option PriorityClass := ParseEnum kPriorityNames v.
Definition ParsePathTier (v : string) : option PathTier := ParseEnum kTierNames v.
Definition ParseLocalityScope (v : string) : option LocalityScope := ParseEnum kScopeNames v.
Definition ParseObjectiveKind (v : string) : option ObjectiveKind := ParseEnum kObjectiveNames v.
Definition ParseDirection (v : string) : option Direction := ParseEnum kDirectionNames v.
Definition ParseEvidencePolicyMode (v : string) : option EvidencePolicyMode := ParseEnum kEvidenceModeNames v.
Definition ParseGateAction (v : string) : option GateAction := ParseEnum kGateNames v.
Definition ParseChurnAction (v : string) : option ChurnAction := ParseEnum kChurnNames v.

(** The service-class requirement table. *)
Definition ServiceHeadroomMultiplier (v : ServiceClass) : N :=
  match v with
  | ServiceClass.kBestEffort => 1
  | ServiceClass.kControlled => 2
  | ServiceClass.kAssured => 3
  | ServiceClass.kReserved => 3
  | ServiceClass.kOther _ => 1
  end.

Definition ServiceRequiresReservation (v : ServiceClass) : bool :=
  ServiceClass_ordinal v =? 3.

(** ** Bounds *)

Record Limits := mkLimits {
  max_candidate_paths : N;
  max_capacity_entries : N;
  max_evidence_entries : N;
  max_occupied_failure_domains : N;
  max_objectives : N;
  max_path_labels : N;
  max_path_reservations : N;
  max_policy_id_lists : N;
  max_affinity_refs : N;
  max_string_length : N;
  max_ranked_explained : N;
  max_exclusion_samples : N;
  max_exclusion_reasons : N;
}.

Definition default_limits : Limits :=
  mkLimits (2 ^ 20) (2 ^ 21) (2 ^ 21) (2 ^ 20) 8 32 16 4096 256 256 32 4 64.

Definition kMaxProvenanceFieldLength : N := 128.

Record Provenance := mkProvenance {
  prov_producer : string;
  prov_producer_version : string;
  prov_source_sequence : N;
  prov_observer_unix_nanos : Z;
}.

(** ** Facts supplied by the caller *)

Record ReservationRef := mkRef { ref_id : N; ref_generation : N }.

Definition ReservationRef_none : ReservationRef := mkRef 0 0.

Definition ReservationRef_valid (r : ReservationRef) : bool :=
  valid (ref_id r) && valid (ref_generation r).

Definition ReservationRef_eqb (a b : ReservationRef) : bool :=
  (ref_id a =? ref_id b) && (ref_generation a =? ref_generation b).

Definition ReservationRef_ltb (a b : ReservationRef) : bool :=
  if negb (ref_id a =? ref_id b) then ref_id a <? ref_id b
  else ref_generation a <? ref_generation b.

Definition ReservationRef_ToString (r : ReservationRef) : string :=
  if negb (ReservationRef_valid r) then "-"
  else (to_string (ref_id r) ++ ":" ++ to_string (ref_generation r))%string.

Record PathAttributes := mkAttributes {
  attr_tier : PathTier;
  attr_locality : N;
  attr_locality_scope : LocalityScope;
  attr_failure_domain : N;
  attr_cost_micro : N;
  attr_latency_nanos : N;
  attr_hop_count : N;
  attr_labels : list N;
  attr_reservations : list ReservationRef;
}.

Record CandidatePath := mkPath {
  path_id : N;
  path_authority : N;
  path_attributes : PathAttributes;
}.

Record CandidateSet := mkCandidateSet {
  set_id : N;
  set_generation : N;
  set_paths : list CandidatePath;
}.

Record PathCapacity := mkCapacity {
  cap_path : N;
  cap_capacity_bytes : N;
  cap_residual_bytes : N;
}.

Record CapacitySnapshot := mkSnapshot {
  snap_id : N;
  snap_generation : N;
  snap_entries : list PathCapacity;
}.

Record CongestionEvidenceEntry := mkEvidenceEntry {
  ev_path : N;
  ev_utilization_ppb : N;
}.

Record EvidenceBundle := mkBundle {
  bundle_id : N;
  bundle_generation : N;
  bundle_entries : list CongestionEvidenceEntry;
}.

Record QosProfile := mkQos {
  qos_id : N;
  qos_generation : N;
  qos_service_class : ServiceClass;
  qos_priority : PriorityClass;
  qos_required_residual_bytes : N;
  qos_max_latency_nanos : N;
}.

(** ** Policy *)

Record Objective := mkObjective { obj_kind : ObjectiveKind; obj_direction : Direction }.

Record LocalityConstraint := mkLocality {
  required_locality : option N;
  preferred_locality : option N;
  forbidden_localities : list N;
}.

Record FailureDomainConstraint := mkFailureDomains {
  required_domain : option N;
  forbidden_domains : list N;
  avoid_occupied_domains : bool;
  min_distinct_domains : N;
}.

Record ReservationAffinity := mkAffinity {
  affinity_required : bool;
  affinity_refs : list ReservationRef;
}.

Record AdmissionGate := mkAdmission {
  min_residual_headroom_bytes : N;
  on_below : GateAction;
}.

Record ServicePolicy := mkService {
  allow_degraded : bool;
  max_relaxation_steps : N;
}.

Record ChurnPolicy := mkChurn {
  on_move : ChurnAction;
  prefer_incumbent : bool;
  move_improvement_threshold : N;
  threshold_objective_index : N;
}.

Record EvidencePolicy := mkEvidencePolicy {
  on_missing : EvidencePolicyMode;
  on_stale : EvidencePolicyMode;
}.

Record PlacementPolicy := mkPolicy {
  pol_id : N;
  pol_generation : N;
  pol_objectives : list Objective;
  pol_allowed_tiers : list PathTier;
  pol_required_labels : list N;
  pol_forbidden_labels : list N;
  pol_locality : LocalityConstraint;
  pol_failure_domains : FailureDomainConstraint;
  pol_reservation_affinity : ReservationAffinity;
  pol_admission : AdmissionGate;
  pol_service : ServicePolicy;
  pol_churn : ChurnPolicy;
  pol_evidence : EvidencePolicy;
  pol_revalidate_after_nanos : N;
}.

(** ** Incumbent and authority *)

Record IncumbentPlacement := mkIncumbent {
  inc_id : N;
  inc_generation : N;
  inc_path : N;
  inc_path_authority : N;
  inc_candidate_set_generation : N;
  inc_capacity_generation : N;
  inc_policy_generation : N;
  inc_qos_generation : N;
  inc_fabric_epoch : N;
  inc_reservation : ReservationRef;
}.

Record AuthorityExpectation := mkExpectation {
  exp_path_authority : N;
  exp_candidate_set : N;
  exp_capacity : N;
  exp_policy : N;
  exp_qos : N;
  exp_fabric_epoch : N;
  exp_evidence : N;
}.

Record AuthorityVector := mkAuthority {
  av_path_authority : N;
  av_candidate_set : N;
  av_candidate_set_generation : N;
  av_capacity : N;
  av_capacity_generation : N;
  av_policy : N;
  av_policy_generation : N;
  av_qos : N;
  av_qos_generation : N;
  av_evidence : N;
  av_evidence_generation : N;
  av_fabric_epoch : N;
}.

Definition AuthorityVector_zero : AuthorityVector := mkAuthority 0 0 0 0 0 0 0 0 0 0 0 0.

Definition AuthorityVector_ToString (a : AuthorityVector) : string :=
  ("pathauth=" ++ to_string (av_path_authority a) ++
   " cset=" ++ to_string (av_candidate_set a) ++ "/" ++
               to_string (av_candidate_set_generation a) ++
   " cap=" ++ to_string (av_capacity a) ++ "/" ++ to_string (av_capacity_generation a) ++
   " policy=" ++ to_string (av_policy a) ++ "/" ++ to_string (av_policy_generation a) ++
   " qos=" ++ to_string (av_qos a) ++ "/" ++ to_string (av_qos_generation a) ++
   " evidence=" ++ to_string (av_evidence a) ++ "/" ++
                   to_string (av_evidence_generation a) ++
   " epoch=" ++ to_string (av_fabric_epoch a))%string.

Record PlacementRequest := mkRequest {
  rq_flow : N;
  rq_flow_generation : N;
  rq_candidates : CandidateSet;
  rq_capacity : CapacitySnapshot;
  rq_qos : QosProfile;
  rq_policy : PlacementPolicy;
  rq_evidence : EvidenceBundle;
  rq_incumbent : option IncumbentPlacement;
  rq_occupied_failure_domains : list N;
  rq_expected : AuthorityExpectation;
  rq_provenance : Provenance;
  rq_attempt : N;
}.

(** ** Equality and ordering *)

#[export] Instance ServiceClass_eq_dec : EqDecision ServiceClass.
Proof. solve_decision. Defined.
#[export] Instance PriorityClass_eq_dec : EqDecision PriorityClass.
Proof. solve_decision. Defined.
#[export] Instance PathTier_eq_dec : EqDecision PathTier.
Proof. solve_decision. Defined.
#[export] Instance LocalityScope_eq_dec : EqDecision LocalityScope.
Proof. solve_decision. Defined.
#[export] Instance ObjectiveKind_eq_dec : EqDecision ObjectiveKind.
Proof. solve_decision. Defined.
#[export] Instance Direction_eq_dec : EqDecision Direction.
Proof. solve_decision. Defined.
#[export] Instance EvidencePolicyMode_eq_dec : EqDecision EvidencePolicyMode.
Proof. solve_decision. Defined.
#[export] Instance GateAction_eq_dec : EqDecision GateAction.
Proof. solve_decision. Defined.
#[export] Instance ChurnAction_eq_dec : EqDecision ChurnAction.
Proof. solve_decision. Defined.
#[export] Instance ReservationRef_eq_dec : EqDecision ReservationRef.
Proof. solve_decision. Defined.
#[export] Instance PathAttributes_eq_dec : EqDecision PathAttributes.
Proof. solve_decision. Defined.
#[export] Instance CandidatePath_eq_dec : EqDecision CandidatePath.
Proof. solve_decision. Defined.
#[export] Instance PathCapacity_eq_dec : EqDecision PathCapacity.
Proof. solve_decision. Defined.
#[export] Instance CongestionEvidenceEntry_eq_dec : EqDecision CongestionEvidenceEntry.
Proof. solve_decision. Defined.
#[export] Instance Objective_eq_dec : EqDecision Objective.
Proof. solve_decision. Defined.
#[export] Instance IncumbentPlacement_eq_dec : EqDecision IncumbentPlacement.
Proof. solve_decision. Defined.
#[export] Instance AuthorityExpectation_eq_dec : EqDecision AuthorityExpectation.
Proof. solve_decision. Defined.
#[export] Instance AuthorityVector_eq_dec : EqDecision AuthorityVector.
Proof. solve_decision. Defined.
#[export] Instance Provenance_eq_dec : EqDecision Provenance.
Proof. solve_decision. Defined.

Lemma ReservationRef_eqb_eq a b : ReservationRef_eqb a b = true ↔ a = b.
Proof.
  unfold ReservationRef_eqb. destruct a, b; cbn. b2p. split; [by intros [-> ->]|by intros [= -> ->]].
Qed.

Lemma ReservationRef_valid_true r :
  ReservationRef_valid r = true ↔ ref_id r ≠ 0 ∧ ref_generation r ≠ 0.
Proof. unfold ReservationRef_valid. b2p. done. Qed.

#[export] Hint Rewrite ReservationRef_eqb_eq ReservationRef_valid_true : b2p.

#[export] Instance ReservationRef_order : StrictTotalOrder ReservationRef_ltb.
Proof.
  unfold ReservationRef_ltb.
  split; [split|]; intros; repeat case_match; b2p; subst; try (lia || congruence).
  destruct x, y; cbn in *. f_equal; lia.
Qed.

(** ** Enumerations and their ordinals

    [in_range] is the test of [ValidateEnumerations]: a value the wire or a
    caller supplies names an enumerator. *)

Definition in_range (value max_value : N) : bool := value <=? max_value.

Lemma ServiceClass_cast_ordinal v :
  match v with ServiceClass.kOther raw => 3 < raw | _ => True end → ServiceClass_cast (ServiceClass_ordinal v) = v.
Proof.
  destruct v as [ |  |  |  | raw]; try done. intros H. unfold ServiceClass_cast. cbn in *.
  repeat (case_match; try done); subst; lia.
Qed.

Lemma ServiceClass_ordinal_cast raw : ServiceClass_ordinal (ServiceClass_cast raw) = raw.
Proof. unfold ServiceClass_cast. by repeat (case_match; try done). Qed.

Lemma PriorityClass_cast_ordinal v :
  match v with PriorityClass.kOther raw => 3 < raw | _ => True end → PriorityClass_cast (PriorityClass_ordinal v) = v.
Proof.
  destruct v as [ |  |  |  | raw]; try done. intros H. unfold PriorityClass_cast. cbn in *.
  repeat (case_match; try done); subst; lia.
Qed.

Lemma PriorityClass_ordinal_cast raw : PriorityClass_ordinal (PriorityClass_cast raw) = raw.
Proof. unfold PriorityClass_cast. by repeat (case_match; try done). Qed.

Lemma PathTier_cast_ordinal v :
  match v with PathTier.kOther raw => 2 < raw | _ => True end → PathTier_cast (PathTier_ordinal v) = v.
Proof.
  destruct v as [ |  |  | raw]; try done. intros H. unfold PathTier_cast. cbn in *.
  repeat (case_match; try done); subst; lia.
Qed.

Lemma PathTier_ordinal_cast raw : PathTier_ordinal (PathTier_cast raw) = raw.
Proof. unfold PathTier_cast. by repeat (case_match; try done). Qed.

Lemma LocalityScope_cast_ordinal v :
  match v with LocalityScope.kOther raw => 4 < raw | _ => True end → LocalityScope_cast (LocalityScope_ordinal v) = v.
Proof.
  destruct v as [ |  |  |  |  | raw]; try done. intros H. unfold LocalityScope_cast. cbn in *.
  repeat (case_match; try done); subst; lia.
Qed.

Lemma LocalityScope_ordinal_cast raw : LocalityScope_ordinal (LocalityScope_cast raw) = raw.
Proof. unfold LocalityScope_cast. by repeat (case_match; try done). Qed.

Lemma ObjectiveKind_cast_ordinal v :
  match v with ObjectiveKind.kOther raw => 8 < raw | _ => True end → ObjectiveKind_cast (ObjectiveKind_ordinal v) = v.
Proof.
  destruct v as [ |  |  |  |  |  |  |  |  | raw]; try done. intros H. unfold ObjectiveKind_cast. cbn in *.
  repeat (case_match; try done); subst; lia.
Qed.

Lemma ObjectiveKind_ordinal_cast raw : ObjectiveKind_ordinal (ObjectiveKind_cast raw) = raw.
Proof. unfold ObjectiveKind_cast. by repeat (case_match; try done). Qed.

Lemma Direction_cast_ordinal v :
  match v with Direction.kOther raw => 1 < raw | _ => True end → Direction_cast (Direction_ordinal v) = v.
Proof.
  destruct v as [ |  | raw]; try done. intros H. unfold Direction_cast. cbn in *.
  repeat (case_match; try done); subst; lia.
Qed.

Lemma Direction_ordinal_cast raw : Direction_ordinal (Direction_cast raw) = raw.
Proof. unfold Direction_cast. by repeat (case_match; try done). Qed.

Lemma EvidencePolicyMode_cast_ordinal v :
  match v with EvidencePolicyMode.kOther raw => 1 < raw | _ => True end → EvidencePolicyMode_cast (EvidencePolicyMode_ordinal v) = v.
Proof.
  destruct v as [ |  | raw]; try done. intros H. unfold EvidencePolicyMode_cast. cbn in *.
  repeat (case_match; try done); subst; lia.
Qed.

Lemma EvidencePolicyMode_ordinal_cast raw : EvidencePolicyMode_ordinal (EvidencePolicyMode_cast raw) = raw.
Proof. unfold EvidencePolicyMode_cast. by repeat (case_match; try done). Qed.

Lemma GateAction_cast_ordinal v :
  match v with GateAction.kOther raw => 1 < raw | _ => True end → GateAction_cast (GateAction_ordinal v) = v.
Proof.
  destruct v as [ |  | raw]; try done. intros H. unfold GateAction_cast. cbn in *.
  repeat (case_match; try done); subst; lia.
Qed.

Lemma GateAction_ordinal_cast raw : GateAction_ordinal (GateAction_cast raw) = raw.
Proof. unfold GateAction_cast. by repeat (case_match; try done). Qed.

Lemma ChurnAction_cast_ordinal v :
  match v with ChurnAction.kOther raw => 1 < raw | _ => True end → ChurnAction_cast (ChurnAction_ordinal v) = v.
Proof.
  destruct v as [ |  | raw]; try done. intros H. unfold ChurnAction_cast. cbn in *.
  repeat (case_match; try done); subst; lia.
Qed.

Lemma ChurnAction_ordinal_cast raw : ChurnAction_ordinal (ChurnAction_cast raw) = raw.
Proof. unfold ChurnAction_cast. by repeat (case_match; try done). Qed.

