(* ===== verification/ModelDigest.v ===== *)
(** * Canonical digests of the model

    The digest functions of [model.cpp].  Unordered collections are hashed over
    a sorted copy; the relation [request_equiv] below says when two requests
    list the same unordered collections, and the digests are proved to be
    morphisms from it to equality. *)

From Stdlib Require Import String.
From S2P Require Import Prelude StdAlgo Checked Bytes Hash Model.

Definition HashReservation (r : ReservationRef) (h : CanonicalHasher) : CanonicalHasher :=
  h |> AddTag "reservation" |> AddU64 (ref_id r) |> AddU64 (ref_generation r).

(** [std::sort] followed by [erase(std::unique(...))] on ids and references. *)
Definition sorted_unique_ids (l : list N) : list N := std_unique N.eqb (std_sort N.ltb l).
Definition sorted_unique_refs (l : list ReservationRef) : list ReservationRef :=
  std_unique ReservationRef_eqb (std_sort ReservationRef_ltb l).

Definition HashPathAttributes (a : PathAttributes) (h : CanonicalHasher) : CanonicalHasher :=
  let labels := sorted_unique_ids (attr_labels a) in
  let reservations := sorted_unique_refs (attr_reservations a) in
  h |> AddTag "path_attributes"
    |> AddU8 (PathTier_ordinal (attr_tier a))
    |> AddU64 (attr_locality a)
    |> AddU8 (LocalityScope_ordinal (attr_locality_scope a))
    |> AddU64 (attr_failure_domain a)
    |> AddU64 (attr_cost_micro a)
    |> AddU64 (attr_latency_nanos a)
    |> AddU16 (attr_hop_count a)
    |> AddU32 (wrap 32 (size labels))
    |> hash_each AddU64 labels
    |> AddU32 (wrap 32 (size reservations))
    |> hash_each HashReservation reservations.

(** [HashSorted]: hashes a collection in the order of its key. *)
Definition HashSorted {T} (input : list T) (key : T → N)
    (write : T → CanonicalHasher → CanonicalHasher) (h : CanonicalHasher) : CanonicalHasher :=
  let sorted := std_sort (by_key key) input in
  h |> AddU32 (wrap 32 (size sorted)) |> hash_each write sorted.

Definition HashIncumbent (inc : IncumbentPlacement) (h : CanonicalHasher) : CanonicalHasher :=
  h |> AddTag "incumbent"
    |> AddU64 (inc_id inc)
    |> AddU64 (inc_generation inc)
    |> AddU64 (inc_path inc)
    |> AddU64 (inc_path_authority inc)
    |> AddU64 (inc_candidate_set_generation inc)
    |> AddU64 (inc_capacity_generation inc)
    |> AddU64 (inc_policy_generation inc)
    |> AddU64 (inc_qos_generation inc)
    |> AddU64 (inc_fabric_epoch inc)
    |> HashReservation (inc_reservation inc).

Definition HashIdSet (tag : string) (ids : list N) (h : CanonicalHasher) : CanonicalHasher :=
  let sorted := sorted_unique_ids ids in
  h |> AddTag tag |> AddU32 (wrap 32 (size sorted)) |> hash_each AddU64 sorted.

Definition HashReservationSet (tag : string) (refs : list ReservationRef)
    (h : CanonicalHasher) : CanonicalHasher :=
  let sorted := sorted_unique_refs refs in
  h |> AddTag tag |> AddU32 (wrap 32 (size sorted)) |> hash_each HashReservation sorted.

Definition hash_candidate (path : CandidatePath) (h : CanonicalHasher) : CanonicalHasher :=
  h |> AddU64 (path_id path) |> AddU64 (path_authority path)
    |> HashPathAttributes (path_attributes path).

Definition CandidateSetDigest (set : CandidateSet) : Digest :=
  OfCanonical (hasher_init
    |> AddTag "candidate_set"
    |> AddU64 (set_id set)
    |> AddU64 (set_generation set)
    |> HashSorted (set_paths set) path_id hash_candidate).

Definition hash_capacity (entry : PathCapacity) (h : CanonicalHasher) : CanonicalHasher :=
  h |> AddU64 (cap_path entry) |> AddU64 (cap_capacity_bytes entry)
    |> AddU64 (cap_residual_bytes entry).

Definition CapacitySnapshotDigest (snapshot : CapacitySnapshot) : Digest :=
  OfCanonical (hasher_init
    |> AddTag "capacity_snapshot"
    |> AddU64 (snap_id snapshot)
    |> AddU64 (snap_generation snapshot)
    |> HashSorted (snap_entries snapshot) cap_path hash_capacity).

Definition hash_evidence (entry : CongestionEvidenceEntry) (h : CanonicalHasher)
    : CanonicalHasher :=
  h |> AddU64 (ev_path entry) |> AddU32 (ev_utilization_ppb entry).

Definition EvidenceDigest (evidence : EvidenceBundle) : Digest :=
  OfCanonical (hasher_init
    |> AddTag "evidence"
    |> AddU64 (bundle_id evidence)
    |> AddU64 (bundle_generation evidence)
    |> HashSorted (bundle_entries evidence) ev_path hash_evidence).

Definition QosProfileDigest (qos : QosProfile) : Digest :=
  OfCanonical (hasher_init
    |> AddTag "qos"
    |> AddU64 (qos_id qos)
    |> AddU64 (qos_generation qos)
    |> AddU8 (ServiceClass_ordinal (qos_service_class qos))
    |> AddU8 (PriorityClass_ordinal (qos_priority qos))
    |> AddU64 (qos_required_residual_bytes qos)
    |> AddU64 (qos_max_latency_nanos qos)).

(** [h.AddBool(v.has_value()); if (v) h.AddU64(v->value());] *)
Definition hash_optional_id (v : option N) (h : CanonicalHasher) : CanonicalHasher :=
  match v with
  | Some id => h |> AddBool true |> AddU64 id
  | None => AddBool false h
  end.

Definition hash_objective (o : Objective) (h : CanonicalHasher) : CanonicalHasher :=
  h |> AddU8 (ObjectiveKind_ordinal (obj_kind o)) |> AddU8 (Direction_ordinal (obj_direction o)).

(** The sorted, de-duplicated [allowed_tiers]; tiers compare by ordinal. *)
Definition PathTier_eqb (a b : PathTier) : bool := PathTier_ordinal a =? PathTier_ordinal b.
Definition PathTier_ltb : PathTier → PathTier → bool := by_key PathTier_ordinal.
Definition sorted_unique_tiers (l : list PathTier) : list PathTier :=
  std_unique PathTier_eqb (std_sort PathTier_ltb l).

Definition PolicyDigest (policy : PlacementPolicy) : Digest :=
  let tiers := sorted_unique_tiers (pol_allowed_tiers policy) in
  let locality := pol_locality policy in
  let domains := pol_failure_domains policy in
  let affinity := pol_reservation_affinity policy in
  let churn := pol_churn policy in
  OfCanonical (hasher_init
    |> AddTag "policy"
    |> AddU64 (pol_id policy)
    |> AddU64 (pol_generation policy)
    |> AddU32 (wrap 32 (size (pol_objectives policy)))
    |> hash_each hash_objective (pol_objectives policy)
    |> AddU32 (wrap 32 (size tiers))
    |> hash_each (λ tier, AddU8 (PathTier_ordinal tier)) tiers
    |> HashIdSet "required_labels" (pol_required_labels policy)
    |> HashIdSet "forbidden_labels" (pol_forbidden_labels policy)
    |> AddTag "locality"
    |> hash_optional_id (required_locality locality)
    |> hash_optional_id (preferred_locality locality)
    |> HashIdSet "forbidden_localities" (forbidden_localities locality)
    |> AddTag "failure_domains"
    |> hash_optional_id (required_domain domains)
    |> HashIdSet "forbidden_domains" (forbidden_domains domains)
    |> AddBool (avoid_occupied_domains domains)
    |> AddU32 (min_distinct_domains domains)
    |> AddTag "reservation_affinity"
    |> AddBool (affinity_required affinity)
    |> HashReservationSet "affinity_refs" (affinity_refs affinity)
    |> AddTag "admission"
    |> AddU64 (min_residual_headroom_bytes (pol_admission policy))
    |> AddU8 (GateAction_ordinal (on_below (pol_admission policy)))
    |> AddTag "service"
    |> AddBool (allow_degraded (pol_service policy))
    |> AddU8 (max_relaxation_steps (pol_service policy))
    |> AddTag "churn"
    |> AddU8 (ChurnAction_ordinal (on_move churn))
    |> AddBool (prefer_incumbent churn)
    |> AddU64 (move_improvement_threshold churn)
    |> AddU32 (threshold_objective_index churn)
    |> AddTag "evidence_policy"
    |> AddU8 (EvidencePolicyMode_ordinal (on_missing (pol_evidence policy)))
    |> AddU8 (EvidencePolicyMode_ordinal (on_stale (pol_evidence policy)))
    |> AddU64 (pol_revalidate_after_nanos policy)).

Definition add_digest (d : Digest) (h : CanonicalHasher) : CanonicalHasher :=
  h |> AddU64 (digest_lo d) |> AddU64 (digest_hi d).

(** [RequestDigest]; [limits] do not participate. *)
Definition RequestDigest (request : PlacementRequest) (limits : Limits) : Digest :=
  let expected := rq_expected request in
  let provenance := rq_provenance request in
  OfCanonical (hasher_init
    |> AddTag "request"
    |> AddU64 (rq_flow request)
    |> AddU64 (rq_flow_generation request)
    |> add_digest (CandidateSetDigest (rq_candidates request))
    |> add_digest (CapacitySnapshotDigest (rq_capacity request))
    |> add_digest (EvidenceDigest (rq_evidence request))
    |> add_digest (QosProfileDigest (rq_qos request))
    |> add_digest (PolicyDigest (rq_policy request))
    |> (λ h, match rq_incumbent request with
             | Some inc => h |> AddBool true |> HashIncumbent inc
             | None => AddBool false h
             end)
    |> HashIdSet "occupied_failure_domains" (rq_occupied_failure_domains request)
    |> AddTag "expected"
    |> AddU64 (exp_path_authority expected)
    |> AddU64 (exp_candidate_set expected)
    |> AddU64 (exp_capacity expected)
    |> AddU64 (exp_policy expected)
    |> AddU64 (exp_qos expected)
    |> AddU64 (exp_evidence expected)
    |> AddU64 (exp_fabric_epoch expected)
    |> AddTag "provenance"
    |> AddString (prov_producer provenance)
    |> AddString (prov_producer_version provenance)
    |> AddU64 (prov_source_sequence provenance)
    |> AddU64 (rq_attempt request)).

Definition AuthorityVectorDigest (authority : AuthorityVector) : Digest :=
  OfCanonical (hasher_init
    |> AddTag "authority_vector"
    |> AddU64 (av_path_authority authority)
    |> AddU64 (av_candidate_set authority)
    |> AddU64 (av_candidate_set_generation authority)
    |> AddU64 (av_capacity authority)
    |> AddU64 (av_capacity_generation authority)
    |> AddU64 (av_policy authority)
    |> AddU64 (av_policy_generation authority)
    |> AddU64 (av_qos authority)
    |> AddU64 (av_qos_generation authority)
    |> AddU64 (av_evidence authority)
    |> AddU64 (av_evidence_generation authority)
    |> AddU64 (av_fabric_epoch authority)).

(** ** Equal up to the order of unordered collections *)

(** Two lists with the same members: labels, reservations, policy id lists. *)
Definition same_set {A} (l k : list A) : Prop := ∀ x, x ∈ l ↔ x ∈ k.

#[export] Instance same_set_equivalence {A} : Equivalence (same_set (A := A)).
Proof. unfold same_set. split; red; [done|naive_solver|]. intros x y z H1 H2 a. by rewrite H1. Qed.

(** Two collections without repeated keys that list [R]-related entries in any
    order. *)
Definition keyed_equiv {A} (key : A → N) (R : relation A) (l k : list A) : Prop :=
  NoDup (key <$> l) ∧ ∃ l', l ≡ₚ l' ∧ Forall2 R l' k.

Record attributes_equiv (a b : PathAttributes) : Prop := {
  ae_tier : attr_tier a = attr_tier b;
  ae_locality : attr_locality a = attr_locality b;
  ae_scope : attr_locality_scope a = attr_locality_scope b;
  ae_domain : attr_failure_domain a = attr_failure_domain b;
  ae_cost : attr_cost_micro a = attr_cost_micro b;
  ae_latency : attr_latency_nanos a = attr_latency_nanos b;
  ae_hops : attr_hop_count a = attr_hop_count b;
  ae_labels : same_set (attr_labels a) (attr_labels b);
  ae_reservations : same_set (attr_reservations a) (attr_reservations b);
}.

Record path_equiv (p q : CandidatePath) : Prop := {
  pe_id : path_id p = path_id q;
  pe_authority : path_authority p = path_authority q;
  pe_attributes : attributes_equiv (path_attributes p) (path_attributes q);
}.

Record policy_equiv (p q : PlacementPolicy) : Prop := {
  ple_id : pol_id p = pol_id q;
  ple_generation : pol_generation p = pol_generation q;
  ple_objectives : pol_objectives p = pol_objectives q;
  ple_tiers : same_set (PathTier_ordinal <$> pol_allowed_tiers p)
                       (PathTier_ordinal <$> pol_allowed_tiers q);
  ple_required_labels : same_set (pol_required_labels p) (pol_required_labels q);
  ple_forbidden_labels : same_set (pol_forbidden_labels p) (pol_forbidden_labels q);
  ple_required_locality :
    required_locality (pol_locality p) = required_locality (pol_locality q);
  ple_preferred_locality :
    preferred_locality (pol_locality p) = preferred_locality (pol_locality q);
  ple_forbidden_localities : same_set (forbidden_localities (pol_locality p))
                                      (forbidden_localities (pol_locality q));
  ple_required_domain :
    required_domain (pol_failure_domains p) = required_domain (pol_failure_domains q);
  ple_forbidden_domains : same_set (forbidden_domains (pol_failure_domains p))
                                   (forbidden_domains (pol_failure_domains q));
  ple_avoid : avoid_occupied_domains (pol_failure_domains p) =
              avoid_occupied_domains (pol_failure_domains q);
  ple_min : min_distinct_domains (pol_failure_domains p) =
            min_distinct_domains (pol_failure_domains q);
  ple_affinity_required : affinity_required (pol_reservation_affinity p) =
                          affinity_required (pol_reservation_affinity q);
  ple_affinity_refs : same_set (affinity_refs (pol_reservation_affinity p))
                               (affinity_refs (pol_reservation_affinity q));
  ple_admission : pol_admission p = pol_admission q;
  ple_service : pol_service p = pol_service q;
  ple_churn : pol_churn p = pol_churn q;
  ple_evidence : pol_evidence p = pol_evidence q;
  ple_revalidate : pol_revalidate_after_nanos p = pol_revalidate_after_nanos q;
}.

(** The informational observation time of the provenance is not compared. *)
Record request_equiv (r s : PlacementRequest) : Prop := {
  re_flow : rq_flow r = rq_flow s;
  re_flow_generation : rq_flow_generation r = rq_flow_generation s;
  re_set_id : set_id (rq_candidates r) = set_id (rq_candidates s);
  re_set_generation : set_generation (rq_candidates r) = set_generation (rq_candidates s);
  re_paths : keyed_equiv path_id path_equiv (set_paths (rq_candidates r))
                                            (set_paths (rq_candidates s));
  re_snap_id : snap_id (rq_capacity r) = snap_id (rq_capacity s);
  re_snap_generation : snap_generation (rq_capacity r) = snap_generation (rq_capacity s);
  re_capacity : keyed_equiv cap_path (=) (snap_entries (rq_capacity r))
                                         (snap_entries (rq_capacity s));
  re_qos : rq_qos r = rq_qos s;
  re_policy : policy_equiv (rq_policy r) (rq_policy s);
  re_bundle_id : bundle_id (rq_evidence r) = bundle_id (rq_evidence s);
  re_bundle_generation : bundle_generation (rq_evidence r) = bundle_generation (rq_evidence s);
  re_evidence : keyed_equiv ev_path (=) (bundle_entries (rq_evidence r))
                                        (bundle_entries (rq_evidence s));
  re_incumbent : rq_incumbent r = rq_incumbent s;
  re_occupied : same_set (rq_occupied_failure_domains r) (rq_occupied_failure_domains s);
  re_expected : rq_expected r = rq_expected s;
  re_producer : prov_producer (rq_provenance r) = prov_producer (rq_provenance s);
  re_producer_version :
    prov_producer_version (rq_provenance r) = prov_producer_version (rq_provenance s);
  re_source_sequence :
    prov_source_sequence (rq_provenance r) = prov_source_sequence (rq_provenance s);
  re_attempt : rq_attempt r = rq_attempt s;
}.

(** ** The hashing loops respect it *)

#[export] Instance sorted_unique_ids_proper : Proper (same_set ==> (=)) sorted_unique_ids.
Proof. intros l k H. by apply (sort_unique_ext N.ltb N.eqb N.eqb_eq). Qed.

#[export] Instance sorted_unique_refs_proper : Proper (same_set ==> (=)) sorted_unique_refs.
Proof.
  intros l k H.
  by apply (sort_unique_ext ReservationRef_ltb ReservationRef_eqb ReservationRef_eqb_eq).
Qed.

(** Sorting by a key, seen through the key. *)
Lemma fmap_std_sort_key {A} (key : A → N) l :
  key <$> std_sort (by_key key) l = std_sort N.ltb (key <$> l).
Proof.
  induction l as [|x l IH]; [done|]. cbn. rewrite <-IH. clear IH.
  induction (std_sort (by_key key) l) as [|y k IH]; [done|]. cbn.
  unfold by_key at 1. destruct (key y <? key x); [|done]. cbn. by rewrite IH.
Qed.

Lemma fmap_std_unique_key {A} (key : A → N) l :
  key <$> std_unique (λ a b, key a =? key b) l = std_unique N.eqb (key <$> l).
Proof.
  destruct l as [|x l]; [done|]. cbn. revert x.
  induction l as [|y l IH]; intros x; [done|]. cbn.
  destruct (key x =? key y); [apply IH|]. cbn. by rewrite IH.
Qed.

Lemma sorted_unique_tiers_ordinals l :
  PathTier_ordinal <$> sorted_unique_tiers l = sorted_unique_ids (PathTier_ordinal <$> l).
Proof.
  unfold sorted_unique_tiers, sorted_unique_ids, PathTier_ltb.
  rewrite <-fmap_std_sort_key. apply (fmap_std_unique_key PathTier_ordinal).
Qed.

Lemma hash_each_fmap {A B} (f : A → B) (add : B → CanonicalHasher → CanonicalHasher) l h :
  hash_each (λ x, add (f x)) l h = hash_each add (f <$> l) h.
Proof. revert h. induction l as [|x l IH]; intros h; [done|]. apply (IH (add (f x) h)). Qed.

Lemma hash_each_Forall2 {A} (R : relation A) (add : A → CanonicalHasher → CanonicalHasher) :
  (∀ x y h, R x y → add x h = add y h) →
  ∀ l k h, Forall2 R l k → hash_each add l h = hash_each add k h.
Proof.
  intros Hadd l k h H. revert h. induction H as [|x y l k Hxy H IH]; intros h; [done|].
  unfold hash_each in *. cbn. rewrite (Hadd x y h Hxy). apply IH.
Qed.

Lemma sort_insert_Forall2 {A} (key : A → N) (R : relation A) :
  (∀ x y, R x y → key x = key y) →
  ∀ x y l k, R x y → Forall2 R l k →
  Forall2 R (sort_insert (by_key key) x l) (sort_insert (by_key key) y k).
Proof.
  intros Hkey x y l k Hxy. induction 1 as [|a b l k Hab H IH]; cbn; [by repeat constructor|].
  unfold by_key at 1 3. rewrite (Hkey _ _ Hxy), (Hkey _ _ Hab).
  destruct (key b <? key y); by repeat constructor.
Qed.

Lemma std_sort_Forall2 {A} (key : A → N) (R : relation A) :
  (∀ x y, R x y → key x = key y) →
  ∀ l k, Forall2 R l k → Forall2 R (std_sort (by_key key) l) (std_sort (by_key key) k).
Proof.
  intros Hkey l k. induction 1 as [|x y l k Hxy H IH]; cbn; [constructor|].
  by apply sort_insert_Forall2.
Qed.

Lemma HashSorted_equiv {A} (key : A → N) (R : relation A) write l k h :
  (∀ x y, R x y → key x = key y) → (∀ x y h, R x y → write x h = write y h) →
  keyed_equiv key R l k → HashSorted l key write h = HashSorted k key write h.
Proof.
  intros Hkey Hwrite (Hnd & l' & Hp & HR). unfold HashSorted.
  rewrite (sort_by_key_perm key l l') by done.
  pose proof (std_sort_Forall2 key R Hkey _ _ HR) as HS.
  rewrite (hash_each_Forall2 R _ Hwrite _ _ _ HS).
  unfold size. by rewrite (Forall2_length _ _ _ HS).
Qed.

Lemma HashPathAttributes_equiv a b h :
  attributes_equiv a b → HashPathAttributes a h = HashPathAttributes b h.
Proof.
  intros []. unfold HashPathAttributes.
  rewrite ae_labels0, ae_reservations0. by congruence.
Qed.

Lemma hash_candidate_equiv p q h : path_equiv p q → hash_candidate p h = hash_candidate q h.
Proof.
  intros [Hi Ha Ht]. unfold hash_candidate. rewrite Hi, Ha.
  by apply HashPathAttributes_equiv.
Qed.

Lemma HashIdSet_equiv tag l k h : same_set l k → HashIdSet tag l h = HashIdSet tag k h.
Proof. intros H. unfold HashIdSet. by rewrite H. Qed.

Lemma HashReservationSet_equiv tag l k h :
  same_set l k → HashReservationSet tag l h = HashReservationSet tag k h.
Proof. intros H. unfold HashReservationSet. by rewrite H. Qed.

#[export] Instance PolicyDigest_proper : Proper (policy_equiv ==> (=)) PolicyDigest.
Proof.
  intros p q []. unfold PolicyDigest. cbv zeta. f_equal.
  rewrite !(hash_each_fmap PathTier_ordinal AddU8), !sorted_unique_tiers_ordinals.
  assert (size (sorted_unique_tiers (pol_allowed_tiers p)) =
          size (sorted_unique_tiers (pol_allowed_tiers q))) as Hsize.
  { unfold size. rewrite <-!(length_fmap PathTier_ordinal).
    by rewrite !sorted_unique_tiers_ordinals, ple_tiers0. }
  rewrite Hsize, ple_tiers0, ple_required_locality0, ple_preferred_locality0,
    ple_required_domain0, ple_avoid0, ple_min0, ple_affinity_required0, ple_admission0,
    ple_service0, ple_churn0, ple_evidence0, ple_revalidate0, ple_id0, ple_generation0,
    ple_objectives0.
  rewrite (HashIdSet_equiv _ _ _ _ ple_required_labels0),
    (HashIdSet_equiv _ _ _ _ ple_forbidden_labels0),
    (HashIdSet_equiv _ _ _ _ ple_forbidden_localities0),
    (HashIdSet_equiv _ _ _ _ ple_forbidden_domains0),
    (HashReservationSet_equiv _ _ _ _ ple_affinity_refs0). done.
Qed.

Lemma RequestDigest_equiv r s limits :
  request_equiv r s → RequestDigest r limits = RequestDigest s limits.
Proof.
  intros []. unfold RequestDigest. cbv zeta.
  assert (CandidateSetDigest (rq_candidates r) = CandidateSetDigest (rq_candidates s)) as ->.
  { unfold CandidateSetDigest. f_equal. rewrite re_set_id0, re_set_generation0.
    eapply HashSorted_equiv; [apply pe_id|apply hash_candidate_equiv|done]. }
  assert (CapacitySnapshotDigest (rq_capacity r) = CapacitySnapshotDigest (rq_capacity s)) as ->.
  { unfold CapacitySnapshotDigest. f_equal. rewrite re_snap_id0, re_snap_generation0.
    eapply HashSorted_equiv; [..|done]; by intros; subst. }
  assert (EvidenceDigest (rq_evidence r) = EvidenceDigest (rq_evidence s)) as ->.
  { unfold EvidenceDigest. f_equal. rewrite re_bundle_id0, re_bundle_generation0.
    eapply HashSorted_equiv; [..|done]; by intros; subst. }
  rewrite (PolicyDigest_proper _ _ re_policy0), re_qos0, re_flow0, re_flow_generation0, re_incumbent0, re_expected0,
    re_producer0, re_producer_version0, re_source_sequence0, re_attempt0.
  by rewrite (HashIdSet_equiv _ _ _ _ re_occupied0).
Qed.
