(* ===== verification/Validate.v ===== *)
(** * Structural validation

    [validate.cpp]: the checks a request must pass before anything is ranked,
    in the order the code makes them, each with its code and message.  A check
    that fails is an early return, so the definitions are chains of
    [if .. then Reject .. else ..]; a loop that returns from its body is
    [first_error].  [well_formed] states the same requirements declaratively. *)

From Stdlib Require Import String.
From S2P Require Import Prelude StdAlgo Checked Status Model ModelDigest.

Definition Reject (code : StatusCode) (message : string) : Status := mkStatus code message.

(** [if (!status.ok()) return status; k] *)
Definition and_then (status k : Status) : Status := if status_ok status then k else status.

(** [for (x : l) { status = f(x); if (!status.ok()) return status; }] *)
Fixpoint first_error {A} (f : A → Status) (l : list A) : Status :=
  match l with
  | [] => Status_Ok
  | x :: l' => and_then (f x) (first_error f l')
  end.

Definition CountMessage (what : string) (count limit : N) : string :=
  (what ++ " count " ++ to_string count ++ " exceeds limit " ++ to_string limit)%string.

(** The sorted copy without duplicates, and whether it had any. *)
Definition SortedUniqueCopy (input : list N) : list N * bool :=
  let copy := std_sort N.ltb input in
  (std_unique N.eqb copy, std_adjacent_dup N.eqb copy).

Definition Contains (sorted : list N) (value : N) : bool :=
  std_binary_search N.ltb sorted value.

(** The two-index merge loop, over the suffixes the indices point at. *)
Fixpoint Intersects (a : list N) : list N → bool :=
  match a with
  | [] => λ _, false
  | x :: a' =>
      fix advance_b (b : list N) : bool :=
        match b with
        | [] => false
        | y :: b' =>
            if x =? y then true
            else if x <? y then Intersects a' b
            else advance_b b'
        end
  end.

Fixpoint IdListToString_from (ids : list N) : string :=
  match ids with
  | [] => ""
  | id :: ids' => ("," ++ to_string id ++ IdListToString_from ids')%string
  end.

Definition IdListToString (ids : list N) : string :=
  match ids with
  | [] => ""
  | id :: ids' => (to_string id ++ IdListToString_from ids')%string
  end.

(** ** The checks *)

Definition ValidateEnumerations (request : PlacementRequest) : Status :=
  let qos := rq_qos request in
  let policy := rq_policy request in
  if negb (in_range (ServiceClass_ordinal (qos_service_class qos)) 3) then
    Reject StatusCode.kInvalidFieldValue "qos service class is out of range" else
  if negb (in_range (PriorityClass_ordinal (qos_priority qos)) 3) then
    Reject StatusCode.kInvalidFieldValue "qos priority class is out of range" else
  if negb (in_range (max_relaxation_steps (pol_service policy)) 2) then
    Reject StatusCode.kInvalidFieldValue "policy service relaxation is out of range" else
  if negb (in_range (GateAction_ordinal (on_below (pol_admission policy))) 1) ||
     negb (in_range (ChurnAction_ordinal (on_move (pol_churn policy))) 1) ||
     negb (in_range (EvidencePolicyMode_ordinal (on_missing (pol_evidence policy))) 1) ||
     negb (in_range (EvidencePolicyMode_ordinal (on_stale (pol_evidence policy))) 1) then
    Reject StatusCode.kInvalidFieldValue "policy mode field is out of range" else
  and_then (first_error (λ objective,
    if negb (in_range (ObjectiveKind_ordinal (obj_kind objective)) 8) ||
       negb (in_range (Direction_ordinal (obj_direction objective)) 1) then
      Reject StatusCode.kInvalidFieldValue "policy objective is out of range" else
    Status_Ok) (pol_objectives policy)) (
  and_then (first_error (λ tier,
    if negb (in_range (PathTier_ordinal tier) 2) then
      Reject StatusCode.kInvalidFieldValue "policy allowed tier is out of range" else
    Status_Ok) (pol_allowed_tiers policy)) (
  first_error (λ path,
    if negb (in_range (PathTier_ordinal (attr_tier (path_attributes path))) 2) ||
       negb (in_range (LocalityScope_ordinal
                         (attr_locality_scope (path_attributes path))) 4) then
      Reject StatusCode.kInvalidFieldValue
        ("candidate path " ++ to_string (path_id path) ++
         " has an out-of-range attribute") else
    Status_Ok) (set_paths (rq_candidates request)))).

Definition ValidateIncumbent (incumbent : IncumbentPlacement) : Status :=
  if negb (valid (inc_id incumbent)) || negb (valid (inc_generation incumbent)) ||
     negb (valid (inc_path incumbent)) || negb (valid (inc_path_authority incumbent)) ||
     negb (valid (inc_candidate_set_generation incumbent)) ||
     negb (valid (inc_capacity_generation incumbent)) ||
     negb (valid (inc_policy_generation incumbent)) ||
     negb (valid (inc_qos_generation incumbent)) ||
     negb (valid (inc_fabric_epoch incumbent)) then
    Reject StatusCode.kInvalidFieldValue
      "incumbent placement is missing a required identity or generation" else
  if negb (Bool.eqb (valid (ref_id (inc_reservation incumbent)))
                    (valid (ref_generation (inc_reservation incumbent)))) then
    Reject StatusCode.kInconsistentAuthorityGeneration
      "incumbent reservation must carry both an id and a generation, or neither" else
  Status_Ok.

Definition ValidateGenerations (request : PlacementRequest) : Status :=
  let expected := rq_expected request in
  if negb (valid (rq_flow request)) then
    Reject StatusCode.kInvalidId "flow id must be non-zero" else
  if negb (valid (rq_flow_generation request)) then
    Reject StatusCode.kInvalidFieldValue "flow generation must be non-zero" else
  if negb (valid (set_id (rq_candidates request))) then
    Reject StatusCode.kInvalidId "candidate set id must be non-zero" else
  if negb (valid (set_generation (rq_candidates request))) then
    Reject StatusCode.kInvalidFieldValue "candidate set generation must be non-zero" else
  if negb (valid (snap_id (rq_capacity request))) then
    Reject StatusCode.kInvalidId "capacity snapshot id must be non-zero" else
  if negb (valid (snap_generation (rq_capacity request))) then
    Reject StatusCode.kInvalidFieldValue "capacity snapshot generation must be non-zero" else
  if negb (valid (qos_id (rq_qos request))) then
    Reject StatusCode.kInvalidId "qos profile id must be non-zero" else
  if negb (valid (qos_generation (rq_qos request))) then
    Reject StatusCode.kInvalidFieldValue "qos generation must be non-zero" else
  if negb (valid (pol_id (rq_policy request))) then
    Reject StatusCode.kInvalidId "policy id must be non-zero" else
  if negb (valid (pol_generation (rq_policy request))) then
    Reject StatusCode.kInvalidFieldValue "policy generation must be non-zero" else
  if negb (valid (exp_path_authority expected)) then
    Reject StatusCode.kMissingField
      "expected path authority generation must be declared (non-zero)" else
  if negb (valid (exp_candidate_set expected)) || negb (valid (exp_capacity expected)) ||
     negb (valid (exp_policy expected)) || negb (valid (exp_qos expected)) ||
     negb (valid (exp_fabric_epoch expected)) then
    Reject StatusCode.kMissingField
      ("expected candidate set, capacity, policy, qos, and fabric epoch generations " ++
       "must all be declared (non-zero)") else
  if negb (Bool.eqb (valid (bundle_id (rq_evidence request)))
                    (valid (bundle_generation (rq_evidence request)))) then
    Reject StatusCode.kInconsistentAuthorityGeneration
      "evidence bundle must carry both an id and a generation, or neither" else
  match rq_incumbent request with
  | Some incumbent => ValidateIncumbent incumbent
  | None => Status_Ok
  end.

Definition ValidateBounds (request : PlacementRequest) (limits : Limits) : Status :=
  let policy := rq_policy request in
  if max_candidate_paths limits <? size (set_paths (rq_candidates request)) then
    Reject StatusCode.kOversizeRequest
      (CountMessage "candidate path" (size (set_paths (rq_candidates request)))
         (max_candidate_paths limits)) else
  if max_capacity_entries limits <? size (snap_entries (rq_capacity request)) then
    Reject StatusCode.kOversizeRequest
      (CountMessage "capacity entry" (size (snap_entries (rq_capacity request)))
         (max_capacity_entries limits)) else
  if max_evidence_entries limits <? size (bundle_entries (rq_evidence request)) then
    Reject StatusCode.kOversizeRequest
      (CountMessage "evidence entry" (size (bundle_entries (rq_evidence request)))
         (max_evidence_entries limits)) else
  if max_occupied_failure_domains limits <? size (rq_occupied_failure_domains request) then
    Reject StatusCode.kOversizeRequest
      (CountMessage "occupied failure domain" (size (rq_occupied_failure_domains request))
         (max_occupied_failure_domains limits)) else
  if size (pol_objectives policy) =? 0 then
    Reject StatusCode.kMissingField
      ("policy must declare at least one ranking objective; the engine applies no " ++
       "implicit objective order") else
  if max_objectives limits <? size (pol_objectives policy) then
    Reject StatusCode.kOversizeRequest
      (CountMessage "objective" (size (pol_objectives policy)) (max_objectives limits)) else
  if 3 <? size (pol_allowed_tiers policy) then
    Reject StatusCode.kInvalidFieldValue "policy lists more tiers than exist" else
  if (max_policy_id_lists limits <? size (pol_required_labels policy)) ||
     (max_policy_id_lists limits <? size (pol_forbidden_labels policy)) ||
     (max_policy_id_lists limits <? size (forbidden_localities (pol_locality policy))) ||
     (max_policy_id_lists limits <? size (forbidden_domains (pol_failure_domains policy))) then
    Reject StatusCode.kOversizeRequest
      "policy id list exceeds the configured limit (see Limits::max_policy_id_lists)" else
  if max_affinity_refs limits <? size (affinity_refs (pol_reservation_affinity policy)) then
    Reject StatusCode.kOversizeRequest
      (CountMessage "reservation affinity ref"
         (size (affinity_refs (pol_reservation_affinity policy)))
         (max_affinity_refs limits)) else
  if (kMaxProvenanceFieldLength <? string_size (prov_producer (rq_provenance request))) ||
     (kMaxProvenanceFieldLength <?
        string_size (prov_producer_version (rq_provenance request))) then
    Reject StatusCode.kOversizeRequest
      "provenance field exceeds kMaxProvenanceFieldLength" else
  Status_Ok.

(** The body of the first loop of [ValidateCandidates]. *)
Definition ValidateCandidate (limits : Limits) (path : CandidatePath) : Status :=
  let attributes := path_attributes path in
  if negb (valid (path_id path)) then
    Reject StatusCode.kInvalidId "candidate path id must be non-zero" else
  if negb (valid (path_authority path)) then
    Reject StatusCode.kInconsistentAuthorityGeneration
      ("candidate path " ++ to_string (path_id path) ++
       " has an unset path authority generation") else
  if max_path_labels limits <? size (attr_labels attributes) then
    Reject StatusCode.kOversizeRequest
      (CountMessage "path label" (size (attr_labels attributes)) (max_path_labels limits)) else
  if max_path_reservations limits <? size (attr_reservations attributes) then
    Reject StatusCode.kOversizeRequest
      (CountMessage "path reservation" (size (attr_reservations attributes))
         (max_path_reservations limits)) else
  if (SortedUniqueCopy (attr_labels attributes)).2 then
    Reject StatusCode.kInvalidFieldValue
      ("candidate path " ++ to_string (path_id path) ++ " lists a duplicate label") else
  let reservations := std_sort ReservationRef_ltb (attr_reservations attributes) in
  if std_adjacent_dup ReservationRef_eqb reservations then
    Reject StatusCode.kInvalidFieldValue
      ("candidate path " ++ to_string (path_id path) ++
       " lists a duplicate reservation reference") else
  first_error (λ ref,
    if negb (ReservationRef_valid ref) then
      Reject StatusCode.kInconsistentAuthorityGeneration
        ("candidate path " ++ to_string (path_id path) ++
         " carries a reservation reference without an id or generation") else
    Status_Ok) reservations.

(** [for (i = 1; i < sorted.size(); ++i)] of [ValidateCandidates]. *)
Fixpoint check_path_order (previous : CandidatePath) (sorted : list CandidatePath) : Status :=
  match sorted with
  | [] => Status_Ok
  | path :: sorted' =>
      if path_id path =? path_id previous then
        if negb (path_authority path =? path_authority previous) then
          Reject StatusCode.kInconsistentAuthorityGeneration
            ("candidate path " ++ to_string (path_id path) ++
             " appears with two different path authority generations") else
        Reject StatusCode.kDuplicatePathId
          ("candidate path " ++ to_string (path_id path) ++ " appears more than once")
      else check_path_order path sorted'
  end.

Definition ValidateCandidates (request : PlacementRequest) (limits : Limits) : Status :=
  let paths := set_paths (rq_candidates request) in
  and_then (first_error (ValidateCandidate limits) paths)
  match std_sort (by_key path_id) paths with
  | [] => Status_Ok
  | path :: sorted => check_path_order path sorted
  end.

(** The loop over the entries sorted by path, shared by the capacity and the
    evidence halves: the entry's own checks, then equality with its
    predecessor. *)
Fixpoint check_entries {A} (path_of : A → N) (check : A → Status) (duplicate : A → Status)
    (previous : option N) (sorted : list A) : Status :=
  match sorted with
  | [] => Status_Ok
  | entry :: sorted' =>
      and_then (check entry) (
      if (match previous with Some p => path_of entry =? p | None => false end)
      then duplicate entry
      else check_entries path_of check duplicate (Some (path_of entry)) sorted')
  end.

Definition check_capacity_entry (entry : PathCapacity) : Status :=
  if negb (valid (cap_path entry)) then
    Reject StatusCode.kInvalidId "capacity entry path id must be non-zero" else
  if cap_capacity_bytes entry <? cap_residual_bytes entry then
    Reject StatusCode.kInvalidFieldValue
      ("capacity entry for path " ++ to_string (cap_path entry) ++
       " reports residual capacity above total capacity") else
  Status_Ok.

Definition duplicate_capacity (entry : PathCapacity) : Status :=
  Reject StatusCode.kDuplicatePathId
    ("capacity snapshot lists path " ++ to_string (cap_path entry) ++ " more than once").

Definition check_evidence_entry (entry : CongestionEvidenceEntry) : Status :=
  if negb (valid (ev_path entry)) then
    Reject StatusCode.kInvalidId "evidence entry path id must be non-zero" else
  if 1000000000 <? ev_utilization_ppb entry then
    Reject StatusCode.kInvalidFieldValue
      ("evidence entry for path " ++ to_string (ev_path entry) ++
       " reports utilization above 1e9 ppb") else
  Status_Ok.

Definition duplicate_evidence (entry : CongestionEvidenceEntry) : Status :=
  Reject StatusCode.kDuplicatePathId
    ("evidence bundle lists path " ++ to_string (ev_path entry) ++ " more than once").

Definition ValidateCapacityAndEvidence (request : PlacementRequest) : Status :=
  and_then
    (check_entries cap_path check_capacity_entry duplicate_capacity None
       (std_sort (by_key cap_path) (snap_entries (rq_capacity request))))
    (check_entries ev_path check_evidence_entry duplicate_evidence None
       (std_sort (by_key ev_path) (bundle_entries (rq_evidence request)))).

(** The distinct valid failure domains of the candidate set, sorted. *)
Definition candidate_domains (paths : list CandidatePath) : list N :=
  sorted_unique_ids
    (filter (λ domain, valid domain = true)
       ((λ path, attr_failure_domain (path_attributes path)) <$> paths)).

Definition ValidatePolicy (request : PlacementRequest) : Status :=
  let policy := rq_policy request in
  let kinds := std_sort N.ltb
    ((λ objective, ObjectiveKind_ordinal (obj_kind objective)) <$> pol_objectives policy) in
  if std_adjacent_dup N.eqb kinds then
    Reject StatusCode.kInvalidFieldValue
      "policy lists the same objective kind more than once" else
  let required := SortedUniqueCopy (pol_required_labels policy) in
  if required.2 then
    Reject StatusCode.kInvalidFieldValue "policy repeats a required label" else
  let forbidden := SortedUniqueCopy (pol_forbidden_labels policy) in
  if forbidden.2 then
    Reject StatusCode.kInvalidFieldValue "policy repeats a forbidden label" else
  if Intersects required.1 forbidden.1 then
    Reject StatusCode.kContradictoryConstraints
      ("policy requires and forbids the same label(s): " ++ IdListToString required.1) else
  let localities :=
    SortedUniqueCopy (forbidden_localities (pol_locality policy)) in
  if localities.2 then
    Reject StatusCode.kInvalidFieldValue "policy repeats a forbidden locality" else
  if (match required_locality (pol_locality policy) with
      | Some required => Contains localities.1 required
      | None => false
      end) then
    Reject StatusCode.kContradictoryConstraints
      ("policy requires locality " ++
       to_string (default 0 (required_locality (pol_locality policy))) ++
       " and also forbids it") else
  let domains :=
    SortedUniqueCopy (forbidden_domains (pol_failure_domains policy)) in
  if domains.2 then
    Reject StatusCode.kInvalidFieldValue "policy repeats a forbidden failure domain" else
  if (match required_domain (pol_failure_domains policy) with
      | Some required => Contains domains.1 required
      | None => false
      end) then
    Reject StatusCode.kContradictoryConstraints
      ("policy requires failure domain " ++
       to_string (default 0 (required_domain (pol_failure_domains policy))) ++
       " and also forbids it") else
  if affinity_required (pol_reservation_affinity policy) &&
     (size (affinity_refs (pol_reservation_affinity policy)) =? 0) then
    Reject StatusCode.kContradictoryConstraints
      "policy requires reservation affinity but lists no reservation reference" else
  and_then (first_error (λ ref,
    if negb (ReservationRef_valid ref) then
      Reject StatusCode.kInconsistentAuthorityGeneration
        "policy reservation affinity reference is missing an id or generation" else
    Status_Ok) (affinity_refs (pol_reservation_affinity policy))) (
  if size (pol_objectives policy) <=? threshold_objective_index (pol_churn policy) then
    Reject StatusCode.kInvalidFieldValue
      "policy churn threshold objective index is outside the objective list" else
  if 2 <? max_relaxation_steps (pol_service policy) then
    Reject StatusCode.kInvalidFieldValue
      "policy service relaxation allows at most 2 steps" else
  if negb (allow_degraded (pol_service policy)) &&
     negb (max_relaxation_steps (pol_service policy) =? 0) then
    Reject StatusCode.kInvalidFieldValue
      "policy allows relaxation steps without allowing degraded service" else
  if bool_decide (on_move (pol_churn policy) = ChurnAction.kDefer) &&
     negb (prefer_incumbent (pol_churn policy)) then
    Reject StatusCode.kInvalidFieldValue
      "policy defers moves without preferring the incumbent; the rule would be inert" else
  if (1 <? size (pol_allowed_tiers policy)) &&
     std_adjacent_dup PathTier_eqb (std_sort PathTier_ltb (pol_allowed_tiers policy)) then
    Reject StatusCode.kInvalidFieldValue "policy repeats an allowed tier" else
  let multiplier := ServiceHeadroomMultiplier (qos_service_class (rq_qos request)) in
  match CheckedMul (qos_required_residual_bytes (rq_qos request)) multiplier with
  | None =>
      Reject StatusCode.kArithmeticOverflow
        "service-class headroom requirement overflows 64-bit capacity arithmetic"
  | Some _ =>
      let domains := candidate_domains (set_paths (rq_candidates request)) in
      let minimum := min_distinct_domains (pol_failure_domains policy) in
      if negb (minimum =? 0) && (size domains <? minimum) then
        Reject StatusCode.kContradictoryConstraints
          ("policy requires at least " ++ to_string minimum ++
           " distinct failure domains but the candidate set spans only " ++
           to_string (size domains)) else
      Status_Ok
  end).

Definition ValidateRequest (request : PlacementRequest) (limits : Limits) : Status :=
  and_then (ValidateEnumerations request) (
  and_then (ValidateGenerations request) (
  and_then (ValidateBounds request limits) (
  and_then (ValidateCandidates request limits) (
  and_then (ValidateCapacityAndEvidence request)
  (ValidatePolicy request))))).

(** ** What a valid request satisfies *)

Definition enumerations_ok (r : PlacementRequest) : Prop :=
  let qos := rq_qos r in
  let policy := rq_policy r in
  ServiceClass_ordinal (qos_service_class qos) ≤ 3 ∧
  PriorityClass_ordinal (qos_priority qos) ≤ 3 ∧
  max_relaxation_steps (pol_service policy) ≤ 2 ∧
  GateAction_ordinal (on_below (pol_admission policy)) ≤ 1 ∧
  ChurnAction_ordinal (on_move (pol_churn policy)) ≤ 1 ∧
  EvidencePolicyMode_ordinal (on_missing (pol_evidence policy)) ≤ 1 ∧
  EvidencePolicyMode_ordinal (on_stale (pol_evidence policy)) ≤ 1 ∧
  Forall (λ o, ObjectiveKind_ordinal (obj_kind o) ≤ 8 ∧
               Direction_ordinal (obj_direction o) ≤ 1) (pol_objectives policy) ∧
  Forall (λ tier, PathTier_ordinal tier ≤ 2) (pol_allowed_tiers policy) ∧
  Forall (λ p, PathTier_ordinal (attr_tier (path_attributes p)) ≤ 2 ∧
               LocalityScope_ordinal (attr_locality_scope (path_attributes p)) ≤ 4)
    (set_paths (rq_candidates r)).

(** Both present or both absent. *)
Definition paired (id generation : N) : Prop := id = 0 ↔ generation = 0.

Definition incumbent_ok (i : IncumbentPlacement) : Prop :=
  Forall (λ n, n ≠ 0)
    [inc_id i; inc_generation i; inc_path i; inc_path_authority i;
     inc_candidate_set_generation i; inc_capacity_generation i; inc_policy_generation i;
     inc_qos_generation i; inc_fabric_epoch i] ∧
  paired (ref_id (inc_reservation i)) (ref_generation (inc_reservation i)).

(** The identities and generations every request declares. *)
Definition declared_ids (r : PlacementRequest) : list N :=
  [rq_flow r; rq_flow_generation r; set_id (rq_candidates r); set_generation (rq_candidates r);
   snap_id (rq_capacity r); snap_generation (rq_capacity r); qos_id (rq_qos r);
   qos_generation (rq_qos r); pol_id (rq_policy r); pol_generation (rq_policy r);
   exp_path_authority (rq_expected r); exp_candidate_set (rq_expected r);
   exp_capacity (rq_expected r); exp_policy (rq_expected r); exp_qos (rq_expected r);
   exp_fabric_epoch (rq_expected r)].

Definition generations_ok (r : PlacementRequest) : Prop :=
  Forall (λ n, n ≠ 0) (declared_ids r) ∧
  paired (bundle_id (rq_evidence r)) (bundle_generation (rq_evidence r)) ∧
  from_option incumbent_ok True (rq_incumbent r).

Definition bounds_ok (r : PlacementRequest) (limits : Limits) : Prop :=
  let policy := rq_policy r in
  size (set_paths (rq_candidates r)) ≤ max_candidate_paths limits ∧
  size (snap_entries (rq_capacity r)) ≤ max_capacity_entries limits ∧
  size (bundle_entries (rq_evidence r)) ≤ max_evidence_entries limits ∧
  size (rq_occupied_failure_domains r) ≤ max_occupied_failure_domains limits ∧
  pol_objectives policy ≠ [] ∧
  size (pol_objectives policy) ≤ max_objectives limits ∧
  size (pol_allowed_tiers policy) ≤ 3 ∧
  Forall (λ l, size l ≤ max_policy_id_lists limits)
    [pol_required_labels policy; pol_forbidden_labels policy;
     forbidden_localities (pol_locality policy);
     forbidden_domains (pol_failure_domains policy)] ∧
  size (affinity_refs (pol_reservation_affinity policy)) ≤ max_affinity_refs limits ∧
  string_size (prov_producer (rq_provenance r)) ≤ kMaxProvenanceFieldLength ∧
  string_size (prov_producer_version (rq_provenance r)) ≤ kMaxProvenanceFieldLength.

Definition candidate_ok (limits : Limits) (p : CandidatePath) : Prop :=
  path_id p ≠ 0 ∧ path_authority p ≠ 0 ∧
  size (attr_labels (path_attributes p)) ≤ max_path_labels limits ∧
  size (attr_reservations (path_attributes p)) ≤ max_path_reservations limits ∧
  NoDup (attr_labels (path_attributes p)) ∧
  NoDup (attr_reservations (path_attributes p)) ∧
  Forall (λ ref, ReservationRef_valid ref = true) (attr_reservations (path_attributes p)).

Definition candidates_ok (r : PlacementRequest) (limits : Limits) : Prop :=
  Forall (candidate_ok limits) (set_paths (rq_candidates r)) ∧
  NoDup (path_id <$> set_paths (rq_candidates r)).

Definition capacity_and_evidence_ok (r : PlacementRequest) : Prop :=
  Forall (λ e, cap_path e ≠ 0 ∧ cap_residual_bytes e ≤ cap_capacity_bytes e)
    (snap_entries (rq_capacity r)) ∧
  NoDup (cap_path <$> snap_entries (rq_capacity r)) ∧
  Forall (λ e, ev_path e ≠ 0 ∧ ev_utilization_ppb e ≤ 1000000000)
    (bundle_entries (rq_evidence r)) ∧
  NoDup (ev_path <$> bundle_entries (rq_evidence r)).

(** How many distinct failure domains a list of paths spans; domain 0 is none. *)
Definition spanned_domains (paths : list CandidatePath) : gset N :=
  list_to_set ((λ p, attr_failure_domain (path_attributes p)) <$> paths) ∖ {[ 0 ]}.

Definition policy_ok (r : PlacementRequest) : Prop :=
  let policy := rq_policy r in
  let locality := pol_locality policy in
  let domains := pol_failure_domains policy in
  let affinity := pol_reservation_affinity policy in
  let service := pol_service policy in
  NoDup ((λ o, ObjectiveKind_ordinal (obj_kind o)) <$> pol_objectives policy) ∧
  NoDup (pol_required_labels policy) ∧ NoDup (pol_forbidden_labels policy) ∧
  (∀ label, label ∈ pol_required_labels policy → label ∉ pol_forbidden_labels policy) ∧
  NoDup (forbidden_localities locality) ∧
  from_option (.∉ forbidden_localities locality) True (required_locality locality) ∧
  NoDup (forbidden_domains domains) ∧
  from_option (.∉ forbidden_domains domains) True (required_domain domains) ∧
  (affinity_required affinity = true → affinity_refs affinity ≠ []) ∧
  Forall (λ ref, ReservationRef_valid ref = true) (affinity_refs affinity) ∧
  threshold_objective_index (pol_churn policy) < size (pol_objectives policy) ∧
  max_relaxation_steps service ≤ 2 ∧
  (allow_degraded service = false → max_relaxation_steps service = 0) ∧
  (on_move (pol_churn policy) = ChurnAction.kDefer → prefer_incumbent (pol_churn policy) = true) ∧
  NoDup (PathTier_ordinal <$> pol_allowed_tiers policy) ∧
  qos_required_residual_bytes (rq_qos r) *
    ServiceHeadroomMultiplier (qos_service_class (rq_qos r)) ≤ uint_max 64 ∧
  min_distinct_domains domains ≤
    N.of_nat (base.size (spanned_domains (set_paths (rq_candidates r)))).

Record well_formed (r : PlacementRequest) (limits : Limits) : Prop := {
  wf_enumerations : enumerations_ok r;
  wf_generations : generations_ok r;
  wf_bounds : bounds_ok r limits;
  wf_candidates : candidates_ok r limits;
  wf_capacity_and_evidence : capacity_and_evidence_ok r;
  wf_policy : policy_ok r;
}.

(** ** The combinators *)

Lemma reject_ok (c : bool) code message k :
  code ≠ StatusCode.kOk →
  status_ok (if c then Reject code message else k) = true ↔ c = false ∧ status_ok k = true.
Proof.
  intros Hcode. destruct c; [|tauto]. rewrite status_ok_true. by split; [|intros []].
Qed.

Lemma reject_last_ok (c : bool) code message :
  code ≠ StatusCode.kOk →
  status_ok (if c then Reject code message else Status_Ok) = true ↔ c = false.
Proof. intros Hcode. rewrite reject_ok by done. by split; [intros []|]. Qed.

Lemma and_then_ok s k :
  status_ok (and_then s k) = true ↔ status_ok s = true ∧ status_ok k = true.
Proof. unfold and_then. destruct (status_ok s) eqn:E; [tauto|]. rewrite E. by split; [|intros []]. Qed.

Lemma first_error_ok {A} (f : A → Status) l :
  status_ok (first_error f l) = true ↔ Forall (λ x, status_ok (f x) = true) l.
Proof.
  induction l as [|x l IH]; cbn; [by split|].
  rewrite and_then_ok, IH, Forall_cons. done.
Qed.

Lemma first_error_Forall {A} (f : A → Status) (P : A → Prop) l :
  (∀ x, status_ok (f x) = true ↔ P x) → status_ok (first_error f l) = true ↔ Forall P l.
Proof. intros Hf. rewrite first_error_ok. by apply Forall_iff. Qed.

Lemma in_range_false v max : negb (in_range v max) = false ↔ v ≤ max.
Proof. unfold in_range. b2p. done. Qed.

Lemma not_valid_false n : negb (valid n) = false ↔ n ≠ 0.
Proof. b2p. done. Qed.

Lemma status_Ok_ok : status_ok Status_Ok = true ↔ True.
Proof. done. Qed.

Lemma paired_valid id generation :
  negb (Bool.eqb (valid id) (valid generation)) = false ↔ paired id generation.
Proof.
  rewrite negb_false_iff, eqb_true_iff. unfold paired.
  unfold valid. destruct (N.eqb_spec id 0), (N.eqb_spec generation 0); cbn; (split; intros; (done || lia)).
Qed.

Lemma size_zero_test {A} (l : list A) : (size l =? 0) = false ↔ l ≠ [].
Proof. rewrite N.eqb_neq, size_zero. done. Qed.

#[export] Hint Rewrite in_range_false not_valid_false paired_valid @size_zero_test : b2p.

(** Turns the success of a chain of checks into the conjunction of the tests,
    also under the quantifier of a loop. *)
Ltac checks :=
  cbv beta zeta;
  repeat first [rewrite reject_last_ok by done | rewrite reject_ok by done |
                rewrite and_then_ok | rewrite first_error_ok | rewrite status_Ok_ok];
  repeat (setoid_rewrite reject_last_ok; [|done..]);
  repeat setoid_rewrite orb_false_iff;
  repeat setoid_rewrite in_range_false;
  repeat setoid_rewrite not_valid_false;
  rewrite ?paired_valid, ?N.ltb_ge, ?size_zero_test.

(** ** Each group of checks decides its requirement *)

Lemma ValidateEnumerations_ok r :
  status_ok (ValidateEnumerations r) = true ↔ enumerations_ok r.
Proof.
  unfold ValidateEnumerations, enumerations_ok. checks.
  tauto.
Qed.

Lemma ValidateIncumbent_ok i : status_ok (ValidateIncumbent i) = true ↔ incumbent_ok i.
Proof. unfold ValidateIncumbent, incumbent_ok. checks. rewrite !Forall_cons, Forall_nil. tauto. Qed.

Lemma ValidateGenerations_ok r :
  status_ok (ValidateGenerations r) = true ↔ generations_ok r.
Proof.
  unfold ValidateGenerations, generations_ok, declared_ids. checks.
  assert (status_ok (match rq_incumbent r with
                     | Some i => ValidateIncumbent i | None => Status_Ok end) = true ↔
          from_option incumbent_ok True (rq_incumbent r)) as ->.
  { destruct (rq_incumbent r); [apply ValidateIncumbent_ok|done]. }
  rewrite !Forall_cons, Forall_nil. tauto.
Qed.

Lemma ValidateBounds_ok r limits :
  status_ok (ValidateBounds r limits) = true ↔ bounds_ok r limits.
Proof.
  unfold ValidateBounds, bounds_ok. checks. rewrite !Forall_cons, Forall_nil. tauto.
Qed.

Lemma SortedUniqueCopy_dup l : (SortedUniqueCopy l).2 = false ↔ NoDup l.
Proof. apply (sort_adjacent_dup N.ltb N.eqb N.eqb_eq). Qed.

Lemma ValidateCandidate_ok limits p :
  status_ok (ValidateCandidate limits p) = true ↔ candidate_ok limits p.
Proof.
  unfold ValidateCandidate, candidate_ok. checks. rewrite SortedUniqueCopy_dup.
  rewrite (sort_adjacent_dup ReservationRef_ltb ReservationRef_eqb ReservationRef_eqb_eq).
  rewrite std_sort_perm. setoid_rewrite negb_false_iff. tauto.
Qed.

(** The loops over sorted entries test equality of neighbouring keys. *)
Lemma check_path_order_ok p l :
  status_ok (check_path_order p l) = true ↔
  std_adjacent_dup N.eqb (path_id <$> p :: l) = false.
Proof.
  revert p. induction l as [|q l IH]; intros p; [done|].
  cbn [check_path_order fmap list_fmap std_adjacent_dup].
  rewrite orb_false_iff, N.eqb_sym, <-(IH q).
  destruct (path_id p =? path_id q); [|tauto].
  rewrite reject_ok by done. split; [intros [_ ?]; done|by intros []].
Qed.

Lemma ValidateCandidates_ok r limits :
  status_ok (ValidateCandidates r limits) = true ↔ candidates_ok r limits.
Proof.
  unfold ValidateCandidates, candidates_ok. cbv zeta. rewrite and_then_ok, first_error_ok.
  rewrite (Forall_iff _ _ _ (ValidateCandidate_ok limits)). apply and_iff_compat_l.
  rewrite <-(sort_adjacent_dup N.ltb N.eqb N.eqb_eq), <-(fmap_std_sort_key path_id).
  destruct (std_sort _ _); [done|apply check_path_order_ok].
Qed.

Lemma check_entries_ok {A} (path_of : A → N) check duplicate previous l :
  (∀ x, status_ok (duplicate x) = false) →
  status_ok (check_entries path_of check duplicate previous l) = true ↔
  Forall (λ x, status_ok (check x) = true) l ∧
  std_adjacent_dup N.eqb
    (from_option (λ p, p :: (path_of <$> l)) (path_of <$> l) previous) = false.
Proof.
  intros Hdup. revert previous. induction l as [|x l IH]; intros previous.
  { destruct previous; cbn; by rewrite Forall_nil. }
  cbn [check_entries fmap list_fmap]. rewrite and_then_ok, Forall_cons.
  destruct previous as [p|]; cbn [from_option std_adjacent_dup].
  - rewrite orb_false_iff, N.eqb_sym. destruct (p =? path_of x).
    + rewrite Hdup. split; [by intros []|by intros (_ & ? & _)].
    + rewrite IH. tauto.
  - rewrite IH. tauto.
Qed.

Lemma check_capacity_entry_ok e :
  status_ok (check_capacity_entry e) = true ↔
  cap_path e ≠ 0 ∧ cap_residual_bytes e ≤ cap_capacity_bytes e.
Proof. unfold check_capacity_entry. by checks. Qed.

Lemma check_evidence_entry_ok e :
  status_ok (check_evidence_entry e) = true ↔
  ev_path e ≠ 0 ∧ ev_utilization_ppb e ≤ 1000000000.
Proof. unfold check_evidence_entry. by checks. Qed.

Lemma ValidateCapacityAndEvidence_ok r :
  status_ok (ValidateCapacityAndEvidence r) = true ↔ capacity_and_evidence_ok r.
Proof.
  unfold ValidateCapacityAndEvidence, capacity_and_evidence_ok.
  rewrite and_then_ok, !check_entries_ok by done. cbn [from_option].
  rewrite !fmap_std_sort_key, !(sort_adjacent_dup N.ltb N.eqb N.eqb_eq), !std_sort_perm.
  rewrite (Forall_iff _ _ _ check_capacity_entry_ok), (Forall_iff _ _ _ check_evidence_entry_ok).
  tauto.
Qed.

(** ** The policy *)

Lemma Intersects_spec a b :
  StronglySorted (not_after N.ltb) a → StronglySorted (not_after N.ltb) b →
  Intersects a b = true ↔ ∃ x, x ∈ a ∧ x ∈ b.
Proof.
  intros Ha. revert b. induction Ha as [|x a Ha IHa Hx]; intros b Hb.
  { split; [done|]. by intros (? & ?%elem_of_nil & _). }
  induction Hb as [|y b Hb IHb Hy]; [split; [done|by intros (? & _ & ?%elem_of_nil)]|].
  cbn [Intersects]. rewrite Forall_forall in Hx, Hy. unfold not_after in *.
  destruct (N.eqb_spec x y) as [->|Hne].
  { split; [|done]. intros _. exists y. split; left. }
  destruct (N.ltb_spec x y) as [Hlt|Hge].
  - rewrite IHa by (constructor; [done|by apply Forall_forall]).
    split; intros (z & Hza & Hzb); exists z; split; [by right|done| |done].
    apply elem_of_cons in Hza as [->|]; [exfalso|done].
    apply elem_of_cons in Hzb as [|Hzb]; [done|]. specialize (Hy _ Hzb). b2p. lia.
  - change (Intersects (x :: a) b = true ↔ ∃ z, z ∈ x :: a ∧ z ∈ y :: b). rewrite IHb.
    split; intros (z & Hza & Hzb); exists z; split; [done|by right|done|].
    apply elem_of_cons in Hzb as [->|]; [exfalso|done].
    apply elem_of_cons in Hza as [|Hza]; [done|]. specialize (Hx _ Hza). b2p. lia.
Qed.

Lemma SortedUniqueCopy_sorted l : StronglySorted (not_after N.ltb) (SortedUniqueCopy l).1.
Proof.
  apply (strictly_sorted_not_after N.ltb), (std_unique_sorted N.ltb N.eqb N.eqb_eq).
  apply std_sort_sorted, _.
Qed.

Lemma SortedUniqueCopy_elem l x : x ∈ (SortedUniqueCopy l).1 ↔ x ∈ l.
Proof. unfold SortedUniqueCopy. cbn. by rewrite (std_unique_elem N.eqb N.eqb_eq), std_sort_elem. Qed.

Lemma Intersects_copies a b :
  Intersects (SortedUniqueCopy a).1 (SortedUniqueCopy b).1 = false ↔ ∀ x, x ∈ a → x ∉ b.
Proof.
  rewrite <-not_true_iff_false, Intersects_spec by apply SortedUniqueCopy_sorted.
  setoid_rewrite SortedUniqueCopy_elem. naive_solver.
Qed.

Lemma Contains_copy l (required : option N) :
  match required with Some x => Contains (SortedUniqueCopy l).1 x | None => false end = false ↔
  from_option (.∉ l) True required.
Proof.
  destruct required as [x|]; [|done]. cbn [from_option].
  rewrite <-not_true_iff_false. unfold Contains.
  by rewrite (binary_search_elem N.ltb), SortedUniqueCopy_elem by apply SortedUniqueCopy_sorted.
Qed.

Lemma candidate_domains_size paths :
  size (candidate_domains paths) = N.of_nat (base.size (spanned_domains paths)).
Proof.
  unfold size, candidate_domains, sorted_unique_ids, spanned_domains. f_equal.
  set (l := (λ path, attr_failure_domain (path_attributes path)) <$> paths).
  rewrite <-(size_list_to_set (C := gset N)).
  - apply set_size_proper. intros d.
    rewrite elem_of_list_to_set, (std_unique_elem N.eqb N.eqb_eq), std_sort_elem.
    rewrite list_elem_of_filter, valid_true, elem_of_difference, elem_of_list_to_set.
    rewrite elem_of_singleton. tauto.
  - apply (strictly_sorted_NoDup N.ltb), (std_unique_sorted N.ltb N.eqb N.eqb_eq).
    apply std_sort_sorted, _.
Qed.

Lemma CheckedMul_headroom a b : b ≠ 0 → is_Some (CheckedMul a b) ↔ a * b ≤ uint_max 64.
Proof.
  intros Hb. unfold CheckedMul. destruct (N.eqb_spec a 0) as [->|Ha]; [by split; [|eauto]|].
  destruct (N.eqb_spec b 0); [done|]. cbn [orb].
  assert (a ≤ uint_max 64 / b ↔ a * b ≤ uint_max 64) as Hdiv by (apply CheckedMul_div; lia).
  destruct (N.ltb_spec (uint_max 64 / b) a).
  - split; [by intros [? ?]|lia].
  - split; [tauto|by eexists].
Qed.

Lemma tiers_adjacent_dup l :
  std_adjacent_dup PathTier_eqb (std_sort PathTier_ltb l) = false ↔
  NoDup (PathTier_ordinal <$> l).
Proof.
  rewrite <-(sort_adjacent_dup N.ltb N.eqb N.eqb_eq), <-(fmap_std_sort_key PathTier_ordinal).
  fold PathTier_ltb. induction (std_sort PathTier_ltb l) as [|x [|y k] IH]; [done|done|].
  cbn [std_adjacent_dup fmap list_fmap]. rewrite !orb_false_iff. unfold PathTier_eqb at 1.
  by rewrite IH.
Qed.

Lemma short_tiers_test l :
  (1 <? size l) && std_adjacent_dup PathTier_eqb (std_sort PathTier_ltb l) = false ↔
  NoDup (PathTier_ordinal <$> l).
Proof.
  rewrite <-tiers_adjacent_dup, andb_false_iff. split; [|tauto].
  intros [H|H]; [|done]. destruct l as [|x [|y l]]; [done..|].
  rewrite !size_cons in H. b2p. lia.
Qed.

Lemma andb_false_impl b c : b && c = false ↔ (b = true → c = false).
Proof. destruct b; cbn; naive_solver. Qed.

(** The last two checks: the headroom product, then the domain spread. *)
Lemma headroom_and_spread_ok r message1 message2 :
  let multiplier := ServiceHeadroomMultiplier (qos_service_class (rq_qos r)) in
  let minimum := min_distinct_domains (pol_failure_domains (rq_policy r)) in
  status_ok
    match CheckedMul (qos_required_residual_bytes (rq_qos r)) multiplier with
    | None => Reject StatusCode.kArithmeticOverflow message1
    | Some _ =>
        if negb (minimum =? 0) &&
           (size (candidate_domains (set_paths (rq_candidates r))) <? minimum) then
          Reject StatusCode.kContradictoryConstraints message2 else
        Status_Ok
    end = true ↔
  qos_required_residual_bytes (rq_qos r) * multiplier ≤ uint_max 64 ∧
  minimum ≤ N.of_nat (base.size (spanned_domains (set_paths (rq_candidates r)))).
Proof.
  cbv zeta. rewrite <-candidate_domains_size.
  rewrite <-CheckedMul_headroom by (by destruct (qos_service_class (rq_qos r))).
  destruct (CheckedMul _ _) as [product|].
  - rewrite reject_last_ok by done. rewrite andb_false_iff. b2p.
    split; [intros H; split; [eauto|lia]|intros [_ H]; lia].
  - split; [done|]. by intros [[? ?] _].
Qed.

Lemma ValidatePolicy_ok r : status_ok (ValidatePolicy r) = true ↔ policy_ok r.
Proof.
  unfold ValidatePolicy, policy_ok. checks.
  rewrite !SortedUniqueCopy_dup, Intersects_copies, !Contains_copy, headroom_and_spread_ok.
  rewrite (sort_adjacent_dup N.ltb N.eqb N.eqb_eq), short_tiers_test, !andb_false_impl.
  rewrite size_zero_test, !negb_false_iff, negb_true_iff, N.eqb_eq, bool_decide_eq_true, N.leb_gt.
  setoid_rewrite negb_false_iff. done.
Qed.

Lemma ValidateRequest_ok r limits :
  status_ok (ValidateRequest r limits) = true ↔ well_formed r limits.
Proof.
  unfold ValidateRequest. checks.
  rewrite ValidateEnumerations_ok, ValidateGenerations_ok, ValidateBounds_ok,
    ValidateCandidates_ok, ValidateCapacityAndEvidence_ok, ValidatePolicy_ok.
  split; [intros (?&?&?&?&?&?); by constructor|by intros []].
Qed.

(** ** The codes validation reports *)

Definition validation_code (code : StatusCode) : bool :=
  match code with
  | StatusCode.kOk | StatusCode.kInvalidId | StatusCode.kInvalidFieldValue
  | StatusCode.kMissingField | StatusCode.kOversizeRequest | StatusCode.kDuplicatePathId
  | StatusCode.kInconsistentAuthorityGeneration | StatusCode.kContradictoryConstraints
  | StatusCode.kArithmeticOverflow => true
  | _ => false
  end.

Definition has_validation_code (s : Status) : Prop := validation_code (status_code s) = true.

Lemma and_then_code s k :
  has_validation_code s → has_validation_code k → has_validation_code (and_then s k).
Proof. unfold and_then. by case_match. Qed.

Lemma first_error_code {A} (f : A → Status) l :
  (∀ x, has_validation_code (f x)) → has_validation_code (first_error f l).
Proof. intros Hf. induction l as [|x l IH]; [done|]. by apply and_then_code. Qed.

Lemma check_entries_code {A} (path_of : A → N) check duplicate previous l :
  (∀ x, has_validation_code (check x)) → (∀ x, has_validation_code (duplicate x)) →
  has_validation_code (check_entries path_of check duplicate previous l).
Proof.
  intros Hc Hd. revert previous. induction l as [|x l IH]; intros previous; [done|].
  cbn. apply and_then_code; [done|]. by case_match.
Qed.

Lemma check_path_order_code p l : has_validation_code (check_path_order p l).
Proof. revert p. induction l as [|q l IH]; intros p; [done|]. cbn. by repeat case_match. Qed.

(** Every return statement of a chain of checks. *)
Ltac codes :=
  repeat match goal with
  | |- has_validation_code (if ?c then _ else _) => destruct c; [reflexivity|]
  | |- has_validation_code (and_then _ _) => apply and_then_code
  | |- has_validation_code (first_error _ _) => apply first_error_code; intros
  | |- has_validation_code (match ?m with _ => _ end) => destruct m
  | |- has_validation_code (Reject _ _) => reflexivity
  | |- has_validation_code Status_Ok => reflexivity
  end.

Lemma ValidateRequest_code r limits :
  validation_code (status_code (ValidateRequest r limits)) = true.
Proof.
  apply and_then_code; [unfold ValidateEnumerations; cbv zeta; codes|].
  apply and_then_code; [unfold ValidateGenerations, ValidateIncumbent; cbv zeta; codes|].
  apply and_then_code; [unfold ValidateBounds; cbv zeta; codes|].
  apply and_then_code.
  { unfold ValidateCandidates, ValidateCandidate. cbv zeta. codes. apply check_path_order_code. }
  apply and_then_code.
  { unfold ValidateCapacityAndEvidence. apply and_then_code; apply check_entries_code;
      unfold check_capacity_entry, check_evidence_entry, duplicate_capacity, duplicate_evidence;
      intros; codes. }
  unfold ValidatePolicy. cbv zeta. codes.
Qed.
