(* ===== verification/Explain.v ===== *)
(** * Decision outcomes and bounded explanations

    [explain.hpp] and [explain.cpp]: the outcome, exclusion, degradation and
    incumbent-delta enumerations, the records of a decision, their digests and
    the text rendering.  These enumerations are only ever produced by the engine
    or by a decoder that range-checks them, so they have the enumerators of the
    source and no other value. *)

From Stdlib Require Import String.
From S2P Require Import Prelude StdAlgo Checked Status Bytes Hash Model ModelDigest.

(** ** Enumerations *)

Module Outcome.
Inductive Outcome :=
  | kPlaced
  | kPlacedDegraded
  | kDeferred
  | kNoLegalPath
  | kInsufficientCapacity
  | kPolicyRejected
  | kStaleInput
  | kConflictingInput.
End Outcome.
Abbreviation Outcome := Outcome.Outcome.

Definition Outcome_all : list Outcome := [
  Outcome.kPlaced;
  Outcome.kPlacedDegraded;
  Outcome.kDeferred;
  Outcome.kNoLegalPath;
  Outcome.kInsufficientCapacity;
  Outcome.kPolicyRejected;
  Outcome.kStaleInput;
  Outcome.kConflictingInput
].

Definition Outcome_ordinal (v : Outcome) : N :=
  match v with
  | Outcome.kPlaced => 0
  | Outcome.kPlacedDegraded => 1
  | Outcome.kDeferred => 2
  | Outcome.kNoLegalPath => 3
  | Outcome.kInsufficientCapacity => 4
  | Outcome.kPolicyRejected => 5
  | Outcome.kStaleInput => 6
  | Outcome.kConflictingInput => 7
  end.

(** [static_cast<Outcome>] of a range-checked byte. *)
Definition Outcome_cast (raw : N) : option Outcome := nth_error Outcome_all (N.to_nat raw).

Definition OutcomeName (v : Outcome) : string :=
  match v with
  | Outcome.kPlaced => "PLACED"
  | Outcome.kPlacedDegraded => "PLACED_DEGRADED"
  | Outcome.kDeferred => "DEFERRED"
  | Outcome.kNoLegalPath => "NO_LEGAL_PATH"
  | Outcome.kInsufficientCapacity => "INSUFFICIENT_CAPACITY"
  | Outcome.kPolicyRejected => "POLICY_REJECTED"
  | Outcome.kStaleInput => "STALE_INPUT"
  | Outcome.kConflictingInput => "CONFLICTING_INPUT"
  end.

Module ExclusionReason.
Inductive ExclusionReason :=
  | kPathAuthorityStale
  | kTierNotAllowed
  | kForbiddenLabel
  | kMissingRequiredLabel
  | kForbiddenLocality
  | kLocalityMismatch
  | kForbiddenFailureDomain
  | kRequiredFailureDomainMismatch
  | kFailureDomainOccupied
  | kCapacityUnknown
  | kCapacityInsufficient
  | kServiceHeadroomUnmet
  | kServiceReservationUnmet
  | kReservationAffinityUnsatisfied
  | kLatencyBudgetExceeded
  | kEvidenceMissing
  | kEvidenceStale
  | kDuplicatePathEntry.
End ExclusionReason.
Abbreviation ExclusionReason := ExclusionReason.ExclusionReason.

Definition ExclusionReason_all : list ExclusionReason := [
  ExclusionReason.kPathAuthorityStale;
  ExclusionReason.kTierNotAllowed;
  ExclusionReason.kForbiddenLabel;
  ExclusionReason.kMissingRequiredLabel;
  ExclusionReason.kForbiddenLocality;
  ExclusionReason.kLocalityMismatch;
  ExclusionReason.kForbiddenFailureDomain;
  ExclusionReason.kRequiredFailureDomainMismatch;
  ExclusionReason.kFailureDomainOccupied;
  ExclusionReason.kCapacityUnknown;
  ExclusionReason.kCapacityInsufficient;
  ExclusionReason.kServiceHeadroomUnmet;
  ExclusionReason.kServiceReservationUnmet;
  ExclusionReason.kReservationAffinityUnsatisfied;
  ExclusionReason.kLatencyBudgetExceeded;
  ExclusionReason.kEvidenceMissing;
  ExclusionReason.kEvidenceStale;
  ExclusionReason.kDuplicatePathEntry
].

Definition ExclusionReason_ordinal (v : ExclusionReason) : N :=
  match v with
  | ExclusionReason.kPathAuthorityStale => 0
  | ExclusionReason.kTierNotAllowed => 1
  | ExclusionReason.kForbiddenLabel => 2
  | ExclusionReason.kMissingRequiredLabel => 3
  | ExclusionReason.kForbiddenLocality => 4
  | ExclusionReason.kLocalityMismatch => 5
  | ExclusionReason.kForbiddenFailureDomain => 6
  | ExclusionReason.kRequiredFailureDomainMismatch => 7
  | ExclusionReason.kFailureDomainOccupied => 8
  | ExclusionReason.kCapacityUnknown => 9
  | ExclusionReason.kCapacityInsufficient => 10
  | ExclusionReason.kServiceHeadroomUnmet => 11
  | ExclusionReason.kServiceReservationUnmet => 12
  | ExclusionReason.kReservationAffinityUnsatisfied => 13
  | ExclusionReason.kLatencyBudgetExceeded => 14
  | ExclusionReason.kEvidenceMissing => 15
  | ExclusionReason.kEvidenceStale => 16
  | ExclusionReason.kDuplicatePathEntry => 17
  end.

(** [static_cast<ExclusionReason>] of a range-checked byte. *)
Definition ExclusionReason_cast (raw : N) : option ExclusionReason := nth_error ExclusionReason_all (N.to_nat raw).

Definition ExclusionReasonName (v : ExclusionReason) : string :=
  match v with
  | ExclusionReason.kPathAuthorityStale => "path_authority_stale"
  | ExclusionReason.kTierNotAllowed => "tier_not_allowed"
  | ExclusionReason.kForbiddenLabel => "forbidden_label"
  | ExclusionReason.kMissingRequiredLabel => "missing_required_label"
  | ExclusionReason.kForbiddenLocality => "forbidden_locality"
  | ExclusionReason.kLocalityMismatch => "locality_mismatch"
  | ExclusionReason.kForbiddenFailureDomain => "forbidden_failure_domain"
  | ExclusionReason.kRequiredFailureDomainMismatch => "required_failure_domain_mismatch"
  | ExclusionReason.kFailureDomainOccupied => "failure_domain_occupied"
  | ExclusionReason.kCapacityUnknown => "capacity_unknown"
  | ExclusionReason.kCapacityInsufficient => "capacity_insufficient"
  | ExclusionReason.kServiceHeadroomUnmet => "service_headroom_unmet"
  | ExclusionReason.kServiceReservationUnmet => "service_reservation_unmet"
  | ExclusionReason.kReservationAffinityUnsatisfied => "reservation_affinity_unsatisfied"
  | ExclusionReason.kLatencyBudgetExceeded => "latency_budget_exceeded"
  | ExclusionReason.kEvidenceMissing => "evidence_missing"
  | ExclusionReason.kEvidenceStale => "evidence_stale"
  | ExclusionReason.kDuplicatePathEntry => "duplicate_path_entry"
  end.

Definition IsCapacityReason (v : ExclusionReason) : bool :=
  match v with
  | ExclusionReason.kCapacityUnknown
  | ExclusionReason.kCapacityInsufficient => true
  | _ => false
  end.

Definition IsServiceReason (v : ExclusionReason) : bool :=
  match v with
  | ExclusionReason.kServiceHeadroomUnmet
  | ExclusionReason.kServiceReservationUnmet => true
  | _ => false
  end.

Definition IsStalenessReason (v : ExclusionReason) : bool :=
  match v with
  | ExclusionReason.kPathAuthorityStale
  | ExclusionReason.kEvidenceStale => true
  | _ => false
  end.

Definition IsPolicyReason (v : ExclusionReason) : bool :=
  match v with
  | ExclusionReason.kTierNotAllowed
  | ExclusionReason.kForbiddenLabel
  | ExclusionReason.kMissingRequiredLabel
  | ExclusionReason.kForbiddenLocality
  | ExclusionReason.kLocalityMismatch
  | ExclusionReason.kForbiddenFailureDomain
  | ExclusionReason.kRequiredFailureDomainMismatch
  | ExclusionReason.kFailureDomainOccupied
  | ExclusionReason.kReservationAffinityUnsatisfied
  | ExclusionReason.kEvidenceMissing => true
  | _ => false
  end.

Definition IsQosReason (v : ExclusionReason) : bool :=
  match v with
  | ExclusionReason.kLatencyBudgetExceeded => true
  | _ => false
  end.

Module DegradationFlag.
Inductive DegradationFlag :=
  | kIncumbentSuperseded
  | kIncumbentStale
  | kServiceRelaxed
  | kHeadroomBelowComfort
  | kLocalityPreferenceUnmet
  | kReservationPreferenceUnmet
  | kEvidenceUnknown
  | kChurnSuppressed
  | kNoIncumbent.
End DegradationFlag.
Abbreviation DegradationFlag := DegradationFlag.DegradationFlag.

Definition DegradationFlag_all : list DegradationFlag := [
  DegradationFlag.kIncumbentSuperseded;
  DegradationFlag.kIncumbentStale;
  DegradationFlag.kServiceRelaxed;
  DegradationFlag.kHeadroomBelowComfort;
  DegradationFlag.kLocalityPreferenceUnmet;
  DegradationFlag.kReservationPreferenceUnmet;
  DegradationFlag.kEvidenceUnknown;
  DegradationFlag.kChurnSuppressed;
  DegradationFlag.kNoIncumbent
].

Definition DegradationFlag_ordinal (v : DegradationFlag) : N :=
  match v with
  | DegradationFlag.kIncumbentSuperseded => 0
  | DegradationFlag.kIncumbentStale => 1
  | DegradationFlag.kServiceRelaxed => 2
  | DegradationFlag.kHeadroomBelowComfort => 3
  | DegradationFlag.kLocalityPreferenceUnmet => 4
  | DegradationFlag.kReservationPreferenceUnmet => 5
  | DegradationFlag.kEvidenceUnknown => 6
  | DegradationFlag.kChurnSuppressed => 7
  | DegradationFlag.kNoIncumbent => 8
  end.

(** [static_cast<DegradationFlag>] of a range-checked byte. *)
Definition DegradationFlag_cast (raw : N) : option DegradationFlag := nth_error DegradationFlag_all (N.to_nat raw).

Definition DegradationFlagName (v : DegradationFlag) : string :=
  match v with
  | DegradationFlag.kIncumbentSuperseded => "incumbent_superseded"
  | DegradationFlag.kIncumbentStale => "incumbent_stale"
  | DegradationFlag.kServiceRelaxed => "service_relaxed"
  | DegradationFlag.kHeadroomBelowComfort => "headroom_below_comfort"
  | DegradationFlag.kLocalityPreferenceUnmet => "locality_preference_unmet"
  | DegradationFlag.kReservationPreferenceUnmet => "reservation_preference_unmet"
  | DegradationFlag.kEvidenceUnknown => "evidence_unknown"
  | DegradationFlag.kChurnSuppressed => "churn_suppressed"
  | DegradationFlag.kNoIncumbent => "no_incumbent"
  end.

Definition IsDegradingFlag (v : DegradationFlag) : bool :=
  match v with
  | DegradationFlag.kServiceRelaxed
  | DegradationFlag.kHeadroomBelowComfort
  | DegradationFlag.kLocalityPreferenceUnmet
  | DegradationFlag.kReservationPreferenceUnmet
  | DegradationFlag.kEvidenceUnknown => true
  | DegradationFlag.kIncumbentSuperseded
  | DegradationFlag.kIncumbentStale
  | DegradationFlag.kChurnSuppressed
  | DegradationFlag.kNoIncumbent => false
  end.

Module IncumbentDelta.
Inductive IncumbentDelta :=
  | kNoIncumbent
  | kKept
  | kMoved
  | kReplacedStale.
End IncumbentDelta.
Abbreviation IncumbentDelta := IncumbentDelta.IncumbentDelta.

Definition IncumbentDelta_all : list IncumbentDelta := [
  IncumbentDelta.kNoIncumbent;
  IncumbentDelta.kKept;
  IncumbentDelta.kMoved;
  IncumbentDelta.kReplacedStale
].

Definition IncumbentDelta_ordinal (v : IncumbentDelta) : N :=
  match v with
  | IncumbentDelta.kNoIncumbent => 0
  | IncumbentDelta.kKept => 1
  | IncumbentDelta.kMoved => 2
  | IncumbentDelta.kReplacedStale => 3
  end.

(** [static_cast<IncumbentDelta>] of a range-checked byte. *)
Definition IncumbentDelta_cast (raw : N) : option IncumbentDelta := nth_error IncumbentDelta_all (N.to_nat raw).

Definition IncumbentDeltaName (v : IncumbentDelta) : string :=
  match v with
  | IncumbentDelta.kNoIncumbent => "no_incumbent"
  | IncumbentDelta.kKept => "kept"
  | IncumbentDelta.kMoved => "moved"
  | IncumbentDelta.kReplacedStale => "replaced_stale"
  end.

#[export] Instance Outcome_eq_dec : EqDecision Outcome.
Proof. solve_decision. Defined.

Lemma Outcome_cast_ordinal v : Outcome_cast (Outcome_ordinal v) = Some v.
Proof. by destruct v. Qed.

#[export] Instance Outcome_ordinal_inj : Inj (=) (=) Outcome_ordinal.
Proof. intros a b H. apply (f_equal Outcome_cast) in H. rewrite !Outcome_cast_ordinal in H. by injection H. Qed.

#[export] Instance ExclusionReason_eq_dec : EqDecision ExclusionReason.
Proof. solve_decision. Defined.

Lemma ExclusionReason_cast_ordinal v : ExclusionReason_cast (ExclusionReason_ordinal v) = Some v.
Proof. by destruct v. Qed.

#[export] Instance ExclusionReason_ordinal_inj : Inj (=) (=) ExclusionReason_ordinal.
Proof. intros a b H. apply (f_equal ExclusionReason_cast) in H. rewrite !ExclusionReason_cast_ordinal in H. by injection H. Qed.

#[export] Instance DegradationFlag_eq_dec : EqDecision DegradationFlag.
Proof. solve_decision. Defined.

Lemma DegradationFlag_cast_ordinal v : DegradationFlag_cast (DegradationFlag_ordinal v) = Some v.
Proof. by destruct v. Qed.

#[export] Instance DegradationFlag_ordinal_inj : Inj (=) (=) DegradationFlag_ordinal.
Proof. intros a b H. apply (f_equal DegradationFlag_cast) in H. rewrite !DegradationFlag_cast_ordinal in H. by injection H. Qed.

#[export] Instance IncumbentDelta_eq_dec : EqDecision IncumbentDelta.
Proof. solve_decision. Defined.

Lemma IncumbentDelta_cast_ordinal v : IncumbentDelta_cast (IncumbentDelta_ordinal v) = Some v.
Proof. by destruct v. Qed.

#[export] Instance IncumbentDelta_ordinal_inj : Inj (=) (=) IncumbentDelta_ordinal.
Proof. intros a b H. apply (f_equal IncumbentDelta_cast) in H. rewrite !IncumbentDelta_cast_ordinal in H. by injection H. Qed.

#[export] Program Instance ExclusionReason_countable : Countable ExclusionReason :=
  inj_countable ExclusionReason_ordinal ExclusionReason_cast _.
Next Obligation. apply ExclusionReason_cast_ordinal. Qed.

Lemma ExclusionReason_all_elem v : v ∈ ExclusionReason_all.
Proof. apply list_elem_of_In. destruct v; cbn; tauto. Qed.

(** ** The records of a decision *)

Record ExclusionSummary := mkSummary {
  sum_reason : ExclusionReason;
  sum_count : N;
  sum_sample : list N;
}.

Record ObjectiveValue := mkValue {
  val_kind : ObjectiveKind;
  val_direction : Direction;
  val_known : bool;
  val_value : N;
}.

Record RankedCandidate := mkRanked {
  ranked_path : N;
  ranked_authority : N;
  ranked_rank : N;
  ranked_is_incumbent : bool;
  ranked_keys : list ObjectiveValue;
}.

Record BindingConstraint := mkBinding {
  binding_kind : ExclusionReason;
  binding_path : N;
  binding_required : N;
  binding_available : N;
  binding_label : string;
}.

Record Explanation := mkExplanation {
  ex_truncated : bool;
  ex_candidate_count : N;
  ex_legal_candidate_count : N;
  ex_excluded_candidate_count : N;
  ex_unknown_evidence_count : N;
  ex_distinct_failure_domains : N;
  ex_ranked : list RankedCandidate;
  ex_exclusions : list ExclusionSummary;
  ex_degradations : list DegradationFlag;
  ex_binding : list BindingConstraint;
  ex_notes : list string;
}.

Definition Explanation_init : Explanation := mkExplanation false 0 0 0 0 0 [] [] [] [] [].

Record PlacementIntent := mkIntent {
  int_flow : N;
  int_flow_generation : N;
  int_path : N;
  int_path_authority : N;
  int_candidate_set : N;
  int_candidate_set_generation : N;
  int_capacity : N;
  int_capacity_generation : N;
  int_policy : N;
  int_policy_generation : N;
  int_qos : N;
  int_qos_generation : N;
  int_evidence : N;
  int_evidence_generation : N;
  int_fabric_epoch : N;
  int_reservation : ReservationRef;
  int_attempt : N;
  int_revalidate_after_nanos : N;
  int_digest : Digest;
}.

(** [operator==] on intents; the digest is not compared. *)
Definition PlacementIntent_eqb (a b : PlacementIntent) : bool :=
  (int_flow a =? int_flow b) && (int_flow_generation a =? int_flow_generation b) &&
  (int_path a =? int_path b) && (int_path_authority a =? int_path_authority b) &&
  (int_candidate_set a =? int_candidate_set b) &&
  (int_candidate_set_generation a =? int_candidate_set_generation b) &&
  (int_capacity a =? int_capacity b) &&
  (int_capacity_generation a =? int_capacity_generation b) &&
  (int_policy a =? int_policy b) && (int_policy_generation a =? int_policy_generation b) &&
  (int_qos a =? int_qos b) && (int_qos_generation a =? int_qos_generation b) &&
  (int_evidence a =? int_evidence b) &&
  (int_evidence_generation a =? int_evidence_generation b) &&
  (int_fabric_epoch a =? int_fabric_epoch b) &&
  ReservationRef_eqb (int_reservation a) (int_reservation b) &&
  (int_attempt a =? int_attempt b) &&
  (int_revalidate_after_nanos a =? int_revalidate_after_nanos b).

Record PlacementDecision := mkDecision {
  dec_outcome : Outcome;
  dec_code : StatusCode;
  dec_intent : option PlacementIntent;
  dec_authority : AuthorityVector;
  dec_delta : IncumbentDelta;
  dec_explanation : Explanation;
  dec_digest : Digest;
  dec_validation : Status;
}.

Definition PlacementDecision_init : PlacementDecision :=
  mkDecision Outcome.kNoLegalPath StatusCode.kOk None AuthorityVector_zero
    IncumbentDelta.kNoIncumbent Explanation_init (mkDigest 0 0) Status_Ok.

Definition placed (d : PlacementDecision) : bool :=
  match dec_outcome d with
  | Outcome.kPlaced | Outcome.kPlacedDegraded => true
  | _ => false
  end.

(** ** Digests *)

Definition IntentDigest (intent : PlacementIntent) : Digest :=
  OfCanonical (hasher_init
    |> AddTag "intent"
    |> AddU64 (int_flow intent)
    |> AddU64 (int_flow_generation intent)
    |> AddU64 (int_path intent)
    |> AddU64 (int_path_authority intent)
    |> AddU64 (int_candidate_set intent)
    |> AddU64 (int_candidate_set_generation intent)
    |> AddU64 (int_capacity intent)
    |> AddU64 (int_capacity_generation intent)
    |> AddU64 (int_policy intent)
    |> AddU64 (int_policy_generation intent)
    |> AddU64 (int_qos intent)
    |> AddU64 (int_qos_generation intent)
    |> AddU64 (int_evidence intent)
    |> AddU64 (int_evidence_generation intent)
    |> AddU64 (int_fabric_epoch intent)
    |> AddU64 (ref_id (int_reservation intent))
    |> AddU64 (ref_generation (int_reservation intent))
    |> AddU64 (int_attempt intent)
    |> AddU64 (int_revalidate_after_nanos intent)).

Definition HashObjectiveValue (v : ObjectiveValue) (h : CanonicalHasher) : CanonicalHasher :=
  h |> AddU8 (ObjectiveKind_ordinal (val_kind v))
    |> AddU8 (Direction_ordinal (val_direction v))
    |> AddBool (val_known v)
    |> AddU64 (val_value v).

Definition hash_ranked (r : RankedCandidate) (h : CanonicalHasher) : CanonicalHasher :=
  h |> AddU32 (ranked_rank r)
    |> AddU64 (ranked_path r)
    |> AddU64 (ranked_authority r)
    |> AddBool (ranked_is_incumbent r)
    |> AddU32 (wrap 32 (size (ranked_keys r)))
    |> hash_each HashObjectiveValue (ranked_keys r).

Definition hash_summary (s : ExclusionSummary) (h : CanonicalHasher) : CanonicalHasher :=
  h |> AddU8 (ExclusionReason_ordinal (sum_reason s))
    |> AddU64 (sum_count s)
    |> AddU32 (wrap 32 (size (sum_sample s)))
    |> hash_each AddU64 (sum_sample s).

Definition hash_binding (b : BindingConstraint) (h : CanonicalHasher) : CanonicalHasher :=
  h |> AddU8 (ExclusionReason_ordinal (binding_kind b))
    |> AddU64 (binding_path b)
    |> AddU64 (binding_required b)
    |> AddU64 (binding_available b)
    |> AddString (binding_label b).

Definition DecisionDigest (decision : PlacementDecision) : Digest :=
  let explanation := dec_explanation decision in
  OfCanonical (hasher_init
    |> AddTag "decision"
    |> AddU8 (Outcome_ordinal (dec_outcome decision))
    |> AddU16 (code_value (dec_code decision))
    |> (λ h, match dec_intent decision with
             | Some intent => h |> AddBool true |> add_digest (IntentDigest intent)
             | None => AddBool false h
             end)
    |> add_digest (AuthorityVectorDigest (dec_authority decision))
    |> AddU8 (IncumbentDelta_ordinal (dec_delta decision))
    |> AddTag "explanation"
    |> AddU64 (ex_candidate_count explanation)
    |> AddU64 (ex_legal_candidate_count explanation)
    |> AddU64 (ex_excluded_candidate_count explanation)
    |> AddU64 (ex_unknown_evidence_count explanation)
    |> AddU64 (ex_distinct_failure_domains explanation)
    |> AddBool (ex_truncated explanation)
    |> AddU32 (wrap 32 (size (ex_ranked explanation)))
    |> hash_each hash_ranked (ex_ranked explanation)
    |> AddU32 (wrap 32 (size (ex_exclusions explanation)))
    |> hash_each hash_summary (ex_exclusions explanation)
    |> AddU32 (wrap 32 (size (ex_degradations explanation)))
    |> hash_each (λ flag, AddU8 (DegradationFlag_ordinal flag)) (ex_degradations explanation)
    |> AddU32 (wrap 32 (size (ex_binding explanation)))
    |> hash_each hash_binding (ex_binding explanation)
    |> AddU32 (wrap 32 (size (ex_notes explanation)))
    |> hash_each AddString (ex_notes explanation)
    |> AddU16 (code_value (status_code (dec_validation decision)))).

(** ** Rendering *)

Definition newline : string := String (Ascii.ascii_of_nat 10) "".

(** [v.empty()] *)
Definition list_empty {A} (l : list A) : bool := match l with [] => true | _ => false end.

Fixpoint comma_separated (ids : list N) : string :=
  match ids with
  | [] => ""
  | [id] => to_string id
  | id :: ids' => (to_string id ++ "," ++ comma_separated ids')%string
  end.

Definition concat_map {A} (f : A → string) (l : list A) : string :=
  fold_right (λ x out, (f x ++ out)%string) ""%string l.

Definition render_key (key : ObjectiveValue) : string :=
  (" " ++ ObjectiveKindName (val_kind key) ++ "=" ++
   (if val_known key then to_string (val_value key) else "UNKNOWN"))%string.

Definition render_ranked (r : RankedCandidate) : string :=
  ("  [" ++ to_string (ranked_rank r) ++ "] path=" ++ to_string (ranked_path r) ++
   " auth=" ++ to_string (ranked_authority r) ++
   (if ranked_is_incumbent r then " incumbent" else "") ++
   concat_map render_key (ranked_keys r) ++ newline)%string.

Definition render_summary (s : ExclusionSummary) : string :=
  ("  " ++ ExclusionReasonName (sum_reason s) ++ "=" ++ to_string (sum_count s) ++
   (if list_empty (sum_sample s) then "" else " sample=" ++ comma_separated (sum_sample s)) ++
   newline)%string.

Definition render_binding (b : BindingConstraint) : string :=
  ("  " ++ ExclusionReasonName (binding_kind b) ++ " path=" ++ to_string (binding_path b) ++
   " required=" ++ to_string (binding_required b) ++
   " available=" ++ to_string (binding_available b) ++
   (if String.eqb (binding_label b) "" then "" else " (" ++ binding_label b ++ ")") ++
   newline)%string.

Definition render_intent (i : PlacementIntent) : string :=
  ("intent: flow=" ++ to_string (int_flow i) ++ "/" ++ to_string (int_flow_generation i) ++
   " path=" ++ to_string (int_path i) ++ "/" ++ to_string (int_path_authority i) ++
   " reservation=" ++ ReservationRef_ToString (int_reservation i) ++
   " revalidate_after_nanos=" ++ to_string (int_revalidate_after_nanos i) ++ newline ++
   "intent_digest: " ++ Digest_ToHex (int_digest i) ++ newline)%string.

(** A titled block that is omitted when the list is empty. *)
Definition render_section {A} (title : string) (f : A → string) (l : list A) : string :=
  (if list_empty l then "" else title ++ newline ++ concat_map f l)%string.

Definition RenderDecision (decision : PlacementDecision) : string :=
  let e := dec_explanation decision in
  ("outcome=" ++ OutcomeName (dec_outcome decision) ++
   " code=" ++ StatusCodeName (dec_code decision) ++
   " delta=" ++ IncumbentDeltaName (dec_delta decision) ++ newline ++
   "authority: " ++ AuthorityVector_ToString (dec_authority decision) ++ newline ++
   "digest: " ++ Digest_ToHex (dec_digest decision) ++ newline ++
   (if status_ok (dec_validation decision) then ""
    else "validation: " ++ Status_ToString (dec_validation decision) ++ newline) ++
   from_option render_intent ""%string (dec_intent decision) ++
   "candidates: total=" ++ to_string (ex_candidate_count e) ++
   " legal=" ++ to_string (ex_legal_candidate_count e) ++
   " excluded=" ++ to_string (ex_excluded_candidate_count e) ++
   " unknown_evidence=" ++ to_string (ex_unknown_evidence_count e) ++
   " distinct_failure_domains=" ++ to_string (ex_distinct_failure_domains e) ++ newline ++
   render_section "ranking:" render_ranked (ex_ranked e) ++
   render_section "exclusions:" render_summary (ex_exclusions e) ++
   (if list_empty (ex_degradations e) then ""
    else "degradations:" ++
         concat_map (λ flag, " " ++ DegradationFlagName flag)%string (ex_degradations e) ++
         newline) ++
   render_section "binding:" render_binding (ex_binding e) ++
   (if ex_truncated e then "explanation_truncated: true" ++ newline else "") ++
   concat_map (λ note, "note: " ++ note ++ newline)%string (ex_notes e))%string.
