(* ===== verification/Records.v ===== *)
(** * The durable records

    The data of [store.hpp] that the codec serializes: an attempt's phase, the
    attempt and placement records of the journal, and the report of a recovery. *)

From Stdlib Require Import String.
From S2P Require Import Prelude StdAlgo Checked Status Hash Model Explain.

Module AttemptPhase.
Inductive AttemptPhase :=
  | kStarted
  | kCommitted
  | kRejected
  | kCancelled
  | kFenced.
End AttemptPhase.
Abbreviation AttemptPhase := AttemptPhase.AttemptPhase.

Definition AttemptPhase_all : list AttemptPhase := [
  AttemptPhase.kStarted;
  AttemptPhase.kCommitted;
  AttemptPhase.kRejected;
  AttemptPhase.kCancelled;
  AttemptPhase.kFenced
].

Definition AttemptPhase_ordinal (v : AttemptPhase) : N :=
  match v with
  | AttemptPhase.kStarted => 0
  | AttemptPhase.kCommitted => 1
  | AttemptPhase.kRejected => 2
  | AttemptPhase.kCancelled => 3
  | AttemptPhase.kFenced => 4
  end.

Definition AttemptPhase_cast (raw : N) : option AttemptPhase :=
  nth_error AttemptPhase_all (N.to_nat raw).

Definition AttemptPhaseName (v : AttemptPhase) : string :=
  match v with
  | AttemptPhase.kStarted => "STARTED"
  | AttemptPhase.kCommitted => "COMMITTED"
  | AttemptPhase.kRejected => "REJECTED"
  | AttemptPhase.kCancelled => "CANCELLED"
  | AttemptPhase.kFenced => "FENCED"
  end.

Definition ParseAttemptPhase (v : string) : option AttemptPhase :=
  if String.eqb v "STARTED" then Some AttemptPhase.kStarted
  else if String.eqb v "COMMITTED" then Some AttemptPhase.kCommitted
  else if String.eqb v "REJECTED" then Some AttemptPhase.kRejected
  else if String.eqb v "CANCELLED" then Some AttemptPhase.kCancelled
  else if String.eqb v "FENCED" then Some AttemptPhase.kFenced
  else None.

#[export] Instance AttemptPhase_eq_dec : EqDecision AttemptPhase.
Proof. solve_decision. Defined.

Lemma AttemptPhase_cast_ordinal v : AttemptPhase_cast (AttemptPhase_ordinal v) = Some v.
Proof. by destruct v. Qed.

Lemma ParseAttemptPhase_name s v : ParseAttemptPhase s = Some v ↔ AttemptPhaseName v = s.
Proof.
  split; [|intros <-; by destruct v]. unfold ParseAttemptPhase.
  repeat (destruct (String.eqb _ _) eqn:E; [b2p; subst; by intros [= <-]|clear E]). done.
Qed.

Record AttemptRecord := mkAttempt {
  at_attempt : N;
  at_incarnation : N;
  at_epoch : N;
  at_flow : N;
  at_phase : AttemptPhase;
  at_code : StatusCode;
  at_request_digest : Digest;
  at_sequence : N;
  at_observed_unix_nanos : Z;
}.

Record PlacementRecord := mkPlacement {
  pl_id : N;
  pl_generation : N;
  pl_intent : PlacementIntent;
  pl_delta : IncumbentDelta;
  pl_decision_digest : Digest;
  pl_committed_by : N;
  pl_commit_epoch : N;
  pl_sequence : N;
  pl_supersedes_generation : N;
  pl_commit_unix_nanos : Z;
  pl_requires_revalidation : bool;
}.

Record RecoveryReport := mkReport {
  rep_liveness_restored : bool;
  rep_truncated_tail : bool;
  rep_snapshot_loaded : bool;
  rep_bytes_discarded : N;
  rep_records_valid : N;
  rep_placements_total : N;
  rep_attempts_total : N;
  rep_committed_attempts : N;
  rep_rejected_attempts : N;
  rep_cancelled_attempts : N;
  rep_fenced_attempts : N;
  rep_unfinished_attempts : N;
  rep_superseded_placements : N;
  rep_placements_requiring_revalidation : N;
  rep_retired_attempts : N;
  rep_max_sequence : N;
  rep_last_epoch : N;
  rep_last_incarnation : N;
  rep_latest_by_flow : list PlacementRecord;
  rep_unfinished : list AttemptRecord;
  rep_detail : string;
}.
