(* ===== verification/Codec.v ===== *)
(** * The binary codec

    [codec.cpp]: every [Write*]/[Encode*] function appends to a [ByteWriter],
    every [Read*] function is a [Reader] that fails without saying why, and
    every [Decode*] function is a [Decoder], which fails with the [Status] the
    code returns at that point. *)

From Stdlib Require Import String.
From S2P Require Import Prelude StdAlgo Checked Status Bytes Hash Model Explain Records.

Definition kMaxNotesOnDecode : N := 64.
Definition kMaxMessageLength : N := 1024.

(** ** Decoders *)

Definition Decoder (A : Type) := ByteReader → Result (A * ByteReader).

#[export] Instance Decoder_ret : MRet Decoder := λ A a r, Value (a, r).
#[export] Instance Decoder_bind : MBind Decoder := λ A B k m r,
  match m r with
  | Value (a, r') => k a r'
  | Error s => Error s
  end.

(** [if (!read(r)) return Status(code, message);] *)
Definition expect {A} (code : StatusCode) (message : string) (read : Reader A) : Decoder A := λ r,
  match read r with
  | Some p => Value p
  | None => Error (mkStatus code message)
  end.

(** [if (!ok) return Status(code, message);] *)
Definition ensure (ok : bool) (code : StatusCode) (message : string) : Decoder unit := λ r,
  if ok then Value (tt, r) else Error (mkStatus code message).

(** [if (!r.AtEnd()) return Status(code, message);] *)
Definition expect_end (code : StatusCode) (message : string) : Decoder unit := λ r,
  if AtEnd r then Value (tt, r) else Error (mkStatus code message).

Fixpoint decode_each {A} (n : nat) (decode : Decoder A) : Decoder (list A) :=
  match n with
  | O => mret []
  | S n' => x ← decode; l ← decode_each n' decode; mret (x :: l)
  end.

Definition malformed {A} (message : string) (read : Reader A) : Decoder A :=
  expect StatusCode.kWireMalformed message read.

Definition corrupt {A} (message : string) (read : Reader A) : Decoder A :=
  expect StatusCode.kStoreCorrupt message read.

(** ** Small pieces *)

Definition ReadEnumU8 (max_value : N) : Reader N :=
  raw ← rU8;
  _ ← rd_require (negb (max_value <? raw));
  mret raw.

(** [w.U8(b ? 1u : 0u)]. *)
Definition wFlag (b : bool) (w : ByteWriter) : ByteWriter := wU8 (if b then 1 else 0) w.

Definition ReadBool : Reader bool :=
  raw ← rU8;
  _ ← rd_require (negb (1 <? raw));
  mret (negb (raw =? 0)).

(** [w.U32(l.size())], then the loop over the elements. *)
Definition write_counted {A} (write : A → ByteWriter → ByteWriter) (l : list A)
    (w : ByteWriter) : ByteWriter :=
  w |> wU32 (wrap 32 (size l)) |> write_each write l.

(** The count, the test against its limit, then the loop. *)
Definition read_counted {A} (max_count : N) (read : Reader A) : Reader (list A) :=
  count ← rU32;
  _ ← rd_require (negb (max_count <? count));
  read_each (N.to_nat count) read.

Definition WriteReservation (ref : ReservationRef) (w : ByteWriter) : ByteWriter :=
  w |> wU64 (ref_id ref) |> wU64 (ref_generation ref).

Definition ReadReservation : Reader ReservationRef :=
  id ← rU64;
  generation ← rU64;
  mret (mkRef id generation).

(** [WriteIdList] and [WriteIdVector] differ in the id type only. *)
Definition WriteIdVector (ids : list N) (w : ByteWriter) : ByteWriter := write_counted wU64 ids w.
Definition ReadIdVector (max_count : N) : Reader (list N) := read_counted max_count rU64.

Definition WriteOptionalId (value : N) (w : ByteWriter) : ByteWriter :=
  let w := wFlag (negb (value =? 0)) w in
  if negb (value =? 0) then wU64 value w else w.

Definition ReadOptionalId : Reader N :=
  present ← rU8;
  _ ← rd_require (negb (1 <? present));
  if present =? 0 then mret 0 else rU64.

(** [v ? v->value() : 0] and [value != 0 ? std::optional(value) : std::nullopt]. *)
Definition optional_value (v : option N) : N := default 0 v.
Definition value_optional (value : N) : option N := if negb (value =? 0) then Some value else None.

Definition WriteExpected (v : AuthorityExpectation) (w : ByteWriter) : ByteWriter :=
  w |> wU64 (exp_path_authority v)
    |> wU64 (exp_candidate_set v)
    |> wU64 (exp_capacity v)
    |> wU64 (exp_policy v)
    |> wU64 (exp_qos v)
    |> wU64 (exp_fabric_epoch v)
    |> wU64 (exp_evidence v).

Definition ReadExpected : Reader AuthorityExpectation :=
  path_authority ← rU64;
  candidate_set ← rU64;
  capacity ← rU64;
  policy ← rU64;
  qos ← rU64;
  fabric_epoch ← rU64;
  evidence ← rU64;
  mret (mkExpectation path_authority candidate_set capacity policy qos fabric_epoch evidence).

Definition WriteProvenance (v : Provenance) (w : ByteWriter) : ByteWriter :=
  w |> wString (prov_producer v)
    |> wString (prov_producer_version v)
    |> wU64 (prov_source_sequence v)
    |> wI64 (prov_observer_unix_nanos v).

Definition ReadProvenance : Reader Provenance :=
  producer ← rString kMaxProvenanceFieldLength;
  producer_version ← rString kMaxProvenanceFieldLength;
  source_sequence ← rU64;
  observer_unix_nanos ← rI64;
  mret (mkProvenance producer producer_version source_sequence observer_unix_nanos).

Definition WriteAttributes (v : PathAttributes) (w : ByteWriter) : ByteWriter :=
  w |> wU8 (PathTier_ordinal (attr_tier v))
    |> wU64 (attr_locality v)
    |> wU8 (LocalityScope_ordinal (attr_locality_scope v))
    |> wU64 (attr_failure_domain v)
    |> wU64 (attr_cost_micro v)
    |> wU64 (attr_latency_nanos v)
    |> wU16 (attr_hop_count v)
    |> WriteIdVector (attr_labels v)
    |> write_counted WriteReservation (attr_reservations v).

(** ** The policy *)

Definition WriteObjective (objective : Objective) (w : ByteWriter) : ByteWriter :=
  w |> wU8 (ObjectiveKind_ordinal (obj_kind objective))
    |> wU8 (Direction_ordinal (obj_direction objective)).

Definition ReadObjective : Reader Objective :=
  kind ← ReadEnumU8 8;
  direction ← ReadEnumU8 1;
  mret (mkObjective (ObjectiveKind_cast kind) (Direction_cast direction)).

Definition WriteTier (tier : PathTier) (w : ByteWriter) : ByteWriter := wU8 (PathTier_ordinal tier) w.

Definition ReadTier : Reader PathTier :=
  tier ← ReadEnumU8 2;
  mret (PathTier_cast tier).

Definition WriteLocality (v : LocalityConstraint) (w : ByteWriter) : ByteWriter :=
  w |> WriteOptionalId (optional_value (required_locality v))
    |> WriteOptionalId (optional_value (preferred_locality v))
    |> WriteIdVector (forbidden_localities v).

Definition ReadLocality (max_ids : N) : Reader LocalityConstraint :=
  required ← ReadOptionalId;
  preferred ← ReadOptionalId;
  forbidden ← ReadIdVector max_ids;
  mret (mkLocality (value_optional required) (value_optional preferred) forbidden).

Definition WriteFailureDomains (v : FailureDomainConstraint) (w : ByteWriter) : ByteWriter :=
  w |> WriteOptionalId (optional_value (required_domain v))
    |> WriteIdVector (forbidden_domains v)
    |> wFlag (avoid_occupied_domains v)
    |> wU32 (min_distinct_domains v).

Definition ReadFailureDomains (max_ids : N) : Reader FailureDomainConstraint :=
  required ← ReadOptionalId;
  forbidden ← ReadIdVector max_ids;
  avoid_occupied ← ReadBool;
  min_distinct ← rU32;
  mret (mkFailureDomains (value_optional required) forbidden avoid_occupied min_distinct).

Definition WriteAffinity (v : ReservationAffinity) (w : ByteWriter) : ByteWriter :=
  w |> wFlag (affinity_required v) |> write_counted WriteReservation (affinity_refs v).

Definition ReadAffinity (limits : Limits) : Reader ReservationAffinity :=
  required ← ReadBool;
  refs ← read_counted (max_affinity_refs limits) ReadReservation;
  mret (mkAffinity required refs).

Definition WriteAdmission (v : AdmissionGate) (w : ByteWriter) : ByteWriter :=
  w |> wU64 (min_residual_headroom_bytes v) |> wU8 (GateAction_ordinal (on_below v)).

Definition ReadAdmission : Reader AdmissionGate :=
  min_residual ← rU64;
  gate ← ReadEnumU8 1;
  mret (mkAdmission min_residual (GateAction_cast gate)).

Definition WriteService (v : ServicePolicy) (w : ByteWriter) : ByteWriter :=
  w |> wFlag (allow_degraded v) |> wU8 (max_relaxation_steps v).

Definition ReadService : Reader ServicePolicy :=
  degraded ← ReadBool;
  steps ← rU8;
  _ ← rd_require (negb (2 <? steps));
  mret (mkService degraded steps).

Definition WriteChurn (v : ChurnPolicy) (w : ByteWriter) : ByteWriter :=
  w |> wU8 (ChurnAction_ordinal (on_move v))
    |> wFlag (prefer_incumbent v)
    |> wU64 (move_improvement_threshold v)
    |> wU32 (threshold_objective_index v).

Definition ReadChurn : Reader ChurnPolicy :=
  churn ← ReadEnumU8 1;
  prefer ← ReadBool;
  threshold ← rU64;
  index ← rU32;
  mret (mkChurn (ChurnAction_cast churn) prefer threshold index).

Definition WriteEvidencePolicy (v : EvidencePolicy) (w : ByteWriter) : ByteWriter :=
  w |> wU8 (EvidencePolicyMode_ordinal (on_missing v))
    |> wU8 (EvidencePolicyMode_ordinal (on_stale v)).

Definition ReadEvidencePolicy : Reader EvidencePolicy :=
  missing ← ReadEnumU8 1;
  stale ← ReadEnumU8 1;
  mret (mkEvidencePolicy (EvidencePolicyMode_cast missing) (EvidencePolicyMode_cast stale)).

Definition WritePolicy (v : PlacementPolicy) (w : ByteWriter) : ByteWriter :=
  w |> wU64 (pol_id v)
    |> wU64 (pol_generation v)
    |> write_counted WriteObjective (pol_objectives v)
    |> write_counted WriteTier (pol_allowed_tiers v)
    |> WriteIdVector (pol_required_labels v)
    |> WriteIdVector (pol_forbidden_labels v)
    |> WriteLocality (pol_locality v)
    |> WriteFailureDomains (pol_failure_domains v)
    |> WriteAffinity (pol_reservation_affinity v)
    |> WriteAdmission (pol_admission v)
    |> WriteService (pol_service v)
    |> WriteChurn (pol_churn v)
    |> WriteEvidencePolicy (pol_evidence v)
    |> wU64 (pol_revalidate_after_nanos v).

(** [std::min<std::uint64_t>(limit, 0xFFFFFFFF)]. *)
Definition clamp32 (limit : N) : N := N.min limit 0xFFFFFFFF.

(** The objective count is refused when zero. *)
Definition ReadObjectives (limits : Limits) : Reader (list Objective) :=
  count ← rU32;
  _ ← rd_require (negb ((count =? 0) || (max_objectives limits <? count)));
  read_each (N.to_nat count) ReadObjective.

Definition ReadPolicy (limits : Limits) : Reader PlacementPolicy :=
  id ← rU64;
  generation ← rU64;
  objectives ← ReadObjectives limits;
  tiers ← read_counted 3 ReadTier;
  let max_ids := clamp32 (max_policy_id_lists limits) in
  required_labels ← ReadIdVector max_ids;
  forbidden_labels ← ReadIdVector max_ids;
  locality ← ReadLocality max_ids;
  domains ← ReadFailureDomains max_ids;
  affinity ← ReadAffinity limits;
  admission ← ReadAdmission;
  service ← ReadService;
  churn ← ReadChurn;
  evidence ← ReadEvidencePolicy;
  revalidate ← rU64;
  mret (mkPolicy id generation objectives tiers required_labels forbidden_labels locality
          domains affinity admission service churn evidence revalidate).

(** ** Incumbent, intent, authority *)

Definition WriteIncumbent (v : IncumbentPlacement) (w : ByteWriter) : ByteWriter :=
  w |> wU64 (inc_id v)
    |> wU64 (inc_generation v)
    |> wU64 (inc_path v)
    |> wU64 (inc_path_authority v)
    |> wU64 (inc_candidate_set_generation v)
    |> wU64 (inc_capacity_generation v)
    |> wU64 (inc_policy_generation v)
    |> wU64 (inc_qos_generation v)
    |> wU64 (inc_fabric_epoch v)
    |> WriteReservation (inc_reservation v).

Definition ReadIncumbent : Reader IncumbentPlacement :=
  id ← rU64;
  generation ← rU64;
  path ← rU64;
  path_authority ← rU64;
  candidate_set_generation ← rU64;
  capacity_generation ← rU64;
  policy_generation ← rU64;
  qos_generation ← rU64;
  fabric_epoch ← rU64;
  reservation ← ReadReservation;
  mret (mkIncumbent id generation path path_authority candidate_set_generation
          capacity_generation policy_generation qos_generation fabric_epoch reservation).

Definition WriteDigest (d : Digest) (w : ByteWriter) : ByteWriter :=
  w |> wU64 (digest_hi d) |> wU64 (digest_lo d).

Definition ReadDigest : Reader Digest :=
  hi ← rU64;
  lo ← rU64;
  mret (mkDigest hi lo).

Definition WriteIntent (v : PlacementIntent) (w : ByteWriter) : ByteWriter :=
  w |> wU64 (int_flow v)
    |> wU64 (int_flow_generation v)
    |> wU64 (int_path v)
    |> wU64 (int_path_authority v)
    |> wU64 (int_candidate_set v)
    |> wU64 (int_candidate_set_generation v)
    |> wU64 (int_capacity v)
    |> wU64 (int_capacity_generation v)
    |> wU64 (int_policy v)
    |> wU64 (int_policy_generation v)
    |> wU64 (int_qos v)
    |> wU64 (int_qos_generation v)
    |> wU64 (int_evidence v)
    |> wU64 (int_evidence_generation v)
    |> wU64 (int_fabric_epoch v)
    |> WriteReservation (int_reservation v)
    |> wU64 (int_attempt v)
    |> wU64 (int_revalidate_after_nanos v)
    |> WriteDigest (int_digest v).

Definition ReadIntent : Reader PlacementIntent :=
  flow ← rU64;
  flow_generation ← rU64;
  path ← rU64;
  path_authority ← rU64;
  candidate_set ← rU64;
  candidate_set_generation ← rU64;
  capacity ← rU64;
  capacity_generation ← rU64;
  policy ← rU64;
  policy_generation ← rU64;
  qos ← rU64;
  qos_generation ← rU64;
  evidence ← rU64;
  evidence_generation ← rU64;
  fabric_epoch ← rU64;
  reservation ← ReadReservation;
  attempt ← rU64;
  revalidate ← rU64;
  digest ← ReadDigest;
  mret (mkIntent flow flow_generation path path_authority candidate_set candidate_set_generation
          capacity capacity_generation policy policy_generation qos qos_generation evidence
          evidence_generation fabric_epoch reservation attempt revalidate digest).

Definition WriteAuthorityVector (v : AuthorityVector) (w : ByteWriter) : ByteWriter :=
  w |> wU64 (av_path_authority v)
    |> wU64 (av_candidate_set v)
    |> wU64 (av_candidate_set_generation v)
    |> wU64 (av_capacity v)
    |> wU64 (av_capacity_generation v)
    |> wU64 (av_policy v)
    |> wU64 (av_policy_generation v)
    |> wU64 (av_qos v)
    |> wU64 (av_qos_generation v)
    |> wU64 (av_evidence v)
    |> wU64 (av_evidence_generation v)
    |> wU64 (av_fabric_epoch v).

Definition ReadAuthorityVector : Reader AuthorityVector :=
  path_authority ← rU64;
  candidate_set ← rU64;
  candidate_set_generation ← rU64;
  capacity ← rU64;
  capacity_generation ← rU64;
  policy ← rU64;
  policy_generation ← rU64;
  qos ← rU64;
  qos_generation ← rU64;
  evidence ← rU64;
  evidence_generation ← rU64;
  fabric_epoch ← rU64;
  mret (mkAuthority path_authority candidate_set candidate_set_generation capacity
          capacity_generation policy policy_generation qos qos_generation evidence
          evidence_generation fabric_epoch).

(** ** The explanation *)

Definition WriteKey (key : ObjectiveValue) (w : ByteWriter) : ByteWriter :=
  w |> wU8 (ObjectiveKind_ordinal (val_kind key))
    |> wU8 (Direction_ordinal (val_direction key))
    |> wFlag (val_known key)
    |> wU64 (val_value key).

Definition ReadKey : Reader ObjectiveValue :=
  kind ← ReadEnumU8 8;
  direction ← ReadEnumU8 1;
  known ← ReadBool;
  value ← rU64;
  mret (mkValue (ObjectiveKind_cast kind) (Direction_cast direction) known value).

Definition WriteRanked (ranked : RankedCandidate) (w : ByteWriter) : ByteWriter :=
  w |> wU64 (ranked_path ranked)
    |> wU64 (ranked_authority ranked)
    |> wU32 (ranked_rank ranked)
    |> wFlag (ranked_is_incumbent ranked)
    |> write_counted WriteKey (ranked_keys ranked).

Definition ReadRanked (limits : Limits) : Reader RankedCandidate :=
  path ← rU64;
  authority ← rU64;
  rank ← rU32;
  is_incumbent ← ReadBool;
  keys ← read_counted (max_objectives limits) ReadKey;
  mret (mkRanked path authority rank is_incumbent keys).

(** [static_cast] of a value [ReadEnumU8] has bounded. *)
Definition ExclusionReason_of (raw : N) : ExclusionReason :=
  default ExclusionReason.kPathAuthorityStale (ExclusionReason_cast raw).
Definition DegradationFlag_of (raw : N) : DegradationFlag :=
  default DegradationFlag.kServiceRelaxed (DegradationFlag_cast raw).
Definition Outcome_of (raw : N) : Outcome := default Outcome.kPlaced (Outcome_cast raw).
Definition IncumbentDelta_of (raw : N) : IncumbentDelta :=
  default IncumbentDelta.kNoIncumbent (IncumbentDelta_cast raw).
Definition AttemptPhase_of (raw : N) : AttemptPhase :=
  default AttemptPhase.kStarted (AttemptPhase_cast raw).
(** [static_cast<StatusCode>] of a value [IsKnownStatusCode] accepts. *)
Definition StatusCode_of (raw : N) : StatusCode := default StatusCode.kOk (StatusCode_cast raw).

Definition WriteSummary (summary : ExclusionSummary) (w : ByteWriter) : ByteWriter :=
  w |> wU8 (ExclusionReason_ordinal (sum_reason summary))
    |> wU64 (sum_count summary)
    |> WriteIdVector (sum_sample summary).

Definition ReadSummary (limits : Limits) : Reader ExclusionSummary :=
  reason ← ReadEnumU8 17;
  count ← rU64;
  sample ← read_counted (max_exclusion_samples limits) rU64;
  mret (mkSummary (ExclusionReason_of reason) count sample).

Definition WriteFlag (flag : DegradationFlag) (w : ByteWriter) : ByteWriter :=
  wU8 (DegradationFlag_ordinal flag) w.

Definition ReadFlag : Reader DegradationFlag :=
  flag ← ReadEnumU8 8;
  mret (DegradationFlag_of flag).

Definition WriteBinding (binding : BindingConstraint) (w : ByteWriter) : ByteWriter :=
  w |> wU8 (ExclusionReason_ordinal (binding_kind binding))
    |> wU64 (binding_path binding)
    |> wU64 (binding_required binding)
    |> wU64 (binding_available binding)
    |> wString (binding_label binding).

Definition ReadBinding (limits : Limits) : Reader BindingConstraint :=
  kind ← ReadEnumU8 17;
  path ← rU64;
  required ← rU64;
  available ← rU64;
  label ← rString (clamp32 (max_string_length limits));
  mret (mkBinding (ExclusionReason_of kind) path required available label).

Definition WriteExplanation (v : Explanation) (w : ByteWriter) : ByteWriter :=
  w |> wFlag (ex_truncated v)
    |> wU64 (ex_candidate_count v)
    |> wU64 (ex_legal_candidate_count v)
    |> wU64 (ex_excluded_candidate_count v)
    |> wU64 (ex_unknown_evidence_count v)
    |> wU64 (ex_distinct_failure_domains v)
    |> write_counted WriteRanked (ex_ranked v)
    |> write_counted WriteSummary (ex_exclusions v)
    |> write_counted WriteFlag (ex_degradations v)
    |> write_counted WriteBinding (ex_binding v)
    |> write_counted wString (ex_notes v).

(** The note length limit is [static_cast<std::uint32_t>(limits.max_string_length)]. *)
Definition ReadExplanation (limits : Limits) : Reader Explanation :=
  truncated ← ReadBool;
  candidate_count ← rU64;
  legal_candidate_count ← rU64;
  excluded_candidate_count ← rU64;
  unknown_evidence_count ← rU64;
  distinct_failure_domains ← rU64;
  ranked ← read_counted (max_ranked_explained limits) (ReadRanked limits);
  exclusions ← read_counted (max_exclusion_reasons limits) (ReadSummary limits);
  degradations ← read_counted 9 ReadFlag;
  binding ← read_counted 32 (ReadBinding limits);
  notes ← read_counted kMaxNotesOnDecode (rString (wrap 32 (max_string_length limits)));
  mret (mkExplanation truncated candidate_count legal_candidate_count excluded_candidate_count
          unknown_evidence_count distinct_failure_domains ranked exclusions degradations binding
          notes).

(** ** Authority *)

Definition EncodeAuthorityExpectation (v : AuthorityExpectation) (w : ByteWriter) : ByteWriter :=
  WriteExpected v w.

Definition DecodeAuthorityExpectation : Decoder AuthorityExpectation :=
  value ← malformed "truncated expectation" ReadExpected;
  _ ← expect_end StatusCode.kWireMalformed "trailing bytes after the expectation";
  mret value.

Definition EncodeAuthorityVector (v : AuthorityVector) (w : ByteWriter) : ByteWriter :=
  WriteAuthorityVector v w.

Definition DecodeAuthorityVector : Decoder AuthorityVector :=
  value ← malformed "truncated authority vector" ReadAuthorityVector;
  _ ← expect_end StatusCode.kWireMalformed "trailing bytes after the authority vector";
  mret value.

(** ** The request *)

Definition WritePath (path : CandidatePath) (w : ByteWriter) : ByteWriter :=
  w |> wU64 (path_id path) |> wU64 (path_authority path) |> WriteAttributes (path_attributes path).

Definition WriteCapacity (entry : PathCapacity) (w : ByteWriter) : ByteWriter :=
  w |> wU64 (cap_path entry) |> wU64 (cap_capacity_bytes entry) |> wU64 (cap_residual_bytes entry).

Definition WriteEvidence (entry : CongestionEvidenceEntry) (w : ByteWriter) : ByteWriter :=
  w |> wU64 (ev_path entry) |> wU32 (ev_utilization_ppb entry).

Definition WriteOptionalIncumbent (v : option IncumbentPlacement) (w : ByteWriter) : ByteWriter :=
  match v with
  | Some incumbent => w |> wFlag true |> WriteIncumbent incumbent
  | None => w |> wFlag false
  end.

Definition EncodeRequest (v : PlacementRequest) (w : ByteWriter) : ByteWriter :=
  w |> wU64 (rq_flow v)
    |> wU64 (rq_flow_generation v)
    |> wU64 (set_id (rq_candidates v))
    |> wU64 (set_generation (rq_candidates v))
    |> write_counted WritePath (set_paths (rq_candidates v))
    |> wU64 (snap_id (rq_capacity v))
    |> wU64 (snap_generation (rq_capacity v))
    |> write_counted WriteCapacity (snap_entries (rq_capacity v))
    |> wU64 (qos_id (rq_qos v))
    |> wU64 (qos_generation (rq_qos v))
    |> wU8 (ServiceClass_ordinal (qos_service_class (rq_qos v)))
    |> wU8 (PriorityClass_ordinal (qos_priority (rq_qos v)))
    |> wU64 (qos_required_residual_bytes (rq_qos v))
    |> wU64 (qos_max_latency_nanos (rq_qos v))
    |> wU64 (bundle_id (rq_evidence v))
    |> wU64 (bundle_generation (rq_evidence v))
    |> write_counted WriteEvidence (bundle_entries (rq_evidence v))
    |> WritePolicy (rq_policy v)
    |> WriteOptionalIncumbent (rq_incumbent v)
    |> WriteIdVector (rq_occupied_failure_domains v)
    |> WriteExpected (rq_expected v)
    |> WriteProvenance (rq_provenance v)
    |> wU64 (rq_attempt v).

(** The count of a list, its limit, and the loop. *)
Definition decode_counted {A} (max_count : N) (truncated oversize : string) (decode : Decoder A)
    : Decoder (list A) :=
  count ← malformed truncated rU32;
  _ ← ensure (negb (max_count <? count)) StatusCode.kOversizeRequest oversize;
  decode_each (N.to_nat count) decode.

Definition DecodePath (limits : Limits) : Decoder CandidatePath :=
  id ← malformed "truncated path id" rU64;
  authority ← malformed "truncated path authority" rU64;
  tier ← malformed "malformed path attributes" (ReadEnumU8 2);
  locality ← malformed "malformed path attributes" rU64;
  scope ← malformed "malformed locality scope" (ReadEnumU8 4);
  failure_domain ← malformed "truncated failure domain" rU64;
  cost_micro ← malformed "truncated path metrics" rU64;
  latency_nanos ← malformed "truncated path metrics" rU64;
  hop_count ← malformed "truncated path metrics" rU16;
  labels ← expect StatusCode.kOversizeRequest "encoded path label count exceeds the limit"
             (ReadIdVector (clamp32 (max_path_labels limits)));
  reservations ← decode_counted (max_path_reservations limits) "truncated reservation count"
                   "encoded reservation count exceeds the limit"
                   (malformed "truncated reservation" ReadReservation);
  mret (mkPath id authority
          (mkAttributes (PathTier_cast tier) locality (LocalityScope_cast scope) failure_domain
             cost_micro latency_nanos hop_count labels reservations)).

Definition DecodeCapacity : Decoder PathCapacity :=
  path ← malformed "truncated capacity path" rU64;
  capacity_bytes ← malformed "truncated capacity entry" rU64;
  residual_bytes ← malformed "truncated capacity entry" rU64;
  mret (mkCapacity path capacity_bytes residual_bytes).

Definition DecodeEvidence : Decoder CongestionEvidenceEntry :=
  path ← malformed "truncated evidence path" rU64;
  utilization_ppb ← malformed "truncated evidence utilization" rU32;
  _ ← ensure (negb (1000000000 <? utilization_ppb)) StatusCode.kInvalidFieldValue
        "evidence utilization above 1e9 ppb";
  mret (mkEvidenceEntry path utilization_ppb).

Definition DecodeCandidateSet (limits : Limits) : Decoder CandidateSet :=
  id ← malformed "truncated candidate set id" rU64;
  generation ← malformed "truncated candidate set generation" rU64;
  paths ← decode_counted (max_candidate_paths limits) "truncated path count"
            "encoded candidate path count exceeds the limit" (DecodePath limits);
  mret (mkCandidateSet id generation paths).

Definition DecodeSnapshot (limits : Limits) : Decoder CapacitySnapshot :=
  id ← malformed "truncated capacity id" rU64;
  generation ← malformed "truncated capacity generation" rU64;
  entries ← decode_counted (max_capacity_entries limits) "truncated capacity count"
              "encoded capacity entry count exceeds the limit" DecodeCapacity;
  mret (mkSnapshot id generation entries).

Definition DecodeQos : Decoder QosProfile :=
  id ← malformed "truncated qos id" rU64;
  generation ← malformed "truncated qos generation" rU64;
  service_class ← malformed "malformed qos class" (ReadEnumU8 3);
  priority ← malformed "malformed qos class" (ReadEnumU8 3);
  required_residual_bytes ← malformed "truncated qos requirement" rU64;
  max_latency_nanos ← malformed "truncated qos requirement" rU64;
  mret (mkQos id generation (ServiceClass_cast service_class) (PriorityClass_cast priority)
          required_residual_bytes max_latency_nanos).

Definition DecodeBundle (limits : Limits) : Decoder EvidenceBundle :=
  id ← malformed "truncated evidence id" rU64;
  generation ← malformed "truncated evidence generation" rU64;
  entries ← decode_counted (max_evidence_entries limits) "truncated evidence count"
              "encoded evidence entry count exceeds the limit" DecodeEvidence;
  mret (mkBundle id generation entries).

Definition DecodeOptional {A} (flag_message message : string) (read : Reader A)
    : Decoder (option A) :=
  present ← malformed flag_message ReadBool;
  if (present : bool) then v ← malformed message read; mret (Some v) else mret None.

Definition DecodeRequest (limits : Limits) : Decoder PlacementRequest :=
  flow ← malformed "truncated request header" rU64;
  flow_generation ← malformed "truncated flow generation" rU64;
  candidates ← DecodeCandidateSet limits;
  capacity ← DecodeSnapshot limits;
  qos ← DecodeQos;
  evidence ← DecodeBundle limits;
  policy ← malformed "malformed policy" (ReadPolicy limits);
  incumbent ← DecodeOptional "truncated incumbent flag" "truncated incumbent" ReadIncumbent;
  occupied ← expect StatusCode.kOversizeRequest "encoded occupied domain count exceeds the limit"
               (ReadIdVector (clamp32 (max_occupied_failure_domains limits)));
  expected ← malformed "truncated expectation" ReadExpected;
  provenance ← malformed "truncated provenance" ReadProvenance;
  attempt ← malformed "truncated attempt id" rU64;
  _ ← expect_end StatusCode.kWireMalformed "trailing bytes after request payload";
  mret (mkRequest flow flow_generation candidates capacity qos policy evidence incumbent occupied
          expected provenance attempt).

(** ** Intent and decision *)

Definition EncodeIntent (v : PlacementIntent) (w : ByteWriter) : ByteWriter := WriteIntent v w.

Definition DecodeIntent : Decoder PlacementIntent :=
  value ← malformed "truncated intent" ReadIntent;
  _ ← expect_end StatusCode.kWireMalformed "trailing bytes after the intent";
  mret value.

Definition WriteOptionalIntent (v : option PlacementIntent) (w : ByteWriter) : ByteWriter :=
  match v with
  | Some intent => w |> wFlag true |> WriteIntent intent
  | None => w |> wFlag false
  end.

Definition EncodeDecision (v : PlacementDecision) (w : ByteWriter) : ByteWriter :=
  w |> wU8 (Outcome_ordinal (dec_outcome v))
    |> wU16 (code_value (dec_code v))
    |> WriteOptionalIntent (dec_intent v)
    |> WriteAuthorityVector (dec_authority v)
    |> wU8 (IncumbentDelta_ordinal (dec_delta v))
    |> WriteExplanation (dec_explanation v)
    |> WriteDigest (dec_digest v)
    |> wU16 (code_value (status_code (dec_validation v)))
    |> wString (status_message (dec_validation v)).

(** A status code: the 16-bit value, then [IsKnownStatusCode]. *)
Definition DecodeCode (code : StatusCode) (truncated unknown : string) : Decoder StatusCode :=
  raw ← expect code truncated rU16;
  _ ← ensure (IsKnownStatusCode raw) code unknown;
  mret (StatusCode_of raw).

Definition DecodeDecision (limits : Limits) : Decoder PlacementDecision :=
  outcome ← malformed "malformed outcome" (ReadEnumU8 7);
  code ← DecodeCode StatusCode.kWireMalformed "truncated decision code"
           "unknown decision status code";
  intent ← DecodeOptional "truncated intent flag" "truncated intent" ReadIntent;
  authority ← malformed "truncated authority vector" ReadAuthorityVector;
  delta ← malformed "malformed delta" (ReadEnumU8 3);
  explanation ← malformed "malformed explanation" (ReadExplanation limits);
  digest ← malformed "truncated decision digest" ReadDigest;
  validation ← DecodeCode StatusCode.kWireMalformed "truncated validation code"
                 "unknown validation status code";
  message ← malformed "truncated validation message" (rString kMaxMessageLength);
  _ ← expect_end StatusCode.kWireMalformed "trailing bytes after decision payload";
  mret (mkDecision (Outcome_of outcome) code intent authority (IncumbentDelta_of delta)
          explanation digest (mkStatus validation message)).

(** ** Store records *)

Definition EncodeAttemptRecord (v : AttemptRecord) (w : ByteWriter) : ByteWriter :=
  w |> wU64 (at_attempt v)
    |> wU64 (at_incarnation v)
    |> wU64 (at_epoch v)
    |> wU64 (at_flow v)
    |> wU8 (AttemptPhase_ordinal (at_phase v))
    |> wU16 (code_value (at_code v))
    |> WriteDigest (at_request_digest v)
    |> wU64 (at_sequence v)
    |> wI64 (at_observed_unix_nanos v).

Definition DecodeAttemptRecord : Decoder AttemptRecord :=
  attempt ← corrupt "truncated attempt record" rU64;
  incarnation ← corrupt "truncated attempt incarnation" rU64;
  epoch ← corrupt "truncated attempt epoch" rU64;
  flow ← corrupt "truncated attempt flow" rU64;
  phase ← corrupt "malformed attempt phase" (ReadEnumU8 4);
  code ← DecodeCode StatusCode.kStoreCorrupt "truncated attempt code"
           "unknown attempt status code";
  digest ← corrupt "truncated attempt digest" ReadDigest;
  sequence ← corrupt "truncated attempt trailer" rU64;
  observed ← corrupt "truncated attempt trailer" rI64;
  mret (mkAttempt attempt incarnation epoch flow (AttemptPhase_of phase) code digest sequence
          observed).

Definition EncodePlacementRecord (v : PlacementRecord) (w : ByteWriter) : ByteWriter :=
  w |> wU64 (pl_id v)
    |> wU64 (pl_generation v)
    |> WriteIntent (pl_intent v)
    |> wU8 (IncumbentDelta_ordinal (pl_delta v))
    |> WriteDigest (pl_decision_digest v)
    |> wU64 (pl_committed_by v)
    |> wU64 (pl_commit_epoch v)
    |> wU64 (pl_sequence v)
    |> wU64 (pl_supersedes_generation v)
    |> wI64 (pl_commit_unix_nanos v).

(** A decoded placement always requires revalidation. *)
Definition DecodePlacementRecord : Decoder PlacementRecord :=
  id ← corrupt "truncated placement record" rU64;
  generation ← corrupt "truncated placement generation" rU64;
  intent ← corrupt "truncated placement intent" ReadIntent;
  delta ← corrupt "malformed placement delta" (ReadEnumU8 3);
  digest ← corrupt "truncated placement digest" ReadDigest;
  committed_by ← corrupt "truncated placement incarnation" rU64;
  commit_epoch ← corrupt "truncated placement epoch" rU64;
  sequence ← corrupt "truncated placement trailer" rU64;
  supersedes ← corrupt "truncated placement trailer" rU64;
  commit_unix_nanos ← corrupt "truncated placement trailer" rI64;
  mret (mkPlacement id generation intent (IncumbentDelta_of delta) digest committed_by
          commit_epoch sequence supersedes commit_unix_nanos true).

(** ** The recovery report *)

Definition EncodeRecoveryReport (v : RecoveryReport) (w : ByteWriter) : ByteWriter :=
  w |> wFlag (rep_liveness_restored v)
    |> wFlag (rep_truncated_tail v)
    |> wFlag (rep_snapshot_loaded v)
    |> wU64 (rep_bytes_discarded v)
    |> wU64 (rep_records_valid v)
    |> wU64 (rep_placements_total v)
    |> wU64 (rep_attempts_total v)
    |> wU64 (rep_committed_attempts v)
    |> wU64 (rep_rejected_attempts v)
    |> wU64 (rep_cancelled_attempts v)
    |> wU64 (rep_fenced_attempts v)
    |> wU64 (rep_unfinished_attempts v)
    |> wU64 (rep_superseded_placements v)
    |> wU64 (rep_placements_requiring_revalidation v)
    |> wU64 (rep_retired_attempts v)
    |> wU64 (rep_max_sequence v)
    |> wU64 (rep_last_epoch v)
    |> wU64 (rep_last_incarnation v)
    |> write_counted EncodePlacementRecord (rep_latest_by_flow v)
    |> write_counted EncodeAttemptRecord (rep_unfinished v)
    |> wString (rep_detail v).

Definition DecodeRecoveryReport : Decoder RecoveryReport :=
  liveness_restored ← malformed "truncated recovery flag" ReadBool;
  truncated_tail ← malformed "truncated recovery flags" ReadBool;
  snapshot_loaded ← malformed "truncated recovery flags" ReadBool;
  bytes_discarded ← malformed "truncated recovery counter" rU64;
  records_valid ← malformed "truncated recovery counter" rU64;
  placements_total ← malformed "truncated recovery counter" rU64;
  attempts_total ← malformed "truncated recovery counter" rU64;
  committed_attempts ← malformed "truncated recovery counter" rU64;
  rejected_attempts ← malformed "truncated recovery counter" rU64;
  cancelled_attempts ← malformed "truncated recovery counter" rU64;
  fenced_attempts ← malformed "truncated recovery counter" rU64;
  unfinished_attempts ← malformed "truncated recovery counter" rU64;
  superseded_placements ← malformed "truncated recovery counter" rU64;
  requiring_revalidation ← malformed "truncated recovery counter" rU64;
  retired_attempts ← malformed "truncated recovery counter" rU64;
  max_sequence ← malformed "truncated recovery counter" rU64;
  last_epoch ← malformed "truncated recovery authority" rU64;
  last_incarnation ← malformed "truncated recovery authority" rU64;
  latest_by_flow ← decode_counted 1000000 "truncated placement list" "placement list too long"
                     DecodePlacementRecord;
  unfinished ← decode_counted 1000000 "truncated attempt list" "attempt list too long"
                 DecodeAttemptRecord;
  detail ← malformed "truncated recovery detail" (rString kMaxMessageLength);
  _ ← expect_end StatusCode.kWireMalformed "trailing bytes after recovery report";
  mret (mkReport liveness_restored truncated_tail snapshot_loaded bytes_discarded records_valid
          placements_total attempts_total committed_attempts rejected_attempts cancelled_attempts
          fenced_attempts unfinished_attempts superseded_placements requiring_revalidation
          retired_attempts max_sequence last_epoch last_incarnation latest_by_flow unfinished
          detail).
