(* ===== verification/CodecFacts.v ===== *)
(** * Round trips of the codec

    For every writer and its reader: the writer appends a fixed list of bytes
    ([Appends]), and the reader consumes exactly those bytes and returns the
    value ([reads], [decodes]), whenever the value is one its C++ type and the
    decoder's limits admit. *)

From Stdlib Require Import String.
From S2P Require Import Prelude StdAlgo Checked Status Bytes Hash Model Explain Records Codec.

(** ** Writers append *)

(** The bytes a writer appends to an empty buffer. *)
Definition bytes_of (write : ByteWriter → ByteWriter) : list N := write [].

Class Appends {A} (write : A → ByteWriter → ByteWriter) : Prop :=
  appends : ∀ a w, write a w = w ++ bytes_of (write a).

Create Rewrite HintDb enc.

(** Unfolds one writer into the bytes of its parts. *)
Ltac encode write :=
  intros ? ?; unfold bytes_of, write;
  autorewrite with enc; rewrite ?app_nil_l, <-?app_assoc; reflexivity.

#[export] Instance wU8_appends : Appends wU8.
Proof. by intros v w. Qed.
#[export] Instance wU16_appends : Appends wU16.
Proof. by intros v w. Qed.
#[export] Instance wU32_appends : Appends wU32.
Proof. by intros v w. Qed.
#[export] Instance wU64_appends : Appends wU64.
Proof. by intros v w. Qed.
#[export] Instance wI64_appends : Appends wI64.
Proof. by intros v w. Qed.
#[export] Instance wFlag_appends : Appends wFlag.
Proof. by intros v w. Qed.

#[export] Instance wString_appends : Appends wString.
Proof. intros s w. unfold wString, bytes_of, wBytes, wU32. by rewrite app_assoc. Qed.

#[export] Instance write_each_appends {A} (write : A → ByteWriter → ByteWriter) :
  Appends write → Appends (write_each write).
Proof.
  intros Hw l w. unfold bytes_of.
  rewrite (write_each_app write (λ x, bytes_of (write x)) l w) by (intros; apply appends).
  by rewrite (write_each_app write (λ x, bytes_of (write x)) l []) by (intros; apply appends).
Qed.

#[export] Instance write_counted_appends {A} (write : A → ByteWriter → ByteWriter) :
  Appends write → Appends (write_counted write).
Proof.
  intros Hw l w. unfold bytes_of, write_counted.
  rewrite (appends (write := write_each write) l (wU32 _ w)), (appends (write := wU32)).
  rewrite (appends (write := write_each write) l (wU32 _ [])), (appends (write := wU32) _ []).
  by rewrite <-!app_assoc.
Qed.

#[export] Hint Rewrite (appends (write := wU8)) (appends (write := wU16))
  (appends (write := wU32)) (appends (write := wU64)) (appends (write := wI64))
  (appends (write := wFlag)) (appends (write := wString)) : enc.

#[export] Instance WriteReservation_appends : Appends WriteReservation.
Proof. encode WriteReservation. Qed.
#[export] Hint Rewrite (appends (write := WriteReservation))
  (appends (write := write_counted WriteReservation)) : enc.

#[export] Instance WriteIdVector_appends : Appends WriteIdVector.
Proof. unfold WriteIdVector. apply _. Qed.

#[export] Instance WriteOptionalId_appends : Appends WriteOptionalId.
Proof.
  intros v w. unfold WriteOptionalId, bytes_of. cbv zeta.
  destruct (negb (v =? 0)); autorewrite with enc; by rewrite ?app_nil_l, <-?app_assoc.
Qed.
#[export] Hint Rewrite (appends (write := WriteIdVector)) (appends (write := WriteOptionalId)) : enc.

#[export] Instance WriteExpected_appends : Appends WriteExpected.
Proof. encode WriteExpected. Qed.
#[export] Instance WriteProvenance_appends : Appends WriteProvenance.
Proof. encode WriteProvenance. Qed.
#[export] Instance WriteAttributes_appends : Appends WriteAttributes.
Proof. encode WriteAttributes. Qed.
#[export] Instance WriteObjective_appends : Appends WriteObjective.
Proof. encode WriteObjective. Qed.
#[export] Instance WriteTier_appends : Appends WriteTier.
Proof. encode WriteTier. Qed.
#[export] Instance WriteLocality_appends : Appends WriteLocality.
Proof. encode WriteLocality. Qed.
#[export] Instance WriteFailureDomains_appends : Appends WriteFailureDomains.
Proof. encode WriteFailureDomains. Qed.
#[export] Instance WriteAffinity_appends : Appends WriteAffinity.
Proof. encode WriteAffinity. Qed.
#[export] Instance WriteAdmission_appends : Appends WriteAdmission.
Proof. encode WriteAdmission. Qed.
#[export] Instance WriteService_appends : Appends WriteService.
Proof. encode WriteService. Qed.
#[export] Instance WriteChurn_appends : Appends WriteChurn.
Proof. encode WriteChurn. Qed.
#[export] Instance WriteEvidencePolicy_appends : Appends WriteEvidencePolicy.
Proof. encode WriteEvidencePolicy. Qed.
#[export] Hint Rewrite (appends (write := WriteExpected)) (appends (write := WriteProvenance))
  (appends (write := WriteAttributes)) (appends (write := WriteObjective))
  (appends (write := WriteTier)) (appends (write := write_counted WriteObjective))
  (appends (write := write_counted WriteTier)) (appends (write := WriteLocality))
  (appends (write := WriteFailureDomains)) (appends (write := WriteAffinity))
  (appends (write := WriteAdmission)) (appends (write := WriteService))
  (appends (write := WriteChurn)) (appends (write := WriteEvidencePolicy)) : enc.

#[export] Instance WritePolicy_appends : Appends WritePolicy.
Proof. encode WritePolicy. Qed.
#[export] Instance WriteIncumbent_appends : Appends WriteIncumbent.
Proof. encode WriteIncumbent. Qed.
#[export] Instance WriteDigest_appends : Appends WriteDigest.
Proof. encode WriteDigest. Qed.
#[export] Hint Rewrite (appends (write := WritePolicy)) (appends (write := WriteIncumbent))
  (appends (write := WriteDigest)) : enc.
#[export] Instance WriteIntent_appends : Appends WriteIntent.
Proof. encode WriteIntent. Qed.
#[export] Instance WriteAuthorityVector_appends : Appends WriteAuthorityVector.
Proof. encode WriteAuthorityVector. Qed.
#[export] Instance WriteKey_appends : Appends WriteKey.
Proof. encode WriteKey. Qed.
#[export] Hint Rewrite (appends (write := WriteIntent)) (appends (write := WriteAuthorityVector))
  (appends (write := WriteKey)) (appends (write := write_counted WriteKey)) : enc.
#[export] Instance WriteRanked_appends : Appends WriteRanked.
Proof. encode WriteRanked. Qed.
#[export] Instance WriteSummary_appends : Appends WriteSummary.
Proof. encode WriteSummary. Qed.
#[export] Instance WriteFlag_appends : Appends WriteFlag.
Proof. encode WriteFlag. Qed.
#[export] Instance WriteBinding_appends : Appends WriteBinding.
Proof. encode WriteBinding. Qed.
#[export] Hint Rewrite (appends (write := write_counted WriteRanked))
  (appends (write := write_counted WriteSummary)) (appends (write := write_counted WriteFlag))
  (appends (write := write_counted WriteBinding)) (appends (write := write_counted wString)) : enc.
#[export] Instance WriteExplanation_appends : Appends WriteExplanation.
Proof. encode WriteExplanation. Qed.
#[export] Instance WritePath_appends : Appends WritePath.
Proof. encode WritePath. Qed.
#[export] Instance WriteCapacity_appends : Appends WriteCapacity.
Proof. encode WriteCapacity. Qed.
#[export] Instance WriteEvidence_appends : Appends WriteEvidence.
Proof. encode WriteEvidence. Qed.

(** A flag, then the value when it is present. *)
Ltac encode_option write :=
  intros [v|] w; unfold write, bytes_of; autorewrite with enc;
  rewrite ?app_nil_l, <-?app_assoc; reflexivity.

#[export] Instance WriteOptionalIncumbent_appends : Appends WriteOptionalIncumbent.
Proof. encode_option WriteOptionalIncumbent. Qed.
#[export] Instance WriteOptionalIntent_appends : Appends WriteOptionalIntent.
Proof. encode_option WriteOptionalIntent. Qed.
#[export] Hint Rewrite (appends (write := WriteExplanation))
  (appends (write := write_counted WritePath)) (appends (write := write_counted WriteCapacity))
  (appends (write := write_counted WriteEvidence)) (appends (write := WriteOptionalIncumbent))
  (appends (write := WriteOptionalIntent)) : enc.

#[export] Instance EncodeRequest_appends : Appends EncodeRequest.
Proof. encode EncodeRequest. Qed.
#[export] Instance EncodeDecision_appends : Appends EncodeDecision.
Proof. encode EncodeDecision. Qed.
#[export] Instance EncodeAttemptRecord_appends : Appends EncodeAttemptRecord.
Proof. encode EncodeAttemptRecord. Qed.
#[export] Instance EncodePlacementRecord_appends : Appends EncodePlacementRecord.
Proof. encode EncodePlacementRecord. Qed.
#[export] Hint Rewrite (appends (write := write_counted EncodePlacementRecord))
  (appends (write := write_counted EncodeAttemptRecord)) : enc.
#[export] Instance EncodeRecoveryReport_appends : Appends EncodeRecoveryReport.
Proof. encode EncodeRecoveryReport. Qed.

(** ** Readers invert them *)

(** Values the reader [read] gives back from the bytes of [write]. *)
Abbreviation inverts read write v := (reads read (bytes_of (write v)) v) (only parsing).

Create HintDb codec.

(** Splits the bytes of a writer into those of its parts. *)
Ltac parts write := unfold bytes_of at 1; unfold write;
  autorewrite with enc; rewrite ?app_nil_l, <-?app_assoc.

(** Reads one part after another. *)
Ltac field := first
  [ eapply reads_bind; [solve [eauto with codec]|]
  | eapply reads_bind_ret; [solve [eauto with codec]|] ].

Lemma reads_ret_eq {A} (a b : A) : a = b → reads (mret a) [] b.
Proof. intros ->. apply reads_ret. Qed.

Lemma reads_wU8 v : u8_fits v → reads rU8 (bytes_of (wU8 v)) v.
Proof. intros Hv. change (bytes_of (wU8 v)) with [wrap 8 v]. rewrite wrap_small by done. by apply reads_u8. Qed.
Lemma reads_wU16 v : u16_fits v → reads rU16 (bytes_of (wU16 v)) v.
Proof. apply reads_u16. Qed.
Lemma reads_wU32 v : u32_fits v → reads rU32 (bytes_of (wU32 v)) v.
Proof. apply reads_u32. Qed.
Lemma reads_wU64 v : u64_fits v → reads rU64 (bytes_of (wU64 v)) v.
Proof. apply reads_u64. Qed.
Lemma reads_wI64 v : i64_fits v → reads rI64 (bytes_of (wI64 v)) v.
Proof. apply reads_i64. Qed.
Lemma reads_wString s max :
  u32_fits (string_size s) → string_size s ≤ max → reads (rString max) (bytes_of (wString s)) s.
Proof.
  intros Hs Hm. unfold bytes_of. rewrite wString_app by done. by apply reads_string.
Qed.
#[export] Hint Resolve reads_wU8 reads_wU16 reads_wU32 reads_wU64 reads_wI64 reads_wString : codec.

Lemma inverts_flag b : reads ReadBool (bytes_of (wFlag b)) b.
Proof.
  unfold ReadBool, wFlag. eapply reads_bind_ret; [apply reads_wU8; by destruct b|].
  apply reads_require_bind; [by destruct b|]. apply reads_ret_eq. by destruct b.
Qed.

(** An enumerator whose ordinal is within the range the reader accepts. *)
Lemma reads_enum max_value raw :
  raw ≤ max_value → max_value < 256 → reads (ReadEnumU8 max_value) (bytes_of (wU8 raw)) raw.
Proof.
  intros Hr Hm. unfold ReadEnumU8. eapply reads_bind_ret; [apply reads_wU8; unfold uint_fits; change (2 ^ 8) with 256; lia|].
  apply reads_require_bind; [b2p; lia|]. apply reads_ret.
Qed.

Lemma reads_counted {A} (read : Reader A) write (l : list A) max_count :
  Appends write → u32_fits (size l) → size l ≤ max_count →
  (∀ x, x ∈ l → inverts read write x) →
  reads (read_counted max_count read) (bytes_of (write_counted write l)) l.
Proof.
  intros Ha Hl Hm Hx. unfold bytes_of, write_counted. rewrite (appends (write := write_each write)).
  rewrite (appends (write := wU32)), app_nil_l. rewrite (wrap_small 32) by done.
  eapply reads_bind; [by apply reads_wU32|]. apply reads_require_bind; [b2p; lia|].
  unfold size. rewrite Nat2N.id. unfold bytes_of at 1.
  rewrite (write_each_app write (λ x, bytes_of (write x)) l []) by (intros; apply appends).
  by apply reads_each.
Qed.
#[export] Hint Resolve inverts_flag : codec.

(** *** What a value must fit *)

(** A declared enumerator: its ordinal is in range and casts back to it. *)
Definition enumerator {T} (ordinal : T → N) (cast : N → T) (max_value : N) (v : T) : Prop :=
  ordinal v ≤ max_value ∧ cast (ordinal v) = v.

(** A list the decoder admits: its size fits the 32-bit count and the limit, and
    its elements fit. *)
Definition counted {A} (max_count : N) (P : A → Prop) (l : list A) : Prop :=
  u32_fits (size l) ∧ size l ≤ max_count ∧ Forall P l.

Definition reservation_fits (ref : ReservationRef) : Prop :=
  Forall u64_fits [ref_id ref; ref_generation ref].

Definition optional_fits (v : option N) : Prop := u64_fits (optional_value v) ∧ v ≠ Some 0.

Definition text_fits (max_length : N) (s : string) : Prop :=
  u32_fits (string_size s) ∧ string_size s ≤ max_length.

Definition expectation_fits (v : AuthorityExpectation) : Prop :=
  Forall u64_fits [exp_path_authority v; exp_candidate_set v; exp_capacity v; exp_policy v;
    exp_qos v; exp_fabric_epoch v; exp_evidence v].

Definition provenance_fits (v : Provenance) : Prop :=
  text_fits kMaxProvenanceFieldLength (prov_producer v) ∧
  text_fits kMaxProvenanceFieldLength (prov_producer_version v) ∧
  u64_fits (prov_source_sequence v) ∧ i64_fits (prov_observer_unix_nanos v).

Definition digest_fits (d : Digest) : Prop := Forall u64_fits [digest_hi d; digest_lo d].

Definition incumbent_fits (v : IncumbentPlacement) : Prop :=
  Forall u64_fits [inc_id v; inc_generation v; inc_path v; inc_path_authority v;
    inc_candidate_set_generation v; inc_capacity_generation v; inc_policy_generation v;
    inc_qos_generation v; inc_fabric_epoch v] ∧ reservation_fits (inc_reservation v).

Definition intent_fits (v : PlacementIntent) : Prop :=
  Forall u64_fits [int_flow v; int_flow_generation v; int_path v; int_path_authority v;
    int_candidate_set v; int_candidate_set_generation v; int_capacity v;
    int_capacity_generation v; int_policy v; int_policy_generation v; int_qos v;
    int_qos_generation v; int_evidence v; int_evidence_generation v; int_fabric_epoch v;
    int_attempt v; int_revalidate_after_nanos v] ∧
  reservation_fits (int_reservation v) ∧ digest_fits (int_digest v).

Definition authority_fits (v : AuthorityVector) : Prop :=
  Forall u64_fits [av_path_authority v; av_candidate_set v; av_candidate_set_generation v;
    av_capacity v; av_capacity_generation v; av_policy v; av_policy_generation v; av_qos v;
    av_qos_generation v; av_evidence v; av_evidence_generation v; av_fabric_epoch v].

(** Opens the conjunctions and lists of the context. *)
Ltac open_fits := repeat match goal with
  | H : _ ∧ _ |- _ => destruct H
  | H : Forall _ (_ :: _) |- _ => apply Forall_cons in H
  | H : Forall _ [] |- _ => clear H
  | H : enumerator _ _ _ _ |- _ => destruct H
  | H : text_fits _ _ |- _ => destruct H
  end.

(** Proves that a record reader inverts its writer. *)
Ltac invert write read fits :=
  let v := fresh "v" in let H := fresh "H" in
  intros v H; unfold fits in H; open_fits; parts write; unfold read;
  repeat field; apply reads_ret_eq; destruct v; cbn in *; congruence.

#[export] Hint Extern 1 (_ < 256) => reflexivity : codec.
#[export] Hint Resolve reads_enum : codec.

Lemma ReadReservation_inverts : ∀ v, reservation_fits v → inverts ReadReservation WriteReservation v.
Proof. invert WriteReservation ReadReservation reservation_fits. Qed.
Lemma ReadExpected_inverts : ∀ v, expectation_fits v → inverts ReadExpected WriteExpected v.
Proof. invert WriteExpected ReadExpected expectation_fits. Qed.
Lemma ReadDigest_inverts : ∀ v, digest_fits v → inverts ReadDigest WriteDigest v.
Proof. invert WriteDigest ReadDigest digest_fits. Qed.
Lemma ReadAuthorityVector_inverts :
  ∀ v, authority_fits v → inverts ReadAuthorityVector WriteAuthorityVector v.
Proof. invert WriteAuthorityVector ReadAuthorityVector authority_fits. Qed.
Lemma ReadProvenance_inverts : ∀ v, provenance_fits v → inverts ReadProvenance WriteProvenance v.
Proof. invert WriteProvenance ReadProvenance provenance_fits. Qed.
#[export] Hint Resolve ReadReservation_inverts ReadExpected_inverts ReadDigest_inverts
  ReadAuthorityVector_inverts ReadProvenance_inverts : codec.

Lemma ReadIncumbent_inverts : ∀ v, incumbent_fits v → inverts ReadIncumbent WriteIncumbent v.
Proof. invert WriteIncumbent ReadIncumbent incumbent_fits. Qed.
Lemma ReadIntent_inverts : ∀ v, intent_fits v → inverts ReadIntent WriteIntent v.
Proof. invert WriteIntent ReadIntent intent_fits. Qed.

Lemma inverts_counted {A} (read : Reader A) write (P : A → Prop) max_count l :
  Appends write → (∀ x, P x → inverts read write x) → counted max_count P l →
  reads (read_counted max_count read) (bytes_of (write_counted write l)) l.
Proof.
  intros Ha Hi (Hs & Hm & Hl). apply reads_counted; [done..|].
  rewrite Forall_forall in Hl. auto.
Qed.

Lemma inverts_ids max_count l :
  counted max_count u64_fits l → reads (ReadIdVector max_count) (bytes_of (WriteIdVector l)) l.
Proof. apply inverts_counted; [apply _|]. intros x. apply reads_wU64. Qed.

Lemma inverts_references max_count l :
  counted max_count reservation_fits l →
  reads (read_counted max_count ReadReservation) (bytes_of (write_counted WriteReservation l)) l.
Proof. apply inverts_counted; [apply _|apply ReadReservation_inverts]. Qed.

Lemma inverts_optional v :
  u64_fits v → reads ReadOptionalId (bytes_of (WriteOptionalId v)) v.
Proof.
  intros Hv. unfold bytes_of, WriteOptionalId. cbv zeta.
  destruct (N.eqb_spec v 0) as [->|Hne]; cbn [negb].
  - unfold ReadOptionalId. autorewrite with enc. rewrite app_nil_l.
    eapply reads_bind_ret; [by apply (reads_wU8 0)|]. apply reads_require_bind; [done|apply reads_ret].
  - unfold ReadOptionalId. autorewrite with enc. rewrite app_nil_l.
    eapply reads_bind; [by apply (reads_wU8 1)|]. apply reads_require_bind; [done|by apply reads_wU64].
Qed.

Lemma value_optional_value v : v ≠ Some 0 → value_optional (optional_value v) = v.
Proof.
  intros Hv. destruct v as [n|]; [|done]. cbn. unfold value_optional.
  by destruct (N.eqb_spec n 0) as [->|].
Qed.
#[export] Hint Resolve ReadIncumbent_inverts ReadIntent_inverts inverts_ids inverts_references
  inverts_optional : codec.

(** *** The policy *)

Definition objective_fits (v : Objective) : Prop :=
  enumerator ObjectiveKind_ordinal ObjectiveKind_cast 8 (obj_kind v) ∧
  enumerator Direction_ordinal Direction_cast 1 (obj_direction v).

Definition tier_fits : PathTier → Prop := enumerator PathTier_ordinal PathTier_cast 2.

Lemma ReadObjective_inverts : ∀ v, objective_fits v → inverts ReadObjective WriteObjective v.
Proof. invert WriteObjective ReadObjective objective_fits. Qed.
Lemma ReadTier_inverts : ∀ v, tier_fits v → inverts ReadTier WriteTier v.
Proof.
  intros v [Hr Hc]. change (bytes_of (WriteTier v)) with (bytes_of (wU8 (PathTier_ordinal v))).
  eapply reads_bind_ret; [by apply reads_enum|]. by apply reads_ret_eq.
Qed.

Definition locality_fits (max_ids : N) (v : LocalityConstraint) : Prop :=
  optional_fits (required_locality v) ∧ optional_fits (preferred_locality v) ∧
  counted max_ids u64_fits (forbidden_localities v).

Definition failure_domains_fit (max_ids : N) (v : FailureDomainConstraint) : Prop :=
  optional_fits (required_domain v) ∧ counted max_ids u64_fits (forbidden_domains v) ∧
  u32_fits (min_distinct_domains v).

Definition affinity_fits (limits : Limits) (v : ReservationAffinity) : Prop :=
  counted (max_affinity_refs limits) reservation_fits (affinity_refs v).

Definition admission_fits (v : AdmissionGate) : Prop :=
  u64_fits (min_residual_headroom_bytes v) ∧
  enumerator GateAction_ordinal GateAction_cast 1 (on_below v).

Definition service_fits (v : ServicePolicy) : Prop := max_relaxation_steps v ≤ 2.

Definition churn_fits (v : ChurnPolicy) : Prop :=
  enumerator ChurnAction_ordinal ChurnAction_cast 1 (on_move v) ∧
  u64_fits (move_improvement_threshold v) ∧ u32_fits (threshold_objective_index v).

Definition evidence_policy_fits (v : EvidencePolicy) : Prop :=
  enumerator EvidencePolicyMode_ordinal EvidencePolicyMode_cast 1 (on_missing v) ∧
  enumerator EvidencePolicyMode_ordinal EvidencePolicyMode_cast 1 (on_stale v).

Lemma ReadLocality_inverts max_ids :
  ∀ v, locality_fits max_ids v → inverts (ReadLocality max_ids) WriteLocality v.
Proof.
  intros v ([Hr Hr0] & [Hp Hp0] & Hf). parts WriteLocality. unfold ReadLocality. repeat field.
  apply reads_ret_eq. rewrite !value_optional_value by done. by destruct v.
Qed.

Lemma ReadFailureDomains_inverts max_ids :
  ∀ v, failure_domains_fit max_ids v → inverts (ReadFailureDomains max_ids) WriteFailureDomains v.
Proof.
  intros v ([Hr Hr0] & Hf & Hm). parts WriteFailureDomains. unfold ReadFailureDomains. repeat field.
  apply reads_ret_eq. rewrite value_optional_value by done. by destruct v.
Qed.

Lemma ReadAffinity_inverts limits :
  ∀ v, affinity_fits limits v → inverts (ReadAffinity limits) WriteAffinity v.
Proof. invert WriteAffinity ReadAffinity affinity_fits. Qed.
Lemma ReadAdmission_inverts : ∀ v, admission_fits v → inverts ReadAdmission WriteAdmission v.
Proof. invert WriteAdmission ReadAdmission admission_fits. Qed.
Lemma ReadChurn_inverts : ∀ v, churn_fits v → inverts ReadChurn WriteChurn v.
Proof. invert WriteChurn ReadChurn churn_fits. Qed.
Lemma ReadEvidencePolicy_inverts :
  ∀ v, evidence_policy_fits v → inverts ReadEvidencePolicy WriteEvidencePolicy v.
Proof. invert WriteEvidencePolicy ReadEvidencePolicy evidence_policy_fits. Qed.

Lemma ReadService_inverts : ∀ v, service_fits v → inverts ReadService WriteService v.
Proof.
  intros v Hv. unfold service_fits in Hv. parts WriteService. unfold ReadService.
  field. eapply reads_bind_ret.
  - apply reads_wU8. unfold uint_fits. change (2 ^ 8) with 256. lia.
  - apply reads_require_bind; [b2p; lia|]. apply reads_ret_eq. by destruct v.
Qed.
#[export] Hint Resolve ReadLocality_inverts ReadFailureDomains_inverts ReadAffinity_inverts
  ReadAdmission_inverts ReadChurn_inverts ReadEvidencePolicy_inverts ReadService_inverts : codec.

Definition policy_fits (limits : Limits) (v : PlacementPolicy) : Prop :=
  let max_ids := clamp32 (max_policy_id_lists limits) in
  Forall u64_fits [pol_id v; pol_generation v; pol_revalidate_after_nanos v] ∧
  pol_objectives v ≠ [] ∧
  counted (max_objectives limits) objective_fits (pol_objectives v) ∧
  counted 3 tier_fits (pol_allowed_tiers v) ∧
  counted max_ids u64_fits (pol_required_labels v) ∧
  counted max_ids u64_fits (pol_forbidden_labels v) ∧
  locality_fits max_ids (pol_locality v) ∧
  failure_domains_fit max_ids (pol_failure_domains v) ∧
  affinity_fits limits (pol_reservation_affinity v) ∧ admission_fits (pol_admission v) ∧
  service_fits (pol_service v) ∧ churn_fits (pol_churn v) ∧ evidence_policy_fits (pol_evidence v).

Lemma inverts_objectives limits l :
  l ≠ [] → counted (max_objectives limits) objective_fits l →
  reads (ReadObjectives limits) (bytes_of (write_counted WriteObjective l)) l.
Proof.
  intros Hne Hl.
  pose proof (inverts_counted ReadObjective WriteObjective objective_fits _ l _
    ReadObjective_inverts Hl) as Hr.
  intros r rest Hb. specialize (Hr r rest Hb). unfold ReadObjectives, read_counted in *.
  unfold mbind, Reader_bind in *. destruct (rU32 r) as [[n r']|]; [|done].
  unfold rd_require in *. destruct (max_objectives limits <? n); [done|].
  destruct (N.eqb_spec n 0) as [->|]; [|done]. cbn in Hr. injection Hr as <- _. done.
Qed.

Lemma inverts_tiers l :
  counted 3 tier_fits l → reads (read_counted 3 ReadTier) (bytes_of (write_counted WriteTier l)) l.
Proof. apply inverts_counted; [apply _|apply ReadTier_inverts]. Qed.
#[export] Hint Resolve inverts_objectives inverts_tiers : codec.

Lemma ReadPolicy_inverts limits :
  ∀ v, policy_fits limits v → inverts (ReadPolicy limits) WritePolicy v.
Proof. invert WritePolicy ReadPolicy policy_fits. Qed.
#[export] Hint Resolve ReadPolicy_inverts : codec.

(** *** The explanation *)

Definition key_fits (v : ObjectiveValue) : Prop :=
  enumerator ObjectiveKind_ordinal ObjectiveKind_cast 8 (val_kind v) ∧
  enumerator Direction_ordinal Direction_cast 1 (val_direction v) ∧ u64_fits (val_value v).

Definition ranked_fits (limits : Limits) (v : RankedCandidate) : Prop :=
  Forall u64_fits [ranked_path v; ranked_authority v] ∧ u32_fits (ranked_rank v) ∧
  counted (max_objectives limits) key_fits (ranked_keys v).

Definition summary_fits (limits : Limits) (v : ExclusionSummary) : Prop :=
  u64_fits (sum_count v) ∧ counted (max_exclusion_samples limits) u64_fits (sum_sample v).

Definition binding_fits (limits : Limits) (v : BindingConstraint) : Prop :=
  Forall u64_fits [binding_path v; binding_required v; binding_available v] ∧
  text_fits (clamp32 (max_string_length limits)) (binding_label v).

Definition explanation_fits (limits : Limits) (v : Explanation) : Prop :=
  Forall u64_fits [ex_candidate_count v; ex_legal_candidate_count v;
    ex_excluded_candidate_count v; ex_unknown_evidence_count v; ex_distinct_failure_domains v] ∧
  counted (max_ranked_explained limits) (ranked_fits limits) (ex_ranked v) ∧
  counted (max_exclusion_reasons limits) (summary_fits limits) (ex_exclusions v) ∧
  counted 9 (λ _, True) (ex_degradations v) ∧
  counted 32 (binding_fits limits) (ex_binding v) ∧
  counted kMaxNotesOnDecode (text_fits (wrap 32 (max_string_length limits))) (ex_notes v).

Lemma ExclusionReason_of_ordinal v : ExclusionReason_of (ExclusionReason_ordinal v) = v.
Proof. by destruct v. Qed.
Lemma DegradationFlag_of_ordinal v : DegradationFlag_of (DegradationFlag_ordinal v) = v.
Proof. by destruct v. Qed.
Lemma Outcome_of_ordinal v : Outcome_of (Outcome_ordinal v) = v.
Proof. by destruct v. Qed.
Lemma IncumbentDelta_of_ordinal v : IncumbentDelta_of (IncumbentDelta_ordinal v) = v.
Proof. by destruct v. Qed.
Lemma AttemptPhase_of_ordinal v : AttemptPhase_of (AttemptPhase_ordinal v) = v.
Proof. by destruct v. Qed.
Lemma StatusCode_of_value v : StatusCode_of (code_value v) = v.
Proof. by destruct v. Qed.

Lemma reason_range v : ExclusionReason_ordinal v ≤ 17.
Proof. by destruct v. Qed.
Lemma flag_range v : DegradationFlag_ordinal v ≤ 8.
Proof. by destruct v. Qed.
Lemma outcome_range v : Outcome_ordinal v ≤ 7.
Proof. by destruct v. Qed.
Lemma delta_range v : IncumbentDelta_ordinal v ≤ 3.
Proof. by destruct v. Qed.
Lemma phase_range v : AttemptPhase_ordinal v ≤ 4.
Proof. by destruct v. Qed.
#[export] Hint Resolve reason_range flag_range outcome_range delta_range phase_range : codec.

Lemma ReadKey_inverts : ∀ v, key_fits v → inverts ReadKey WriteKey v.
Proof. invert WriteKey ReadKey key_fits. Qed.

Lemma inverts_keys max_count l :
  counted max_count key_fits l →
  reads (read_counted max_count ReadKey) (bytes_of (write_counted WriteKey l)) l.
Proof. apply inverts_counted; [apply _|apply ReadKey_inverts]. Qed.
#[export] Hint Resolve inverts_keys : codec.

Lemma ReadRanked_inverts limits :
  ∀ v, ranked_fits limits v → inverts (ReadRanked limits) WriteRanked v.
Proof. invert WriteRanked ReadRanked ranked_fits. Qed.

Lemma ReadSummary_inverts limits :
  ∀ v, summary_fits limits v → inverts (ReadSummary limits) WriteSummary v.
Proof.
  intros v [Hc Hs]. pose proof (inverts_ids _ _ Hs) as Hids. unfold ReadIdVector in Hids.
  parts WriteSummary. unfold ReadSummary. repeat field.
  apply reads_ret_eq. rewrite ExclusionReason_of_ordinal. by destruct v.
Qed.

Lemma ReadFlag_inverts v : inverts ReadFlag WriteFlag v.
Proof.
  change (bytes_of (WriteFlag v)) with (bytes_of (wU8 (DegradationFlag_ordinal v))).
  eapply reads_bind_ret; [eauto with codec|]. apply reads_ret_eq, DegradationFlag_of_ordinal.
Qed.

Lemma ReadBinding_inverts limits :
  ∀ v, binding_fits limits v → inverts (ReadBinding limits) WriteBinding v.
Proof.
  intros v H. unfold binding_fits in H. open_fits. parts WriteBinding. unfold ReadBinding.
  repeat field. apply reads_ret_eq. rewrite ExclusionReason_of_ordinal. by destruct v.
Qed.

Section Lists.
Context (limits : Limits).

Lemma inverts_ranked l :
  counted (max_ranked_explained limits) (ranked_fits limits) l →
  reads (read_counted (max_ranked_explained limits) (ReadRanked limits))
    (bytes_of (write_counted WriteRanked l)) l.
Proof. apply inverts_counted; [apply _|apply ReadRanked_inverts]. Qed.

Lemma inverts_summaries l :
  counted (max_exclusion_reasons limits) (summary_fits limits) l →
  reads (read_counted (max_exclusion_reasons limits) (ReadSummary limits))
    (bytes_of (write_counted WriteSummary l)) l.
Proof. apply inverts_counted; [apply _|apply ReadSummary_inverts]. Qed.

Lemma inverts_flags l :
  counted 9 (λ _, True) l →
  reads (read_counted 9 ReadFlag) (bytes_of (write_counted WriteFlag l)) l.
Proof. apply inverts_counted; [apply _|]. intros v _. apply ReadFlag_inverts. Qed.

Lemma inverts_bindings l :
  counted 32 (binding_fits limits) l →
  reads (read_counted 32 (ReadBinding limits)) (bytes_of (write_counted WriteBinding l)) l.
Proof. apply inverts_counted; [apply _|apply ReadBinding_inverts]. Qed.

Lemma inverts_notes max_length l :
  counted kMaxNotesOnDecode (text_fits max_length) l →
  reads (read_counted kMaxNotesOnDecode (rString max_length)) (bytes_of (write_counted wString l)) l.
Proof. apply inverts_counted; [apply _|]. intros v []. by apply reads_wString. Qed.
End Lists.
#[export] Hint Resolve inverts_ranked inverts_summaries inverts_flags inverts_bindings
  inverts_notes : codec.

Lemma ReadExplanation_inverts limits :
  ∀ v, explanation_fits limits v → inverts (ReadExplanation limits) WriteExplanation v.
Proof. invert WriteExplanation ReadExplanation explanation_fits. Qed.
#[export] Hint Resolve ReadExplanation_inverts : codec.

(** *** Decoders *)

(** [decodes m bs a]: on any buffer that continues with [bs] the decoder
    succeeds with [a] and leaves the reader just after [bs]; [decodes_all] says
    that it does so where the buffer ends with [bs]. *)
Definition decodes {A} (m : Decoder A) (bs : list N) (a : A) : Prop :=
  ∀ r rest, bytes_left r = bs ++ rest → m r = Value (a, advance (length bs) r).

Definition decodes_all {A} (m : Decoder A) (bs : list N) (a : A) : Prop :=
  ∀ pre, m (mkReader (pre ++ bs) (length pre)) =
         Value (a, mkReader (pre ++ bs) (length (pre ++ bs))).

Lemma decodes_ret {A} (a b : A) : a = b → decodes (mret a) [] b.
Proof. intros -> r rest _. cbn. by rewrite advance_0. Qed.

Lemma decodes_bind {A B} (m : Decoder A) (k : A → Decoder B) bs1 bs2 a b :
  decodes m bs1 a → decodes (k a) bs2 b → decodes (m ≫= k) (bs1 ++ bs2) b.
Proof.
  intros Hm Hk r rest Hr. rewrite <-app_assoc in Hr.
  unfold mbind, Decoder_bind. rewrite (Hm _ _ Hr), (Hk _ _ (bytes_left_advance _ _ _ Hr)).
  by rewrite advance_advance, length_app.
Qed.

Lemma decodes_bind_ret {A B} (m : Decoder A) (k : A → Decoder B) bs a b :
  decodes m bs a → decodes (k a) [] b → decodes (m ≫= k) bs b.
Proof. intros Hm Hk. rewrite <-(app_nil_r bs). by eapply decodes_bind. Qed.

Lemma decodes_expect {A} code message (m : Reader A) bs a :
  reads m bs a → decodes (expect code message m) bs a.
Proof. intros Hm r rest Hr. unfold expect. by rewrite (Hm _ _ Hr). Qed.

Lemma decodes_ensure {B} ok code message (k : unit → Decoder B) bs b :
  ok = true → decodes (k tt) bs b → decodes (ensure ok code message ≫= k) bs b.
Proof. intros -> Hk r rest Hr. cbn. by apply (Hk r rest). Qed.

Lemma decodes_at {A} (m : Decoder A) bs1 bs2 a pre :
  decodes m bs1 a →
  m (mkReader (pre ++ bs1 ++ bs2) (length pre)) =
  Value (a, mkReader ((pre ++ bs1) ++ bs2) (length (pre ++ bs1))).
Proof.
  intros Hm. rewrite (Hm _ bs2) by apply drop_app_length.
  unfold advance. cbn. by rewrite <-app_assoc, length_app.
Qed.

Lemma decodes_all_bind {A B} (m : Decoder A) (k : A → Decoder B) bs1 bs2 a b :
  decodes m bs1 a → decodes_all (k a) bs2 b → decodes_all (m ≫= k) (bs1 ++ bs2) b.
Proof.
  intros Hm Hk pre. unfold mbind, Decoder_bind. rewrite (decodes_at m bs1 bs2 a pre Hm), Hk.
  by rewrite <-app_assoc.
Qed.

(** The last field, then the end of the payload. *)
Lemma decodes_all_end {A B} (m : Decoder A) (k : A → Decoder B) bs a b code message :
  decodes m bs a → (k a = (_ ← expect_end code message; mret b)) →
  decodes_all (m ≫= k) bs b.
Proof.
  intros Hm Hk pre. unfold mbind, Decoder_bind.
  pose proof (decodes_at m bs [] a pre Hm) as H. rewrite !app_nil_r in H.
  rewrite H, Hk. unfold mbind, Decoder_bind, expect_end, AtEnd. cbn [rd_offset rd_data].
  by rewrite Nat.eqb_refl.
Qed.

(** A whole buffer. *)
Lemma decodes_all_run {A} (m : Decoder A) bs a :
  decodes_all m bs a → m (mkReader bs 0) = Value (a, mkReader bs (length bs)).
Proof. intros H. exact (H []). Qed.

Lemma decodes_each {A} (m : Decoder A) (enc : A → list N) l :
  (∀ x, x ∈ l → decodes m (enc x) x) →
  decodes (decode_each (length l) m) (mjoin (enc <$> l)) l.
Proof.
  induction l as [|x l IH]; intros H; cbn; [by apply decodes_ret|].
  eapply decodes_bind; [apply H; left|]. eapply decodes_bind_ret; [|by apply decodes_ret].
  apply IH. intros y Hy. apply H. by right.
Qed.

Lemma decodes_counted {A} (m : Decoder A) write (P : A → Prop) max_count truncated oversize l :
  Appends write → (∀ x, P x → decodes m (bytes_of (write x)) x) → counted max_count P l →
  decodes (decode_counted max_count truncated oversize m) (bytes_of (write_counted write l)) l.
Proof.
  intros Ha Hx (Hs & Hm & Hl). unfold bytes_of, write_counted.
  rewrite (appends (write := write_each write)), (appends (write := wU32)), app_nil_l.
  rewrite (wrap_small 32) by done.
  eapply decodes_bind; [by apply decodes_expect, reads_wU32|]. apply decodes_ensure; [b2p; lia|].
  unfold size. rewrite Nat2N.id. unfold bytes_of at 1.
  rewrite (write_each_app write (λ x, bytes_of (write x)) l []) by (intros; apply appends).
  apply decodes_each. rewrite Forall_forall in Hl. auto.
Qed.

Ltac decode_field := first
  [ eapply decodes_bind; [solve [apply decodes_expect; eauto with codec|eauto with codec]|]
  | eapply decodes_bind_ret; [solve [apply decodes_expect; eauto with codec|eauto with codec]|] ].

(** Proves that a record decoder inverts its writer. *)
Ltac invert_decoder write decode fits :=
  let v := fresh "v" in let H := fresh "H" in
  intros v H; unfold fits in H; open_fits; parts write; unfold decode;
  repeat decode_field; apply decodes_ret; destruct v; cbn in *; congruence.

(** *** The request *)

Definition attributes_fit (limits : Limits) (v : PathAttributes) : Prop :=
  tier_fits (attr_tier v) ∧
  enumerator LocalityScope_ordinal LocalityScope_cast 4 (attr_locality_scope v) ∧
  Forall u64_fits [attr_locality v; attr_failure_domain v; attr_cost_micro v;
    attr_latency_nanos v] ∧
  u16_fits (attr_hop_count v) ∧
  counted (clamp32 (max_path_labels limits)) u64_fits (attr_labels v) ∧
  counted (max_path_reservations limits) reservation_fits (attr_reservations v).

Definition path_fits (limits : Limits) (v : CandidatePath) : Prop :=
  Forall u64_fits [path_id v; path_authority v] ∧ attributes_fit limits (path_attributes v).

Definition capacity_fits (v : PathCapacity) : Prop :=
  Forall u64_fits [cap_path v; cap_capacity_bytes v; cap_residual_bytes v].

Definition evidence_fits (v : CongestionEvidenceEntry) : Prop :=
  u64_fits (ev_path v) ∧ ev_utilization_ppb v ≤ 1000000000.

Lemma DecodePath_inverts limits :
  ∀ v, path_fits limits v → decodes (DecodePath limits) (bytes_of (WritePath v)) v.
Proof.
  intros v [H (Ht & Hs & Hf & Hh & Hl & Hr)]. unfold tier_fits in Ht. open_fits.
  parts WritePath. unfold bytes_of at 3. unfold WriteAttributes.
  autorewrite with enc. rewrite ?app_nil_l, <-?app_assoc. unfold DecodePath.
  repeat decode_field. eapply decodes_bind_ret.
  - apply (decodes_counted _ WriteReservation reservation_fits); [apply _| |done].
    intros ref Href. apply decodes_expect. by apply ReadReservation_inverts.
  - apply decodes_ret. destruct v as [id authority a]; destruct a; cbn in *. congruence.
Qed.

Lemma DecodeCapacity_inverts :
  ∀ v, capacity_fits v → decodes DecodeCapacity (bytes_of (WriteCapacity v)) v.
Proof. invert_decoder WriteCapacity DecodeCapacity capacity_fits. Qed.

Lemma DecodeEvidence_inverts :
  ∀ v, evidence_fits v → decodes DecodeEvidence (bytes_of (WriteEvidence v)) v.
Proof.
  intros v [Hp Hu]. parts WriteEvidence. unfold DecodeEvidence. decode_field.
  eapply decodes_bind_ret.
  - apply decodes_expect, reads_wU32. unfold uint_fits. change (2 ^ 32) with 4294967296. lia.
  - apply decodes_ensure; [b2p; lia|]. apply decodes_ret. by destruct v.
Qed.

Definition set_fits (limits : Limits) (v : CandidateSet) : Prop :=
  Forall u64_fits [set_id v; set_generation v] ∧
  counted (max_candidate_paths limits) (path_fits limits) (set_paths v).

Definition snapshot_fits (limits : Limits) (v : CapacitySnapshot) : Prop :=
  Forall u64_fits [snap_id v; snap_generation v] ∧
  counted (max_capacity_entries limits) capacity_fits (snap_entries v).

Definition qos_fits (v : QosProfile) : Prop :=
  Forall u64_fits [qos_id v; qos_generation v; qos_required_residual_bytes v;
    qos_max_latency_nanos v] ∧
  enumerator ServiceClass_ordinal ServiceClass_cast 3 (qos_service_class v) ∧
  enumerator PriorityClass_ordinal PriorityClass_cast 3 (qos_priority v).

Definition bundle_fits (limits : Limits) (v : EvidenceBundle) : Prop :=
  Forall u64_fits [bundle_id v; bundle_generation v] ∧
  counted (max_evidence_entries limits) evidence_fits (bundle_entries v).

Definition request_fits (limits : Limits) (v : PlacementRequest) : Prop :=
  Forall u64_fits [rq_flow v; rq_flow_generation v; rq_attempt v] ∧
  set_fits limits (rq_candidates v) ∧ snapshot_fits limits (rq_capacity v) ∧
  qos_fits (rq_qos v) ∧ bundle_fits limits (rq_evidence v) ∧ policy_fits limits (rq_policy v) ∧
  from_option incumbent_fits True (rq_incumbent v) ∧
  counted (clamp32 (max_occupied_failure_domains limits)) u64_fits
    (rq_occupied_failure_domains v) ∧
  expectation_fits (rq_expected v) ∧ provenance_fits (rq_provenance v).

(** The pieces of a request that the encoder writes inline. *)
Definition WriteSet (v : CandidateSet) (w : ByteWriter) : ByteWriter :=
  w |> wU64 (set_id v) |> wU64 (set_generation v) |> write_counted WritePath (set_paths v).
Definition WriteSnapshot (v : CapacitySnapshot) (w : ByteWriter) : ByteWriter :=
  w |> wU64 (snap_id v) |> wU64 (snap_generation v)
    |> write_counted WriteCapacity (snap_entries v).
Definition WriteQos (v : QosProfile) (w : ByteWriter) : ByteWriter :=
  w |> wU64 (qos_id v)
    |> wU64 (qos_generation v)
    |> wU8 (ServiceClass_ordinal (qos_service_class v))
    |> wU8 (PriorityClass_ordinal (qos_priority v))
    |> wU64 (qos_required_residual_bytes v)
    |> wU64 (qos_max_latency_nanos v).
Definition WriteBundle (v : EvidenceBundle) (w : ByteWriter) : ByteWriter :=
  w |> wU64 (bundle_id v) |> wU64 (bundle_generation v)
    |> write_counted WriteEvidence (bundle_entries v).

#[local] Instance WriteSet_appends : Appends WriteSet.
Proof. encode WriteSet. Qed.
#[local] Instance WriteSnapshot_appends : Appends WriteSnapshot.
Proof. encode WriteSnapshot. Qed.
#[local] Instance WriteQos_appends : Appends WriteQos.
Proof. encode WriteQos. Qed.
#[local] Instance WriteBundle_appends : Appends WriteBundle.
Proof. encode WriteBundle. Qed.

Lemma EncodeRequest_parts v w :
  EncodeRequest v w =
  w |> wU64 (rq_flow v)
    |> wU64 (rq_flow_generation v)
    |> WriteSet (rq_candidates v)
    |> WriteSnapshot (rq_capacity v)
    |> WriteQos (rq_qos v)
    |> WriteBundle (rq_evidence v)
    |> WritePolicy (rq_policy v)
    |> WriteOptionalIncumbent (rq_incumbent v)
    |> WriteIdVector (rq_occupied_failure_domains v)
    |> WriteExpected (rq_expected v)
    |> WriteProvenance (rq_provenance v)
    |> wU64 (rq_attempt v).
Proof. reflexivity. Qed.

Lemma DecodeCandidateSet_inverts limits :
  ∀ v, set_fits limits v → decodes (DecodeCandidateSet limits) (bytes_of (WriteSet v)) v.
Proof.
  intros v [H Hp]. open_fits. parts WriteSet. unfold DecodeCandidateSet. repeat decode_field.
  eapply decodes_bind_ret; [apply (decodes_counted _ _ (path_fits limits)); [apply _|apply DecodePath_inverts|done]|].
  apply decodes_ret. by destruct v.
Qed.

Lemma DecodeSnapshot_inverts limits :
  ∀ v, snapshot_fits limits v → decodes (DecodeSnapshot limits) (bytes_of (WriteSnapshot v)) v.
Proof.
  intros v [H Hp]. open_fits. parts WriteSnapshot. unfold DecodeSnapshot. repeat decode_field.
  eapply decodes_bind_ret; [apply (decodes_counted _ _ capacity_fits); [apply _|apply DecodeCapacity_inverts|done]|].
  apply decodes_ret. by destruct v.
Qed.

Lemma DecodeQos_inverts : ∀ v, qos_fits v → decodes DecodeQos (bytes_of (WriteQos v)) v.
Proof. invert_decoder WriteQos DecodeQos qos_fits. Qed.

Lemma DecodeBundle_inverts limits :
  ∀ v, bundle_fits limits v → decodes (DecodeBundle limits) (bytes_of (WriteBundle v)) v.
Proof.
  intros v [H Hp]. open_fits. parts WriteBundle. unfold DecodeBundle. repeat decode_field.
  eapply decodes_bind_ret; [apply (decodes_counted _ _ evidence_fits); [apply _|apply DecodeEvidence_inverts|done]|].
  apply decodes_ret. by destruct v.
Qed.

Lemma decodes_option {A} flag_message message (read : Reader A) bs (v : option A) :
  (∀ a, v = Some a → reads read bs a) → (v = None → bs = []) →
  decodes (DecodeOptional flag_message message read)
    (bytes_of (wFlag (match v with Some _ => true | None => false end)) ++ bs) v.
Proof.
  intros Hs Hn. unfold DecodeOptional. destruct v as [a|].
  - eapply decodes_bind; [apply decodes_expect, inverts_flag|]. cbv iota.
    eapply decodes_bind_ret; [by apply decodes_expect, Hs|by apply decodes_ret].
  - rewrite Hn, app_nil_r by done.
    eapply decodes_bind_ret; [apply decodes_expect, inverts_flag|]. by apply decodes_ret.
Qed.

Lemma decodes_incumbent v :
  from_option incumbent_fits True v →
  decodes (DecodeOptional "truncated incumbent flag" "truncated incumbent" ReadIncumbent)
    (bytes_of (WriteOptionalIncumbent v)) v.
Proof.
  intros Hv. unfold bytes_of, WriteOptionalIncumbent.
  destruct v as [i|]; cbn in Hv; autorewrite with enc; rewrite app_nil_l.
  - apply (decodes_option _ _ _ _ (Some i)); [|done]. intros ? [= <-]. by apply ReadIncumbent_inverts.
  - rewrite <-(app_nil_r (bytes_of _)). by apply (decodes_option _ _ _ [] (@None IncumbentPlacement)).
Qed.

Lemma decodes_intent v :
  from_option intent_fits True v →
  decodes (DecodeOptional "truncated intent flag" "truncated intent" ReadIntent)
    (bytes_of (WriteOptionalIntent v)) v.
Proof.
  intros Hv. unfold bytes_of, WriteOptionalIntent.
  destruct v as [i|]; cbn in Hv; autorewrite with enc; rewrite app_nil_l.
  - apply (decodes_option _ _ _ _ (Some i)); [|done]. intros ? [= <-]. by apply ReadIntent_inverts.
  - rewrite <-(app_nil_r (bytes_of _)). by apply (decodes_option _ _ _ [] (@None PlacementIntent)).
Qed.
#[export] Hint Resolve DecodeCandidateSet_inverts DecodeSnapshot_inverts DecodeQos_inverts
  DecodeBundle_inverts decodes_incumbent decodes_intent : codec.
#[local] Hint Rewrite (appends (write := WriteSet)) (appends (write := WriteSnapshot))
  (appends (write := WriteQos)) (appends (write := WriteBundle)) : enc.

Ltac decode_all_field :=
  eapply decodes_all_bind; [solve [apply decodes_expect; eauto with codec|eauto with codec]|].

Lemma DecodeRequest_inverts limits v :
  request_fits limits v → decodes_all (DecodeRequest limits) (bytes_of (EncodeRequest v)) v.
Proof.
  intros H. unfold request_fits in H. open_fits. unfold bytes_of at 1.
  rewrite EncodeRequest_parts. autorewrite with enc. rewrite ?app_nil_l, <-?app_assoc.
  unfold DecodeRequest. do 11 decode_all_field.
  eapply decodes_all_end; [apply decodes_expect; eauto with codec|]. by destruct v.
Qed.

(** *** Decisions and records *)

Definition decision_fits (limits : Limits) (v : PlacementDecision) : Prop :=
  from_option intent_fits True (dec_intent v) ∧ authority_fits (dec_authority v) ∧
  explanation_fits limits (dec_explanation v) ∧ digest_fits (dec_digest v) ∧
  text_fits kMaxMessageLength (status_message (dec_validation v)).

Lemma decodes_code failure truncated unknown c :
  decodes (DecodeCode failure truncated unknown) (bytes_of (wU16 (code_value c))) c.
Proof.
  unfold DecodeCode. eapply decodes_bind_ret; [apply decodes_expect, reads_wU16, code_value_fits|].
  apply decodes_ensure; [by rewrite IsKnownStatusCode_value|].
  apply decodes_ret, StatusCode_of_value.
Qed.
#[export] Hint Resolve decodes_code : codec.

Lemma DecodeDecision_inverts limits v :
  decision_fits limits v → decodes_all (DecodeDecision limits) (bytes_of (EncodeDecision v)) v.
Proof.
  intros H. unfold decision_fits in H. open_fits. unfold bytes_of at 1. unfold EncodeDecision.
  autorewrite with enc. rewrite ?app_nil_l, <-?app_assoc.
  unfold DecodeDecision. do 8 decode_all_field.
  eapply decodes_all_end; [apply decodes_expect; eauto with codec|].
  rewrite Outcome_of_ordinal, IncumbentDelta_of_ordinal. by destruct v as [? ? ? ? ? ? ? []].
Qed.

Definition attempt_fits (v : AttemptRecord) : Prop :=
  Forall u64_fits [at_attempt v; at_incarnation v; at_epoch v; at_flow v; at_sequence v] ∧
  digest_fits (at_request_digest v) ∧ i64_fits (at_observed_unix_nanos v).

Lemma DecodeAttemptRecord_inverts :
  ∀ v, attempt_fits v → decodes DecodeAttemptRecord (bytes_of (EncodeAttemptRecord v)) v.
Proof.
  intros v H. unfold attempt_fits in H. open_fits. parts EncodeAttemptRecord.
  unfold DecodeAttemptRecord, corrupt. repeat decode_field.
  apply decodes_ret. rewrite AttemptPhase_of_ordinal. by destruct v.
Qed.

Definition placement_fits (v : PlacementRecord) : Prop :=
  Forall u64_fits [pl_id v; pl_generation v; pl_committed_by v; pl_commit_epoch v;
    pl_sequence v; pl_supersedes_generation v] ∧
  intent_fits (pl_intent v) ∧ digest_fits (pl_decision_digest v) ∧
  i64_fits (pl_commit_unix_nanos v).

(** The recovery annotation is set, not stored. *)
Definition unvalidated (v : PlacementRecord) : PlacementRecord :=
  mkPlacement (pl_id v) (pl_generation v) (pl_intent v) (pl_delta v) (pl_decision_digest v)
    (pl_committed_by v) (pl_commit_epoch v) (pl_sequence v) (pl_supersedes_generation v)
    (pl_commit_unix_nanos v) true.

Lemma DecodePlacementRecord_inverts v :
  placement_fits v →
  decodes DecodePlacementRecord (bytes_of (EncodePlacementRecord v)) (unvalidated v).
Proof.
  intros H. unfold placement_fits in H. open_fits. parts EncodePlacementRecord.
  unfold DecodePlacementRecord, corrupt. repeat decode_field.
  apply decodes_ret. rewrite IncumbentDelta_of_ordinal. by destruct v.
Qed.

Lemma DecodePlacementRecord_inverts_revalidated v :
  placement_fits v ∧ pl_requires_revalidation v = true →
  decodes DecodePlacementRecord (bytes_of (EncodePlacementRecord v)) v.
Proof.
  intros [Hv Hr]. pose proof (DecodePlacementRecord_inverts v Hv) as H.
  assert (unvalidated v = v) as E by (destruct v; cbn in *; by rewrite Hr). by rewrite E in H.
Qed.

Definition report_fits (v : RecoveryReport) : Prop :=
  Forall u64_fits [rep_bytes_discarded v; rep_records_valid v; rep_placements_total v;
    rep_attempts_total v; rep_committed_attempts v; rep_rejected_attempts v;
    rep_cancelled_attempts v; rep_fenced_attempts v; rep_unfinished_attempts v;
    rep_superseded_placements v; rep_placements_requiring_revalidation v;
    rep_retired_attempts v; rep_max_sequence v; rep_last_epoch v; rep_last_incarnation v] ∧
  counted 1000000 (λ p, placement_fits p ∧ pl_requires_revalidation p = true)
    (rep_latest_by_flow v) ∧
  counted 1000000 attempt_fits (rep_unfinished v) ∧
  text_fits kMaxMessageLength (rep_detail v).

Lemma decodes_placements truncated oversize l :
  counted 1000000 (λ p, placement_fits p ∧ pl_requires_revalidation p = true) l →
  decodes (decode_counted 1000000 truncated oversize DecodePlacementRecord)
    (bytes_of (write_counted EncodePlacementRecord l)) l.
Proof. apply decodes_counted; [apply _|apply DecodePlacementRecord_inverts_revalidated]. Qed.

Lemma decodes_attempts truncated oversize l :
  counted 1000000 attempt_fits l →
  decodes (decode_counted 1000000 truncated oversize DecodeAttemptRecord)
    (bytes_of (write_counted EncodeAttemptRecord l)) l.
Proof. apply decodes_counted; [apply _|apply DecodeAttemptRecord_inverts]. Qed.
#[export] Hint Resolve decodes_placements decodes_attempts : codec.

Lemma DecodeRecoveryReport_inverts v :
  report_fits v → decodes_all DecodeRecoveryReport (bytes_of (EncodeRecoveryReport v)) v.
Proof.
  intros H. unfold report_fits in H. open_fits. unfold bytes_of at 1. unfold EncodeRecoveryReport.
  autorewrite with enc. rewrite ?app_nil_l, <-?app_assoc.
  unfold DecodeRecoveryReport. do 20 decode_all_field.
  eapply decodes_all_end; [apply decodes_expect; eauto with codec|]. by destruct v.
Qed.

Lemma DecodeIntent_inverts v :
  intent_fits v → decodes_all DecodeIntent (bytes_of (EncodeIntent v)) v.
Proof.
  intros H. unfold DecodeIntent. eapply decodes_all_end; [|done].
  by apply decodes_expect, ReadIntent_inverts.
Qed.

Lemma DecodeAuthorityVector_inverts v :
  authority_fits v → decodes_all DecodeAuthorityVector (bytes_of (EncodeAuthorityVector v)) v.
Proof.
  intros H. unfold DecodeAuthorityVector. eapply decodes_all_end; [|done].
  by apply decodes_expect, ReadAuthorityVector_inverts.
Qed.

Lemma DecodeAuthorityExpectation_inverts v :
  expectation_fits v →
  decodes_all DecodeAuthorityExpectation (bytes_of (EncodeAuthorityExpectation v)) v.
Proof.
  intros H. unfold DecodeAuthorityExpectation. eapply decodes_all_end; [|done].
  by apply decodes_expect, ReadExpected_inverts.
Qed.
