(* ===== verification/CodecExact.v ===== *)
(** * What the decoders accept

    The converse of [CodecFacts]: on any buffer of bytes, hostile ones included,
    a reader that succeeds has consumed a prefix of what was left, the value it
    returns respects the limits, and — except for the optional identifiers of a
    policy — that prefix is the encoding of the value. *)

From Stdlib Require Import String Ascii.
From S2P Require Import Prelude StdAlgo Checked Status Bytes Hash Model Explain Records Codec.
From S2P Require Import CodecFacts.

(** [consumes m Q]: whenever [m] succeeds on a buffer of bytes it has taken some
    bytes [bs] of what was left, and [Q bs a] holds of its result. *)
Definition consumes {A} (m : Reader A) (Q : list N → A → Prop) : Prop :=
  ∀ r a r', Forall u8_fits (rd_data r) → m r = Some (a, r') →
    ∃ bs rest, bytes_left r = bs ++ rest ∧ r' = advance (length bs) r ∧ Q bs a.

(** The reader that forgets a decoder's status. *)
Definition ok_of {A} (m : Decoder A) : Reader A := λ r,
  match m r with Value p => Some p | Error _ => None end.

Lemma consumes_weaken {A} (m : Reader A) (Q Q' : list N → A → Prop) :
  consumes m Q → (∀ bs a, Q bs a → Q' bs a) → consumes m Q'.
Proof.
  intros Hm HQ r a r' Hr Hs. destruct (Hm r a r' Hr Hs) as (bs & rest & ? & ? & ?). eauto 10.
Qed.

Lemma consumes_ret {A} (a : A) (Q : list N → A → Prop) : Q [] a → consumes (mret a) Q.
Proof. intros HQ r b r' _ [= <- <-]. exists [], (bytes_left r). by rewrite advance_0. Qed.

Lemma consumes_bind {A B} (m : Reader A) (k : A → Reader B) Q1 (Q : list N → B → Prop) :
  consumes m Q1 → (∀ bs1 a, Q1 bs1 a → consumes (k a) (λ bs2 b, Q (bs1 ++ bs2) b)) →
  consumes (m ≫= k) Q.
Proof.
  intros Hm Hk r b r' Hr Hs. unfold mbind, Reader_bind in Hs.
  destruct (m r) as [[a r1]|] eqn:E; [|done].
  destruct (Hm r a r1 Hr E) as (bs1 & rest1 & Hl & -> & HQ1).
  destruct (Hk bs1 a HQ1 (advance (length bs1) r) b r' Hr Hs) as (bs2 & rest2 & Hl2 & -> & HQ).
  exists (bs1 ++ bs2), rest2. rewrite (bytes_left_advance r bs1 rest1 Hl) in Hl2. subst rest1.
  rewrite advance_advance, length_app, <-app_assoc. done.
Qed.

Lemma consumes_require {B} ok (k : unit → Reader B) Q :
  (ok = true → consumes (k tt) Q) → consumes (rd_require ok ≫= k) Q.
Proof.
  intros Hk r b r' Hr Hs. unfold mbind, Reader_bind, rd_require in Hs.
  destruct ok; [|done]. by apply (Hk eq_refl r b r').
Qed.

(** ** Decoders *)

Lemma accepts_ret {A} (a : A) (Q : list N → A → Prop) : Q [] a → consumes (ok_of (mret a)) Q.
Proof. apply consumes_ret. Qed.

Lemma accepts_bind {A B} (m : Decoder A) (k : A → Decoder B) Q1 (Q : list N → B → Prop) :
  consumes (ok_of m) Q1 →
  (∀ bs1 a, Q1 bs1 a → consumes (ok_of (k a)) (λ bs2 b, Q (bs1 ++ bs2) b)) →
  consumes (ok_of (m ≫= k)) Q.
Proof.
  intros Hm Hk r b r' Hr Hs. apply (consumes_bind (ok_of m) (λ a, ok_of (k a)) Q1 Q Hm Hk r b r' Hr).
  unfold ok_of, mbind, Decoder_bind, Reader_bind in *. by destruct (m r) as [[a r1]|].
Qed.

Lemma accepts_expect {A} code message (m : Reader A) Q :
  consumes m Q → consumes (ok_of (expect code message m)) Q.
Proof.
  intros Hm r a r' Hr Hs. apply (Hm r a r' Hr). unfold ok_of, expect in Hs. by destruct (m r).
Qed.

Lemma accepts_ensure {B} ok code message (k : unit → Decoder B) Q :
  (ok = true → consumes (ok_of (k tt)) Q) → consumes (ok_of (ensure ok code message ≫= k)) Q.
Proof.
  intros Hk r b r' Hr Hs. unfold ok_of, mbind, Decoder_bind, ensure in Hs.
  destruct ok; [|done]. by apply (Hk eq_refl r b r').
Qed.

Lemma accepts_end {B} code message (k : unit → Decoder B) Q :
  consumes (ok_of (k tt)) Q → consumes (ok_of (expect_end code message ≫= k)) Q.
Proof.
  intros Hk r b r' Hr Hs. unfold ok_of, mbind, Decoder_bind, expect_end in Hs.
  destruct (AtEnd r); [|done]. by apply (Hk r b r').
Qed.

(** ** Primitive readers *)

(** [read] accepts exactly the encodings by [write] of the values that satisfy
    [P]. *)
Abbreviation exactly read write P :=
  (consumes read (λ bs a, bs = bytes_of (write a) ∧ P a)) (only parsing).

Lemma le_bytes_value bs : Forall u8_fits bs → le_bytes (length bs) (le_value bs) = bs.
Proof.
  induction 1 as [|b bs Hb Hbs IH]; [done|]. cbn [length le_value]. unfold uint_fits in Hb.
  change (2 ^ 8) with 256 in Hb. rewrite le_bytes_S, land_255, N.shiftr_div_pow2.
  change (2 ^ 8) with 256. rewrite (N.mul_comm 256), N.Div0.mod_add, N.mod_small by done.
  rewrite N.div_add, N.div_small by done. by rewrite N.add_0_l, IH.
Qed.

Lemma prefix_u8 r bs rest :
  Forall u8_fits (rd_data r) → bytes_left r = bs ++ rest → Forall u8_fits bs.
Proof.
  intros Hr Hl. assert (Forall u8_fits (bs ++ rest)) as H.
  { rewrite <-Hl. unfold bytes_left. by apply Forall_drop. }
  by apply Forall_app in H as [H _].
Qed.

Lemma take_left r n :
  (remaining r <? n)%nat = false →
  bytes_left r = take n (bytes_left r) ++ drop n (bytes_left r) ∧
  length (take n (bytes_left r)) = n.
Proof.
  intros Hn%Nat.ltb_ge. rewrite remaining_bytes_left in Hn.
  rewrite take_drop, length_take. split; [done|lia].
Qed.

Lemma consumes_le n r :
  Forall u8_fits (rd_data r) → (remaining r <? n)%nat = false →
  ∃ bs rest, bytes_left r = bs ++ rest ∧ length bs = n ∧
    uint_fits (8 * N.of_nat n) (le_combine n (rd_data r) (rd_offset r)) ∧
    bs = le_bytes n (le_combine n (rd_data r) (rd_offset r)).
Proof.
  intros Hr Hn. destruct (take_left r n Hn) as [Hl Hlen].
  pose proof (prefix_u8 _ _ _ Hr Hl) as Hu.
  pose proof (le_combine_value n (rd_data r) (rd_offset r) _ Hu Hlen (ex_intro _ _ Hl)) as ->.
  exists (take n (bytes_left r)), (drop n (bytes_left r)). split; [done|]. split; [done|].
  pose proof (le_value_bound _ Hu) as Hv. rewrite Hlen in Hv. split; [done|].
  pose proof (le_bytes_value _ Hu) as H. by rewrite Hlen in H.
Qed.

Lemma consumes_u8 : exactly rU8 wU8 u8_fits.
Proof.
  intros r a r' Hr Hs. unfold rU8 in Hs. destruct (remaining r <? 1)%nat eqn:E; [done|].
  injection Hs as <- <-. destruct (take_left r 1 E) as [Hl Hlen].
  pose proof (prefix_u8 _ _ _ Hr Hl) as Hu.
  exists (take 1 (bytes_left r)), (drop 1 (bytes_left r)). rewrite Hlen. split; [done|]. split; [done|].
  destruct (take 1 (bytes_left r)) as [|b [|]] eqn:Et; try done.
  assert (nth (rd_offset r) (rd_data r) 0 = b) as ->.
  { apply nth_lookup_Some. unfold bytes_left in Hl.
    rewrite <-(Nat.add_0_r (rd_offset r)), <-lookup_drop, Hl. done. }
  apply Forall_cons in Hu as [Hb _]. split; [|done].
  change (bytes_of (wU8 b)) with [wrap 8 b]. by rewrite wrap_small.
Qed.

Lemma consumes_u32 : exactly rU32 wU32 u32_fits.
Proof.
  intros r a r' Hr Hs. unfold rU32 in Hs. destruct (remaining r <? 4)%nat eqn:E; [done|].
  injection Hs as <- <-. destruct (consumes_le 4 r Hr E) as (bs & rest & Hl & Hlen & Hf & Hb).
  exists bs, rest. by rewrite Hlen.
Qed.

Lemma consumes_u64 : exactly rU64 wU64 u64_fits.
Proof.
  intros r a r' Hr Hs. unfold rU64 in Hs. destruct (remaining r <? 8)%nat eqn:E; [done|].
  injection Hs as <- <-. destruct (consumes_le 8 r Hr E) as (bs & rest & Hl & Hlen & Hf & Hb).
  exists bs, rest. by rewrite Hlen.
Qed.

Lemma consumes_u16 : exactly rU16 wU16 u16_fits.
Proof.
  intros r a r' Hr Hs. unfold rU16 in Hs. destruct (remaining r <? 2)%nat eqn:E; [done|].
  injection Hs as <- <-. destruct (consumes_le 2 r Hr E) as (bs & rest & Hl & Hlen & Hf & Hb).
  exists bs, rest. rewrite Hlen. split; [done|]. split; [done|].
  unfold le_combine in Hf, Hb. cbn [seq fold_left] in Hf, Hb. rewrite Nat.add_0_r in Hf, Hb.
  cbn [N.of_nat] in Hf, Hb. rewrite N.lor_0_l, N.mul_0_r, N.shiftl_0_r in Hf, Hb. done.
Qed.


Lemma i64_of_u64_fits v : u64_fits v → i64_fits (i64_of_u64 v).
Proof.
  unfold uint_fits, i64_of_u64, i64_fits. change (2 ^ 64) with (Z.to_N (2 ^ 64)).
  change (2 ^ 63) with (Z.to_N (2 ^ 63)). intros Hv. destruct (N.ltb_spec v (Z.to_N (2 ^ 63))); lia.
Qed.

Lemma u64_of_i64_of_u64 v : u64_fits v → u64_of_i64 (i64_of_u64 v) = v.
Proof.
  unfold uint_fits, i64_of_u64, u64_of_i64. change (2 ^ 64) with (Z.to_N (2 ^ 64)).
  change (2 ^ 63) with (Z.to_N (2 ^ 63)). intros Hv.
  destruct (N.ltb_spec v (Z.to_N (2 ^ 63))).
  - rewrite Z.mod_small; lia.
  - replace (Z.of_N v - 2 ^ 64)%Z with (Z.of_N v + -1 * 2 ^ 64)%Z by lia.
    rewrite Z.mod_add, Z.mod_small; lia.
Qed.

Lemma consumes_i64 : exactly rI64 wI64 i64_fits.
Proof.
  eapply consumes_bind; [apply consumes_u64|]. intros bs1 raw [-> Hraw]. apply consumes_ret.
  split; [|by apply i64_of_u64_fits]. unfold wI64. by rewrite u64_of_i64_of_u64, app_nil_r.
Qed.

Lemma string_bytes_string bs : Forall u8_fits bs → string_bytes (bytes_string bs) = bs.
Proof.
  intros Hbs. unfold string_bytes, bytes_string.
  rewrite list_ascii_of_string_of_list_ascii, <-list_fmap_compose.
  induction Hbs as [|b bs Hb _ IH]; [done|]. cbn. f_equal; [|done].
  by apply N_ascii_embedding.
Qed.

Lemma consumes_bytes n :
  consumes (rBytes n) (λ bs a, a = bs ∧ length bs = n ∧ Forall u8_fits bs).
Proof.
  intros r a r' Hr Hs. unfold rBytes in Hs. destruct (remaining r <? n)%nat eqn:E; [done|].
  injection Hs as <- <-. destruct (take_left r n E) as [Hl Hlen].
  exists (take n (bytes_left r)), (drop n (bytes_left r)). rewrite Hlen.
  split; [done|]. split; [done|]. split; [done|]. split; [done|]. by eapply prefix_u8.
Qed.

Lemma consumes_string max : exactly (rString max) wString (text_fits max).
Proof.
  eapply consumes_bind; [apply consumes_u32|]. intros bs1 n [-> Hn].
  apply consumes_require. intros Hmax. b2p.
  eapply consumes_bind; [apply consumes_bytes|]. intros bs2 ? (-> & Hlen & Hu).
  apply consumes_ret. rewrite app_nil_r.
  assert (string_size (bytes_string bs2) = n) as Hsz.
  { rewrite <-string_bytes_length, string_bytes_string by done. lia. }
  unfold text_fits. rewrite Hsz. split; [|done]. unfold bytes_of.
  by rewrite wString_app, Hsz, string_bytes_string by (by rewrite ?Hsz).
Qed.

Lemma consumes_enum max_value :
  consumes (ReadEnumU8 max_value) (λ bs raw, bs = bytes_of (wU8 raw) ∧ raw ≤ max_value).
Proof.
  eapply consumes_bind; [apply consumes_u8|]. intros bs raw [-> Hraw].
  apply consumes_require. intros Hm. b2p. apply consumes_ret. by rewrite app_nil_r.
Qed.

Lemma consumes_flag : exactly ReadBool wFlag (λ _, True).
Proof.
  eapply consumes_bind; [apply consumes_u8|]. intros bs raw [-> Hraw].
  apply consumes_require. intros Hm. b2p. apply consumes_ret. rewrite app_nil_r. split; [|done].
  unfold wFlag. assert (raw = 0 ∨ raw = 1) as [-> | ->] by lia; done.
Qed.

(** An optional identifier may be encoded in two ways. *)
Lemma consumes_optional : consumes ReadOptionalId (λ _, u64_fits).
Proof.
  eapply consumes_bind; [apply consumes_u8|]. intros bs raw [-> Hraw].
  apply consumes_require. intros _. destruct (raw =? 0); [by apply consumes_ret|].
  eapply consumes_weaken; [apply consumes_u64|]. by intros ? ? [_ ?].
Qed.

(** ** Lists *)

Lemma consumes_each {A} (read : Reader A) write (P : A → Prop) n :
  exactly read write P →
  consumes (read_each n read)
    (λ bs l, bs = mjoin ((λ x, bytes_of (write x)) <$> l) ∧ length l = n ∧ Forall P l).
Proof.
  intros Hx. induction n as [|n IH]; [by apply consumes_ret|]. cbn [read_each].
  eapply consumes_bind; [apply Hx|]. intros bs1 x [-> HP].
  eapply consumes_bind; [apply IH|]. intros bs2 l (-> & Hl & Hf).
  apply consumes_ret. rewrite app_nil_r. cbn. by rewrite Hl, Forall_cons.
Qed.

Lemma write_counted_bytes {A} (write : A → ByteWriter → ByteWriter) l :
  Appends write → u32_fits (size l) →
  bytes_of (write_counted write l) =
  bytes_of (wU32 (size l)) ++ mjoin ((λ x, bytes_of (write x)) <$> l).
Proof.
  intros Hw Hl. unfold bytes_of, write_counted. rewrite (wrap_small 32) by done.
  apply (write_each_app write (λ x, bytes_of (write x))). intros. apply appends.
Qed.

Lemma consumes_counted {A} (read : Reader A) write (P : A → Prop) max_count :
  Appends write → exactly read write P →
  exactly (read_counted max_count read) (write_counted write) (counted max_count P).
Proof.
  intros Hw Hx. eapply consumes_bind; [apply consumes_u32|]. intros bs1 n [-> Hn].
  apply consumes_require. intros Hm. b2p.
  eapply consumes_weaken; [by apply (consumes_each _ write P)|].
  intros bs l (-> & Hl & Hf). assert (size l = n) as Hsz by (unfold size; lia).
  unfold counted. rewrite Hsz, write_counted_bytes by (by rewrite ?Hsz). by rewrite Hsz.
Qed.

Lemma accepts_each {A} (decode : Decoder A) write (P : A → Prop) n :
  exactly (ok_of decode) write P →
  consumes (ok_of (decode_each n decode))
    (λ bs l, bs = mjoin ((λ x, bytes_of (write x)) <$> l) ∧ length l = n ∧ Forall P l).
Proof.
  intros Hx. induction n as [|n IH]; [by apply accepts_ret|]. cbn [decode_each].
  eapply accepts_bind; [apply Hx|]. intros bs1 x [-> HP].
  eapply accepts_bind; [apply IH|]. intros bs2 l (-> & Hl & Hf).
  apply accepts_ret. rewrite app_nil_r. cbn. by rewrite Hl, Forall_cons.
Qed.

Lemma accepts_counted {A} (decode : Decoder A) write (P : A → Prop) max_count truncated oversize :
  Appends write → exactly (ok_of decode) write P →
  exactly (ok_of (decode_counted max_count truncated oversize decode)) (write_counted write)
    (counted max_count P).
Proof.
  intros Hw Hx. eapply accepts_bind; [apply accepts_expect, consumes_u32|]. intros bs1 n [-> Hn].
  apply accepts_ensure. intros Hm. b2p.
  eapply consumes_weaken; [by apply (accepts_each _ write P)|].
  intros bs l (-> & Hl & Hf). assert (size l = n) as Hsz by (unfold size; lia).
  unfold counted. rewrite Hsz, write_counted_bytes by (by rewrite ?Hsz). by rewrite Hsz.
Qed.

(** ** Records *)

#[local] Arguments bytes_of : simpl never.
#[local] Arguments value_optional : simpl never.

Create HintDb exact.
#[export] Hint Resolve consumes_u8 consumes_u16 consumes_u32 consumes_u64 consumes_i64
  consumes_string consumes_enum consumes_flag consumes_optional : exact.

Lemma tier_exact raw : raw ≤ 2 → tier_fits (PathTier_cast raw).
Proof. intros H. unfold tier_fits, enumerator. by rewrite PathTier_ordinal_cast. Qed.

(** Takes one field after another off the buffer. *)
Ltac take_field := first
  [ apply consumes_ret
  | apply consumes_require; let H := fresh "Hok" in intros H
  | eapply consumes_bind; [solve [eauto with exact]|]; cbv beta;
    let H := fresh "Hf" in intros ? ? H;
    lazymatch type of H with _ = _ ∧ _ => destruct H as [-> H] | _ => idtac end ].

Ltac accept_field := first
  [ apply accepts_ret
  | apply accepts_ensure; let H := fresh "Hok" in intros H
  | apply accepts_end
  | eapply accepts_bind; [solve [unfold malformed, corrupt; apply accepts_expect; eauto with exact|eauto with exact]|]; cbv beta;
    let H := fresh "Hf" in intros ? ? H;
    lazymatch type of H with _ = _ ∧ _ => destruct H as [-> H] | _ => idtac end ].

Create Rewrite HintDb ordinals.
#[export] Hint Rewrite ServiceClass_ordinal_cast PriorityClass_ordinal_cast PathTier_ordinal_cast
  LocalityScope_ordinal_cast ObjectiveKind_ordinal_cast Direction_ordinal_cast
  EvidencePolicyMode_ordinal_cast GateAction_ordinal_cast ChurnAction_ordinal_cast : ordinals.

(** The bytes taken are those of the record. *)
Ltac same_bytes write :=
  symmetry; parts write; cbn; autorewrite with ordinals; rewrite ?app_nil_r; reflexivity.

(** The fields of the record fit. *)
Ltac fields_fit fits :=
  unfold fits; cbn; unfold enumerator; autorewrite with ordinals; rewrite ?Forall_cons, ?Forall_nil;
  split_and?; solve [assumption | exact I | lia | eauto with exact | tauto].

Ltac exact_record write read fits :=
  unfold read; repeat take_field; split; [same_bytes write|fields_fit fits].

Lemma consumes_reservation : exactly ReadReservation WriteReservation reservation_fits.
Proof. exact_record WriteReservation ReadReservation reservation_fits. Qed.
Lemma consumes_digest : exactly ReadDigest WriteDigest digest_fits.
Proof. exact_record WriteDigest ReadDigest digest_fits. Qed.
Lemma consumes_expected : exactly ReadExpected WriteExpected expectation_fits.
Proof. exact_record WriteExpected ReadExpected expectation_fits. Qed.
Lemma consumes_provenance : exactly ReadProvenance WriteProvenance provenance_fits.
Proof. exact_record WriteProvenance ReadProvenance provenance_fits. Qed.
Lemma consumes_authority : exactly ReadAuthorityVector WriteAuthorityVector authority_fits.
Proof. exact_record WriteAuthorityVector ReadAuthorityVector authority_fits. Qed.
#[export] Hint Resolve consumes_reservation consumes_digest consumes_expected
  consumes_provenance consumes_authority : exact.

Lemma consumes_incumbent : exactly ReadIncumbent WriteIncumbent incumbent_fits.
Proof. exact_record WriteIncumbent ReadIncumbent incumbent_fits. Qed.
Lemma consumes_intent : exactly ReadIntent WriteIntent intent_fits.
Proof. exact_record WriteIntent ReadIntent intent_fits. Qed.

Lemma consumes_ids max_count :
  exactly (ReadIdVector max_count) WriteIdVector (counted max_count u64_fits).
Proof. apply consumes_counted; [apply _|apply consumes_u64]. Qed.
Lemma consumes_references max_count :
  exactly (read_counted max_count ReadReservation) (write_counted WriteReservation)
    (counted max_count reservation_fits).
Proof. apply consumes_counted; [apply _|apply consumes_reservation]. Qed.
#[export] Hint Resolve consumes_incumbent consumes_intent consumes_ids consumes_references : exact.

(** *** The policy *)

Lemma consumes_objective : exactly ReadObjective WriteObjective objective_fits.
Proof. exact_record WriteObjective ReadObjective objective_fits. Qed.
Lemma consumes_tier : exactly ReadTier WriteTier tier_fits.
Proof. exact_record WriteTier ReadTier tier_fits. Qed.

Lemma consumes_admission : exactly ReadAdmission WriteAdmission admission_fits.
Proof. exact_record WriteAdmission ReadAdmission admission_fits. Qed.
Lemma consumes_churn : exactly ReadChurn WriteChurn churn_fits.
Proof. exact_record WriteChurn ReadChurn churn_fits. Qed.
Lemma consumes_evidence_policy : exactly ReadEvidencePolicy WriteEvidencePolicy evidence_policy_fits.
Proof. exact_record WriteEvidencePolicy ReadEvidencePolicy evidence_policy_fits. Qed.

Lemma consumes_service : exactly ReadService WriteService service_fits.
Proof.
  unfold ReadService. repeat take_field. b2p. split; [same_bytes WriteService|done].
Qed.

Lemma consumes_affinity limits : exactly (ReadAffinity limits) WriteAffinity (affinity_fits limits).
Proof. exact_record WriteAffinity ReadAffinity affinity_fits. Qed.

Lemma value_optional_fits v : u64_fits v → optional_fits (value_optional v).
Proof.
  intros Hv. unfold optional_fits, value_optional.
  destruct (N.eqb_spec v 0) as [->|]; cbn; [done|]. split; [done|congruence].
Qed.
#[export] Hint Resolve value_optional_fits : exact.

Lemma consumes_locality max_ids : consumes (ReadLocality max_ids) (λ _, locality_fits max_ids).
Proof. unfold ReadLocality. repeat take_field. fields_fit locality_fits. Qed.

Lemma consumes_failure_domains max_ids :
  consumes (ReadFailureDomains max_ids) (λ _, failure_domains_fit max_ids).
Proof. unfold ReadFailureDomains. repeat take_field. fields_fit failure_domains_fit. Qed.

Lemma consumes_objectives limits :
  exactly (ReadObjectives limits) (write_counted WriteObjective)
    (λ l, l ≠ [] ∧ counted (max_objectives limits) objective_fits l).
Proof.
  eapply consumes_bind; [apply consumes_u32|]. intros bs1 n [-> Hn].
  apply consumes_require. intros Hm. b2p. destruct Hm as [Hne Hle].
  eapply consumes_weaken; [apply consumes_each, consumes_objective|].
  intros bs l (-> & Hl & Hf). assert (size l = n) as Hsz by (unfold size; lia).
  unfold counted. rewrite Hsz, write_counted_bytes by (by rewrite ?Hsz || apply _).
  rewrite Hsz. split; [done|]. split; [|by split_and!]. intros ->. apply Hne. by rewrite <-Hsz.
Qed.

Lemma consumes_tiers :
  exactly (read_counted 3 ReadTier) (write_counted WriteTier) (counted 3 tier_fits).
Proof. apply consumes_counted; [apply _|apply consumes_tier]. Qed.
#[export] Hint Resolve consumes_admission consumes_churn consumes_evidence_policy consumes_service
  consumes_affinity consumes_locality consumes_failure_domains consumes_objectives
  consumes_tiers : exact.

Lemma consumes_policy limits : consumes (ReadPolicy limits) (λ _, policy_fits limits).
Proof.
  unfold ReadPolicy. cbv zeta. repeat take_field. destruct Hf1 as [Hne Hobj].
  fields_fit policy_fits.
Qed.
#[export] Hint Resolve consumes_policy : exact.

(** *** The explanation *)

(** Checks a statement on every number up to a bound. *)
Lemma bounded_forall (P : N → Prop) max_value raw :
  Forall P (N.of_nat <$> seq 0 (S (N.to_nat max_value))) → raw ≤ max_value → P raw.
Proof.
  rewrite Forall_fmap, Forall_forall. intros HP Hr. rewrite <-(N2Nat.id raw). apply HP.
  apply elem_of_seq. lia.
Qed.

Lemma ExclusionReason_ordinal_of raw : raw ≤ 17 → ExclusionReason_ordinal (ExclusionReason_of raw) = raw.
Proof. apply (bounded_forall (λ raw, _ (_ raw) = raw)). by repeat constructor. Qed.
Lemma DegradationFlag_ordinal_of raw : raw ≤ 8 → DegradationFlag_ordinal (DegradationFlag_of raw) = raw.
Proof. apply (bounded_forall (λ raw, _ (_ raw) = raw)). by repeat constructor. Qed.
Lemma Outcome_ordinal_of raw : raw ≤ 7 → Outcome_ordinal (Outcome_of raw) = raw.
Proof. apply (bounded_forall (λ raw, _ (_ raw) = raw)). by repeat constructor. Qed.
Lemma IncumbentDelta_ordinal_of raw : raw ≤ 3 → IncumbentDelta_ordinal (IncumbentDelta_of raw) = raw.
Proof. apply (bounded_forall (λ raw, _ (_ raw) = raw)). by repeat constructor. Qed.
Lemma AttemptPhase_ordinal_of raw : raw ≤ 4 → AttemptPhase_ordinal (AttemptPhase_of raw) = raw.
Proof. apply (bounded_forall (λ raw, _ (_ raw) = raw)). by repeat constructor. Qed.

Lemma code_value_of raw : IsKnownStatusCode raw = true → code_value (StatusCode_of raw) = raw.
Proof.
  rewrite IsKnownStatusCode_cast. unfold StatusCode_of. intros [c Hc]. rewrite Hc.
  by apply StatusCode_cast_Some.
Qed.

(** The ordinals of the enumerators that [ReadEnumU8] and [IsKnownStatusCode]
    have bounded. *)
Ltac known_ordinals := cbn;
  rewrite ?ExclusionReason_ordinal_of, ?DegradationFlag_ordinal_of, ?Outcome_ordinal_of,
    ?IncumbentDelta_ordinal_of, ?AttemptPhase_ordinal_of, ?code_value_of by assumption.

Ltac same_bytes_known write :=
  symmetry; parts write; known_ordinals; autorewrite with ordinals; rewrite ?app_nil_r; reflexivity.

Lemma consumes_key : exactly ReadKey WriteKey key_fits.
Proof. exact_record WriteKey ReadKey key_fits. Qed.

Lemma consumes_keys max_count :
  exactly (read_counted max_count ReadKey) (write_counted WriteKey) (counted max_count key_fits).
Proof. apply consumes_counted; [apply _|apply consumes_key]. Qed.
Lemma consumes_sample max_count :
  exactly (read_counted max_count rU64) WriteIdVector (counted max_count u64_fits).
Proof. apply consumes_counted; [apply _|apply consumes_u64]. Qed.
#[export] Hint Resolve consumes_keys consumes_sample : exact.

Section Explanation.
Context (limits : Limits).

Lemma consumes_ranked : exactly (ReadRanked limits) WriteRanked (ranked_fits limits).
Proof. exact_record WriteRanked ReadRanked ranked_fits. Qed.

Lemma consumes_summary : exactly (ReadSummary limits) WriteSummary (summary_fits limits).
Proof.
  unfold ReadSummary. repeat take_field. split; [|fields_fit summary_fits].
  same_bytes_known WriteSummary.
Qed.

Lemma consumes_degradation : exactly ReadFlag WriteFlag (λ _, True).
Proof.
  unfold ReadFlag. repeat take_field. split; [|done]. rewrite app_nil_r. unfold WriteFlag.
  by known_ordinals.
Qed.

Lemma consumes_binding : exactly (ReadBinding limits) WriteBinding (binding_fits limits).
Proof.
  unfold ReadBinding. repeat take_field. split; [|fields_fit binding_fits].
  same_bytes_known WriteBinding.
Qed.

Lemma consumes_rankeds max_count :
  exactly (read_counted max_count (ReadRanked limits)) (write_counted WriteRanked)
    (counted max_count (ranked_fits limits)).
Proof. apply consumes_counted; [apply _|apply consumes_ranked]. Qed.
Lemma consumes_summaries max_count :
  exactly (read_counted max_count (ReadSummary limits)) (write_counted WriteSummary)
    (counted max_count (summary_fits limits)).
Proof. apply consumes_counted; [apply _|apply consumes_summary]. Qed.
Lemma consumes_degradations max_count :
  exactly (read_counted max_count ReadFlag) (write_counted WriteFlag)
    (counted max_count (λ _, True)).
Proof. apply consumes_counted; [apply _|apply consumes_degradation]. Qed.
Lemma consumes_bindings max_count :
  exactly (read_counted max_count (ReadBinding limits)) (write_counted WriteBinding)
    (counted max_count (binding_fits limits)).
Proof. apply consumes_counted; [apply _|apply consumes_binding]. Qed.
Lemma consumes_notes max_count max_length :
  exactly (read_counted max_count (rString max_length)) (write_counted wString)
    (counted max_count (text_fits max_length)).
Proof. apply consumes_counted; [apply _|apply consumes_string]. Qed.
End Explanation.
#[export] Hint Resolve consumes_rankeds consumes_summaries consumes_degradations
  consumes_bindings consumes_notes : exact.

Lemma consumes_explanation limits :
  exactly (ReadExplanation limits) WriteExplanation (explanation_fits limits).
Proof. exact_record WriteExplanation ReadExplanation explanation_fits. Qed.
#[export] Hint Resolve consumes_explanation : exact.

(** ** Records of the store *)

Lemma accepts_code failure truncated unknown :
  consumes (ok_of (DecodeCode failure truncated unknown))
    (λ bs c, bs = bytes_of (wU16 (code_value c)) ∧ True).
Proof.
  unfold DecodeCode. repeat accept_field. by rewrite code_value_of, app_nil_r.
Qed.
#[export] Hint Resolve accepts_code : exact.

Lemma accepts_attempt : exactly (ok_of DecodeAttemptRecord) EncodeAttemptRecord attempt_fits.
Proof.
  unfold DecodeAttemptRecord. repeat accept_field. split; [|fields_fit attempt_fits].
  same_bytes_known EncodeAttemptRecord.
Qed.

Lemma accepts_placement :
  exactly (ok_of DecodePlacementRecord) EncodePlacementRecord
    (λ p, placement_fits p ∧ pl_requires_revalidation p = true).
Proof.
  unfold DecodePlacementRecord. repeat accept_field. split; [|split; [fields_fit placement_fits|done]].
  same_bytes_known EncodePlacementRecord.
Qed.

Lemma accepts_attempts max_count truncated oversize :
  exactly (ok_of (decode_counted max_count truncated oversize DecodeAttemptRecord))
    (write_counted EncodeAttemptRecord) (counted max_count attempt_fits).
Proof. apply accepts_counted; [apply _|apply accepts_attempt]. Qed.
Lemma accepts_placements max_count truncated oversize :
  exactly (ok_of (decode_counted max_count truncated oversize DecodePlacementRecord))
    (write_counted EncodePlacementRecord)
    (counted max_count (λ p, placement_fits p ∧ pl_requires_revalidation p = true)).
Proof. apply accepts_counted; [apply _|apply accepts_placement]. Qed.
#[export] Hint Resolve accepts_attempts accepts_placements : exact.

Lemma accepts_report : exactly (ok_of DecodeRecoveryReport) EncodeRecoveryReport report_fits.
Proof.
  unfold DecodeRecoveryReport. repeat accept_field.
  split; [same_bytes EncodeRecoveryReport|fields_fit report_fits].
Qed.

(** ** Requests, intents and decisions *)

Lemma accepts_option {A} flag_message message (read : Reader A) write (P : A → Prop) :
  exactly read write P →
  consumes (ok_of (DecodeOptional flag_message message read))
    (λ bs v, bs = bytes_of (wFlag (match v with Some _ => true | None => false end)) ++
                  from_option (λ a, bytes_of (write a)) [] v ∧ from_option P True v).
Proof.
  intros Hx. unfold DecodeOptional. accept_field. destruct a.
  - eapply accepts_bind; [apply accepts_expect, Hx|]. intros bs2 v [-> HP].
    apply accepts_ret. cbn. by rewrite !app_nil_r.
  - apply accepts_ret. cbn. by rewrite !app_nil_r.
Qed.

Lemma accepts_intent flag_message message :
  exactly (ok_of (DecodeOptional flag_message message ReadIntent)) WriteOptionalIntent
    (from_option intent_fits True).
Proof.
  eapply consumes_weaken; [apply accepts_option, consumes_intent|]. intros bs v [-> Hv].
  split; [|done]. unfold bytes_of at 3, WriteOptionalIntent.
  destruct v; cbn; autorewrite with enc; by rewrite ?app_nil_r, ?app_nil_l.
Qed.

Lemma accepts_incumbent flag_message message :
  exactly (ok_of (DecodeOptional flag_message message ReadIncumbent)) WriteOptionalIncumbent
    (from_option incumbent_fits True).
Proof.
  eapply consumes_weaken; [apply accepts_option, consumes_incumbent|]. intros bs v [-> Hv].
  split; [|done]. unfold bytes_of at 3, WriteOptionalIncumbent.
  destruct v; cbn; autorewrite with enc; by rewrite ?app_nil_r, ?app_nil_l.
Qed.
#[export] Hint Resolve accepts_intent accepts_incumbent : exact.

Lemma accepts_decision limits :
  exactly (ok_of (DecodeDecision limits)) EncodeDecision (decision_fits limits).
Proof.
  unfold DecodeDecision. repeat accept_field. split; [|fields_fit decision_fits].
  same_bytes_known EncodeDecision.
Qed.

Lemma accepts_path limits : exactly (ok_of (DecodePath limits)) WritePath (path_fits limits).
Proof.
  unfold DecodePath. do 10 accept_field.
  eapply accepts_bind; [apply (accepts_counted _ WriteReservation reservation_fits);
    [apply _|apply accepts_expect, consumes_reservation]|].
  intros bs refs [-> Hrefs]. accept_field. split.
  - symmetry. parts WritePath. cbn. rewrite app_nil_r. unfold bytes_of at 3. unfold WriteAttributes.
    autorewrite with enc. rewrite app_nil_l, <-!app_assoc. cbn. by autorewrite with ordinals.
  - unfold path_fits, attributes_fit, tier_fits, enumerator. cbn. autorewrite with ordinals.
    rewrite !Forall_cons, !Forall_nil. by split_and!.
Qed.

Lemma accepts_capacity : exactly (ok_of DecodeCapacity) WriteCapacity capacity_fits.
Proof.
  unfold DecodeCapacity. repeat accept_field. split; [same_bytes WriteCapacity|fields_fit capacity_fits].
Qed.

Lemma accepts_evidence : exactly (ok_of DecodeEvidence) WriteEvidence evidence_fits.
Proof.
  unfold DecodeEvidence. repeat accept_field. b2p.
  split; [same_bytes WriteEvidence|fields_fit evidence_fits].
Qed.

Lemma accepts_paths limits max_count truncated oversize :
  exactly (ok_of (decode_counted max_count truncated oversize (DecodePath limits)))
    (write_counted WritePath) (counted max_count (path_fits limits)).
Proof. apply accepts_counted; [apply _|apply accepts_path]. Qed.
Lemma accepts_capacities max_count truncated oversize :
  exactly (ok_of (decode_counted max_count truncated oversize DecodeCapacity))
    (write_counted WriteCapacity) (counted max_count capacity_fits).
Proof. apply accepts_counted; [apply _|apply accepts_capacity]. Qed.
Lemma accepts_evidences max_count truncated oversize :
  exactly (ok_of (decode_counted max_count truncated oversize DecodeEvidence))
    (write_counted WriteEvidence) (counted max_count evidence_fits).
Proof. apply accepts_counted; [apply _|apply accepts_evidence]. Qed.
#[export] Hint Resolve accepts_paths accepts_capacities accepts_evidences : exact.

Lemma accepts_set limits :
  exactly (ok_of (DecodeCandidateSet limits)) WriteSet (set_fits limits).
Proof.
  unfold DecodeCandidateSet. repeat accept_field. split; [same_bytes WriteSet|fields_fit set_fits].
Qed.
Lemma accepts_snapshot limits :
  exactly (ok_of (DecodeSnapshot limits)) WriteSnapshot (snapshot_fits limits).
Proof.
  unfold DecodeSnapshot. repeat accept_field.
  split; [same_bytes WriteSnapshot|fields_fit snapshot_fits].
Qed.
Lemma accepts_qos : exactly (ok_of DecodeQos) WriteQos qos_fits.
Proof. unfold DecodeQos. repeat accept_field. split; [same_bytes WriteQos|fields_fit qos_fits]. Qed.
Lemma accepts_bundle limits :
  exactly (ok_of (DecodeBundle limits)) WriteBundle (bundle_fits limits).
Proof.
  unfold DecodeBundle. repeat accept_field. split; [same_bytes WriteBundle|fields_fit bundle_fits].
Qed.
#[export] Hint Resolve accepts_set accepts_snapshot accepts_qos accepts_bundle : exact.

Lemma accepts_request limits : consumes (ok_of (DecodeRequest limits)) (λ _, request_fits limits).
Proof. unfold DecodeRequest. repeat accept_field. fields_fit request_fits. Qed.

Lemma accepts_whole_intent : exactly (ok_of DecodeIntent) EncodeIntent intent_fits.
Proof. unfold DecodeIntent. repeat accept_field. by rewrite app_nil_r. Qed.
Lemma accepts_whole_authority :
  exactly (ok_of DecodeAuthorityVector) EncodeAuthorityVector authority_fits.
Proof. unfold DecodeAuthorityVector. repeat accept_field. by rewrite app_nil_r. Qed.
Lemma accepts_whole_expectation :
  exactly (ok_of DecodeAuthorityExpectation) EncodeAuthorityExpectation expectation_fits.
Proof. unfold DecodeAuthorityExpectation. repeat accept_field. by rewrite app_nil_r. Qed.

(** ** Whole payloads *)

(** A decoder that succeeds only at the end of its buffer. *)
Definition ends {A} (m : Decoder A) : Prop :=
  ∀ r a r', m r = Value (a, r') → AtEnd r' = true.

Lemma ends_bind {A B} (m : Decoder A) (k : A → Decoder B) : (∀ a, ends (k a)) → ends (m ≫= k).
Proof.
  intros Hk r b r'. unfold mbind, Decoder_bind. destruct (m r) as [[a r1]|]; [|done]. apply Hk.
Qed.

Lemma ends_end {A} code message (a : A) : ends (_ ← expect_end code message; mret a).
Proof.
  intros r b r'. unfold mbind, Decoder_bind, expect_end.
  destruct (AtEnd r) eqn:E; [|done]. by intros [= _ <-].
Qed.

Ltac at_end := repeat first [apply ends_end | apply ends_bind; intros ?].

(** The whole buffer is what the decoder took. *)
Lemma accepts_all {A} (m : Decoder A) Q bs a r :
  consumes (ok_of m) Q → ends m → Forall u8_fits bs → m (mkReader bs 0) = Value (a, r) → Q bs a.
Proof.
  intros Hm He Hbs Hs. pose proof (He _ _ _ Hs) as Hend.
  destruct (Hm (mkReader bs 0) a r Hbs) as (pre & rest & Hl & -> & HQ).
  { unfold ok_of. by rewrite Hs. }
  unfold bytes_left in Hl. cbn in Hl. rewrite drop_0 in Hl. subst bs.
  unfold AtEnd, advance in Hend. cbn in Hend. apply Nat.eqb_eq in Hend.
  rewrite length_app in Hend. destruct rest; [by rewrite app_nil_r|cbn in Hend; lia].
Qed.

(** A decoder that accepts exactly the encodings of fitting values, and all of
    them. *)
Lemma canonical {A} (m : Decoder A) write (P : A → Prop) bs v :
  exactly (ok_of m) write P → ends m →
  (∀ v, P v → decodes_all m (bytes_of (write v)) v) → Forall u8_fits bs →
  (∃ r, m (mkReader bs 0) = Value (v, r)) ↔ bs = bytes_of (write v) ∧ P v.
Proof.
  intros Hx He Hi Hbs. split.
  - intros [r Hr]. exact (accepts_all m _ bs v r Hx He Hbs Hr).
  - intros [-> HP]. eexists. by apply decodes_all_run, Hi.
Qed.
