(* ===== verification/Wire.v ===== *)
(** * The framed wire protocol

    [wire.cpp]: frames with a 20-byte header (length, CRC-32C of the body, kind,
    flags, sequence), the incremental [FrameStream], and the payload codecs.
    The pointers the functions take are to valid objects here, so the null
    checks are left out; an output parameter is the value of the [Result]. *)

From Stdlib Require Import String.
From S2P Require Import Prelude StdAlgo Checked Status Bytes Hash Model Explain Records Codec.

Definition kFrameHeaderBytes : N := 20.
Definition kDefaultMaxFrameBytes : N := N.shiftl 8 20.
Definition kMinMaxFrameBytes : N := 1024.
Definition kMaxWireStringBytes : N := 4096.

Definition kOffsetLength : nat := 0.
Definition kOffsetCrc : nat := 4.
Definition kOffsetKind : nat := 8.
Definition kOffsetFlags : nat := 10.
Definition kOffsetSequence : nat := 12.

(** ** Fixed-offset fields *)

(** Overwrites the bytes from [offset] on. *)
Definition put_bytes (offset : nat) (bytes data : list N) : list N :=
  take offset data ++ bytes ++ drop (offset + length bytes) data.

Definition PutU16 (offset : nat) (v : N) (data : list N) : list N :=
  put_bytes offset [N.land v 255; N.land (N.shiftr v 8) 255] data.
Definition PutU32 (offset : nat) (v : N) (data : list N) : list N :=
  put_bytes offset (le_bytes 4 v) data.
Definition PutU64 (offset : nat) (v : N) (data : list N) : list N :=
  put_bytes offset (le_bytes 8 v) data.

Definition GetU16 (offset : nat) (data : list N) : N :=
  N.lor (nth offset data 0) (N.shiftl (nth (offset + 1) data 0) 8).
Definition GetU32 (offset : nat) (data : list N) : N := le_combine 4 data offset.
Definition GetU64 (offset : nat) (data : list N) : N := le_combine 8 data offset.

(** ** Frames *)

Module FrameKind.
Inductive FrameKind :=
  | kHello
  | kHelloAck
  | kPlaceRequest
  | kPlaceResult
  | kSetEpoch
  | kEpochAck
  | kShutdown
  | kShutdownAck
  | kError
  | kRecoveryQuery
  | kRecoveryReport
  | kStatsQuery
  | kStatsReport.
End FrameKind.
Abbreviation FrameKind := FrameKind.FrameKind.

(** [static_cast<std::uint16_t>(kind)]. *)
Definition FrameKind_value (v : FrameKind) : N :=
  match v with
  | FrameKind.kHello => 1
  | FrameKind.kHelloAck => 2
  | FrameKind.kPlaceRequest => 3
  | FrameKind.kPlaceResult => 4
  | FrameKind.kSetEpoch => 5
  | FrameKind.kEpochAck => 6
  | FrameKind.kShutdown => 7
  | FrameKind.kShutdownAck => 8
  | FrameKind.kError => 9
  | FrameKind.kRecoveryQuery => 10
  | FrameKind.kRecoveryReport => 11
  | FrameKind.kStatsQuery => 12
  | FrameKind.kStatsReport => 13
  end.

Definition FrameKindName (v : FrameKind) : string :=
  match v with
  | FrameKind.kHello => "HELLO"
  | FrameKind.kHelloAck => "HELLO_ACK"
  | FrameKind.kPlaceRequest => "PLACE_REQUEST"
  | FrameKind.kPlaceResult => "PLACE_RESULT"
  | FrameKind.kSetEpoch => "SET_EPOCH"
  | FrameKind.kEpochAck => "EPOCH_ACK"
  | FrameKind.kShutdown => "SHUTDOWN"
  | FrameKind.kShutdownAck => "SHUTDOWN_ACK"
  | FrameKind.kError => "ERROR"
  | FrameKind.kRecoveryQuery => "RECOVERY_QUERY"
  | FrameKind.kRecoveryReport => "RECOVERY_REPORT"
  | FrameKind.kStatsQuery => "STATS_QUERY"
  | FrameKind.kStatsReport => "STATS_REPORT"
  end.

Definition ParseFrameKind (v : N) : option FrameKind :=
  match v with
  | 1 => Some FrameKind.kHello
  | 2 => Some FrameKind.kHelloAck
  | 3 => Some FrameKind.kPlaceRequest
  | 4 => Some FrameKind.kPlaceResult
  | 5 => Some FrameKind.kSetEpoch
  | 6 => Some FrameKind.kEpochAck
  | 7 => Some FrameKind.kShutdown
  | 8 => Some FrameKind.kShutdownAck
  | 9 => Some FrameKind.kError
  | 10 => Some FrameKind.kRecoveryQuery
  | 11 => Some FrameKind.kRecoveryReport
  | 12 => Some FrameKind.kStatsQuery
  | 13 => Some FrameKind.kStatsReport
  | _ => None
  end.

#[export] Instance FrameKind_eq_dec : EqDecision FrameKind.
Proof. solve_decision. Defined.

Record Frame := mkFrame {
  fr_kind : FrameKind;
  fr_flags : N;
  fr_sequence : N;
  fr_body : list N;
}.

Definition EncodeFrame (frame : Frame) (max_frame_bytes : N) : Result (list N) :=
  if max_frame_bytes <? kMinMaxFrameBytes then
    Error (mkStatus StatusCode.kInvalidArgument
             "negotiated frame bound is below the minimum") else
  if max_frame_bytes <? size (fr_body frame) then
    Error (mkStatus StatusCode.kFrameTooLarge "frame body exceeds the negotiated bound") else
  let data := replicate (N.to_nat (kFrameHeaderBytes + size (fr_body frame))) 0 in
  let data := PutU32 kOffsetLength (wrap 32 (size (fr_body frame))) data in
  let data := PutU32 kOffsetCrc (Crc32C_Compute (fr_body frame)) data in
  let data := PutU16 kOffsetKind (FrameKind_value (fr_kind frame)) data in
  let data := PutU16 kOffsetFlags (fr_flags frame) data in
  let data := PutU64 kOffsetSequence (fr_sequence frame) data in
  Value (put_bytes (N.to_nat kFrameHeaderBytes) (fr_body frame) data).

Definition DecodeFrame (data : list N) (max_frame_bytes : N) : Result Frame :=
  if size data <? kFrameHeaderBytes then
    Error (mkStatus StatusCode.kWireMalformed "frame is shorter than its header") else
  let declared := GetU32 kOffsetLength data in
  if max_frame_bytes <? declared then
    Error (mkStatus StatusCode.kFrameTooLarge
             "declared frame length exceeds the negotiated bound") else
  if negb (size data =? kFrameHeaderBytes + declared) then
    Error (mkStatus StatusCode.kWireMalformed
             "declared frame length does not match the buffer") else
  let body := drop (N.to_nat kFrameHeaderBytes) data in
  if negb (Crc32C_Compute body =? GetU32 kOffsetCrc data) then
    Error (mkStatus StatusCode.kFrameChecksumMismatch "frame checksum mismatch") else
  match ParseFrameKind (GetU16 kOffsetKind data) with
  | None => Error (mkStatus StatusCode.kWireMalformed "unknown frame kind")
  | Some kind =>
      Value (mkFrame kind (GetU16 kOffsetFlags data) (GetU64 kOffsetSequence data) body)
  end.

(** ** The incremental stream *)

Record FrameStream := mkStream {
  fs_buffer : list N;
  fs_offset : nat;
  fs_max_frame_bytes : N;
}.

Definition FrameStream_init (max_frame_bytes : N) : FrameStream := mkStream [] 0 max_frame_bytes.

Definition buffered (s : FrameStream) : nat := length (fs_buffer s) - fs_offset s.

Definition SetMaxFrameBytes (v : N) (s : FrameStream) : FrameStream :=
  mkStream (fs_buffer s) (fs_offset s) v.

(** Always succeeds on a valid pointer. *)
Definition Feed (data : list N) (s : FrameStream) : FrameStream :=
  mkStream (fs_buffer s ++ data) (fs_offset s) (fs_max_frame_bytes s).

(** [Value None]: more bytes are needed. *)
Definition FrameStream_Next (s : FrameStream) : Result (option Frame) * FrameStream :=
  let max := fs_max_frame_bytes s in
  let buffer := if Nat.eqb (fs_offset s) 0 then fs_buffer s else drop (fs_offset s) (fs_buffer s) in
  let s := mkStream buffer 0 max in
  if size buffer <? kFrameHeaderBytes then (Value None, s) else
  let declared := GetU32 kOffsetLength buffer in
  if max <? declared then
    (Error (mkStatus StatusCode.kFrameTooLarge
              "declared frame length exceeds the negotiated bound"), s) else
  let total := kFrameHeaderBytes + declared in
  if size buffer <? total then (Value None, s) else
  match DecodeFrame (take (N.to_nat total) buffer) max with
  | Error status => (Error status, s)
  | Value frame => (Value (Some frame), mkStream (drop (N.to_nat total) buffer) 0 max)
  end.

(** ** Payloads *)

Module AttemptState.
Inductive AttemptState :=
  | kQueued
  | kRunning
  | kCommitted
  | kRejected
  | kCancelled
  | kFenced
  | kFailed.
End AttemptState.
Abbreviation AttemptState := AttemptState.AttemptState.

Definition AttemptState_all : list AttemptState := [
  AttemptState.kQueued;
  AttemptState.kRunning;
  AttemptState.kCommitted;
  AttemptState.kRejected;
  AttemptState.kCancelled;
  AttemptState.kFenced;
  AttemptState.kFailed
].

Definition AttemptState_ordinal (v : AttemptState) : N :=
  match v with
  | AttemptState.kQueued => 0
  | AttemptState.kRunning => 1
  | AttemptState.kCommitted => 2
  | AttemptState.kRejected => 3
  | AttemptState.kCancelled => 4
  | AttemptState.kFenced => 5
  | AttemptState.kFailed => 6
  end.

(** [static_cast<AttemptState>] of a value at most 6. *)
Definition AttemptState_of (raw : N) : AttemptState :=
  nth (N.to_nat raw) AttemptState_all AttemptState.kQueued.

Record HelloPayload := mkHello {
  hello_protocol_version : N;
  hello_incarnation : N;
  hello_epoch : N;
  hello_worker : N;
  hello_max_frame_bytes : N;
  hello_build : string;
}.

Record HelloAckPayload := mkHelloAck {
  ack_protocol_version : N;
  ack_coordinator : N;
  ack_epoch : N;
  ack_max_frame_bytes : N;
  ack_worker_limit : N;
  ack_build : string;
  ack_accepted : bool;
  ack_code : StatusCode;
  ack_message : string;
}.

Record PlaceRequestPayload := mkPlaceRequest {
  preq_attempt : N;
  preq_epoch : N;
  preq_request : PlacementRequest;
}.

Record PlaceResultPayload := mkPlaceResult {
  pres_attempt : N;
  pres_state : AttemptState;
  pres_code : StatusCode;
  pres_placement_id : N;
  pres_placement_generation : N;
  pres_decision : PlacementDecision;
}.

Record EpochPayload := mkEpochPayload {
  epoch_epoch : N;
  epoch_previous : N;
  epoch_code : StatusCode;
  epoch_message : string;
}.

Record ErrorPayload := mkErrorPayload {
  err_code : StatusCode;
  err_attempt : N;
  err_message : string;
}.

Definition EncodeHello (v : HelloPayload) (w : ByteWriter) : ByteWriter :=
  w |> wU32 (hello_protocol_version v)
    |> wU64 (hello_incarnation v)
    |> wU64 (hello_epoch v)
    |> wU64 (hello_worker v)
    |> wU32 (hello_max_frame_bytes v)
    |> wString (hello_build v).

Definition DecodeHello : Decoder HelloPayload :=
  protocol_version ← malformed "truncated hello" rU32;
  incarnation ← malformed "truncated hello incarnation" rU64;
  epoch ← malformed "truncated hello epoch" rU64;
  worker ← malformed "truncated hello worker" rU64;
  max_frame_bytes ← malformed "truncated hello bound" rU32;
  _ ← ensure (negb (max_frame_bytes <? kMinMaxFrameBytes)) StatusCode.kWireMalformed
        "hello frame bound is below the minimum";
  build ← malformed "truncated hello build string" (rString kMaxWireStringBytes);
  _ ← expect_end StatusCode.kWireMalformed "trailing bytes after hello";
  mret (mkHello protocol_version incarnation epoch worker max_frame_bytes build).

Definition EncodeHelloAck (v : HelloAckPayload) (w : ByteWriter) : ByteWriter :=
  w |> wU32 (ack_protocol_version v)
    |> wU64 (ack_coordinator v)
    |> wU64 (ack_epoch v)
    |> wU32 (ack_max_frame_bytes v)
    |> wU32 (ack_worker_limit v)
    |> wString (ack_build v)
    |> wFlag (ack_accepted v)
    |> wU16 (code_value (ack_code v))
    |> wString (ack_message v).

Definition DecodeHelloAck : Decoder HelloAckPayload :=
  protocol_version ← malformed "truncated hello ack" rU32;
  coordinator ← malformed "truncated hello ack coordinator" rU64;
  epoch ← malformed "truncated hello ack epoch" rU64;
  max_frame_bytes ← malformed "truncated hello ack bounds" rU32;
  worker_limit ← malformed "truncated hello ack bounds" rU32;
  _ ← ensure (negb (max_frame_bytes <? kMinMaxFrameBytes)) StatusCode.kWireMalformed
        "hello ack frame bound is below the minimum";
  build ← malformed "truncated hello ack build string" (rString kMaxWireStringBytes);
  accepted ← malformed "truncated hello ack flag" rU8;
  _ ← ensure (negb (1 <? accepted)) StatusCode.kWireMalformed "malformed hello ack flag";
  code ← DecodeCode StatusCode.kWireMalformed "truncated hello ack code"
           "unknown hello ack status code";
  message ← malformed "truncated hello ack message" (rString kMaxWireStringBytes);
  _ ← expect_end StatusCode.kWireMalformed "trailing bytes after hello ack";
  mret (mkHelloAck protocol_version coordinator epoch max_frame_bytes worker_limit build
          (negb (accepted =? 0)) code message).

Definition EncodePlaceRequest (v : PlaceRequestPayload) (w : ByteWriter) : ByteWriter :=
  w |> wU64 (preq_attempt v) |> wU64 (preq_epoch v) |> EncodeRequest (preq_request v).

Definition DecodePlaceRequest (limits : Limits) : Decoder PlaceRequestPayload :=
  attempt ← malformed "truncated place request attempt" rU64;
  epoch ← malformed "truncated place request epoch" rU64;
  request ← DecodeRequest limits;
  mret (mkPlaceRequest attempt epoch request).

Definition EncodePlaceResult (v : PlaceResultPayload) (w : ByteWriter) : ByteWriter :=
  w |> wU64 (pres_attempt v)
    |> wU8 (AttemptState_ordinal (pres_state v))
    |> wU16 (code_value (pres_code v))
    |> wU64 (pres_placement_id v)
    |> wU64 (pres_placement_generation v)
    |> EncodeDecision (pres_decision v).

Definition DecodePlaceResult (limits : Limits) : Decoder PlaceResultPayload :=
  attempt ← malformed "truncated place result attempt" rU64;
  state ← malformed "malformed attempt state" (ReadEnumU8 6);
  code ← DecodeCode StatusCode.kWireMalformed "truncated place result code"
           "unknown place result status code";
  placement_id ← malformed "truncated place result id" rU64;
  placement_generation ← malformed "truncated place result generation" rU64;
  decision ← DecodeDecision limits;
  mret (mkPlaceResult attempt (AttemptState_of state) code placement_id placement_generation
          decision).

Definition EncodeEpochPayload (v : EpochPayload) (w : ByteWriter) : ByteWriter :=
  w |> wU64 (epoch_epoch v)
    |> wU64 (epoch_previous v)
    |> wU16 (code_value (epoch_code v))
    |> wString (epoch_message v).

Definition DecodeEpochPayload : Decoder EpochPayload :=
  epoch ← malformed "truncated epoch" rU64;
  previous ← malformed "truncated previous epoch" rU64;
  code ← DecodeCode StatusCode.kWireMalformed "truncated epoch code" "unknown epoch status code";
  message ← malformed "truncated epoch message" (rString kMaxWireStringBytes);
  _ ← expect_end StatusCode.kWireMalformed "trailing bytes after epoch payload";
  mret (mkEpochPayload epoch previous code message).

Definition EncodeErrorPayload (v : ErrorPayload) (w : ByteWriter) : ByteWriter :=
  w |> wU16 (code_value (err_code v)) |> wU64 (err_attempt v) |> wString (err_message v).

Definition DecodeErrorPayload : Decoder ErrorPayload :=
  code ← DecodeCode StatusCode.kWireMalformed "truncated error code" "unknown error status code";
  attempt ← malformed "truncated error attempt" rU64;
  message ← malformed "truncated error message" (rString kMaxWireStringBytes);
  _ ← expect_end StatusCode.kWireMalformed "trailing bytes after error payload";
  mret (mkErrorPayload code attempt message).
