(* ===== verification/Transport.v ===== *)
(** * Connections

    [TcpConnection::SendFrame] and [ReceiveFrame] of [transport.cpp].  The socket
    is a parameter: the results of the [send] and [recv] calls, in order.  A
    [recv] result is the chunk of bytes it stored, empty when the peer closed the
    connection; a [send] result is the number of bytes the kernel took, 0 when the
    call failed.  [strerror] is the text the system has for [errno]. *)

From Stdlib Require Import String.
From S2P Require Import Prelude StdAlgo Checked Status Bytes Hash Wire.

Record TcpConnection := mkConnection {
  con_open : bool;
  con_stream : FrameStream;
  con_max_frame_bytes : N;
}.

Definition con_with_stream (stream : FrameStream) (c : TcpConnection) : TcpConnection :=
  mkConnection (con_open c) stream (con_max_frame_bytes c).

Definition TcpConnection_SetMaxFrameBytes (v : N) (c : TcpConnection) : TcpConnection :=
  mkConnection (con_open c) (SetMaxFrameBytes v (con_stream c)) v.

Definition connection_closed (message : string) : Status :=
  mkStatus StatusCode.kConnectionClosed message.

(** A result of [recv]: a negative value, or the bytes stored. *)
Inductive Received := RecvError | RecvBytes (chunk : list N).

Section Socket.
Context (strerror : string).

Definition LastSocketError (what : string) : Status :=
  mkStatus StatusCode.kSocketError (what ++ " failed: " ++ strerror).

(** The loop of [ReceiveFrame], with the [recv] results it has not used.  The
    list running out is a [recv] that never returns. *)
Fixpoint receive_loop (received : list Received) (stream : FrameStream)
    : option (Result Frame) * list Received * FrameStream :=
  match FrameStream_Next stream with
  | (Error status, stream) => (Some (Error status), received, stream)
  | (Value (Some frame), stream) => (Some (Value frame), received, stream)
  | (Value None, stream) =>
      match received with
      | [] => (None, [], stream)
      | RecvError :: received => (Some (Error (LastSocketError "recv")), received, stream)
      | RecvBytes [] :: received =>
          (Some (Error (connection_closed "peer closed the connection")), received, stream)
      | RecvBytes chunk :: received => receive_loop received (Feed chunk stream)
      end
  end.

Definition ReceiveFrame (received : list Received) (c : TcpConnection)
    : option (Result Frame) * list Received * TcpConnection :=
  if negb (con_open c) then
    (Some (Error (connection_closed "connection is closed")), received, c)
  else
    let '(result, received, stream) := receive_loop received (con_stream c) in
    (result, received, con_with_stream stream c).

(** The loop of [SendFrame]: what is left to send and what the kernel has taken.
    [send] takes at most what it is given. *)
Fixpoint send_loop (sends : list N) (left taken : list N) : option Status * list N :=
  match left with
  | [] => (Some Status_Ok, taken)
  | _ =>
      match sends with
      | [] => (None, taken)
      | chunk :: sends =>
          if chunk =? 0 then (Some (LastSocketError "send"), taken)
          else send_loop sends (drop (N.to_nat chunk) left) (taken ++ take (N.to_nat chunk) left)
      end
  end.

(** The status, and the bytes handed to the kernel. *)
Definition SendFrame (sends : list N) (frame : Frame) (c : TcpConnection)
    : option Status * list N :=
  if negb (con_open c) then (Some (connection_closed "connection is closed"), [])
  else
    match EncodeFrame frame (con_max_frame_bytes c) with
    | Error status => (Some status, [])
    | Value encoded => send_loop sends encoded []
    end.
End Socket.
