(* ===== verification/WireFacts.v ===== *)
(** * Facts about frames, streams and payloads

    The bytes of a frame, what the stream decoder does with the bytes it has
    pending, and the round trips and exactness of the payload codecs. *)

From Stdlib Require Import String Ascii.
From S2P Require Import Prelude StdAlgo Checked Status Bytes Hash Model Explain Records Codec.
From S2P Require Import CodecFacts CodecExact Wire Transport.

(** ** The bytes of a frame *)

Definition frame_header (f : Frame) : list N :=
  le_bytes 4 (size (fr_body f)) ++ le_bytes 4 (Crc32C_Compute (fr_body f)) ++
  le_bytes 2 (FrameKind_value (fr_kind f)) ++ le_bytes 2 (fr_flags f) ++
  le_bytes 8 (fr_sequence f).

Definition frame_bytes (f : Frame) : list N := frame_header f ++ fr_body f.

(** The fields are values of their C++ types and the body is within the bound. *)
Record frame_fits (max : N) (f : Frame) : Prop := {
  ff_flags : u16_fits (fr_flags f);
  ff_sequence : u64_fits (fr_sequence f);
  ff_body : size (fr_body f) ≤ max;
  ff_bytes : Forall u8_fits (fr_body f);
}.

Lemma frame_header_length f : length (frame_header f) = 20%nat.
Proof. unfold frame_header. by rewrite !length_app, !le_bytes_length. Qed.

Lemma frame_bytes_size f : size (frame_bytes f) = 20 + size (fr_body f).
Proof. unfold frame_bytes, size. rewrite length_app, frame_header_length. lia. Qed.

Lemma put_bytes_app n pre old post bytes :
  length pre = n → length old = length bytes →
  put_bytes n bytes (pre ++ old ++ post) = pre ++ bytes ++ post.
Proof.
  intros <- Hl. unfold put_bytes. rewrite take_app_length, <-Hl. do 2 f_equal.
  by rewrite app_assoc, <-length_app, drop_app_length.
Qed.

Lemma put_bytes_head old post bytes :
  length old = length bytes → put_bytes 0 bytes (old ++ post) = bytes ++ post.
Proof. intros Hl. by apply (put_bytes_app 0 []). Qed.

Lemma EncodeFrame_bytes f max :
  kMinMaxFrameBytes ≤ max → u32_fits max → size (fr_body f) ≤ max →
  EncodeFrame f max = Value (frame_bytes f).
Proof.
  intros Hmin Hmax Hb. unfold EncodeFrame.
  rewrite (proj2 (N.ltb_ge _ _) Hmin), (proj2 (N.ltb_ge _ _) Hb). f_equal.
  unfold PutU32, PutU16, PutU64, kOffsetLength, kOffsetCrc, kOffsetKind, kOffsetFlags,
    kOffsetSequence, kFrameHeaderBytes. rewrite !u16_bytes.
  rewrite wrap_small by (unfold uint_fits in *; lia).
  set (n := length (fr_body f)). replace (N.to_nat (20 + size (fr_body f))) with (4 + (4 + (2 + (2 + (8 + n)))))%nat by (unfold size, n; lia).
  rewrite !replicate_add.
  rewrite (put_bytes_head (replicate 4 0)) by done.
  set (l := le_bytes 4 (size (fr_body f))). set (c := le_bytes 4 (Crc32C_Compute _)).
  rewrite (put_bytes_app 4 l (replicate 4 0)), (app_assoc l) by done.
  rewrite (put_bytes_app 8 (l ++ c) (replicate 2 0)), (app_assoc (l ++ c)) by done.
  set (k := le_bytes 2 (FrameKind_value _)).
  rewrite (put_bytes_app 10 ((l ++ c) ++ k) (replicate 2 0)), (app_assoc ((l ++ c) ++ k)) by done.
  set (g := le_bytes 2 (fr_flags f)).
  rewrite (put_bytes_app 12 (((l ++ c) ++ k) ++ g) (replicate 8 0)),
    (app_assoc (((l ++ c) ++ k) ++ g)) by done.
  set (s := le_bytes 8 (fr_sequence f)). rewrite <-(app_nil_r (replicate n 0)).
  rewrite (put_bytes_app _ ((((l ++ c) ++ k) ++ g) ++ s) (replicate n 0)); [|done|by rewrite length_replicate].
  unfold frame_bytes, frame_header. by rewrite app_nil_r, <-!app_assoc.
Qed.

(** The fields of a header, as slices of the buffer. *)
Lemma header_slices (data : list N) :
  20 ≤ size data →
  ∃ l c k g s body, data = l ++ c ++ k ++ g ++ s ++ body ∧
    length l = 4%nat ∧ length c = 4%nat ∧ length k = 2%nat ∧ length g = 2%nat ∧ length s = 8%nat.
Proof.
  unfold size. intros H.
  do 20 (let b := fresh "b" in destruct data as [|b data]; [cbn in H; lia|]).
  exists [b; b0; b1; b2], [b3; b4; b5; b6], [b7; b8], [b9; b10],
    [b11; b12; b13; b14; b15; b16; b17; b18], data. done.
Qed.

Lemma get_slice n off pre bs post :
  length pre = off → length bs = n → Forall u8_fits bs →
  le_combine n (pre ++ bs ++ post) off = le_value bs.
Proof.
  intros <- Hn Hb. apply le_combine_value; [done..|]. exists post. by rewrite drop_app_length.
Qed.

Lemma GetU16_combine off data : GetU16 off data = le_combine 2 data off.
Proof.
  unfold GetU16, le_combine. cbn [seq fold_left].
  by rewrite Nat.add_0_r, N.lor_0_l, N.mul_0_r, N.shiftl_0_r.
Qed.

Record header_values (data : list N) (l c k g s : list N) : Prop := {
  hv_length : GetU32 kOffsetLength data = le_value l;
  hv_crc : GetU32 kOffsetCrc data = le_value c;
  hv_kind : GetU16 kOffsetKind data = le_value k;
  hv_flags : GetU16 kOffsetFlags data = le_value g;
  hv_sequence : GetU64 kOffsetSequence data = le_value s;
}.

Lemma header_values_of (l c k g s body : list N) :
  length l = 4%nat → length c = 4%nat → length k = 2%nat → length g = 2%nat → length s = 8%nat →
  Forall u8_fits (l ++ c ++ k ++ g ++ s) →
  header_values (l ++ c ++ k ++ g ++ s ++ body) l c k g s.
Proof.
  intros Hl Hc Hk Hg Hs Hu. rewrite !Forall_app in Hu. destruct Hu as (? & ? & ? & ? & ?).
  constructor; rewrite ?GetU16_combine; unfold GetU32, GetU64.
  - apply (get_slice 4 0 [] l); done.
  - apply (get_slice 4 4 l c); done.
  - rewrite (app_assoc l). apply (get_slice 2 8 (l ++ c) k); [|done..].
    rewrite length_app; unfold kOffsetKind; lia.
  - rewrite (app_assoc l), (app_assoc (l ++ c)). apply (get_slice 2 10 ((l ++ c) ++ k) g); [|done..].
    rewrite !length_app; unfold kOffsetFlags; lia.
  - rewrite (app_assoc l), (app_assoc (l ++ c)), (app_assoc ((l ++ c) ++ k)).
    apply (get_slice 8 12 (((l ++ c) ++ k) ++ g) s); [|done..].
    rewrite !length_app; unfold kOffsetSequence; lia.
Qed.

Lemma FrameKind_value_fits v : u16_fits (FrameKind_value v).
Proof. by destruct v. Qed.

Lemma ParseFrameKind_value v : ParseFrameKind (FrameKind_value v) = Some v.
Proof. by destruct v. Qed.

Lemma ParseFrameKind_Some raw v : ParseFrameKind raw = Some v → FrameKind_value v = raw.
Proof. unfold ParseFrameKind. intros H. by repeat (case_match; try done; simplify_eq/=). Qed.

Lemma le_value_le_bytes n v : v < 2 ^ (8 * N.of_nat n) → le_value (le_bytes n v) = v.
Proof. intros Hv. rewrite le_value_bytes. by apply N.mod_small. Qed.

Lemma frame_header_values f rest max :
  u32_fits max → frame_fits max f →
  GetU32 kOffsetLength (frame_header f ++ rest) = size (fr_body f) ∧
  GetU32 kOffsetCrc (frame_header f ++ rest) = Crc32C_Compute (fr_body f) ∧
  GetU16 kOffsetKind (frame_header f ++ rest) = FrameKind_value (fr_kind f) ∧
  GetU16 kOffsetFlags (frame_header f ++ rest) = fr_flags f ∧
  GetU64 kOffsetSequence (frame_header f ++ rest) = fr_sequence f.
Proof.
  intros Hm [Hg Hs Hb _]. unfold frame_header. rewrite <-!app_assoc.
  destruct (header_values_of (le_bytes 4 (size (fr_body f))) (le_bytes 4 (Crc32C_Compute (fr_body f)))
    (le_bytes 2 (FrameKind_value (fr_kind f))) (le_bytes 2 (fr_flags f))
    (le_bytes 8 (fr_sequence f)) rest) as [-> -> -> -> ->];
    [apply le_bytes_length..| |].
  - rewrite !Forall_app. by split_and!; apply le_bytes_u8.
  - rewrite !le_value_le_bytes; [done|done|done|apply FrameKind_value_fits|
      apply Crc32C_Compute_fits|unfold uint_fits in *; cbn; lia].
Qed.

(** A header followed by a body of the length it declares. *)
Lemma DecodeFrame_header max f body :
  u32_fits max → frame_fits max f → size body = size (fr_body f) →
  DecodeFrame (frame_header f ++ body) max =
  if Crc32C_Compute body =? Crc32C_Compute (fr_body f)
  then Value (mkFrame (fr_kind f) (fr_flags f) (fr_sequence f) body)
  else Error (mkStatus StatusCode.kFrameChecksumMismatch "frame checksum mismatch").
Proof.
  intros Hm Hf Hsz. pose proof (frame_header_values f body max Hm Hf) as (H1 & H2 & H3 & H4 & H5).
  destruct Hf as [_ _ Hb _].
  assert (size (frame_header f ++ body) = 20 + size (fr_body f)) as Hs.
  { rewrite <-Hsz. unfold size. rewrite length_app, frame_header_length. lia. }
  unfold DecodeFrame, kFrameHeaderBytes. rewrite H1, H2, H3, H4, H5, Hs.
  rewrite (proj2 (N.ltb_ge _ _)) by lia. rewrite (proj2 (N.ltb_ge _ _) Hb), N.eqb_refl.
  rewrite (drop_app_length' (frame_header f)) by (by rewrite frame_header_length).
  cbn [negb]. destruct (Crc32C_Compute body =? Crc32C_Compute (fr_body f)); [|done].
  cbn [negb]. by rewrite ParseFrameKind_value.
Qed.

Lemma DecodeFrame_bytes f max :
  u32_fits max → frame_fits max f → DecodeFrame (frame_bytes f) max = Value f.
Proof.
  intros Hm Hf. unfold frame_bytes. rewrite DecodeFrame_header, N.eqb_refl by done. by destruct f.
Qed.

Lemma DecodeFrame_exact data max f :
  Forall u8_fits data → DecodeFrame data max = Value f → data = frame_bytes f ∧ frame_fits max f.
Proof.
  intros Hu. unfold DecodeFrame, kFrameHeaderBytes.
  destruct (N.ltb_spec (size data) 20) as [|Hsz]; [done|].
  destruct (header_slices data Hsz) as (l & c & k & g & s & body & -> & Hl & Hc & Hk & Hg & Hs).
  assert (Forall u8_fits (l ++ c ++ k ++ g ++ s) ∧ Forall u8_fits body) as [Hh Hbody].
  { rewrite <-Forall_app. by rewrite <-!app_assoc. }
  destruct (header_values_of l c k g s body) as [-> -> -> -> ->]; [done..|].
  destruct (N.ltb_spec max (le_value l)) as [|Hmax]; [done|].
  destruct (N.eqb_spec (size (l ++ c ++ k ++ g ++ s ++ body)) (20 + le_value l)) as [Hsize|]; [|done].
  cbn [negb]. assert (size body = le_value l) as Hb.
  { unfold size in *. rewrite !length_app in Hsize. lia. }
  rewrite !(app_assoc _ _ (_ ++ _)), !app_assoc.
  rewrite drop_app_length' by (rewrite !length_app; lia).
  destruct (N.eqb_spec (Crc32C_Compute body) (le_value c)) as [Hcrc|]; [|done]. cbn [negb].
  destruct (ParseFrameKind (le_value k)) as [kind|] eqn:Hkind; [|done]. intros [= <-].
  apply ParseFrameKind_Some in Hkind. rewrite !Forall_app in Hh. destruct Hh as (?&?&?&?&?).
  split.
  - unfold frame_bytes, frame_header. cbn [fr_body fr_kind fr_flags fr_sequence].
    rewrite Hb, Hcrc, Hkind, <-!app_assoc. rewrite <-Hl at 1. rewrite <-Hc at 1.
    rewrite <-Hk at 1. rewrite <-Hg at 1. rewrite <-Hs at 1. by rewrite !le_bytes_value.
  - constructor; cbn [fr_body fr_kind fr_flags fr_sequence]; [| |lia|done].
    + pose proof (le_value_bound g ltac:(done)) as Hv. by rewrite Hg in Hv.
    + pose proof (le_value_bound s ltac:(done)) as Hv. by rewrite Hs in Hv.
Qed.

(** ** The stream decoder as a function of the pending bytes *)

Definition pending (s : FrameStream) : list N := drop (fs_offset s) (fs_buffer s).

(** The first frame of [bytes] and what follows it, or [None] when more bytes
    are needed. *)
Definition next_frame (max : N) (bytes : list N) : Result (option (Frame * list N)) :=
  if size bytes <? kFrameHeaderBytes then Value None else
  let declared := GetU32 kOffsetLength bytes in
  if max <? declared then
    Error (mkStatus StatusCode.kFrameTooLarge
             "declared frame length exceeds the negotiated bound") else
  let total := kFrameHeaderBytes + declared in
  if size bytes <? total then Value None else
  match DecodeFrame (take (N.to_nat total) bytes) max with
  | Error status => Error status
  | Value frame => Value (Some (frame, drop (N.to_nat total) bytes))
  end.

Lemma FrameStream_Next_spec s :
  FrameStream_Next s =
  let max := fs_max_frame_bytes s in
  match next_frame max (pending s) with
  | Error status => (Error status, mkStream (pending s) 0 max)
  | Value None => (Value None, mkStream (pending s) 0 max)
  | Value (Some (frame, rest)) => (Value (Some frame), mkStream rest 0 max)
  end.
Proof.
  destruct s as [buffer offset max]. unfold FrameStream_Next, next_frame, pending. cbn.
  assert ((if Nat.eqb offset 0 then buffer else drop offset buffer) = drop offset buffer) as ->.
  { by destruct offset. }
  by repeat case_match; simplify_eq/=.
Qed.

Lemma GetU32_app bytes more :
  20 ≤ size bytes → GetU32 kOffsetLength (bytes ++ more) = GetU32 kOffsetLength bytes.
Proof.
  intros H. destruct (header_slices bytes H) as (l & c & k & g & s & body & -> & Hl & _).
  do 4 (let b := fresh "b" in destruct l as [|b l]; [done|]). done.
Qed.

Lemma next_frame_app max bytes more :
  match next_frame max bytes with
  | Value None => True
  | Error status => next_frame max (bytes ++ more) = Error status
  | Value (Some (frame, rest)) => next_frame max (bytes ++ more) = Value (Some (frame, rest ++ more))
  end.
Proof.
  unfold next_frame, kFrameHeaderBytes. destruct (N.ltb_spec (size bytes) 20) as [|Hs]; [done|].
  assert (size (bytes ++ more) = size bytes + size more) as Happ by (unfold size; rewrite length_app; lia).
  rewrite GetU32_app, Happ by done. rewrite (proj2 (N.ltb_ge (size bytes + _) 20)) by lia.
  set (declared := GetU32 kOffsetLength bytes). destruct (N.ltb_spec max declared); [done|].
  destruct (N.ltb_spec (size bytes) (20 + declared)) as [|Ht]; [done|].
  rewrite (proj2 (N.ltb_ge (size bytes + _) (20 + declared))) by lia.
  assert (N.to_nat (20 + declared) ≤ length bytes)%nat by (unfold size in Ht; lia).
  rewrite take_app_le, drop_app_le by done.
  by destruct (DecodeFrame (take (N.to_nat (20 + declared)) bytes) max).
Qed.

Lemma next_frame_exact max bytes f rest :
  Forall u8_fits bytes → next_frame max bytes = Value (Some (f, rest)) →
  bytes = frame_bytes f ++ rest ∧ frame_fits max f.
Proof.
  intros Hu. unfold next_frame. repeat (case_match; try done). intros [= <- <-].
  match goal with H : DecodeFrame _ _ = _ |- _ => apply DecodeFrame_exact in H as [H Hf];
    [|by apply Forall_take]; rewrite <-H end.
  by rewrite take_drop.
Qed.

Lemma next_frame_header max f body rest :
  u32_fits max → frame_fits max f → size body = size (fr_body f) →
  next_frame max (frame_header f ++ body ++ rest) =
  match DecodeFrame (frame_header f ++ body) max with
  | Error status => Error status
  | Value frame => Value (Some (frame, rest))
  end.
Proof.
  intros Hm Hf Hsz. pose proof (frame_header_values f (body ++ rest) max Hm Hf) as (H1 & _).
  pose proof (ff_body _ _ Hf) as Hb.
  assert (length (frame_header f ++ body) = N.to_nat (20 + size (fr_body f))) as Hl.
  { rewrite length_app, frame_header_length, <-Hsz. unfold size. lia. }
  unfold next_frame, kFrameHeaderBytes. rewrite H1, app_assoc.
  rewrite (proj2 (N.ltb_ge (size _) 20)) by (unfold size; rewrite length_app; lia).
  rewrite (proj2 (N.ltb_ge _ _) Hb).
  rewrite (proj2 (N.ltb_ge (size _) _)) by (unfold size; rewrite length_app; unfold size in Hl; lia).
  by rewrite take_app_length', drop_app_length' by done.
Qed.

Lemma next_frame_bytes max f rest :
  u32_fits max → frame_fits max f →
  next_frame max (frame_bytes f ++ rest) = Value (Some (f, rest)).
Proof.
  intros Hm Hf. unfold frame_bytes. rewrite <-app_assoc, next_frame_header by done.
  change (frame_header f ++ fr_body f) with (frame_bytes f). by rewrite DecodeFrame_bytes.
Qed.

Lemma next_frame_none max bytes :
  next_frame max bytes = Value None → size bytes < 20 + max.
Proof.
  unfold next_frame, kFrameHeaderBytes. destruct (N.ltb_spec (size bytes) 20); [lia|].
  case_match eqn:Hm; [done|]. apply N.ltb_ge in Hm.
  case_match eqn:Ht; [apply N.ltb_lt in Ht; lia|]. by case_match.
Qed.

(** ** The receive loop *)

Section Receive.
Context (strerror : string).

Lemma pending_Feed chunk s : fs_offset s = 0%nat → pending (Feed chunk s) = pending s ++ chunk.
Proof. unfold pending, Feed. cbn. intros ->. done. Qed.

(** The loop over chunks that arrive before [tail], as one read of the bytes. *)
Lemma receive_loop_spec chunks : ∀ tail s,
  Forall (.≠ []) chunks →
  let max := fs_max_frame_bytes s in
  match next_frame max (pending s ++ mjoin chunks) with
  | Error status =>
      ∃ left s', receive_loop strerror ((RecvBytes <$> chunks) ++ tail) s =
                 (Some (Error status), (RecvBytes <$> left) ++ tail, s')
  | Value (Some (frame, rest)) =>
      ∃ left s', receive_loop strerror ((RecvBytes <$> chunks) ++ tail) s =
                 (Some (Value frame), (RecvBytes <$> left) ++ tail, s') ∧
                 Forall (.≠ []) left ∧ pending s' ++ mjoin left = rest ∧ fs_max_frame_bytes s' = max
  | Value None =>
      receive_loop strerror ((RecvBytes <$> chunks) ++ tail) s =
      receive_loop strerror tail (mkStream (pending s ++ mjoin chunks) 0 max)
  end.
Proof.
  induction chunks as [|chunk chunks IH]; intros tail s Hc max; cbn [fmap list_fmap app].
  - rewrite app_nil_r. destruct (next_frame max (pending s)) as [[[frame rest]|]|status] eqn:E.
    + exists [], (mkStream rest 0 max). destruct tail; cbn [receive_loop];
        rewrite FrameStream_Next_spec; cbv zeta; fold max; rewrite E;
        (split_and!; [done|done|exact (app_nil_r rest)|done]).
    + destruct tail; cbn [receive_loop]; rewrite !FrameStream_Next_spec; cbv zeta; fold max;
        cbn [fs_max_frame_bytes]; change (pending (mkStream (pending s) 0 max)) with (pending s);
        by rewrite E.
    + exists [], (mkStream (pending s) 0 max). destruct tail; cbn [receive_loop];
        rewrite FrameStream_Next_spec; cbv zeta; fold max; by rewrite E.
  - apply Forall_cons in Hc as [Hne Hc]. cbn [receive_loop].
    rewrite FrameStream_Next_spec. cbv zeta. fold max.
    pose proof (next_frame_app max (pending s) (chunk ++ mjoin chunks)) as Happ.
    change (mjoin (chunk :: chunks)) with (chunk ++ mjoin chunks).
    destruct (next_frame max (pending s)) as [[[frame rest]|]|status]; [rewrite Happ| |rewrite Happ].
    + exists (chunk :: chunks), (mkStream rest 0 max). split; [done|]. by rewrite Forall_cons.
    + destruct chunk as [|b chunk]; [done|].
      specialize (IH tail (Feed (b :: chunk) (mkStream (pending s) 0 max)) Hc).
      rewrite pending_Feed in IH by done. cbv zeta in IH. cbn [fs_max_frame_bytes Feed] in IH.
      change (pending (mkStream (pending s) 0 max)) with (pending s) in IH.
      rewrite <-app_assoc in IH. exact IH.
    + by exists (chunk :: chunks), (mkStream (pending s) 0 max).
Qed.
(** A kernel that takes something in every call takes everything. *)
Lemma send_loop_all sends : ∀ left taken,
  Forall (.≠ 0) sends → (length left ≤ length sends)%nat →
  send_loop strerror sends left taken = (Some Status_Ok, taken ++ left).
Proof.
  induction sends as [|chunk sends IH]; intros left taken Hs Hl.
  - destruct left; [|cbn in Hl; lia]. cbn. by rewrite app_nil_r.
  - destruct left as [|b left]; [cbn; by rewrite app_nil_r|]. apply Forall_cons in Hs as [Hne Hs].
    cbn [send_loop]. rewrite (proj2 (N.eqb_neq _ _) Hne). rewrite IH; [|done|].
    + by rewrite <-app_assoc, take_drop.
    + cbn [length] in Hl. rewrite length_drop. cbn [length]. lia.
Qed.
End Receive.

(** ** Payloads *)

Definition hello_fits (v : HelloPayload) : Prop :=
  u32_fits (hello_protocol_version v) ∧
  Forall u64_fits [hello_incarnation v; hello_epoch v; hello_worker v] ∧
  u32_fits (hello_max_frame_bytes v) ∧ kMinMaxFrameBytes ≤ hello_max_frame_bytes v ∧
  text_fits kMaxWireStringBytes (hello_build v).

Definition hello_ack_fits (v : HelloAckPayload) : Prop :=
  u32_fits (ack_protocol_version v) ∧ Forall u64_fits [ack_coordinator v; ack_epoch v] ∧
  u32_fits (ack_max_frame_bytes v) ∧ u32_fits (ack_worker_limit v) ∧
  kMinMaxFrameBytes ≤ ack_max_frame_bytes v ∧
  text_fits kMaxWireStringBytes (ack_build v) ∧ text_fits kMaxWireStringBytes (ack_message v).

Definition place_request_fits (limits : Limits) (v : PlaceRequestPayload) : Prop :=
  Forall u64_fits [preq_attempt v; preq_epoch v] ∧ request_fits limits (preq_request v).

Definition place_result_fits (limits : Limits) (v : PlaceResultPayload) : Prop :=
  Forall u64_fits [pres_attempt v; pres_placement_id v; pres_placement_generation v] ∧
  decision_fits limits (pres_decision v).

Definition epoch_payload_fits (v : EpochPayload) : Prop :=
  Forall u64_fits [epoch_epoch v; epoch_previous v] ∧
  text_fits kMaxWireStringBytes (epoch_message v).

Definition error_payload_fits (v : ErrorPayload) : Prop :=
  u64_fits (err_attempt v) ∧ text_fits kMaxWireStringBytes (err_message v).

#[export] Hint Rewrite (appends (write := EncodeRequest)) (appends (write := EncodeDecision)) : enc.

#[export] Instance EncodeHello_appends : Appends EncodeHello.
Proof. encode EncodeHello. Qed.
#[export] Instance EncodeHelloAck_appends : Appends EncodeHelloAck.
Proof. encode EncodeHelloAck. Qed.
#[export] Instance EncodePlaceRequest_appends : Appends EncodePlaceRequest.
Proof. encode EncodePlaceRequest. Qed.
#[export] Instance EncodePlaceResult_appends : Appends EncodePlaceResult.
Proof. encode EncodePlaceResult. Qed.
#[export] Instance EncodeEpochPayload_appends : Appends EncodeEpochPayload.
Proof. encode EncodeEpochPayload. Qed.
#[export] Instance EncodeErrorPayload_appends : Appends EncodeErrorPayload.
Proof. encode EncodeErrorPayload. Qed.

(** The last field of a payload with its end, then the tests before it. *)
Ltac payload_inverts write decode fits :=
  let v := fresh "v" in let H := fresh "H" in
  intros v H; unfold fits in H; open_fits; unfold bytes_of at 1; unfold write;
  autorewrite with enc; rewrite ?app_nil_l, <-?app_assoc; unfold decode.

Lemma decodes_all_ensure {B} ok code message (k : unit → Decoder B) bs b :
  ok = true → decodes_all (k tt) bs b → decodes_all (ensure ok code message ≫= k) bs b.
Proof. intros -> Hk pre. cbn. apply Hk. Qed.

Lemma DecodeHello_inverts :
  ∀ v, hello_fits v → decodes_all DecodeHello (bytes_of (EncodeHello v)) v.
Proof.
  payload_inverts EncodeHello DecodeHello hello_fits. do 5 decode_all_field.
  apply decodes_all_ensure; [b2p; lia|].
  eapply decodes_all_end; [apply decodes_expect; eauto with codec|]. by destruct v.
Qed.

Lemma DecodeHelloAck_inverts :
  ∀ v, hello_ack_fits v → decodes_all DecodeHelloAck (bytes_of (EncodeHelloAck v)) v.
Proof.
  payload_inverts EncodeHelloAck DecodeHelloAck hello_ack_fits. do 5 decode_all_field.
  apply decodes_all_ensure; [b2p; lia|]. decode_all_field.
  eapply decodes_all_bind; [apply decodes_expect, (reads_wU8 (if ack_accepted v then 1 else 0)); by destruct (ack_accepted v)|].
  apply decodes_all_ensure; [by destruct (ack_accepted v)|]. decode_all_field.
  eapply decodes_all_end; [apply decodes_expect; eauto with codec|].
  by destruct v as [? ? ? ? ? ? [] ? ?].
Qed.

Lemma decodes_all_bind_ret {A B} (m : Decoder A) (f : A → B) bs a :
  decodes_all m bs a → decodes_all (x ← m; mret (f x)) bs (f a).
Proof. intros Hm pre. unfold mbind, Decoder_bind. by rewrite Hm. Qed.

Lemma DecodePlaceRequest_inverts limits :
  ∀ v, place_request_fits limits v →
  decodes_all (DecodePlaceRequest limits) (bytes_of (EncodePlaceRequest v)) v.
Proof.
  payload_inverts EncodePlaceRequest DecodePlaceRequest place_request_fits.
  do 2 decode_all_field. destruct v as [attempt epoch request].
  apply (decodes_all_bind_ret (DecodeRequest limits) (mkPlaceRequest attempt epoch)).
  by apply DecodeRequest_inverts.
Qed.

Lemma AttemptState_of_ordinal v : AttemptState_of (AttemptState_ordinal v) = v.
Proof. by destruct v. Qed.
Lemma state_range v : AttemptState_ordinal v ≤ 6.
Proof. by destruct v. Qed.
#[export] Hint Resolve state_range : codec.

Lemma DecodePlaceResult_inverts limits :
  ∀ v, place_result_fits limits v →
  decodes_all (DecodePlaceResult limits) (bytes_of (EncodePlaceResult v)) v.
Proof.
  payload_inverts EncodePlaceResult DecodePlaceResult place_result_fits.
  do 5 decode_all_field. rewrite AttemptState_of_ordinal.
  destruct v as [attempt state code id generation decision].
  apply (decodes_all_bind_ret (DecodeDecision limits) (mkPlaceResult attempt state code id generation)).
  by apply DecodeDecision_inverts.
Qed.

Lemma DecodeEpochPayload_inverts :
  ∀ v, epoch_payload_fits v → decodes_all DecodeEpochPayload (bytes_of (EncodeEpochPayload v)) v.
Proof.
  payload_inverts EncodeEpochPayload DecodeEpochPayload epoch_payload_fits. do 3 decode_all_field.
  eapply decodes_all_end; [apply decodes_expect; eauto with codec|]. by destruct v.
Qed.

Lemma DecodeErrorPayload_inverts :
  ∀ v, error_payload_fits v → decodes_all DecodeErrorPayload (bytes_of (EncodeErrorPayload v)) v.
Proof.
  payload_inverts EncodeErrorPayload DecodeErrorPayload error_payload_fits. do 2 decode_all_field.
  eapply decodes_all_end; [apply decodes_expect; eauto with codec|]. by destruct v.
Qed.

Lemma AttemptState_ordinal_of raw : raw ≤ 6 → AttemptState_ordinal (AttemptState_of raw) = raw.
Proof. apply (bounded_forall (λ raw, _ (_ raw) = raw)). by repeat constructor. Qed.

#[local] Arguments bytes_of : simpl never.
#[local] Arguments AttemptState_of : simpl never.

Lemma accepts_hello : exactly (ok_of DecodeHello) EncodeHello hello_fits.
Proof.
  unfold DecodeHello. repeat accept_field. b2p. split; [same_bytes EncodeHello|fields_fit hello_fits].
Qed.

Lemma accepts_hello_ack : exactly (ok_of DecodeHelloAck) EncodeHelloAck hello_ack_fits.
Proof.
  unfold DecodeHelloAck. repeat accept_field. b2p. split; [|fields_fit hello_ack_fits].
  assert (wFlag (negb (a5 =? 0)) = wU8 a5) as Hflag.
  { unfold wFlag. assert (a5 = 0 ∨ a5 = 1) as [-> | ->] by lia; done. }
  symmetry. parts EncodeHelloAck. cbn. rewrite Hflag. by rewrite !app_nil_r.
Qed.

Lemma accepts_epoch_payload :
  exactly (ok_of DecodeEpochPayload) EncodeEpochPayload epoch_payload_fits.
Proof.
  unfold DecodeEpochPayload. repeat accept_field.
  split; [same_bytes EncodeEpochPayload|fields_fit epoch_payload_fits].
Qed.

Lemma accepts_error_payload :
  exactly (ok_of DecodeErrorPayload) EncodeErrorPayload error_payload_fits.
Proof.
  unfold DecodeErrorPayload. repeat accept_field.
  split; [same_bytes EncodeErrorPayload|fields_fit error_payload_fits].
Qed.

#[local] Hint Resolve accepts_decision accepts_request : exact.

Lemma accepts_place_result limits :
  exactly (ok_of (DecodePlaceResult limits)) EncodePlaceResult (place_result_fits limits).
Proof.
  unfold DecodePlaceResult. repeat accept_field. split; [|fields_fit place_result_fits].
  symmetry. parts EncodePlaceResult. cbn. rewrite AttemptState_ordinal_of by done.
  by rewrite app_nil_r.
Qed.

Lemma accepts_place_request limits :
  consumes (ok_of (DecodePlaceRequest limits)) (λ _, place_request_fits limits).
Proof. unfold DecodePlaceRequest. repeat accept_field. fields_fit place_request_fits. Qed.

Lemma ends_bind_ret {A B} (m : Decoder A) (f : A → B) : ends m → ends (x ← m; mret (f x)).
Proof.
  intros Hm r b r'. unfold mbind, Decoder_bind. destruct (m r) as [[a r1]|] eqn:E; [|done].
  intros [= _ <-]. by eapply Hm.
Qed.

Lemma DecodePlaceRequest_ends limits : ends (DecodePlaceRequest limits).
Proof.
  unfold DecodePlaceRequest. do 2 (apply ends_bind; intros ?).
  apply ends_bind_ret. unfold DecodeRequest. at_end.
Qed.

Lemma DecodePlaceResult_ends limits : ends (DecodePlaceResult limits).
Proof.
  unfold DecodePlaceResult. do 5 (apply ends_bind; intros ?).
  apply ends_bind_ret. unfold DecodeDecision. at_end.
Qed.
