(* ===== verification/Store.v ===== *)
(** * The placement store: records and recovery

    The data of [store.cpp], the record format of the journal, the snapshot, and
    [Open] with the recovery that reads both.  A file is the list of its bytes,
    absent as [None]; temporary files do not outlive a call and are left out.
    Opening, reading, seeking and truncating succeed.  [StoreOps] has the
    operations on an open store. *)

From Stdlib Require Import String.
From S2P Require Import Prelude StdAlgo Checked Status Bytes Hash Model Explain Records Codec Wire.

Definition kRecordMagic : N := 0x43525046.
Definition kRecordEndMagic : N := 0x444E4546.
Definition kSnapshotMagic : N := 0x4E535046.
Definition kSnapshotEndMagic : N := 0x45535046.
Definition kHeaderBytes : N := 28.
Definition kTrailerBytes : N := 8.
Definition kRecordTypePlacement : N := 1.
Definition kRecordTypeAttempt : N := 2.
Definition kRecordTypeJournalReset : N := 3.
Definition kStoreFormatVersion : N := 1.

Record StoreOptions := mkOptions {
  fsync_on_append : bool;
  repair_torn_tail : bool;
  read_only : bool;
  max_record_bytes : N;
  max_journal_records : N;
  max_total_records : N;
}.

Definition default_options : StoreOptions :=
  mkOptions true true false (N.shiftl 1 20) 8192 (N.shiftl 1 22).

Record StoreStats := mkStats {
  ss_journal_records : N;
  ss_journal_bytes : N;
  ss_snapshot_bytes : N;
  ss_compactions : N;
  ss_appends : N;
  ss_syncs : N;
}.

(** ** In-memory state *)

Record Impl := mkImpl {
  im_placements : list PlacementRecord;
  im_latest_by_flow : gmap N nat;
  im_attempts : gmap N AttemptRecord;
  im_commit_by_attempt : gmap N nat;
  im_next_placement_id : N;
  im_max_sequence : N;
  im_closed : bool;
  im_compaction_in_progress : bool;
}.

Definition Impl_init : Impl := mkImpl [] ∅ ∅ ∅ 1 0 false false.

Definition im_with_sequence (sequence : N) (impl : Impl) : Impl :=
  mkImpl (im_placements impl) (im_latest_by_flow impl) (im_attempts impl)
    (im_commit_by_attempt impl) (im_next_placement_id impl) sequence (im_closed impl)
    (im_compaction_in_progress impl).

Definition im_with_next_id (next_id : N) (impl : Impl) : Impl :=
  mkImpl (im_placements impl) (im_latest_by_flow impl) (im_attempts impl)
    (im_commit_by_attempt impl) next_id (im_max_sequence impl) (im_closed impl)
    (im_compaction_in_progress impl).

Definition im_with_attempts (attempts : gmap N AttemptRecord) (impl : Impl) : Impl :=
  mkImpl (im_placements impl) (im_latest_by_flow impl) attempts
    (im_commit_by_attempt impl) (im_next_placement_id impl) (im_max_sequence impl)
    (im_closed impl) (im_compaction_in_progress impl).

Definition im_with_compacting (compacting : bool) (impl : Impl) : Impl :=
  mkImpl (im_placements impl) (im_latest_by_flow impl) (im_attempts impl)
    (im_commit_by_attempt impl) (im_next_placement_id impl) (im_max_sequence impl)
    (im_closed impl) compacting.

Definition im_with_closed (closed : bool) (impl : Impl) : Impl :=
  mkImpl (im_placements impl) (im_latest_by_flow impl) (im_attempts impl)
    (im_commit_by_attempt impl) (im_next_placement_id impl) (im_max_sequence impl)
    closed (im_compaction_in_progress impl).

(** [impl_->attempts[record.attempt] = record]. *)
Definition put_attempt (record : AttemptRecord) (impl : Impl) : Impl :=
  im_with_attempts (<[at_attempt record := record]> (im_attempts impl)) impl.

(** The push of a placement and the updates of its two indices. *)
Definition push_placement (record : PlacementRecord) (impl : Impl) : Impl :=
  let index := length (im_placements impl) in
  let intent := pl_intent record in
  mkImpl (im_placements impl ++ [record])
    (<[int_flow intent := index]> (im_latest_by_flow impl)) (im_attempts impl)
    (if valid (int_attempt intent)
     then <[int_attempt intent := index]> (im_commit_by_attempt impl)
     else im_commit_by_attempt impl)
    (im_next_placement_id impl) (im_max_sequence impl) (im_closed impl)
    (im_compaction_in_progress impl).

(** [Impl::Latest]. *)
Definition Latest (flow : N) (impl : Impl) : option PlacementRecord :=
  index ← im_latest_by_flow impl !! flow;
  im_placements impl !! index.

(** The iteration of a [std::map] with integral keys. *)
Definition ordered_entries {V} (m : gmap N V) : list (N * V) := std_sort (by_key fst) (map_to_list m).

(** ** Records *)

Record RecordHeader := mkHeader {
  hd_type : N;
  hd_flags : N;
  hd_sequence : N;
  hd_payload_length : N;
  hd_payload_crc : N;
}.

Definition ParseHeader (raw : list N) (copy_limit : N) : option RecordHeader :=
  if negb (GetU32 0 raw =? kRecordMagic) then None else
  if negb (GetU32 4 raw =? kStoreFormatVersion) then None else
  let type := GetU16 8 raw in
  if negb (type =? kRecordTypePlacement) && negb (type =? kRecordTypeAttempt) &&
     negb (type =? kRecordTypeJournalReset) then None else
  let flags := GetU16 10 raw in
  if negb (flags =? 0) then None else
  let payload_length := GetU32 20 raw in
  if copy_limit <? payload_length then None else
  Some (mkHeader type flags (GetU64 12 raw) payload_length (GetU32 24 raw)).

(** The record at [offset]: its header, its payload and the offset of the next
    record; [None] where any of the reads and checks fails. *)
Definition read_record (copy_limit : N) (data : list N) (offset : N)
    : option (RecordHeader * list N * N) :=
  let rest := drop (N.to_nat offset) data in
  if size rest <? kHeaderBytes then None else
  let header := take (N.to_nat kHeaderBytes) rest in
  parsed ← ParseHeader header copy_limit;
  let length := N.to_nat (hd_payload_length parsed) in
  let rest := drop (N.to_nat kHeaderBytes) rest in
  if size rest <? hd_payload_length parsed then None else
  let payload := take length rest in
  let rest := drop length rest in
  if size rest <? kTrailerBytes then None else
  let trailer := take (N.to_nat kTrailerBytes) rest in
  if negb (GetU32 4 trailer =? kRecordEndMagic) ||
     negb (Crc32C_Compute payload =? hd_payload_crc parsed) then None else
  let record_hasher := Crc32C_Update (Crc32C_Update Crc32C_init header) payload in
  if negb (Crc32C_value record_hasher =? GetU32 0 trailer) then None else
  Some (parsed, payload,
        offset + kHeaderBytes + hd_payload_length parsed + kTrailerBytes).

(** The bytes [AppendRecordRaw] builds for one record. *)
Definition encode_record (type sequence : N) (payload : list N) : list N :=
  let record := le_bytes 4 kRecordMagic ++ le_bytes 4 kStoreFormatVersion ++
    [N.land type 255; N.land (N.shiftr type 8) 255; 0; 0] ++ le_bytes 8 sequence ++
    le_bytes 4 (wrap 32 (size payload)) ++ le_bytes 4 (Crc32C_Compute payload) ++ payload in
  record ++ le_bytes 4 (Crc32C_Compute record) ++ le_bytes 4 kRecordEndMagic.

(** ** The recovery report while it is built *)

Definition report_init : RecoveryReport :=
  mkReport false false false 0 0 0 0 0 0 0 0 0 0 0 0 0 0 0 [] [] "".

Definition rep_with_loading (truncated_tail snapshot_loaded : bool)
    (bytes_discarded records_valid retired_attempts : N) (detail : string) (r : RecoveryReport)
    : RecoveryReport :=
  mkReport (rep_liveness_restored r) truncated_tail snapshot_loaded bytes_discarded records_valid
    (rep_placements_total r) (rep_attempts_total r) (rep_committed_attempts r)
    (rep_rejected_attempts r) (rep_cancelled_attempts r) (rep_fenced_attempts r)
    (rep_unfinished_attempts r) (rep_superseded_placements r)
    (rep_placements_requiring_revalidation r) retired_attempts (rep_max_sequence r)
    (rep_last_epoch r) (rep_last_incarnation r) (rep_latest_by_flow r) (rep_unfinished r) detail.

Definition rep_snapshot (r : RecoveryReport) : RecoveryReport :=
  rep_with_loading (rep_truncated_tail r) true (rep_bytes_discarded r) (rep_records_valid r)
    (rep_retired_attempts r) (rep_detail r) r.

Definition rep_retire (retired : N) (r : RecoveryReport) : RecoveryReport :=
  rep_with_loading (rep_truncated_tail r) (rep_snapshot_loaded r) (rep_bytes_discarded r)
    (rep_records_valid r) retired (rep_detail r) r.

Definition rep_record_valid (r : RecoveryReport) : RecoveryReport :=
  rep_with_loading (rep_truncated_tail r) (rep_snapshot_loaded r) (rep_bytes_discarded r)
    (rep_records_valid r + 1) (rep_retired_attempts r) (rep_detail r) r.

Definition rep_torn (remaining : N) (r : RecoveryReport) : RecoveryReport :=
  rep_with_loading true (rep_snapshot_loaded r) (rep_bytes_discarded r + remaining)
    (rep_records_valid r) (rep_retired_attempts r) (rep_detail r) r.

Definition rep_say (text : string) (r : RecoveryReport) : RecoveryReport :=
  rep_with_loading (rep_truncated_tail r) (rep_snapshot_loaded r) (rep_bytes_discarded r)
    (rep_records_valid r) (rep_retired_attempts r) (rep_detail r ++ text) r.

Definition store_corrupt (message : string) : Status := mkStatus StatusCode.kStoreCorrupt message.

(** ** The snapshot *)

Definition snapshot_count (max_total_records : N) (truncated oversize : string) : Decoder N :=
  count ← expect StatusCode.kStoreCorrupt truncated rU32;
  _ ← ensure (negb (max_total_records <? count)) StatusCode.kStoreCorrupt oversize;
  mret count.

(** The next identifier, the sequence covered, the retired count, the placements
    and the attempts of a snapshot payload. *)
Definition DecodeSnapshotPayload (options : StoreOptions)
    : Decoder (N * N * N * list PlacementRecord * list AttemptRecord) :=
  next_id ← corrupt "snapshot payload header is truncated" rU64;
  max_sequence ← corrupt "snapshot payload header is truncated" rU64;
  retired ← corrupt "snapshot payload header is truncated" rU64;
  placement_count ← snapshot_count (max_total_records options)
                      "snapshot payload header is truncated"
                      "snapshot lists too many placements";
  placements ← decode_each (N.to_nat placement_count) DecodePlacementRecord;
  attempt_count ← snapshot_count (max_total_records options)
                    "snapshot attempt list is truncated" "snapshot lists too many attempts";
  attempts ← decode_each (N.to_nat attempt_count) DecodeAttemptRecord;
  _ ← expect_end StatusCode.kStoreCorrupt "snapshot payload has trailing bytes";
  mret (next_id, max_sequence, retired, placements, attempts).

(** The container of the snapshot file, down to its payload. *)
Definition read_snapshot (options : StoreOptions) (data : list N) : Result (list N) :=
  if size data <? 16 then Error (store_corrupt "snapshot header is truncated") else
  if negb (GetU32 0 data =? kSnapshotMagic) then Error (store_corrupt "snapshot magic mismatch") else
  if negb (GetU32 4 data =? kStoreFormatVersion) then
    Error (mkStatus StatusCode.kStoreVersionUnsupported "unsupported snapshot format version") else
  let payload_length := GetU32 8 data in
  let payload_crc := GetU32 12 data in
  if max_record_bytes options <? payload_length then
    Error (store_corrupt "snapshot payload exceeds the configured bound") else
  let rest := drop 16 data in
  if size rest <? payload_length then Error (store_corrupt "snapshot payload is truncated") else
  let payload := take (N.to_nat payload_length) rest in
  let rest := drop (N.to_nat payload_length) rest in
  if size rest <? 8 then Error (store_corrupt "snapshot trailer is truncated") else
  if negb (GetU32 4 rest =? kSnapshotEndMagic) then
    Error (store_corrupt "snapshot end magic mismatch") else
  if negb (Crc32C_Compute payload =? payload_crc) then
    Error (store_corrupt "snapshot payload checksum mismatch") else
  if 8 <? size rest then Error (store_corrupt "snapshot has trailing bytes") else
  Value payload.

Definition LoadSnapshot (options : StoreOptions) (data : list N) (recovery : RecoveryReport)
    : Result (Impl * RecoveryReport) :=
  match read_snapshot options data with
  | Error status => Error status
  | Value payload =>
      match DecodeSnapshotPayload options (mkReader payload 0) with
      | Error status => Error status
      | Value (next_id, max_sequence, retired, placements, attempts, _) =>
          let impl := foldl (λ impl record, push_placement record impl) Impl_init placements in
          let impl := foldl (λ impl record, put_attempt record impl) impl attempts in
          Value (im_with_sequence max_sequence (im_with_next_id next_id impl),
                 rep_retire retired recovery)
      end
  end.

(** ** Damage *)

(** A complete record with its magic at [candidate]. *)
Definition is_record_at (copy_limit : N) (data : list N) (candidate : N) : bool :=
  (candidate + (kHeaderBytes + kTrailerBytes) <=? size data) &&
  match read_record copy_limit data candidate with Some _ => true | None => false end.

(** The size of the buffer of the scan. *)
Definition kScanChunk : N := N.shiftl 1 20.

(** The loop over the chunks, which overlap by three bytes.  Each round advances
    by at least one byte, so [size data] rounds are enough. *)
Fixpoint scan_chunks (fuel : nat) (copy_limit : N) (data : list N) (scan : N) : bool :=
  match fuel with
  | O => false
  | S fuel =>
      if scan + (kHeaderBytes + kTrailerBytes) <=? size data then
        let got := N.min kScanChunk (size data - scan) in
        if existsb (λ i, is_record_at copy_limit data (scan + N.of_nat i))
             (seq 0 (N.to_nat (got - 3)))
        then true
        else scan_chunks fuel copy_limit data (scan + (got - 3))
      else false
  end.

(** The status, the report and the length the journal is truncated to. *)
Definition HandleDamage (options : StoreOptions) (data : list N) (offset : N)
    (recovery : RecoveryReport) : Status * RecoveryReport * N :=
  let total_bytes := size data in
  let remaining := total_bytes - offset in
  if scan_chunks (length data) (wrap 32 (max_record_bytes options)) data (offset + 1) then
    (store_corrupt ("journal damage at offset " ++ to_string offset ++
                    " is followed by valid records; refusing to repair"), recovery, total_bytes)
  else
    let recovery := rep_torn remaining recovery in
    if read_only options then
      (Status_Ok, rep_say "read-only open: torn tail reported but not repaired; " recovery,
       total_bytes)
    else if negb (repair_torn_tail options) then
      (mkStatus StatusCode.kStoreTruncatedTail
         ("journal tail at offset " ++ to_string offset ++ " is torn"), recovery, total_bytes)
    else
      (Status_Ok,
       rep_say ("torn journal tail of " ++ to_string remaining ++
                " bytes was discarded at offset " ++ to_string offset ++ "; ") recovery, offset).

(** ** The journal *)

(** What one intact record does to the state; [Error] is the status the load
    fails with. *)
Definition apply_record (snapshot_sequence offset : N) (parsed : RecordHeader)
    (payload : list N) (impl : Impl) (recovery : RecoveryReport) : Result (Impl * RecoveryReport) :=
  if hd_type parsed =? kRecordTypeJournalReset then
    if negb (hd_payload_length parsed =? 8) then
      Error (store_corrupt "journal reset marker is malformed") else
    if negb (GetU64 0 payload =? snapshot_sequence) then
      Error (store_corrupt "journal reset marker does not match the snapshot it follows") else
    Value (im_with_sequence (hd_sequence parsed) impl, recovery)
  else if hd_sequence parsed <=? im_max_sequence impl then Value (impl, recovery)
  else if negb (hd_sequence parsed =? im_max_sequence impl + 1) then
    Error (store_corrupt ("journal sequence is not contiguous at offset " ++ to_string offset))
  else if hd_type parsed =? kRecordTypePlacement then
    match DecodePlacementRecord (mkReader payload 0) with
    | Error status => Error status
    | Value (record, reader) =>
        if negb (AtEnd reader) then
          Error (store_corrupt "trailing bytes after a placement record") else
        let impl := push_placement record impl in
        let impl :=
          if im_next_placement_id impl <=? pl_id record
          then im_with_next_id (wrap 64 (pl_id record + 1)) impl else impl in
        Value (im_with_sequence (hd_sequence parsed) impl, rep_record_valid recovery)
    end
  else
    match DecodeAttemptRecord (mkReader payload 0) with
    | Error status => Error status
    | Value (record, reader) =>
        if negb (AtEnd reader) then
          Error (store_corrupt "trailing bytes after an attempt record") else
        if match im_attempts impl !! at_attempt record with
           | Some existing =>
               negb (bool_decide (at_phase existing = AttemptPhase.kStarted)) &&
               bool_decide (at_phase record = AttemptPhase.kStarted)
           | None => false
           end then
          Error (store_corrupt "journal records an attempt start after its terminal record") else
        Value (im_with_sequence (hd_sequence parsed) (put_attempt record impl),
               rep_record_valid recovery)
    end.

Record Loaded := mkLoaded {
  ld_impl : Impl;
  ld_recovery : RecoveryReport;
  ld_records_read : N;
  ld_journal_length : N;
}.

(** The loop over the records.  A record is at least 36 bytes, so [size data]
    rounds are enough. *)
Fixpoint load_records (fuel : nat) (options : StoreOptions) (snapshot_sequence : N)
    (data : list N) (offset : N) (impl : Impl) (recovery : RecoveryReport) (read : N)
    : Result Loaded :=
  match fuel with
  | O => Value (mkLoaded impl recovery read (size data))
  | S fuel =>
      if negb (offset <? size data) then Value (mkLoaded impl recovery read (size data)) else
      match read_record (wrap 32 (max_record_bytes options)) data offset with
      | None =>
          let '(status, recovery, journal_length) := HandleDamage options data offset recovery in
          if status_ok status then Value (mkLoaded impl recovery read journal_length)
          else Error status
      | Some (parsed, payload, next_offset) =>
          match apply_record snapshot_sequence offset parsed payload impl recovery with
          | Error status => Error status
          | Value (impl, recovery) =>
              load_records fuel options snapshot_sequence data next_offset impl recovery (read + 1)
          end
      end
  end.

Definition LoadJournal (options : StoreOptions) (journal : option (list N)) (impl : Impl)
    (recovery : RecoveryReport) : Result Loaded :=
  match journal with
  | None =>
      Value (mkLoaded impl (rep_say "journal does not exist yet; starting empty" recovery) 0 0)
  | Some data =>
      load_records (S (length data)) options (im_max_sequence impl) data 0 impl recovery 0
  end.

(** ** Opening *)

Record Disk := mkDisk {
  dk_journal : option (list N);
  dk_snapshot : option (list N);
}.

Record PlacementStore := mkStore {
  st_path : string;
  st_options : StoreOptions;
  st_recovery : RecoveryReport;
  st_stats : StoreStats;
  st_file_open : bool;
  st_impl : Impl;
}.

Definition file_size (file : option (list N)) : N := from_option size 0 file.

(** The accounting of the attempts: the attempts with their phase corrected, the
    counters and the orphan flag. *)
Record Accounting := mkAccounting {
  ac_attempts : gmap N AttemptRecord;
  ac_committed : N;
  ac_rejected : N;
  ac_cancelled : N;
  ac_fenced : N;
  ac_unfinished_count : N;
  ac_unfinished : list AttemptRecord;
  ac_last_epoch : N;
  ac_last_incarnation : N;
  ac_orphan_commit : bool;
}.

Definition with_phase (phase : AttemptPhase) (a : AttemptRecord) : AttemptRecord :=
  mkAttempt (at_attempt a) (at_incarnation a) (at_epoch a) (at_flow a) phase (at_code a)
    (at_request_digest a) (at_sequence a) (at_observed_unix_nanos a).

Definition account_attempt (commits : gmap N nat) (acc : Accounting) (entry : N * AttemptRecord)
    : Accounting :=
  let '(id, attempt) := entry in
  let committed := bool_decide (is_Some (commits !! id)) in
  let epoch := if ac_last_epoch acc <? at_epoch attempt then at_epoch attempt
               else ac_last_epoch acc in
  let incarnation := if valid (at_incarnation attempt) then at_incarnation attempt
                     else ac_last_incarnation acc in
  let count (c r x f u : N) (attempts : gmap N AttemptRecord) (unfinished : list AttemptRecord)
        (orphan : bool) :=
    mkAccounting attempts (ac_committed acc + c) (ac_rejected acc + r) (ac_cancelled acc + x)
      (ac_fenced acc + f) (ac_unfinished_count acc + u) unfinished epoch incarnation
      (ac_orphan_commit acc || orphan) in
  let same := ac_attempts acc in
  let listed := ac_unfinished acc in
  match at_phase attempt with
  | AttemptPhase.kStarted =>
      if committed then
        count 1 0 0 0 0 (<[id := with_phase AttemptPhase.kCommitted attempt]> same) listed false
      else
        count 0 0 0 0 1 same (if size listed <? 64 then listed ++ [attempt] else listed) false
  | AttemptPhase.kCommitted =>
      if committed then count 1 0 0 0 0 same listed false else count 0 0 0 0 0 same listed true
  | AttemptPhase.kRejected => count 0 1 0 0 0 same listed false
  | AttemptPhase.kCancelled => count 0 0 1 0 0 same listed false
  | AttemptPhase.kFenced => count 0 0 0 1 0 same listed false
  end.

Definition account_placement (acc : N * N) (record : PlacementRecord) : N * N :=
  (if acc.1 <? pl_commit_epoch record then pl_commit_epoch record else acc.1,
   if valid (pl_committed_by record) then pl_committed_by record else acc.2).

(** The latest placement of every flow, in the order of the flows. *)
Definition latest_placements (impl : Impl) : list PlacementRecord :=
  omap (λ entry, im_placements impl !! entry.2) (ordered_entries (im_latest_by_flow impl)).

(** The report once the records are loaded, and whether an acknowledged attempt
    has no placement. *)
Definition recovery_accounting (impl : Impl) (report : RecoveryReport)
    : Impl * RecoveryReport * bool :=
  let acc := foldl (account_attempt (im_commit_by_attempt impl))
    (mkAccounting (im_attempts impl) 0 0 0 0 0 [] 0 0 false)
    (ordered_entries (im_attempts impl)) in
  let last := foldl account_placement (ac_last_epoch acc, ac_last_incarnation acc)
                (im_placements impl) in
  let latest := latest_placements impl in
  let requiring := size latest in
  let detail := rep_detail report in
  let detail := if negb (ac_unfinished_count acc =? 0)
    then (detail ++ "unfinished attempts require re-driving; ")%string else detail in
  let detail := if negb (requiring =? 0)
    then (detail ++ "recovered placements require revalidation against current evidence")%string
    else detail in
  let detail := if rep_truncated_tail report
    then (detail ++ "; torn journal tail was discarded")%string else detail in
  (im_with_attempts (ac_attempts acc) impl,
   mkReport false (rep_truncated_tail report) (rep_snapshot_loaded report)
     (rep_bytes_discarded report) (rep_records_valid report) (size (im_placements impl))
     (N.of_nat (base.size (im_attempts impl))) (ac_committed acc) (ac_rejected acc)
     (ac_cancelled acc) (ac_fenced acc) (ac_unfinished_count acc)
     (size (im_placements impl) - N.of_nat (base.size (im_latest_by_flow impl))) requiring
     (rep_retired_attempts report) (im_max_sequence impl) last.1 last.2 latest
     (ac_unfinished acc) detail,
   ac_orphan_commit acc).

(** The state and the report [Open] loads the journal into. *)
Definition load_base (options : StoreOptions) (snapshot : option (list N))
    : Result (Impl * RecoveryReport) :=
  match snapshot with
  | None => Value (Impl_init, report_init)
  | Some data =>
      match LoadSnapshot options data report_init with
      | Error status => Error status
      | Value (impl, recovery) => Value (impl, rep_snapshot recovery)
      end
  end.

(** What [Open] does with the loaded records: the journal is truncated and opened,
    and the attempts are accounted for. *)
Definition open_loaded (path : string) (options : StoreOptions) (disk : Disk) (loaded : Loaded)
    : Result PlacementStore * Disk :=
  let journal := (take (N.to_nat (ld_journal_length loaded))) <$> dk_journal disk in
  let journal := if read_only options then journal else Some (default [] journal) in
  let disk := mkDisk journal (dk_snapshot disk) in
  let '(impl, report, orphan) := recovery_accounting (ld_impl loaded) (ld_recovery loaded) in
  if orphan then
    (Error (store_corrupt "store records an acknowledged attempt with no durable placement"), disk)
  else
    (Value (mkStore path options report
              (mkStats (ld_records_read loaded) (file_size journal)
                 (file_size (dk_snapshot disk)) 0 0 0)
              (negb (read_only options)) impl), disk).

(** [PlacementStore::Open], and what it leaves on the disk: a repaired journal is
    truncated even where the open then fails. *)
Definition Open (path : string) (options : StoreOptions) (disk : Disk)
    : Result PlacementStore * Disk :=
  match load_base options (dk_snapshot disk) with
  | Error status => (Error status, disk)
  | Value (impl, recovery) =>
      match LoadJournal options (dk_journal disk) impl recovery with
      | Error status => (Error status, disk)
      | Value loaded => open_loaded path options disk loaded
      end
  end.
