(* ===== verification/JournalFacts.v ===== *)
(** * The records of the journal

    Reading a record accepts exactly what appending writes, the bytes of a
    journal are those of a list of records and a rest that starts with none, and
    loading replays that list.  The scan for damage, by chunks, is the search of
    every offset. *)

From Stdlib Require Import String.
From S2P Require Import Prelude StdAlgo Checked Status Bytes Hash Model Explain Records Codec.
From S2P Require Import CodecFacts CodecExact Wire WireFacts Store.

(** ** One record *)

Record LogRecord := mkLog { lr_type : N; lr_sequence : N; lr_payload : list N }.

Definition record_bytes (r : LogRecord) : list N :=
  encode_record (lr_type r) (lr_sequence r) (lr_payload r).

Definition record_header (r : LogRecord) : list N :=
  le_bytes 4 kRecordMagic ++ le_bytes 4 kStoreFormatVersion ++ le_bytes 2 (lr_type r) ++
  le_bytes 2 0 ++ le_bytes 8 (lr_sequence r) ++ le_bytes 4 (size (lr_payload r)) ++
  le_bytes 4 (Crc32C_Compute (lr_payload r)).

Definition header_of (r : LogRecord) : RecordHeader :=
  mkHeader (lr_type r) 0 (lr_sequence r) (size (lr_payload r)) (Crc32C_Compute (lr_payload r)).

Definition record_type (type : N) : Prop :=
  type = kRecordTypePlacement ∨ type = kRecordTypeAttempt ∨ type = kRecordTypeJournalReset.

Record record_ok (limit : N) (r : LogRecord) : Prop := {
  ro_type : record_type (lr_type r);
  ro_sequence : u64_fits (lr_sequence r);
  ro_size : size (lr_payload r) ≤ limit;
  ro_payload : Forall u8_fits (lr_payload r);
}.

Lemma record_header_length r : length (record_header r) = 28%nat.
Proof. unfold record_header. by rewrite !length_app, !le_bytes_length. Qed.

Lemma record_bytes_parts limit r :
  u32_fits limit → size (lr_payload r) ≤ limit →
  record_bytes r = record_header r ++ lr_payload r ++
    le_bytes 4 (Crc32C_Compute (record_header r ++ lr_payload r)) ++ le_bytes 4 kRecordEndMagic.
Proof.
  intros Hl Hs. unfold record_bytes, encode_record.
  assert (wrap 32 (size (lr_payload r)) = size (lr_payload r)) as ->.
  { apply N.mod_small. unfold uint_fits in Hl. lia. }
  change ([N.land (lr_type r) 255; N.land (N.shiftr (lr_type r) 8) 255; 0; 0])
    with ([N.land (lr_type r) 255; N.land (N.shiftr (lr_type r) 8) 255] ++ le_bytes 2 0).
  rewrite u16_bytes. unfold record_header. by rewrite <-!app_assoc.
Qed.

Lemma record_bytes_size r : size (record_bytes r) = 36 + size (lr_payload r).
Proof.
  unfold record_bytes, encode_record, size. rewrite !length_app, !le_bytes_length. cbn [length]. lia.
Qed.

Lemma record_bytes_u8 r : Forall u8_fits (lr_payload r) → Forall u8_fits (record_bytes r).
Proof.
  intros H. unfold record_bytes, encode_record. rewrite !Forall_app. split_and!; try apply le_bytes_u8;
    [|done]. repeat constructor; apply land_255_lt.
Qed.

(** The fields of a header, as slices. *)
Lemma header28_slices (h : list N) :
  length h = 28%nat →
  ∃ m v t f s l c, h = m ++ v ++ t ++ f ++ s ++ l ++ c ∧ length m = 4%nat ∧ length v = 4%nat ∧
    length t = 2%nat ∧ length f = 2%nat ∧ length s = 8%nat ∧ length l = 4%nat ∧ length c = 4%nat.
Proof.
  intros H. exists (take 4 h), (take 4 (drop 4 h)), (take 2 (drop 8 h)), (take 2 (drop 10 h)),
    (take 8 (drop 12 h)), (take 4 (drop 20 h)), (take 4 (drop 24 h)).
  do 28 (let b := fresh "b" in destruct h as [|b h]; [done|]). by destruct h.
Qed.

Section HeaderFields.
Context (m v t f s l c : list N).
Context (Hm : length m = 4%nat) (Hv : length v = 4%nat) (Ht : length t = 2%nat)
  (Hf : length f = 2%nat) (Hs : length s = 8%nat) (Hl : length l = 4%nat) (Hc : length c = 4%nat).
Context (Hu : Forall u8_fits (m ++ v ++ t ++ f ++ s ++ l ++ c)).

Lemma header_fields :
  let h := m ++ v ++ t ++ f ++ s ++ l ++ c in
  GetU32 0 h = le_value m ∧ GetU32 4 h = le_value v ∧ GetU16 8 h = le_value t ∧
  GetU16 10 h = le_value f ∧ GetU64 12 h = le_value s ∧ GetU32 20 h = le_value l ∧
  GetU32 24 h = le_value c.
Proof.
  rewrite !Forall_app in Hu. destruct Hu as (? & ? & ? & ? & ? & ? & ?).
  cbv zeta. rewrite !GetU16_combine. unfold GetU32, GetU64.
  split_and!.
  - apply (get_slice 4 0 [] m); done.
  - apply (get_slice 4 4 m v); done.
  - rewrite (app_assoc m). apply (get_slice 2 8 (m ++ v) t); [|done..]. rewrite length_app. lia.
  - rewrite (app_assoc m), (app_assoc (m ++ v)).
    apply (get_slice 2 10 ((m ++ v) ++ t) f); [|done..]. rewrite !length_app. lia.
  - rewrite (app_assoc m), (app_assoc (m ++ v)), (app_assoc ((m ++ v) ++ t)).
    apply (get_slice 8 12 (((m ++ v) ++ t) ++ f) s); [|done..]. rewrite !length_app. lia.
  - rewrite (app_assoc m), (app_assoc (m ++ v)), (app_assoc ((m ++ v) ++ t)),
      (app_assoc (((m ++ v) ++ t) ++ f)).
    apply (get_slice 4 20 ((((m ++ v) ++ t) ++ f) ++ s) l); [|done..]. rewrite !length_app. lia.
  - rewrite (app_assoc m), (app_assoc (m ++ v)), (app_assoc ((m ++ v) ++ t)),
      (app_assoc (((m ++ v) ++ t) ++ f)), (app_assoc ((((m ++ v) ++ t) ++ f) ++ s)).
    rewrite <-(app_nil_r c) at 1.
    apply (get_slice 4 24 (((((m ++ v) ++ t) ++ f) ++ s) ++ l) c); [|done..].
    rewrite !length_app. lia.
Qed.
End HeaderFields.

Lemma record_type_fits type : record_type type → u16_fits type.
Proof. by intros [->|[->| ->]]. Qed.

Lemma record_type_known type :
  negb (type =? kRecordTypePlacement) && negb (type =? kRecordTypeAttempt) &&
  negb (type =? kRecordTypeJournalReset) = false ↔ record_type type.
Proof. unfold record_type. b2p. split; intros; b2p; tauto. Qed.

Lemma ParseHeader_header limit r :
  u32_fits limit → record_ok limit r → ParseHeader (record_header r) limit = Some (header_of r).
Proof.
  intros Hl [Ht Hs Hz Hp]. unfold ParseHeader, record_header.
  destruct (header_fields (le_bytes 4 kRecordMagic) (le_bytes 4 kStoreFormatVersion)
    (le_bytes 2 (lr_type r)) (le_bytes 2 0) (le_bytes 8 (lr_sequence r))
    (le_bytes 4 (size (lr_payload r))) (le_bytes 4 (Crc32C_Compute (lr_payload r))))
    as (-> & -> & -> & -> & -> & -> & ->); [apply le_bytes_length..| |].
  { rewrite !Forall_app. split_and!; apply le_bytes_u8. }
  assert (size (lr_payload r) < 2 ^ 32) by (unfold uint_fits in Hl; lia).
  rewrite !le_value_le_bytes
    by (done || apply Crc32C_Compute_fits || by apply record_type_fits).
  cbn [N.eqb Pos.eqb negb]. apply record_type_known in Ht. rewrite Ht.
  destruct (N.ltb_spec limit (size (lr_payload r))); [lia|]. done.
Qed.

Lemma ParseHeader_exact limit h parsed :
  length h = 28%nat → Forall u8_fits h → ParseHeader h limit = Some parsed →
  record_type (hd_type parsed) ∧ u64_fits (hd_sequence parsed) ∧ hd_flags parsed = 0 ∧
  hd_payload_length parsed ≤ limit ∧
  h = le_bytes 4 kRecordMagic ++ le_bytes 4 kStoreFormatVersion ++ le_bytes 2 (hd_type parsed) ++
      le_bytes 2 0 ++ le_bytes 8 (hd_sequence parsed) ++ le_bytes 4 (hd_payload_length parsed) ++
      le_bytes 4 (hd_payload_crc parsed).
Proof.
  intros Hlen Hu. destruct (header28_slices h Hlen) as (m & v & t & f & s & l & c & -> & Hm & Hv &
    Ht & Hf & Hs & Hl & Hc). clear Hlen.
  pose proof (header_fields m v t f s l c Hm Hv Ht Hf Hs Hl Hc Hu) as
    (E1 & E2 & E3 & E4 & E5 & E6 & E7).
  rewrite !Forall_app in Hu. destruct Hu as (Um & Uv & Ut & Uf & Us & Ul & Uc).
  unfold ParseHeader. rewrite E1, E2, E3, E4, E5, E6, E7.
  destruct (N.eqb_spec (le_value m) kRecordMagic) as [Qm|]; [|done].
  destruct (N.eqb_spec (le_value v) kStoreFormatVersion) as [Qv|]; [|done]. cbn [negb].
  destruct (_ && _ && _) eqn:Qt; [done|]. apply record_type_known in Qt.
  destruct (N.eqb_spec (le_value f) 0) as [Qf|]; [|done]. cbn [negb].
  destruct (N.ltb_spec limit (le_value l)) as [|Ql]; [done|]. intros [= <-].
  cbn [hd_type hd_flags hd_sequence hd_payload_length hd_payload_crc].
  split; [done|]. split.
  { pose proof (le_value_bound s Us) as H. by rewrite Hs in H. }
  split; [done|]. split; [done|].
  pose proof (le_bytes_value m Um) as Bm. pose proof (le_bytes_value v Uv) as Bv.
  pose proof (le_bytes_value t Ut) as Bt. pose proof (le_bytes_value f Uf) as Bf.
  pose proof (le_bytes_value s Us) as Bs. pose proof (le_bytes_value l Ul) as Bl.
  pose proof (le_bytes_value c Uc) as Bc.
  rewrite Hm, Qm in Bm. rewrite Hv, Qv in Bv. rewrite Ht in Bt. rewrite Hf, Qf in Bf.
  rewrite Hs in Bs. rewrite Hl in Bl. rewrite Hc in Bc.
  by rewrite Bm, Bv, Bt, Bf, Bs, Bl, Bc.
Qed.

Lemma trailer_fields (a b rest : list N) :
  length a = 4%nat → length b = 4%nat → Forall u8_fits a → Forall u8_fits b →
  GetU32 0 (a ++ b ++ rest) = le_value a ∧ GetU32 4 (a ++ b ++ rest) = le_value b.
Proof.
  intros Ha Hb Ua Ub. unfold GetU32.
  split; [apply (get_slice 4 0 [] a)|apply (get_slice 4 4 a b)]; done.
Qed.

Lemma take_size {A} (l rest : list A) n : n = size l → take (N.to_nat n) (l ++ rest) = l.
Proof. intros ->. unfold size. by rewrite Nat2N.id, take_app_length. Qed.

Lemma drop_size {A} (l rest : list A) n : n = size l → drop (N.to_nat n) (l ++ rest) = rest.
Proof. intros ->. unfold size. by rewrite Nat2N.id, drop_app_length. Qed.

(** What appending writes is read back. *)
Lemma read_record_bytes limit data offset r rest :
  u32_fits limit → record_ok limit r → drop (N.to_nat offset) data = record_bytes r ++ rest →
  read_record limit data offset =
  Some (header_of r, lr_payload r, offset + size (record_bytes r)).
Proof.
  intros Hl Hr Hd. pose proof (record_bytes_size r) as Hsize.
  unfold read_record. rewrite Hd, Hsize. clear Hd.
  assert ((size (record_bytes r ++ rest) <? kHeaderBytes) = false) as ->.
  { apply N.ltb_ge. rewrite size_app, Hsize. unfold kHeaderBytes. lia. }
  rewrite (record_bytes_parts limit r Hl (ro_size _ _ Hr)), <-!app_assoc.
  assert (kHeaderBytes = size (record_header r)) as Hh.
  { unfold size. by rewrite record_header_length. }
  rewrite take_size, drop_size, (ParseHeader_header limit r Hl Hr) by done. cbn [mbind option_bind].
  cbn [header_of hd_payload_length hd_payload_crc].
  destruct (N.ltb_spec (size (lr_payload r ++
    le_bytes 4 (Crc32C_Compute (record_header r ++ lr_payload r)) ++
    le_bytes 4 kRecordEndMagic ++ rest)) (size (lr_payload r))) as [H|_].
  { rewrite size_app in H. lia. }
  rewrite take_size, drop_size by done.
  destruct (N.ltb_spec (size (le_bytes 4 (Crc32C_Compute (record_header r ++ lr_payload r)) ++
    le_bytes 4 kRecordEndMagic ++ rest)) kTrailerBytes) as [H|_].
  { unfold size in H. rewrite !length_app, !le_bytes_length in H. unfold kTrailerBytes in H. lia. }
  rewrite (app_assoc (le_bytes 4 _)), take_size, <-(app_nil_r (le_bytes 4 kRecordEndMagic))
    by (unfold size; by rewrite length_app, !le_bytes_length).
  destruct (trailer_fields (le_bytes 4 (Crc32C_Compute (record_header r ++ lr_payload r)))
    (le_bytes 4 kRecordEndMagic) []) as [-> ->]; try apply le_bytes_length; try apply le_bytes_u8.
  rewrite !le_value_le_bytes by (done || apply Crc32C_Compute_fits).
  rewrite <-Crc32C_Update_app.
  change (Crc32C_value (Crc32C_Update Crc32C_init ?d)) with (Crc32C_Compute d).
  rewrite !N.eqb_refl. cbn [negb orb]. do 2 f_equal.
  unfold kHeaderBytes, kTrailerBytes. lia.
Qed.

(** What is read is what appending would have written. *)
Lemma read_record_exact limit data offset parsed payload next :
  Forall u8_fits data → u32_fits limit →
  read_record limit data offset = Some (parsed, payload, next) →
  ∃ r, record_ok limit r ∧ parsed = header_of r ∧ payload = lr_payload r ∧
    next = offset + size (record_bytes r) ∧
    drop (N.to_nat offset) data = record_bytes r ++ drop (N.to_nat next) data.
Proof.
  intros Hu Hl. unfold read_record.
  set (rest := drop (N.to_nat offset) data). assert (Forall u8_fits rest) as Ur by by apply Forall_drop.
  destruct (N.ltb_spec (size rest) kHeaderBytes) as [|Hh]; [done|].
  set (h := take (N.to_nat kHeaderBytes) rest).
  assert (length h = 28%nat) as Hlen.
  { unfold h. rewrite length_take. unfold size, kHeaderBytes in *. lia. }
  destruct (ParseHeader h limit) as [p|] eqn:Hp; [|done]. cbn [mbind option_bind].
  apply ParseHeader_exact in Hp as (Ht & Hs & Hf & Hlimit & Hheader); [|done|by apply Forall_take].
  set (rest2 := drop (N.to_nat kHeaderBytes) rest).
  destruct (N.ltb_spec (size rest2) (hd_payload_length p)) as [|Hpl]; [done|].
  set (pay := take (N.to_nat (hd_payload_length p)) rest2).
  assert (size pay = hd_payload_length p) as Hpay.
  { unfold pay, size in *. rewrite length_take. lia. }
  set (rest3 := drop (N.to_nat (hd_payload_length p)) rest2).
  destruct (N.ltb_spec (size rest3) kTrailerBytes) as [|Htl]; [done|].
  assert (Forall u8_fits rest3) as Ur3 by by apply Forall_drop, Forall_drop.
  set (a := take 4 rest3). set (b := take 4 (drop 4 rest3)).
  assert (length a = 4%nat ∧ length b = 4%nat) as [Ha Hb].
  { unfold a, b, size, kTrailerBytes in *. rewrite !length_take, length_drop. lia. }
  assert (take (N.to_nat kTrailerBytes) rest3 = a ++ b ++ []) as ->.
  { unfold a, b. rewrite app_nil_r. change (N.to_nat kTrailerBytes) with (4 + 4)%nat.
    by rewrite take_take_drop. }
  assert (Forall u8_fits a ∧ Forall u8_fits b) as [Ua Ub].
  { split; [by apply Forall_take|by apply Forall_take, Forall_drop]. }
  destruct (trailer_fields a b [] Ha Hb Ua Ub) as [-> ->].
  destruct (N.eqb_spec (le_value b) kRecordEndMagic) as [Qb|]; [|done]. cbn [negb orb].
  destruct (N.eqb_spec (Crc32C_Compute pay) (hd_payload_crc p)) as [Qc|]; [|done]. cbn [negb].
  rewrite <-Crc32C_Update_app.
  change (Crc32C_value (Crc32C_Update Crc32C_init ?d)) with (Crc32C_Compute d).
  destruct (N.eqb_spec (Crc32C_Compute (h ++ pay)) (le_value a)) as [Qa|]; [|done]. cbn [negb].
  intros [= <- <- <-]. exists (mkLog (hd_type p) (hd_sequence p) pay).
  assert (record_ok limit (mkLog (hd_type p) (hd_sequence p) pay)) as Hok.
  { constructor; cbn; [done|done|lia|]. by apply Forall_take, Forall_drop. }
  split; [done|]. split.
  { unfold header_of. cbn [lr_type lr_sequence lr_payload]. rewrite Hpay, Qc, <-Hf. by destruct p. }
  split; [done|].
  assert (offset + kHeaderBytes + hd_payload_length p + kTrailerBytes =
          offset + size (record_bytes (mkLog (hd_type p) (hd_sequence p) pay))) as Hn.
  { rewrite record_bytes_size. cbn [lr_payload]. rewrite Hpay. unfold kHeaderBytes, kTrailerBytes. lia. }
  split; [done|]. rewrite (record_bytes_parts limit) by (done || apply Hok).
  assert (record_header (mkLog (hd_type p) (hd_sequence p) pay) = h) as ->.
  { unfold record_header. cbn [lr_type lr_sequence lr_payload]. rewrite Hpay, Qc. symmetry. exact Hheader. }
  cbn [lr_payload]. rewrite Qa, <-Qb.
  pose proof (le_bytes_value a Ua) as Ba. pose proof (le_bytes_value b Ub) as Bb.
  rewrite Ha in Ba. rewrite Hb in Bb. rewrite Ba, Bb.
  rewrite <-(take_drop (N.to_nat kHeaderBytes) rest) at 1. fold h rest2. rewrite <-app_assoc. f_equal.
  rewrite <-(take_drop (N.to_nat (hd_payload_length p)) rest2). fold pay rest3.
  rewrite <-app_assoc. f_equal.
  rewrite <-(take_drop 4 rest3) at 1. fold a. rewrite <-app_assoc. f_equal.
  rewrite <-(take_drop 4 (drop 4 rest3)). fold b. f_equal.
  unfold rest3, rest2, rest. rewrite !drop_drop. f_equal.
  unfold kHeaderBytes, kTrailerBytes. lia.
Qed.

(** ** The scan for damage *)

(** A complete record starts at or after [from]. *)
Definition record_after (limit : N) (data : list N) (from : N) : Prop :=
  ∃ candidate, from ≤ candidate ∧ is_record_at limit data candidate = true.

Lemma is_record_at_bound limit data c :
  is_record_at limit data c = true → c + (kHeaderBytes + kTrailerBytes) ≤ size data.
Proof. unfold is_record_at. intros H. b2p. tauto. Qed.

Lemma scan_chunk_spec limit data scan (n : nat) :
  existsb (λ i, is_record_at limit data (scan + N.of_nat i)) (seq 0 n) = true ↔
  ∃ c, scan ≤ c < scan + N.of_nat n ∧ is_record_at limit data c = true.
Proof.
  rewrite existsb_exists_elem. setoid_rewrite elem_of_seq. split.
  - intros (i & Hi & H). exists (scan + N.of_nat i). split; [lia|done].
  - intros (c & Hc & H). exists (N.to_nat (c - scan)). split; [lia|].
    replace (scan + N.of_nat (N.to_nat (c - scan))) with c by lia. done.
Qed.

(** The chunks with their overlap miss no offset, and the fuel is enough. *)
Lemma scan_chunks_spec fuel limit data scan :
  (N.to_nat (size data - scan) ≤ fuel)%nat →
  scan_chunks fuel limit data scan = true ↔ record_after limit data scan.
Proof.
  revert scan. induction fuel as [|fuel IH]; intros scan Hf; cbn [scan_chunks].
  { split; [done|]. intros (c & Hc & H%is_record_at_bound).
    unfold kHeaderBytes, kTrailerBytes in H. lia. }
  destruct (N.leb_spec (scan + (kHeaderBytes + kTrailerBytes)) (size data)) as [Hs|Hs].
  2: { split; [done|]. intros (c & Hc & H%is_record_at_bound). lia. }
  assert (kHeaderBytes + kTrailerBytes = 36) as E36 by done. rewrite E36 in Hs.
  set (got := N.min kScanChunk (size data - scan)).
  assert (36 ≤ got) as Hg by (unfold got; change kScanChunk with 1048576; lia).
  destruct (existsb _ _) eqn:E.
  - split; [intros _|done]. apply scan_chunk_spec in E as (c & Hc & H). exists c. split; [lia|done].
  - rewrite IH by lia. split; intros (c & Hc & H); exists c; split; try done; [lia|].
    destruct (N.le_gt_cases (scan + (got - 3)) c) as [|Hlt]; [done|].
    assert (existsb (λ i, is_record_at limit data (scan + N.of_nat i))
              (seq 0 (N.to_nat (got - 3))) = true) as E'; [|by rewrite E' in E].
    apply scan_chunk_spec. exists c. split; [lia|done].
Qed.

(** ** The records of a journal *)

Definition journal_bytes (log : list LogRecord) : list N := mjoin (record_bytes <$> log).

Lemma journal_bytes_cons r log : journal_bytes (r :: log) = record_bytes r ++ journal_bytes log.
Proof. done. Qed.

Lemma journal_bytes_app log1 log2 :
  journal_bytes (log1 ++ log2) = journal_bytes log1 ++ journal_bytes log2.
Proof.
  induction log1 as [|r log1 IH]; [done|].
  cbn [app]. by rewrite !journal_bytes_cons, IH, app_assoc.
Qed.

Lemma journal_bytes_u8 limit log :
  Forall (record_ok limit) log → Forall u8_fits (journal_bytes log).
Proof.
  induction 1 as [|r log Hr _ IH]; [done|]. rewrite journal_bytes_cons, Forall_app.
  split; [apply record_bytes_u8, Hr|done].
Qed.

(** What the records do, one after the other. *)
Fixpoint replay (snapshot_sequence offset : N) (log : list LogRecord) (impl : Impl)
    (recovery : RecoveryReport) : Result (Impl * RecoveryReport) :=
  match log with
  | [] => Value (impl, recovery)
  | r :: log =>
      match apply_record snapshot_sequence offset (header_of r) (lr_payload r) impl recovery with
      | Error status => Error status
      | Value (impl, recovery) =>
          replay snapshot_sequence (offset + size (record_bytes r)) log impl recovery
      end
  end.

Lemma replay_app snap offset log1 log2 impl recovery :
  replay snap offset (log1 ++ log2) impl recovery =
  match replay snap offset log1 impl recovery with
  | Error status => Error status
  | Value (impl, recovery) => replay snap (offset + size (journal_bytes log1)) log2 impl recovery
  end.
Proof.
  revert offset impl recovery. induction log1 as [|r log1 IH]; intros offset impl recovery;
    cbn [app replay].
  { change (journal_bytes []) with (@nil N). by rewrite size_nil, N.add_0_r. }
  destruct (apply_record _ _ _ _ _ _) as [[impl' recovery']|]; [|done].
  by rewrite IH, journal_bytes_cons, size_app, N.add_assoc.
Qed.

(** What every record keeps, replaying keeps. *)
Lemma replay_inv limit (P : Impl → RecoveryReport → Prop) snap log :
  (∀ r offset impl recovery impl' recovery', record_ok limit r → P impl recovery →
     apply_record snap offset (header_of r) (lr_payload r) impl recovery = Value (impl', recovery') →
     P impl' recovery') →
  Forall (record_ok limit) log →
  ∀ offset impl recovery impl' recovery', P impl recovery →
  replay snap offset log impl recovery = Value (impl', recovery') → P impl' recovery'.
Proof.
  intros HP. induction 1 as [|r log Hr _ IH]; intros offset impl recovery impl' recovery' Hi;
    cbn [replay]; [by intros [= <- <-]|].
  destruct (apply_record _ _ _ _ _ _) as [[impl1 recovery1]|] eqn:E; [|done].
  apply IH. exact (HP _ _ _ _ _ _ Hr Hi E).
Qed.

(** The end of the load, where no record starts at [offset]. *)
Definition load_end (options : StoreOptions) (data : list N) (offset : N) (impl : Impl)
    (recovery : RecoveryReport) (read : N) : Result Loaded :=
  if offset <? size data then
    let '(status, recovery, journal_length) := HandleDamage options data offset recovery in
    if status_ok status then Value (mkLoaded impl recovery read journal_length) else Error status
  else Value (mkLoaded impl recovery read (size data)).

Section Loading.
Context (options : StoreOptions) (snapshot_sequence : N) (data : list N).
Context (Hlimit : u32_fits (max_record_bytes options)).

Abbreviation limit := (max_record_bytes options).

Lemma wrap_limit : wrap 32 limit = limit.
Proof. by apply N.mod_small. Qed.

Lemma load_records_log log : ∀ fuel offset impl recovery read,
  (length log < fuel)%nat → offset ≤ size data →
  Forall (record_ok limit) log →
  (∃ tail, drop (N.to_nat offset) data = journal_bytes log ++ tail) →
  read_record limit data (offset + size (journal_bytes log)) = None →
  load_records fuel options snapshot_sequence data offset impl recovery read =
  match replay snapshot_sequence offset log impl recovery with
  | Error status => Error status
  | Value (impl, recovery) =>
      load_end options data (offset + size (journal_bytes log)) impl recovery (read + size log)
  end.
Proof.
  induction log as [|r log IH]; intros [|fuel] offset impl recovery read Hf Ho Hlog (tail & Hd) Hend;
    try (cbn in Hf; lia); cbn [load_records replay].
  - change (journal_bytes []) with (@nil N) in *. rewrite size_nil, N.add_0_r in Hend.
    rewrite !size_nil, !N.add_0_r. unfold load_end.
    destruct (offset <? size data); cbn [negb]; [|done]. by rewrite wrap_limit, Hend.
  - apply Forall_cons in Hlog as [Hr Hlog]. rewrite journal_bytes_cons, <-app_assoc in Hd.
    pose proof (read_record_bytes limit data offset r _ Hlimit Hr Hd) as Hread.
    assert (offset + size (record_bytes r) ≤ size data) as Hle.
    { apply (f_equal size) in Hd. unfold size in *. rewrite length_drop, length_app in Hd. lia. }
    pose proof (record_bytes_size r) as Hs.
    destruct (N.ltb_spec offset (size data)); cbn [negb]; [|lia].
    rewrite wrap_limit, Hread.
    destruct (apply_record _ _ _ _ _ _) as [[impl' recovery']|status]; [|done].
    rewrite journal_bytes_cons, size_app, N.add_assoc in Hend |- *.
    rewrite size_cons, N.add_assoc, IH; [done|cbn in Hf; lia|done|done| |done].
    exists tail. apply (f_equal (drop (N.to_nat (size (record_bytes r))))) in Hd.
      rewrite drop_size in Hd by done. rewrite <-Hd, drop_drop. f_equal. lia.
Qed.

(** Every byte string is the bytes of records followed by none. *)
Lemma parse_log : Forall u8_fits data → ∀ n offset,
  (length data - N.to_nat offset ≤ n)%nat → offset ≤ size data →
  ∃ log tail, drop (N.to_nat offset) data = journal_bytes log ++ tail ∧
    Forall (record_ok limit) log ∧
    read_record limit data (offset + size (journal_bytes log)) = None.
Proof.
  intros Hu n. induction n as [|n IH]; intros offset Hn Ho.
  - exists [], []. assert (drop (N.to_nat offset) data = []) as E.
    { apply drop_ge. unfold size in Ho. lia. }
    rewrite E. split; [done|]. split; [done|].
    change (journal_bytes []) with (@nil N). rewrite size_nil, N.add_0_r.
    unfold read_record. by rewrite E.
  - destruct (read_record limit data offset) as [[[parsed payload] next]|] eqn:Hread.
    + apply read_record_exact in Hread as (r & Hr & -> & -> & -> & Hd); [|done..].
      pose proof (record_bytes_size r) as Hs.
      assert (offset + size (record_bytes r) ≤ size data) as Hle.
      { apply (f_equal size) in Hd. unfold size in *. rewrite length_app, !length_drop in Hd. lia. }
      destruct (IH (offset + size (record_bytes r))) as (log & tail & Hd' & Hlog & Hend);
        [unfold size in *; lia|done|].
      exists (r :: log), tail. rewrite journal_bytes_cons, <-app_assoc, <-Hd'. split; [done|].
      split; [by constructor|]. by rewrite size_app, N.add_assoc.
    + exists [], (drop (N.to_nat offset) data). split; [done|]. split; [done|].
      change (journal_bytes []) with (@nil N). by rewrite size_nil, N.add_0_r.
Qed.

(** The log is determined by the bytes. *)
Lemma parse_log_unique log1 log2 tail1 tail2 offset :
  drop (N.to_nat offset) data = journal_bytes log1 ++ tail1 → Forall (record_ok limit) log1 →
  read_record limit data (offset + size (journal_bytes log1)) = None →
  drop (N.to_nat offset) data = journal_bytes log2 ++ tail2 → Forall (record_ok limit) log2 →
  read_record limit data (offset + size (journal_bytes log2)) = None →
  log1 = log2 ∧ tail1 = tail2.
Proof.
  assert (∀ (r : LogRecord) log tail offset, record_ok limit r →
    drop (N.to_nat offset) data = journal_bytes (r :: log) ++ tail →
    read_record limit data offset =
      Some (header_of r, lr_payload r, offset + size (record_bytes r)) ∧
    drop (N.to_nat (offset + size (record_bytes r))) data = journal_bytes log ++ tail) as Hcons.
  { intros r log tail off Hr Hd. rewrite journal_bytes_cons, <-app_assoc in Hd. split.
    - by eapply read_record_bytes.
    - apply (f_equal (drop (N.to_nat (size (record_bytes r))))) in Hd.
      rewrite drop_size, drop_drop in Hd by done. rewrite <-Hd. f_equal. lia. }
  revert log2 offset. induction log1 as [|r1 log1 IH]; intros [|r2 log2] offset H1 Hl1 E1 H2 Hl2 E2.
  - split; [done|]. by rewrite H1 in H2.
  - apply Forall_cons in Hl2 as [Hr2 _]. apply Hcons in H2 as [H2 _]; [|done].
    change (journal_bytes []) with (@nil N) in E1. rewrite size_nil, N.add_0_r in E1. congruence.
  - apply Forall_cons in Hl1 as [Hr1 _]. apply Hcons in H1 as [H1 _]; [|done].
    change (journal_bytes []) with (@nil N) in E2. rewrite size_nil, N.add_0_r in E2. congruence.
  - apply Forall_cons in Hl1 as [Hr1 Hl1]. apply Forall_cons in Hl2 as [Hr2 Hl2].
    apply Hcons in H1 as [R1 H1]; [|done]. apply Hcons in H2 as [R2 H2]; [|done].
    rewrite R1 in R2. injection R2 as Ht Hs Hz Hc Hp Hn.
    assert (r1 = r2) as -> by (destruct r1, r2; cbn in *; congruence).
    rewrite journal_bytes_cons, size_app, N.add_assoc in E1, E2.
    destruct (IH log2 _ H1 Hl1 E1 H2 Hl2 E2) as [-> ->]. done.
Qed.
End Loading.

(** A log fits the fuel of the load. *)
Lemma log_length log : (length log ≤ length (journal_bytes log))%nat.
Proof.
  induction log as [|r log IH]; [done|]. rewrite journal_bytes_cons, length_app. cbn [length].
  pose proof (record_bytes_size r) as H. unfold size in H. lia.
Qed.

(** Loading a journal is replaying its records, then dealing with what follows. *)
Lemma LoadJournal_log options data log tail impl recovery :
  u32_fits (max_record_bytes options) → data = journal_bytes log ++ tail →
  Forall (record_ok (max_record_bytes options)) log →
  read_record (max_record_bytes options) data (size (journal_bytes log)) = None →
  LoadJournal options (Some data) impl recovery =
  match replay (im_max_sequence impl) 0 log impl recovery with
  | Error status => Error status
  | Value (impl, recovery) =>
      load_end options data (size (journal_bytes log)) impl recovery (size log)
  end.
Proof.
  intros Hl Hd Hlog Hend. unfold LoadJournal.
  rewrite (load_records_log options _ data Hl log); [done| |lia|done|by exists tail|done].
  subst data. rewrite length_app. pose proof (log_length log). lia.
Qed.
