(* ===== verification/Ledger.v ===== *)
(** * The ledger

    The abstract state of the placement store: the latest placement of every
    flow, the placement of every committed attempt, the attempts with the phase
    recovery gives them, the next identifier and the sequence.  [ledger_of] is the
    ledger a state of the store implements; replaying a record acts on it the way
    the operation that wrote the record did. *)

From Stdlib Require Import String.
From S2P Require Import Prelude StdAlgo Checked Status Bytes Hash Model Explain Records Codec.
From S2P Require Import CodecFacts CodecExact Wire WireFacts Store JournalFacts.

Record Ledger := mkLedger {
  lg_latest : gmap N PlacementRecord;
  lg_commits : gmap N PlacementRecord;
  lg_attempts : gmap N AttemptRecord;
  lg_next_id : N;
  lg_sequence : N;
}.

(** A started attempt with a placement is committed. *)
Definition settle (committed : bool) (a : AttemptRecord) : AttemptRecord :=
  if committed && bool_decide (at_phase a = AttemptPhase.kStarted)
  then with_phase AttemptPhase.kCommitted a else a.

Definition settle_all {V} (commits : gmap N V) (attempts : gmap N AttemptRecord)
    : gmap N AttemptRecord :=
  map_imap (λ id a, Some (settle (bool_decide (is_Some (commits !! id))) a)) attempts.

(** The placements an index refers to, with the mark that recovery sets. *)
Definition resolve (placements : list PlacementRecord) (index : gmap N nat)
    : gmap N PlacementRecord :=
  unvalidated <$> omap (λ i, placements !! i) index.

Definition ledger_of (impl : Impl) : Ledger :=
  mkLedger (resolve (im_placements impl) (im_latest_by_flow impl))
    (resolve (im_placements impl) (im_commit_by_attempt impl))
    (settle_all (im_commit_by_attempt impl) (im_attempts impl))
    (im_next_placement_id impl) (im_max_sequence impl).

(** Projections of explicit records. *)
Ltac fields :=
  cbn [im_placements im_latest_by_flow im_attempts im_commit_by_attempt im_next_placement_id
       im_max_sequence im_closed im_compaction_in_progress lg_latest lg_commits lg_attempts
       lg_next_id lg_sequence].

(** ** Operations on ledgers *)

Definition ledger_push (r : PlacementRecord) (l : Ledger) : Ledger :=
  let intent := pl_intent r in
  let commits := if valid (int_attempt intent)
                 then <[int_attempt intent := unvalidated r]> (lg_commits l) else lg_commits l in
  mkLedger (<[int_flow intent := unvalidated r]> (lg_latest l)) commits
    (settle_all commits (lg_attempts l)) (lg_next_id l) (lg_sequence l).

Definition ledger_put (a : AttemptRecord) (l : Ledger) : Ledger :=
  mkLedger (lg_latest l) (lg_commits l)
    (<[at_attempt a := settle (bool_decide (is_Some (lg_commits l !! at_attempt a))) a]>
       (lg_attempts l)) (lg_next_id l) (lg_sequence l).

Definition ledger_sequence (sequence : N) (l : Ledger) : Ledger :=
  mkLedger (lg_latest l) (lg_commits l) (lg_attempts l) (lg_next_id l) sequence.

Definition ledger_next_id (next_id : N) (l : Ledger) : Ledger :=
  mkLedger (lg_latest l) (lg_commits l) (lg_attempts l) next_id (lg_sequence l).

(** ** Indices *)

(** Every index refers to a placement. *)
Record indexed (impl : Impl) : Prop := {
  ix_latest : map_Forall (λ _ i, (i < length (im_placements impl))%nat) (im_latest_by_flow impl);
  ix_commit : map_Forall (λ _ i, (i < length (im_placements impl))%nat) (im_commit_by_attempt impl);
}.

Lemma indexed_init : indexed Impl_init.
Proof. split; apply map_Forall_empty. Qed.

Lemma index_insert (m : gmap N nat) k (n : nat) :
  map_Forall (λ _ i, (i < n)%nat) m → map_Forall (λ _ i, (i < n + 1)%nat) (<[k := n]> m).
Proof.
  intros Hm. apply map_Forall_insert_2; [lia|].
  apply (map_Forall_impl _ _ _ Hm). intros. lia.
Qed.

Lemma indexed_push r impl : indexed impl → indexed (push_placement r impl).
Proof.
  intros [Hl Hc]. unfold push_placement. cbv zeta.
  split; cbn [im_placements im_latest_by_flow im_commit_by_attempt];
    rewrite length_app; cbn [length].
  - by apply index_insert.
  - destruct (valid _); [by apply index_insert|].
    apply (map_Forall_impl _ _ _ Hc). intros ? ?. lia.
Qed.

Lemma resolve_lookup placements index k :
  resolve placements index !! k =
  (i ← index !! k; r ← placements !! i; Some (unvalidated r)).
Proof.
  unfold resolve. rewrite lookup_fmap, lookup_omap.
  destruct (index !! k) as [i|]; [|done]. cbn. by destruct (placements !! i).
Qed.

Lemma resolve_is_Some placements index k :
  map_Forall (λ _ i, (i < length placements)%nat) index →
  is_Some (resolve placements index !! k) ↔ is_Some (index !! k).
Proof.
  intros Hi. rewrite resolve_lookup. destruct (index !! k) as [i|] eqn:E; cbn; [|by rewrite !is_Some_alt].
  pose proof (map_Forall_lookup_1 _ _ _ _ Hi E) as Hlt.
  apply lookup_lt_is_Some_2 in Hlt as [r Hr]. cbn. by rewrite Hr.
Qed.

Lemma resolve_extend placements r index :
  map_Forall (λ _ i, (i < length placements)%nat) index →
  resolve (placements ++ [r]) index = resolve placements index.
Proof.
  intros Hi. apply map_eq. intros k. rewrite !resolve_lookup.
  destruct (index !! k) as [i|] eqn:E; [|done]. cbn.
  by rewrite lookup_app_l by (by eapply map_Forall_lookup_1 in E; [|done]).
Qed.

Lemma resolve_insert placements r index k :
  map_Forall (λ _ i, (i < length placements)%nat) index →
  resolve (placements ++ [r]) (<[k := length placements]> index) =
  <[k := unvalidated r]> (resolve placements index).
Proof.
  intros Hi. rewrite <-(resolve_extend placements r index Hi).
  apply map_eq. intros j. rewrite resolve_lookup.
  destruct (decide (j = k)) as [->|Hne].
  - rewrite !lookup_insert_eq. cbn. by rewrite list_lookup_middle.
  - by rewrite !lookup_insert_ne, resolve_lookup by done.
Qed.

(** ** Settling *)

Lemma settle_all_lookup {V} (commits : gmap N V) attempts id :
  settle_all commits attempts !! id =
  settle (bool_decide (is_Some (commits !! id))) <$> attempts !! id.
Proof. unfold settle_all. rewrite map_lookup_imap. by destruct (attempts !! id). Qed.

Lemma settle_all_dom {V W} (c1 : gmap N V) (c2 : gmap N W) attempts :
  (∀ id, is_Some (c1 !! id) ↔ is_Some (c2 !! id)) → settle_all c1 attempts = settle_all c2 attempts.
Proof.
  intros H. apply map_eq. intros id. rewrite !settle_all_lookup.
  by rewrite (bool_decide_ext _ _ (H id)).
Qed.

Lemma settle_settle c1 c2 a : (c1 = true → c2 = true) → settle c2 (settle c1 a) = settle c2 a.
Proof.
  unfold settle. destruct c1; cbn; [|done]. intros ->; [|done].
  destruct (decide (at_phase a = AttemptPhase.kStarted)) as [E|E].
  - by rewrite (bool_decide_eq_true_2 _ E).
  - by rewrite !(bool_decide_eq_false_2 _ E).
Qed.

Lemma settle_all_mono {V W} (c1 : gmap N V) (c2 : gmap N W) attempts :
  (∀ id, is_Some (c1 !! id) → is_Some (c2 !! id)) →
  settle_all c2 (settle_all c1 attempts) = settle_all c2 attempts.
Proof.
  intros H. apply map_eq. intros id. rewrite !settle_all_lookup.
  destruct (attempts !! id) as [a|]; [|done]. cbn. f_equal. apply settle_settle.
  rewrite !bool_decide_eq_true. apply H.
Qed.

Lemma settle_all_insert {V} (commits : gmap N V) attempts id a :
  settle_all commits (<[id := a]> attempts) =
  <[id := settle (bool_decide (is_Some (commits !! id))) a]> (settle_all commits attempts).
Proof.
  apply map_eq. intros k. rewrite settle_all_lookup. destruct (decide (k = id)) as [->|Hne].
  - by rewrite !lookup_insert_eq.
  - by rewrite !lookup_insert_ne, settle_all_lookup by done.
Qed.

(** ** The state implements the ledger *)

Lemma unvalidated_idem r : unvalidated (unvalidated r) = unvalidated r.
Proof. done. Qed.

Lemma ledger_push_unvalidated r l : ledger_push (unvalidated r) l = ledger_push r l.
Proof. done. Qed.

Lemma commits_is_Some impl id :
  indexed impl →
  is_Some (lg_commits (ledger_of impl) !! id) ↔ is_Some (im_commit_by_attempt impl !! id).
Proof. intros [_ Hc]. by apply resolve_is_Some. Qed.

Lemma ledger_of_push r impl :
  indexed impl → ledger_of (push_placement r impl) = ledger_push r (ledger_of impl).
Proof.
  intros Hi. pose proof Hi as [Hl Hc]. unfold ledger_push. cbv zeta.
  set (commits := if valid _ then _ else _).
  assert (resolve (im_placements (push_placement r impl))
            (im_commit_by_attempt (push_placement r impl)) = commits) as Hcommits.
  { unfold commits, push_placement. fields. destruct (valid _).
    - by rewrite resolve_insert.
    - by rewrite resolve_extend. }
  unfold ledger_of at 1. rewrite Hcommits. f_equal.
  - unfold push_placement. fields. by rewrite resolve_insert.
  - unfold push_placement, ledger_of. fields.
    rewrite <-(settle_all_dom commits) by
      (intros id; rewrite <-Hcommits; apply resolve_is_Some, indexed_push, Hi).
    symmetry. apply settle_all_mono. intros id Hid. unfold commits.
    apply (commits_is_Some impl) in Hid; [|done].
    destruct (valid _); [|done]. apply lookup_insert_is_Some'. by right.
Qed.

Lemma ledger_of_put a impl :
  indexed impl → ledger_of (put_attempt a impl) = ledger_put a (ledger_of impl).
Proof.
  intros Hi. unfold ledger_put, put_attempt.
  rewrite (bool_decide_ext _ _ (commits_is_Some impl (at_attempt a) Hi)).
  unfold ledger_of, im_with_attempts. fields. by rewrite settle_all_insert.
Qed.

Lemma ledger_of_sequence sequence impl :
  ledger_of (im_with_sequence sequence impl) = ledger_sequence sequence (ledger_of impl).
Proof. done. Qed.

Lemma ledger_of_next_id next_id impl :
  ledger_of (im_with_next_id next_id impl) = ledger_next_id next_id (ledger_of impl).
Proof. done. Qed.

(** ** Replaying one record *)

Definition placement_entry (sequence : N) (r : PlacementRecord) : LogRecord :=
  mkLog kRecordTypePlacement sequence (EncodePlacementRecord r []).
Definition attempt_entry (sequence : N) (a : AttemptRecord) : LogRecord :=
  mkLog kRecordTypeAttempt sequence (EncodeAttemptRecord a []).
Definition marker_entry (covered : N) : LogRecord :=
  mkLog kRecordTypeJournalReset 1 (le_bytes 8 covered).

Lemma decode_placement_all r :
  placement_fits r →
  DecodePlacementRecord (mkReader (EncodePlacementRecord r []) 0) =
  Value (unvalidated r, mkReader (EncodePlacementRecord r [])
                          (length (EncodePlacementRecord r []))).
Proof.
  intros Hr. pose proof (DecodePlacementRecord_inverts r Hr
    (mkReader (EncodePlacementRecord r []) 0) []) as H.
  rewrite H by (unfold bytes_left; cbn [rd_offset rd_data]; by rewrite drop_0, app_nil_r). done.
Qed.

Lemma decode_attempt_all a :
  attempt_fits a →
  DecodeAttemptRecord (mkReader (EncodeAttemptRecord a []) 0) =
  Value (a, mkReader (EncodeAttemptRecord a []) (length (EncodeAttemptRecord a []))).
Proof.
  intros Ha. pose proof (DecodeAttemptRecord_inverts a Ha
    (mkReader (EncodeAttemptRecord a []) 0) []) as H.
  rewrite H by (unfold bytes_left; cbn [rd_offset rd_data]; by rewrite drop_0, app_nil_r). done.
Qed.

Lemma next_sequence_ltb sequence impl :
  sequence = im_max_sequence impl + 1 →
  (sequence <=? im_max_sequence impl) = false ∧ (sequence =? im_max_sequence impl + 1) = true.
Proof. intros ->. split; [apply N.leb_gt; lia|apply N.eqb_refl]. Qed.

Lemma apply_placement snap offset sequence r impl recovery :
  placement_fits r → sequence = im_max_sequence impl + 1 →
  apply_record snap offset (header_of (placement_entry sequence r))
    (lr_payload (placement_entry sequence r)) impl recovery =
  Value (im_with_sequence sequence
           (if im_next_placement_id impl <=? pl_id r
            then im_with_next_id (wrap 64 (pl_id r + 1)) (push_placement (unvalidated r) impl)
            else push_placement (unvalidated r) impl),
         rep_record_valid recovery).
Proof.
  intros Hr Hs. destruct (next_sequence_ltb sequence impl Hs) as [E1 E2].
  unfold apply_record, placement_entry.
  cbn [header_of lr_type lr_sequence lr_payload hd_type hd_sequence].
  rewrite E1, E2, decode_placement_all by done. cbn [N.eqb Pos.eqb negb kRecordTypePlacement
    kRecordTypeJournalReset]. unfold AtEnd. cbn [rd_offset rd_data]. by rewrite Nat.eqb_refl.
Qed.

Lemma apply_attempt snap offset sequence a impl recovery :
  attempt_fits a → sequence = im_max_sequence impl + 1 →
  (at_phase a = AttemptPhase.kStarted →
   ∀ existing, im_attempts impl !! at_attempt a = Some existing →
     at_phase existing = AttemptPhase.kStarted) →
  apply_record snap offset (header_of (attempt_entry sequence a))
    (lr_payload (attempt_entry sequence a)) impl recovery =
  Value (im_with_sequence sequence (put_attempt a impl), rep_record_valid recovery).
Proof.
  intros Ha Hs Hstart. destruct (next_sequence_ltb sequence impl Hs) as [E1 E2].
  unfold apply_record, attempt_entry.
  cbn [header_of lr_type lr_sequence lr_payload hd_type hd_sequence].
  rewrite E1, E2, decode_attempt_all by done. cbn [N.eqb Pos.eqb negb kRecordTypePlacement
    kRecordTypeAttempt kRecordTypeJournalReset]. unfold AtEnd. cbn [rd_offset rd_data].
  rewrite Nat.eqb_refl. cbn [negb].
  destruct (im_attempts impl !! at_attempt a) as [existing|]; [|done].
  destruct (decide (at_phase a = AttemptPhase.kStarted)) as [E|E].
  - by rewrite (bool_decide_eq_true_2 _ (Hstart E existing eq_refl)).
  - by rewrite (bool_decide_eq_false_2 _ E), andb_false_r.
Qed.

Lemma apply_marker snap offset impl recovery :
  u64_fits snap →
  apply_record snap offset (header_of (marker_entry snap)) (lr_payload (marker_entry snap))
    impl recovery = Value (im_with_sequence 1 impl, recovery).
Proof.
  intros Hs. unfold apply_record, marker_entry.
  cbn [header_of lr_type lr_sequence lr_payload hd_type hd_sequence hd_payload_length].
  assert (GetU64 0 (le_bytes 8 snap) = snap) as ->.
  { unfold GetU64. rewrite <-(app_nil_r (le_bytes 8 snap)).
    rewrite <-(le_value_le_bytes 8 snap Hs) at 2.
    apply (get_slice 8 0 [] (le_bytes 8 snap) []); [done|apply le_bytes_length|apply le_bytes_u8]. }
  assert (size (le_bytes 8 snap) = 8) as -> by (unfold size; by rewrite le_bytes_length).
  rewrite !N.eqb_refl. done.
Qed.

(** ** Records keep the indices *)

Lemma apply_record_indexed snap offset parsed payload impl recovery impl' recovery' :
  indexed impl → apply_record snap offset parsed payload impl recovery = Value (impl', recovery') →
  indexed impl'.
Proof.
  intros Hi. unfold apply_record.
  repeat (case_match; try done); intros [= <- <-]; try done;
    match goal with
    | |- context [push_placement ?r impl] => destruct (indexed_push r impl Hi); by split
    | _ => destruct Hi; by split
    end.
Qed.
