(* ===== verification/StoreOps.v ===== *)
(** * Operations of the placement store

    The members of [PlacementStore] in [store.cpp] that run on an open store:
    appending attempts and placements, looking them up, compaction, [Sync] and
    [Close].  An operation is a computation of [Io]: it acts on the store and on
    the disk and may end with a [Status]; what it changed before that stays. *)

From Stdlib Require Import String.
From S2P Require Import Prelude StdAlgo Checked Status Bytes Hash Model Explain Records Codec.
From S2P Require Import Wire Store.

(** ** The file system *)

(** The outcome of one call that can fail.  [IoShort n] is a write that took only
    the first [n] bytes, and a failure of any other call. *)
Inductive IoOutcome := IoOk | IoFail | IoShort (written : N).

Record World := mkWorld {
  w_store : PlacementStore;
  w_disk : Disk;
  w_io : list IoOutcome;
}.

Definition Io (A : Type) := World → Result A * World.

#[export] Instance Io_ret : MRet Io := λ A a w, (Value a, w).
#[export] Instance Io_bind : MBind Io := λ A B k m w,
  match m w with
  | (Value a, w') => k a w'
  | (Error s, w') => (Error s, w')
  end.

Definition io_fail {A} (status : Status) : Io A := λ w, (Error status, w).

(** [if (refused) return Status(code, message);] *)
Definition refuse_if (refused : bool) (code : StatusCode) (message : string) : Io unit :=
  if refused then io_fail (mkStatus code message) else mret tt.

Definition get_store : Io PlacementStore := λ w, (Value (w_store w), w).

Definition on_store (f : PlacementStore → PlacementStore) : Io unit := λ w,
  (Value tt, mkWorld (f (w_store w)) (w_disk w) (w_io w)).

Definition on_disk (f : Disk → Disk) : Io unit := λ w,
  (Value tt, mkWorld (w_store w) (f (w_disk w)) (w_io w)).

(** The outcome of the next fallible call; with none left, it succeeds. *)
Definition next_outcome : Io IoOutcome := λ w,
  match w_io w with
  | [] => (Value IoOk, w)
  | outcome :: io => (Value outcome, mkWorld (w_store w) (w_disk w) io)
  end.

(** The status of a computation as its result. *)
Definition io_status {A} (m : Io A) : Io (Result A) := λ w,
  let '(result, w) := m w in (Value result, w).

(** A call without an effect in the model. *)
Definition file_call (failure : Status) : Io unit :=
  outcome ← next_outcome;
  match outcome with IoOk => mret tt | _ => io_fail failure end.

Definition taken (outcome : IoOutcome) (data : list N) : list N :=
  match outcome with
  | IoOk => data
  | IoFail => []
  | IoShort n => take (N.to_nat n) data
  end.

Definition IoError (what path : string) : Status :=
  mkStatus StatusCode.kStoreIoError (what ++ ": " ++ path).

Definition SnapshotPathFor (path : string) : string := path ++ ".snap".
Definition TempPathFor (path : string) : string := path ++ ".tmp".

Definition SyncFile : Io unit :=
  _ ← file_call (mkStatus StatusCode.kStoreIoError "fflush failed");
  file_call (mkStatus StatusCode.kStoreIoError "fsync failed").

(** The rename; the result of syncing the directory is ignored. *)
Definition ReplaceFileAtomically (to : string) (replace : Disk → Disk) : Io unit :=
  _ ← file_call (mkStatus StatusCode.kStoreIoError ("rename failed for " ++ to));
  on_disk replace.

Definition append_journal (bytes : list N) (disk : Disk) : Disk :=
  mkDisk (Some (default [] (dk_journal disk) ++ bytes)) (dk_snapshot disk).
Definition replace_journal (bytes : list N) (disk : Disk) : Disk :=
  mkDisk (Some bytes) (dk_snapshot disk).
Definition replace_snapshot (bytes : list N) (disk : Disk) : Disk :=
  mkDisk (dk_journal disk) (Some bytes).

(** [std::fwrite] to the journal. *)
Definition fwrite_journal (path : string) (data : list N) : Io unit :=
  outcome ← next_outcome;
  let written := taken outcome data in
  _ ← on_disk (append_journal written);
  if size written =? size data then mret tt else io_fail (IoError "short write to store" path).

(** ** The store while it changes *)

Definition st_with_impl (impl : Impl) (s : PlacementStore) : PlacementStore :=
  mkStore (st_path s) (st_options s) (st_recovery s) (st_stats s) (st_file_open s) impl.

Definition st_with_stats (stats : StoreStats) (s : PlacementStore) : PlacementStore :=
  mkStore (st_path s) (st_options s) (st_recovery s) stats (st_file_open s) (st_impl s).

Definition st_with_file (open : bool) (s : PlacementStore) : PlacementStore :=
  mkStore (st_path s) (st_options s) (st_recovery s) (st_stats s) open (st_impl s).

Definition on_impl (f : Impl → Impl) (s : PlacementStore) : PlacementStore :=
  st_with_impl (f (st_impl s)) s.

Definition count_sync (s : PlacementStore) : PlacementStore :=
  let t := st_stats s in
  st_with_stats (mkStats (ss_journal_records t) (ss_journal_bytes t) (ss_snapshot_bytes t)
                   (ss_compactions t) (ss_appends t) (wrap 64 (ss_syncs t + 1))) s.

Definition count_append (bytes : N) (s : PlacementStore) : PlacementStore :=
  let t := st_stats s in
  st_with_stats (mkStats (wrap 64 (ss_journal_records t + 1)) (wrap 64 (ss_journal_bytes t + bytes))
                   (ss_snapshot_bytes t) (ss_compactions t) (wrap 64 (ss_appends t + 1))
                   (ss_syncs t)) s.

Definition count_journal_records (n : N) (s : PlacementStore) : PlacementStore :=
  let t := st_stats s in
  st_with_stats (mkStats n (ss_journal_bytes t) (ss_snapshot_bytes t) (ss_compactions t)
                   (ss_appends t) (ss_syncs t)) s.

Definition count_compaction (snapshot_bytes : N) (s : PlacementStore) : PlacementStore :=
  let t := st_stats s in
  st_with_stats (mkStats 0 0 snapshot_bytes (wrap 64 (ss_compactions t + 1)) (ss_appends t)
                   (ss_syncs t)) s.

(** ** Appending *)

Definition AppendRecordRaw (type : N) (payload : list N) : Io unit :=
  store ← get_store;
  let options := st_options store in
  let impl := st_impl store in
  _ ← refuse_if (im_closed impl) StatusCode.kNotRunning "store is closed";
  _ ← refuse_if (negb (st_file_open store)) StatusCode.kNotRunning "store is not open for append";
  _ ← refuse_if (max_record_bytes options <? size payload) StatusCode.kOversizeRequest
        "record payload exceeds the configured bound";
  _ ← refuse_if (max_total_records options <=? im_max_sequence impl)
        StatusCode.kStoreGrowthExceeded "durable record budget is exhausted";
  let sequence := wrap 64 (im_max_sequence impl + 1) in
  let record := encode_record type sequence payload in
  _ ← fwrite_journal (st_path store) record;
  _ ← (if fsync_on_append options then _ ← SyncFile; on_store count_sync
       else file_call (IoError "fflush failed" (st_path store)));
  on_store (λ s, count_append (size record) (on_impl (im_with_sequence sequence) s)).

(** ** Compaction *)

(** An attempt record that has aged out of the window. *)
Definition aged_out (max_sequence retention : N) (attempt : AttemptRecord) : bool :=
  (retention <? max_sequence) && (wrap 64 (at_sequence attempt + retention) <? max_sequence).

Definition retention_of (options : StoreOptions) (impl : Impl) : N :=
  if max_journal_records options =? 0 then im_max_sequence impl else max_journal_records options.

Definition retained_attempts (options : StoreOptions) (impl : Impl) : list AttemptRecord :=
  std_sort (by_key at_attempt)
    (List.filter (λ a, negb (aged_out (im_max_sequence impl) (retention_of options impl) a))
       (snd <$> ordered_entries (im_attempts impl))).

Definition retired_count (options : StoreOptions) (impl : Impl) : N :=
  size (List.filter (aged_out (im_max_sequence impl) (retention_of options impl))
          (snd <$> ordered_entries (im_attempts impl))).

Definition snapshot_payload (store : PlacementStore) : list N :=
  let impl := st_impl store in
  [] |> wU64 (im_next_placement_id impl)
     |> wU64 (im_max_sequence impl)
     |> wU64 (wrap 64 (rep_retired_attempts (st_recovery store) +
                       retired_count (st_options store) impl))
     |> wU32 (wrap 32 (N.of_nat (base.size (im_latest_by_flow impl))))
     |> write_each EncodePlacementRecord (latest_placements impl)
     |> wU32 (wrap 32 (size (retained_attempts (st_options store) impl)))
     |> write_each EncodeAttemptRecord (retained_attempts (st_options store) impl).

Definition snapshot_container (payload : list N) : list N :=
  let container := le_bytes 4 kSnapshotMagic ++ le_bytes 4 kStoreFormatVersion ++
    le_bytes 4 (wrap 32 (size payload)) ++ le_bytes 4 (Crc32C_Compute payload) ++ payload in
  container ++ le_bytes 4 (Crc32C_Compute container) ++ le_bytes 4 kSnapshotEndMagic.

(** The snapshot is written to a temporary file and renamed. *)
Definition write_snapshot (path : string) (container : list N) : Io unit :=
  let snapshot_path := SnapshotPathFor path in
  let temp_path := TempPathFor snapshot_path in
  _ ← file_call (IoError "cannot create snapshot temporary file" temp_path);
  outcome ← next_outcome;
  _ ← (if size (taken outcome container) =? size container then mret tt
       else io_fail (IoError "short write to snapshot temporary file" temp_path));
  _ ← SyncFile;
  ReplaceFileAtomically snapshot_path (replace_snapshot container).

(** The journal is closed, replaced by an empty one and reopened. *)
Definition reset_journal (path : string) : Io unit :=
  let journal_temp := TempPathFor path in
  _ ← on_store (st_with_file false);
  _ ← file_call (IoError "cannot create journal temporary file" journal_temp);
  _ ← SyncFile;
  _ ← ReplaceFileAtomically path (replace_journal []);
  _ ← file_call (IoError "cannot reopen journal after compaction" path);
  on_store (st_with_file true).

(** The marker that rebases the sequence. *)
Definition write_marker (snapshot_covered : N) : Io unit :=
  let marker := le_bytes 8 snapshot_covered in
  _ ← on_store (on_impl (im_with_sequence 0));
  _ ← on_store (count_journal_records 0);
  _ ← AppendRecordRaw kRecordTypeJournalReset marker;
  on_store (on_impl (im_with_sequence 1)).

(** The body of [Compact], between the guard's set and reset of the flag. *)
Definition compact_body : Io unit :=
  store ← get_store;
  let snapshot_covered := im_max_sequence (st_impl store) in
  let container := snapshot_container (snapshot_payload store) in
  _ ← write_snapshot (st_path store) container;
  _ ← reset_journal (st_path store);
  _ ← write_marker snapshot_covered;
  on_store (count_compaction (size container)).

Definition Compact : Io unit :=
  store ← get_store;
  let impl := st_impl store in
  _ ← refuse_if (im_closed impl) StatusCode.kNotRunning "store is closed";
  _ ← refuse_if (read_only (st_options store)) StatusCode.kNotRunning "store is read-only";
  _ ← refuse_if (im_compaction_in_progress impl) StatusCode.kAlreadyExists
        "compaction is already in progress";
  _ ← on_store (on_impl (im_with_compacting true));
  result ← io_status compact_body;
  _ ← on_store (on_impl (im_with_compacting false));
  match result with Value _ => mret tt | Error status => io_fail status end.

Definition MaybeCompact : Io unit :=
  store ← get_store;
  let options := st_options store in
  let impl := st_impl store in
  if im_closed impl || read_only options then mret tt
  else if im_compaction_in_progress impl then mret tt
  else if max_journal_records options =? 0 then mret tt
  else if ss_journal_records (st_stats store) <? max_journal_records options then mret tt
  else Compact.

(** ** Attempts *)

Definition with_phase_sequence (phase : AttemptPhase) (sequence : N) (a : AttemptRecord)
    : AttemptRecord :=
  mkAttempt (at_attempt a) (at_incarnation a) (at_epoch a) (at_flow a) phase (at_code a)
    (at_request_digest a) sequence (at_observed_unix_nanos a).

(** The attempt's last record is a terminal one. *)
Definition attempt_finished (attempt : N) (impl : Impl) : bool :=
  match im_attempts impl !! attempt with
  | Some existing => negb (bool_decide (at_phase existing = AttemptPhase.kStarted))
  | None => false
  end.

Definition append_attempt (copy : AttemptRecord) : Io unit :=
  _ ← AppendRecordRaw kRecordTypeAttempt (EncodeAttemptRecord copy []);
  _ ← on_store (on_impl (put_attempt copy));
  MaybeCompact.

Definition AppendAttemptStart (record : AttemptRecord) : Io unit :=
  store ← get_store;
  let impl := st_impl store in
  _ ← refuse_if (attempt_finished (at_attempt record) impl) StatusCode.kAlreadyExists
        "attempt already has a durable terminal record";
  _ ← refuse_if (bool_decide (is_Some (im_commit_by_attempt impl !! at_attempt record)))
        StatusCode.kAlreadyExists "attempt already committed a placement";
  append_attempt (with_phase_sequence AttemptPhase.kStarted
                    (wrap 64 (im_max_sequence impl + 1)) record).

Definition AppendAttemptTerminal (record : AttemptRecord) : Io unit :=
  _ ← refuse_if (bool_decide (at_phase record = AttemptPhase.kStarted))
        StatusCode.kInvalidArgument "terminal attempt record must carry a final phase";
  store ← get_store;
  let impl := st_impl store in
  _ ← refuse_if (attempt_finished (at_attempt record) impl) StatusCode.kAlreadyExists
        "attempt already has a terminal record";
  append_attempt (with_phase_sequence (at_phase record) (wrap 64 (im_max_sequence impl + 1))
                    record).

(** ** Placements *)

(** What [CommitPlacement] does about an attempt that already committed. *)
Definition committed_before (intent : PlacementIntent) (impl : Impl)
    : option (Result PlacementRecord) :=
  if valid (int_attempt intent) then
    index ← im_commit_by_attempt impl !! int_attempt intent;
    record ← im_placements impl !! index;
    Some (if PlacementIntent_eqb (pl_intent record) intent then Value record
          else Error (mkStatus StatusCode.kDuplicateAttemptConflict
                        "attempt already committed a different placement intent"))
  else None.

(** The record to commit; [now] is the wall clock. *)
Definition next_placement (intent : PlacementIntent) (delta : IncumbentDelta)
    (decision_digest : Digest) (committed_by commit_epoch : N) (now : Z) (impl : Impl)
    : Result PlacementRecord :=
  let record generation supersedes :=
    mkPlacement (im_next_placement_id impl) generation intent delta decision_digest committed_by
      commit_epoch (wrap 64 (im_max_sequence impl + 1)) supersedes now false in
  match Latest (int_flow intent) impl with
  | Some previous =>
      if pl_generation previous =? uint_max 64 then
        Error (mkStatus StatusCode.kArithmeticOverflow
                 "placement generation is exhausted for this flow")
      else Value (record (pl_generation previous + 1) (pl_generation previous))
  | None => Value (record 1 0)
  end.

(** The verification of the encoding. *)
Definition decodes_back (record : PlacementRecord) : bool :=
  match DecodePlacementRecord (mkReader (EncodePlacementRecord record []) 0) with
  | Error _ => false
  | Value (decoded, _) =>
      PlacementIntent_eqb (pl_intent decoded) (pl_intent record) &&
      (pl_id decoded =? pl_id record) && (pl_generation decoded =? pl_generation record)
  end.

Definition CommitPlacement (intent : PlacementIntent) (delta : IncumbentDelta)
    (decision_digest : Digest) (committed_by commit_epoch : N) (now : Z) : Io PlacementRecord :=
  store ← get_store;
  let impl := st_impl store in
  _ ← refuse_if (im_closed impl) StatusCode.kNotRunning "store is closed";
  _ ← refuse_if (negb (valid (int_flow intent)) || negb (valid (int_path intent)) ||
                 negb (valid (int_path_authority intent)))
        StatusCode.kInvalidArgument "intent is missing a required identity";
  _ ← refuse_if (negb (Digest_eqb (int_digest intent) (IntentDigest intent)))
        StatusCode.kInconsistentAuthorityGeneration "intent digest does not match its contents";
  match committed_before intent impl with
  | Some (Value record) => mret record
  | Some (Error status) => io_fail status
  | None =>
      _ ← refuse_if (max_total_records (st_options store) <=? im_max_sequence impl)
            StatusCode.kStoreGrowthExceeded "durable record budget is exhausted";
      match next_placement intent delta decision_digest committed_by commit_epoch now impl with
      | Error status => io_fail status
      | Value record =>
          _ ← refuse_if (negb (decodes_back record)) StatusCode.kInternalInvariantViolation
                "placement record failed encode/decode verification";
          _ ← AppendRecordRaw kRecordTypePlacement (EncodePlacementRecord record []);
          _ ← on_store (on_impl (λ impl,
                 im_with_next_id (wrap 64 (pl_id record + 1)) (push_placement record impl)));
          _ ← MaybeCompact;
          mret record
      end
  end.

(** ** Queries *)

Definition FindLatest (flow : N) (s : PlacementStore) : option PlacementRecord :=
  Latest flow (st_impl s).

Definition History (flow : N) (s : PlacementStore) : list PlacementRecord :=
  List.filter (λ record, int_flow (pl_intent record) =? flow) (im_placements (st_impl s)).

Definition LatestPlacements (s : PlacementStore) : list PlacementRecord :=
  latest_placements (st_impl s).

Definition Attempts (s : PlacementStore) : list AttemptRecord :=
  std_sort (by_key at_sequence) (snd <$> ordered_entries (im_attempts (st_impl s))).

Definition FindAttempt (attempt : N) (s : PlacementStore) : option AttemptRecord :=
  im_attempts (st_impl s) !! attempt.

Definition FindByAttempt (attempt : N) (s : PlacementStore) : option PlacementRecord :=
  index ← im_commit_by_attempt (st_impl s) !! attempt;
  im_placements (st_impl s) !! index.

(** ** Flushing and closing *)

Definition Sync : Io unit :=
  store ← get_store;
  _ ← refuse_if (im_closed (st_impl store)) StatusCode.kNotRunning "store is closed";
  _ ← refuse_if (negb (st_file_open store)) StatusCode.kNotRunning "store is not open for append";
  _ ← SyncFile;
  on_store count_sync.

Definition Close : Io unit :=
  _ ← on_store (on_impl (im_with_closed true));
  store ← get_store;
  if negb (st_file_open store) then mret tt else
  _ ← on_store (st_with_file false);
  sync_status ← io_status (if read_only (st_options store) then mret tt else SyncFile);
  close_status ← io_status (file_call (IoError "fclose failed" (st_path store)));
  match sync_status, close_status with
  | Error status, _ => io_fail status
  | Value _, Error status => io_fail status
  | Value _, Value _ => mret tt
  end.

(** ** Store objects

    A [PlacementStore] object is [None] where [file_] and [impl_] are null: it was moved
    from, or nothing was opened into it.  Then only the path, the options, the report and
    the statistics it still has can be read. *)

Definition StoreObject : Type := option PlacementStore.

(** Whether an object has a file, which it closes without a sync when it goes. *)
Definition has_file (object : StoreObject) : bool :=
  match object with Some store => st_file_open store | None => false end.

(** The destructor: whether it closes a file, and what is left. *)
Definition Store_destroy (object : StoreObject) : bool * StoreObject := (has_file object, None).

(** The move constructor: the new object and what is left of the other. *)
Definition Store_move (other : StoreObject) : StoreObject * StoreObject := (other, None).

(** The move assignment between different objects: whether it closes a file, the object
    and what is left of the other. *)
Definition Store_assign (object other : StoreObject) : bool * StoreObject * StoreObject :=
  (has_file object, other, None).

(** A query of an object. *)
Definition query {A} (find : PlacementStore → A) (object : StoreObject) : Result A :=
  match object with
  | None => Error (mkStatus StatusCode.kNotRunning "store is not open")
  | Some store => Value (find store)
  end.

(** An operation of an object over the disk and the outcomes of the calls, where [refused]
    is what it answers to a null [impl_]. *)
Definition operate {A} (refused : Result A) (m : Io A) (object : StoreObject) (disk : Disk)
    (io : list IoOutcome) : Result A * StoreObject * Disk * list IoOutcome :=
  match object with
  | None => (refused, None, disk, io)
  | Some store =>
      let '(result, w) := m (mkWorld store disk io) in
      (result, Some (w_store w), w_disk w, w_io w)
  end.

Definition store_closed {A} : Result A :=
  Error (mkStatus StatusCode.kNotRunning "store is closed").

(** The operations of objects, with what they look at before a null [impl_]. *)
Definition object_start (record : AttemptRecord) :=
  operate store_closed (AppendAttemptStart record).
Definition object_terminal (record : AttemptRecord) :=
  operate
    (if bool_decide (at_phase record = AttemptPhase.kStarted) then
       Error (mkStatus StatusCode.kInvalidArgument
                "terminal attempt record must carry a final phase")
     else store_closed)
    (AppendAttemptTerminal record).
Definition object_commit (intent : PlacementIntent) (delta : IncumbentDelta)
    (decision_digest : Digest) (committed_by commit_epoch : N) (now : Z) :=
  operate store_closed
    (CommitPlacement intent delta decision_digest committed_by commit_epoch now).
Definition object_compact := operate store_closed Compact.
Definition object_sync := operate store_closed Sync.
Definition object_close := operate (Value tt) Close.

(** Moving, assigning and destroying close each file once: the files of the objects before
    are those closed and those of the objects after. *)
Lemma objects_files object other :
  let '(moved, rest) := Store_move other in
  let '(closed, assigned, rest') := Store_assign object other in
  let '(gone, nothing) := Store_destroy object in
  (Nat.b2n (has_file moved) + Nat.b2n (has_file rest) = Nat.b2n (has_file other) ∧
   Nat.b2n closed + Nat.b2n (has_file assigned) + Nat.b2n (has_file rest') =
     Nat.b2n (has_file object) + Nat.b2n (has_file other) ∧
   Nat.b2n gone + Nat.b2n (has_file nothing) = Nat.b2n (has_file object))%nat.
Proof. cbn. lia. Qed.
