(* ===== verification/StoreFacts.v ===== *)
(** * Facts about the operations of the store

    What an operation can do to the books of the store, whatever the file system
    answers; what appending does where nothing fails; the sizes of records; and the invariants of the indices. *)

From Stdlib Require Import String.
From S2P Require Import Prelude StdAlgo Checked Status Bytes Hash Model Explain Records Codec.
From S2P Require Import CodecFacts CodecExact Wire WireFacts Store JournalFacts Ledger.
From S2P Require Import StoreOps.

(** ** Books *)

(** The part of the state that the queries read. *)
Definition books (impl : Impl) :=
  (im_placements impl, im_latest_by_flow impl, im_attempts impl, im_commit_by_attempt impl,
   im_next_placement_id impl).

(** What stays fixed while a store is open. *)
Definition frame (s : PlacementStore) := (st_path s, st_options s, im_closed (st_impl s)).

(** A computation that leaves the books alone, however it ends. *)
Definition keeps {A} (m : Io A) : Prop := ∀ w,
  books (st_impl (w_store (m w).2)) = books (st_impl (w_store w)) ∧
  frame (w_store (m w).2) = frame (w_store w).

Lemma keeps_ret {A} (a : A) : keeps (mret a : Io A).
Proof. done. Qed.

Lemma keeps_fail {A} status : keeps (io_fail status : Io A).
Proof. done. Qed.

Lemma keeps_bind {A B} (m : Io A) (k : A → Io B) : keeps m → (∀ a, keeps (k a)) → keeps (m ≫= k).
Proof.
  intros Hm Hk w. specialize (Hm w). unfold mbind, Io_bind.
  destruct (m w) as [[a|s] w']; cbn [snd] in *; [|done].
  destruct (Hk a w') as [-> ->]. done.
Qed.

Lemma keeps_status {A} (m : Io A) : keeps m → keeps (io_status m).
Proof. intros Hm w. specialize (Hm w). unfold io_status. by destruct (m w). Qed.

Lemma keeps_refuse refused code message : keeps (refuse_if refused code message).
Proof. by destruct refused. Qed.

Lemma keeps_get : keeps get_store.
Proof. done. Qed.

Lemma keeps_disk f : keeps (on_disk f).
Proof. done. Qed.

Lemma keeps_store f :
  (∀ s, books (st_impl (f s)) = books (st_impl s) ∧ frame (f s) = frame s) → keeps (on_store f).
Proof. intros H w. apply H. Qed.

Lemma keeps_next : keeps next_outcome.
Proof. intros [s d [|o io]]; done. Qed.

Create HintDb keeps.
#[export] Hint Resolve keeps_ret keeps_fail keeps_status keeps_refuse keeps_get keeps_disk
  keeps_next : keeps.

Ltac keeping := cbv beta; repeat first
  [ solve [eauto with keeps]
  | apply keeps_bind; [|intros ?]
  | apply keeps_store; done
  | case_match ].

Lemma keeps_call failure : keeps (file_call failure).
Proof. unfold file_call. keeping. Qed.
#[export] Hint Resolve keeps_call : keeps.

Lemma keeps_sync : keeps SyncFile.
Proof. unfold SyncFile. keeping. Qed.
#[export] Hint Resolve keeps_sync : keeps.

Lemma keeps_fwrite path data : keeps (fwrite_journal path data).
Proof. unfold fwrite_journal. keeping. Qed.
#[export] Hint Resolve keeps_fwrite : keeps.

Lemma keeps_append type payload : keeps (AppendRecordRaw type payload).
Proof. unfold AppendRecordRaw. keeping. Qed.
#[export] Hint Resolve keeps_append : keeps.

Lemma keeps_replace to f : keeps (ReplaceFileAtomically to f).
Proof. unfold ReplaceFileAtomically. keeping. Qed.
#[export] Hint Resolve keeps_replace : keeps.

Lemma keeps_compact_body : keeps compact_body.
Proof. unfold compact_body, write_snapshot, reset_journal, write_marker. cbv zeta. keeping. Qed.
#[export] Hint Resolve keeps_compact_body : keeps.

Lemma keeps_compact : keeps Compact.
Proof. unfold Compact. cbv zeta. keeping. Qed.
#[export] Hint Resolve keeps_compact : keeps.

Lemma keeps_maybe_compact : keeps MaybeCompact.
Proof. unfold MaybeCompact. cbv zeta. keeping. Qed.
#[export] Hint Resolve keeps_maybe_compact : keeps.

Lemma keeps_Sync : keeps Sync.
Proof. unfold Sync. keeping. Qed.

(** ** Steps of the books *)

(** The operations of a client. *)
Inductive StoreOp :=
  | OpStart (record : AttemptRecord)
  | OpTerminal (record : AttemptRecord)
  | OpCommit (intent : PlacementIntent) (delta : IncumbentDelta) (decision_digest : Digest)
      (committed_by commit_epoch : N) (now : Z)
  | OpCompact
  | OpSync
  | OpClose.

(** What one operation may do to the books, whatever it returns. *)
Inductive book_step (impl : Impl) : StoreOp → Impl → Prop :=
  | step_keep op impl' : books impl' = books impl → book_step impl op impl'
  | step_start record n impl' :
      attempt_finished (at_attempt record) impl = false →
      im_commit_by_attempt impl !! at_attempt record = None →
      books impl' =
        books (put_attempt (with_phase_sequence AttemptPhase.kStarted (wrap 64 n) record) impl) →
      book_step impl (OpStart record) impl'
  | step_terminal record n impl' :
      at_phase record ≠ AttemptPhase.kStarted → attempt_finished (at_attempt record) impl = false →
      books impl' =
        books (put_attempt (with_phase_sequence (at_phase record) (wrap 64 n) record) impl) →
      book_step impl (OpTerminal record) impl'
  | step_place intent delta digest by_incarnation epoch now r impl' :
      int_flow intent ≠ 0 → int_path intent ≠ 0 → int_digest intent = IntentDigest intent →
      committed_before intent impl = None →
      next_placement intent delta digest by_incarnation epoch now impl = Value r →
      books impl' = books (im_with_next_id (wrap 64 (pl_id r + 1)) (push_placement r impl)) →
      book_step impl (OpCommit intent delta digest by_incarnation epoch now) impl'.

Definition run_op (op : StoreOp) : Io unit :=
  match op with
  | OpStart record => AppendAttemptStart record
  | OpTerminal record => AppendAttemptTerminal record
  | OpCommit intent delta digest committed_by commit_epoch now =>
      _ ← CommitPlacement intent delta digest committed_by commit_epoch now; mret tt
  | OpCompact => Compact
  | OpSync => Sync
  | OpClose => Close
  end.

(** The world after the operations, whatever their statuses. *)
Definition run_ops (ops : list StoreOp) (w : World) : World :=
  foldl (λ w op, (run_op op w).2) w ops.

(** Case analysis of a computation, one call at a time. *)
Lemma bind_cases {A B} (m : Io A) (k : A → Io B) w r w' :
  (m ≫= k) w = (r, w') →
  (∃ s, m w = (Error s, w') ∧ r = Error s) ∨ (∃ a w1, m w = (Value a, w1) ∧ k a w1 = (r, w')).
Proof.
  unfold mbind, Io_bind. destruct (m w) as [[a|s] w1]; [by eauto|]. intros [= <- <-]. by left; eauto.
Qed.

Lemma refuse_cases {B} refused code message (k : unit → Io B) w r w' :
  (refuse_if refused code message ≫= k) w = (r, w') →
  (refused = true ∧ r = Error (mkStatus code message) ∧ w' = w) ∨
  (refused = false ∧ k tt w = (r, w')).
Proof. destruct refused; cbn; [intros [= <- <-]|]; eauto. Qed.

Lemma keeps_run {A} (m : Io A) w r w' :
  keeps m → m w = (r, w') →
  books (st_impl (w_store w')) = books (st_impl (w_store w)) ∧ frame (w_store w') = frame (w_store w).
Proof. intros Hm E. specialize (Hm w). by rewrite E in Hm. Qed.

(** A run that changed nothing. *)
Ltac unchanged := split; [by apply step_keep|done].

(** Takes the next refusal of a run in the context. *)
Ltac next_refusal H :=
  apply refuse_cases in H as [(? & -> & ->)|[? H]].

Lemma books_put impl1 impl2 a : books impl1 = books impl2 →
  books (put_attempt a impl1) = books (put_attempt a impl2).
Proof. unfold books, put_attempt, im_with_attempts. fields. intros H. congruence. Qed.

Lemma books_place impl1 impl2 r next : books impl1 = books impl2 →
  books (im_with_next_id next (push_placement r impl1)) =
  books (im_with_next_id next (push_placement r impl2)).
Proof.
  unfold books, push_placement, im_with_next_id. fields.
  intros H. injection H as -> -> -> -> _. done.
Qed.

Lemma append_attempt_books copy w r w' :
  append_attempt copy w = (r, w') →
  (books (st_impl (w_store w')) = books (st_impl (w_store w)) ∨
   books (st_impl (w_store w')) = books (put_attempt copy (st_impl (w_store w)))) ∧
  frame (w_store w') = frame (w_store w).
Proof.
  unfold append_attempt. intros H.
  apply bind_cases in H as [(s & H & ->)|([] & w1 & H1 & H)].
  { apply keeps_run in H as [-> ->]; eauto with keeps. }
  apply keeps_run in H1 as [Hb Hf]; [|eauto with keeps].
  apply bind_cases in H as [(s & [=] & ->)|([] & w2 & [= <-] & H)].
  apply keeps_run in H as [Hb2 Hf2]; [|eauto with keeps]. split.
  - right. rewrite Hb2. cbn. by apply books_put.
  - by rewrite Hf2, <-Hf.
Qed.

Lemma AppendAttemptStart_step record w r w' :
  AppendAttemptStart record w = (r, w') →
  book_step (st_impl (w_store w)) (OpStart record) (st_impl (w_store w')) ∧
  frame (w_store w') = frame (w_store w).
Proof.
  unfold AppendAttemptStart. intros H.
  apply bind_cases in H as [(s & [=] & _)|(store & w1 & [= <- <-] & H)].
  next_refusal H; [unchanged|].
  next_refusal H; [unchanged|].
  apply append_attempt_books in H as [[Hb|Hb] Hf]; (split; [|done]); [by apply step_keep|].
  eapply step_start; [done| |exact Hb].
  apply bool_decide_eq_false in H1. by apply eq_None_not_Some.
Qed.

Lemma AppendAttemptTerminal_step record w r w' :
  AppendAttemptTerminal record w = (r, w') →
  book_step (st_impl (w_store w)) (OpTerminal record) (st_impl (w_store w')) ∧
  frame (w_store w') = frame (w_store w).
Proof.
  unfold AppendAttemptTerminal. intros H.
  next_refusal H; [unchanged|].
  apply bind_cases in H as [(s & [=] & _)|(store & w1 & [= <- <-] & H)].
  next_refusal H; [unchanged|].
  apply append_attempt_books in H as [[Hb|Hb] Hf]; (split; [|done]); [by apply step_keep|].
  eapply step_terminal; [|done|exact Hb]. by apply bool_decide_eq_false in H0.
Qed.

Lemma PlacementIntent_eqb_refl a : PlacementIntent_eqb a a = true.
Proof.
  unfold PlacementIntent_eqb, ReservationRef_eqb. rewrite !N.eqb_refl. done.
Qed.

Lemma PlacementIntent_eqb_eq a b :
  PlacementIntent_eqb a b = true → int_digest a = int_digest b → a = b.
Proof.
  unfold PlacementIntent_eqb, ReservationRef_eqb. intros H Hd. b2p. destruct_and!.
  destruct a as [? ? ? ? ? ? ? ? ? ? ? ? ? ? ? [] ? ? ?], b as [? ? ? ? ? ? ? ? ? ? ? ? ? ? ? [] ? ? ?].
  cbn in *. subst. done.
Qed.

Lemma committed_before_error intent impl : ∀ status,
  committed_before intent impl = Some (Error status) →
  status = mkStatus StatusCode.kDuplicateAttemptConflict
             "attempt already committed a different placement intent".
Proof.
  intros status. unfold committed_before. destruct (valid _); [|done].
  destruct (_ !! _); [|done]. cbn. destruct (_ !! _); [|done]. cbn.
  destruct (PlacementIntent_eqb _ _); by intros [= <-].
Qed.

Lemma CommitPlacement_step intent delta digest by_incarnation epoch now w r w' :
  CommitPlacement intent delta digest by_incarnation epoch now w = (r, w') →
  book_step (st_impl (w_store w)) (OpCommit intent delta digest by_incarnation epoch now)
    (st_impl (w_store w')) ∧
  frame (w_store w') = frame (w_store w).
Proof.
  unfold CommitPlacement. intros H.
  apply bind_cases in H as [(s & [=] & _)|(store & w1 & [= <- <-] & H)].
  next_refusal H; [unchanged|].
  next_refusal H; [unchanged|].
  next_refusal H; [unchanged|].
  destruct (committed_before intent _) as [[record|status]|] eqn:Hc;
    [injection H as <- <-; unchanged..|].
  next_refusal H; [unchanged|].
  destruct (next_placement _ _ _ _ _ _ _) as [record|status] eqn:Hn;
    [|injection H as <- <-; unchanged].
  next_refusal H; [unchanged|].
  apply bind_cases in H as [(s & H & ->)|([] & w2 & Ha & H)].
  { apply keeps_run in H as [Hb Hf]; [|eauto with keeps]. split; [by apply step_keep|done]. }
  apply keeps_run in Ha as [Hb Hf]; [|eauto with keeps].
  apply bind_cases in H as [(s & [=] & ->)|([] & w3 & [= <-] & H)].
  apply keeps_run in H as [Hb2 Hf2]; [|keeping]. split; [|by rewrite Hf2, <-Hf].
  b2p; destruct_and!. eapply step_place; [| | |exact Hc|exact Hn|]; [done..|].
  rewrite Hb2. cbn [w_store on_impl st_with_impl st_impl]. by apply books_place.
Qed.

Lemma Close_books w : books (st_impl (w_store (Close w).2)) = books (st_impl (w_store w)).
Proof.
  unfold Close. set (k := λ _ : unit, _). unfold mbind at 1, Io_bind at 1.
  cbn [on_store]. set (w1 := mkWorld _ _ _).
  assert (keeps (k tt)) as Hk by (unfold k; keeping). by destruct (Hk w1) as [-> _].
Qed.

Lemma run_op_step op w :
  book_step (st_impl (w_store w)) op (st_impl (w_store (run_op op w).2)).
Proof.
  destruct (run_op op w) as [r w'] eqn:H. cbn [snd]. destruct op; cbn [run_op] in H.
  - by apply AppendAttemptStart_step in H as [H _].
  - by apply AppendAttemptTerminal_step in H as [H _].
  - apply bind_cases in H as [(s & H & _)|(record & w1 & H & [= _ <-])];
      by apply CommitPlacement_step in H as [H _].
  - apply step_keep. by apply keeps_run in H as [H _]; [|eauto with keeps].
  - apply step_keep. by apply keeps_run in H as [H _]; [|apply keeps_Sync].
  - apply step_keep. pose proof (Close_books w) as Hb. by rewrite H in Hb.
Qed.

(** * The invariant of the store

    The indices of the store point to the last placement of every flow and of
    every attempt, the generations of a flow are numbered from 1 and no attempt
    has two placements.  Recovery establishes the first part on any disk, and
    every operation keeps both, whatever the file system answers. *)

Definition of_flow (flow : N) (l : list PlacementRecord) : list PlacementRecord :=
  List.filter (λ r, int_flow (pl_intent r) =? flow) l.

Definition of_attempt (attempt : N) (l : list PlacementRecord) : list PlacementRecord :=
  List.filter (λ r, int_attempt (pl_intent r) =? attempt) l.

(** The placement an attempt committed. *)
Definition committed_placement (attempt : N) (impl : Impl) : option PlacementRecord :=
  index ← im_commit_by_attempt impl !! attempt;
  im_placements impl !! index.

Record well_indexed (impl : Impl) : Prop := {
  wi_indexed : indexed impl;
  wi_latest : ∀ flow, Latest flow impl = last (of_flow flow (im_placements impl));
  wi_commit : ∀ attempt, committed_placement attempt impl =
    if valid attempt then last (of_attempt attempt (im_placements impl)) else None;
  wi_attempts : map_Forall (λ id a, at_attempt a = id) (im_attempts impl);
}.

Record numbered (impl : Impl) : Prop := {
  nu_generations : ∀ flow,
    pl_generation <$> of_flow flow (im_placements impl) =
    N.of_nat <$> seq 1 (length (of_flow flow (im_placements impl)));
  nu_once : ∀ attempt, attempt ≠ 0 →
    (length (of_attempt attempt (im_placements impl)) ≤ 1)%nat;
}.

(** ** Books decide the invariant *)

Lemma books_eq impl impl' : books impl' = books impl →
  im_placements impl' = im_placements impl ∧ im_latest_by_flow impl' = im_latest_by_flow impl ∧
  im_attempts impl' = im_attempts impl ∧ im_commit_by_attempt impl' = im_commit_by_attempt impl ∧
  im_next_placement_id impl' = im_next_placement_id impl.
Proof. unfold books. intros H. by injection H. Qed.

Lemma well_indexed_books impl impl' :
  books impl' = books impl → well_indexed impl → well_indexed impl'.
Proof.
  intros (E1 & E2 & E3 & E4 & _)%books_eq [[H1 H2] H3 H4 H5].
  constructor; [constructor|..]; unfold Latest, committed_placement in *;
    by rewrite ?E1, ?E2, ?E3, ?E4.
Qed.

Lemma numbered_books impl impl' : books impl' = books impl → numbered impl → numbered impl'.
Proof. intros (E1 & _)%books_eq [H1 H2]. constructor; by rewrite E1. Qed.

(** ** Steps keep the invariant *)

Lemma list_filter_snoc {A} (f : A → bool) l x :
  List.filter f (l ++ [x]) = List.filter f l ++ (if f x then [x] else []).
Proof. rewrite List.filter_app. cbn. by destruct (f x). Qed.

Lemma well_indexed_put a impl : well_indexed impl → well_indexed (put_attempt a impl).
Proof.
  intros [Hi Hl Hc Ha]. constructor; [by destruct Hi; split|done|done|].
  by apply map_Forall_insert_2.
Qed.

Lemma lookup_index (placements : list PlacementRecord) (m : gmap N nat) k :
  map_Forall (λ _ i, (i < length placements)%nat) m →
  ∀ r, (index ← m !! k; (placements ++ [r]) !! index) = (index ← m !! k; placements !! index).
Proof.
  intros Hm r. destruct (m !! k) as [i|] eqn:E; [|done]. cbn.
  apply lookup_app_l. exact (map_Forall_lookup_1 _ _ _ _ Hm E).
Qed.

Lemma lookup_index_new (placements : list PlacementRecord) (m : gmap N nat) r k j :
  map_Forall (λ _ i, (i < length placements)%nat) m →
  (index ← <[j := length placements]> m !! k; (placements ++ [r]) !! index) =
  if j =? k then Some r else (index ← m !! k; placements !! index).
Proof.
  intros Hm. destruct (N.eqb_spec j k) as [->|Hne].
  - rewrite lookup_insert_eq. cbn. by rewrite list_lookup_middle.
  - rewrite lookup_insert_ne by done. by apply lookup_index.
Qed.

Lemma well_indexed_push r impl : well_indexed impl → well_indexed (push_placement r impl).
Proof.
  intros [Hi Hl Hc Ha]. pose proof Hi as [Il Ic].
  constructor; [by apply indexed_push| | |done]; unfold push_placement, Latest, committed_placement,
    of_flow, of_attempt in *; fields.
  - intros flow. rewrite lookup_index_new, list_filter_snoc, Hl by done.
    destruct (_ =? flow); [by rewrite last_snoc|by rewrite app_nil_r].
  - intros attempt. specialize (Hc attempt).
    destruct (valid (int_attempt (pl_intent r))) eqn:Hv.
    + rewrite lookup_index_new, list_filter_snoc, Hc by done.
      destruct (N.eqb_spec (int_attempt (pl_intent r)) attempt) as [<-|Hne].
      * by rewrite Hv, last_snoc.
      * by rewrite app_nil_r.
    + rewrite lookup_index, list_filter_snoc, Hc by done. destruct (valid attempt) eqn:Hva; [|done].
      destruct (N.eqb_spec (int_attempt (pl_intent r)) attempt) as [E|Hne]; [congruence|].
      by rewrite app_nil_r.
Qed.

Lemma next_placement_spec intent delta digest by_incarnation epoch now impl r :
  next_placement intent delta digest by_incarnation epoch now impl = Value r →
  pl_intent r = intent ∧ pl_id r = im_next_placement_id impl ∧
  pl_supersedes_generation r = from_option pl_generation 0 (Latest (int_flow intent) impl) ∧
  pl_generation r = pl_supersedes_generation r + 1.
Proof.
  unfold next_placement. destruct (Latest _ _) as [p|]; [|by intros [= <-]].
  destruct (_ =? _); [done|]. by intros [= <-].
Qed.

Lemma committed_before_none intent impl :
  well_indexed impl → committed_before intent impl = None → int_attempt intent ≠ 0 →
  of_attempt (int_attempt intent) (im_placements impl) = [].
Proof.
  intros Hw Hc Hv. apply valid_true in Hv. pose proof (wi_commit impl Hw (int_attempt intent)) as E.
  rewrite Hv in E. unfold committed_before in Hc. rewrite Hv in Hc.
  assert (committed_placement (int_attempt intent) impl = None) as E'.
  { unfold committed_placement. destruct (_ !! _); [|done]. cbn in *. by destruct (_ !! _). }
  rewrite E' in E. symmetry in E. by apply last_None in E.
Qed.

Lemma numbered_push intent delta digest by_incarnation epoch now impl r :
  well_indexed impl → numbered impl → committed_before intent impl = None →
  next_placement intent delta digest by_incarnation epoch now impl = Value r →
  numbered (push_placement r impl).
Proof.
  intros Hw [Hg Ho] Hc Hn. pose proof (committed_before_none _ _ Hw Hc) as Hnew.
  apply next_placement_spec in Hn as (Hr & _ & Hs & Hgen).
  constructor; unfold push_placement; fields.
  - intros flow. unfold of_flow in *. rewrite list_filter_snoc, Hr.
    destruct (N.eqb_spec (int_flow intent) flow) as [<-|Hne]; [|by rewrite app_nil_r].
    specialize (Hg (int_flow intent)). rewrite length_app, fmap_app, Hg. cbn [length fmap list_fmap].
    rewrite Nat.add_1_r, seq_S, fmap_app. f_equal. cbn. f_equal. rewrite Hgen, Hs, (wi_latest _ Hw).
    unfold of_flow. destruct (List.filter _ _) as [|p l _] eqn:E using rev_ind; [done|].
    rewrite last_snoc, length_app. cbn [from_option length].
    rewrite length_app, fmap_app, Nat.add_1_r, seq_S, fmap_app in Hg.
    apply app_inj_2 in Hg as [_ Hg]; [|done]. cbn in Hg. injection Hg as Hp. lia.
  - intros attempt Ha. specialize (Ho attempt Ha). unfold of_attempt in *. rewrite list_filter_snoc, Hr.
    destruct (N.eqb_spec (int_attempt intent) attempt) as [<-|Hne]; [|by rewrite app_nil_r].
    by rewrite Hnew.
Qed.

Lemma well_indexed_next_id n impl : well_indexed impl → well_indexed (im_with_next_id n impl).
Proof. intros [[H1 H2] H3 H4 H5]. by constructor. Qed.

Lemma book_step_well_indexed op impl impl' :
  book_step impl op impl' → well_indexed impl → well_indexed impl'.
Proof.
  intros Hs Hw. destruct Hs as [? ? Hb|? ? ? _ _ Hb|? ? ? _ _ Hb|? ? ? ? ? ? r ? _ _ _ _ _ Hb];
    apply (well_indexed_books _ _ Hb); [done|by apply well_indexed_put..|].
  by apply well_indexed_next_id, well_indexed_push.
Qed.

Lemma book_step_numbered op impl impl' :
  book_step impl op impl' → well_indexed impl → numbered impl → numbered impl'.
Proof.
  intros Hs Hw Hu. destruct Hs as [? ? Hb|? ? ? _ _ Hb|? ? ? _ _ Hb|? ? ? ? ? ? r ? _ _ _ Hc Hn Hb];
    apply (numbered_books _ _ Hb); [done|by destruct Hu..|].
  destruct (numbered_push _ _ _ _ _ _ _ _ Hw Hu Hc Hn) as [H1 H2]. by constructor.
Qed.

Lemma run_ops_inv (Q : StoreOp → Prop) (P : Impl → Prop) :
  (∀ op impl impl', Q op → book_step impl op impl' → P impl → P impl') →
  ∀ ops w, Forall Q ops → P (st_impl (w_store w)) → P (st_impl (w_store (run_ops ops w))).
Proof.
  intros HP ops. induction ops as [|op ops IH]; intros w HQ Hw; [done|].
  apply Forall_cons in HQ as [HQ HQs]. cbn. apply IH; [done|].
  exact (HP _ _ _ HQ (run_op_step op w) Hw).
Qed.

(** ** Recovery establishes the invariant *)

Lemma apply_record_well_indexed snap offset parsed payload impl recovery impl' recovery' :
  well_indexed impl →
  apply_record snap offset parsed payload impl recovery = Value (impl', recovery') →
  well_indexed impl'.
Proof.
  intros Hw. unfold apply_record.
  repeat (case_match; try done); intros [= <- <-]; try done;
    match goal with
    | |- context [push_placement ?r impl] => destruct (well_indexed_push r impl Hw) as [[] ? ? ?]
    | |- context [put_attempt ?a impl] => destruct (well_indexed_put a impl Hw) as [[] ? ? ?]
    | _ => destruct Hw as [[] ? ? ?]
    end; by constructor.
Qed.

Lemma load_records_inv (P : Impl → Prop) options snap data :
  (∀ offset parsed payload impl recovery impl' recovery', P impl →
     apply_record snap offset parsed payload impl recovery = Value (impl', recovery') → P impl') →
  ∀ fuel offset impl recovery read loaded, P impl →
  load_records fuel options snap data offset impl recovery read = Value loaded → P (ld_impl loaded).
Proof.
  intros HP fuel. induction fuel as [|fuel IH]; intros offset impl recovery read loaded Hi;
    cbn [load_records]; [by intros [= <-]|].
  destruct (negb _); [by intros [= <-]|].
  destruct (read_record _ data offset) as [[[parsed payload] next]|].
  - destruct (apply_record _ _ _ _ _ _) as [[impl' recovery']|] eqn:E; [|done].
    apply IH. by eapply HP.
  - destruct (HandleDamage _ _ _ _) as [[status recovery'] len].
    destruct (status_ok status); [by intros [= <-]|done].
Qed.

Lemma LoadSnapshot_well_indexed options data recovery impl recovery' :
  LoadSnapshot options data recovery = Value (impl, recovery') → well_indexed impl.
Proof.
  unfold LoadSnapshot. destruct (read_snapshot options data) as [payload|]; [|done].
  destruct (DecodeSnapshotPayload options _) as [[[[[[next_id max] retired] placements] attempts] r]|];
    [|done].
  intros [= <- <-]. set (impl1 := foldl _ Impl_init placements).
  assert (well_indexed impl1) as H1.
  { apply foldl_inv; [intros; by apply well_indexed_push|].
    constructor; [apply indexed_init|done| |apply map_Forall_empty].
    intros attempt. by destruct (valid attempt). }
  assert (well_indexed (foldl (λ impl a, put_attempt a impl) impl1 attempts)) as H2.
  { apply foldl_inv; [|done]. intros. by apply well_indexed_put. }
  destruct H2 as [[] ? ? ?]. by constructor.
Qed.

(** ** Commits *)

(** The checks [CommitPlacement] makes on an intent. *)
Definition identified (intent : PlacementIntent) : Prop :=
  int_flow intent ≠ 0 ∧ int_path intent ≠ 0 ∧ int_path_authority intent ≠ 0 ∧
  int_digest intent = IntentDigest intent.

Lemma committed_before_some intent impl p :
  int_attempt intent ≠ 0 → committed_placement (int_attempt intent) impl = Some p →
  committed_before intent impl =
  Some (if PlacementIntent_eqb (pl_intent p) intent then Value p
        else Error (mkStatus StatusCode.kDuplicateAttemptConflict
                      "attempt already committed a different placement intent")).
Proof.
  intros Ha Hp. unfold committed_before. apply valid_true in Ha. rewrite Ha.
  unfold committed_placement in Hp. destruct (_ !! int_attempt intent); [|done]. cbn in *.
  by rewrite Hp.
Qed.

(** Committing again returns the record, or refuses another intent. *)
Lemma CommitPlacement_replay intent delta digest by_incarnation epoch now w p :
  im_closed (st_impl (w_store w)) = false → identified intent → int_attempt intent ≠ 0 →
  committed_placement (int_attempt intent) (st_impl (w_store w)) = Some p →
  CommitPlacement intent delta digest by_incarnation epoch now w =
  (if PlacementIntent_eqb (pl_intent p) intent then Value p
   else Error (mkStatus StatusCode.kDuplicateAttemptConflict
                 "attempt already committed a different placement intent"), w).
Proof.
  intros Hc (Hf & Hp & Hpa & Hd) Ha Hcp. unfold CommitPlacement, mbind, Io_bind, get_store.
  cbn [w_store]. rewrite Hc. apply valid_true in Hf, Hp, Hpa. rewrite Hf, Hp, Hpa, Hd.
  assert (Digest_eqb (IntentDigest intent) (IntentDigest intent) = true) as -> by by apply Digest_eqb_eq.
  cbn [negb orb refuse_if mret Io_ret]. rewrite (committed_before_some intent _ p) by done.
  by destruct (PlacementIntent_eqb _ _).
Qed.

Lemma committed_placement_books attempt impl impl' :
  books impl' = books impl → committed_placement attempt impl' = committed_placement attempt impl.
Proof. intros (E1 & _ & _ & E4 & _)%books_eq. unfold committed_placement. by rewrite E1, E4. Qed.

Lemma committed_placement_push r impl :
  well_indexed impl → int_attempt (pl_intent r) ≠ 0 →
  committed_placement (int_attempt (pl_intent r)) (push_placement r impl) = Some r.
Proof.
  intros Hw Ha. rewrite (wi_commit _ (well_indexed_push r impl Hw)). apply valid_true in Ha as ->.
  unfold of_attempt, push_placement. fields. by rewrite list_filter_snoc, N.eqb_refl, last_snoc.
Qed.

(** A successful commit. *)
Lemma CommitPlacement_value intent delta digest by_incarnation epoch now w r w' :
  well_indexed (st_impl (w_store w)) →
  CommitPlacement intent delta digest by_incarnation epoch now w = (Value r, w') →
  identified intent ∧ PlacementIntent_eqb (pl_intent r) intent = true ∧
  (int_attempt intent ≠ 0 →
   committed_placement (int_attempt intent) (st_impl (w_store w')) = Some r).
Proof.
  intros Hw. unfold CommitPlacement. intros H.
  apply bind_cases in H as [(s & [=] & _)|(store & w1 & [= <- <-] & H)].
  apply refuse_cases in H as [(_ & [=] & _)|[_ H]].
  apply refuse_cases in H as [(_ & [=] & _)|[Hid H]].
  apply refuse_cases in H as [(_ & [=] & _)|[Hdig H]].
  assert (identified intent) as Hident by (b2p; destruct_and!; by repeat split).
  split; [done|]. clear Hid Hdig.
  destruct (committed_before intent _) as [[record|status]|] eqn:Hc; [|done|].
  - injection H as <- <-. unfold committed_before in Hc.
    destruct (valid (int_attempt intent)) eqn:Hv; [|done].
    destruct (_ !! int_attempt intent) as [i|] eqn:Ei; [|done]. cbn in Hc.
    destruct (_ !! i) as [p|] eqn:Ep; [|done]. cbn in Hc.
    destruct (PlacementIntent_eqb _ _) eqn:Eq; [|done]. injection Hc as ->. split; [done|].
    intros _. unfold committed_placement. rewrite Ei. cbn. done.
  - apply refuse_cases in H as [(_ & [=] & _)|[_ H]].
    destruct (next_placement _ _ _ _ _ _ _) as [record|status] eqn:Hn; [|done].
    apply refuse_cases in H as [(_ & [=] & _)|[_ H]].
    apply bind_cases in H as [(s & _ & [=])|([] & w2 & Ha & H)].
    apply keeps_run in Ha as [Hb _]; [|eauto with keeps].
    apply bind_cases in H as [(s & [=] & _)|([] & w3 & [= <-] & H)].
    apply bind_cases in H as [(s & _ & [=])|([] & w4 & Hm & [= <- <-])].
    apply keeps_run in Hm as [Hb2 _]; [|eauto with keeps].
    apply next_placement_spec in Hn as (<- & _). split; [apply PlacementIntent_eqb_refl|].
    intros Hv. rewrite (committed_placement_books _ _ _ Hb2). cbn [w_store on_impl st_with_impl st_impl].
    apply (committed_placement_push record); [by apply (well_indexed_books _ _ Hb)|done].
Qed.

(** A commit is never taken back. *)
Lemma book_step_commit op impl impl' attempt p :
  attempt ≠ 0 → book_step impl op impl' →
  well_indexed impl ∧ committed_placement attempt impl = Some p →
  well_indexed impl' ∧ committed_placement attempt impl' = Some p.
Proof.
  intros Ha Hs [Hw Hp]. split; [by eapply book_step_well_indexed|].
  destruct Hs as [? ? Hb|? ? ? _ _ Hb|? ? ? _ _ Hb|intent ? ? ? ? ? r ? _ _ _ Hc Hn Hb];
    rewrite (committed_placement_books _ _ _ Hb); [done..|].
  apply next_placement_spec in Hn as (<- & _).
  change (committed_placement attempt (push_placement r impl) = Some p).
  rewrite (wi_commit _ (well_indexed_push r impl Hw)). rewrite (wi_commit _ Hw) in Hp.
  destruct (valid attempt); [|done]. unfold of_attempt, push_placement in *. fields.
  rewrite list_filter_snoc. destruct (N.eqb_spec (int_attempt (pl_intent r)) attempt) as [<-|Hne];
    [|by rewrite app_nil_r].
  pose proof (committed_before_none _ _ Hw Hc Ha) as E. unfold of_attempt in E. by rewrite E in Hp.
Qed.
