(* ===== verification/RecoveryFacts.v ===== *)
(** * Facts about recovery

    The accounting settles the attempts and finds the orphans; what [Open] leaves
    is a state whose journal replays to it. *)

From Stdlib Require Import String.
From S2P Require Import Prelude StdAlgo Checked Status Bytes Hash Model Explain Records Codec.
From S2P Require Import CodecFacts CodecExact Wire WireFacts Store JournalFacts Ledger.
From S2P Require Import StoreOps StoreFacts.

(** ** The accounting of the attempts *)

Section Accounting.
Context (commits : gmap N nat).

Abbreviation is_committed id := (bool_decide (is_Some (commits !! id))).

Definition orphan (entry : N * AttemptRecord) : bool :=
  bool_decide (at_phase entry.2 = AttemptPhase.kCommitted) && negb (is_committed entry.1).

Lemma account_attempt_step acc id a :
  (ac_attempts acc !! id = Some a →
   ac_attempts (account_attempt commits acc (id, a)) =
   <[id := settle (is_committed id) a]> (ac_attempts acc)) ∧
  ac_orphan_commit (account_attempt commits acc (id, a)) =
  ac_orphan_commit acc || orphan (id, a).
Proof.
  unfold account_attempt, orphan, settle. cbn [fst snd].
  destruct (at_phase a) eqn:Hp; try (by split; [intros H; rewrite andb_false_r, insert_id|]);
    destruct (is_committed id) eqn:Hc; cbn; split; try done; intros H; by rewrite insert_id.
Qed.

Lemma account_attempts entries : ∀ acc,
  NoDup (fst <$> entries) → (∀ id a, (id, a) ∈ entries → ac_attempts acc !! id = Some a) →
  (∀ id, ac_attempts (foldl (account_attempt commits) acc entries) !! id =
         if bool_decide (id ∈ fst <$> entries)
         then settle (is_committed id) <$> (ac_attempts acc !! id) else ac_attempts acc !! id) ∧
  ac_orphan_commit (foldl (account_attempt commits) acc entries) =
  ac_orphan_commit acc || existsb orphan entries.
Proof.
  induction entries as [|[id a] entries IH]; intros acc Hnd Hacc; cbn [foldl existsb fmap list_fmap fst].
  { split; [done|by rewrite orb_false_r]. }
  apply NoDup_cons in Hnd as [Hid Hnd].
  destruct (account_attempt_step acc id a) as [Ha Ho].
  specialize (Ha (Hacc id a ltac:(by left))).
  destruct (IH (account_attempt commits acc (id, a)) Hnd) as [IH1 IH2].
  { intros k b Hk. rewrite Ha, lookup_insert_ne; [apply Hacc; by right|].
    intros ->. apply Hid. apply list_elem_of_fmap. by exists (k, b). }
  split; [|by rewrite IH2, Ho, orb_assoc].
  intros k. rewrite IH1, Ha. destruct (decide (k = id)) as [->|Hne].
  - rewrite lookup_insert_eq, (bool_decide_eq_false_2 _ Hid), (Hacc id a) by by left.
    by rewrite (bool_decide_eq_true_2 (id ∈ id :: (fst <$> entries))) by by left.
  - rewrite lookup_insert_ne by done.
    rewrite (bool_decide_ext (k ∈ fst <$> entries) (k ∈ id :: (fst <$> entries))); [done|].
    rewrite elem_of_cons. naive_solver.
Qed.
End Accounting.

Lemma ordered_entries_perm {V} (m : gmap N V) : ordered_entries m ≡ₚ map_to_list m.
Proof. apply std_sort_perm. Qed.

Lemma ordered_entries_elem {V} (m : gmap N V) k v : (k, v) ∈ ordered_entries m ↔ m !! k = Some v.
Proof. rewrite ordered_entries_perm. apply elem_of_map_to_list. Qed.

Lemma ordered_entries_nodup {V} (m : gmap N V) : NoDup (fst <$> ordered_entries m).
Proof. rewrite ordered_entries_perm. apply NoDup_fst_map_to_list. Qed.

(** An attempt recorded as committed without a placement. *)
Definition orphaned (impl : Impl) : Prop :=
  ∃ id a, im_attempts impl !! id = Some a ∧ at_phase a = AttemptPhase.kCommitted ∧
    im_commit_by_attempt impl !! id = None.

Lemma recovery_accounting_spec impl report impl' report' o :
  recovery_accounting impl report = (impl', report', o) →
  impl' = im_with_attempts (settle_all (im_commit_by_attempt impl) (im_attempts impl)) impl ∧
  (o = true ↔ orphaned impl) ∧ rep_liveness_restored report' = false ∧
  rep_truncated_tail report' = rep_truncated_tail report ∧
  rep_snapshot_loaded report' = rep_snapshot_loaded report ∧
  rep_bytes_discarded report' = rep_bytes_discarded report ∧
  rep_max_sequence report' = im_max_sequence impl ∧
  rep_latest_by_flow report' = latest_placements impl.
Proof.
  unfold recovery_accounting.
  set (acc0 := mkAccounting (im_attempts impl) 0 0 0 0 0 [] 0 0 false).
  destruct (account_attempts (im_commit_by_attempt impl) (ordered_entries (im_attempts impl)) acc0)
    as [Ha Ho]; [apply ordered_entries_nodup|intros id a; apply ordered_entries_elem|].
  intros [= <- <- <-]. cbn. split_and!; try done.
  - f_equal. apply map_eq. intros id. rewrite Ha, settle_all_lookup. cbn [ac_attempts acc0].
    case_bool_decide as Hid; [done|].
    destruct (im_attempts impl !! id) as [a|] eqn:E; [|done].
    destruct Hid. apply list_elem_of_fmap. exists (id, a). by rewrite ordered_entries_elem.
  - rewrite Ho. cbn [ac_orphan_commit acc0 orb]. rewrite existsb_exists_elem. unfold orphaned, orphan.
    split.
    + intros ([id a] & Hel & H). apply ordered_entries_elem in Hel. cbn [fst snd] in H. b2p.
      destruct H as [Hp Hc]. exists id, a. split; [done|]. apply bool_decide_eq_true in Hp.
      apply bool_decide_eq_false in Hc. split; [done|]. by apply eq_None_not_Some.
    + intros (id & a & Hel & Hp & Hc). exists (id, a). split; [by apply ordered_entries_elem|].
      cbn [fst snd]. rewrite Hc, (bool_decide_eq_true_2 _ Hp). done.
Qed.

(** Settled attempts leave the ledger as it is. *)
Lemma ledger_of_settled impl :
  ledger_of (im_with_attempts (settle_all (im_commit_by_attempt impl) (im_attempts impl)) impl) =
  ledger_of impl.
Proof. unfold ledger_of, im_with_attempts. fields. f_equal. by apply settle_all_mono. Qed.

(** The orphans of a ledger. *)
Definition ledger_orphaned (l : Ledger) : Prop :=
  ∃ id a, lg_attempts l !! id = Some a ∧ at_phase a = AttemptPhase.kCommitted ∧
    lg_commits l !! id = None.

Lemma orphaned_ledger impl : indexed impl → orphaned impl ↔ ledger_orphaned (ledger_of impl).
Proof.
  intros Hi. unfold orphaned, ledger_orphaned.
  assert (∀ id, lg_commits (ledger_of impl) !! id = None ↔ im_commit_by_attempt impl !! id = None)
    as Hc by (intros id; rewrite !eq_None_not_Some; by rewrite commits_is_Some).
  split; intros (id & a & Ha & Hp & Hn); exists id.
  - exists a. rewrite Hc. split; [|done]. unfold ledger_of. fields.
    rewrite settle_all_lookup, Ha, Hn. done.
  - rewrite Hc in Hn. unfold ledger_of in Ha. fields. revert Ha. fields.
    rewrite settle_all_lookup, Hn. destruct (im_attempts impl !! id) as [b|]; [|done].
    intros [= <-]. by exists b.
Qed.

(** Settling keeps the invariant. *)
Lemma well_indexed_settled impl :
  well_indexed impl →
  well_indexed (im_with_attempts (settle_all (im_commit_by_attempt impl) (im_attempts impl)) impl).
Proof.
  intros [[Hl Hc] H2 H3 H4]. constructor; [by constructor|done|done|].
  unfold im_with_attempts. fields. intros id a. rewrite settle_all_lookup.
  destruct (im_attempts impl !! id) as [b|] eqn:E; [|done]. intros [= <-].
  specialize (H4 id b E). unfold settle. by destruct (_ && _).
Qed.

Lemma load_base_well_indexed options snapshot base report :
  load_base options snapshot = Value (base, report) → well_indexed base.
Proof.
  unfold load_base. destruct snapshot as [data|].
  - destruct (LoadSnapshot _ _ _) as [[impl r]|] eqn:E; [|done]. intros [= <- _].
    by eapply LoadSnapshot_well_indexed.
  - intros [= <- _]. constructor; [apply indexed_init|done| |apply map_Forall_empty].
    intros attempt. by destruct (valid attempt).
Qed.

Lemma Open_well_indexed path options disk s disk' :
  Open path options disk = (Value s, disk') → well_indexed (st_impl s).
Proof.
  unfold Open. destruct (load_base options (dk_snapshot disk)) as [[base report]|] eqn:Eb; [|done].
  apply load_base_well_indexed in Eb.
  destruct (LoadJournal _ _ _ _) as [loaded|] eqn:El; [|done].
  assert (well_indexed (ld_impl loaded)) as Hl.
  { unfold LoadJournal in El. destruct (dk_journal disk); [|by injection El as <-].
    eapply (load_records_inv well_indexed); [|exact Eb|exact El]. intros.
    by eapply apply_record_well_indexed. }
  unfold open_loaded. destruct (recovery_accounting _ _) as [[impl r] o] eqn:Er.
  apply recovery_accounting_spec in Er as (-> & _). destruct o; [done|]. intros [= <- _].
  by apply well_indexed_settled.
Qed.

(** ** Recovered placements require revalidation *)

Definition marked (impl : Impl) : Prop := Forall (λ p, unvalidated p = p) (im_placements impl).

Lemma DecodePlacementRecord_marked r p r' :
  DecodePlacementRecord r = Value (p, r') → unvalidated p = p.
Proof.
  unfold DecodePlacementRecord, mbind, Decoder_bind.
  repeat (match goal with |- context [match ?m with Value _ => _ | Error _ => _ end] =>
    destruct m as [[? ?]|]; [|done] end).
  by intros [= <- _].
Qed.

Lemma decode_each_marked n r l r' :
  decode_each n DecodePlacementRecord r = Value (l, r') → Forall (λ p, unvalidated p = p) l.
Proof.
  revert r l r'. induction n as [|n IH]; intros r l r'; cbn [decode_each]; [by intros [= <- _]|].
  unfold mbind, Decoder_bind.
  destruct (DecodePlacementRecord r) as [[p r1]|] eqn:E1; [|done].
  destruct (decode_each n _ r1) as [[k r2]|] eqn:E2; [|done]. intros [= <- _].
  constructor; [exact (DecodePlacementRecord_marked _ _ _ E1)|exact (IH _ _ _ E2)].
Qed.

Lemma marked_push r impl : unvalidated r = r → marked impl → marked (push_placement r impl).
Proof. intros Hr Hm. apply Forall_app. split; [done|]. by constructor. Qed.

Lemma load_base_marked options snapshot base report :
  load_base options snapshot = Value (base, report) → marked base.
Proof.
  unfold load_base, LoadSnapshot. destruct snapshot as [data|]; [|intros [= <- _]; constructor].
  destruct (read_snapshot _ _) as [payload|]; [|done].
  destruct (DecodeSnapshotPayload _ _) as [[[[[[? ?] ?] placements] attempts] ?]|] eqn:E; [|done].
  intros [= <- _]. unfold marked. fields. set (impl1 := foldl _ Impl_init placements).
  assert (Forall (λ p, unvalidated p = p) placements) as Hp.
  { revert E. unfold DecodeSnapshotPayload, mbind, Decoder_bind.
    repeat (match goal with |- context [match ?m with Value _ => _ | Error _ => _ end] =>
      destruct m as [[? ?]|] eqn:?; [|done] end).
    intros [= _ _ _ <- _ _]. eapply decode_each_marked; eassumption. }
  assert (marked impl1) as H1.
  { apply foldl_inv; [|constructor]. intros i p Hin Hi. apply marked_push; [|done].
    rewrite Forall_forall in Hp. by apply Hp. }
  by apply (foldl_inv marked (λ impl a, put_attempt a impl) attempts impl1).
Qed.

Lemma apply_record_marked snap offset parsed payload impl recovery impl' recovery' :
  marked impl → apply_record snap offset parsed payload impl recovery = Value (impl', recovery') →
  marked impl'.
Proof.
  intros Hm. unfold apply_record.
  destruct (hd_type parsed =? kRecordTypeJournalReset).
  { repeat (case_match; try done). by intros [= <- <-]. }
  destruct (_ <=? _); [by intros [= <- _]|]. destruct (negb _); [done|].
  destruct (hd_type parsed =? kRecordTypePlacement).
  - destruct (DecodePlacementRecord _) as [[record reader]|] eqn:Ed; [|done].
    destruct (negb _); [done|]. intros [= <- <-]. apply DecodePlacementRecord_marked in Ed.
    pose proof (marked_push record impl Ed Hm) as H. by destruct (_ <=? _).
  - repeat (case_match; try done); by intros [= <- <-].
Qed.

Lemma Open_marked path options disk s disk' :
  Open path options disk = (Value s, disk') → marked (st_impl s).
Proof.
  unfold Open. destruct (load_base options (dk_snapshot disk)) as [[base report]|] eqn:Eb; [|done].
  apply load_base_marked in Eb. destruct (LoadJournal _ _ _ _) as [loaded|] eqn:El; [|done].
  assert (marked (ld_impl loaded)) as Hl.
  { unfold LoadJournal in El. destruct (dk_journal disk); [|by injection El as <-].
    eapply (load_records_inv marked); [|exact Eb|exact El]. intros. by eapply apply_record_marked. }
  unfold open_loaded. destruct (recovery_accounting _ _) as [[impl r] o] eqn:Er.
  apply recovery_accounting_spec in Er as (-> & _). destruct o; [done|]. by intros [= <- _].
Qed.

Lemma marked_query impl (m : gmap N nat) k : marked impl →
  unvalidated <$> (i ← m !! k; im_placements impl !! i) = (i ← m !! k; im_placements impl !! i).
Proof.
  intros Hm. destruct (m !! k) as [i|]; [|done]. cbn.
  destruct (im_placements impl !! i) as [p|] eqn:E; [|done]. cbn. f_equal.
  by apply (Forall_lookup_1 _ _ _ _ Hm) in E.
Qed.

(** ** An opened store is running *)

Definition running (impl : Impl) : Prop :=
  im_closed impl = false ∧ im_compaction_in_progress impl = false.

Lemma load_base_running options snapshot base report :
  load_base options snapshot = Value (base, report) → running base.
Proof.
  unfold load_base, LoadSnapshot. destruct snapshot as [data|]; [|by intros [= <- _]].
  destruct (read_snapshot _ _) as [payload|]; [|done].
  destruct (DecodeSnapshotPayload _ _) as [[[[[[? ?] ?] placements] attempts] ?]|]; [|done].
  intros [= <- _]. unfold running. fields. set (impl1 := foldl _ Impl_init placements).
  assert (running impl1) as H1 by by apply (foldl_inv running).
  by apply (foldl_inv running (λ impl a, put_attempt a impl)).
Qed.

Lemma Open_running path options disk s disk' :
  Open path options disk = (Value s, disk') → running (st_impl s).
Proof.
  unfold Open. destruct (load_base options (dk_snapshot disk)) as [[base report]|] eqn:Eb; [|done].
  apply load_base_running in Eb. destruct (LoadJournal _ _ _ _) as [loaded|] eqn:El; [|done].
  assert (running (ld_impl loaded)) as Hl.
  { unfold LoadJournal in El. destruct (dk_journal disk); [|by injection El as <-].
    eapply (load_records_inv running); [|exact Eb|exact El].
    intros off parsed payload i rep i' rep' Hi. unfold apply_record.
    repeat (case_match; try done); by intros [= <- <-]. }
  unfold open_loaded. destruct (recovery_accounting _ _) as [[impl r] o] eqn:Er.
  apply recovery_accounting_spec in Er as (-> & _). destruct o; [done|]. by intros [= <- _].
Qed.
