(* ===== verification/StoreTyped.v ===== *)
(** * Widths

    Every field of the records a store holds is a value of its C++ type: after
    recovery from any bytes, and after any operations whose arguments are. *)

From Stdlib Require Import String.
From S2P Require Import Prelude StdAlgo Checked Status Bytes Hash Model Explain Records Codec.
From S2P Require Import CodecFacts CodecExact Wire WireFacts Store JournalFacts Ledger.
From S2P Require Import StoreOps StoreFacts RecoveryFacts.

Record typed (impl : Impl) : Prop := {
  ty_placements : Forall placement_fits (im_placements impl);
  ty_attempts : map_Forall (λ _, attempt_fits) (im_attempts impl);
  ty_next_id : u64_fits (im_next_placement_id impl);
}.

(** The arguments of an operation are values of their types. *)
Definition op_typed (op : StoreOp) : Prop :=
  match op with
  | OpStart record | OpTerminal record => attempt_fits record
  | OpCommit intent delta digest committed_by commit_epoch now =>
      intent_fits intent ∧ digest_fits digest ∧ u64_fits committed_by ∧ u64_fits commit_epoch ∧
      i64_fits now
  | _ => True
  end.

Lemma attempt_copy_fits phase n a :
  attempt_fits a → attempt_fits (with_phase_sequence phase (wrap 64 n) a).
Proof.
  intros H. unfold attempt_fits in *. open_fits. split; [|done]. cbn.
  repeat constructor; first [done|apply wrap_fits].
Qed.

Lemma last_elem {A} (l : list A) x : last l = Some x → x ∈ l.
Proof. intros (k & ->)%last_Some. apply elem_of_app. right. by left. Qed.

Lemma next_placement_fits intent delta digest by_incarnation epoch now impl r :
  well_indexed impl → typed impl → op_typed (OpCommit intent delta digest by_incarnation epoch now) →
  next_placement intent delta digest by_incarnation epoch now impl = Value r → placement_fits r.
Proof.
  intros Hw [Hp _ Hn] (Hi & Hd & Hb & He & Ht). unfold next_placement. rewrite (wi_latest _ Hw).
  destruct (last _) as [p|] eqn:Hl.
  - assert (placement_fits p) as [Hf _].
    { apply last_elem, list_elem_of_In, List.filter_In in Hl as [Hl _].
      rewrite Forall_forall in Hp. by apply Hp, list_elem_of_In. }
    apply Forall_cons in Hf as [_ Hf]. apply Forall_cons in Hf as [Hg _].
    destruct (N.eqb_spec (pl_generation p) (uint_max 64)) as [|Hne]; [done|]. intros [= <-].
    split; [|done]. unfold uint_fits, uint_max in *. cbn [pl_id pl_generation pl_committed_by
      pl_commit_epoch pl_sequence pl_supersedes_generation].
    repeat constructor; first [done|apply wrap_fits|lia].
  - intros [= <-]. split; [|done]. cbn. repeat constructor; first [done|apply wrap_fits].
Qed.

Lemma typed_books impl impl' : books impl' = books impl → typed impl → typed impl'.
Proof.
  intros (E1 & _ & E3 & _ & E5)%books_eq [H1 H2 H3]. constructor; by rewrite ?E1, ?E3, ?E5.
Qed.

Lemma typed_put a impl : attempt_fits a → typed impl → typed (put_attempt a impl).
Proof. intros Ha [H1 H2 H3]. constructor; [done| |done]. by apply map_Forall_insert_2. Qed.

Lemma typed_push r impl : placement_fits r → typed impl → typed (push_placement r impl).
Proof.
  intros Hr [H1 H2 H3]. constructor; [|done..]. apply Forall_app. split; [done|]. by constructor.
Qed.

Lemma typed_next_id n impl : typed impl → typed (im_with_next_id (wrap 64 n) impl).
Proof. intros [H1 H2 H3]. constructor; [done..|]. apply wrap_fits. Qed.

Lemma book_step_typed op impl impl' :
  op_typed op → book_step impl op impl' → well_indexed impl ∧ typed impl →
  well_indexed impl' ∧ typed impl'.
Proof.
  intros Ho Hs [Hw Ht]. split; [by eapply book_step_well_indexed|].
  destruct Hs as [? ? Hb|? ? ? _ _ Hb|? ? ? _ _ Hb|? ? ? ? ? ? r ? _ _ _ _ Hn Hb];
    apply (typed_books _ _ Hb); [done|by apply typed_put; [apply attempt_copy_fits|]..|].
  apply typed_next_id, typed_push; [|done]. by eapply next_placement_fits.
Qed.

(** ** Recovery *)

Lemma accepts_snapshot_payload options :
  consumes (ok_of (DecodeSnapshotPayload options))
    (λ _ '(next_id, max_sequence, retired, placements, attempts),
       u64_fits next_id ∧ u64_fits max_sequence ∧ u64_fits retired ∧
       Forall placement_fits placements ∧ Forall attempt_fits attempts).
Proof.
  assert (∀ n, consumes (ok_of (decode_each n DecodePlacementRecord))
            (λ _, Forall placement_fits)) as Hp.
  { intros n. eapply consumes_weaken; [apply accepts_each, accepts_placement|].
    intros bs l H. apply (Forall_impl _ _ _ (proj2 (proj2 H))). by intros x []. }
  assert (∀ n, consumes (ok_of (decode_each n DecodeAttemptRecord))
            (λ _, Forall attempt_fits)) as Ha.
  { intros n. eapply consumes_weaken; [apply accepts_each, accepts_attempt|].
    intros bs l H. exact (proj2 (proj2 H)). }
  assert (∀ max truncated oversize, consumes (ok_of (snapshot_count max truncated oversize))
            (λ _ _, True)) as Hc.
  { intros. unfold snapshot_count. repeat accept_field. done. }
  unfold DecodeSnapshotPayload.
  repeat first [accept_field | eapply accepts_bind; [by eauto|]; intros ? ? ?]. by split_and!.
Qed.

Lemma LoadSnapshot_typed options data recovery impl recovery' :
  Forall u8_fits data → LoadSnapshot options data recovery = Value (impl, recovery') →
  typed impl ∧ u64_fits (im_max_sequence impl).
Proof.
  intros Hu. unfold LoadSnapshot. destruct (read_snapshot options data) as [payload|] eqn:Er; [|done].
  assert (Forall u8_fits payload) as Hpay.
  { unfold read_snapshot in Er. repeat (case_match; try done). injection Er as <-.
    by apply Forall_take, Forall_drop. }
  destruct (DecodeSnapshotPayload options _) as [[[[[[next_id max] retired] placements] attempts] r]|]
    eqn:Ed; [|done].
  destruct (accepts_snapshot_payload options (mkReader payload 0)
    (next_id, max, retired, placements, attempts) r Hpay) as (bs & rest & _ & _ & Hn & Hm & _ & Hp & Ha).
  { unfold ok_of. by rewrite Ed. }
  intros [= <- <-]. split; [|done]. set (impl1 := foldl _ Impl_init placements).
  assert (typed impl1) as H1.
  { apply foldl_inv; [|by repeat constructor]. intros i p Hin Hi. apply typed_push; [|done].
    rewrite Forall_forall in Hp. by apply Hp. }
  assert (typed (foldl (λ impl a, put_attempt a impl) impl1 attempts)) as H2.
  { apply foldl_inv; [|done]. intros i a Hin Hi. apply typed_put; [|done].
    rewrite Forall_forall in Ha. by apply Ha. }
  destruct H2 as [H2 H3 H4]. by constructor.
Qed.

Lemma apply_record_typed snap offset parsed payload impl recovery impl' recovery' :
  Forall u8_fits payload → typed impl →
  apply_record snap offset parsed payload impl recovery = Value (impl', recovery') → typed impl'.
Proof.
  intros Hu Ht. unfold apply_record.
  destruct (hd_type parsed =? kRecordTypeJournalReset).
  { repeat (case_match; try done). intros [= <- <-]. destruct Ht. by constructor. }
  destruct (_ <=? _); [by intros [= <- _]|]. destruct (negb _); [done|].
  destruct (hd_type parsed =? kRecordTypePlacement).
  - destruct (DecodePlacementRecord _) as [[record reader]|] eqn:Ed; [|done].
    destruct (accepts_placement (mkReader payload 0) record reader Hu)
      as (bs & rest & _ & _ & _ & Hr & _); [unfold ok_of; by rewrite Ed|].
    destruct (negb _); [done|]. intros [= <- <-].
    destruct (typed_push record impl Hr Ht) as [H1 H2 H3].
    destruct (_ <=? _); constructor; try done. apply wrap_fits.
  - destruct (DecodeAttemptRecord _) as [[record reader]|] eqn:Ed; [|done].
    destruct (accepts_attempt (mkReader payload 0) record reader Hu)
      as (bs & rest & _ & _ & _ & Hr); [unfold ok_of; by rewrite Ed|].
    destruct (negb _); [done|].
    match goal with |- (if ?b then Error _ else _) = _ → _ => destruct b end; [done|].
    intros [= <- <-].
    destruct (typed_put record impl Hr Ht). by constructor.
Qed.

Lemma typed_settled impl :
  typed impl →
  typed (im_with_attempts (settle_all (im_commit_by_attempt impl) (im_attempts impl)) impl).
Proof.
  intros [H1 H2 H3]. constructor; [done| |done]. unfold im_with_attempts. fields.
  intros id a. rewrite settle_all_lookup. destruct (im_attempts impl !! id) as [b|] eqn:E; [|done].
  intros [= <-]. specialize (H2 id b E). unfold settle. by destruct (_ && _).
Qed.

Definition disk_bytes (disk : Disk) : Prop :=
  Forall u8_fits (default [] (dk_journal disk)) ∧ Forall u8_fits (default [] (dk_snapshot disk)).

Lemma load_base_typed options disk base report :
  disk_bytes disk → load_base options (dk_snapshot disk) = Value (base, report) →
  typed base ∧ u64_fits (im_max_sequence base).
Proof.
  intros [_ Hs]. unfold load_base. destruct (dk_snapshot disk) as [data|].
  - destruct (LoadSnapshot _ _ _) as [[impl r]|] eqn:E; [|done]. intros [= <- _].
    by eapply LoadSnapshot_typed.
  - intros [= <- _]. split; [by repeat constructor|done].
Qed.
