(* ===== verification/Durability.v ===== *)
(** * Durability

    While an open store runs without faults, replaying its journal gives the
    ledger of its memory; so opening the disk again, after a clean end or after a
    crash in the middle of an append, gives that ledger back. *)

From Stdlib Require Import String.
From S2P Require Import Prelude StdAlgo Checked Status Bytes Hash Model Explain Records Codec.
From S2P Require Import CodecFacts CodecExact Wire WireFacts Store JournalFacts Ledger.
From S2P Require Import StoreOps StoreFacts RecoveryFacts StoreTyped.

(** ** The records the store appends *)

Ltac all_bytes := rewrite ?Forall_app; repeat match goal with
  | |- _ ∧ _ => split
  | |- Forall u8_fits (le_bytes _ _) => apply le_bytes_u8
  | |- Forall u8_fits [wrap 8 _] => constructor; [apply wrap_fits|constructor]
  | |- Forall u8_fits [N.land _ 255; N.land _ 255] =>
      constructor; [apply land_255_lt|constructor; [apply land_255_lt|constructor]]
  | |- Forall u8_fits [] => constructor
  end.

Lemma attempt_payload a :
  Forall u8_fits (EncodeAttemptRecord a []) ∧ size (EncodeAttemptRecord a []) = 67.
Proof.
  unfold EncodeAttemptRecord, WriteDigest, wI64, wU64, wU16, wU8. split; [all_bytes|].
  unfold size. rewrite !length_app, !le_bytes_length. done.
Qed.

Lemma placement_payload r :
  Forall u8_fits (EncodePlacementRecord r []) ∧ size (EncodePlacementRecord r []) = 241.
Proof.
  unfold EncodePlacementRecord, WriteIntent, WriteReservation, WriteDigest, wI64, wU64, wU32, wU16, wU8.
  split; [all_bytes|]. unfold size. rewrite !length_app, !le_bytes_length. done.
Qed.

(** Options under which every record the store appends is readable. *)
Record workable (options : StoreOptions) : Prop := {
  wk_limit : u32_fits (max_record_bytes options);
  wk_room : 241 ≤ max_record_bytes options;
  wk_total : u64_fits (max_total_records options);
  wk_writable : read_only options = false;
}.

Lemma placement_entry_ok options sequence r :
  workable options → u64_fits sequence →
  record_ok (max_record_bytes options) (placement_entry sequence r).
Proof.
  intros [_ Hr _ _] Hs. destruct (placement_payload r) as [Hu Hz].
  constructor; cbn [placement_entry lr_type lr_sequence lr_payload]; [by left|done|by rewrite Hz|done].
Qed.

Lemma attempt_entry_ok options sequence a :
  workable options → u64_fits sequence →
  record_ok (max_record_bytes options) (attempt_entry sequence a).
Proof.
  intros [_ Hr _ _] Hs. destruct (attempt_payload a) as [Hu Hz].
  constructor; cbn [attempt_entry lr_type lr_sequence lr_payload]; [by right; left|done|rewrite Hz; lia|done].
Qed.

(** ** Disks that restore a state *)

Definition restores (options : StoreOptions) (disk : Disk) (impl : Impl) : Prop :=
  ∃ base base_report log replayed report,
    load_base options (dk_snapshot disk) = Value (base, base_report) ∧
    dk_journal disk = Some (journal_bytes log) ∧
    Forall (record_ok (max_record_bytes options)) log ∧
    replay (im_max_sequence base) 0 log base base_report = Value (replayed, report) ∧
    indexed replayed ∧ ledger_of replayed = ledger_of impl.

Lemma restores_extend options disk impl impl' r :
  restores options disk impl → record_ok (max_record_bytes options) r →
  (∀ snap offset j report, indexed j → ledger_of j = ledger_of impl →
     ∃ j', apply_record snap offset (header_of r) (lr_payload r) j report =
             Value (j', rep_record_valid report) ∧ ledger_of j' = ledger_of impl') →
  restores options (append_journal (record_bytes r) disk) impl'.
Proof.
  intros (base & brep & log & j & rep & Hb & Hj & Hlog & Hr & Hi & Hl) Hok Happly.
  destruct (Happly (im_max_sequence base) (0 + size (journal_bytes log)) j rep Hi Hl)
    as (j' & Ha & Hl').
  exists base, brep, (log ++ [r]), j', (rep_record_valid rep). split; [done|]. split.
  { cbn. rewrite Hj, journal_bytes_app, journal_bytes_cons.
    change (journal_bytes []) with (@nil N). by rewrite app_nil_r. }
  split; [by apply Forall_app_2; [|constructor]|]. split.
  { rewrite replay_app, Hr. cbn [replay]. by rewrite Ha. }
  split; [by eapply apply_record_indexed|done].
Qed.

Lemma ledger_eq_parts j impl : ledger_of j = ledger_of impl →
  im_next_placement_id j = im_next_placement_id impl ∧ im_max_sequence j = im_max_sequence impl.
Proof. unfold ledger_of. intros H. by injection H. Qed.

Lemma restores_placement options disk impl r :
  workable options → indexed impl → placement_fits r → restores options disk impl →
  pl_id r = im_next_placement_id impl → u64_fits (im_max_sequence impl + 1) →
  restores options (append_journal (record_bytes (placement_entry (im_max_sequence impl + 1) r)) disk)
    (im_with_next_id (wrap 64 (pl_id r + 1))
       (push_placement r (im_with_sequence (im_max_sequence impl + 1) impl))).
Proof.
  intros Hk Hi Hr Hd Hid Hs.
  apply (restores_extend _ _ impl); [done|by apply placement_entry_ok|].
  intros snap offset j report Hj Hl. destruct (ledger_eq_parts j impl Hl) as [En Es].
  eexists. split; [apply apply_placement; [done|by rewrite Es]|].
  destruct (N.leb_spec (im_next_placement_id j) (pl_id r)) as [_|Hlt]; [|lia].
  rewrite ledger_of_sequence, !ledger_of_next_id, !ledger_of_push, ledger_push_unvalidated, Hl;
    [done|by destruct Hi|done].
Qed.

Lemma restores_attempt options disk impl a :
  workable options → indexed impl → attempt_fits a → restores options disk impl →
  attempt_finished (at_attempt a) impl = false →
  (at_phase a = AttemptPhase.kStarted → im_commit_by_attempt impl !! at_attempt a = None) →
  u64_fits (im_max_sequence impl + 1) →
  restores options (append_journal (record_bytes (attempt_entry (im_max_sequence impl + 1) a)) disk)
    (put_attempt a (im_with_sequence (im_max_sequence impl + 1) impl)).
Proof.
  intros Hk Hi Ha Hd Hf Hc Hs.
  apply (restores_extend _ _ impl); [done|by apply attempt_entry_ok|].
  intros snap offset j report Hj Hl. destruct (ledger_eq_parts j impl Hl) as [_ Es].
  eexists. split.
  - apply apply_attempt; [done|by rewrite Es|]. intros Hp existing He. specialize (Hc Hp).
    assert (im_commit_by_attempt j !! at_attempt a = None) as Hcj.
    { apply eq_None_not_Some. rewrite <-commits_is_Some, Hl, commits_is_Some, Hc by done.
      apply is_Some_None. }
    assert (lg_attempts (ledger_of j) !! at_attempt a = lg_attempts (ledger_of impl) !! at_attempt a)
      as E by by rewrite Hl.
    unfold ledger_of in E. revert E. fields. rewrite !settle_all_lookup, Hcj, Hc, He.
    unfold attempt_finished in Hf. destruct (im_attempts impl !! at_attempt a) as [b|]; [|done].
    cbn. intros [= <-]. apply negb_false_iff, bool_decide_eq_true in Hf. done.
  - rewrite ledger_of_sequence, !ledger_of_put, Hl; [done|by destruct Hi|done].
Qed.

(** ** A session without faults *)

(** The store after a record was appended. *)
Definition appended (type : N) (payload : list N) (s : PlacementStore) : PlacementStore :=
  let sequence := im_max_sequence (st_impl s) + 1 in
  count_append (size (encode_record type sequence payload))
    (on_impl (im_with_sequence sequence)
       (if fsync_on_append (st_options s) then count_sync s else s)).

Record appendable (s : PlacementStore) : Prop := {
  ap_workable : workable (st_options s);
  ap_open : st_file_open s = true;
  ap_running : im_closed (st_impl s) = false;
  ap_idle : im_compaction_in_progress (st_impl s) = false;
}.

Lemma AppendRecordRaw_run s disk type payload :
  workable (st_options s) → st_file_open s = true → im_closed (st_impl s) = false →
  size payload ≤ 241 → im_max_sequence (st_impl s) < max_total_records (st_options s) →
  AppendRecordRaw type payload (mkWorld s disk []) =
  (Value tt, mkWorld (appended type payload s)
     (append_journal (encode_record type (im_max_sequence (st_impl s) + 1) payload) disk) []).
Proof.
  intros [_ Hroom Htotal _] Ho Hr Hs Hm. unfold AppendRecordRaw, get_store.
  unfold mbind, Io_bind. cbn [w_store]. rewrite Hr, Ho. cbn [negb refuse_if].
  destruct (N.ltb_spec (max_record_bytes (st_options s)) (size payload)); [lia|].
  destruct (N.leb_spec (max_total_records (st_options s)) (im_max_sequence (st_impl s))); [lia|].
  cbn [refuse_if mret Io_ret].
  assert (wrap 64 (im_max_sequence (st_impl s) + 1) = im_max_sequence (st_impl s) + 1) as ->.
  { apply N.mod_small. unfold uint_fits in Htotal. lia. }
  unfold fwrite_journal, next_outcome, mbind, Io_bind. cbn [w_io taken on_disk].
  rewrite N.eqb_refl. unfold appended.
  destruct (fsync_on_append (st_options s)); done.
Qed.

Lemma AppendRecordRaw_ok s disk type payload :
  appendable s → size payload ≤ 241 → im_max_sequence (st_impl s) < max_total_records (st_options s) →
  AppendRecordRaw type payload (mkWorld s disk []) =
  (Value tt, mkWorld (appended type payload s)
     (append_journal (encode_record type (im_max_sequence (st_impl s) + 1) payload) disk) []).
Proof. intros [Hk Ho Hr _]. by apply AppendRecordRaw_run. Qed.

Lemma AppendRecordRaw_full s disk type payload :
  appendable s → size payload ≤ 241 →
  max_total_records (st_options s) ≤ im_max_sequence (st_impl s) →
  ∃ status, AppendRecordRaw type payload (mkWorld s disk []) = (Error status, mkWorld s disk []).
Proof.
  intros [[_ Hroom Htotal _] Ho Hr _] Hs Hm. unfold AppendRecordRaw, get_store.
  unfold mbind, Io_bind. cbn [w_store]. rewrite Hr, Ho. cbn [negb refuse_if].
  destruct (N.ltb_spec (max_record_bytes (st_options s)) (size payload)); [lia|].
  destruct (N.leb_spec (max_total_records (st_options s)) (im_max_sequence (st_impl s))); [|lia].
  by eexists.
Qed.

(** The journal is too short to be compacted within [n] more records. *)
Definition room (n : N) (s : PlacementStore) : Prop :=
  max_journal_records (st_options s) = 0 ∨
  ss_journal_records (st_stats s) + n < max_journal_records (st_options s) ∧
  u64_fits (max_journal_records (st_options s)).

Lemma room_le n m s : m ≤ n → room n s → room m s.
Proof. intros Hm [H|[H H']]; [by left|right]. split; [lia|done]. Qed.

Lemma room_appended n type payload s : room (1 + n) s → room n (appended type payload s).
Proof.
  intros [H|[H H']]; [left; unfold appended; by destruct (fsync_on_append _)|right].
  assert (ss_journal_records (st_stats (appended type payload s)) =
          ss_journal_records (st_stats s) + 1 ∧
          st_options (appended type payload s) = st_options s) as [-> ->].
  { unfold appended. destruct (fsync_on_append _); cbn; split; try done;
      apply N.mod_small; unfold uint_fits in H'; lia. }
  split; [lia|done].
Qed.

Lemma MaybeCompact_idle s disk : room 0 s → MaybeCompact (mkWorld s disk []) = (Value tt, mkWorld s disk []).
Proof.
  intros H. unfold MaybeCompact, get_store, mbind, Io_bind. cbn [w_store].
  destruct (_ || _); [done|]. destruct (im_compaction_in_progress _); [done|].
  destruct (N.eqb_spec (max_journal_records (st_options s)) 0) as [|Hne]; [done|].
  destruct H as [H|[H _]]; [done|].
  destruct (N.ltb_spec (ss_journal_records (st_stats s)) (max_journal_records (st_options s)));
    [done|lia].
Qed.

Record session (s : PlacementStore) (disk : Disk) : Prop := {
  se_appendable : appendable s;
  se_indexed : well_indexed (st_impl s);
  se_typed : typed (st_impl s);
  se_restores : restores (st_options s) disk (st_impl s);
}.

(** How a session goes on: what one more record leaves room for. *)
Definition continues (s s' : PlacementStore) : Prop :=
  st_options s' = st_options s ∧ ∀ n, room (1 + n) s → room n s'.

Lemma continues_same s : continues s s.
Proof. split; [done|]. intros n. apply room_le. lia. Qed.

Lemma continues_appended type payload s s' :
  st_options s' = st_options s → st_stats s' = st_stats (appended type payload s) → continues s s'.
Proof.
  intros Ho Hs. split; [done|]. intros n Hn. apply (room_appended n type payload) in Hn.
  unfold room in *. rewrite Ho, Hs.
  assert (st_options (appended type payload s) = st_options s) as <-; [|done].
  unfold appended. by destruct (fsync_on_append _).
Qed.

Lemma appended_impl type payload s :
  st_impl (appended type payload s) = im_with_sequence (im_max_sequence (st_impl s) + 1) (st_impl s) ∧
  st_options (appended type payload s) = st_options s ∧
  st_file_open (appended type payload s) = st_file_open s.
Proof. unfold appended. by destruct (fsync_on_append _). Qed.

Lemma appendable_books s f type payload :
  appendable s → (∀ impl, im_closed (f impl) = im_closed impl ∧
    im_compaction_in_progress (f impl) = im_compaction_in_progress impl) →
  appendable (on_impl f (appended type payload s)).
Proof.
  intros [H1 H2 H3 H4] Hf. destruct (appended_impl type payload s) as (Ei & Eo & Ef).
  constructor; cbn [on_impl st_with_impl st_options st_file_open st_impl].
  - by rewrite Eo.
  - by rewrite Ef.
  - by rewrite (proj1 (Hf _)), Ei.
  - by rewrite (proj2 (Hf _)), Ei.
Qed.

Lemma session_append_attempt s disk copy :
  session s disk → room 1 s → attempt_fits copy →
  attempt_finished (at_attempt copy) (st_impl s) = false →
  (at_phase copy = AttemptPhase.kStarted →
   im_commit_by_attempt (st_impl s) !! at_attempt copy = None) →
  ∃ r s' disk', append_attempt copy (mkWorld s disk []) = (r, mkWorld s' disk' []) ∧
    appendable s' ∧ restores (st_options s') disk' (st_impl s') ∧ continues s s' ∧
    dk_snapshot disk' = dk_snapshot disk.
Proof.
  intros [Ha Hw Ht Hr] Hroom Hfit Hfin Hcom. destruct (attempt_payload copy) as [_ Hsize].
  unfold append_attempt, mbind, Io_bind.
  destruct (N.lt_ge_cases (im_max_sequence (st_impl s)) (max_total_records (st_options s))) as [Hlt|Hge].
  2: { destruct (AppendRecordRaw_full s disk kRecordTypeAttempt (EncodeAttemptRecord copy []) Ha
         ltac:(lia) Hge) as [status ->].
       eexists _, s, disk. split; [done|]. repeat split; try apply Ha; [done|]. intros n. apply room_le. lia. }
  rewrite AppendRecordRaw_ok by (done || lia). cbn [on_store w_store w_disk w_io].
  set (s1 := on_impl (put_attempt copy) _).
  assert (continues s s1) as Hc.
  { apply (continues_appended kRecordTypeAttempt (EncodeAttemptRecord copy [])); [|done].
    apply appended_impl. }
  rewrite MaybeCompact_idle by by apply (proj2 Hc 0).
  eexists _, s1, _. split; [done|].
  split; [by apply appendable_books|]. split; [|split; [done|by destruct disk]].
  rewrite (proj1 Hc). destruct (appended_impl kRecordTypeAttempt (EncodeAttemptRecord copy []) s)
    as (Ei & _ & _).
  unfold s1. cbn [on_impl st_with_impl st_impl]. rewrite Ei.
  apply (restores_attempt _ disk (st_impl s) copy); try done; [apply Ha|apply Hw|].
  destruct Ha as [[_ _ Htotal _] _ _ _]. unfold uint_fits in *. lia.
Qed.

Definition quiet (op : StoreOp) : Prop :=
  match op with OpCompact | OpClose => False | _ => True end.

Lemma session_commit s disk intent delta digest by_incarnation epoch now :
  session s disk → room 1 s → op_typed (OpCommit intent delta digest by_incarnation epoch now) →
  ∃ r s' disk', CommitPlacement intent delta digest by_incarnation epoch now (mkWorld s disk []) =
      (r, mkWorld s' disk' []) ∧
    appendable s' ∧ restores (st_options s') disk' (st_impl s') ∧ continues s s' ∧
    dk_snapshot disk' = dk_snapshot disk.
Proof.
  intros [Ha Hw Ht Hr] Hroom Htyped.
  assert (∀ r : Result PlacementRecord, ∃ r' s' disk',
    (r, mkWorld s disk []) = (r', mkWorld s' disk' []) ∧ appendable s' ∧
    restores (st_options s') disk' (st_impl s') ∧ continues s s' ∧
    dk_snapshot disk' = dk_snapshot disk) as Hsame.
  { intros r. exists r, s, disk. by repeat split; try apply Ha; [|intros n; apply room_le; lia]. }
  unfold CommitPlacement, mbind, Io_bind, get_store. cbn [w_store].
  rewrite (ap_running s Ha). cbn [refuse_if mret Io_ret].
  destruct (negb (valid _) || _ || _); [apply Hsame|]. cbn [refuse_if mret Io_ret].
  destruct (negb (Digest_eqb _ _)); [apply Hsame|]. cbn [refuse_if mret Io_ret].
  destruct (committed_before intent (st_impl s)) as [[record|status]|]; [apply Hsame..|].
  destruct (N.leb_spec (max_total_records (st_options s)) (im_max_sequence (st_impl s))) as [|Hlt];
    [apply Hsame|]. cbn [refuse_if mret Io_ret].
  destruct (next_placement _ _ _ _ _ _ _) as [record|status] eqn:Hn; [|apply Hsame].
  pose proof (next_placement_fits _ _ _ _ _ _ _ _ Hw Ht Htyped Hn) as Hfit.
  destruct (negb (decodes_back record)); [apply Hsame|]. cbn [refuse_if mret Io_ret].
  destruct (placement_payload record) as [_ Hsize].
  rewrite AppendRecordRaw_ok by (done || lia). cbn [on_store w_store w_disk w_io].
  set (s1 := on_impl _ (appended _ _ s)).
  assert (continues s s1) as Hc.
  { apply (continues_appended kRecordTypePlacement (EncodePlacementRecord record [])); [|done].
    apply appended_impl. }
  rewrite MaybeCompact_idle by by apply (proj2 Hc 0).
  eexists _, s1, _. split; [done|].
  split; [by apply appendable_books|]. split; [|split; [done|by destruct disk]].
  rewrite (proj1 Hc).
  destruct (appended_impl kRecordTypePlacement (EncodePlacementRecord record []) s) as (Ei & _ & _).
  unfold s1. cbn [on_impl st_with_impl st_impl]. rewrite Ei.
  apply next_placement_spec in Hn as (_ & Hid & _).
  apply (restores_placement _ disk (st_impl s) record); try done; [apply Ha|apply Hw|].
  destruct Ha as [[_ _ Htotal _] _ _ _]. unfold uint_fits in *. lia.
Qed.

Lemma session_step op s disk :
  session s disk → op_typed op → quiet op → room 1 s →
  ∃ s' disk', (run_op op (mkWorld s disk [])).2 = mkWorld s' disk' [] ∧ session s' disk' ∧
    continues s s' ∧ dk_snapshot disk' = dk_snapshot disk.
Proof.
  intros Hs Ho Hq Hroom. pose proof Hs as [Ha Hw Ht Hr].
  pose proof (run_op_step op (mkWorld s disk [])) as Hstep. cbn [w_store] in Hstep.
  assert (∀ s' disk', (run_op op (mkWorld s disk [])).2 = mkWorld s' disk' [] → appendable s' →
    restores (st_options s') disk' (st_impl s') → session s' disk') as Hsession.
  { intros s' disk' E Ha' Hr'. rewrite E in Hstep. cbn [w_store] in Hstep.
    destruct (book_step_typed op _ _ Ho Hstep (conj Hw Ht)). by constructor. }
  assert (∀ r : Result unit, run_op op (mkWorld s disk []) = (r, mkWorld s disk []) → ∃ s' disk',
    (run_op op (mkWorld s disk [])).2 = mkWorld s' disk' [] ∧ session s' disk' ∧ continues s s' ∧
    dk_snapshot disk' = dk_snapshot disk) as Hsame.
  { intros r E. exists s, disk. rewrite E. split; [done|]. by split; [|split; [apply continues_same|]]. }
  destruct op as [record|record|intent delta digest by_incarnation epoch now| | |]; try done;
    cbn [run_op] in *.
  - unfold AppendAttemptStart, mbind, Io_bind, get_store in *. cbn [w_store] in *.
    destruct (attempt_finished _ _) eqn:Hf; [by eapply Hsame|]. cbn [refuse_if mret Io_ret] in *.
    case_bool_decide as Hc; [by eapply Hsame|]. cbn [refuse_if mret Io_ret] in *.
    destruct (session_append_attempt s disk (with_phase_sequence AttemptPhase.kStarted
      (wrap 64 (im_max_sequence (st_impl s) + 1)) record)) as (r & s' & disk' & E & ? & ? & ? & ?);
      [done..|by apply attempt_copy_fits|done|intros _; by apply eq_None_not_Some|].
    exists s', disk'. rewrite E in *. by eauto.
  - unfold AppendAttemptTerminal, mbind, Io_bind, get_store in *. cbn [w_store] in *.
    case_bool_decide as Hp; [by eapply Hsame|]. cbn [refuse_if mret Io_ret w_store] in *.
    destruct (attempt_finished _ _) eqn:Hf; [by eapply Hsame|]. cbn [refuse_if mret Io_ret w_store] in *.
    destruct (session_append_attempt s disk (with_phase_sequence (at_phase record)
      (wrap 64 (im_max_sequence (st_impl s) + 1)) record)) as (r & s' & disk' & E & ? & ? & ? & ?);
      [done..|by apply attempt_copy_fits|done|done|].
    exists s', disk'. rewrite E in *. by eauto.
  - destruct (session_commit s disk intent delta digest by_incarnation epoch now Hs Hroom Ho)
      as (r & s' & disk' & E & ? & ? & ? & ?).
    exists s', disk'. unfold mbind, Io_bind in *. rewrite E in *. destruct r; by eauto.
  - assert (Sync (mkWorld s disk []) = (Value tt, mkWorld (count_sync s) disk [])) as E.
    { unfold Sync, mbind, Io_bind, get_store. cbn [w_store].
      by rewrite (ap_running s Ha), (ap_open s Ha). }
    exists (count_sync s), disk. rewrite E in *. split; [done|].
    split; [by apply Hsession; [|destruct Ha|]|]. split; [|done].
    split; [done|]. intros n Hn. apply (room_le (1 + n) n s) in Hn; [exact Hn|lia].
Qed.

Lemma session_run ops : ∀ s disk,
  session s disk → Forall op_typed ops → Forall quiet ops → room (size ops) s →
  ∃ s' disk', run_ops ops (mkWorld s disk []) = mkWorld s' disk' [] ∧ session s' disk' ∧
    st_options s' = st_options s ∧ dk_snapshot disk' = dk_snapshot disk.
Proof.
  induction ops as [|op ops IH]; intros s disk Hs Ht Hq Hr; [by exists s, disk|].
  apply Forall_cons in Ht as [Ht Hts]. apply Forall_cons in Hq as [Hq Hqs].
  rewrite size_cons in Hr.
  destruct (session_step op s disk Hs Ht Hq) as (s1 & disk1 & E & Hs1 & [Ho1 Hr1] & Hd1).
  { apply (room_le (1 + size ops)); [lia|done]. }
  destruct (IH s1 disk1 Hs1 Hts Hqs (Hr1 _ Hr)) as (s' & disk' & E' & Hs' & Ho' & Hd').
  exists s', disk'. split; [|split; [done|]].
  - unfold run_ops in *. cbn [foldl]. by rewrite E.
  - split; congruence.
Qed.

(** ** Opening starts a session *)

Lemma is_record_read limit data offset :
  is_record_at limit data offset = false → read_record limit data offset = None.
Proof.
  unfold is_record_at. intros H. destruct (read_record limit data offset) as [[[h p] n]|] eqn:E; [|done].
  rewrite andb_true_r in H. apply N.leb_gt in H. unfold read_record in E.
  set (rest := drop (N.to_nat offset) data) in *.
  assert (size rest = size data - offset) as Hs by (unfold rest, size; rewrite length_drop; lia).
  destruct (N.ltb_spec (size rest) kHeaderBytes) as [|H1]; [done|].
  destruct (ParseHeader _ _) as [parsed|]; [|done]. cbn [mbind option_bind] in E.
  set (rest2 := drop (N.to_nat kHeaderBytes) rest) in *.
  assert (size rest2 = size rest - kHeaderBytes) as Hs2 by (unfold rest2, size; rewrite length_drop; lia).
  destruct (N.ltb_spec (size rest2) (hd_payload_length parsed)) as [|H2]; [done|].
  set (rest3 := drop (N.to_nat (hd_payload_length parsed)) rest2) in *.
  assert (size rest3 = size rest2 - hd_payload_length parsed) as Hs3
    by (unfold rest3, size; rewrite length_drop; lia).
  destruct (N.ltb_spec (size rest3) kTrailerBytes) as [|H3]; [done|].
  unfold kHeaderBytes, kTrailerBytes in *. lia.
Qed.

Lemma replay_typed limit snap log offset impl recovery impl' recovery' :
  Forall (record_ok limit) log → typed impl →
  replay snap offset log impl recovery = Value (impl', recovery') → typed impl'.
Proof.
  intros Hlog Ht. apply (replay_inv limit (λ impl _, typed impl) snap log); [|done..].
  intros r off i rep i' rep' Hr. apply apply_record_typed, Hr.
Qed.

Lemma replay_well_indexed limit snap log offset impl recovery impl' recovery' :
  Forall (record_ok limit) log → well_indexed impl →
  replay snap offset log impl recovery = Value (impl', recovery') → well_indexed impl'.
Proof.
  intros Hlog Hw. apply (replay_inv limit (λ impl _, well_indexed impl) snap log); [|done..].
  intros r off i rep i' rep' _. apply apply_record_well_indexed.
Qed.

(** What the load of a writable journal leaves. *)
Lemma LoadJournal_restores options disk base report loaded :
  workable options → disk_bytes disk → load_base options (dk_snapshot disk) = Value (base, report) →
  LoadJournal options (dk_journal disk) base report = Value loaded →
  ∃ log replayed_report, Forall (record_ok (max_record_bytes options)) log ∧
    default [] (take (N.to_nat (ld_journal_length loaded)) <$> dk_journal disk) = journal_bytes log ∧
    replay (im_max_sequence base) 0 log base report = Value (ld_impl loaded, replayed_report) ∧
    ld_records_read loaded = size log.
Proof.
  intros [Hl _ _ Hro] [Hu _] Hb. unfold LoadJournal. destruct (dk_journal disk) as [data|].
  2: { intros [= <-]. by exists [], report. }
  destruct (parse_log options data Hl Hu (length data) 0) as (log & tail & Hd & Hlog & Hend);
    [lia|lia|].
  rewrite N.add_0_l in Hend. cbn [N.to_nat] in Hd. rewrite drop_0 in Hd. intros E.
  change (load_records (S (length data)) options (im_max_sequence base) data 0 base report 0)
    with (LoadJournal options (Some data) base report) in E.
  rewrite (LoadJournal_log options data log tail base report Hl Hd Hlog Hend) in E.
  destruct (replay _ _ _ _ _) as [[j jrep]|] eqn:Er; [|done].
  exists log, jrep. split; [done|]. cbn [fmap option_fmap option_map default].
  unfold load_end in E. destruct (N.ltb_spec (size (journal_bytes log)) (size data)) as [Hlt|Hge].
  - unfold HandleDamage in E. rewrite Hro in E. destruct (scan_chunks _ _ _ _); [done|].
    destruct (negb (repair_torn_tail options)); [done|]. cbn in E. injection E as <-.
    cbn [ld_journal_length ld_impl ld_records_read]. split; [|done].
    cbn. by rewrite Hd, take_size.
  - injection E as <-. cbn [ld_journal_length ld_impl ld_records_read]. split; [|done].
    assert (tail = []) as ->. { apply size_zero. rewrite Hd, size_app in Hge. lia. }
    rewrite app_nil_r in Hd. rewrite <-Hd. cbn. unfold size. by rewrite Nat2N.id, take_ge by lia.
Qed.

Lemma Open_session path options disk s disk' :
  workable options → disk_bytes disk → Open path options disk = (Value s, disk') →
  session s disk' ∧ st_options s = options ∧ dk_snapshot disk' = dk_snapshot disk.
Proof.
  intros Hk Hu Ho. pose proof (Open_well_indexed _ _ _ _ _ Ho) as Hw.
  pose proof (Open_running _ _ _ _ _ Ho) as [Hrun Hidle]. revert Ho. unfold Open.
  destruct (load_base options (dk_snapshot disk)) as [[base report]|] eqn:Eb; [|done].
  destruct (LoadJournal _ _ _ _) as [loaded|] eqn:El; [|done].
  destruct (LoadJournal_restores options disk base report loaded Hk Hu Eb El)
    as (log & jrep & Hlog & Hj & Hr & _).
  destruct (load_base_typed options disk base report Hu Eb) as [Htb _].
  pose proof (replay_typed _ _ _ _ _ _ _ _ Hlog Htb Hr) as Htl.
  pose proof (replay_well_indexed _ _ _ _ _ _ _ _ Hlog (load_base_well_indexed _ _ _ _ Eb) Hr) as Hwl.
  unfold open_loaded. rewrite (wk_writable _ Hk), Hj. cbn [negb].
  destruct (recovery_accounting _ _) as [[impl rep] o] eqn:Er.
  apply recovery_accounting_spec in Er as (-> & _). destruct o; [done|]. intros [= <- <-].
  split; [|done]. cbn [st_impl] in Hw, Hrun, Hidle. constructor; cbn [st_impl st_options].
  - by constructor.
  - done.
  - by apply typed_settled.
  - exists base, report, log, (ld_impl loaded), jrep. rewrite ledger_of_settled. by destruct Hwl.
Qed.

(** ** Opening again *)

Lemma replay_report limit snap log offset impl recovery impl' recovery' :
  Forall (record_ok limit) log → replay snap offset log impl recovery = Value (impl', recovery') →
  rep_truncated_tail recovery' = rep_truncated_tail recovery ∧
  rep_bytes_discarded recovery' = rep_bytes_discarded recovery ∧
  rep_snapshot_loaded recovery' = rep_snapshot_loaded recovery.
Proof.
  intros Hlog. apply (replay_inv limit (λ _ rep, rep_truncated_tail rep = rep_truncated_tail recovery ∧
    rep_bytes_discarded rep = rep_bytes_discarded recovery ∧
    rep_snapshot_loaded rep = rep_snapshot_loaded recovery) snap log); [|done..].
  intros r off i rep i' rep' _ Hi. unfold apply_record.
  repeat (case_match; try done); by intros [= <- <-].
Qed.

Lemma load_base_report options snapshot base report :
  load_base options snapshot = Value (base, report) →
  rep_truncated_tail report = false ∧ rep_bytes_discarded report = 0 ∧
  rep_snapshot_loaded report = bool_decide (is_Some snapshot).
Proof.
  unfold load_base, LoadSnapshot. destruct snapshot as [data|]; [|by intros [= _ <-]].
  destruct (read_snapshot _ _) as [payload|]; [|done].
  destruct (DecodeSnapshotPayload _ _) as [[[[[[? ?] ?] placements] attempts] ?]|]; [|done].
  by intros [= _ <-].
Qed.

(** A journal that restores a state, followed by bytes that hold no record. *)
Lemma reopen_torn path options disk impl torn journal :
  workable options → repair_torn_tail options = true → restores options disk impl →
  dk_journal disk = Some journal → ¬ ledger_orphaned (ledger_of impl) →
  ¬ record_after (max_record_bytes options) (journal ++ torn) (size journal) →
  ∃ s, Open path options (mkDisk (Some (journal ++ torn)) (dk_snapshot disk)) = (Value s, disk) ∧
    ledger_of (st_impl s) = ledger_of impl ∧
    rep_truncated_tail (st_recovery s) = negb (size torn =? 0) ∧
    rep_bytes_discarded (st_recovery s) = size torn ∧
    rep_liveness_restored (st_recovery s) = false.
Proof.
  intros Hk Hrep (base & brep & log & j & jrep & Hb & Hj & Hlog & Hr & Hi & Hl) Hjournal Horphan Hnone.
  rewrite Hjournal in Hj. injection Hj as ->.
  destruct (load_base_report _ _ _ _ Hb) as (Eb1 & Eb2 & _).
  destruct (replay_report _ _ _ _ _ _ _ _ Hlog Hr) as (Er1 & Er2 & _).
  rewrite <-Hl, <-orphaned_ledger in Horphan by done.
  unfold Open. cbn [dk_snapshot dk_journal]. rewrite Hb.
  rewrite (LoadJournal_log options (journal_bytes log ++ torn) log torn base brep (wk_limit _ Hk)
    eq_refl Hlog), Hr.
  2: { apply is_record_read, not_true_iff_false. intros H. apply Hnone. by exists (size (journal_bytes log)). }
  assert (load_end options (journal_bytes log ++ torn) (size (journal_bytes log)) j jrep (size log) =
    if size torn =? 0 then Value (mkLoaded j jrep (size log) (size (journal_bytes log)))
    else Value (mkLoaded j
      (rep_say ("torn journal tail of " ++ to_string (size torn) ++ " bytes was discarded at offset " ++
        to_string (size (journal_bytes log)) ++ "; ") (rep_torn (size torn) jrep))
      (size log) (size (journal_bytes log)))) as ->.
  { unfold load_end, HandleDamage. rewrite size_app.
    destruct (N.eqb_spec (size torn) 0) as [->|Hne].
    { by rewrite N.add_0_r, N.ltb_irrefl. }
    destruct (N.ltb_spec (size (journal_bytes log)) (size (journal_bytes log) + size torn)); [|lia].
    rewrite (wrap_limit options (wk_limit _ Hk)), Hrep, (wk_writable _ Hk).
    replace (size (journal_bytes log) + size torn - size (journal_bytes log)) with (size torn) by lia.
    destruct (scan_chunks _ _ _ _) eqn:Es; [|done]. exfalso. apply Hnone.
    apply scan_chunks_spec in Es as (c & Hc & Hat); [exists c; split; [lia|done]|].
    unfold size. lia. }
  set (loaded := if size torn =? 0 then _ else _).
  assert (∃ lrep, loaded = Value (mkLoaded j lrep (size log) (size (journal_bytes log))) ∧
    rep_truncated_tail lrep = negb (size torn =? 0) ∧ rep_bytes_discarded lrep = size torn)
    as (lrep & -> & T1 & T2).
  { unfold loaded. destruct (N.eqb_spec (size torn) 0) as [E|E]; eexists; (split; [done|]).
    - by rewrite Er1, Er2, Eb1, Eb2, E.
    - cbn. by rewrite Er2, Eb2. }
  unfold open_loaded. cbn [ld_impl ld_recovery ld_journal_length ld_records_read].
  destruct (recovery_accounting j lrep) as [[impl' rep] o] eqn:Ea.
  apply recovery_accounting_spec in Ea as (-> & Ho & L1 & L2 & _ & L3 & _).
  destruct o; [by destruct Horphan; apply Ho|].
  cbn [dk_journal fmap option_fmap option_map default from_option dk_snapshot].
  rewrite (wk_writable _ Hk), take_size by done. eexists. split.
  { f_equal. destruct disk; cbn in *. by rewrite Hjournal. }
  cbn [st_impl st_recovery]. rewrite ledger_of_settled, L1, L2, L3, T1, T2. done.
Qed.

(** A record cut short is none. *)
Lemma torn_record limit journal r k :
  u32_fits limit → Forall u8_fits journal → record_ok limit r → (k < length (record_bytes r))%nat →
  is_record_at limit (journal ++ take k (record_bytes r)) (size journal) = false.
Proof.
  intros Hl Hj Hr Hk. apply not_true_iff_false. unfold is_record_at. intros H.
  apply andb_true_iff in H as [_ H].
  destruct (read_record _ _ _) as [[[h p] n]|] eqn:E; [|done]. clear H.
  apply read_record_exact in E as (r' & Hr' & _ & _ & _ & Hd); [| |done].
  2: { apply Forall_app_2; [done|]. by apply Forall_take, record_bytes_u8, Hr. }
  set (rest := drop (N.to_nat n) _) in Hd. clearbody rest. rewrite drop_size in Hd by done.
  assert (record_bytes r = record_bytes r' ++ rest ++ drop k (record_bytes r)) as Hfull.
  { by rewrite app_assoc, <-Hd, take_drop. }
  pose proof (read_record_bytes limit (record_bytes r) 0 r [] Hl Hr) as R1.
  rewrite app_nil_r in R1. specialize (R1 (drop_0 _)).
  pose proof (read_record_bytes limit (record_bytes r) 0 r' _ Hl Hr' Hfull) as R2.
  assert (0 + size (record_bytes r) = 0 + size (record_bytes r')) as E by congruence.
  apply (f_equal length) in Hd.
  rewrite length_take, length_app in Hd. unfold size in E. lia.
Qed.

(** What the queries answer, from the ledger. *)
Lemma ledger_queries s :
  (∀ flow, unvalidated <$> FindLatest flow s = lg_latest (ledger_of (st_impl s)) !! flow) ∧
  (∀ attempt, unvalidated <$> FindByAttempt attempt s = lg_commits (ledger_of (st_impl s)) !! attempt).
Proof.
  split; intros k; unfold FindLatest, FindByAttempt, Latest, ledger_of; fields;
    rewrite resolve_lookup; destruct (_ !! k) as [i|]; try done; cbn; by destruct (_ !! i).
Qed.
