(* ===== verification/CompactFacts.v ===== *)
(** * Compaction

    The snapshot that compaction writes is read back as it was, and what [Open]
    makes of it and of the journal's new marker. *)

From Stdlib Require Import String.
From S2P Require Import Prelude StdAlgo Checked Status Bytes Hash Model Explain Records Codec.
From S2P Require Import CodecFacts CodecExact Wire WireFacts Store JournalFacts Ledger.
From S2P Require Import StoreOps StoreFacts RecoveryFacts StoreTyped Durability.

(** ** The container *)

Lemma snapshot_fields payload :
  size payload < 2 ^ 32 →
  let data := snapshot_container payload in
  GetU32 0 data = kSnapshotMagic ∧ GetU32 4 data = kStoreFormatVersion ∧
  GetU32 8 data = size payload ∧ GetU32 12 data = Crc32C_Compute payload ∧
  ∃ crc, drop 16 data = payload ++ le_bytes 4 crc ++ le_bytes 4 kSnapshotEndMagic.
Proof.
  intros Hs. unfold snapshot_container. cbv zeta.
  assert (wrap 32 (size payload) = size payload) as -> by by apply N.mod_small.
  set (crc := Crc32C_Compute (_ ++ _)). rewrite <-!app_assoc.
  set (tail := payload ++ _).
  assert (∀ pre v n rest, length pre = n → v < 2 ^ 32 →
    GetU32 n (pre ++ le_bytes 4 v ++ rest) = v) as Hget.
  { intros pre v n rest Hn Hv. unfold GetU32.
    rewrite (get_slice 4 n pre (le_bytes 4 v) rest Hn (le_bytes_length 4 v) (le_bytes_u8 4 v)).
    by apply le_value_le_bytes. }
  split; [by apply (Hget [])|]. split; [by apply (Hget (le_bytes 4 kSnapshotMagic))|].
  split; [by apply (Hget (le_bytes 4 kSnapshotMagic ++ le_bytes 4 kStoreFormatVersion))|].
  split; [|by exists crc].
  apply (Hget (le_bytes 4 kSnapshotMagic ++ le_bytes 4 kStoreFormatVersion ++ le_bytes 4 (size payload)));
    [done|apply Crc32C_Compute_fits].
Qed.

Lemma read_snapshot_container options payload :
  u32_fits (max_record_bytes options) → size payload ≤ max_record_bytes options →
  read_snapshot options (snapshot_container payload) = Value payload.
Proof.
  intros Hl Hs. assert (size payload < 2 ^ 32) as H32 by (unfold uint_fits in Hl; lia).
  destruct (snapshot_fields payload H32) as (E1 & E2 & E3 & E4 & crc & E5).
  unfold read_snapshot. rewrite E1, E2, E3, E4, E5.
  destruct (N.ltb_spec (size (snapshot_container payload)) 16) as [H|_].
  { apply (f_equal length) in E5. rewrite length_drop, !length_app, !le_bytes_length in E5.
    unfold size in H. lia. }
  cbn [negb N.eqb]. rewrite !N.eqb_refl. cbn [negb].
  destruct (N.ltb_spec (max_record_bytes options) (size payload)); [lia|].
  destruct (N.ltb_spec (size (payload ++ le_bytes 4 crc ++ le_bytes 4 kSnapshotEndMagic)) (size payload))
    as [H'|_]; [rewrite size_app in H'; lia|].
  rewrite take_size, drop_size by done.
  assert (size (le_bytes 4 crc ++ le_bytes 4 kSnapshotEndMagic) = 8) as E8.
  { unfold size. by rewrite length_app, !le_bytes_length. }
  rewrite E8. cbn [N.ltb N.compare Pos.compare Pos.compare_cont].
  assert (GetU32 4 (le_bytes 4 crc ++ le_bytes 4 kSnapshotEndMagic) = kSnapshotEndMagic) as ->.
  { unfold GetU32. rewrite <-(app_nil_r (le_bytes 4 kSnapshotEndMagic)) at 1.
    rewrite (get_slice 4 4 (le_bytes 4 crc) (le_bytes 4 kSnapshotEndMagic) []);
      [done|apply le_bytes_length..|apply le_bytes_u8]. }
  by rewrite !N.eqb_refl.
Qed.

(** ** The payload *)

Lemma decodes_each_map {A B} (m : Decoder B) (enc : A → list N) (f : A → B) l :
  (∀ x, x ∈ l → decodes m (enc x) (f x)) →
  decodes (decode_each (length l) m) (mjoin (enc <$> l)) (f <$> l).
Proof.
  induction l as [|x l IH]; intros H; [by apply decodes_ret|]. cbn [length decode_each fmap list_fmap].
  eapply (decodes_bind m); [apply H; left|]. eapply decodes_bind_ret; [|by apply decodes_ret].
  apply IH. intros y Hy. apply H. by right.
Qed.

Definition payload_bytes (next_id max_sequence retired : N) (placements : list PlacementRecord)
    (attempts : list AttemptRecord) : list N :=
  le_bytes 8 next_id ++ le_bytes 8 max_sequence ++ le_bytes 8 retired ++
  le_bytes 4 (size placements) ++ mjoin ((λ p, EncodePlacementRecord p []) <$> placements) ++
  le_bytes 4 (size attempts) ++ mjoin ((λ a, EncodeAttemptRecord a []) <$> attempts).

Lemma decodes_count max truncated oversize n :
  n < 2 ^ 32 → n ≤ max → decodes (snapshot_count max truncated oversize) (le_bytes 4 n) n.
Proof.
  intros Hn Hm. unfold snapshot_count. rewrite <-(app_nil_r (le_bytes 4 n)).
  eapply decodes_bind; [by apply decodes_expect, reads_u32|].
  apply decodes_ensure; [b2p; lia|by apply decodes_ret].
Qed.

Lemma DecodeSnapshotPayload_bytes options next_id max_sequence retired placements attempts :
  Forall u64_fits [next_id; max_sequence; retired] →
  Forall placement_fits placements → Forall attempt_fits attempts →
  size placements < 2 ^ 32 → size attempts < 2 ^ 32 →
  size placements ≤ max_total_records options → size attempts ≤ max_total_records options →
  ∃ r, DecodeSnapshotPayload options
         (mkReader (payload_bytes next_id max_sequence retired placements attempts) 0) =
       Value (next_id, max_sequence, retired, unvalidated <$> placements, attempts, r).
Proof.
  intros Hu Hp Ha Sp Sa Mp Ma. open_fits. eexists.
  apply (decodes_all_run (DecodeSnapshotPayload options) _
    (next_id, max_sequence, retired, unvalidated <$> placements, attempts)).
  unfold DecodeSnapshotPayload, payload_bytes, corrupt.
  do 3 (eapply decodes_all_bind; [by apply decodes_expect, reads_u64|]).
  eapply decodes_all_bind; [by apply decodes_count|].
  eapply decodes_all_bind.
  { unfold size. rewrite Nat2N.id. apply (decodes_each_map _ (λ p, EncodePlacementRecord p []) unvalidated).
    intros p Hin. apply DecodePlacementRecord_inverts. rewrite Forall_forall in Hp. by apply Hp. }
  eapply decodes_all_bind; [by apply decodes_count|].
  eapply decodes_all_end; [|done].
  unfold size. rewrite Nat2N.id. apply decodes_each.
  intros a Hin. apply DecodeAttemptRecord_inverts. rewrite Forall_forall in Ha. by apply Ha.
Qed.

Lemma write_placements l w :
  write_each EncodePlacementRecord l w = w ++ mjoin ((λ p, EncodePlacementRecord p []) <$> l).
Proof. apply write_each_app. intros x w' _. exact (appends (write := EncodePlacementRecord) x w'). Qed.

Lemma write_attempts l w :
  write_each EncodeAttemptRecord l w = w ++ mjoin ((λ a, EncodeAttemptRecord a []) <$> l).
Proof. apply write_each_app. intros x w' _. exact (appends (write := EncodeAttemptRecord) x w'). Qed.

(** ** The latest placements *)

Lemma well_indexed_latest impl flow p :
  well_indexed impl → Latest flow impl = Some p → int_flow (pl_intent p) = flow ∧ p ∈ im_placements impl.
Proof.
  intros Hw. rewrite (wi_latest _ Hw). intros Hp%last_elem. unfold of_flow in Hp.
  apply list_elem_of_In, List.filter_In in Hp as [Hin Hf%N.eqb_eq]. split; [done|].
  by apply list_elem_of_In.
Qed.

Lemma latest_placements_elem impl p :
  well_indexed impl →
  p ∈ latest_placements impl ↔ Latest (int_flow (pl_intent p)) impl = Some p.
Proof.
  intros Hw. unfold latest_placements. rewrite list_elem_of_omap. split.
  - intros ([flow i] & Hin & Hp). apply ordered_entries_elem in Hin. cbn in Hp.
    assert (Latest flow impl = Some p) as Hl by (unfold Latest; rewrite Hin; exact Hp).
    by destruct (well_indexed_latest _ _ _ Hw Hl) as [-> _].
  - unfold Latest. destruct (im_latest_by_flow impl !! _) as [i|] eqn:E; [|done]. intros Hp.
    exists (int_flow (pl_intent p), i). by rewrite ordered_entries_elem.
Qed.

Lemma last_all_equal {A} (l : list A) x : x ∈ l → (∀ y, y ∈ l → y = x) → last l = Some x.
Proof.
  intros Hx Hall. destruct (last l) as [y|] eqn:E.
  - by rewrite (Hall y (last_elem _ _ E)).
  - apply last_None in E. subst l. by apply elem_of_nil in Hx.
Qed.

(** The placements a snapshot keeps answer [FindLatest] like the store. *)
Lemma latest_of_flow impl flow :
  well_indexed impl → last (of_flow flow (latest_placements impl)) = Latest flow impl.
Proof.
  intros Hw.
  assert (∀ p, p ∈ of_flow flow (latest_placements impl) ↔ Latest flow impl = Some p) as Hel.
  { intros p. unfold of_flow. rewrite list_elem_of_In, List.filter_In, <-list_elem_of_In.
    rewrite latest_placements_elem, N.eqb_eq by done. split.
    - by intros [H <-].
    - intros H. by destruct (well_indexed_latest _ _ _ Hw H) as [-> _]. }
  destruct (Latest flow impl) as [p|] eqn:E.
  - apply last_all_equal; [by apply Hel|]. intros q Hq. apply Hel in Hq. congruence.
  - apply last_None. destruct (of_flow _ _) as [|q l]; [done|].
    assert (q ∈ q :: l) as Hq by left. apply Hel in Hq. congruence.
Qed.

Lemma latest_placements_fits impl :
  well_indexed impl → typed impl → Forall placement_fits (latest_placements impl).
Proof.
  intros Hw [Hp _ _]. apply Forall_forall. intros p Hin.
  apply latest_placements_elem, well_indexed_latest in Hin as [_ Hin]; [|done..].
  rewrite Forall_forall in Hp. by apply Hp.
Qed.

Lemma of_flow_unvalidated flow l : of_flow flow (unvalidated <$> l) = unvalidated <$> of_flow flow l.
Proof.
  unfold of_flow. induction l as [|p l IH]; [done|]. cbn [fmap list_fmap List.filter].
  rewrite IH. cbn [unvalidated pl_intent]. by destruct (_ =? flow).
Qed.

Lemma of_attempt_unvalidated attempt l :
  of_attempt attempt (unvalidated <$> l) = unvalidated <$> of_attempt attempt l.
Proof.
  unfold of_attempt. induction l as [|p l IH]; [done|]. cbn [fmap list_fmap List.filter].
  rewrite IH. cbn [unvalidated pl_intent]. by destruct (_ =? attempt).
Qed.

(** ** The retained attempts *)

(** The attempt record that compaction keeps. *)
Definition retained_attempt (options : StoreOptions) (impl : Impl) (id : N) : option AttemptRecord :=
  a ← im_attempts impl !! id;
  if aged_out (im_max_sequence impl) (retention_of options impl) a then None else Some a.

Lemma retained_attempts_perm options impl :
  retained_attempts options impl ≡ₚ
  List.filter (λ a, negb (aged_out (im_max_sequence impl) (retention_of options impl) a))
    (snd <$> ordered_entries (im_attempts impl)).
Proof. apply std_sort_perm. Qed.

Lemma retained_attempts_elem options impl a :
  well_indexed impl →
  a ∈ retained_attempts options impl ↔ retained_attempt options impl (at_attempt a) = Some a.
Proof.
  intros Hw. rewrite retained_attempts_perm, list_elem_of_In, List.filter_In, <-list_elem_of_In.
  rewrite list_elem_of_fmap. unfold retained_attempt. split.
  - intros [([id b] & -> & Hin) Hk]. apply ordered_entries_elem in Hin. cbn in *.
    rewrite (wi_attempts _ Hw id b Hin), Hin. cbn. by destruct (aged_out _ _ _).
  - destruct (im_attempts impl !! _) as [b|] eqn:E; [|done]. cbn.
    destruct (aged_out _ _ _) eqn:Ea; [done|]. intros [= ->]. split; [|by rewrite Ea].
    exists (at_attempt a, a). by rewrite ordered_entries_elem.
Qed.

Lemma put_all_lookup l : ∀ impl id,
  im_attempts (foldl (λ impl a, put_attempt a impl) impl l) !! id =
  match last (List.filter (λ a, at_attempt a =? id) l) with
  | Some a => Some a
  | None => im_attempts impl !! id
  end.
Proof.
  induction l as [|a l IH] using rev_ind; intros impl id; [done|].
  rewrite foldl_snoc, List.filter_app. cbn [List.filter].
  unfold put_attempt, im_with_attempts. fields.
  destruct (N.eqb_spec (at_attempt a) id) as [<-|Hne].
  - by rewrite lookup_insert_eq, last_snoc.
  - by rewrite lookup_insert_ne, IH, app_nil_r.
Qed.

Lemma retained_lookup options impl impl0 id :
  well_indexed impl → im_attempts impl0 = ∅ →
  im_attempts (foldl (λ impl a, put_attempt a impl) impl0 (retained_attempts options impl)) !! id =
  retained_attempt options impl id.
Proof.
  intros Hw H0. rewrite put_all_lookup, H0, lookup_empty.
  assert (∀ a, a ∈ List.filter (λ a, at_attempt a =? id) (retained_attempts options impl) ↔
    retained_attempt options impl id = Some a) as Hel.
  { intros a. rewrite list_elem_of_In, List.filter_In, <-list_elem_of_In, N.eqb_eq.
    rewrite retained_attempts_elem by done. split; [by intros [H <-]|].
    intros H. assert (at_attempt a = id) as ->; [|done]. unfold retained_attempt in H.
    destruct (im_attempts impl !! id) as [b|] eqn:E; [|done]. cbn in H.
    destruct (aged_out _ _ _); [done|]. injection H as ->. exact (wi_attempts _ Hw id a E). }
  destruct (retained_attempt options impl id) as [a|] eqn:E.
  - rewrite (last_all_equal _ a); [done|by apply Hel|]. intros b Hb. apply Hel in Hb. congruence.
  - destruct (last _) as [b|] eqn:El; [|done]. apply last_elem, Hel in El. done.
Qed.

Lemma retained_attempts_fits options impl :
  well_indexed impl → typed impl → Forall attempt_fits (retained_attempts options impl).
Proof.
  intros Hw [_ Ha _]. apply Forall_forall. intros a Hin.
  apply retained_attempts_elem in Hin; [|done]. unfold retained_attempt in Hin.
  destruct (im_attempts impl !! _) as [b|] eqn:E; [|done]. cbn in Hin.
  destruct (aged_out _ _ _); [done|]. injection Hin as ->. exact (Ha _ _ E).
Qed.

(** ** Running a compaction *)

Lemma snapshot_payload_bytes s :
  well_indexed (st_impl s) → size (latest_placements (st_impl s)) < 2 ^ 32 →
  size (retained_attempts (st_options s) (st_impl s)) < 2 ^ 32 →
  ∃ retired, u64_fits retired ∧ snapshot_payload s =
    payload_bytes (im_next_placement_id (st_impl s)) (im_max_sequence (st_impl s)) retired
      (latest_placements (st_impl s)) (retained_attempts (st_options s) (st_impl s)).
Proof.
  intros Hw Hp Ha. unfold snapshot_payload. set (retired := wrap 64 (_ + _)).
  exists retired. split; [apply wrap_fits|].
  assert (N.of_nat (base.size (im_latest_by_flow (st_impl s))) =
          size (latest_placements (st_impl s))) as ->.
  { unfold latest_placements, size. f_equal.
    assert (∀ l : list (N * nat), (∀ e, e ∈ l → (e.2 < length (im_placements (st_impl s)))%nat) →
      length (omap (λ e, im_placements (st_impl s) !! e.2) l) = length l) as Hlen.
    { induction l as [|e l IH]; intros Hl; [done|]. cbn.
      destruct (lookup_lt_is_Some_2 (im_placements (st_impl s)) e.2) as [p Hpe]; [apply Hl; left|].
      rewrite Hpe. cbn. f_equal. apply IH. intros e' He'. apply Hl. by right. }
    rewrite Hlen.
    - by rewrite (Permutation_length (ordered_entries_perm _)), length_map_to_list.
    - intros [k i] Hin. apply ordered_entries_elem in Hin.
      exact (map_Forall_lookup_1 _ _ _ _ (ix_latest _ (wi_indexed _ Hw)) Hin). }
  assert (wrap 32 (size (latest_placements (st_impl s))) = size (latest_placements (st_impl s))) as ->
    by by apply N.mod_small.
  assert (wrap 32 (size (retained_attempts (st_options s) (st_impl s))) =
    size (retained_attempts (st_options s) (st_impl s))) as -> by by apply N.mod_small.
  rewrite write_attempts, write_placements. unfold wU32, wU64, payload_bytes.
  by rewrite app_nil_l, <-!app_assoc.
Qed.

Lemma Compact_run s disk :
  appendable s → 0 < max_total_records (st_options s) →
  ∃ s', Compact (mkWorld s disk []) =
    (Value tt, mkWorld s' (mkDisk (Some (journal_bytes [marker_entry (im_max_sequence (st_impl s))]))
                             (Some (snapshot_container (snapshot_payload s)))) []) ∧
    books (st_impl s') = books (st_impl s) ∧ im_max_sequence (st_impl s') = 1 ∧ appendable s' ∧
    st_options s' = st_options s.
Proof.
  intros [Hk Ho Hr Hi] Ht.
  unfold Compact, get_store, mbind, Io_bind. cbn [w_store]. rewrite Hr, Hi, (wk_writable _ Hk).
  cbn [refuse_if mret Io_ret on_store w_store w_disk w_io io_status].
  set (s1 := on_impl (im_with_compacting true) s). unfold io_status.
  assert (compact_body (mkWorld s1 disk []) =
    (Value tt, mkWorld (count_compaction (size (snapshot_container (snapshot_payload s)))
        (on_impl (im_with_sequence 1) (appended kRecordTypeJournalReset
           (le_bytes 8 (im_max_sequence (st_impl s)))
           (count_journal_records 0 (on_impl (im_with_sequence 0) (st_with_file true (st_with_file false s1)))))))
      (append_journal (encode_record kRecordTypeJournalReset 1 (le_bytes 8 (im_max_sequence (st_impl s))))
        (replace_journal [] (replace_snapshot (snapshot_container (snapshot_payload s)) disk))) [])) as ->.
  { unfold compact_body, get_store, mbind, Io_bind. cbn [w_store].
    change (snapshot_payload s1) with (snapshot_payload s).
    set (container := snapshot_container (snapshot_payload s)).
    unfold write_snapshot, reset_journal, SyncFile, ReplaceFileAtomically, file_call, next_outcome,
      mbind, Io_bind.
    cbn [w_io taken on_disk on_store w_store w_disk mret Io_ret]. rewrite N.eqb_refl.
    cbn [w_io taken on_disk on_store w_store w_disk mret Io_ret].
    unfold write_marker, mbind, Io_bind. cbn [on_store w_store w_disk w_io].
    rewrite AppendRecordRaw_run; [done..| |exact Ht].
    unfold size. rewrite le_bytes_length. lia. }
  cbn [w_store w_disk w_io mret Io_ret]. eexists. split; [reflexivity|].
  set (s2 := count_journal_records _ _). set (payload := le_bytes 8 _).
  destruct (appended_impl kRecordTypeJournalReset payload s2) as (Ei & Eo & Ef).
  set (a := appended kRecordTypeJournalReset payload s2) in *. clearbody a.
  cbn [count_compaction on_impl st_with_stats st_with_impl st_impl st_options st_file_open].
  rewrite Ei. split; [done|]. split; [done|]. split; [|by rewrite Eo].
  constructor; cbn [count_compaction on_impl st_with_stats st_with_impl st_impl st_options st_file_open];
    [| |by rewrite Ei|by rewrite Ei].
  - by rewrite Eo.
  - by rewrite Ef.
Qed.

(** ** Opening after a compaction *)

(** The store a snapshot is read into. *)
Definition compacted (options : StoreOptions) (impl : Impl) : Impl :=
  im_with_sequence 1 (im_with_next_id (im_next_placement_id impl)
    (foldl (λ impl a, put_attempt a impl)
       (foldl (λ impl r, push_placement r impl) Impl_init (unvalidated <$> latest_placements impl))
       (retained_attempts options impl))).

Lemma push_all_placements l : ∀ impl,
  im_placements (foldl (λ impl r, push_placement r impl) impl l) = im_placements impl ++ l ∧
  im_attempts (foldl (λ impl r, push_placement r impl) impl l) = im_attempts impl.
Proof.
  induction l as [|r l IH]; intros impl; [by rewrite app_nil_r|]. cbn [foldl].
  destruct (IH (push_placement r impl)) as [-> ->]. unfold push_placement. fields.
  by rewrite <-app_assoc.
Qed.

Lemma put_all_same l : ∀ impl,
  im_placements (foldl (λ impl a, put_attempt a impl) impl l) = im_placements impl ∧
  im_latest_by_flow (foldl (λ impl a, put_attempt a impl) impl l) = im_latest_by_flow impl ∧
  im_commit_by_attempt (foldl (λ impl a, put_attempt a impl) impl l) = im_commit_by_attempt impl.
Proof. induction l as [|a l IH]; intros impl; [done|]. cbn [foldl]. by destruct (IH (put_attempt a impl)) as (-> & -> & ->). Qed.

Lemma compacted_facts options impl :
  well_indexed impl →
  well_indexed (compacted options impl) ∧
  im_placements (compacted options impl) = unvalidated <$> latest_placements impl ∧
  ∀ id, im_attempts (compacted options impl) !! id = retained_attempt options impl id.
Proof.
  intros Hw. unfold compacted.
  set (impl1 := foldl _ Impl_init _). set (impl2 := foldl _ impl1 _).
  destruct (push_all_placements (unvalidated <$> latest_placements impl) Impl_init) as [P1 P2].
  fold impl1 in P1, P2. destruct (put_all_same (retained_attempts options impl) impl1) as (Q1 & _).
  fold impl2 in Q1.
  assert (well_indexed impl1) as W1.
  { apply foldl_inv; [intros; by apply well_indexed_push|].
    constructor; [apply indexed_init|done| |apply map_Forall_empty].
    intros attempt. by destruct (valid attempt). }
  assert (well_indexed impl2) as W2.
  { apply foldl_inv; [|done]. intros. by apply well_indexed_put. }
  split; [destruct W2 as [[? ?] ? ? ?]; by constructor|]. split.
  - change (im_placements impl2 = unvalidated <$> latest_placements impl). by rewrite Q1, P1.
  - intros id. by apply retained_lookup.
Qed.

Lemma Open_compacted path options s :
  workable options → well_indexed (st_impl s) → typed (st_impl s) → st_options s = options →
  u64_fits (im_max_sequence (st_impl s)) →
  size (snapshot_payload s) ≤ max_record_bytes options →
  size (latest_placements (st_impl s)) ≤ max_total_records options →
  size (latest_placements (st_impl s)) < 2 ^ 32 →
  size (retained_attempts options (st_impl s)) ≤ max_total_records options →
  size (retained_attempts options (st_impl s)) < 2 ^ 32 →
  let disk := mkDisk (Some (journal_bytes [marker_entry (im_max_sequence (st_impl s))]))
                     (Some (snapshot_container (snapshot_payload s))) in
  ∃ report, rep_snapshot_loaded report = true ∧
  Open path options disk =
  open_loaded path options disk
    (mkLoaded (compacted options (st_impl s)) report 1
       (size (journal_bytes [marker_entry (im_max_sequence (st_impl s))]))).
Proof.
  intros Hk Hw Hty Ho Hseq Hsize Mp Sp Ma Sa disk. rewrite <-Ho in Ma, Sa.
  destruct (snapshot_payload_bytes s Hw Sp Sa) as (retired & Hret & Hbytes). rewrite Ho in *.
  destruct (DecodeSnapshotPayload_bytes options (im_next_placement_id (st_impl s))
    (im_max_sequence (st_impl s)) retired (latest_placements (st_impl s))
    (retained_attempts options (st_impl s))) as [r Hdec]; try done.
  { repeat constructor; try done. apply Hty. }
  { by apply latest_placements_fits. }
  { by apply retained_attempts_fits. }
  set (marker := marker_entry _) in *.
  assert (record_ok (max_record_bytes options) marker) as Hok.
  { constructor; cbn [marker marker_entry lr_type lr_sequence lr_payload]; [by right; right|done| |apply le_bytes_u8].
    unfold size. rewrite le_bytes_length. pose proof (wk_room _ Hk). lia. }
  exists (rep_snapshot (rep_retire retired report_init)). split; [done|].
  unfold Open, load_base, LoadSnapshot. cbn [disk dk_snapshot dk_journal].
  rewrite read_snapshot_container, Hbytes, Hdec by (done || apply Hk).
  rewrite (LoadJournal_log options (journal_bytes [marker]) [marker] [] _ _ (wk_limit _ Hk));
    [|by rewrite app_nil_r|by constructor|].
  - cbn [replay]. unfold marker. change (im_max_sequence (im_with_sequence (im_max_sequence (st_impl s)) _))
      with (im_max_sequence (st_impl s)).
    rewrite apply_marker by done. unfold load_end. rewrite N.ltb_irrefl. done.
  - unfold read_record. rewrite drop_ge by (unfold size; lia). done.
Qed.
