(* ===== verification/Evaluate.v ===== *)
(** * Preparing a request and evaluating one candidate

    The first half of [engine.cpp]: [Prepare] sorts the request's collections,
    and [Evaluate] runs the fixed hard-exclusion order for one candidate path.
    [violates] states each exclusion reason declaratively, on the request as
    the caller supplied it, and the facts below relate the two. *)

From S2P Require Import Prelude StdAlgo Checked Status Model ModelDigest Validate Explain.

(** ** [Prepare] *)

Record ServiceRequirement := mkRequirement {
  headroom_multiplier : N;
  reservation_required : bool;
}.

Definition RequirementFor (service_class : ServiceClass) : ServiceRequirement :=
  mkRequirement (ServiceHeadroomMultiplier service_class)
                (ServiceRequiresReservation service_class).

Definition SortedUnique (labels : list N) : list N :=
  std_unique N.eqb (std_sort N.ltb labels).

Definition ContainsSorted {A} (less : A → A → bool) (sorted : list A) (value : A) : bool :=
  std_binary_search less sorted value.

Definition SortPointersById {A} (input : list A) (key : A → N) : list A :=
  std_sort (by_key key) input.

(** [LookupById]: [None] is the null pointer. *)
Definition LookupById {A} (sorted : list A) (key : A → N) (id : N) : option A :=
  lookup_key key sorted id.

Record PreparedRequest := mkPrepared {
  pr_request : PlacementRequest;
  pr_limits : Limits;
  pr_service : ServiceRequirement;
  pr_evidence_bundle_present : bool;
  pr_evidence_trusted : bool;
  pr_congestion_objective_used : bool;
  pr_incumbent_present : bool;
  pr_incumbent_eligible : bool;
  pr_headroom_requirement_overflow : bool;
  pr_required_base_bytes : N;
  pr_required_headroom_bytes : N;
  pr_candidates_by_id : list CandidatePath;
  pr_capacity_by_path : list PathCapacity;
  pr_evidence_by_path : list CongestionEvidenceEntry;
  pr_forbidden_localities : list N;
  pr_forbidden_domains : list N;
  pr_occupied_domains : list N;
  pr_required_labels : list N;
  pr_forbidden_labels : list N;
  pr_affinity_refs : list ReservationRef;
  pr_allowed_tiers : list PathTier;
}.

(** The eligibility test of the supplied incumbent. *)
Definition incumbent_is_eligible (request : PlacementRequest)
    (candidates_by_id : list CandidatePath) (incumbent : IncumbentPlacement) : bool :=
  let expected := rq_expected request in
  (inc_path_authority incumbent =? exp_path_authority expected) &&
  (inc_candidate_set_generation incumbent =? exp_candidate_set expected) &&
  (inc_capacity_generation incumbent =? snap_generation (rq_capacity request)) &&
  (inc_policy_generation incumbent =? pol_generation (rq_policy request)) &&
  (inc_qos_generation incumbent =? qos_generation (rq_qos request)) &&
  (inc_fabric_epoch incumbent =? exp_fabric_epoch expected) &&
  (match LookupById candidates_by_id path_id (inc_path incumbent) with
   | Some _ => true | None => false end).

Definition uses_congestion (objectives : list Objective) : bool :=
  existsb (λ objective,
    bool_decide (obj_kind objective = ObjectiveKind.kCongestionUtilization)) objectives.

Definition Prepare (request : PlacementRequest) (limits : Limits) : PreparedRequest :=
  let policy := rq_policy request in
  let evidence := rq_evidence request in
  let expected := rq_expected request in
  let service := RequirementFor (qos_service_class (rq_qos request)) in
  let base_bytes := qos_required_residual_bytes (rq_qos request) in
  let headroom := CheckedMul base_bytes (headroom_multiplier service) in
  let candidates_by_id := SortPointersById (set_paths (rq_candidates request)) path_id in
  let bundle_present := valid (bundle_generation evidence) in
  mkPrepared request limits service bundle_present
    (bundle_present && valid (exp_evidence expected) &&
     (bundle_generation evidence =? exp_evidence expected))
    (uses_congestion (pol_objectives policy))
    (match rq_incumbent request with Some _ => true | None => false end)
    (match rq_incumbent request with
     | Some incumbent => incumbent_is_eligible request candidates_by_id incumbent
     | None => false
     end)
    (match headroom with Some _ => false | None => true end)
    base_bytes
    (match headroom with Some bytes => bytes | None => base_bytes end)
    candidates_by_id
    (SortPointersById (snap_entries (rq_capacity request)) cap_path)
    (SortPointersById (bundle_entries evidence) ev_path)
    (std_sort N.ltb (forbidden_localities (pol_locality policy)))
    (std_sort N.ltb (forbidden_domains (pol_failure_domains policy)))
    (std_unique N.eqb (std_sort N.ltb (rq_occupied_failure_domains request)))
    (std_sort N.ltb (pol_required_labels policy))
    (std_sort N.ltb (pol_forbidden_labels policy))
    (std_sort ReservationRef_ltb (affinity_refs (pol_reservation_affinity policy)))
    (std_sort PathTier_ltb (pol_allowed_tiers policy)).

(** ** [Evaluate] *)

Record CandidateVerdict := mkVerdict {
  vd_legal : bool;
  vd_reason : ExclusionReason;
  vd_multiplier_relaxed : bool;
  vd_reservation_relaxed : bool;
  vd_evidence_known : bool;
  vd_evidence_stale : bool;
  vd_required : N;
  vd_available : N;
}.

Definition verdict_init : CandidateVerdict :=
  mkVerdict false ExclusionReason.kPathAuthorityStale false false false false 0 0.

(** [verdict.reason = reason; return verdict;] *)
Definition exclude (verdict : CandidateVerdict) (reason : ExclusionReason) : CandidateVerdict :=
  mkVerdict (vd_legal verdict) reason (vd_multiplier_relaxed verdict)
    (vd_reservation_relaxed verdict) (vd_evidence_known verdict) (vd_evidence_stale verdict)
    (vd_required verdict) (vd_available verdict).

(** [verdict.required = required; verdict.available = available;] *)
Definition with_amounts (verdict : CandidateVerdict) (required available : N)
    : CandidateVerdict :=
  mkVerdict (vd_legal verdict) (vd_reason verdict) (vd_multiplier_relaxed verdict)
    (vd_reservation_relaxed verdict) (vd_evidence_known verdict) (vd_evidence_stale verdict)
    required available.

Definition with_relaxation (verdict : CandidateVerdict) (multiplier reservation : bool)
    : CandidateVerdict :=
  mkVerdict (vd_legal verdict) (vd_reason verdict) multiplier reservation
    (vd_evidence_known verdict) (vd_evidence_stale verdict)
    (vd_required verdict) (vd_available verdict).

(** The end of the function: [legal], with what is known of the evidence. *)
Definition accept (verdict : CandidateVerdict) (evidence_known evidence_stale : bool)
    : CandidateVerdict :=
  mkVerdict true (vd_reason verdict) (vd_multiplier_relaxed verdict)
    (vd_reservation_relaxed verdict) evidence_known evidence_stale
    (vd_required verdict) (vd_available verdict).

Definition mark_stale (verdict : CandidateVerdict) : CandidateVerdict :=
  mkVerdict (vd_legal verdict) (vd_reason verdict) (vd_multiplier_relaxed verdict)
    (vd_reservation_relaxed verdict) (vd_evidence_known verdict) true
    (vd_required verdict) (vd_available verdict).

(** The loop that looks for a reservation among the affinity references. *)
Definition affinity_matched (prepared : PreparedRequest) (path : CandidatePath) : bool :=
  existsb (std_binary_search ReservationRef_ltb (pr_affinity_refs prepared))
    (attr_reservations (path_attributes path)).

(** The last block: congestion evidence. *)
Definition EvaluateEvidence (prepared : PreparedRequest) (path : CandidatePath)
    (verdict : CandidateVerdict) : CandidateVerdict :=
  let policy := pol_evidence (rq_policy (pr_request prepared)) in
  if negb (pr_congestion_objective_used prepared) then accept verdict false false else
  let entry := LookupById (pr_evidence_by_path prepared) ev_path (path_id path) in
  if negb (pr_evidence_trusted prepared) then
    if pr_evidence_bundle_present prepared then
      if bool_decide (on_stale policy = EvidencePolicyMode.kHardExclude) then
        exclude (mark_stale verdict) ExclusionReason.kEvidenceStale
      else accept verdict false true
    else
      if bool_decide (on_missing policy = EvidencePolicyMode.kHardExclude) then
        exclude verdict ExclusionReason.kEvidenceMissing
      else accept verdict false false
  else
    match entry with
    | None =>
        if bool_decide (on_missing policy = EvidencePolicyMode.kHardExclude) then
          exclude verdict ExclusionReason.kEvidenceMissing
        else accept verdict false false
    | Some _ => accept verdict true false
    end.

(** The blocks after the base capacity test: headroom, reservation, affinity,
    latency, evidence. *)
Definition EvaluateService (prepared : PreparedRequest) (path : CandidatePath)
    (residual : N) : CandidateVerdict :=
  let request := pr_request prepared in
  let policy := rq_policy request in
  let service := pol_service policy in
  let attributes := path_attributes path in
  let headroom := pr_required_headroom_bytes prepared in
  let verdict := with_amounts verdict_init headroom residual in
  let short := residual <? headroom in
  if short && negb (allow_degraded service && (1 <=? max_relaxation_steps service)) then
    exclude verdict ExclusionReason.kServiceHeadroomUnmet else
  let verdict :=
    if short
    then with_amounts (with_relaxation verdict true false)
           (pr_required_base_bytes prepared) residual
    else verdict in
  let unreserved := reservation_required (pr_service prepared) &&
                    list_empty (attr_reservations attributes) in
  if unreserved && negb (allow_degraded service && (2 <=? max_relaxation_steps service)) then
    exclude verdict ExclusionReason.kServiceReservationUnmet else
  let verdict := with_relaxation verdict (vd_multiplier_relaxed verdict) unreserved in
  if affinity_required (pol_reservation_affinity policy) &&
     negb (affinity_matched prepared path) then
    exclude verdict ExclusionReason.kReservationAffinityUnsatisfied else
  let budget := qos_max_latency_nanos (rq_qos request) in
  if negb (budget =? 0) && (budget <? attr_latency_nanos attributes) then
    exclude (with_amounts verdict budget (attr_latency_nanos attributes))
      ExclusionReason.kLatencyBudgetExceeded else
  EvaluateEvidence prepared path verdict.

Definition is_unequal (required : option N) (value : N) : bool :=
  match required with Some v => negb (value =? v) | None => false end.

Definition Evaluate (prepared : PreparedRequest) (path : CandidatePath) : CandidateVerdict :=
  let request := pr_request prepared in
  let policy := rq_policy request in
  let attributes := path_attributes path in
  let domain := attr_failure_domain attributes in
  let domains := pol_failure_domains policy in
  if negb (path_authority path =? exp_path_authority (rq_expected request)) then
    exclude verdict_init ExclusionReason.kPathAuthorityStale else
  if negb (list_empty (pr_allowed_tiers prepared)) &&
     negb (ContainsSorted PathTier_ltb (pr_allowed_tiers prepared) (attr_tier attributes)) then
    exclude verdict_init ExclusionReason.kTierNotAllowed else
  let labels := SortedUnique (attr_labels attributes) in
  if existsb (ContainsSorted N.ltb (pr_forbidden_labels prepared)) labels then
    exclude verdict_init ExclusionReason.kForbiddenLabel else
  if existsb (λ required, negb (ContainsSorted N.ltb labels required))
       (pr_required_labels prepared) then
    exclude verdict_init ExclusionReason.kMissingRequiredLabel else
  if valid (attr_locality attributes) &&
     ContainsSorted N.ltb (pr_forbidden_localities prepared) (attr_locality attributes) then
    exclude verdict_init ExclusionReason.kForbiddenLocality else
  if is_unequal (required_locality (pol_locality policy)) (attr_locality attributes) then
    exclude verdict_init ExclusionReason.kLocalityMismatch else
  if valid domain && ContainsSorted N.ltb (pr_forbidden_domains prepared) domain then
    exclude verdict_init ExclusionReason.kForbiddenFailureDomain else
  if is_unequal (required_domain domains) domain then
    exclude verdict_init ExclusionReason.kRequiredFailureDomainMismatch else
  if avoid_occupied_domains domains && valid domain &&
     ContainsSorted N.ltb (pr_occupied_domains prepared) domain then
    exclude verdict_init ExclusionReason.kFailureDomainOccupied else
  match LookupById (pr_capacity_by_path prepared) cap_path (path_id path) with
  | None => exclude verdict_init ExclusionReason.kCapacityUnknown
  | Some capacity =>
      if cap_residual_bytes capacity <? pr_required_base_bytes prepared then
        exclude (with_amounts verdict_init (pr_required_base_bytes prepared)
                   (cap_residual_bytes capacity)) ExclusionReason.kCapacityInsufficient
      else EvaluateService prepared path (cap_residual_bytes capacity)
  end.

(** ** The exclusion reasons, declaratively *)

(** The capacity snapshot reports [entry] for [path]. *)
Definition reports (request : PlacementRequest) (path : CandidatePath) (entry : PathCapacity)
    : Prop :=
  entry ∈ snap_entries (rq_capacity request) ∧ cap_path entry = path_id path.

Definition may_relax (request : PlacementRequest) (steps : N) : Prop :=
  allow_degraded (pol_service (rq_policy request)) = true ∧
  steps ≤ max_relaxation_steps (pol_service (rq_policy request)).

Definition required_headroom (request : PlacementRequest) : N :=
  qos_required_residual_bytes (rq_qos request) *
  ServiceHeadroomMultiplier (qos_service_class (rq_qos request)).

(** The supplied evidence is the evidence the request declares it trusts. *)
Definition evidence_trusted (request : PlacementRequest) : Prop :=
  bundle_generation (rq_evidence request) ≠ 0 ∧
  bundle_generation (rq_evidence request) = exp_evidence (rq_expected request).

Definition violates (r : PlacementRequest) (p : CandidatePath) (reason : ExclusionReason)
    : Prop :=
  let policy := rq_policy r in
  let a := path_attributes p in
  let domains := pol_failure_domains policy in
  match reason with
  | ExclusionReason.kPathAuthorityStale =>
      path_authority p ≠ exp_path_authority (rq_expected r)
  | ExclusionReason.kTierNotAllowed =>
      pol_allowed_tiers policy ≠ [] ∧
      PathTier_ordinal (attr_tier a) ∉ PathTier_ordinal <$> pol_allowed_tiers policy
  | ExclusionReason.kForbiddenLabel =>
      ∃ label, label ∈ attr_labels a ∧ label ∈ pol_forbidden_labels policy
  | ExclusionReason.kMissingRequiredLabel =>
      ∃ label, label ∈ pol_required_labels policy ∧ label ∉ attr_labels a
  | ExclusionReason.kForbiddenLocality =>
      attr_locality a ≠ 0 ∧ attr_locality a ∈ forbidden_localities (pol_locality policy)
  | ExclusionReason.kLocalityMismatch =>
      from_option (λ v, attr_locality a ≠ v) False (required_locality (pol_locality policy))
  | ExclusionReason.kForbiddenFailureDomain =>
      attr_failure_domain a ≠ 0 ∧ attr_failure_domain a ∈ forbidden_domains domains
  | ExclusionReason.kRequiredFailureDomainMismatch =>
      from_option (λ v, attr_failure_domain a ≠ v) False (required_domain domains)
  | ExclusionReason.kFailureDomainOccupied =>
      avoid_occupied_domains domains = true ∧ attr_failure_domain a ≠ 0 ∧
      attr_failure_domain a ∈ rq_occupied_failure_domains r
  | ExclusionReason.kCapacityUnknown => ∀ entry, ¬ reports r p entry
  | ExclusionReason.kCapacityInsufficient =>
      ∃ entry, reports r p entry ∧
        cap_residual_bytes entry < qos_required_residual_bytes (rq_qos r)
  | ExclusionReason.kServiceHeadroomUnmet =>
      (∃ entry, reports r p entry ∧ cap_residual_bytes entry < required_headroom r) ∧
      ¬ may_relax r 1
  | ExclusionReason.kServiceReservationUnmet =>
      ServiceRequiresReservation (qos_service_class (rq_qos r)) = true ∧
      attr_reservations a = [] ∧ ¬ may_relax r 2
  | ExclusionReason.kReservationAffinityUnsatisfied =>
      affinity_required (pol_reservation_affinity policy) = true ∧
      ∀ ref, ref ∈ attr_reservations a → ref ∉ affinity_refs (pol_reservation_affinity policy)
  | ExclusionReason.kLatencyBudgetExceeded =>
      qos_max_latency_nanos (rq_qos r) ≠ 0 ∧
      qos_max_latency_nanos (rq_qos r) < attr_latency_nanos a
  | ExclusionReason.kEvidenceMissing =>
      uses_congestion (pol_objectives policy) = true ∧
      on_missing (pol_evidence policy) = EvidencePolicyMode.kHardExclude ∧
      (bundle_generation (rq_evidence r) = 0 ∨
       evidence_trusted r ∧ path_id p ∉ ev_path <$> bundle_entries (rq_evidence r))
  | ExclusionReason.kEvidenceStale =>
      uses_congestion (pol_objectives policy) = true ∧
      on_stale (pol_evidence policy) = EvidencePolicyMode.kHardExclude ∧
      bundle_generation (rq_evidence r) ≠ 0 ∧ ¬ evidence_trusted r
  | ExclusionReason.kDuplicatePathEntry => False
  end.

(** A path none of the hard constraints removes. *)
Definition legal_path (r : PlacementRequest) (p : CandidatePath) : Prop :=
  ∀ reason, ¬ violates r p reason.

(** The test the code makes for each reason, on the prepared request. *)
Definition violatesb (prepared : PreparedRequest) (p : CandidatePath)
    (reason : ExclusionReason) : bool :=
  let request := pr_request prepared in
  let policy := rq_policy request in
  let service := pol_service policy in
  let a := path_attributes p in
  let domain := attr_failure_domain a in
  let domains := pol_failure_domains policy in
  let capacity := LookupById (pr_capacity_by_path prepared) cap_path (path_id p) in
  let residual_below bytes :=
    match capacity with Some e => cap_residual_bytes e <? bytes | None => false end in
  let congestion mode :=
    pr_congestion_objective_used prepared &&
    bool_decide (mode = EvidencePolicyMode.kHardExclude) in
  match reason with
  | ExclusionReason.kPathAuthorityStale =>
      negb (path_authority p =? exp_path_authority (rq_expected request))
  | ExclusionReason.kTierNotAllowed =>
      negb (list_empty (pr_allowed_tiers prepared)) &&
      negb (ContainsSorted PathTier_ltb (pr_allowed_tiers prepared) (attr_tier a))
  | ExclusionReason.kForbiddenLabel =>
      existsb (ContainsSorted N.ltb (pr_forbidden_labels prepared))
        (SortedUnique (attr_labels a))
  | ExclusionReason.kMissingRequiredLabel =>
      existsb (λ required, negb (ContainsSorted N.ltb (SortedUnique (attr_labels a)) required))
        (pr_required_labels prepared)
  | ExclusionReason.kForbiddenLocality =>
      valid (attr_locality a) &&
      ContainsSorted N.ltb (pr_forbidden_localities prepared) (attr_locality a)
  | ExclusionReason.kLocalityMismatch =>
      is_unequal (required_locality (pol_locality policy)) (attr_locality a)
  | ExclusionReason.kForbiddenFailureDomain =>
      valid domain && ContainsSorted N.ltb (pr_forbidden_domains prepared) domain
  | ExclusionReason.kRequiredFailureDomainMismatch =>
      is_unequal (required_domain domains) domain
  | ExclusionReason.kFailureDomainOccupied =>
      avoid_occupied_domains domains && valid domain &&
      ContainsSorted N.ltb (pr_occupied_domains prepared) domain
  | ExclusionReason.kCapacityUnknown =>
      match capacity with Some _ => false | None => true end
  | ExclusionReason.kCapacityInsufficient => residual_below (pr_required_base_bytes prepared)
  | ExclusionReason.kServiceHeadroomUnmet =>
      residual_below (pr_required_headroom_bytes prepared) &&
      negb (allow_degraded service && (1 <=? max_relaxation_steps service))
  | ExclusionReason.kServiceReservationUnmet =>
      reservation_required (pr_service prepared) && list_empty (attr_reservations a) &&
      negb (allow_degraded service && (2 <=? max_relaxation_steps service))
  | ExclusionReason.kReservationAffinityUnsatisfied =>
      affinity_required (pol_reservation_affinity policy) && negb (affinity_matched prepared p)
  | ExclusionReason.kLatencyBudgetExceeded =>
      let budget := qos_max_latency_nanos (rq_qos request) in
      negb (budget =? 0) && (budget <? attr_latency_nanos a)
  | ExclusionReason.kEvidenceMissing =>
      congestion (on_missing (pol_evidence policy)) &&
      (if pr_evidence_trusted prepared
       then match LookupById (pr_evidence_by_path prepared) ev_path (path_id p) with
            | Some _ => false | None => true end
       else negb (pr_evidence_bundle_present prepared))
  | ExclusionReason.kEvidenceStale =>
      congestion (on_stale (pol_evidence policy)) && negb (pr_evidence_trusted prepared) &&
      pr_evidence_bundle_present prepared
  | ExclusionReason.kDuplicatePathEntry => false
  end.

(** Case analysis on the test of one reason, in [Evaluate] and in [find]. *)
Ltac peel reason :=
  let E := fresh "E" in
  cbn [find]; destruct (violatesb _ _ reason) eqn:E;
  unfold violatesb in E; cbv beta zeta in E; try rewrite E; [try reflexivity|].

Lemma EvaluateEvidence_find prepared p verdict :
  vd_legal verdict = false →
  let verdict := EvaluateEvidence prepared p verdict in
  (if vd_legal verdict then None else Some (vd_reason verdict)) =
  find (violatesb prepared p)
    [ExclusionReason.kEvidenceMissing; ExclusionReason.kEvidenceStale;
     ExclusionReason.kDuplicatePathEntry].
Proof.
  intros Hv. unfold EvaluateEvidence. cbv zeta. cbn [find]. unfold violatesb. cbv zeta.
  destruct (pr_congestion_objective_used prepared); [|done]. cbn [andb negb].
  destruct (pr_evidence_trusted prepared); cbn [andb negb]; rewrite ?andb_false_r.
  - destruct (LookupById _ _ _); repeat case_bool_decide; cbn; by rewrite ?Hv.
  - destruct (pr_evidence_bundle_present prepared); repeat case_bool_decide; cbn; by rewrite ?Hv.
Qed.

Lemma EvaluateService_find prepared p capacity :
  LookupById (pr_capacity_by_path prepared) cap_path (path_id p) = Some capacity →
  let verdict := EvaluateService prepared p (cap_residual_bytes capacity) in
  (if vd_legal verdict then None else Some (vd_reason verdict)) =
  find (violatesb prepared p)
    [ExclusionReason.kServiceHeadroomUnmet; ExclusionReason.kServiceReservationUnmet;
     ExclusionReason.kReservationAffinityUnsatisfied; ExclusionReason.kLatencyBudgetExceeded;
     ExclusionReason.kEvidenceMissing; ExclusionReason.kEvidenceStale;
     ExclusionReason.kDuplicatePathEntry].
Proof.
  intros Hc. unfold EvaluateService. cbv zeta.
  peel ExclusionReason.kServiceHeadroomUnmet; rewrite Hc in E; rewrite E; [reflexivity|].
  set (v := if cap_residual_bytes capacity <? _ then _ else _).
  assert (vd_legal v = false) as Hv by (unfold v; by case_match). clearbody v.
  peel ExclusionReason.kServiceReservationUnmet; [cbn; by rewrite Hv|].
  peel ExclusionReason.kReservationAffinityUnsatisfied; [cbn; by rewrite Hv|].
  peel ExclusionReason.kLatencyBudgetExceeded; [cbn; by rewrite Hv|].
  apply EvaluateEvidence_find, Hv.
Qed.

(** [Evaluate] reports the first reason, in enumerator order, whose test
    succeeds, and accepts the path when none does. *)
Lemma Evaluate_find prepared p :
  let verdict := Evaluate prepared p in
  (if vd_legal verdict then None else Some (vd_reason verdict)) =
  find (violatesb prepared p) ExclusionReason_all.
Proof.
  unfold Evaluate, ExclusionReason_all. cbv zeta.
  peel ExclusionReason.kPathAuthorityStale. peel ExclusionReason.kTierNotAllowed.
  peel ExclusionReason.kForbiddenLabel. peel ExclusionReason.kMissingRequiredLabel.
  peel ExclusionReason.kForbiddenLocality. peel ExclusionReason.kLocalityMismatch.
  peel ExclusionReason.kForbiddenFailureDomain.
  peel ExclusionReason.kRequiredFailureDomainMismatch.
  peel ExclusionReason.kFailureDomainOccupied.
  peel ExclusionReason.kCapacityUnknown;
    destruct (LookupById _ cap_path _) as [capacity|] eqn:Hc; try done.
  peel ExclusionReason.kCapacityInsufficient; rewrite Hc in E9; rewrite E9; [reflexivity|].
  by apply EvaluateService_find.
Qed.

(** ** Lookups in the prepared collections *)

Lemma ContainsSorted_sort l x : ContainsSorted N.ltb (std_sort N.ltb l) x = true ↔ x ∈ l.
Proof. apply (binary_search_sort N.ltb). Qed.

Lemma ContainsSorted_unique l x :
  ContainsSorted N.ltb (std_unique N.eqb (std_sort N.ltb l)) x = true ↔ x ∈ l.
Proof.
  unfold ContainsSorted. rewrite (binary_search_elem N.ltb).
  - by rewrite (std_unique_elem N.eqb N.eqb_eq), std_sort_elem.
  - apply (SortedUniqueCopy_sorted l).
Qed.

Lemma ContainsSorted_tier l t :
  ContainsSorted PathTier_ltb (std_sort PathTier_ltb l) t = true ↔
  PathTier_ordinal t ∈ PathTier_ordinal <$> l.
Proof.
  unfold ContainsSorted, PathTier_ltb.
  rewrite (std_binary_search_spec (by_key PathTier_ordinal)) by (apply std_sort_sorted, _).
  rewrite list_elem_of_fmap. setoid_rewrite std_sort_perm. unfold by_key.
  split; intros (x & H); exists x; b2p; intuition lia.
Qed.

Lemma affinity_matched_spec r limits p :
  affinity_matched (Prepare r limits) p = true ↔
  ∃ ref, ref ∈ attr_reservations (path_attributes p) ∧
    ref ∈ affinity_refs (pol_reservation_affinity (rq_policy r)).
Proof.
  unfold affinity_matched. cbn [Prepare pr_affinity_refs].
  rewrite existsb_exists_elem. by setoid_rewrite (binary_search_sort ReservationRef_ltb).
Qed.

Lemma list_empty_nil {A} (l : list A) : list_empty l = true ↔ l = [].
Proof. by destruct l. Qed.

Lemma list_empty_sort {A} (less : A → A → bool) l : list_empty (std_sort less l) = list_empty l.
Proof.
  destruct l as [|x l]; [done|]. cbn. destruct (std_sort less l) as [|y k]; [done|].
  cbn. by destruct (less y x).
Qed.

Lemma is_unequal_spec required v :
  is_unequal required v = true ↔ from_option (λ w, v ≠ w) False required.
Proof. destruct required as [w|]; cbn; [b2p|]; done. Qed.

Lemma CheckedMul_Some a b : b ≠ 0 → a * b ≤ uint_max 64 → CheckedMul a b = Some (a * b).
Proof.
  intros Hb Hab. unfold CheckedMul. destruct (N.eqb_spec a 0) as [->|Ha]; [done|].
  destruct (N.eqb_spec b 0); [done|]. cbn [orb].
  destruct (N.ltb_spec (uint_max 64 / b) a) as [Hlt|_].
  - apply CheckedMul_div in Hab; [lia|done].
  - f_equal. by apply wrap_small, uint_fits_max.
Qed.

Section WellFormed.
Context (r : PlacementRequest) (limits : Limits) (Hwf : well_formed r limits).

Lemma prepared_headroom :
  pr_required_headroom_bytes (Prepare r limits) = required_headroom r ∧
  pr_headroom_requirement_overflow (Prepare r limits) = false.
Proof.
  destruct (wf_policy _ _ Hwf) as (_&_&_&_&_&_&_&_&_&_&_&_&_&_&_&Hmul&_).
  cbn [Prepare pr_required_headroom_bytes pr_headroom_requirement_overflow
       RequirementFor headroom_multiplier].
  rewrite CheckedMul_Some; [done| |done]. by destruct (qos_service_class (rq_qos r)).
Qed.

Lemma capacity_lookup p e :
  LookupById (pr_capacity_by_path (Prepare r limits)) cap_path (path_id p) = Some e ↔
  reports r p e.
Proof. apply lookup_key_sort, (wf_capacity_and_evidence _ _ Hwf). Qed.

Lemma capacity_lookup_None p :
  LookupById (pr_capacity_by_path (Prepare r limits)) cap_path (path_id p) = None ↔
  ∀ e, ¬ reports r p e.
Proof.
  setoid_rewrite <-capacity_lookup. destruct (LookupById _ _ _) as [e|]; [|naive_solver].
  split; [done|]. intros H. by destruct (H e).
Qed.

Lemma residual_below_spec p bytes :
  match LookupById (pr_capacity_by_path (Prepare r limits)) cap_path (path_id p) with
  | Some e => cap_residual_bytes e <? bytes
  | None => false
  end = true ↔ ∃ e, reports r p e ∧ cap_residual_bytes e < bytes.
Proof.
  setoid_rewrite <-capacity_lookup. destruct (LookupById _ _ _) as [e|].
  - rewrite N.ltb_lt. split; [eauto|by intros (? & [= <-] & ?)].
  - split; [done|by intros (? & ? & ?)].
Qed.

Lemma evidence_lookup p e :
  LookupById (pr_evidence_by_path (Prepare r limits)) ev_path (path_id p) = Some e ↔
  e ∈ bundle_entries (rq_evidence r) ∧ ev_path e = path_id p.
Proof. apply lookup_key_sort, (wf_capacity_and_evidence _ _ Hwf). Qed.

Lemma evidence_lookup_None p :
  LookupById (pr_evidence_by_path (Prepare r limits)) ev_path (path_id p) = None ↔
  path_id p ∉ ev_path <$> bundle_entries (rq_evidence r).
Proof.
  unfold LookupById. cbn [Prepare pr_evidence_by_path]. unfold SortPointersById.
  rewrite lookup_key_None; rewrite ?std_sort_perm; [done| |].
  - apply std_sort_sorted, _.
  - apply (wf_capacity_and_evidence _ _ Hwf).
Qed.

Lemma evidence_trusted_spec :
  pr_evidence_trusted (Prepare r limits) = true ↔ evidence_trusted r.
Proof.
  cbn [Prepare pr_evidence_trusted]. unfold evidence_trusted. b2p.
  split; [tauto|]. intros [? Heq]. rewrite <-Heq. tauto.
Qed.

Lemma evidence_trusted_false :
  pr_evidence_trusted (Prepare r limits) = false ↔ ¬ evidence_trusted r.
Proof. by rewrite <-evidence_trusted_spec, not_true_iff_false. Qed.

Lemma may_relax_spec steps :
  allow_degraded (pol_service (rq_policy r)) &&
    (steps <=? max_relaxation_steps (pol_service (rq_policy r))) = false ↔
  ¬ may_relax r steps.
Proof. unfold may_relax. rewrite <-not_true_iff_false. by b2p. Qed.

Lemma violatesb_evidence_missing p :
  violatesb (Prepare r limits) p ExclusionReason.kEvidenceMissing = true ↔
  violates r p ExclusionReason.kEvidenceMissing.
Proof.
  unfold violatesb, violates. cbv zeta.
  rewrite !andb_true_iff, bool_decide_eq_true, Logic.and_assoc.
  do 2 apply and_iff_compat_l. destruct (pr_evidence_trusted (Prepare r limits)) eqn:E.
  - apply evidence_trusted_spec in E. rewrite <-evidence_lookup_None.
    pose proof (proj1 E). destruct (LookupById _ _ _); split;
      [done|by intros [?|[_ ?]]|intros _; by right|done].
  - apply evidence_trusted_false in E. rewrite negb_true_iff.
    cbn [Prepare pr_evidence_bundle_present]. rewrite valid_false. tauto.
Qed.

Lemma violatesb_spec p reason :
  violatesb (Prepare r limits) p reason = true ↔ violates r p reason.
Proof.
  destruct reason; [..|apply violatesb_evidence_missing| |];
    unfold violatesb, violates; cbv zeta;
    cbn [Prepare pr_request pr_allowed_tiers pr_forbidden_labels pr_required_labels
         pr_forbidden_localities pr_forbidden_domains pr_occupied_domains pr_service
         pr_congestion_objective_used pr_evidence_bundle_present pr_required_base_bytes
         RequirementFor reservation_required];
    rewrite ?andb_true_iff, ?negb_true_iff, ?valid_true, ?ContainsSorted_sort,
      ?is_unequal_spec, ?may_relax_spec, ?list_empty_nil, ?N.eqb_neq, ?N.ltb_lt,
      ?bool_decide_eq_true, ?Logic.and_assoc; try done.
  - rewrite list_empty_sort, <-!not_true_iff_false, ContainsSorted_tier, list_empty_nil. done.
  - rewrite existsb_exists_elem. setoid_rewrite ContainsSorted_sort.
    by setoid_rewrite (SortedUniqueCopy_elem (attr_labels (path_attributes p))).
  - rewrite existsb_exists_elem. setoid_rewrite negb_true_iff.
    setoid_rewrite <-not_true_iff_false. setoid_rewrite ContainsSorted_unique.
    by setoid_rewrite std_sort_elem.
  - by rewrite ContainsSorted_unique.
  - rewrite <-capacity_lookup_None. by destruct (LookupById _ _ _).
  - apply residual_below_spec.
  - rewrite residual_below_spec. by rewrite (proj1 prepared_headroom).
  - rewrite <-not_true_iff_false, affinity_matched_spec. naive_solver.
  - rewrite evidence_trusted_false. tauto.
Qed.

Lemma Evaluate_legal p :
  vd_legal (Evaluate (Prepare r limits) p) = true ↔ legal_path r p.
Proof.
  pose proof (Evaluate_find (Prepare r limits) p) as Hf. cbv zeta in Hf.
  unfold legal_path. setoid_rewrite <-violatesb_spec. setoid_rewrite not_true_iff_false.
  destruct (vd_legal _).
  - symmetry in Hf. apply find_None_Forall in Hf. rewrite Forall_forall in Hf.
    split; [|done]. intros _ reason. apply Hf, ExclusionReason_all_elem.
  - symmetry in Hf. apply find_Some_elem in Hf as [_ Hf].
    split; [done|]. intros H. by rewrite H in Hf.
Qed.

Lemma Evaluate_reason p :
  vd_legal (Evaluate (Prepare r limits) p) = false →
  let reason := vd_reason (Evaluate (Prepare r limits) p) in
  violates r p reason ∧
  ∀ other, ExclusionReason_ordinal other < ExclusionReason_ordinal reason →
    ¬ violates r p other.
Proof.
  intros Hl. pose proof (Evaluate_find (Prepare r limits) p) as Hf. cbv zeta in *.
  rewrite Hl in Hf. symmetry in Hf. split.
  - apply violatesb_spec. by apply find_Some_elem in Hf as [_ Hf].
  - intros other Hlt. rewrite <-violatesb_spec, not_true_iff_false.
    eapply (find_Some_before ExclusionReason_ordinal); [|done| |done].
    + by repeat constructor.
    + apply ExclusionReason_all_elem.
Qed.
End WellFormed.
