(* ===== verification/Rank.v ===== *)
(** * Ranking legal candidates

    [RankEntry], [BuildRankEntry] and [RankLess] of [engine.cpp], and the proof
    that on the entries of one request [RankLess] is a strict order that only
    ties on equal path ids, so that [std::sort] has one possible result. *)

From S2P Require Import Prelude StdAlgo Checked Model Explain Evaluate.

Definition TierOrdinal (tier : PathTier) : N := PathTier_ordinal tier.

Record RankEntry := mkRankEntry {
  rk_path : CandidatePath;
  rk_capacity : option PathCapacity;
  rk_evidence_known : bool;
  rk_utilization_ppb : N;
  rk_is_incumbent : bool;
  rk_multiplier_relaxed : bool;
  rk_reservation_relaxed : bool;
  rk_has_unknown : bool;
  rk_keys : list ObjectiveValue;
}.

(** The body of the loop over the objectives: the value of one ranking key.  A
    kind without a [case] leaves the initial 0. *)
Definition ObjectiveKey (prepared : PreparedRequest) (path : CandidatePath)
    (capacity : option PathCapacity) (evidence_known : bool) (utilization : N)
    (is_incumbent : bool) (objective : Objective) : ObjectiveValue :=
  let a := path_attributes path in
  let preferred := preferred_locality (pol_locality (rq_policy (pr_request prepared))) in
  let known value := mkValue (obj_kind objective) (obj_direction objective) true value in
  match obj_kind objective with
  | ObjectiveKind.kCost => known (attr_cost_micro a)
  | ObjectiveKind.kLatency => known (attr_latency_nanos a)
  | ObjectiveKind.kResidualCapacity => known (from_option cap_residual_bytes 0 capacity)
  | ObjectiveKind.kHopCount => known (attr_hop_count a)
  | ObjectiveKind.kCongestionUtilization =>
      if evidence_known then known utilization
      else mkValue (obj_kind objective) (obj_direction objective) false 0
  | ObjectiveKind.kTier => known (TierOrdinal (attr_tier a))
  | ObjectiveKind.kLocalityAffinity =>
      known (if is_unequal preferred (attr_locality a) then 1 else 0)
  | ObjectiveKind.kReservationAffinity =>
      known (if list_empty (pr_affinity_refs prepared) || affinity_matched prepared path
             then 0 else 1)
  | ObjectiveKind.kIncumbentStability =>
      known (if is_incumbent then 0 else if pr_incumbent_eligible prepared then 1 else 0)
  | ObjectiveKind.kOther _ => known 0
  end.

Definition BuildRankEntry (prepared : PreparedRequest) (verdict : CandidateVerdict)
    (path : CandidatePath) : RankEntry :=
  let request := pr_request prepared in
  let capacity := LookupById (pr_capacity_by_path prepared) cap_path (path_id path) in
  let evidence := LookupById (pr_evidence_by_path prepared) ev_path (path_id path) in
  let evidence_known :=
    vd_evidence_known verdict && (match evidence with Some _ => true | None => false end) in
  let utilization := from_option ev_utilization_ppb 0 evidence in
  let is_incumbent :=
    match rq_incumbent request with
    | Some incumbent => (inc_path incumbent =? path_id path) && pr_incumbent_eligible prepared
    | None => false
    end in
  let keys :=
    ObjectiveKey prepared path capacity evidence_known utilization is_incumbent
      <$> pol_objectives (rq_policy request) in
  mkRankEntry path capacity evidence_known utilization is_incumbent
    (vd_multiplier_relaxed verdict) (vd_reservation_relaxed verdict)
    (existsb (λ value, negb (val_known value)) keys) keys.

(** The loop of [RankLess] over the common prefix of the keys: [None] when it
    runs to the end. *)
Fixpoint keys_less (a b : list ObjectiveValue) : option bool :=
  match a, b with
  | x :: a', y :: b' =>
      if negb (Bool.eqb (val_known x) (val_known y)) then Some (val_known x)
      else if val_known x && negb (val_value x =? val_value y) then
        Some (if bool_decide (val_direction x = Direction.kMinimize)
              then val_value x <? val_value y
              else val_value y <? val_value x)
      else keys_less a' b'
  | _, _ => None
  end.

Definition RankLess (a b : RankEntry) : bool :=
  match keys_less (rk_keys a) (rk_keys b) with
  | Some less => less
  | None => path_id (rk_path a) <? path_id (rk_path b)
  end.

(** ** The order behind [RankLess]

    With the directions of the objectives fixed, the ranking is the
    lexicographic order of one comparison per objective, then the path id. *)

(** [x] is strictly better than [y] for the direction: UNKNOWN is worst. *)
Definition value_less (direction : Direction) (x y : ObjectiveValue) : bool :=
  match val_known x, val_known y with
  | true, true =>
      if bool_decide (direction = Direction.kMinimize)
      then val_value x <? val_value y else val_value y <? val_value x
  | true, false => true
  | false, _ => false
  end.

Definition no_value : ObjectiveValue :=
  mkValue ObjectiveKind.kCost Direction.kMinimize false 0.

Fixpoint order_by (directions : list Direction)
    : list ObjectiveValue * N → list ObjectiveValue * N → bool :=
  match directions with
  | [] => by_key snd
  | d :: directions' =>
      lex_less (map_less (λ e, hd no_value e.1) (value_less d))
               (map_less (λ e, (tl e.1, e.2)) (order_by directions'))
  end.

Definition rank_key (e : RankEntry) : list ObjectiveValue * N :=
  (rk_keys e, path_id (rk_path e)).

Definition rank_order (directions : list Direction) : RankEntry → RankEntry → bool :=
  map_less rank_key (order_by directions).

Definition directions_of (e : RankEntry) : list Direction := val_direction <$> rk_keys e.

#[export] Instance value_less_order d : StrictWeakOrder (value_less d).
Proof.
  unfold value_less. case_bool_decide; split; intros; repeat case_match; b2p;
    try done; try lia; auto; try (by left); try (by right).
Qed.

#[export] Instance order_by_order ds : StrictWeakOrder (order_by ds).
Proof. induction ds as [|d ds IH]; cbn [order_by]; apply _. Qed.

#[export] Instance rank_order_order ds : StrictWeakOrder (rank_order ds).
Proof. apply _. Qed.

Lemma keys_less_order ds a b i j :
  val_direction <$> a = ds → val_direction <$> b = ds →
  order_by ds (a, i) (b, j) = match keys_less a b with Some less => less | None => i <? j end.
Proof.
  revert a b. induction ds as [|d ds IH]; intros [|x a] [|y b]; try done.
  intros [= Hx Ha] [= Hy Hb]. cbn [order_by keys_less]. unfold lex_less, map_less. cbn [fst snd hd tl].
  rewrite (IH a b Ha Hb). unfold value_less. rewrite <-Hx.
  destruct (val_known x), (val_known y); cbn [Bool.eqb negb andb]; try done.
  case_bool_decide; destruct (N.eqb_spec (val_value x) (val_value y)) as [->|Hne]; cbn [negb].
  - by rewrite N.ltb_irrefl.
  - destruct (N.ltb_spec (val_value x) (val_value y)); [done|].
    destruct (N.ltb_spec (val_value y) (val_value x)); [done|lia].
  - by rewrite N.ltb_irrefl.
  - destruct (N.ltb_spec (val_value y) (val_value x)); [done|].
    destruct (N.ltb_spec (val_value x) (val_value y)); [done|lia].
Qed.

Lemma RankLess_order ds e f :
  directions_of e = ds → directions_of f = ds → RankLess e f = rank_order ds e f.
Proof. intros He Hf. symmetry. by apply keys_less_order. Qed.

(** Where neither entry is better, the path ids agree. *)
Lemma order_by_tie ds a b :
  order_by ds a b = false → order_by ds b a = false → a.2 = b.2.
Proof.
  revert a b. induction ds as [|d ds IH]; intros a b; cbn [order_by].
  - unfold by_key. b2p. lia.
  - unfold lex_less, map_less. cbn [fst snd].
    destruct (value_less d _ _); [done|]. destruct (value_less d _ _); [done|].
    apply (IH (tl a.1, a.2) (tl b.1, b.2)).
Qed.

(** ** The entries of one request *)

Definition objective_directions (prepared : PreparedRequest) : list Direction :=
  obj_direction <$> pol_objectives (rq_policy (pr_request prepared)).

Lemma ObjectiveKey_direction prepared p c k u i o :
  val_direction (ObjectiveKey prepared p c k u i o) = obj_direction o.
Proof. unfold ObjectiveKey. by repeat case_match. Qed.

Lemma ObjectiveKey_kind prepared p c k u i o :
  val_kind (ObjectiveKey prepared p c k u i o) = obj_kind o.
Proof. unfold ObjectiveKey. by repeat case_match. Qed.

Lemma BuildRankEntry_directions prepared verdict p :
  directions_of (BuildRankEntry prepared verdict p) = objective_directions prepared.
Proof.
  unfold directions_of. cbn [BuildRankEntry rk_keys]. rewrite <-list_fmap_compose.
  apply list_fmap_ext. intros _ o _. apply ObjectiveKey_direction.
Qed.

(** Sorting the legal entries with [RankLess]. *)
Section OneRequest.
Context (ds : list Direction) (l : list RankEntry)
  (Hds : Forall (λ e, directions_of e = ds) l).

Lemma sort_RankLess : std_sort RankLess l = std_sort (rank_order ds) l.
Proof.
  apply std_sort_ext. rewrite Forall_forall in Hds.
  intros x y Hx Hy. by apply RankLess_order; apply Hds.
Qed.

Lemma sort_RankLess_elem e : e ∈ std_sort RankLess l ↔ e ∈ l.
Proof. by rewrite sort_RankLess, std_sort_perm. Qed.

Lemma sort_RankLess_best e f k :
  std_sort RankLess l = e :: k → f ∈ l → RankLess f e = false.
Proof.
  intros Hs Hf. assert (e ∈ l) as He by (rewrite <-sort_RankLess_elem, Hs; left).
  rewrite sort_RankLess in Hs. rewrite Forall_forall in Hds.
  rewrite (RankLess_order ds) by auto. by apply (std_sort_head (rank_order ds) l e k).
Qed.

Lemma sort_RankLess_sorted : StronglySorted (not_after RankLess) (std_sort RankLess l).
Proof.
  rewrite sort_RankLess.
  assert (Forall (λ e, directions_of e = ds) (std_sort (rank_order ds) l)) as Hall
    by by rewrite std_sort_perm.
  pose proof (std_sort_sorted (rank_order ds) l) as Hs.
  induction Hs as [|x k Hk IH Hx]; [constructor|].
  inversion Hall as [|? ? Hdx Hdk]; subst. constructor; [by apply IH|].
  rewrite Forall_forall in *. intros y Hy. unfold not_after.
  rewrite (RankLess_order (directions_of x)); [by apply Hx|by apply Hdk|done].
Qed.

(** Distinct path ids leave [std::sort] one result. *)
Lemma sort_RankLess_perm k :
  NoDup ((λ e, path_id (rk_path e)) <$> l) → l ≡ₚ k →
  std_sort RankLess l = std_sort RankLess k.
Proof.
  intros Hnd Hp. rewrite sort_RankLess.
  assert (Forall (λ e, directions_of e = ds) k) as Hk by by rewrite <-Hp.
  rewrite (std_sort_ext RankLess (rank_order ds) k).
  - apply std_sort_unique; [apply _| |done]. intros x y Hx Hy H1 H2.
    apply (NoDup_fmap_elem_inj _ l x y Hnd Hx Hy).
    by apply (order_by_tie ds (rank_key x) (rank_key y)).
  - rewrite Forall_forall in Hk. intros x y Hx Hy. by apply RankLess_order; apply Hk.
Qed.
End OneRequest.
