(* ===== verification/Exclusions.v ===== *)
(** * Recording why candidates were excluded

    [ExclusionRecorder], [AddNote], [AddDegradation] and [AddBinding] of
    [engine.cpp].  The recorder's [std::map] is a [gmap] over the reasons; its
    ordered iteration is the enumerator order. *)

From Stdlib Require Import String.
From S2P Require Import Prelude StdAlgo Checked Status Model Explain Evaluate.

Record Entry := mkEntry {
  en_summary : ExclusionSummary;
  en_required : N;
  en_available : N;
  en_example : N;
}.

Record ExclusionRecorder := mkRecorder {
  er_entries : gmap ExclusionReason Entry;
  er_max_reasons : N;
  er_max_samples : N;
  er_truncated : bool;
}.

Definition ExclusionRecorder_init (max_reasons max_samples : N) : ExclusionRecorder :=
  mkRecorder ∅ max_reasons max_samples false.

(** [sample.back() = path] *)
Definition replace_last (sample : list N) (path : N) : list N :=
  take (length sample - 1) sample ++ [path].

(** The sample update at the end of [Add]: the new sample and whether it
    truncates. *)
Definition add_sample (max_samples : N) (sample : list N) (path : N) : list N * bool :=
  if size sample <? max_samples then (std_sort N.ltb (sample ++ [path]), false)
  else
    match last sample with
    | Some back =>
        if path <? back then (std_sort N.ltb (replace_last sample path), true)
        else (sample, true)
    | None => (sample, true)
    end.

(** The entry [Add] works on: the existing one, with the example moved to a
    lower path id, or a fresh one. *)
Definition entry_for (reason : ExclusionReason) (verdict : CandidateVerdict) (path : N)
    (existing : option Entry) : Entry :=
  match existing with
  | Some entry =>
      if path <? en_example entry
      then mkEntry (en_summary entry) (vd_required verdict) (vd_available verdict) path
      else entry
  | None => mkEntry (mkSummary reason 0 []) (vd_required verdict) (vd_available verdict) path
  end.

Definition Add (reason : ExclusionReason) (verdict : CandidateVerdict) (path : N)
    (recorder : ExclusionRecorder) : ExclusionRecorder :=
  let entries := er_entries recorder in
  let existing := entries !! reason in
  if match existing with
     | Some _ => false
     | None => er_max_reasons recorder <=? N.of_nat (base.size entries)
     end then
    mkRecorder entries (er_max_reasons recorder) (er_max_samples recorder) true
  else
    let entry := entry_for reason verdict path existing in
    let summary := en_summary entry in
    let '(sample, truncates) :=
      add_sample (er_max_samples recorder) (sum_sample summary) path in
    mkRecorder
      (<[reason := mkEntry (mkSummary (sum_reason summary) (sum_count summary + 1) sample)
                     (en_required entry) (en_available entry) (en_example entry)]> entries)
      (er_max_reasons recorder) (er_max_samples recorder)
      (er_truncated recorder || truncates).

Definition Count (reason : ExclusionReason) (recorder : ExclusionRecorder) : N :=
  from_option (λ entry, sum_count (en_summary entry)) 0 (er_entries recorder !! reason).

Definition Truncated (recorder : ExclusionRecorder) : bool := er_truncated recorder.

Definition Summaries (recorder : ExclusionRecorder) : list ExclusionSummary :=
  omap (λ reason, en_summary <$> er_entries recorder !! reason) ExclusionReason_all.

Definition FirstRequired (reason : ExclusionReason) (recorder : ExclusionRecorder) : N :=
  from_option en_required 0 (er_entries recorder !! reason).

Definition FirstAvailable (reason : ExclusionReason) (recorder : ExclusionRecorder) : N :=
  from_option en_available 0 (er_entries recorder !! reason).

Definition FirstPath (reason : ExclusionReason) (recorder : ExclusionRecorder) : N :=
  from_option en_example 0 (er_entries recorder !! reason).

Definition ReasonIsOnly (reason : ExclusionReason) (recorder : ExclusionRecorder) : bool :=
  Nat.eqb (base.size (er_entries recorder)) 1 &&
  (match er_entries recorder !! reason with Some _ => true | None => false end).

(** ** Building the explanation *)

Definition ex_with_truncated (b : bool) (e : Explanation) : Explanation :=
  mkExplanation b (ex_candidate_count e) (ex_legal_candidate_count e)
    (ex_excluded_candidate_count e) (ex_unknown_evidence_count e)
    (ex_distinct_failure_domains e) (ex_ranked e) (ex_exclusions e) (ex_degradations e)
    (ex_binding e) (ex_notes e).

Definition ex_with_ranked (ranked : list RankedCandidate) (e : Explanation) : Explanation :=
  mkExplanation (ex_truncated e) (ex_candidate_count e) (ex_legal_candidate_count e)
    (ex_excluded_candidate_count e) (ex_unknown_evidence_count e)
    (ex_distinct_failure_domains e) ranked (ex_exclusions e) (ex_degradations e)
    (ex_binding e) (ex_notes e).

Definition ex_with_degradations (flags : list DegradationFlag) (e : Explanation)
    : Explanation :=
  mkExplanation (ex_truncated e) (ex_candidate_count e) (ex_legal_candidate_count e)
    (ex_excluded_candidate_count e) (ex_unknown_evidence_count e)
    (ex_distinct_failure_domains e) (ex_ranked e) (ex_exclusions e) flags
    (ex_binding e) (ex_notes e).

Definition ex_with_binding (binding : list BindingConstraint) (e : Explanation) : Explanation :=
  mkExplanation (ex_truncated e) (ex_candidate_count e) (ex_legal_candidate_count e)
    (ex_excluded_candidate_count e) (ex_unknown_evidence_count e)
    (ex_distinct_failure_domains e) (ex_ranked e) (ex_exclusions e) (ex_degradations e)
    binding (ex_notes e).

Definition ex_with_notes (notes : list string) (e : Explanation) : Explanation :=
  mkExplanation (ex_truncated e) (ex_candidate_count e) (ex_legal_candidate_count e)
    (ex_excluded_candidate_count e) (ex_unknown_evidence_count e)
    (ex_distinct_failure_domains e) (ex_ranked e) (ex_exclusions e) (ex_degradations e)
    (ex_binding e) notes.

Definition kMaxNotes : N := 16.
Definition kMaxBinding : N := 8.

Definition AddNote (note : string) (e : Explanation) : Explanation :=
  if kMaxNotes <=? size (ex_notes e) then ex_with_truncated true e
  else ex_with_notes (ex_notes e ++ [note]) e.

Definition DegradationFlag_ltb : DegradationFlag → DegradationFlag → bool :=
  by_key DegradationFlag_ordinal.

Definition AddDegradation (flag : DegradationFlag) (e : Explanation) : Explanation :=
  if existsb (λ f, bool_decide (f = flag)) (ex_degradations e) then e
  else ex_with_degradations
         (std_sort DegradationFlag_ltb (ex_degradations e ++ [flag])) e.

Definition AddBinding (kind : ExclusionReason) (path required available : N) (label : string)
    (e : Explanation) : Explanation :=
  if kMaxBinding <=? size (ex_binding e) then ex_with_truncated true e
  else ex_with_binding
         (ex_binding e ++ [mkBinding kind path required available label]) e.

(** ** What the helpers keep bounded *)

Lemma is_degrading_sort l :
  existsb IsDegradingFlag (std_sort DegradationFlag_ltb l) = existsb IsDegradingFlag l.
Proof. apply existsb_perm, std_sort_perm. Qed.

Lemma AddDegradation_elem flag e f :
  f ∈ ex_degradations (AddDegradation flag e) ↔ f = flag ∨ f ∈ ex_degradations e.
Proof.
  unfold AddDegradation. destruct (existsb _ _) eqn:E.
  - apply existsb_exists_elem in E as (g & Hg & ->%bool_decide_eq_true). naive_solver.
  - cbn. unfold DegradationFlag_ltb. rewrite std_sort_perm, elem_of_app, list_elem_of_singleton.
    tauto.
Qed.

Lemma AddDegradation_NoDup flag e :
  NoDup (ex_degradations e) → NoDup (ex_degradations (AddDegradation flag e)).
Proof.
  intros Hnd. unfold AddDegradation. destruct (existsb _ _) eqn:E; [done|].
  cbn. unfold DegradationFlag_ltb. rewrite std_sort_perm. apply NoDup_app.
  split_and!; [done| |apply NoDup_singleton].
  intros f Hf ->%list_elem_of_singleton. apply existsb_false_Forall in E.
  rewrite Forall_forall in E. specialize (E _ Hf). by apply bool_decide_eq_false in E.
Qed.

Lemma flags_length (l : list DegradationFlag) : NoDup l → size l ≤ 9.
Proof.
  intros Hnd. assert (length l ≤ length DegradationFlag_all)%nat as H; [|unfold size; cbn in H; lia].
  apply submseteq_length, NoDup_submseteq; [done|]. intros f _.
  apply list_elem_of_In. destruct f; cbn; tauto.
Qed.

(** The limits an explanation stays within. *)
Record bounded (limits : Limits) (e : Explanation) : Prop := {
  bd_notes : size (ex_notes e) ≤ kMaxNotes;
  bd_binding : size (ex_binding e) ≤ kMaxBinding;
  bd_ranked : size (ex_ranked e) ≤ max_ranked_explained limits;
  bd_exclusions : size (ex_exclusions e) ≤ max_exclusion_reasons limits;
  bd_samples : Forall (λ s, size (sum_sample s) ≤ max_exclusion_samples limits) (ex_exclusions e);
  bd_degradations : NoDup (ex_degradations e);
}.

Lemma AddNote_bounded limits note e : bounded limits e → bounded limits (AddNote note e).
Proof.
  intros []. unfold AddNote. destruct (N.leb_spec kMaxNotes (size (ex_notes e)));
    split; cbn [ex_with_truncated ex_with_notes ex_notes ex_binding ex_ranked ex_exclusions
      ex_degradations]; try done.
  rewrite size_app. change (size [note]) with 1. lia.
Qed.

Lemma AddBinding_bounded limits kind path required available label e :
  bounded limits e → bounded limits (AddBinding kind path required available label e).
Proof.
  intros []. unfold AddBinding. destruct (N.leb_spec kMaxBinding (size (ex_binding e)));
    split; cbn [ex_with_truncated ex_with_binding ex_notes ex_binding ex_ranked ex_exclusions
      ex_degradations]; try done.
  rewrite size_app. change (size [_]) with 1. lia.
Qed.

Lemma AddDegradation_bounded limits flag e : bounded limits e → bounded limits (AddDegradation flag e).
Proof.
  intros []. pose proof (AddDegradation_NoDup flag e bd_degradations0) as Hnd.
  split; try apply Hnd; unfold AddDegradation; by destruct (existsb _ _).
Qed.

(** *** The recorder *)

Lemma add_sample_size k sample path :
  size sample ≤ k → size (add_sample k sample path).1 ≤ k.
Proof.
  intros Hk. unfold add_sample. destruct (N.ltb_spec (size sample) k).
  - cbn [fst]. rewrite (size_perm _ _ (std_sort_perm N.ltb _)), size_app.
    change (size [path]) with 1. lia.
  - destruct (last sample) as [back|] eqn:E; [|done]. destruct (path <? back); [|done].
    cbn [fst]. rewrite (size_perm _ _ (std_sort_perm N.ltb _)).
    destruct sample as [|x sample]; [done|]. unfold replace_last, size in *.
    rewrite length_app, length_take. cbn [length] in *. lia.
Qed.

Definition recorder_bounded (recorder : ExclusionRecorder) : Prop :=
  N.of_nat (base.size (er_entries recorder)) ≤ er_max_reasons recorder ∧
  map_Forall (λ _ entry, size (sum_sample (en_summary entry)) ≤ er_max_samples recorder)
    (er_entries recorder).

Lemma Add_bounded reason verdict path recorder :
  recorder_bounded recorder → recorder_bounded (Add reason verdict path recorder).
Proof.
  intros [Hsize Hsamples]. unfold Add.
  destruct (er_entries recorder !! reason) as [entry|] eqn:E; cbv zeta.
  - destruct (add_sample _ _ _) as [sample b] eqn:Es.
    assert (size sample ≤ er_max_samples recorder) as Hs.
    { change sample with (sample, b).1. rewrite <-Es. apply add_sample_size.
      cbn [entry_for]. case_match; apply (Hsamples _ _ E). }
    split; cbn [er_entries er_max_reasons er_max_samples].
    + by rewrite map_size_insert_Some.
    + by apply map_Forall_insert_2.
  - destruct (N.leb_spec (er_max_reasons recorder) (N.of_nat (base.size (er_entries recorder)))); [done|].
    destruct (add_sample _ _ _) as [sample b] eqn:Es.
    assert (size sample ≤ er_max_samples recorder) as Hs.
    { change sample with (sample, b).1. rewrite <-Es. apply add_sample_size, N.le_0_l. }
    split; cbn [er_entries er_max_reasons er_max_samples].
    + rewrite map_size_insert_None by done. lia.
    + by apply map_Forall_insert_2.
Qed.

Lemma Add_limits reason verdict path recorder :
  er_max_reasons (Add reason verdict path recorder) = er_max_reasons recorder ∧
  er_max_samples (Add reason verdict path recorder) = er_max_samples recorder.
Proof. unfold Add. cbv zeta. case_match; [done|]. by destruct (add_sample _ _ _). Qed.

Lemma omap_lookup_length (m : gmap ExclusionReason Entry) l :
  length (omap (λ reason, en_summary <$> m !! reason) l) =
  length (filter (λ reason, reason ∈ dom m) l).
Proof.
  induction l as [|reason l IH]; [done|]. rewrite filter_cons. cbn [omap list_omap].
  destruct (m !! reason) as [entry|] eqn:E; cbn [fmap option_fmap option_map].
  - rewrite decide_True by (by eapply elem_of_dom_2). cbn [length]. by rewrite <-IH.
  - rewrite decide_False by (by apply not_elem_of_dom). by rewrite <-IH.
Qed.

Lemma ExclusionReason_all_NoDup : NoDup ExclusionReason_all.
Proof. by apply (bool_decide_unpack _). Qed.

Lemma Summaries_size recorder :
  size (Summaries recorder) ≤ N.of_nat (base.size (er_entries recorder)).
Proof.
  unfold Summaries, size. rewrite omap_lookup_length, <-size_dom.
  assert (length (filter (λ reason, reason ∈ dom (er_entries recorder)) ExclusionReason_all) ≤
          base.size (dom (er_entries recorder)))%nat as H; [|lia].
  change (base.size (dom (er_entries recorder)))
    with (length (elements (dom (er_entries recorder)))).
  apply submseteq_length, NoDup_submseteq.
  - eapply sublist_NoDup; [apply ExclusionReason_all_NoDup|apply sublist_filter].
  - intros reason. rewrite list_elem_of_filter, elem_of_elements. by intros [].
Qed.

Lemma Summaries_bounded recorder :
  recorder_bounded recorder →
  size (Summaries recorder) ≤ er_max_reasons recorder ∧
  Forall (λ s, size (sum_sample s) ≤ er_max_samples recorder) (Summaries recorder).
Proof.
  intros [Hsize Hsamples]. split; [pose proof (Summaries_size recorder); lia|].
  rewrite Forall_forall. intros s Hs. unfold Summaries in Hs.
  apply list_elem_of_omap in Hs as (reason & _ & Hs).
  destruct (er_entries recorder !! reason) as [entry|] eqn:E; [|done].
  cbn in Hs. injection Hs as <-. apply (Hsamples _ _ E).
Qed.
