(* ===== verification/Place.v ===== *)
(** * The placement decision

    [PlacementEngine::Place] and [VerifyIntent] of [engine.cpp].  [Place] is cut
    at its own section comments: the scan of the candidates, the empty legal
    set, diversity, ranking, churn, the admission gate, the degradation flags,
    the intent and the self-verification; each definition takes the explanation
    built so far and hands it on. *)

From Stdlib Require Import String.
From S2P Require Import Prelude StdAlgo Checked Status Hash Model ModelDigest Validate Explain.
From S2P Require Import Evaluate Rank Exclusions.

Definition BuildAuthority (request : PlacementRequest) (expected : AuthorityExpectation)
    : AuthorityVector :=
  mkAuthority (exp_path_authority expected)
    (set_id (rq_candidates request)) (set_generation (rq_candidates request))
    (snap_id (rq_capacity request)) (snap_generation (rq_capacity request))
    (pol_id (rq_policy request)) (pol_generation (rq_policy request))
    (qos_id (rq_qos request)) (qos_generation (rq_qos request))
    (bundle_id (rq_evidence request)) (bundle_generation (rq_evidence request))
    (exp_fabric_epoch expected).

Definition OutcomeForValidationCode (code : StatusCode) : Outcome :=
  match code with
  | StatusCode.kStaleAuthorityGeneration
  | StatusCode.kStaleCandidateSet
  | StatusCode.kStaleCapacitySnapshot
  | StatusCode.kStalePolicy
  | StatusCode.kStaleQos
  | StatusCode.kStaleFabricEpoch
  | StatusCode.kStaleEvidence => Outcome.kStaleInput
  | _ => Outcome.kConflictingInput
  end.

(** [decision.digest = DecisionDigest(decision);] *)
Definition with_digest (d : PlacementDecision) : PlacementDecision :=
  mkDecision (dec_outcome d) (dec_code d) (dec_intent d) (dec_authority d) (dec_delta d)
    (dec_explanation d) (DecisionDigest d) (dec_validation d).

Definition with_authority (authority : AuthorityVector) (d : PlacementDecision)
    : PlacementDecision :=
  mkDecision (dec_outcome d) (dec_code d) (dec_intent d) authority (dec_delta d)
    (dec_explanation d) (dec_digest d) (dec_validation d).

Definition with_explanation (e : Explanation) (d : PlacementDecision) : PlacementDecision :=
  mkDecision (dec_outcome d) (dec_code d) (dec_intent d) (dec_authority d) (dec_delta d)
    e (dec_digest d) (dec_validation d).

Definition Reject (code : StatusCode) (message : string) : PlacementDecision :=
  with_digest
    (mkDecision (OutcomeForValidationCode code) code None AuthorityVector_zero
       IncumbentDelta.kNoIncumbent (AddNote message Explanation_init) (mkDigest 0 0)
       (mkStatus code message)).

(** A decision without an intent, with its digest. *)
Definition conclude (outcome : Outcome) (code : StatusCode) (authority : AuthorityVector)
    (delta : IncumbentDelta) (validation : Status) (e : Explanation) : PlacementDecision :=
  with_digest (mkDecision outcome code None authority delta e (mkDigest 0 0) validation).

(** ** Request-level staleness *)

Definition stale_checks (request : PlacementRequest) : list (bool * StatusCode * string) :=
  let expected := rq_expected request in [
  (negb (set_generation (rq_candidates request) =? exp_candidate_set expected),
   StatusCode.kStaleCandidateSet,
   "candidate set generation is not the expected generation"%string);
  (negb (snap_generation (rq_capacity request) =? exp_capacity expected),
   StatusCode.kStaleCapacitySnapshot,
   "capacity snapshot generation is not the expected generation"%string);
  (negb (pol_generation (rq_policy request) =? exp_policy expected),
   StatusCode.kStalePolicy,
   "policy generation is not the expected generation"%string);
  (negb (qos_generation (rq_qos request) =? exp_qos expected),
   StatusCode.kStaleQos,
   "qos generation is not the expected generation"%string)].

Definition first_stale (request : PlacementRequest) : option (StatusCode * string) :=
  (λ check, (check.1.2, check.2)) <$> find (λ check, check.1.1) (stale_checks request).

(** The incumbent relation before any path is chosen. *)
Definition initial_delta (prepared : PreparedRequest) : IncumbentDelta :=
  if negb (pr_incumbent_present prepared) then IncumbentDelta.kNoIncumbent
  else if pr_incumbent_eligible prepared then IncumbentDelta.kKept
  else IncumbentDelta.kReplacedStale.

(** ** The scan of the candidates *)

Record Scan := mkScan {
  sc_exclusions : ExclusionRecorder;
  sc_legal : list RankEntry;
  sc_unknown : N;
  sc_domains : list N;
}.

Definition scan_candidate (prepared : PreparedRequest) (scan : Scan) (path : CandidatePath)
    : Scan :=
  let verdict := Evaluate prepared path in
  if negb (vd_legal verdict) then
    mkScan (Add (vd_reason verdict) verdict (path_id path) (sc_exclusions scan))
      (sc_legal scan) (sc_unknown scan) (sc_domains scan)
  else
    let entry := BuildRankEntry prepared verdict path in
    let domain := attr_failure_domain (path_attributes path) in
    mkScan (sc_exclusions scan) (sc_legal scan ++ [entry])
      (if rk_has_unknown entry then sc_unknown scan + 1 else sc_unknown scan)
      (if valid domain then sc_domains scan ++ [domain] else sc_domains scan).

Definition scan_candidates (prepared : PreparedRequest) (limits : Limits)
    (paths : list CandidatePath) : Scan :=
  fold_left (scan_candidate prepared) paths
    (mkScan (ExclusionRecorder_init (max_exclusion_reasons limits)
               (max_exclusion_samples limits)) [] 0 []).

Definition note_if (test : bool) (note : string) (e : Explanation) : Explanation :=
  if test then AddNote note e else e.

(** The explanation after the scan, and its two evidence notes. *)
Definition scan_explanation (prepared : PreparedRequest) (candidate_count : N) (scan : Scan)
    : Explanation :=
  let policy := rq_policy (pr_request prepared) in
  let legal_count := size (sc_legal scan) in
  let e := mkExplanation (Truncated (sc_exclusions scan)) candidate_count legal_count
    (candidate_count - legal_count) (sc_unknown scan)
    (size (sorted_unique_ids (sc_domains scan))) [] (Summaries (sc_exclusions scan)) [] [] [] in
  let e := note_if (negb (pr_evidence_trusted prepared) && pr_evidence_bundle_present prepared)
    ("supplied evidence bundle is not bound to the expected evidence generation and was " ++
     "treated as untrusted") e in
  note_if (bool_decide (on_missing (pol_evidence policy) = EvidencePolicyMode.kRankWorst) &&
           pr_congestion_objective_used prepared && negb (pr_evidence_bundle_present prepared))
    "congestion evidence is absent; ranking keys are UNKNOWN" e.

(** ** The empty legal set *)

(** [all_x = !summaries.empty()], then [all_x = all_x && f(reason)]. *)
Definition all_reasons (f : ExclusionReason → bool) (summaries : list ExclusionSummary) : bool :=
  negb (list_empty summaries) && forallb (λ s, f (sum_reason s)) summaries.

Definition classify_empty (exclusions : ExclusionRecorder) (candidate_count : N)
    (summaries : list ExclusionSummary) : Outcome * StatusCode * string :=
  if candidate_count =? 0 then
    (Outcome.kNoLegalPath, StatusCode.kNotFound,
     "the authorized candidate set is empty"%string)
  else if Count ExclusionReason.kPathAuthorityStale exclusions =? candidate_count then
    (Outcome.kStaleInput, StatusCode.kStaleAuthorityGeneration,
     "no candidate carries the expected path authority generation"%string)
  else if all_reasons IsStalenessReason summaries ||
          ReasonIsOnly ExclusionReason.kEvidenceStale exclusions then
    (Outcome.kStaleInput, StatusCode.kStaleEvidence,
     "every candidate was excluded by stale evidence"%string)
  else if all_reasons IsPolicyReason summaries then
    (Outcome.kPolicyRejected, StatusCode.kPolicyRejectedAllPaths,
     "policy excluded every candidate that is still authorized"%string)
  else if all_reasons IsServiceReason summaries then
    (Outcome.kNoLegalPath, StatusCode.kServiceClassUnsatisfied,
     "no candidate satisfies the service-class requirements of this flow"%string)
  else if all_reasons IsCapacityReason summaries then
    if ReasonIsOnly ExclusionReason.kCapacityUnknown exclusions then
      (Outcome.kInsufficientCapacity, StatusCode.kNotFound,
       "capacity evidence is absent for every candidate; absence is not capacity"%string)
    else
      (Outcome.kInsufficientCapacity, StatusCode.kCapacityInsufficient,
       "no candidate reports sufficient residual capacity"%string)
  else if all_reasons IsQosReason summaries then
    (Outcome.kNoLegalPath, StatusCode.kLatencyBudgetUnmet,
     "no candidate meets the latency budget"%string)
  else
    (Outcome.kNoLegalPath, StatusCode.kNotFound,
     "no candidate is legal; independent hard constraints removed every candidate"%string).

(** The first summary with the greatest count. *)
Definition dominant_summary (summaries : list ExclusionSummary) : option ExclusionSummary :=
  fold_left (λ dominant summary,
    match dominant with
    | None => Some summary
    | Some d => if sum_count d <? sum_count summary then Some summary else Some d
    end) summaries None.

Definition place_empty (authority : AuthorityVector) (delta : IncumbentDelta)
    (exclusions : ExclusionRecorder) (e : Explanation) : PlacementDecision :=
  let '(outcome, code, note) :=
    classify_empty exclusions (ex_candidate_count e) (ex_exclusions e) in
  let e := AddNote note e in
  let e :=
    match dominant_summary (ex_exclusions e) with
    | Some dominant =>
        let reason := sum_reason dominant in
        AddBinding reason (FirstPath reason exclusions) (FirstRequired reason exclusions)
          (FirstAvailable reason exclusions)
          ("excluded=" ++ to_string (sum_count dominant) ++ " of " ++
           to_string (ex_candidate_count e)) e
    | None => e
    end in
  conclude outcome code authority delta Status_Ok e.

(** ** Diversity *)

Definition diversity_unmet (policy : PlacementPolicy) (e : Explanation) : bool :=
  negb (min_distinct_domains (pol_failure_domains policy) =? 0) &&
  (ex_distinct_failure_domains e <? min_distinct_domains (pol_failure_domains policy)).

Definition place_undiverse (authority : AuthorityVector) (delta : IncumbentDelta)
    (policy : PlacementPolicy) (e : Explanation) : PlacementDecision :=
  let minimum := min_distinct_domains (pol_failure_domains policy) in
  let distinct := ex_distinct_failure_domains e in
  let e := AddNote ("legal candidates span " ++ to_string distinct ++
                    " distinct failure domains but the policy requires " ++
                    to_string minimum) e in
  let e := AddBinding ExclusionReason.kForbiddenFailureDomain 0 minimum distinct
             "diversity requirement" e in
  conclude Outcome.kNoLegalPath StatusCode.kFailureDomainDiversityUnmet authority delta
    Status_Ok e.

(** ** Ranking *)

Definition ranked_candidate (i : nat) (entry : RankEntry) : RankedCandidate :=
  mkRanked (path_id (rk_path entry)) (path_authority (rk_path entry))
    (wrap 32 (N.of_nat i)) (rk_is_incumbent entry) (rk_keys entry).

(** The bounded prefix of the ranking, best first. *)
Definition explain_ranking (limits : Limits) (legal : list RankEntry) (e : Explanation)
    : Explanation :=
  let explained := N.to_nat (N.min (size legal) (max_ranked_explained limits)) in
  let e := ex_with_ranked (imap ranked_candidate (take explained legal)) e in
  if (explained <? length legal)%nat then ex_with_truncated true e else e.

(** ** Churn *)

(** The index of the first entry on [path], or the length of the list. *)
Fixpoint index_of_path (path : N) (legal : list RankEntry) : nat :=
  match legal with
  | [] => 0
  | entry :: legal' =>
      if path_id (rk_path entry) =? path then 0 else S (index_of_path path legal')
  end.

Definition no_path : CandidatePath :=
  mkPath 0 0 (mkAttributes PathTier.kStandard 0 LocalityScope.kNode 0 0 0 0 [] []).

Definition no_entry : RankEntry := mkRankEntry no_path None false 0 false false false false [].

(** [legal[i]] and [keys[i]]; out of range is undefined behaviour in the source
    and a default here. *)
Definition entry_at (legal : list RankEntry) (i : nat) : RankEntry := nth i legal no_entry.
Definition key_at (entry : RankEntry) (i : N) : ObjectiveValue :=
  nth (N.to_nat i) (rk_keys entry) no_value.

(** By how much [best] improves on [current]; 0 when either is UNKNOWN. *)
Definition improvement (best current : ObjectiveValue) : N :=
  if val_known best && val_known current then
    if bool_decide (val_direction best = Direction.kMinimize) then
      if val_value best <? val_value current then val_value current - val_value best else 0
    else
      if val_value current <? val_value best then val_value best - val_value current else 0
  else 0.

(** The chosen index, and the explanation of the choice. *)
Definition choose_index (prepared : PreparedRequest) (legal : list RankEntry) (e : Explanation)
    : nat * Explanation :=
  let churn := pol_churn (rq_policy (pr_request prepared)) in
  match rq_incumbent (pr_request prepared) with
  | None => (0%nat, AddDegradation DegradationFlag.kNoIncumbent e)
  | Some incumbent =>
      if negb (pr_incumbent_eligible prepared) then
        (0%nat, AddNote ("incumbent placement " ++ to_string (inc_id incumbent) ++
                         " is not eligible: stale authority generation or path no longer " ++
                         "authorized")
                  (AddDegradation DegradationFlag.kIncumbentStale e))
      else if prefer_incumbent churn then
        let incumbent_index := index_of_path (inc_path incumbent) legal in
        if negb (Nat.eqb incumbent_index 0) && (incumbent_index <? length legal)%nat then
          let best := key_at (entry_at legal 0) (threshold_objective_index churn) in
          let current :=
            key_at (entry_at legal incumbent_index) (threshold_objective_index churn) in
          let gain := improvement best current in
          if gain <=? move_improvement_threshold churn then
            (incumbent_index,
             AddNote ("churn suppressed: the best candidate improves the incumbent by " ++
                      to_string gain ++ " which does not exceed the move threshold " ++
                      to_string (move_improvement_threshold churn))
               (AddDegradation DegradationFlag.kChurnSuppressed e))
          else (0%nat, e)
        else (0%nat, e)
      else (0%nat, e)
  end.

Definition is_incumbent_path (request : PlacementRequest) (path : N) : bool :=
  match rq_incumbent request with Some incumbent => path =? inc_path incumbent | None => false end.

(** The policy defers the move to the chosen path. *)
Definition move_deferred (prepared : PreparedRequest) (legal : list RankEntry)
    (chosen_index : nat) : bool :=
  let churn := pol_churn (rq_policy (pr_request prepared)) in
  let chosen := path_id (rk_path (entry_at legal chosen_index)) in
  match rq_incumbent (pr_request prepared) with
  | Some incumbent =>
      negb (chosen =? inc_path incumbent) && prefer_incumbent churn &&
      bool_decide (on_move churn = ChurnAction.kDefer) &&
      negb (Nat.eqb (index_of_path (inc_path incumbent) legal) chosen_index)
  | None => false
  end.

Definition place_move_deferred (prepared : PreparedRequest) (authority : AuthorityVector)
    (e : Explanation) : PlacementDecision :=
  conclude Outcome.kDeferred StatusCode.kPolicyMoveSuppressed authority
    (if pr_incumbent_eligible prepared then IncumbentDelta.kMoved
     else IncumbentDelta.kReplacedStale) Status_Ok
    (AddNote "policy defers moves away from the incumbent; the flow remains unplaced" e).

(** ** The admission gate *)

Definition residual_of (chosen : RankEntry) : N := from_option cap_residual_bytes 0 (rk_capacity chosen).

Definition below_gate (policy : PlacementPolicy) (chosen : RankEntry) : bool :=
  let gate := min_residual_headroom_bytes (pol_admission policy) in
  negb (gate =? 0) && (residual_of chosen <? gate).

Definition gate_binding (policy : PlacementPolicy) (chosen : RankEntry) (e : Explanation)
    : Explanation :=
  AddBinding ExclusionReason.kCapacityInsufficient (path_id (rk_path chosen))
    (min_residual_headroom_bytes (pol_admission policy)) (residual_of chosen)
    "admission gate" e.

Definition place_gate_deferred (policy : PlacementPolicy) (authority : AuthorityVector)
    (delta : IncumbentDelta) (chosen : RankEntry) (e : Explanation) : PlacementDecision :=
  conclude Outcome.kDeferred StatusCode.kPolicyHeadroomGate authority delta Status_Ok
    (AddNote "residual capacity headroom is below the admission gate; the decision is deferred"
       (gate_binding policy chosen e)).

(** ** Degradation flags *)

Definition degrade_if (test : bool) (flag : DegradationFlag) (e : Explanation) : Explanation :=
  if test then AddDegradation flag e else e.

Definition gate_degradation (policy : PlacementPolicy) (chosen : RankEntry) (e : Explanation)
    : Explanation :=
  if below_gate policy chosen
  then gate_binding policy chosen (AddDegradation DegradationFlag.kHeadroomBelowComfort e)
  else e.

Definition relaxation_degradation (prepared : PreparedRequest) (chosen : RankEntry)
    (e : Explanation) : Explanation :=
  if rk_multiplier_relaxed chosen || rk_reservation_relaxed chosen then
    AddBinding ExclusionReason.kServiceHeadroomUnmet (path_id (rk_path chosen))
      (pr_required_headroom_bytes prepared) (residual_of chosen)
      "service-class headroom relaxed" (AddDegradation DegradationFlag.kServiceRelaxed e)
  else e.

Definition add_degradations (prepared : PreparedRequest) (chosen : RankEntry) (e : Explanation)
    : Explanation :=
  let policy := rq_policy (pr_request prepared) in
  let e := relaxation_degradation prepared chosen e in
  let e := degrade_if
    (is_unequal (preferred_locality (pol_locality policy))
       (attr_locality (path_attributes (rk_path chosen))))
    DegradationFlag.kLocalityPreferenceUnmet e in
  let e := degrade_if
    (negb (list_empty (pr_affinity_refs prepared)) &&
     negb (affinity_matched prepared (rk_path chosen)))
    DegradationFlag.kReservationPreferenceUnmet e in
  degrade_if (rk_has_unknown chosen) DegradationFlag.kEvidenceUnknown e.

(** ** The incumbent delta of a placement *)

Definition final_delta (prepared : PreparedRequest) (chosen : RankEntry) : IncumbentDelta :=
  match rq_incumbent (pr_request prepared) with
  | None => IncumbentDelta.kNoIncumbent
  | Some incumbent =>
      if path_id (rk_path chosen) =? inc_path incumbent then
        if pr_incumbent_eligible prepared then IncumbentDelta.kKept
        else IncumbentDelta.kReplacedStale
      else if pr_incumbent_eligible prepared then IncumbentDelta.kMoved
      else IncumbentDelta.kReplacedStale
  end.

(** A move away from an eligible incumbent is recorded as such. *)
Definition delta_degradation (delta : IncumbentDelta) (e : Explanation) : Explanation :=
  degrade_if (bool_decide (delta = IncumbentDelta.kMoved))
    DegradationFlag.kIncumbentSuperseded e.

(** ** The intent *)

(** The first reservation, in the supplied order, among the affinity
    references. *)
Definition affinity_reservation (prepared : PreparedRequest) (path : CandidatePath)
    : ReservationRef :=
  if affinity_required (pol_reservation_affinity (rq_policy (pr_request prepared))) ||
     negb (list_empty (pr_affinity_refs prepared)) then
    default ReservationRef_none
      (find (std_binary_search ReservationRef_ltb (pr_affinity_refs prepared))
         (attr_reservations (path_attributes path)))
  else ReservationRef_none.

Definition choose_reservation (prepared : PreparedRequest) (path : CandidatePath)
    : ReservationRef :=
  let by_affinity := affinity_reservation prepared path in
  match attr_reservations (path_attributes path) with
  | reservation :: reservations =>
      if negb (ReservationRef_valid by_affinity) &&
         reservation_required (pr_service prepared)
      then std_min_element ReservationRef_ltb reservation reservations
      else by_affinity
  | [] => by_affinity
  end.

(** [intent.digest = IntentDigest(intent);] *)
Definition intent_with_digest (i : PlacementIntent) : PlacementIntent :=
  mkIntent (int_flow i) (int_flow_generation i) (int_path i) (int_path_authority i)
    (int_candidate_set i) (int_candidate_set_generation i) (int_capacity i)
    (int_capacity_generation i) (int_policy i) (int_policy_generation i) (int_qos i)
    (int_qos_generation i) (int_evidence i) (int_evidence_generation i) (int_fabric_epoch i)
    (int_reservation i) (int_attempt i) (int_revalidate_after_nanos i) (IntentDigest i).

Definition build_intent (prepared : PreparedRequest) (path : CandidatePath) : PlacementIntent :=
  let request := pr_request prepared in
  let trusted := pr_evidence_trusted prepared in
  intent_with_digest
    (mkIntent (rq_flow request) (rq_flow_generation request) (path_id path)
       (path_authority path)
       (set_id (rq_candidates request)) (set_generation (rq_candidates request))
       (snap_id (rq_capacity request)) (snap_generation (rq_capacity request))
       (pol_id (rq_policy request)) (pol_generation (rq_policy request))
       (qos_id (rq_qos request)) (qos_generation (rq_qos request))
       (if trusted then bundle_id (rq_evidence request) else 0)
       (if trusted then bundle_generation (rq_evidence request) else 0)
       (exp_fabric_epoch (rq_expected request)) (choose_reservation prepared path)
       (rq_attempt request) (pol_revalidate_after_nanos (rq_policy request)) (mkDigest 0 0)).

(** ** [VerifyIntent]

    [None] when it returns true, the message it reports otherwise. *)

Definition verify_evidence (request : PlacementRequest) (intent : PlacementIntent)
    : option string :=
  if valid (int_evidence_generation intent) then
    if negb (int_evidence_generation intent =? bundle_generation (rq_evidence request)) then
      Some "intent references an evidence generation that is not the supplied one"%string
    else if negb (int_evidence intent =? bundle_id (rq_evidence request)) then
      Some "intent references an evidence bundle identity that is not the supplied one"%string
    else if negb (valid (exp_evidence (rq_expected request))) ||
            negb (int_evidence_generation intent =? exp_evidence (rq_expected request)) then
      Some "intent is bound to an evidence generation the request does not trust"%string
    else None
  else if valid (int_evidence intent) then
    Some "intent carries an evidence identity without an evidence generation"%string
  else None.

Definition verify_bindings (request : PlacementRequest) (intent : PlacementIntent)
    : option string :=
  if negb (int_flow intent =? rq_flow request) ||
     negb (int_flow_generation intent =? rq_flow_generation request) then
    Some "intent flow does not match the request"%string
  else if negb (int_path_authority intent =? exp_path_authority (rq_expected request)) then
    Some "intent path authority generation is not the expected authority generation"%string
  else if negb (int_candidate_set intent =? set_id (rq_candidates request)) ||
          negb (int_candidate_set_generation intent =?
                  set_generation (rq_candidates request)) then
    Some "intent is not bound to the request candidate set generation"%string
  else if negb (int_capacity intent =? snap_id (rq_capacity request)) ||
          negb (int_capacity_generation intent =? snap_generation (rq_capacity request)) then
    Some "intent is not bound to the request capacity snapshot generation"%string
  else if negb (int_policy intent =? pol_id (rq_policy request)) ||
          negb (int_policy_generation intent =? pol_generation (rq_policy request)) then
    Some "intent is not bound to the request policy generation"%string
  else if negb (int_qos intent =? qos_id (rq_qos request)) ||
          negb (int_qos_generation intent =? qos_generation (rq_qos request)) then
    Some "intent is not bound to the request qos generation"%string
  else if negb (int_fabric_epoch intent =? exp_fabric_epoch (rq_expected request)) then
    Some "intent is not bound to the expected fabric epoch"%string
  else verify_evidence request intent.

Definition verify_path (prepared : PreparedRequest) (intent : PlacementIntent)
    : option string :=
  match LookupById (pr_candidates_by_id prepared) path_id (int_path intent) with
  | None =>
      Some ("chosen path " ++ to_string (int_path intent) ++
            " is not a member of the authorized candidate set")%string
  | Some path =>
      if negb (path_authority path =? int_path_authority intent) then
        Some "chosen path authority generation does not match the intent"%string
      else
        let verdict := Evaluate prepared path in
        if negb (vd_legal verdict) then
          Some ("chosen path fails a hard constraint: " ++
                ExclusionReasonName (vd_reason verdict))%string
        else if ReservationRef_valid (int_reservation intent) &&
                negb (existsb (λ ref, ReservationRef_eqb ref (int_reservation intent))
                        (attr_reservations (path_attributes path))) then
          Some "intent references a reservation the chosen path does not carry"%string
        else None
  end.

Definition VerifyIntent (limits : Limits) (request : PlacementRequest)
    (intent : PlacementIntent) : option string :=
  if negb (status_ok (ValidateRequest request limits)) then Some "request is not valid"%string
  else
    match verify_bindings request intent with
    | Some message => Some message
    | None => verify_path (Prepare request limits) intent
    end.

(** ** The placement *)

Definition is_degraded (e : Explanation) : bool := existsb IsDegradingFlag (ex_degradations e).

(** The last part: self-verification, then the placed decision. *)
Definition place_verified (prepared : PreparedRequest) (authority : AuthorityVector)
    (delta : IncumbentDelta) (chosen : RankEntry) (e : Explanation) : PlacementDecision :=
  let intent := build_intent prepared (rk_path chosen) in
  match VerifyIntent (pr_limits prepared) (pr_request prepared) intent with
  | Some reason =>
      let rejected := Reject StatusCode.kInternalInvariantViolation
        ("placement self-verification failed: " ++ reason) in
      let r := dec_explanation rejected in
      with_digest (with_explanation
        (mkExplanation (ex_truncated r) (ex_candidate_count e) (ex_legal_candidate_count e)
           (ex_excluded_candidate_count e) (ex_unknown_evidence_count r)
           (ex_distinct_failure_domains r) (ex_ranked r) (ex_exclusions e)
           (ex_degradations r) (ex_binding r) (ex_notes r))
        (with_authority authority rejected))
  | None =>
      let e := AddBinding ExclusionReason.kCapacityInsufficient (path_id (rk_path chosen))
        (pr_required_headroom_bytes prepared) (residual_of chosen) "chosen path headroom" e in
      with_digest
        (mkDecision (if is_degraded e then Outcome.kPlacedDegraded else Outcome.kPlaced)
           StatusCode.kOk (Some intent) authority delta e (mkDigest 0 0) Status_Ok)
  end.

Definition place_chosen (prepared : PreparedRequest) (authority : AuthorityVector)
    (delta : IncumbentDelta) (chosen : RankEntry) (e : Explanation) : PlacementDecision :=
  let policy := rq_policy (pr_request prepared) in
  if below_gate policy chosen &&
     bool_decide (on_below (pol_admission policy) = GateAction.kDefer) then
    place_gate_deferred policy authority delta chosen e
  else
    let e := gate_degradation policy chosen e in
    let e := add_degradations prepared chosen e in
    let delta := final_delta prepared chosen in
    place_verified prepared authority delta chosen (delta_degradation delta e).

Definition place_ranked (prepared : PreparedRequest) (authority : AuthorityVector)
    (delta : IncumbentDelta) (unsorted : list RankEntry) (e : Explanation)
    : PlacementDecision :=
  let legal := std_sort RankLess unsorted in
  let e := explain_ranking (pr_limits prepared) legal e in
  let '(chosen_index, e) := choose_index prepared legal e in
  if move_deferred prepared legal chosen_index then place_move_deferred prepared authority e
  else place_chosen prepared authority delta (entry_at legal chosen_index) e.

(** What is left once the request is known to be current. *)
Definition place_prepared (prepared : PreparedRequest) (authority : AuthorityVector)
    : PlacementDecision :=
  let paths := set_paths (rq_candidates (pr_request prepared)) in
  let policy := rq_policy (pr_request prepared) in
  let delta := initial_delta prepared in
  let scan := scan_candidates prepared (pr_limits prepared) paths in
  let e := scan_explanation prepared (size paths) scan in
  if list_empty (sc_legal scan) then place_empty authority delta (sc_exclusions scan) e
  else if diversity_unmet policy e then place_undiverse authority delta policy e
  else place_ranked prepared authority delta (sc_legal scan) e.

Definition Place (limits : Limits) (request : PlacementRequest) : PlacementDecision :=
  let validation := ValidateRequest request limits in
  let authority := BuildAuthority request (rq_expected request) in
  if negb (status_ok validation) then
    with_digest (with_authority authority
      (Reject (status_code validation) (status_message validation)))
  else
    let e := mkExplanation false (size (set_paths (rq_candidates request))) 0 0 0 0
      [] [] [] [] [] in
    match first_stale request with
    | Some (code, message) =>
        conclude Outcome.kStaleInput code authority IncumbentDelta.kNoIncumbent
          (mkStatus code message) (AddNote message e)
    | None =>
        let prepared := Prepare request limits in
        if pr_headroom_requirement_overflow prepared then
          conclude Outcome.kConflictingInput StatusCode.kArithmeticOverflow authority
            IncumbentDelta.kNoIncumbent
            (mkStatus StatusCode.kArithmeticOverflow
               "service-class headroom requirement is not representable")
            (AddNote ("the service-class headroom requirement overflows 64-bit capacity " ++
                      "arithmetic") e)
        else place_prepared prepared authority
    end.
