(* ===== verification/ScanFacts.v ===== *)
(** * What the scan of the candidates leaves behind

    The loop of [Place] over the candidate paths, as lists: the legal entries,
    the unknown count and the domains are images of the legal paths, and the
    [ExclusionRecorder] holds, for every reason, the exact count, the lowest
    path ids and the amounts of the lowest one, whatever the order of the
    candidates. *)

From S2P Require Import Prelude StdAlgo Checked Status Model ModelDigest Validate Explain.
From S2P Require Import Evaluate Rank Exclusions Place.

(** ** The recorder as a function of what was added *)

(** One call of [Add]. *)
Record Excluded := mkExcluded { xc_verdict : CandidateVerdict; xc_path : N }.

Definition xc_reason (x : Excluded) : ExclusionReason := vd_reason (xc_verdict x).

Definition add_excluded (recorder : ExclusionRecorder) (x : Excluded) : ExclusionRecorder :=
  Add (xc_reason x) (xc_verdict x) (xc_path x) recorder.

Definition record_all (max_reasons max_samples : N) (l : list Excluded) : ExclusionRecorder :=
  fold_left add_excluded l (ExclusionRecorder_init max_reasons max_samples).

Definition of_reason (reason : ExclusionReason) (l : list Excluded) : list Excluded :=
  filter (λ x, xc_reason x = reason) l.

(** The exclusions with one reason, lowest path id first. *)
Definition ordered (reason : ExclusionReason) (l : list Excluded) : list Excluded :=
  std_sort (by_key xc_path) (of_reason reason l).

(** The entry a reason ends with. *)
Definition expected_entry (max_samples : N) (reason : ExclusionReason) (l : list Excluded)
    : option Entry :=
  match ordered reason l with
  | [] => None
  | x :: _ =>
      Some (mkEntry
        (mkSummary reason (size (of_reason reason l))
           (take (N.to_nat max_samples) (xc_path <$> ordered reason l)))
        (vd_required (xc_verdict x)) (vd_available (xc_verdict x)) (xc_path x))
  end.

Definition expected_truncated (max_samples : N) (l : list Excluded) : bool :=
  existsb (λ reason, max_samples <? size (of_reason reason l)) ExclusionReason_all.

(** *** The bounded sample *)

Lemma take_sort_insert_ge n x l :
  StronglySorted (not_after N.ltb) l →
  match last (take n l) with Some back => back ≤ x | None => True end →
  (n ≤ length l)%nat → take n (sort_insert N.ltb x l) = take n l.
Proof.
  intros Hs. revert n. induction Hs as [|y l Hl IH Hy]; intros n Hlast Hn.
  { destruct n; [done|cbn in Hn; lia]. }
  destruct n as [|n]; [done|]. cbn [sort_insert take] in *.
  assert (y ≤ x ∧ match last (take n l) with Some back => back ≤ x | None => True end)
    as [Hyx Hl'].
  { rewrite last_cons in Hlast. destruct (last (take n l)) as [back|] eqn:E; [|done].
    split; [|done]. rewrite Forall_forall in Hy.
    apply last_Some_elem_of in E. apply elem_of_take in E as (i & E & _).
    apply list_elem_of_lookup_2 in E. specialize (Hy _ E). unfold not_after in Hy.
    b2p. lia. }
  destruct (N.ltb_spec y x).
  - cbn [take]. f_equal. apply IH; [done|]. cbn in Hn. lia.
  - assert (x = y) as -> by lia. cbn [take]. f_equal.
    rewrite <-(IH n Hl') at 1 by (cbn in Hn; lia).
    destruct n; [done|]. destruct l as [|z l]; [cbn in Hn; lia|].
    cbn [sort_insert]. rewrite Forall_cons in Hy. destruct Hy as [Hz _]. unfold not_after in Hz.
    b2p. destruct (N.ltb_spec z y); [lia|done].
Qed.

Lemma take_sort_insert_lt m x l back :
  last (take (S m) l) = Some back → x < back → (S m ≤ length l)%nat →
  take (S m) (sort_insert N.ltb x l) = sort_insert N.ltb x (take m l).
Proof.
  revert m. induction l as [|y l IH]; intros m Hlast Hx Hn; [cbn in Hn; lia|].
  cbn [sort_insert]. destruct (N.ltb_spec y x) as [Hyx|Hxy].
  - destruct m as [|m]; [injection Hlast as <-; lia|].
    cbn [take sort_insert]. destruct (N.ltb_spec y x); [|lia].
    f_equal. cbn in Hn. apply IH; [|done|lia].
    destruct l as [|z l]; [cbn in Hn; lia|]. exact Hlast.
  - destruct m as [|m]; [done|]. cbn [take sort_insert].
    by destruct (N.ltb_spec y x); [lia|].
Qed.

Lemma sort_snoc l x : std_sort N.ltb (l ++ [x]) = sort_insert N.ltb x (std_sort N.ltb l).
Proof.
  change (sort_insert N.ltb x (std_sort N.ltb l)) with (std_sort N.ltb (x :: l)).
  apply (std_sort_total_perm N.ltb). by rewrite Permutation_app_comm.
Qed.

Lemma sort_sorted l : std_sort N.ltb (std_sort N.ltb l) = std_sort N.ltb l.
Proof. apply (std_sort_total_perm N.ltb), std_sort_perm. Qed.

(** [add_sample] keeps the lowest [max_samples] ids, and reports truncation when
    the ids no longer fit. *)
Lemma add_sample_lowest k ids x :
  add_sample k (take (N.to_nat k) (std_sort N.ltb ids)) x =
  (take (N.to_nat k) (std_sort N.ltb (ids ++ [x])), k <=? size ids).
Proof.
  unfold add_sample. rewrite (sort_snoc ids).
  pose proof (std_sort_sorted N.ltb ids) as Hs. set (l := std_sort N.ltb ids) in *.
  assert (std_sort N.ltb l = l) as Hl by apply sort_sorted.
  assert (length l = length ids) as Hlen by (unfold l; by rewrite (std_sort_perm N.ltb)).
  unfold size. rewrite length_take, <-Hlen.
  destruct (N.ltb_spec (N.of_nat (Nat.min (N.to_nat k) (length l))) k) as [Hlt|Hge].
  - rewrite (take_ge l) by lia. rewrite (take_ge (sort_insert _ _ _)).
    + rewrite sort_snoc, Hl. f_equal.
      symmetry. apply N.leb_gt. lia.
    + rewrite (sort_insert_perm N.ltb). cbn. lia.
  - assert ((k <=? N.of_nat (length l)) = true) as -> by (apply N.leb_le; lia).
    destruct (N.to_nat k) as [|m] eqn:Ek; [done|].
    assert (Hm : (S m ≤ length l)%nat) by lia.
    destruct (last (take (S m) l)) as [back|] eqn:Eb.
    + destruct (N.ltb_spec x back) as [Hxb|Hxb].
      * unfold replace_last. rewrite length_take, (Nat.min_l (S m)) by lia.
        replace (S m - 1)%nat with m by lia. rewrite take_take, Nat.min_l by lia.
        rewrite sort_snoc, (take_sort_insert_lt m x l back) by done. do 2 f_equal.
        rewrite <-(std_sort_sorted_id N.ltb (take m l)); [|by apply (StronglySorted_app_1_l _ _ (drop m l)); rewrite take_drop].
        by rewrite sort_sorted.
      * by rewrite take_sort_insert_ge; rewrite ?Eb.
    + by rewrite take_sort_insert_ge; rewrite ?Eb.
Qed.

(** *** Every reason's entry *)

Lemma reasons_size (m : gmap ExclusionReason Entry) : (base.size m ≤ 18)%nat.
Proof.
  rewrite <-size_dom. trans (base.size (list_to_set ExclusionReason_all : gset ExclusionReason)).
  - apply subseteq_size. intros reason _. apply elem_of_list_to_set, ExclusionReason_all_elem.
  - rewrite size_list_to_set; [done|]. by apply (bool_decide_unpack _).
Qed.

Lemma reasons_room (m : gmap ExclusionReason Entry) reason :
  m !! reason = None → N.of_nat (base.size m) < 18.
Proof.
  intros Hm. pose proof (reasons_size (<[reason := mkEntry (mkSummary reason 0 []) 0 0 0]> m)) as H.
  rewrite map_size_insert_None in H by done. lia.
Qed.

Lemma of_reason_snoc reason l x :
  of_reason reason (l ++ [x]) =
  of_reason reason l ++ (if decide (xc_reason x = reason) then [x] else []).
Proof.
  unfold of_reason. rewrite filter_app, filter_cons, filter_nil. done.
Qed.

Lemma ordered_snoc l x :
  NoDup (xc_path <$> l ++ [x]) →
  ordered (xc_reason x) (l ++ [x]) =
  sort_insert (by_key xc_path) x (ordered (xc_reason x) l).
Proof.
  intros Hnd. unfold ordered.
  change (sort_insert (by_key xc_path) x (std_sort (by_key xc_path) (of_reason (xc_reason x) l)))
    with (std_sort (by_key xc_path) (x :: of_reason (xc_reason x) l)).
  apply sort_by_key_perm.
  - eapply sublist_NoDup; [done|]. apply fmap_sublist, sublist_filter.
  - rewrite of_reason_snoc, decide_True by done. by rewrite Permutation_app_comm.
Qed.

Lemma ordered_paths reason l :
  xc_path <$> ordered reason l = std_sort N.ltb (xc_path <$> of_reason reason l).
Proof. apply fmap_std_sort_key. Qed.

Lemma ordered_nil reason l : ordered reason l = [] ↔ of_reason reason l = [].
Proof.
  unfold ordered. rewrite <-!list_empty_nil. by rewrite list_empty_sort.
Qed.

Lemma expected_entry_other k l x reason :
  reason ≠ xc_reason x → expected_entry k reason (l ++ [x]) = expected_entry k reason l.
Proof.
  intros Hne. unfold expected_entry, ordered. rewrite of_reason_snoc, decide_False by done.
  by rewrite app_nil_r.
Qed.

Lemma expected_truncated_snoc k l x :
  expected_truncated k (l ++ [x]) =
  expected_truncated k l || (k <=? size (of_reason (xc_reason x) l)).
Proof.
  apply eq_true_iff_eq. unfold expected_truncated.
  rewrite orb_true_iff, !existsb_exists_elem, N.leb_le. setoid_rewrite N.ltb_lt.
  setoid_rewrite of_reason_snoc. split.
  - intros (reason & Hr & H). case_decide as E; autorewrite with size in H.
    + subst. destruct (N.le_gt_cases k (size (of_reason (xc_reason x) l))); [by right|lia].
    + left. exists reason. split; [done|lia].
  - intros [(reason & Hr & H)|H].
    + exists reason. split; [done|]. rewrite size_app. lia.
    + exists (xc_reason x). split; [apply ExclusionReason_all_elem|].
      rewrite decide_True by done. autorewrite with size. lia.
Qed.

Section Record.
Context (max_reasons k : N) (Hmax : 18 ≤ max_reasons).

Lemma entry_for_summary R v p l :
  en_summary (entry_for R v p (expected_entry k R l)) =
  mkSummary R (size (of_reason R l))
    (take (N.to_nat k) (std_sort N.ltb (xc_path <$> of_reason R l))).
Proof.
  rewrite <-ordered_paths. unfold expected_entry.
  destruct (ordered R l) as [|y ys] eqn:Eo; cbn [entry_for].
  - apply ordered_nil in Eo. rewrite Eo. cbn. by rewrite take_nil.
  - by case_match.
Qed.

Lemma ordered_elem R l y : y ∈ ordered R l → y ∈ l.
Proof. unfold ordered. rewrite std_sort_perm. by intros [_ ?]%list_elem_of_filter. Qed.

(** One call of [Add] on the entry of its own reason. *)
Lemma expected_entry_snoc l x :
  NoDup (xc_path <$> l ++ [x]) →
  expected_entry k (xc_reason x) (l ++ [x]) =
  let entry :=
    entry_for (xc_reason x) (xc_verdict x) (xc_path x) (expected_entry k (xc_reason x) l) in
  let summary := en_summary entry in
  Some (mkEntry
    (mkSummary (sum_reason summary) (sum_count summary + 1)
       (add_sample k (sum_sample summary) (xc_path x)).1)
    (en_required entry) (en_available entry) (en_example entry)).
Proof.
  intros Hnd. cbv zeta. rewrite entry_for_summary. cbn [sum_reason sum_count sum_sample].
  rewrite add_sample_lowest. unfold expected_entry at 1.
  rewrite ordered_paths, of_reason_snoc, decide_True, fmap_app, size_app by done.
  rewrite ordered_snoc by done. cbn [fmap list_fmap fst size length].
  unfold expected_entry. destruct (ordered (xc_reason x) l) as [|y ys] eqn:Eo; [done|].
  assert (xc_path x ≠ xc_path y) as Hne.
  { intros He. rewrite fmap_app in Hnd. apply NoDup_app in Hnd as (_ & Hdis & _).
    apply (Hdis (xc_path y)); [|rewrite <-He; left].
    apply list_elem_of_fmap_2, (ordered_elem (xc_reason x)). rewrite Eo. left. }
  cbn [sort_insert entry_for en_example]. unfold by_key at 1.
  by destruct (N.ltb_spec (xc_path y) (xc_path x)), (N.ltb_spec (xc_path x) (xc_path y)); try lia.
Qed.

Lemma record_all_spec l :
  NoDup (xc_path <$> l) →
  let recorder := record_all max_reasons k l in
  (∀ reason, er_entries recorder !! reason = expected_entry k reason l) ∧
  er_max_reasons recorder = max_reasons ∧ er_max_samples recorder = k ∧
  er_truncated recorder = expected_truncated k l.
Proof.
  induction l as [|x l IH] using rev_ind; intros Hnd.
  { cbv zeta. split_and!; [intros reason; apply lookup_empty|done|done|].
    symmetry. apply existsb_false_Forall, Forall_forall. intros reason _.
    apply N.ltb_ge, N.le_0_l. }
  destruct IH as (He & Hr & Hs & Ht).
  { rewrite fmap_app in Hnd. by apply NoDup_app in Hnd as (? & _ & _). }
  unfold record_all. rewrite fold_left_app. cbn [fold_left].
  fold (record_all max_reasons k l). set (recorder := record_all max_reasons k l) in *.
  unfold add_excluded, Add. rewrite He, Hr, Hs.
  assert (match expected_entry k (xc_reason x) l with Some _ => false
          | None => max_reasons <=? N.of_nat (base.size (er_entries recorder)) end = false) as ->.
  { destruct (expected_entry k (xc_reason x) l) eqn:E; [done|]. apply N.leb_gt.
    pose proof (reasons_room (er_entries recorder) (xc_reason x)) as Hroom.
    rewrite He in Hroom. specialize (Hroom E). lia. }
  pose proof (expected_entry_snoc l x Hnd) as Hsnoc. cbv zeta in Hsnoc.
  set (entry := entry_for _ _ _ _) in *.
  assert ((add_sample k (sum_sample (en_summary entry)) (xc_path x)).2 =
          (k <=? size (of_reason (xc_reason x) l))) as Htrunc.
  { unfold entry. rewrite entry_for_summary. cbn [sum_sample].
    rewrite add_sample_lowest. unfold size. by rewrite length_fmap. }
  destruct (add_sample k _ _) as [sample truncates].
  cbn [er_entries er_max_reasons er_max_samples er_truncated fst snd] in *.
  split_and!; [|done|done|].
  - intros reason. destruct (decide (reason = xc_reason x)) as [->|Hne].
    + by rewrite lookup_insert_eq, Hsnoc.
    + rewrite lookup_insert_ne by done. rewrite He. by rewrite expected_entry_other.
  - by rewrite expected_truncated_snoc, Ht, Htrunc.
Qed.
End Record.

(** *** The order of the exclusions does not matter *)

Lemma of_reason_perm reason l l' : l ≡ₚ l' → of_reason reason l ≡ₚ of_reason reason l'.
Proof. intros Hp. unfold of_reason. by rewrite Hp. Qed.

Lemma of_reason_NoDup reason l : NoDup (xc_path <$> l) → NoDup (xc_path <$> of_reason reason l).
Proof. intros Hnd. eapply sublist_NoDup; [done|]. apply fmap_sublist, sublist_filter. Qed.

Lemma expected_entry_perm k reason l l' :
  NoDup (xc_path <$> l) → l ≡ₚ l' → expected_entry k reason l = expected_entry k reason l'.
Proof.
  intros Hnd Hp. unfold expected_entry.
  assert (ordered reason l = ordered reason l') as ->.
  { apply sort_by_key_perm; [by apply of_reason_NoDup|by apply of_reason_perm]. }
  by rewrite (size_perm _ _ (of_reason_perm reason l l' Hp)).
Qed.

Lemma expected_truncated_perm k l l' :
  l ≡ₚ l' → expected_truncated k l = expected_truncated k l'.
Proof.
  intros Hp. apply eq_true_iff_eq. unfold expected_truncated. rewrite !existsb_exists_elem.
  by setoid_rewrite (size_perm _ _ (of_reason_perm _ l l' Hp)).
Qed.

Lemma record_all_perm max_reasons k l l' :
  18 ≤ max_reasons → NoDup (xc_path <$> l) → l ≡ₚ l' →
  record_all max_reasons k l = record_all max_reasons k l'.
Proof.
  intros Hmax Hnd Hp. assert (NoDup (xc_path <$> l')) as Hnd' by by rewrite <-Hp.
  destruct (record_all_spec max_reasons k Hmax l Hnd) as (He & Hr & Hs & Ht).
  destruct (record_all_spec max_reasons k Hmax l' Hnd') as (He' & Hr' & Hs' & Ht').
  destruct (record_all max_reasons k l) as [m a b t], (record_all max_reasons k l') as [m' a' b' t'].
  cbn [er_entries er_max_reasons er_max_samples er_truncated] in *. f_equal; [|congruence..|].
  - apply map_eq. intros reason. rewrite He, He'. by apply expected_entry_perm.
  - rewrite Ht, Ht'. by apply expected_truncated_perm.
Qed.

(** ** The loop over the candidates *)

Definition entry_of (prepared : PreparedRequest) (p : CandidatePath) : RankEntry :=
  BuildRankEntry prepared (Evaluate prepared p) p.

Definition is_legal (prepared : PreparedRequest) (p : CandidatePath) : bool :=
  vd_legal (Evaluate prepared p).

Definition legal_of (prepared : PreparedRequest) (paths : list CandidatePath)
    : list CandidatePath :=
  filter (λ p, is_legal prepared p = true) paths.

Definition excluded_of (prepared : PreparedRequest) (paths : list CandidatePath)
    : list Excluded :=
  (λ p, mkExcluded (Evaluate prepared p) (path_id p)) <$>
    filter (λ p, is_legal prepared p = false) paths.

Definition path_domain (p : CandidatePath) : N := attr_failure_domain (path_attributes p).

Lemma filter_snoc {A} (f : A → bool) (b : bool) l x :
  filter (λ y, f y = b) (l ++ [x]) =
  filter (λ y, f y = b) l ++ (if Bool.eqb (f x) b then [x] else []).
Proof.
  rewrite filter_app, filter_cons, filter_nil. f_equal.
  by destruct (f x), b; case_decide.
Qed.

Lemma scan_candidates_spec prepared limits paths :
  let legal := legal_of prepared paths in
  scan_candidates prepared limits paths =
  mkScan
    (record_all (max_exclusion_reasons limits) (max_exclusion_samples limits)
       (excluded_of prepared paths))
    (entry_of prepared <$> legal)
    (size (filter (λ p, rk_has_unknown (entry_of prepared p) = true) legal))
    (filter (λ d, valid d = true) (path_domain <$> legal)).
Proof.
  cbv zeta. unfold scan_candidates. induction paths as [|p paths IH] using rev_ind; [done|].
  rewrite fold_left_app, IH. cbn [fold_left]. unfold scan_candidate.
  cbn [sc_exclusions sc_legal sc_unknown sc_domains]. cbv zeta.
  change (BuildRankEntry prepared (Evaluate prepared p) p) with (entry_of prepared p).
  change (attr_failure_domain (path_attributes p)) with (path_domain p).
  unfold legal_of, excluded_of, record_all.
  rewrite !(filter_snoc (is_legal prepared)). fold (is_legal prepared p).
  destruct (is_legal prepared p) eqn:E; cbn [negb Bool.eqb]; rewrite ?app_nil_r; [|].
  - rewrite !fmap_app. cbn [fmap list_fmap].
    rewrite (filter_snoc (λ p, rk_has_unknown (entry_of prepared p))).
    rewrite (filter_snoc valid), size_app.
    cbv beta. f_equal.
    + destruct (rk_has_unknown (entry_of prepared p)); [done|]. by rewrite (N.add_0_r _ : _ + size (@nil CandidatePath) = _).
    + destruct (valid (path_domain p)); [done|]. by rewrite app_nil_r.
  - by rewrite fmap_app, fold_left_app.
Qed.

Lemma excluded_of_paths prepared paths :
  xc_path <$> excluded_of prepared paths =
  path_id <$> filter (λ p, is_legal prepared p = false) paths.
Proof. unfold excluded_of. by rewrite <-list_fmap_compose. Qed.

Lemma filter_NoDup_ids (P : CandidatePath → Prop) `{!∀ p, Decision (P p)} paths :
  NoDup (path_id <$> paths) → NoDup (path_id <$> filter P paths).
Proof. intros Hnd. eapply sublist_NoDup; [done|]. apply fmap_sublist, sublist_filter. Qed.

Lemma excluded_of_NoDup prepared paths :
  NoDup (path_id <$> paths) → NoDup (xc_path <$> excluded_of prepared paths).
Proof. rewrite excluded_of_paths. by apply filter_NoDup_ids. Qed.

Lemma legal_of_elem prepared paths p :
  p ∈ legal_of prepared paths ↔ p ∈ paths ∧ is_legal prepared p = true.
Proof. unfold legal_of. rewrite list_elem_of_filter. tauto. Qed.

Lemma entry_of_path prepared p : rk_path (entry_of prepared p) = p.
Proof. done. Qed.

Lemma legal_entries_directions prepared paths :
  Forall (λ e, directions_of e = objective_directions prepared) (entry_of prepared <$> paths).
Proof.
  apply Forall_fmap, Forall_forall. intros p _. apply BuildRankEntry_directions.
Qed.

Lemma counts_partition prepared paths :
  size (legal_of prepared paths) + size (excluded_of prepared paths) = size paths.
Proof.
  unfold excluded_of, legal_of, size. rewrite length_fmap.
  induction paths as [|p paths IH]; [done|]. rewrite !filter_cons.
  destruct (is_legal prepared p).
  - rewrite decide_True, decide_False by done. cbn [length]. lia.
  - rewrite decide_False, decide_True by done. cbn [length]. lia.
Qed.
