(* ===== verification/PlaceCases.v ===== *)
(** * The ways a placement ends

    [place_case] lists the results of [Place] with the conditions each one
    occurs under, stated on the request; [Place_cases] proves the list complete.
    The properties of the engine are read off it by inversion. *)

From Stdlib Require Import String.
From S2P Require Import Prelude StdAlgo Checked Status Hash Model ModelDigest Validate Explain.
From S2P Require Import Evaluate Rank Exclusions Place ScanFacts.

(** Every generation of the request is the one it declares to expect. *)
Definition current (r : PlacementRequest) : Prop :=
  set_generation (rq_candidates r) = exp_candidate_set (rq_expected r) ∧
  snap_generation (rq_capacity r) = exp_capacity (rq_expected r) ∧
  pol_generation (rq_policy r) = exp_policy (rq_expected r) ∧
  qos_generation (rq_qos r) = exp_qos (rq_expected r).

(** The legal candidates, in the supplied order and ranked. *)
Definition legal_candidates (limits : Limits) (r : PlacementRequest) : list CandidatePath :=
  legal_of (Prepare r limits) (set_paths (rq_candidates r)).

Definition legal_entries (limits : Limits) (r : PlacementRequest) : list RankEntry :=
  entry_of (Prepare r limits) <$> legal_candidates limits r.

Definition ranking (limits : Limits) (r : PlacementRequest) : list RankEntry :=
  std_sort RankLess (legal_entries limits r).

Definition scanned (limits : Limits) (r : PlacementRequest) : Scan :=
  scan_candidates (Prepare r limits) limits (set_paths (rq_candidates r)).

Definition scanned_explanation (limits : Limits) (r : PlacementRequest) : Explanation :=
  scan_explanation (Prepare r limits) (size (set_paths (rq_candidates r))) (scanned limits r).

Definition chosen_index (limits : Limits) (r : PlacementRequest) : nat * Explanation :=
  choose_index (Prepare r limits) (ranking limits r)
    (explain_ranking limits (ranking limits r) (scanned_explanation limits r)).

Definition chosen (limits : Limits) (r : PlacementRequest) : RankEntry :=
  entry_at (ranking limits r) (chosen_index limits r).1.

(** The explanation of a placement, before its last binding. *)
Definition placed_explanation (limits : Limits) (r : PlacementRequest) : Explanation :=
  let prepared := Prepare r limits in
  let c := chosen limits r in
  delta_degradation (final_delta prepared c)
    (add_degradations prepared c
       (gate_degradation (rq_policy r) c (chosen_index limits r).2)).

Definition last_binding (limits : Limits) (r : PlacementRequest) (e : Explanation) : Explanation :=
  AddBinding ExclusionReason.kCapacityInsufficient (path_id (rk_path (chosen limits r)))
    (pr_required_headroom_bytes (Prepare r limits)) (residual_of (chosen limits r))
    "chosen path headroom" e.

(** The legal candidates span the failure domains the policy requires. *)
Definition diverse (limits : Limits) (r : PlacementRequest) : Prop :=
  min_distinct_domains (pol_failure_domains (rq_policy r)) ≤
    N.of_nat (base.size (spanned_domains (legal_candidates limits r))).

(** The policy sends the move to the chosen path away. *)
Definition defers_move (limits : Limits) (r : PlacementRequest) : Prop :=
  match rq_incumbent r with
  | Some incumbent =>
      path_id (rk_path (chosen limits r)) ≠ inc_path incumbent ∧
      on_move (pol_churn (rq_policy r)) = ChurnAction.kDefer
  | None => False
  end.

(** The residual capacity of the chosen path is below the admission gate. *)
Definition under_gate (limits : Limits) (r : PlacementRequest) : Prop :=
  residual_of (chosen limits r) < min_residual_headroom_bytes (pol_admission (rq_policy r)).

Inductive place_case (limits : Limits) (r : PlacementRequest) : PlacementDecision → Prop :=
  | case_invalid :
      ¬ well_formed r limits →
      let validation := ValidateRequest r limits in
      place_case limits r
        (with_digest (with_authority (BuildAuthority r (rq_expected r))
           (Reject (status_code validation) (status_message validation))))
  | case_stale code message :
      well_formed r limits → ¬ current r → first_stale r = Some (code, message) →
      place_case limits r
        (conclude Outcome.kStaleInput code (BuildAuthority r (rq_expected r))
           IncumbentDelta.kNoIncumbent (mkStatus code message)
           (AddNote message (mkExplanation false (size (set_paths (rq_candidates r)))
                               0 0 0 0 [] [] [] [] [])))
  | case_empty :
      well_formed r limits → current r → legal_candidates limits r = [] →
      place_case limits r
        (place_empty (BuildAuthority r (rq_expected r)) (initial_delta (Prepare r limits))
           (sc_exclusions (scanned limits r)) (scanned_explanation limits r))
  | case_undiverse :
      well_formed r limits → current r → legal_candidates limits r ≠ [] →
      ¬ diverse limits r →
      place_case limits r
        (place_undiverse (BuildAuthority r (rq_expected r)) (initial_delta (Prepare r limits))
           (rq_policy r) (scanned_explanation limits r))
  | case_move_deferred :
      well_formed r limits → current r → legal_candidates limits r ≠ [] → diverse limits r →
      defers_move limits r →
      place_case limits r
        (place_move_deferred (Prepare r limits) (BuildAuthority r (rq_expected r))
           (chosen_index limits r).2)
  | case_gate_deferred :
      well_formed r limits → current r → legal_candidates limits r ≠ [] → diverse limits r →
      ¬ defers_move limits r → under_gate limits r →
      on_below (pol_admission (rq_policy r)) = GateAction.kDefer →
      place_case limits r
        (place_gate_deferred (rq_policy r) (BuildAuthority r (rq_expected r))
           (initial_delta (Prepare r limits)) (chosen limits r) (chosen_index limits r).2)
  | case_placed p :
      well_formed r limits → current r → diverse limits r → ¬ defers_move limits r →
      (under_gate limits r → on_below (pol_admission (rq_policy r)) ≠ GateAction.kDefer) →
      p ∈ legal_candidates limits r → chosen limits r = entry_of (Prepare r limits) p →
      let e := last_binding limits r (placed_explanation limits r) in
      place_case limits r
        (with_digest
           (mkDecision (if is_degraded e then Outcome.kPlacedDegraded else Outcome.kPlaced)
              StatusCode.kOk (Some (build_intent (Prepare r limits) p))
              (BuildAuthority r (rq_expected r)) (final_delta (Prepare r limits) (chosen limits r))
              e (mkDigest 0 0) Status_Ok)).

(** ** Staleness *)

Lemma first_stale_None r : first_stale r = None ↔ current r.
Proof.
  unfold first_stale, stale_checks, current. cbn [find fst snd].
  repeat match goal with |- context [?a =? ?b] => destruct (N.eqb_spec a b); cbn [negb fmap option_fmap option_map] end;
    split; (done || tauto).
Qed.

Lemma first_stale_Some r code message :
  first_stale r = Some (code, message) →
  ¬ current r ∧ code ∈ [StatusCode.kStaleCandidateSet; StatusCode.kStaleCapacitySnapshot;
                         StatusCode.kStalePolicy; StatusCode.kStaleQos].
Proof.
  intros H. split; [rewrite <-first_stale_None; congruence|]. revert H.
  unfold first_stale, stale_checks. cbn [find fst snd].
  repeat case_match; simplify_eq/=; intros; simplify_eq; set_solver.
Qed.

(** ** The scan of a well-formed request *)

Lemma scanned_legal limits r : sc_legal (scanned limits r) = legal_entries limits r.
Proof. unfold scanned. by rewrite scan_candidates_spec. Qed.

Lemma legal_entries_nil limits r : legal_entries limits r = [] ↔ legal_candidates limits r = [].
Proof. unfold legal_entries. by destruct (legal_candidates limits r). Qed.

Lemma ranking_elem limits r e :
  e ∈ ranking limits r ↔ e ∈ legal_entries limits r.
Proof. apply (sort_RankLess_elem (objective_directions (Prepare r limits))), legal_entries_directions. Qed.

Lemma ranking_length limits r : length (ranking limits r) = length (legal_candidates limits r).
Proof.
  unfold ranking.
  rewrite (sort_RankLess (objective_directions (Prepare r limits))) by apply legal_entries_directions.
  rewrite std_sort_perm. unfold legal_entries. by rewrite length_fmap.
Qed.

(** ** What the explanation helpers leave alone *)

Ltac explanation_field :=
  intros; unfold note_if, degrade_if, AddNote, AddDegradation, AddBinding;
  repeat case_match; reflexivity.

Lemma scanned_explanation_counts limits r :
  let e := scanned_explanation limits r in
  ex_candidate_count e = size (set_paths (rq_candidates r)) ∧
  ex_legal_candidate_count e = size (legal_candidates limits r) ∧
  ex_excluded_candidate_count e =
    size (set_paths (rq_candidates r)) - size (legal_candidates limits r) ∧
  ex_distinct_failure_domains e =
    N.of_nat (base.size (spanned_domains (legal_candidates limits r))) ∧
  ex_exclusions e = Summaries (sc_exclusions (scanned limits r)).
Proof.
  cbv zeta. unfold scanned_explanation, scan_explanation, scanned.
  rewrite scan_candidates_spec. cbn [sc_legal sc_exclusions sc_unknown sc_domains].
  rewrite <-candidate_domains_size. unfold note_if, AddNote, legal_candidates, candidate_domains.
  assert (size (entry_of (Prepare r limits) <$>
            legal_of (Prepare r limits) (set_paths (rq_candidates r))) =
          size (legal_of (Prepare r limits) (set_paths (rq_candidates r)))) as ->
    by (unfold size; by rewrite length_fmap).
  repeat case_match; done.
Qed.

Lemma diversity_unmet_spec limits r :
  diversity_unmet (rq_policy r) (scanned_explanation limits r) = false ↔ diverse limits r.
Proof.
  unfold diversity_unmet, diverse.
  destruct (scanned_explanation_counts limits r) as (_ & _ & _ & -> & _).
  rewrite andb_false_iff. b2p. lia.
Qed.

(** ** The chosen entry *)

Lemma choose_index_lt prepared legal e :
  legal ≠ [] → ((choose_index prepared legal e).1 < length legal)%nat.
Proof.
  intros Hl. assert (0 < length legal)%nat by (destruct legal; [done|cbn; lia]).
  unfold choose_index. repeat case_match; cbn [fst]; try done.
  match goal with H : _ && (_ <? _)%nat = true |- _ => apply andb_true_iff in H as [_ H] end.
  by apply Nat.ltb_lt.
Qed.

Lemma index_of_path_entry path l :
  (index_of_path path l < length l)%nat →
  path_id (rk_path (entry_at l (index_of_path path l))) = path.
Proof.
  induction l as [|e l IH]; cbn; [lia|].
  destruct (N.eqb_spec (path_id (rk_path e)) path); [done|]. intros Hlt. apply IH. lia.
Qed.

Lemma index_of_path_elem path l e :
  e ∈ l → path_id (rk_path e) = path → (index_of_path path l < length l)%nat.
Proof.
  intros He Hp. induction l as [|f l IH]; [by apply elem_of_nil in He|]. cbn.
  destruct (N.eqb_spec (path_id (rk_path f)) path); [lia|].
  apply elem_of_cons in He as [->|He]; [done|]. specialize (IH He). lia.
Qed.

(** The incumbent is kept against the best candidate. *)
Definition retains (prepared : PreparedRequest) (legal : list RankEntry) (i : nat) : Prop :=
  let churn := pol_churn (rq_policy (pr_request prepared)) in
  ∃ incumbent, rq_incumbent (pr_request prepared) = Some incumbent ∧
    pr_incumbent_eligible prepared = true ∧ prefer_incumbent churn = true ∧
    i = index_of_path (inc_path incumbent) legal ∧ i ≠ 0%nat ∧ (i < length legal)%nat ∧
    improvement (key_at (entry_at legal 0) (threshold_objective_index churn))
                (key_at (entry_at legal i) (threshold_objective_index churn))
      ≤ move_improvement_threshold churn.

Lemma choose_index_retains prepared legal e :
  ((choose_index prepared legal e).1 = 0%nat ∧ ∀ i, ¬ retains prepared legal i) ∨
  retains prepared legal (choose_index prepared legal e).1.
Proof.
  unfold choose_index, retains.
  destruct (rq_incumbent (pr_request prepared)) as [incumbent|]; [|by left; split; [|intros ? (?&?&?)]].
  destruct (pr_incumbent_eligible prepared); cbn [negb];
    [|by left; split; [|intros ? (?&?&?&?)]].
  destruct (prefer_incumbent _); [|by left; split; [|intros ? (?&?&?&?&?)]].
  set (i := index_of_path (inc_path incumbent) legal).
  destruct (negb (Nat.eqb i 0) && (i <? length legal)%nat) eqn:Ei.
  - apply andb_true_iff in Ei as [Ei0%negb_true_iff%Nat.eqb_neq Eil%Nat.ltb_lt].
    destruct (N.leb_spec (improvement (key_at (entry_at legal 0) (threshold_objective_index
      (pol_churn (rq_policy (pr_request prepared))))) (key_at (entry_at legal i)
      (threshold_objective_index (pol_churn (rq_policy (pr_request prepared))))))
      (move_improvement_threshold (pol_churn (rq_policy (pr_request prepared))))).
    + right. by exists incumbent.
    + left. split; [done|]. intros j (inc & [= <-] & _ & _ & -> & _ & _ & Hle). unfold i in *. lia.
  - left. split; [done|]. intros j (inc & [= <-] & _ & _ & -> & Hj & Hlt & _).
    apply andb_false_iff in Ei as [Ei|Ei].
    + by apply negb_false_iff, Nat.eqb_eq in Ei.
    + by apply Nat.ltb_ge in Ei; unfold i in *; lia.
Qed.

Lemma chosen_elem limits r :
  legal_candidates limits r ≠ [] →
  ∃ p, p ∈ legal_candidates limits r ∧ chosen limits r = entry_of (Prepare r limits) p.
Proof.
  intros Hl. assert (chosen limits r ∈ ranking limits r) as Hc.
  { unfold chosen, entry_at. apply list_elem_of_In, nth_In. apply choose_index_lt.
    intros Hn. apply Hl. apply length_zero_iff_nil. by rewrite <-ranking_length, Hn. }
  rewrite ranking_elem in Hc. unfold legal_entries in Hc.
  apply list_elem_of_fmap in Hc as (p & Hp & Hin). by exists p.
Qed.

Lemma legal_candidates_elem limits r p :
  well_formed r limits →
  p ∈ legal_candidates limits r ↔ p ∈ set_paths (rq_candidates r) ∧ legal_path r p.
Proof.
  intros Hwf. unfold legal_candidates. rewrite legal_of_elem.
  unfold is_legal. by rewrite (Evaluate_legal r limits Hwf).
Qed.

(** ** Self-verification *)

Lemma choose_reservation_carried prepared p :
  ReservationRef_valid (choose_reservation prepared p) = true →
  choose_reservation prepared p ∈ attr_reservations (path_attributes p).
Proof.
  assert (ReservationRef_valid (affinity_reservation prepared p) = true →
          affinity_reservation prepared p ∈ attr_reservations (path_attributes p)) as Haff.
  { unfold affinity_reservation. case_match; [|done].
    destruct (find _ _) as [ref|] eqn:E; [|done].
    intros _. by apply find_Some_elem in E as [? _]. }
  unfold choose_reservation. destruct (attr_reservations _) as [|ref refs] eqn:E; [done|].
  case_match; [|done]. intros _. apply (min_element_spec ReservationRef_ltb ref refs).
Qed.

Lemma legal_path_authority r p :
  legal_path r p → path_authority p = exp_path_authority (rq_expected r).
Proof.
  intros H. specialize (H ExclusionReason.kPathAuthorityStale). cbn in H. by apply dec_stable.
Qed.

Lemma verify_evidence_built r limits p :
  verify_evidence r (build_intent (Prepare r limits) p) = None.
Proof.
  unfold verify_evidence. cbn [build_intent intent_with_digest int_evidence_generation int_evidence].
  cbn [Prepare pr_request]. destruct (pr_evidence_trusted (Prepare r limits)) eqn:E; [|done].
  apply evidence_trusted_spec in E as [Hv He].
  cbn [Prepare pr_evidence_trusted]. rewrite (proj2 (valid_true _)) by done.
  rewrite !N.eqb_refl. cbn [negb]. rewrite <-He, (proj2 (valid_true _)), N.eqb_refl by done. done.
Qed.

Lemma verify_bindings_built r limits p :
  legal_path r p → verify_bindings r (build_intent (Prepare r limits) p) = None.
Proof.
  intros Hp. unfold verify_bindings. rewrite verify_evidence_built.
  cbn [build_intent intent_with_digest int_flow int_flow_generation int_path_authority
       int_candidate_set int_candidate_set_generation int_capacity int_capacity_generation
       int_policy int_policy_generation int_qos int_qos_generation int_fabric_epoch
       Prepare pr_request].
  by rewrite (legal_path_authority r p Hp), !N.eqb_refl.
Qed.

Lemma candidate_lookup r limits p :
  well_formed r limits → p ∈ set_paths (rq_candidates r) →
  LookupById (pr_candidates_by_id (Prepare r limits)) path_id (path_id p) = Some p.
Proof.
  intros Hwf Hp. apply lookup_key_sort; [|done]. apply (wf_candidates _ _ Hwf).
Qed.

Lemma VerifyIntent_built r limits p :
  well_formed r limits → p ∈ legal_candidates limits r →
  VerifyIntent limits r (build_intent (Prepare r limits) p) = None.
Proof.
  intros Hwf Hp. pose proof Hp as [Hin Hlegal]%legal_candidates_elem; [|done].
  unfold VerifyIntent. rewrite (proj2 (ValidateRequest_ok r limits) Hwf). cbn [negb].
  rewrite verify_bindings_built by done. unfold verify_path.
  change (int_path (build_intent (Prepare r limits) p)) with (path_id p).
  change (int_path_authority (build_intent (Prepare r limits) p)) with (path_authority p).
  change (int_reservation (build_intent (Prepare r limits) p))
    with (choose_reservation (Prepare r limits) p).
  rewrite candidate_lookup, N.eqb_refl by done. cbn [negb].
  rewrite (proj2 (Evaluate_legal r limits Hwf p) Hlegal). cbn [negb].
  destruct (ReservationRef_valid _) eqn:E; [|done]. cbn [andb].
  apply choose_reservation_carried in E.
  assert (existsb (λ ref, ReservationRef_eqb ref (choose_reservation (Prepare r limits) p))
            (attr_reservations (path_attributes p)) = true) as ->; [|done].
  apply existsb_exists_elem. eexists. split; [exact E|]. by apply ReservationRef_eqb_eq.
Qed.

(** ** The list is complete *)

Lemma move_deferred_spec limits r :
  well_formed r limits → legal_candidates limits r ≠ [] →
  move_deferred (Prepare r limits) (ranking limits r) (chosen_index limits r).1 = true ↔
  defers_move limits r.
Proof.
  intros Hwf Hl. unfold move_deferred, defers_move. fold (chosen limits r).
  cbn [Prepare pr_request]. destruct (rq_incumbent r) as [incumbent|]; [|done].
  change (entry_at (ranking limits r) (chosen_index limits r).1) with (chosen limits r).
  rewrite !andb_true_iff, !negb_true_iff, N.eqb_neq, bool_decide_eq_true, Nat.eqb_neq.
  destruct (wf_policy _ _ Hwf) as (_&_&_&_&_&_&_&_&_&_&_&_&_&Hdefer&_).
  split; [tauto|]. intros [Hne Hmove]. split_and!; [done|by apply Hdefer|done|].
  intros Hi. apply Hne. unfold chosen. rewrite <-Hi. apply index_of_path_entry.
  rewrite Hi. apply choose_index_lt.
  intros Hn. apply Hl, length_zero_iff_nil. by rewrite <-ranking_length, Hn.
Qed.

Lemma below_gate_spec limits r :
  below_gate (rq_policy r) (chosen limits r) = true ↔ under_gate limits r.
Proof. unfold below_gate, under_gate. b2p. lia. Qed.

Lemma place_verified_ok limits r delta p e :
  well_formed r limits → p ∈ legal_candidates limits r →
  chosen limits r = entry_of (Prepare r limits) p →
  let e' := last_binding limits r e in
  place_verified (Prepare r limits) (BuildAuthority r (rq_expected r)) delta (chosen limits r) e =
  with_digest
    (mkDecision (if is_degraded e' then Outcome.kPlacedDegraded else Outcome.kPlaced)
       StatusCode.kOk (Some (build_intent (Prepare r limits) p))
       (BuildAuthority r (rq_expected r)) delta e' (mkDigest 0 0) Status_Ok).
Proof.
  intros Hwf Hp Hc. cbv zeta. unfold place_verified, last_binding. rewrite Hc.
  rewrite entry_of_path. change (pr_limits (Prepare r limits)) with limits.
  change (pr_request (Prepare r limits)) with r. by rewrite VerifyIntent_built.
Qed.

Lemma place_prepared_cases limits r :
  well_formed r limits → current r →
  place_case limits r (place_prepared (Prepare r limits) (BuildAuthority r (rq_expected r))).
Proof.
  intros Hwf Hcur. unfold place_prepared.
  change (pr_request (Prepare r limits)) with r. change (pr_limits (Prepare r limits)) with limits.
  cbv zeta. fold (scanned limits r). fold (scanned_explanation limits r).
  rewrite scanned_legal. destruct (list_empty (legal_entries limits r)) eqn:El.
  { apply list_empty_nil, legal_entries_nil in El. by apply case_empty. }
  assert (legal_candidates limits r ≠ []) as Hl.
  { rewrite <-legal_entries_nil, <-list_empty_nil. congruence. }
  destruct (diversity_unmet _ _) eqn:Ed.
  { apply case_undiverse; [done..|]. rewrite <-diversity_unmet_spec. congruence. }
  apply diversity_unmet_spec in Ed. unfold place_ranked. fold (ranking limits r).
  change (pr_limits (Prepare r limits)) with limits. fold (chosen_index limits r).
  destruct (chosen_index limits r) as [i e] eqn:Ei.
  pose proof (move_deferred_spec limits r Hwf Hl) as Hmove. rewrite Ei in Hmove. cbn [fst] in Hmove.
  assert (entry_at (ranking limits r) i = chosen limits r) as Hi by (unfold chosen; by rewrite Ei).
  replace e with (chosen_index limits r).2 by by rewrite Ei. rewrite Hi.
  destruct (move_deferred _ _ i); [apply case_move_deferred; by try apply Hmove|].
  assert (¬ defers_move limits r) as Hnomove by (rewrite <-Hmove; done).
  unfold place_chosen. change (pr_request (Prepare r limits)) with r.
  destruct (below_gate _ _ && bool_decide _) eqn:Eg.
  { apply andb_true_iff in Eg as [Eg Hgate%bool_decide_eq_true]. rewrite below_gate_spec in Eg.
    by apply case_gate_deferred. }
  destruct (chosen_elem limits r Hl) as (p & Hp & Hc).
  cbv zeta. rewrite (place_verified_ok limits r _ p) by done. apply case_placed; try done.
  intros Hu%below_gate_spec. rewrite Hu in Eg. by apply bool_decide_eq_false in Eg.
Qed.

Lemma Place_cases limits r : place_case limits r (Place limits r).
Proof.
  unfold Place. cbv zeta. destruct (status_ok (ValidateRequest r limits)) eqn:Ev; cbn [negb].
  - apply ValidateRequest_ok in Ev. destruct (first_stale r) as [[code message]|] eqn:Es.
    + apply case_stale; [done| |done]. by apply first_stale_Some in Es as [? _].
    + rewrite (proj2 (prepared_headroom r limits Ev)). apply place_prepared_cases; [done|].
      by apply first_stale_None.
  - apply case_invalid. rewrite <-ValidateRequest_ok. congruence.
Qed.

(** ** The best entry and the incumbent's *)

Lemma ranking_head limits r :
  legal_candidates limits r ≠ [] →
  ∃ p, p ∈ legal_candidates limits r ∧
    entry_at (ranking limits r) 0 = entry_of (Prepare r limits) p ∧
    ∀ q, q ∈ legal_candidates limits r →
      RankLess (entry_of (Prepare r limits) q) (entry_of (Prepare r limits) p) = false.
Proof.
  intros Hl. destruct (ranking limits r) as [|e l] eqn:E.
  { destruct Hl. apply length_zero_iff_nil. by rewrite <-ranking_length, E. }
  assert (e ∈ legal_entries limits r) as He by (rewrite <-ranking_elem, E; left).
  unfold legal_entries in He. apply list_elem_of_fmap in He as (p & -> & Hp).
  exists p. split_and!; [done|done|]. intros q Hq.
  eapply (sort_RankLess_best (objective_directions (Prepare r limits))
            (legal_entries limits r)); [apply legal_entries_directions|exact E|].
  by apply list_elem_of_fmap_2.
Qed.

Lemma same_path limits r p q :
  well_formed r limits → p ∈ legal_candidates limits r → q ∈ legal_candidates limits r →
  path_id p = path_id q → p = q.
Proof.
  intros Hwf Hp Hq. apply (NoDup_fmap_elem_inj path_id (set_paths (rq_candidates r))).
  - apply (wf_candidates _ _ Hwf).
  - by apply legal_candidates_elem in Hp as [? _].
  - by apply legal_candidates_elem in Hq as [? _].
Qed.

(** Two entries neither of which is better are of the same path. *)
Lemma RankLess_tie pr p q :
  RankLess (entry_of pr p) (entry_of pr q) = false →
  RankLess (entry_of pr q) (entry_of pr p) = false → path_id p = path_id q.
Proof.
  rewrite !(RankLess_order (objective_directions pr)) by apply BuildRankEntry_directions.
  apply (order_by_tie (objective_directions pr) (rank_key (entry_of pr p)) (rank_key (entry_of pr q))).
Qed.

Lemma incumbent_entry limits r path p :
  well_formed r limits → p ∈ legal_candidates limits r → path_id p = path →
  let i := index_of_path path (ranking limits r) in
  (i < length (ranking limits r))%nat ∧
  entry_at (ranking limits r) i = entry_of (Prepare r limits) p.
Proof.
  intros Hwf Hp Hpath. cbv zeta.
  assert ((index_of_path path (ranking limits r) < length (ranking limits r))%nat) as Hlt.
  { apply (index_of_path_elem _ _ (entry_of (Prepare r limits) p)); [|done].
    apply ranking_elem. by apply list_elem_of_fmap_2. }
  split; [done|]. pose proof (index_of_path_entry _ _ Hlt) as He.
  assert (entry_at (ranking limits r) (index_of_path path (ranking limits r)) ∈ ranking limits r) as Hin.
  { by apply list_elem_of_In, nth_In. }
  rewrite ranking_elem in Hin. apply list_elem_of_fmap in Hin as (q & Hq & Hqin).
  rewrite Hq in *. rewrite entry_of_path in He.
  f_equal. apply (same_path limits r); [done..|]. congruence.
Qed.

(** The eligibility of the incumbent, on the request. *)
Definition eligible_incumbent (r : PlacementRequest) (incumbent : IncumbentPlacement) : Prop :=
  inc_path_authority incumbent = exp_path_authority (rq_expected r) ∧
  inc_candidate_set_generation incumbent = exp_candidate_set (rq_expected r) ∧
  inc_capacity_generation incumbent = snap_generation (rq_capacity r) ∧
  inc_policy_generation incumbent = pol_generation (rq_policy r) ∧
  inc_qos_generation incumbent = qos_generation (rq_qos r) ∧
  inc_fabric_epoch incumbent = exp_fabric_epoch (rq_expected r) ∧
  inc_path incumbent ∈ path_id <$> set_paths (rq_candidates r).

Lemma incumbent_is_eligible_spec r limits incumbent :
  well_formed r limits → rq_incumbent r = Some incumbent →
  pr_incumbent_eligible (Prepare r limits) = true ↔ eligible_incumbent r incumbent.
Proof.
  intros Hwf Hi. cbn [Prepare pr_incumbent_eligible]. rewrite Hi.
  unfold incumbent_is_eligible, eligible_incumbent. rewrite !andb_true_iff, !N.eqb_eq.
  assert (match LookupById (SortPointersById (set_paths (rq_candidates r)) path_id) path_id
                  (inc_path incumbent) with Some _ => true | None => false end = true ↔
          inc_path incumbent ∈ path_id <$> set_paths (rq_candidates r)) as ->; [|tauto].
  unfold LookupById, SortPointersById. destruct (lookup_key _ _ _) as [p|] eqn:E.
  - apply lookup_key_Some in E as [Hp <-]. rewrite std_sort_perm in Hp.
    split; [intros _; by apply list_elem_of_fmap_2|done].
  - apply lookup_key_None in E; rewrite ?std_sort_perm in *; try done.
    + apply std_sort_sorted, _.
    + apply (wf_candidates _ _ Hwf).
Qed.

(** ** What a decision carries *)

(** One case per result of [Place]. *)
Ltac place_cases limits r :=
  destruct (Place_cases limits r)
    as [Hwf validation|code message Hwf Hcur Hs|Hwf Hcur Hl|Hwf Hcur Hl Hd|Hwf Hcur Hl Hd Hm
       |Hwf Hcur Hl Hd Hm Hg Hb|p Hwf Hcur Hd Hm Hg Hp Hc e].

Lemma place_empty_intent authority delta exclusions e :
  dec_intent (place_empty authority delta exclusions e) = None.
Proof. unfold place_empty. by destruct (classify_empty _ _ _) as [[outcome code] note]. Qed.

Lemma place_empty_outcome authority delta exclusions e :
  dec_outcome (place_empty authority delta exclusions e) ∈
    [Outcome.kNoLegalPath; Outcome.kInsufficientCapacity; Outcome.kPolicyRejected;
     Outcome.kStaleInput].
Proof.
  unfold place_empty. destruct (classify_empty _ _ _) as [[outcome code] note] eqn:E. cbn.
  unfold classify_empty in E. repeat case_match; simplify_eq; rewrite !elem_of_cons; tauto.
Qed.

Lemma OutcomeForValidationCode_cases c :
  OutcomeForValidationCode c = Outcome.kStaleInput ∨
  OutcomeForValidationCode c = Outcome.kConflictingInput.
Proof. destruct c; tauto. Qed.

(** The decisions that place are the ones with an intent, and the intent is a legal
    candidate's. *)
Lemma Place_intent limits r intent : dec_intent (Place limits r) = Some intent →
  ∃ p, p ∈ legal_candidates limits r ∧ intent = build_intent (Prepare r limits) p.
Proof.
  place_cases limits r; try done; [by rewrite place_empty_intent|]. intros [= <-]. by exists p.
Qed.

Lemma placed_intent limits r : placed (Place limits r) = true ↔ is_Some (dec_intent (Place limits r)).
Proof.
  place_cases limits r; try (split; (done || by intros [])).
  - subst validation. unfold placed. cbn.
    destruct (OutcomeForValidationCode_cases (status_code (ValidateRequest r limits))) as [-> | ->];
      (split; (done || by intros [])).
  - rewrite place_empty_intent. unfold placed.
    match goal with |- context [place_empty ?a ?b ?c ?d] =>
      pose proof (place_empty_outcome a b c d) as Ho end.
    rewrite !elem_of_cons, elem_of_nil in Ho.
    destruct Ho as [-> |[-> |[-> |[-> |[]]]]]; (split; (done || by intros [])).
  - cbn. unfold placed. cbn. destruct (is_degraded e); (split; (done || by eauto)).
Qed.

Lemma Place_verifies limits r intent : dec_intent (Place limits r) = Some intent →
  VerifyIntent limits r intent = None.
Proof.
  place_cases limits r; try done; [by rewrite place_empty_intent|]. intros [= <-].
  by apply VerifyIntent_built.
Qed.

(** What identifies an intent is the request's. *)
Lemma Place_intent_ids limits r intent : dec_intent (Place limits r) = Some intent →
  int_flow intent = rq_flow r ∧ int_attempt intent = rq_attempt r.
Proof. intros (p & _ & ->)%Place_intent. done. Qed.
