(* ===== verification/OrderFacts.v ===== *)
(** * The order of the request's collections

    A request carries unordered collections as vectors.  [with_collections]
    lists them anew; when each is a permutation of the original, validation,
    preparation, evaluation, ranking and hence the whole decision are the same.
    The labels inside each path may be listed anew as well, and its reservations
    where the policy names no affinity references: with them the reservation bound
    to the intent depends on the order ([reservation_order_matters]). *)

From Stdlib Require Import String.
From S2P Require Import Prelude StdAlgo Checked Status Hash Model ModelDigest Validate Explain.
From S2P Require Import Evaluate Rank Exclusions Place ScanFacts PlaceCases.

Record Collections := mkCollections {
  co_paths : list CandidatePath;
  co_capacity : list PathCapacity;
  co_evidence : list CongestionEvidenceEntry;
  co_occupied : list N;
  co_tiers : list PathTier;
  co_required_labels : list N;
  co_forbidden_labels : list N;
  co_localities : list N;
  co_domains : list N;
  co_refs : list ReservationRef;
}.

Definition collections_of (r : PlacementRequest) : Collections :=
  let policy := rq_policy r in
  mkCollections (set_paths (rq_candidates r)) (snap_entries (rq_capacity r))
    (bundle_entries (rq_evidence r)) (rq_occupied_failure_domains r)
    (pol_allowed_tiers policy) (pol_required_labels policy) (pol_forbidden_labels policy)
    (forbidden_localities (pol_locality policy)) (forbidden_domains (pol_failure_domains policy))
    (affinity_refs (pol_reservation_affinity policy)).

Definition policy_with_collections (c : Collections) (p : PlacementPolicy) : PlacementPolicy :=
  mkPolicy (pol_id p) (pol_generation p) (pol_objectives p) (co_tiers c)
    (co_required_labels c) (co_forbidden_labels c)
    (mkLocality (required_locality (pol_locality p)) (preferred_locality (pol_locality p))
       (co_localities c))
    (mkFailureDomains (required_domain (pol_failure_domains p)) (co_domains c)
       (avoid_occupied_domains (pol_failure_domains p))
       (min_distinct_domains (pol_failure_domains p)))
    (mkAffinity (affinity_required (pol_reservation_affinity p)) (co_refs c))
    (pol_admission p) (pol_service p) (pol_churn p) (pol_evidence p)
    (pol_revalidate_after_nanos p).

(** The request with its collections replaced. *)
Definition with_collections (c : Collections) (r : PlacementRequest) : PlacementRequest :=
  mkRequest (rq_flow r) (rq_flow_generation r)
    (mkCandidateSet (set_id (rq_candidates r)) (set_generation (rq_candidates r)) (co_paths c))
    (mkSnapshot (snap_id (rq_capacity r)) (snap_generation (rq_capacity r)) (co_capacity c))
    (rq_qos r) (policy_with_collections c (rq_policy r))
    (mkBundle (bundle_id (rq_evidence r)) (bundle_generation (rq_evidence r)) (co_evidence c))
    (rq_incumbent r) (co_occupied c) (rq_expected r) (rq_provenance r) (rq_attempt r).

Record collections_perm (c d : Collections) : Prop := {
  cp_paths : co_paths c ≡ₚ co_paths d;
  cp_capacity : co_capacity c ≡ₚ co_capacity d;
  cp_evidence : co_evidence c ≡ₚ co_evidence d;
  cp_occupied : co_occupied c ≡ₚ co_occupied d;
  cp_tiers : co_tiers c ≡ₚ co_tiers d;
  cp_required_labels : co_required_labels c ≡ₚ co_required_labels d;
  cp_forbidden_labels : co_forbidden_labels c ≡ₚ co_forbidden_labels d;
  cp_localities : co_localities c ≡ₚ co_localities d;
  cp_domains : co_domains c ≡ₚ co_domains d;
  cp_refs : co_refs c ≡ₚ co_refs d;
}.

(** The prepared request with another request behind it. *)
Definition set_request (r : PlacementRequest) (p : PreparedRequest) : PreparedRequest :=
  mkPrepared r (pr_limits p) (pr_service p) (pr_evidence_bundle_present p)
    (pr_evidence_trusted p) (pr_congestion_objective_used p) (pr_incumbent_present p)
    (pr_incumbent_eligible p) (pr_headroom_requirement_overflow p) (pr_required_base_bytes p)
    (pr_required_headroom_bytes p) (pr_candidates_by_id p) (pr_capacity_by_path p)
    (pr_evidence_by_path p) (pr_forbidden_localities p) (pr_forbidden_domains p)
    (pr_occupied_domains p) (pr_required_labels p) (pr_forbidden_labels p)
    (pr_affinity_refs p) (pr_allowed_tiers p).

(** ** Functions of the prepared request only *)

Section SetRequest.
Context (c : Collections) (pr : PreparedRequest).
Let pr' := set_request (with_collections c (pr_request pr)) pr.

Lemma Evaluate_set_request p : Evaluate pr' p = Evaluate pr p.
Proof. reflexivity. Qed.

Lemma entry_of_set_request p : entry_of pr' p = entry_of pr p.
Proof. reflexivity. Qed.

Lemma choose_index_set_request legal e : choose_index pr' legal e = choose_index pr legal e.
Proof. reflexivity. Qed.

Lemma build_intent_set_request p : build_intent pr' p = build_intent pr p.
Proof. reflexivity. Qed.

Lemma verify_path_set_request intent : verify_path pr' intent = verify_path pr intent.
Proof. reflexivity. Qed.

Lemma scan_explanation_set_request n scan :
  scan_explanation pr' n scan = scan_explanation pr n scan.
Proof. reflexivity. Qed.
End SetRequest.

(** ** Validation *)

Lemma spanned_domains_perm l k : l ≡ₚ k → spanned_domains l = spanned_domains k.
Proof.
  intros Hp. unfold spanned_domains. f_equal.
  apply set_eq. intros d. rewrite !elem_of_list_to_set. by rewrite Hp.
Qed.

Lemma perm_nil {A} (l k : list A) : l ≡ₚ k → l = [] ↔ k = [].
Proof.
  intros Hp. split; intros ->; [by apply Permutation_nil|].
  by apply Permutation_nil.
Qed.

Section Permuted.
Context (limits : Limits) (r : PlacementRequest) (c : Collections)
  (Hc : collections_perm (collections_of r) c).

Local Ltac fields := destruct Hc; cbn [collections_of co_paths co_capacity co_evidence
  co_occupied co_tiers co_required_labels co_forbidden_labels co_localities co_domains co_refs] in *.

Lemma enumerations_perm : enumerations_ok r → enumerations_ok (with_collections c r).
Proof. fields. unfold enumerations_ok. cbn. by rewrite cp_tiers0, cp_paths0. Qed.

Lemma bounds_perm : bounds_ok r limits → bounds_ok (with_collections c r) limits.
Proof.
  fields. unfold bounds_ok. cbn [with_collections policy_with_collections rq_candidates
    rq_capacity rq_evidence rq_policy rq_provenance rq_occupied_failure_domains set_paths
    snap_entries bundle_entries pol_objectives pol_allowed_tiers pol_required_labels
    pol_forbidden_labels pol_locality pol_failure_domains pol_reservation_affinity
    forbidden_localities forbidden_domains affinity_refs].
  rewrite !Forall_cons.
  by rewrite (size_perm _ _ cp_paths0), (size_perm _ _ cp_capacity0), (size_perm _ _ cp_evidence0),
    (size_perm _ _ cp_occupied0), (size_perm _ _ cp_tiers0), (size_perm _ _ cp_required_labels0),
    (size_perm _ _ cp_forbidden_labels0), (size_perm _ _ cp_localities0),
    (size_perm _ _ cp_domains0), (size_perm _ _ cp_refs0).
Qed.

Lemma candidates_perm : candidates_ok r limits → candidates_ok (with_collections c r) limits.
Proof. fields. unfold candidates_ok. cbn. by rewrite cp_paths0. Qed.

Lemma capacity_perm :
  capacity_and_evidence_ok r → capacity_and_evidence_ok (with_collections c r).
Proof. fields. unfold capacity_and_evidence_ok. cbn. by rewrite cp_capacity0, cp_evidence0. Qed.

Lemma policy_perm : policy_ok r → policy_ok (with_collections c r).
Proof.
  fields. unfold policy_ok.
  cbn [with_collections policy_with_collections rq_candidates rq_policy rq_qos set_paths
    pol_objectives pol_allowed_tiers pol_required_labels
    pol_forbidden_labels pol_locality pol_failure_domains pol_reservation_affinity
    pol_service pol_churn required_locality required_domain affinity_required
    min_distinct_domains forbidden_localities forbidden_domains affinity_refs].
  rewrite <-(spanned_domains_perm _ _ cp_paths0).
  intros (?&?&?&Hlabels&?&Hloc&?&Hdom&Hrefs&Hvalid&?&?&?&?&?&?&?).
  split_and!; try done.
  - by rewrite <-cp_required_labels0.
  - by rewrite <-cp_forbidden_labels0.
  - intros label. rewrite <-cp_required_labels0, <-cp_forbidden_labels0. apply Hlabels.
  - by rewrite <-cp_localities0.
  - destruct (required_locality _); [|done]. cbn in *. by rewrite <-cp_localities0.
  - by rewrite <-cp_domains0.
  - destruct (required_domain _); [|done]. cbn in *. by rewrite <-cp_domains0.
  - by rewrite <-(perm_nil _ _ cp_refs0).
  - by rewrite <-cp_refs0.
  - by rewrite <-cp_tiers0.
Qed.

Lemma well_formed_perm : well_formed r limits → well_formed (with_collections c r) limits.
Proof.
  intros []. split; [by apply enumerations_perm|done|by apply bounds_perm
    |by apply candidates_perm|by apply capacity_perm|by apply policy_perm].
Qed.

(** ** Preparation *)

Context (Hwf : well_formed r limits).

Lemma Prepare_perm :
  Prepare (with_collections c r) limits =
  set_request (with_collections c r) (Prepare r limits).
Proof.
  destruct (wf_candidates _ _ Hwf) as [_ Hpaths].
  destruct (wf_capacity_and_evidence _ _ Hwf) as (_ & Hcap & _ & Hev).
  destruct (wf_policy _ _ Hwf) as (_&_&_&_&_&_&_&_&_&_&_&_&_&_&Htiers&_).
  fields. unfold Prepare, SortPointersById, PathTier_ltb.
  cbn [with_collections policy_with_collections rq_candidates rq_policy rq_qos set_paths
    rq_capacity snap_entries rq_evidence bundle_entries rq_occupied_failure_domains rq_incumbent
    pol_objectives pol_allowed_tiers pol_required_labels
    pol_forbidden_labels pol_locality pol_failure_domains pol_reservation_affinity
    forbidden_localities forbidden_domains affinity_refs].
  rewrite <-(sort_by_key_perm path_id _ _ Hpaths cp_paths0),
    <-(sort_by_key_perm cap_path _ _ Hcap cp_capacity0),
    <-(sort_by_key_perm ev_path _ _ Hev cp_evidence0),
    <-(sort_by_key_perm PathTier_ordinal _ _ Htiers cp_tiers0),
    <-(std_sort_total_perm N.ltb _ _ cp_localities0),
    <-(std_sort_total_perm N.ltb _ _ cp_domains0),
    <-(std_sort_total_perm N.ltb _ _ cp_occupied0),
    <-(std_sort_total_perm N.ltb _ _ cp_required_labels0),
    <-(std_sort_total_perm N.ltb _ _ cp_forbidden_labels0),
    <-(std_sort_total_perm ReservationRef_ltb _ _ cp_refs0).
  reflexivity.
Qed.
End Permuted.

(** ** The decision *)

Section Decision.
Context (limits : Limits) (r : PlacementRequest) (c : Collections)
  (Hc : collections_perm (collections_of r) c) (Hwf : well_formed r limits)
  (Hreasons : 18 ≤ max_exclusion_reasons limits).
Let s := with_collections c r.

Lemma paths_perm : set_paths (rq_candidates r) ≡ₚ co_paths c.
Proof. apply Hc. Qed.

Lemma paths_NoDup : NoDup (path_id <$> set_paths (rq_candidates r)).
Proof. apply (wf_candidates _ _ Hwf). Qed.

Lemma legal_of_perm pr :
  legal_of pr (set_paths (rq_candidates r)) ≡ₚ legal_of pr (co_paths c).
Proof. unfold legal_of. by rewrite paths_perm. Qed.

Lemma excluded_of_perm pr :
  excluded_of pr (set_paths (rq_candidates r)) ≡ₚ excluded_of pr (co_paths c).
Proof. unfold excluded_of. by rewrite paths_perm. Qed.

(** The scan finds the same legal entries, in another order, and otherwise
    leaves the same state. *)
Lemma scan_perm pr :
  let scan := scan_candidates pr limits (set_paths (rq_candidates r)) in
  let scan' := scan_candidates pr limits (co_paths c) in
  sc_exclusions scan = sc_exclusions scan' ∧
  sc_legal scan ≡ₚ sc_legal scan' ∧
  sc_unknown scan = sc_unknown scan' ∧
  sorted_unique_ids (sc_domains scan) = sorted_unique_ids (sc_domains scan').
Proof.
  cbv zeta. rewrite !scan_candidates_spec. cbn [sc_exclusions sc_legal sc_unknown sc_domains].
  split_and!.
  - apply record_all_perm; [done|apply excluded_of_NoDup, paths_NoDup|apply excluded_of_perm].
  - by rewrite legal_of_perm.
  - apply size_perm. by rewrite legal_of_perm.
  - apply sorted_unique_ids_proper. intros d. by rewrite legal_of_perm.
Qed.

Lemma scan_explanation_perm pr n :
  scan_explanation pr n (scan_candidates pr limits (set_paths (rq_candidates r))) =
  scan_explanation pr n (scan_candidates pr limits (co_paths c)).
Proof.
  destruct (scan_perm pr) as (He & Hl & Hu & Hd). unfold scan_explanation.
  by rewrite He, Hu, Hd, (size_perm _ _ Hl).
Qed.

Lemma ranking_perm pr :
  std_sort RankLess (sc_legal (scan_candidates pr limits (set_paths (rq_candidates r)))) =
  std_sort RankLess (sc_legal (scan_candidates pr limits (co_paths c))).
Proof.
  apply (sort_RankLess_perm (objective_directions pr)).
  - rewrite scan_candidates_spec. apply legal_entries_directions.
  - rewrite scan_candidates_spec. cbn [sc_legal]. rewrite <-list_fmap_compose.
    apply filter_NoDup_ids, paths_NoDup.
  - apply scan_perm.
Qed.

Lemma VerifyIntent_perm intent :
  VerifyIntent limits s intent = VerifyIntent limits r intent.
Proof.
  unfold VerifyIntent, s. rewrite (Prepare_perm limits r c Hc Hwf).
  rewrite (proj2 (ValidateRequest_ok r limits) Hwf).
  rewrite (proj2 (ValidateRequest_ok _ limits) (well_formed_perm limits r c Hc Hwf)).
  change r with (pr_request (Prepare r limits)) at 2.
  rewrite verify_path_set_request. reflexivity.
Qed.

Lemma place_verified_perm authority delta e_chosen e :
  place_verified (set_request s (Prepare r limits)) authority delta e_chosen e =
  place_verified (Prepare r limits) authority delta e_chosen e.
Proof.
  unfold place_verified. cbn [set_request pr_limits pr_request].
  change (pr_limits (Prepare r limits)) with limits. change (pr_request (Prepare r limits)) with r.
  change (build_intent (set_request s (Prepare r limits)) (rk_path e_chosen))
    with (build_intent (Prepare r limits) (rk_path e_chosen)).
  rewrite VerifyIntent_perm. reflexivity.
Qed.

Lemma place_ranked_perm authority delta legal e :
  place_ranked (set_request s (Prepare r limits)) authority delta legal e =
  place_ranked (Prepare r limits) authority delta legal e.
Proof.
  unfold place_ranked, place_chosen.
  change (choose_index (set_request s (Prepare r limits)))
    with (choose_index (Prepare r limits)).
  cbn [set_request pr_limits]. destruct (choose_index _ _ _) as [i e'].
  cbv zeta. rewrite place_verified_perm. reflexivity.
Qed.

Lemma place_prepared_perm authority :
  place_prepared (set_request s (Prepare r limits)) authority =
  place_prepared (Prepare r limits) authority.
Proof.
  unfold place_prepared. cbn [set_request pr_limits pr_request].
  change (pr_limits (Prepare r limits)) with limits. change (pr_request (Prepare r limits)) with r.
  change (set_paths (rq_candidates s)) with (co_paths c).
  change (scan_candidates (set_request s (Prepare r limits)))
    with (scan_candidates (Prepare r limits)).
  change (scan_explanation (set_request s (Prepare r limits)))
    with (scan_explanation (Prepare r limits)).
  change (initial_delta (set_request s (Prepare r limits)))
    with (initial_delta (Prepare r limits)).
  cbv zeta. rewrite <-(size_perm _ _ paths_perm), <-scan_explanation_perm.
  rewrite place_ranked_perm.
  destruct (scan_perm (Prepare r limits)) as (He & Hl & _).
  assert (list_empty (sc_legal (scan_candidates (Prepare r limits) limits (co_paths c))) =
          list_empty (sc_legal (scan_candidates (Prepare r limits) limits
                                  (set_paths (rq_candidates r))))) as ->.
  { apply eq_true_iff_eq. rewrite !list_empty_nil. symmetry. by apply perm_nil. }
  rewrite <-He. unfold place_ranked. rewrite <-ranking_perm. reflexivity.
Qed.

Lemma Place_perm : Place limits s = Place limits r.
Proof.
  unfold Place. cbv zeta.
  rewrite (proj2 (ValidateRequest_ok r limits) Hwf). unfold s.
  rewrite (proj2 (ValidateRequest_ok _ limits) (well_formed_perm limits r c Hc Hwf)).
  cbn [negb]. change (first_stale (with_collections c r)) with (first_stale r).
  change (set_paths (rq_candidates (with_collections c r))) with (co_paths c).
  rewrite <-(size_perm _ _ paths_perm).
  destruct (first_stale r) as [[code message]|]; [reflexivity|].
  rewrite (Prepare_perm limits r c Hc Hwf). fold s. rewrite place_prepared_perm. reflexivity.
Qed.
End Decision.

(** ** The lists inside a path *)

Definition with_lists (labels : list N) (reservations : list ReservationRef)
    (p : CandidatePath) : CandidatePath :=
  let a := path_attributes p in
  mkPath (path_id p) (path_authority p)
    (mkAttributes (attr_tier a) (attr_locality a) (attr_locality_scope a)
       (attr_failure_domain a) (attr_cost_micro a) (attr_latency_nanos a) (attr_hop_count a)
       labels reservations).

(** The same path with its lists in another order: the labels in any, the reservations
    in another one only where there are no affinity references. *)
Inductive reordered (refs : list ReservationRef) (p : CandidatePath) : CandidatePath → Prop :=
  | Reordered labels reservations :
      attr_labels (path_attributes p) ≡ₚ labels →
      attr_reservations (path_attributes p) ≡ₚ reservations →
      refs = [] ∨ attr_reservations (path_attributes p) = reservations →
      reordered refs p (with_lists labels reservations p).

Definition request_with_paths (paths : list CandidatePath) (r : PlacementRequest) : PlacementRequest :=
  mkRequest (rq_flow r) (rq_flow_generation r)
    (mkCandidateSet (set_id (rq_candidates r)) (set_generation (rq_candidates r)) paths)
    (rq_capacity r) (rq_qos r) (rq_policy r) (rq_evidence r) (rq_incumbent r)
    (rq_occupied_failure_domains r) (rq_expected r) (rq_provenance r) (rq_attempt r).

Lemma reordered_refl refs p : reordered refs p p.
Proof.
  assert (p = with_lists (attr_labels (path_attributes p)) (attr_reservations (path_attributes p)) p)
    as E by by destruct p as [? ? []].
  rewrite E at 2. constructor; auto.
Qed.

Lemma reordered_id refs p q : reordered refs p q → path_id q = path_id p.
Proof. by intros []. Qed.

Lemma list_empty_perm {A} (l k : list A) : l ≡ₚ k → list_empty l = list_empty k.
Proof. intros H. apply eq_true_iff_eq. rewrite !list_empty_nil. by apply perm_nil. Qed.

(** *** Related lists *)

Section Related.
Context {A B : Type} (R : A → B → Prop).

Lemma Forall2_filter_test (f : A → bool) (g : B → bool) b l k :
  (∀ x y, R x y → f x = g y) → Forall2 R l k →
  Forall2 R (filter (λ x, f x = b) l) (filter (λ y, g y = b) k).
Proof.
  intros Hf. induction 1 as [|x y l k Hxy Hl IH]; [constructor|].
  rewrite !filter_cons, (Hf x y Hxy). case_decide; [by constructor|done].
Qed.

Lemma Forall2_fmap_eq {C} (f : A → C) (g : B → C) l k :
  (∀ x y, R x y → f x = g y) → Forall2 R l k → f <$> l = g <$> k.
Proof. intros Hf. induction 1 as [|x y l k Hxy Hl IH]; cbn; [done|]. by rewrite (Hf x y), IH. Qed.

Lemma Forall2_size l k : Forall2 R l k → size l = size k.
Proof. intros H. unfold size. by rewrite (Forall2_length _ _ _ H). Qed.

Context (less : A → A → bool) (less' : B → B → bool).

Lemma Forall2_sort_insert x y l k :
  (∀ x y x' y', R x x' → R y y' → less x y = less' x' y') → R x y → Forall2 R l k →
  Forall2 R (sort_insert less x l) (sort_insert less' y k).
Proof.
  intros Hless Hxy. induction 1 as [|a b l k Hab Hl IH]; cbn; [by repeat constructor|].
  rewrite (Hless a x b y Hab Hxy). destruct (less' b y); by repeat constructor.
Qed.

Lemma Forall2_std_sort l k :
  (∀ x y x' y', R x x' → R y y' → less x y = less' x' y') → Forall2 R l k →
  Forall2 R (std_sort less l) (std_sort less' k).
Proof.
  intros Hless. induction 1 as [|x y l k Hxy Hl IH]; cbn; [constructor|].
  by apply Forall2_sort_insert.
Qed.

Lemma Forall2_lookup_key (key : A → N) (key' : B → N) id l k :
  (∀ x y, R x y → key x = key' y) → Forall2 R l k →
  match lookup_key key l id, lookup_key key' k id with
  | Some x, Some y => R x y
  | None, None => True
  | _, _ => False
  end.
Proof.
  intros Hkey. unfold lookup_key. induction 1 as [|x y l k Hxy Hl IH]; cbn; [done|].
  rewrite (Hkey x y Hxy). destruct (key' y <? id); [exact IH|]. rewrite (Hkey x y Hxy). by destruct (key' y =? id).
Qed.
End Related.

(** The prepared request with other lists of paths. *)
Definition relist (paths ids : list CandidatePath) (p : PreparedRequest) : PreparedRequest :=
  mkPrepared (request_with_paths paths (pr_request p)) (pr_limits p) (pr_service p)
    (pr_evidence_bundle_present p) (pr_evidence_trusted p) (pr_congestion_objective_used p)
    (pr_incumbent_present p) (pr_incumbent_eligible p) (pr_headroom_requirement_overflow p)
    (pr_required_base_bytes p) (pr_required_headroom_bytes p) ids (pr_capacity_by_path p)
    (pr_evidence_by_path p) (pr_forbidden_localities p) (pr_forbidden_domains p)
    (pr_occupied_domains p) (pr_required_labels p) (pr_forbidden_labels p)
    (pr_affinity_refs p) (pr_allowed_tiers p).

(** *** One path *)

Section OnePath.
Context (refs : list ReservationRef) (paths ids : list CandidatePath) (pr : PreparedRequest).

Let pr' := relist paths ids pr.

Lemma affinity_matched_reordered p q :
  reordered refs p q → affinity_matched pr' q = affinity_matched pr p.
Proof. intros [labels reservations _ Hr _]. symmetry. by apply existsb_perm. Qed.

Lemma Evaluate_reordered p q : reordered refs p q → Evaluate pr' q = Evaluate pr p.
Proof.
  intros H. pose proof (affinity_matched_reordered p q H) as Ha.
  destruct H as [labels reservations Hl Hr _].
  pose proof (list_empty_perm _ _ Hr) as He.
  assert (SortedUnique labels = SortedUnique (attr_labels (path_attributes p))) as Hs.
  { unfold SortedUnique. by rewrite (std_sort_total_perm N.ltb _ _ Hl). }
  unfold Evaluate, EvaluateService. rewrite Ha. cbn [with_lists path_attributes attr_labels attr_reservations].
  rewrite Hs, <-He. reflexivity.
Qed.

(** The entry of the reordered path. *)
Definition entry_with (q : CandidatePath) (e : RankEntry) : RankEntry :=
  mkRankEntry q (rk_capacity e) (rk_evidence_known e) (rk_utilization_ppb e) (rk_is_incumbent e)
    (rk_multiplier_relaxed e) (rk_reservation_relaxed e) (rk_has_unknown e) (rk_keys e).

Definition entries_alike (e f : RankEntry) : Prop :=
  ∃ q, reordered refs (rk_path e) q ∧ f = entry_with q e.

Lemma entry_of_reordered p q :
  reordered refs p q → entries_alike (entry_of pr p) (entry_of pr' q).
Proof.
  intros H. exists q. split; [done|]. unfold entry_of. rewrite (Evaluate_reordered p q H).
  pose proof (affinity_matched_reordered p q H) as Ha.
  assert (∀ c k u i (l : list Objective), ObjectiveKey pr' q c k u i <$> l = ObjectiveKey pr p c k u i <$> l) as Hk.
  { intros c k u i l. apply list_fmap_ext. intros _ o _. unfold ObjectiveKey. rewrite Ha.
    by destruct H. }
  unfold BuildRankEntry. cbv zeta. rewrite (reordered_id _ _ _ H), Hk. reflexivity.
Qed.

Lemma choose_reservation_reordered p q :
  (refs = [] → pr_affinity_refs pr = []) → reordered refs p q →
  choose_reservation pr' q = choose_reservation pr p.
Proof.
  intros Hrefs [labels reservations _ Hr Ho].
  assert (affinity_reservation pr' (with_lists labels reservations p) = affinity_reservation pr p)
    as E.
  { destruct Ho as [Ho|<-]; [|reflexivity].
    assert (∀ l, find (std_binary_search ReservationRef_ltb (pr_affinity_refs pr)) l = None) as Hn
      by (intros l; rewrite (Hrefs Ho); induction l as [|x l IH]; [done|exact IH]).
    unfold affinity_reservation. cbn [with_lists path_attributes attr_reservations].
    change (pr_affinity_refs pr') with (pr_affinity_refs pr). by rewrite !Hn. }
  unfold choose_reservation. rewrite E. cbn [with_lists path_attributes attr_reservations].
  change (pr_service pr') with (pr_service pr).
  destruct Ho as [Ho|<-]; [|reflexivity].
  destruct (attr_reservations (path_attributes p)) as [|x l].
  { by apply Permutation_nil in Hr as ->. }
  destruct reservations as [|y k]; [by apply Permutation_sym, Permutation_nil in Hr|].
  destruct (_ && _); [|done]. symmetry. exact (min_element_perm ReservationRef_ltb _ _ _ _ Hr).
Qed.

Lemma build_intent_reordered p q :
  (refs = [] → pr_affinity_refs pr = []) → reordered refs p q →
  build_intent pr' q = build_intent pr p.
Proof.
  intros Hrefs H. pose proof (choose_reservation_reordered p q Hrefs H) as E.
  unfold build_intent. rewrite E. by destruct H.
Qed.
End OnePath.

(** *** The ranking of entries that are alike *)

Section Alike.
Context (refs : list ReservationRef).

Lemma alike_id e f : entries_alike refs e f → path_id (rk_path f) = path_id (rk_path e).
Proof. intros (q & H & ->). by eapply reordered_id. Qed.

Lemma alike_sort l k : Forall2 (entries_alike refs) l k →
  Forall2 (entries_alike refs) (std_sort RankLess l) (std_sort RankLess k).
Proof.
  apply Forall2_std_sort. intros e f e' f' He Hf. unfold RankLess.
  rewrite (alike_id _ _ He), (alike_id _ _ Hf).
  by destruct He as (q & _ & ->), Hf as (q' & _ & ->).
Qed.

Lemma alike_ranked i e f : entries_alike refs e f → ranked_candidate i f = ranked_candidate i e.
Proof. intros (q & H & ->). unfold ranked_candidate. by destruct H. Qed.

Lemma alike_entry l k i : Forall2 (entries_alike refs) l k →
  entries_alike refs (entry_at l i) (entry_at k i).
Proof.
  intros H. revert i. induction H as [|e f l k He Hl IH]; intros [|i]; cbn; try done;
    try (exists no_path; split; [apply reordered_refl|done]). apply IH.
Qed.

Lemma alike_index path l k : Forall2 (entries_alike refs) l k →
  index_of_path path k = index_of_path path l.
Proof. induction 1 as [|e f l k He Hl IH]; cbn; [done|]. by rewrite (alike_id _ _ He), IH. Qed.

Lemma alike_explained limits l k e : Forall2 (entries_alike refs) l k →
  explain_ranking limits k e = explain_ranking limits l e.
Proof.
  intros H. unfold explain_ranking. rewrite <-(Forall2_size _ _ _ H), <-(Forall2_length _ _ _ H).
  assert (∀ n, imap ranked_candidate (take n k) = imap ranked_candidate (take n l)) as ->; [|done].
  intros n. apply (Forall2_take _ _ _ n) in H. generalize ranked_candidate, alike_ranked.
  induction H as [|e' f l' k' He Hl IH]; intros rank Hrank; [done|].
  rewrite !imap_cons, (Hrank _ _ _ He). f_equal. apply IH. intros i. apply (Hrank (S i)).
Qed.
End Alike.

(** *** The decision *)

Section ReorderedPaths.
Context (limits : Limits) (r : PlacementRequest) (paths : list CandidatePath).
Let refs := affinity_refs (pol_reservation_affinity (rq_policy r)).
Context (Hpaths : Forall2 (reordered refs) (set_paths (rq_candidates r)) paths)
  (Hwf : well_formed r limits).
Let s := request_with_paths paths r.
Let pr := Prepare r limits.
Let ids := SortPointersById paths path_id.
Let pr' := relist paths ids pr.

Lemma candidate_ok_reordered p q : reordered refs p q → candidate_ok limits p → candidate_ok limits q.
Proof.
  intros [labels reservations Hl Hr _] (?&?&?&?&?&?&?). unfold candidate_ok.
  cbn [with_lists path_id path_authority path_attributes attr_labels attr_reservations].
  by rewrite <-(size_perm _ _ Hl), <-(size_perm _ _ Hr), <-Hl, <-Hr.
Qed.

Lemma paths_size : size (set_paths (rq_candidates r)) = size paths.
Proof. by apply (Forall2_size (reordered refs)). Qed.

Lemma paths_all (Q : CandidatePath → Prop) :
  (∀ p q, reordered refs p q → Q p → Q q) → Forall Q (set_paths (rq_candidates r)) → Forall Q paths.
Proof.
  intros HQ Hall. eapply Forall2_Forall_r; [exact Hpaths|]. eapply Forall_impl; [exact Hall|].
  intros p Hp q Hq. by eapply HQ.
Qed.

Lemma paths_same {A} (f : CandidatePath → A) :
  (∀ p q, reordered refs p q → f p = f q) → f <$> paths = f <$> set_paths (rq_candidates r).
Proof. intros Hf. symmetry. by eapply Forall2_fmap_eq. Qed.

Lemma paths_spanned : spanned_domains paths = spanned_domains (set_paths (rq_candidates r)).
Proof. unfold spanned_domains. rewrite paths_same; [done|]. by intros p q []. Qed.

Lemma well_formed_reordered : well_formed s limits.
Proof.
  destruct Hwf as [He Hg Hb [Hc Hn] Hce Hpol]. split; try done.
  - destruct He as (?&?&?&?&?&?&?&?&?&He). unfold enumerations_ok.
    cbn [s request_with_paths rq_policy rq_candidates rq_qos set_paths]. do 9 (split; [done|]).
    apply paths_all; [|exact He]. by intros p q [].
  - unfold bounds_ok in *. cbn [s request_with_paths rq_candidates set_paths]. by rewrite <-paths_size.
  - split; cbn [s request_with_paths rq_candidates set_paths].
    + apply paths_all; [|exact Hc]. intros p q. apply candidate_ok_reordered.
    + rewrite paths_same; [exact Hn|]. intros p q H. symmetry. by eapply reordered_id.
  - unfold policy_ok in *. cbn [s request_with_paths rq_candidates rq_policy rq_qos set_paths].
    by rewrite paths_spanned.
Qed.

Lemma ids_alike : Forall2 (reordered refs) (pr_candidates_by_id pr) ids.
Proof.
  apply Forall2_std_sort; [|exact Hpaths]. intros p q p' q' Hp Hq. unfold by_key.
  by rewrite (reordered_id _ _ _ Hp), (reordered_id _ _ _ Hq).
Qed.

Lemma lookup_alike id :
  match LookupById (pr_candidates_by_id pr) path_id id, LookupById ids path_id id with
  | Some p, Some q => reordered refs p q
  | None, None => True
  | _, _ => False
  end.
Proof.
  apply Forall2_lookup_key; [|exact ids_alike]. intros p q H. symmetry. by eapply reordered_id.
Qed.

Lemma Prepare_reordered : Prepare s limits = pr'.
Proof.
  assert (∀ i, incumbent_is_eligible s ids i =
    incumbent_is_eligible r (pr_candidates_by_id pr) i) as He.
  { intros i. unfold incumbent_is_eligible. pose proof (lookup_alike (inc_path i)) as H.
    cbn [s request_with_paths rq_expected rq_capacity rq_policy rq_qos]. f_equal.
    by destruct (LookupById (pr_candidates_by_id pr) _ _), (LookupById ids _ _). }
  unfold Prepare at 1. cbv zeta. change (rq_incumbent s) with (rq_incumbent r).
  change (SortPointersById (set_paths (rq_candidates s)) path_id) with ids.
  unfold pr', relist, pr, Prepare. cbv zeta. cbn [pr_request pr_limits pr_service
    pr_evidence_bundle_present pr_evidence_trusted pr_congestion_objective_used
    pr_incumbent_present pr_incumbent_eligible pr_headroom_requirement_overflow
    pr_required_base_bytes pr_required_headroom_bytes pr_capacity_by_path pr_evidence_by_path
    pr_forbidden_localities pr_forbidden_domains pr_occupied_domains pr_required_labels
    pr_forbidden_labels pr_affinity_refs pr_allowed_tiers].
  destruct (rq_incumbent r) as [i|]; [|reflexivity]. rewrite He. reflexivity.
Qed.

Lemma no_refs : refs = [] → pr_affinity_refs pr = [].
Proof. intros H. unfold pr, Prepare. cbv zeta. cbn [pr_affinity_refs]. fold refs. by rewrite H. Qed.

Lemma verify_path_reordered intent : verify_path pr' intent = verify_path pr intent.
Proof.
  unfold verify_path. change (pr_candidates_by_id pr') with ids.
  pose proof (lookup_alike (int_path intent)) as H.
  destruct (LookupById (pr_candidates_by_id pr) _ _) as [p|],
    (LookupById ids path_id (int_path intent)) as [q|]; try done.
  assert (Evaluate pr' q = Evaluate pr p) as -> by by apply (Evaluate_reordered refs).
  destruct H as [labels reservations _ Hr _].
  cbn [with_lists path_authority path_attributes attr_reservations].
  by rewrite (existsb_perm _ _ _ Hr).
Qed.

Lemma VerifyIntent_reordered intent : VerifyIntent limits s intent = VerifyIntent limits r intent.
Proof.
  unfold VerifyIntent. rewrite (proj2 (ValidateRequest_ok r limits) Hwf).
  rewrite (proj2 (ValidateRequest_ok s limits) well_formed_reordered), Prepare_reordered.
  by rewrite verify_path_reordered.
Qed.

(** The scans have the same exclusions and counts, and entries that are alike. *)
Lemma scan_reordered :
  let scan := scan_candidates pr limits (set_paths (rq_candidates r)) in
  let scan' := scan_candidates pr' limits paths in
  sc_exclusions scan' = sc_exclusions scan ∧ sc_unknown scan' = sc_unknown scan ∧
  sc_domains scan' = sc_domains scan ∧
  Forall2 (entries_alike refs) (sc_legal scan) (sc_legal scan').
Proof.
  cbv zeta. rewrite !scan_candidates_spec. cbn [sc_exclusions sc_legal sc_unknown sc_domains].
  assert (∀ p q, reordered refs p q → Evaluate pr p = Evaluate pr' q) as He.
  { intros p q H. symmetry. by apply (Evaluate_reordered refs). }
  assert (∀ p q, reordered refs p q → entries_alike refs (entry_of pr p) (entry_of pr' q)) as Hentry
    by apply entry_of_reordered.
  assert (∀ p q, reordered refs p q → is_legal pr p = is_legal pr' q) as Hl.
  { intros p q H. unfold is_legal. by rewrite (He p q H). }
  assert (Forall2 (reordered refs) (legal_of pr (set_paths (rq_candidates r))) (legal_of pr' paths))
    as Hlegal by by apply Forall2_filter_test.
  split_and!.
  - f_equal. symmetry. unfold excluded_of. apply (Forall2_fmap_eq (reordered refs)).
    + intros p q H. by rewrite (He p q H), (reordered_id _ _ _ H).
    + by apply Forall2_filter_test.
  - symmetry. apply (Forall2_size (reordered refs)). apply Forall2_filter_test; [|exact Hlegal].
    intros p q H. by destruct (Hentry p q H) as (q' & _ & ->).
  - f_equal. symmetry. apply (Forall2_fmap_eq (reordered refs)); [|exact Hlegal]. by intros p q [].
  - apply Forall2_fmap. eapply Forall2_impl; [exact Hlegal|exact Hentry].
Qed.

Lemma scan_explanation_reordered n :
  scan_explanation pr' n (scan_candidates pr' limits paths) =
  scan_explanation pr n (scan_candidates pr limits (set_paths (rq_candidates r))).
Proof.
  destruct scan_reordered as (He & Hu & Hd & Hl). unfold scan_explanation.
  by rewrite He, Hu, Hd, <-(Forall2_size _ _ _ Hl).
Qed.
Lemma choose_index_reordered legal legal' e : Forall2 (entries_alike refs) legal legal' →
  choose_index pr' legal' e = choose_index pr legal e.
Proof.
  intros H. unfold choose_index. cbv zeta.
  change (rq_policy (pr_request pr')) with (rq_policy (pr_request pr)).
  change (rq_incumbent (pr_request pr')) with (rq_incumbent (pr_request pr)).
  change (pr_incumbent_eligible pr') with (pr_incumbent_eligible pr).
  destruct (rq_incumbent (pr_request pr)) as [i|]; [|done].
  rewrite (alike_index refs (inc_path i) _ _ H), <-(Forall2_length _ _ _ H).
  assert (∀ n j, key_at (entry_at legal' n) j = key_at (entry_at legal n) j) as Hk.
  { intros n j. by destruct (alike_entry refs _ _ n H) as (q & _ & ->). }
  by rewrite !Hk.
Qed.

Lemma move_deferred_reordered legal legal' n : Forall2 (entries_alike refs) legal legal' →
  move_deferred pr' legal' n = move_deferred pr legal n.
Proof.
  intros H. unfold move_deferred. cbv zeta.
  change (rq_policy (pr_request pr')) with (rq_policy (pr_request pr)).
  change (rq_incumbent (pr_request pr')) with (rq_incumbent (pr_request pr)).
  destruct (rq_incumbent (pr_request pr)) as [i|]; [|done].
  by rewrite (alike_index refs (inc_path i) _ _ H), (alike_id refs _ _ (alike_entry refs _ _ n H)).
Qed.

Lemma place_verified_reordered authority delta chosen chosen' e :
  entries_alike refs chosen chosen' →
  place_verified pr' authority delta chosen' e = place_verified pr authority delta chosen e.
Proof.
  intros (q & H & ->). unfold place_verified. cbn [entry_with rk_path].
  assert (build_intent pr' q = build_intent pr (rk_path chosen)) as ->
    by (apply (build_intent_reordered refs); [exact no_refs|exact H]).
  change (pr_limits pr') with limits. change (pr_limits pr) with limits.
  change (pr_request pr') with s. change (pr_request pr) with r.
  rewrite VerifyIntent_reordered, (reordered_id _ _ _ H). reflexivity.
Qed.

Lemma place_chosen_reordered authority delta chosen chosen' e :
  entries_alike refs chosen chosen' →
  place_chosen pr' authority delta chosen' e = place_chosen pr authority delta chosen e.
Proof.
  intros H. pose proof (place_verified_reordered authority) as Hv.
  assert (∀ policy e, gate_binding policy chosen' e = gate_binding policy chosen e) as Hg.
  { intros policy e'. destruct H as (q & [] & ->). reflexivity. }
  assert (∀ policy, below_gate policy chosen' = below_gate policy chosen) as Hb.
  { intros policy. destruct H as (q & [] & ->). reflexivity. }
  assert (final_delta pr' chosen' = final_delta pr chosen) as Hf.
  { destruct H as (q & [] & ->). reflexivity. }
  assert (∀ e, add_degradations pr' chosen' e = add_degradations pr chosen e) as Hd.
  { intros e'. destruct H as (q & H & ->). unfold add_degradations, relaxation_degradation.
    cbn [entry_with rk_path]. 
    assert (affinity_matched pr' q = affinity_matched pr (rk_path chosen)) as ->
      by by apply (affinity_matched_reordered refs).
    by destruct H. }
  unfold place_chosen, gate_degradation, place_gate_deferred. cbv zeta.
  change (rq_policy (pr_request pr')) with (rq_policy (pr_request pr)).
  by rewrite Hf, Hd, !Hb, !Hg, (Hv _ _ _ _ H).
Qed.

Lemma place_prepared_reordered authority :
  place_prepared pr' authority = place_prepared pr authority.
Proof.
  destruct scan_reordered as (He & _ & _ & Hl). pose proof scan_explanation_reordered as Hx.
  unfold place_prepared. cbv zeta. change (pr_limits pr') with limits.
  change (set_paths (rq_candidates (pr_request pr'))) with paths. change (pr_limits pr) with limits.
  change (set_paths (rq_candidates (pr_request pr))) with (set_paths (rq_candidates r)).
  rewrite <-paths_size, Hx, He.
  assert (list_empty (sc_legal (scan_candidates pr' limits paths)) =
          list_empty (sc_legal (scan_candidates pr limits (set_paths (rq_candidates r))))) as ->
    by by destruct Hl.
  unfold place_ranked. cbv zeta. change (pr_limits pr') with limits. change (pr_limits pr) with limits.
  pose proof (alike_sort refs _ _ Hl) as Hs.
  rewrite (alike_explained refs limits _ _ _ Hs), (choose_index_reordered _ _ _ Hs).
  destruct (choose_index pr _ _) as [n e]. rewrite (move_deferred_reordered _ _ n Hs).
  rewrite (place_chosen_reordered authority _ _ _ e (alike_entry refs _ _ n Hs)). reflexivity.
Qed.

Lemma Place_reordered : Place limits s = Place limits r.
Proof.
  unfold Place. cbv zeta. rewrite (proj2 (ValidateRequest_ok r limits) Hwf).
  rewrite (proj2 (ValidateRequest_ok s limits) well_formed_reordered).
  cbn [negb]. change (first_stale s) with (first_stale r).
  change (set_paths (rq_candidates s)) with paths. rewrite <-paths_size.
  destruct (first_stale r) as [[code message]|]; [reflexivity|].
  rewrite Prepare_reordered, place_prepared_reordered. reflexivity.
Qed.
End ReorderedPaths.
