(* ===== verification/DegradeFacts.v ===== *)
(** * When a placement is degraded

    The degradation flags of a placed decision, in terms of the request: what a
    legal verdict records about relaxed requirements and known evidence, and
    which of the helpers add a degrading flag. *)

From Stdlib Require Import String.
From S2P Require Import Prelude StdAlgo Checked Status Hash Model ModelDigest Validate Explain.
From S2P Require Import Evaluate Rank Exclusions Place ScanFacts PlaceCases.

(** ** What a legal verdict records *)

Definition evidence_known (pr : PreparedRequest) (p : CandidatePath) : bool :=
  pr_congestion_objective_used pr && pr_evidence_trusted pr &&
  (match LookupById (pr_evidence_by_path pr) ev_path (path_id p) with
   | Some _ => true | None => false end).

Lemma EvaluateEvidence_legal pr p v :
  vd_legal v = false →
  let v' := EvaluateEvidence pr p v in
  vd_legal v' = true →
  vd_multiplier_relaxed v' = vd_multiplier_relaxed v ∧
  vd_reservation_relaxed v' = vd_reservation_relaxed v ∧
  vd_evidence_known v' = evidence_known pr p.
Proof.
  intros Hv. unfold EvaluateEvidence, evidence_known. cbv zeta.
  destruct (pr_congestion_objective_used pr); [|done]. cbn [negb andb].
  destruct (pr_evidence_trusted pr); cbn [negb andb].
  - destruct (LookupById _ _ _); [done|]. case_bool_decide; cbn; by rewrite ?Hv.
  - repeat case_match; cbn; by rewrite ?Hv.
Qed.

Lemma EvaluateService_legal pr p residual :
  let v := EvaluateService pr p residual in
  vd_legal v = true →
  vd_multiplier_relaxed v = (residual <? pr_required_headroom_bytes pr) ∧
  vd_reservation_relaxed v =
    reservation_required (pr_service pr) && list_empty (attr_reservations (path_attributes p)) ∧
  vd_evidence_known v = evidence_known pr p.
Proof.
  unfold EvaluateService. cbv zeta.
  destruct (residual <? pr_required_headroom_bytes pr) eqn:Eh; cbn [andb].
  - destruct (negb _); [done|].
    destruct (_ && negb _); [done|]. destruct (_ && negb _); [done|].
    destruct (_ && _); [done|]. intros Hl. by apply EvaluateEvidence_legal in Hl.
  - destruct (_ && negb _); [done|]. destruct (_ && negb _); [done|].
    destruct (_ && _); [done|]. intros Hl. by apply EvaluateEvidence_legal in Hl.
Qed.

Lemma Evaluate_legal_verdict pr p :
  let v := Evaluate pr p in
  vd_legal v = true →
  ∃ capacity, LookupById (pr_capacity_by_path pr) cap_path (path_id p) = Some capacity ∧
  vd_multiplier_relaxed v = (cap_residual_bytes capacity <? pr_required_headroom_bytes pr) ∧
  vd_reservation_relaxed v =
    reservation_required (pr_service pr) && list_empty (attr_reservations (path_attributes p)) ∧
  vd_evidence_known v = evidence_known pr p.
Proof.
  unfold Evaluate. cbv zeta.
  repeat match goal with |- vd_legal (if ?c then _ else _) = true → _ =>
    destruct c; [discriminate|] end.
  destruct (LookupById _ cap_path _) as [capacity|]; [|done].
  destruct (_ <? _); [done|]. intros Hl. exists capacity. split; [done|].
  by apply EvaluateService_legal.
Qed.

(** ** Unknown ranking keys *)

Lemma ObjectiveKey_known pr p c k u i o :
  val_known (ObjectiveKey pr p c k u i o) =
  negb (bool_decide (obj_kind o = ObjectiveKind.kCongestionUtilization)) || k.
Proof.
  unfold ObjectiveKey. case_bool_decide as E; [rewrite E; by destruct k|].
  by destruct (obj_kind o).
Qed.

Lemma entry_has_unknown pr p :
  pr_congestion_objective_used pr = uses_congestion (pol_objectives (rq_policy (pr_request pr))) →
  is_legal pr p = true →
  rk_has_unknown (entry_of pr p) =
    pr_congestion_objective_used pr && negb (evidence_known pr p).
Proof.
  intros Hu Hl. unfold entry_of. cbn [BuildRankEntry rk_has_unknown].
  destruct (Evaluate_legal_verdict pr p Hl) as (_ & _ & _ & _ & ->).
  assert (evidence_known pr p && (match LookupById (pr_evidence_by_path pr) ev_path (path_id p)
            with Some _ => true | None => false end) = evidence_known pr p) as ->.
  { unfold evidence_known. by destruct (LookupById _ _ _); rewrite ?andb_true_r, ?andb_false_r. }
  generalize (evidence_known pr p) as known. intros known. rewrite Hu. clear Hu.
  unfold uses_congestion.
  induction (pol_objectives _) as [|o l IH]; [done|]. cbn [existsb fmap list_fmap].
  rewrite IH, ObjectiveKey_known.
  by case_bool_decide; destruct known; cbn [negb orb andb]; rewrite ?andb_false_r.
Qed.

(** ** Flags *)

Lemma is_degraded_AddDegradation flag e :
  is_degraded (AddDegradation flag e) = IsDegradingFlag flag || is_degraded e.
Proof.
  apply eq_true_iff_eq. unfold is_degraded. rewrite orb_true_iff, !existsb_exists_elem.
  setoid_rewrite AddDegradation_elem. naive_solver.
Qed.

Lemma is_degraded_degrade_if test flag e :
  is_degraded (degrade_if test flag e) = test && IsDegradingFlag flag || is_degraded e.
Proof. destruct test; [apply is_degraded_AddDegradation|done]. Qed.

Lemma is_degraded_AddNote note e : is_degraded (AddNote note e) = is_degraded e.
Proof. unfold AddNote. by case_match. Qed.

Lemma is_degraded_AddBinding kind path required available label e :
  is_degraded (AddBinding kind path required available label e) = is_degraded e.
Proof. unfold AddBinding. by case_match. Qed.

Create Rewrite HintDb degraded.
#[export] Hint Rewrite is_degraded_AddDegradation is_degraded_degrade_if is_degraded_AddNote
  is_degraded_AddBinding : degraded.

Lemma is_degraded_chosen limits r : is_degraded (chosen_index limits r).2 = false.
Proof.
  unfold chosen_index, choose_index.
  assert (is_degraded (explain_ranking limits (ranking limits r) (scanned_explanation limits r)) = false) as H.
  { unfold explain_ranking, scanned_explanation, scan_explanation, note_if. cbv zeta.
    by repeat (case_match; autorewrite with degraded; try done). }
  repeat case_match; cbn [snd]; autorewrite with degraded; by rewrite ?H.
Qed.

(** The reasons a placement on [p] is degraded. *)
Definition degraded_by (r : PlacementRequest) (p : CandidatePath) : Prop :=
  let policy := rq_policy r in
  let affinity := affinity_refs (pol_reservation_affinity policy) in
  (∃ e, reports r p e ∧
     cap_residual_bytes e < min_residual_headroom_bytes (pol_admission policy)) ∨
  (∃ e, reports r p e ∧ cap_residual_bytes e < required_headroom r) ∨
  (ServiceRequiresReservation (qos_service_class (rq_qos r)) = true ∧
     attr_reservations (path_attributes p) = []) ∨
  from_option (λ v, attr_locality (path_attributes p) ≠ v) False
    (preferred_locality (pol_locality policy)) ∨
  (affinity ≠ [] ∧ ∀ ref, ref ∈ attr_reservations (path_attributes p) → ref ∉ affinity) ∨
  (uses_congestion (pol_objectives policy) = true ∧
     ¬ (evidence_trusted r ∧ path_id p ∈ ev_path <$> bundle_entries (rq_evidence r))).

Lemma evidence_known_spec r limits p :
  well_formed r limits → uses_congestion (pol_objectives (rq_policy r)) = true →
  evidence_known (Prepare r limits) p = true ↔
  evidence_trusted r ∧ path_id p ∈ ev_path <$> bundle_entries (rq_evidence r).
Proof.
  intros Hwf Hu. unfold evidence_known. rewrite !andb_true_iff, (evidence_trusted_spec r limits).
  assert (match LookupById (pr_evidence_by_path (Prepare r limits)) ev_path (path_id p) with
          | Some _ => true | None => false end = true ↔
          path_id p ∈ ev_path <$> bundle_entries (rq_evidence r)) as ->.
  { destruct (LookupById _ _ _) as [e|] eqn:E.
    - apply (evidence_lookup r limits Hwf) in E as [He <-].
      split; [intros _; by apply list_elem_of_fmap_2|done].
    - by apply (evidence_lookup_None r limits Hwf) in E. }
  cbn [Prepare pr_congestion_objective_used]. tauto.
Qed.

Lemma residual_of_entry r limits p bytes :
  well_formed r limits → is_legal (Prepare r limits) p = true →
  residual_of (entry_of (Prepare r limits) p) < bytes ↔
  ∃ e, reports r p e ∧ cap_residual_bytes e < bytes.
Proof.
  intros Hwf Hl. destruct (Evaluate_legal_verdict _ p Hl) as (c & Hc & _).
  unfold residual_of. change (rk_capacity (entry_of (Prepare r limits) p))
    with (LookupById (pr_capacity_by_path (Prepare r limits)) cap_path (path_id p)).
  setoid_rewrite <-(capacity_lookup r limits Hwf). rewrite Hc. cbn [from_option].
  split; [eauto|by intros (? & [= <-] & ?)].
Qed.

Lemma is_degraded_gate policy c e :
  is_degraded (gate_degradation policy c e) = below_gate policy c || is_degraded e.
Proof.
  unfold gate_degradation, gate_binding. case_match; by autorewrite with degraded.
Qed.

Lemma is_degraded_relaxation pr c e :
  is_degraded (relaxation_degradation pr c e) =
  rk_multiplier_relaxed c || rk_reservation_relaxed c || is_degraded e.
Proof. unfold relaxation_degradation. case_match; by autorewrite with degraded. Qed.

Lemma and_iff_compat_l' (A B C : Prop) : (A → B ↔ C) → A ∧ B ↔ A ∧ C.
Proof. tauto. Qed.

(** The degradation of a placement, as the code accumulates it. *)
Lemma is_degraded_placed_code limits r p :
  chosen limits r = entry_of (Prepare r limits) p →
  let entry := entry_of (Prepare r limits) p in
  is_degraded (last_binding limits r (placed_explanation limits r)) =
  rk_has_unknown entry ||
  (negb (list_empty (pr_affinity_refs (Prepare r limits))) &&
     negb (affinity_matched (Prepare r limits) p) ||
   (is_unequal (preferred_locality (pol_locality (rq_policy r)))
      (attr_locality (path_attributes p)) ||
    (rk_multiplier_relaxed entry || rk_reservation_relaxed entry ||
     below_gate (rq_policy r) entry))).
Proof.
  intros Hc. unfold last_binding, placed_explanation, delta_degradation, add_degradations. cbv zeta.
  autorewrite with degraded. rewrite is_degraded_relaxation, is_degraded_gate, is_degraded_chosen, Hc.
  cbn [IsDegradingFlag]. rewrite !andb_true_r, andb_false_r, !orb_false_r. reflexivity.
Qed.

Lemma is_degraded_placed limits r p :
  well_formed r limits → p ∈ legal_candidates limits r →
  chosen limits r = entry_of (Prepare r limits) p →
  is_degraded (last_binding limits r (placed_explanation limits r)) = true ↔ degraded_by r p.
Proof.
  intros Hwf Hp Hc. unfold legal_candidates in Hp. apply legal_of_elem in Hp as [Hin Hl].
  rewrite (is_degraded_placed_code limits r p Hc). cbv zeta.
  destruct (Evaluate_legal_verdict _ p Hl) as (c & Hcap & Hmul & Hres & _).
  change (rk_multiplier_relaxed (entry_of (Prepare r limits) p))
    with (vd_multiplier_relaxed (Evaluate (Prepare r limits) p)).
  change (rk_reservation_relaxed (entry_of (Prepare r limits) p))
    with (vd_reservation_relaxed (Evaluate (Prepare r limits) p)).
  rewrite Hmul, Hres, (entry_has_unknown (Prepare r limits) p eq_refl Hl).
  rewrite !orb_true_iff, !andb_true_iff, !negb_true_iff, is_unequal_spec, list_empty_nil, N.ltb_lt.
  pose proof (residual_of_entry r limits p) as Hbelow.
  assert (below_gate (rq_policy r) (entry_of (Prepare r limits) p) = true ↔
          residual_of (entry_of (Prepare r limits) p) <
            min_residual_headroom_bytes (pol_admission (rq_policy r))) as ->
    by (unfold below_gate; b2p; lia).
  rewrite (Hbelow _ Hwf Hl), (proj1 (prepared_headroom r limits Hwf)).
  assert (cap_residual_bytes c < required_headroom r ↔
          ∃ e, reports r p e ∧ cap_residual_bytes e < required_headroom r) as ->.
  { setoid_rewrite <-(capacity_lookup r limits Hwf). rewrite Hcap.
    split; [eauto|by intros (? & [= <-] & ?)]. }
  unfold degraded_by. cbv zeta.
  rewrite <-!not_true_iff_false, affinity_matched_spec.
  assert (list_empty (pr_affinity_refs (Prepare r limits)) = true ↔
          affinity_refs (pol_reservation_affinity (rq_policy r)) = []) as ->.
  { cbn [Prepare pr_affinity_refs]. by rewrite list_empty_sort, list_empty_nil. }
  assert ((¬ ∃ ref, ref ∈ attr_reservations (path_attributes p) ∧
             ref ∈ affinity_refs (pol_reservation_affinity (rq_policy r))) ↔
          ∀ ref, ref ∈ attr_reservations (path_attributes p) →
            ref ∉ affinity_refs (pol_reservation_affinity (rq_policy r))) as ->.
  { split; [intros H ref H1 H2; apply H; eauto|intros H (ref & H1 & H2); by apply (H ref)]. }
  assert (pr_congestion_objective_used (Prepare r limits) = true ∧
            evidence_known (Prepare r limits) p ≠ true ↔
          uses_congestion (pol_objectives (rq_policy r)) = true ∧
            ¬ (evidence_trusted r ∧ path_id p ∈ ev_path <$> bundle_entries (rq_evidence r))) as ->.
  { cbn [Prepare pr_congestion_objective_used]. apply and_iff_compat_l'. intros Hu.
    by rewrite (evidence_known_spec r limits p Hwf Hu). }
  change (reservation_required (pr_service (Prepare r limits)))
    with (ServiceRequiresReservation (qos_service_class (rq_qos r))). tauto.
Qed.
