(* ===== verification/Fixture.v ===== *)
(** * Concrete requests

    The baseline request of [tests/fixtures.hpp] and variations of it.  The
    witnesses of the properties evaluate the definitions on these inputs. *)

From Stdlib Require Import String.
From S2P Require Import Prelude Checked Status Model Explain.

Definition kPathAuthority : N := 7.

Definition fixture_path (i : N) : CandidatePath :=
  mkPath (1 + i) kPathAuthority
    (mkAttributes PathTier.kStandard (10 + i) LocalityScope.kRack (20 + i) (100 + i * 10)
       (1000 + i * 100) (1 + i) [] []).

Definition fixture_capacity (residual i : N) : PathCapacity :=
  mkCapacity (1 + i) (residual * 2) residual.

Definition fixture_evidence (i : N) : CongestionEvidenceEntry :=
  mkEvidenceEntry (1 + i) (100000000 + (i * 1000000) mod 800000000).

Definition indices (n : nat) : list N := N.of_nat <$> seq 0 n.

Definition cost_minimize : Objective := mkObjective ObjectiveKind.kCost Direction.kMinimize.

Definition default_churn : ChurnPolicy := mkChurn ChurnAction.kAllowMove false 0 0.

Definition fixture_policy : PlacementPolicy :=
  mkPolicy 500 6 [cost_minimize] [] [] [] (mkLocality None None [])
    (mkFailureDomains None [] false 0) (mkAffinity false [])
    (mkAdmission 0 GateAction.kPlace) (mkService false 0) default_churn
    (mkEvidencePolicy EvidencePolicyMode.kHardExclude EvidencePolicyMode.kHardExclude) 0.

Definition with_churn (c : ChurnPolicy) (p : PlacementPolicy) : PlacementPolicy :=
  mkPolicy (pol_id p) (pol_generation p) (pol_objectives p) (pol_allowed_tiers p)
    (pol_required_labels p) (pol_forbidden_labels p) (pol_locality p) (pol_failure_domains p)
    (pol_reservation_affinity p) (pol_admission p) (pol_service p) c (pol_evidence p)
    (pol_revalidate_after_nanos p).

Definition with_admission (a : AdmissionGate) (p : PlacementPolicy) : PlacementPolicy :=
  mkPolicy (pol_id p) (pol_generation p) (pol_objectives p) (pol_allowed_tiers p)
    (pol_required_labels p) (pol_forbidden_labels p) (pol_locality p) (pol_failure_domains p)
    (pol_reservation_affinity p) a (pol_service p) (pol_churn p) (pol_evidence p)
    (pol_revalidate_after_nanos p).

Definition with_labels (required forbidden : list N) (p : PlacementPolicy) : PlacementPolicy :=
  mkPolicy (pol_id p) (pol_generation p) (pol_objectives p) (pol_allowed_tiers p)
    required forbidden (pol_locality p) (pol_failure_domains p)
    (pol_reservation_affinity p) (pol_admission p) (pol_service p) (pol_churn p)
    (pol_evidence p) (pol_revalidate_after_nanos p).

Definition with_affinity (a : ReservationAffinity) (p : PlacementPolicy) : PlacementPolicy :=
  mkPolicy (pol_id p) (pol_generation p) (pol_objectives p) (pol_allowed_tiers p)
    (pol_required_labels p) (pol_forbidden_labels p) (pol_locality p) (pol_failure_domains p)
    a (pol_admission p) (pol_service p) (pol_churn p)
    (pol_evidence p) (pol_revalidate_after_nanos p).

Definition fixture_qos : QosProfile :=
  mkQos 400 4 ServiceClass.kBestEffort PriorityClass.kNormal 100 0.

Definition fixture_expected : AuthorityExpectation := mkExpectation kPathAuthority 2 5 6 4 11 9.

(** A request over the given paths and capacity entries. *)
Definition fixture_request (paths : list CandidatePath) (capacity : list PathCapacity)
    (policy : PlacementPolicy) (incumbent : option IncumbentPlacement) : PlacementRequest :=
  mkRequest 100 3 (mkCandidateSet 200 2 paths) (mkSnapshot 300 5 capacity) fixture_qos policy
    (mkBundle 600 9 (fixture_evidence <$> indices (length paths))) incumbent []
    fixture_expected (mkProvenance "flowplace-tests" "1.0.0" 0 0) 0.

(** [Baseline(path_count, residual)]. *)
Definition Baseline (path_count : nat) (residual : N) : PlacementRequest :=
  fixture_request (fixture_path <$> indices path_count)
    (fixture_capacity residual <$> indices path_count) fixture_policy None.

(** [SetIncumbentOn]. *)
Definition incumbent_on (path : N) : IncumbentPlacement :=
  mkIncumbent 9001 4 path kPathAuthority 2 5 6 4 11 ReservationRef_none.

Definition with_policy (policy : PlacementPolicy) (r : PlacementRequest) : PlacementRequest :=
  mkRequest (rq_flow r) (rq_flow_generation r) (rq_candidates r) (rq_capacity r) (rq_qos r)
    policy (rq_evidence r) (rq_incumbent r) (rq_occupied_failure_domains r) (rq_expected r)
    (rq_provenance r) (rq_attempt r).

Definition with_incumbent (incumbent : option IncumbentPlacement) (r : PlacementRequest)
    : PlacementRequest :=
  mkRequest (rq_flow r) (rq_flow_generation r) (rq_candidates r) (rq_capacity r) (rq_qos r)
    (rq_policy r) (rq_evidence r) incumbent (rq_occupied_failure_domains r) (rq_expected r)
    (rq_provenance r) (rq_attempt r).

Definition with_paths (paths : list CandidatePath) (r : PlacementRequest) : PlacementRequest :=
  mkRequest (rq_flow r) (rq_flow_generation r)
    (mkCandidateSet (set_id (rq_candidates r)) (set_generation (rq_candidates r)) paths)
    (rq_capacity r) (rq_qos r)
    (rq_policy r) (rq_evidence r) (rq_incumbent r) (rq_occupied_failure_domains r)
    (rq_expected r) (rq_provenance r) (rq_attempt r).
