(* ===== verification/Threads.v ===== *)
(** * Threads and critical sections

    A thread is a tree of critical sections: it runs a section under the state
    mutex in one step, waits for the condition of the next one, takes and gives
    back one of the two outer mutexes, and continues with what the section
    answered.  [exec] interleaves threads one section at a time.

    [wp] is the weakest precondition of a thread among others that keep to a
    [Protocol]: an invariant of the state, and what threads guarantee each other
    with and without the outer mutex.  [wp_reachable] turns it into facts about
    every reachable system, [locks_free] into progress. *)

From S2P Require Import Prelude.

(** [commit_mu] and [store_mu], in the order they are taken in; the innermost
    mutex is the section itself. *)
Inductive Mutex := CommitMu | StoreMu.

Section Threads.
Context {State : Type}.

Inductive Thread (A : Type) : Type :=
  | Finished (a : A)
  | Locked {R : Type} (guard : State → bool) (section : State → R * State) (next : R → Thread A)
  | Acquire (m : Mutex) (next : Thread A)
  | Release (m : Mutex) (next : Thread A).

#[global] Arguments Finished {A} a.
#[global] Arguments Locked {A R} guard section next.
#[global] Arguments Acquire {A} m next.
#[global] Arguments Release {A} m next.

#[export] Instance Thread_ret : MRet Thread := @Finished.

#[export] Instance Thread_bind : MBind Thread := λ A B k,
  fix go (t : Thread A) : Thread B :=
    match t with
    | Finished a => k a
    | Locked guard section next => Locked guard section (λ r, go (next r))
    | Acquire m next => Acquire m (go next)
    | Release m next => Release m (go next)
    end.

(** A section that starts as soon as the state mutex is free. *)
Definition locked {R} (section : State → R * State) : Thread R :=
  Locked (λ _, true) section Finished.

(** A section that waits on a condition variable for its predicate. *)
Definition wait {R} (guard : State → bool) (section : State → R * State) : Thread R :=
  Locked guard section Finished.

Definition update (f : State → State) : Thread unit := locked (λ s, (tt, f s)).
Definition peek {R} (f : State → R) : Thread R := locked (λ s, (f s, s)).

Definition acquire (m : Mutex) : Thread unit := Acquire m (Finished tt).
Definition release (m : Mutex) : Thread unit := Release m (Finished tt).

(** [std::lock_guard] over a block. *)
Definition guarded {A} (m : Mutex) (block : Thread A) : Thread A :=
  _ ← acquire m; result ← block; _ ← release m; mret result.

(** A thread with nobody else: what it ends with, or [None] where it waits for
    ever. *)
Fixpoint alone {A} (t : Thread A) (s : State) : option (A * State) :=
  match t with
  | Finished a => Some (a, s)
  | Locked guard section next =>
      if guard s then let '(r, s') := section s in alone (next r) s' else None
  | Acquire _ next | Release _ next => alone next s
  end.

Lemma alone_bind {A B} (t : Thread A) (k : A → Thread B) : ∀ s,
  alone (t ≫= k) s = '(a, s') ← alone t s; alone (k a) s'.
Proof.
  induction t as [a|R guard section next IH|m next IH|m next IH]; intros s; [done| |apply IH..].
  change (alone (Locked guard section next ≫= k) s) with
    (if guard s then let '(r, s') := section s in alone (next r ≫= k) s' else None).
  cbn [alone]. destruct (guard s); [|done]. destruct (section s) as [r s']. apply IH.
Qed.

Lemma alone_locked {R} (section : State → R * State) s : alone (locked section) s = Some (section s).
Proof. cbn. by destruct (section s). Qed.

Lemma alone_update f s : alone (update f) s = Some (tt, f s).
Proof. done. Qed.

Lemma alone_peek {R} (f : State → R) s : alone (peek f) s = Some (f s, s).
Proof. done. Qed.

Lemma alone_ret {A} (a : A) s : alone (mret a) s = Some (a, s).
Proof. done. Qed.

Lemma alone_guarded {A} m (block : Thread A) s : alone (guarded m block) s = alone block s.
Proof.
  unfold guarded. rewrite alone_bind. cbn [alone acquire mbind option_bind]. rewrite alone_bind.
  destruct (alone block s) as [[a s']|]; [|done]. cbn [mbind option_bind].
  by rewrite alone_bind.
Qed.

(** ** Systems *)

Context {Reply Call Tick : Type}.
Context (program : Call → Thread Reply).
Context (restart : Reply → option (Thread Reply)).
Context (tick : Tick → State → State).

Record System := mkSystem {
  sys_state : State;
  sys_owner : Mutex → option nat;
  sys_threads : list (Thread Reply);
}.

Inductive Event :=
  | Run (thread : nat)
  | Spawn (call : Call)
  | Pass (time : Tick).

Definition mutex_eqb (m1 m2 : Mutex) : bool :=
  match m1, m2 with CommitMu, CommitMu | StoreMu, StoreMu => true | _, _ => false end.

Definition set_owner (m : Mutex) (o : option nat) (owner : Mutex → option nat) :
    Mutex → option nat :=
  λ m', if mutex_eqb m' m then o else owner m'.

Definition with_thread (i : nat) (t : Thread Reply) (sys : System) : System :=
  mkSystem (sys_state sys) (sys_owner sys) (<[i := t]> (sys_threads sys)).

(** One step of a thread. *)
Definition run_thread (i : nat) (t : Thread Reply) (sys : System) : option System :=
  let s := sys_state sys in
  let owner := sys_owner sys in
  match t with
  | Finished reply => t' ← restart reply; Some (with_thread i t' sys)
  | Locked guard section next =>
      if guard s then
        let '(r, s') := section s in
        Some (with_thread i (next r) (mkSystem s' owner (sys_threads sys)))
      else None
  | Acquire m next =>
      match owner m with
      | None =>
          Some (with_thread i next (mkSystem s (set_owner m (Some i) owner) (sys_threads sys)))
      | Some _ => None
      end
  | Release m next =>
      if decide (owner m = Some i) then
        Some (with_thread i next (mkSystem s (set_owner m None owner) (sys_threads sys)))
      else None
  end.

Definition exec (e : Event) (sys : System) : option System :=
  match e with
  | Run i => t ← sys_threads sys !! i; run_thread i t sys
  | Spawn call =>
      Some (mkSystem (sys_state sys) (sys_owner sys) (sys_threads sys ++ [program call]))
  | Pass time => Some (mkSystem (tick time (sys_state sys)) (sys_owner sys) (sys_threads sys))
  end.

Fixpoint exec_all (events : list Event) (sys : System) : option System :=
  match events with
  | [] => Some sys
  | e :: events => sys' ← exec e sys; exec_all events sys'
  end.

Lemma exec_all_app es1 es2 sys : exec_all (es1 ++ es2) sys = exec_all es1 sys ≫= exec_all es2.
Proof.
  revert sys. induction es1 as [|e es1 IH]; intros sys; cbn; [done|].
  destruct (exec e sys); cbn; [apply IH|done].
Qed.

(** ** Weakest preconditions *)

(** What a thread may rely on and has to guarantee: an invariant, [guar h s s'] for
    the change of the state by threads that hold ([h = true]) or do not hold
    [commit_mu], and [move] for a single section. *)
Class Protocol := {
  inv : State → Prop;
  guar : bool → relation State;
  move : bool → relation State;
  guar_preorder :: ∀ h, PreOrder (guar h);
  guar_weaken : ∀ s s', guar false s s' → guar true s s';
}.

Context `{Protocol}.

(** The mutexes a thread holds. *)
Record Held := mkHeld { holds_commit : bool; holds_store : bool }.

Definition holds (m : Mutex) (held : Held) : bool :=
  match m with CommitMu => holds_commit held | StoreMu => holds_store held end.

Definition holding (m : Mutex) (b : bool) (held : Held) : Held :=
  match m with
  | CommitMu => mkHeld b (holds_store held)
  | StoreMu => mkHeld (holds_commit held) b
  end.

Definition free : Held := mkHeld false false.
Definition holds_any (held : Held) : bool := holds_commit held || holds_store held.

(** What the others may have done meanwhile. *)
Definition rely (held : Held) : relation State := guar (negb (holds_commit held)).

(** [commit_mu] is taken before [store_mu], and no mutex twice. *)
Definition may_acquire (m : Mutex) (held : Held) : bool :=
  match m with CommitMu => negb (holds_any held) | StoreMu => negb (holds_store held) end.

(** One section of a thread that holds [held]. *)
Definition section_ok {R} (held : Held) (guard : State → bool) (section : State → R * State)
    (post : R → State → Prop) (s : State) : Prop :=
  (holds_any held = true → guard s = true) ∧
  (guard s = true →
   let '(r, s') := section s in
   inv s' ∧ guar (holds_commit held) s s' ∧ move (holds_commit held) s s' ∧ post r s').

Fixpoint wp {A} (held : Held) (t : Thread A) (Q : A → Held → State → Prop) (s : State) : Prop :=
  match t with
  | Finished a => ∀ s1, rely held s s1 → inv s1 → Q a held s1
  | Locked guard section next =>
      ∀ s1, rely held s s1 → inv s1 →
        section_ok held guard section (λ r s2, wp held (next r) Q s2) s1
  | Acquire m next =>
      ∀ s1, rely held s s1 → inv s1 →
        may_acquire m held = true ∧ wp (holding m true held) next Q s1
  | Release m next =>
      ∀ s1, rely held s s1 → inv s1 →
        holds m held = true ∧ wp (holding m false held) next Q s1
  end.

#[local] Instance rely_preorder held : PreOrder (rely held).
Proof. apply _. Qed.

Lemma wp_rely {A} held (t : Thread A) Q s s' : rely held s s' → wp held t Q s → wp held t Q s'.
Proof. intros Hr. destruct t; cbn [wp]; intros Hw s1 Hs1; apply Hw; by transitivity s'. Qed.

Lemma wp_now {A} held (t : Thread A) Q s :
  (∀ s1, rely held s s1 → inv s1 → wp held t Q s1) → wp held t Q s.
Proof.
  destruct t; cbn [wp]; intros Hw s1 Hr Hi; by apply (Hw s1 Hr Hi).
Qed.

Lemma wp_ret {A} held (a : A) (Q : A → Held → State → Prop) s :
  (∀ s1, rely held s s1 → inv s1 → Q a held s1) → wp held (mret a) Q s.
Proof. done. Qed.

Lemma wp_bind {A B} (t : Thread A) : ∀ held (k : A → Thread B) Q s,
  wp held t (λ a held' s', wp held' (k a) Q s') s → wp held (t ≫= k) Q s.
Proof.
  induction t as [a|R guard section next IH|m next IH|m next IH]; intros held k Q s;
    unfold mbind, Thread_bind; cbn [wp].
  - apply wp_now.
  - intros Hw s1 Hr Hi. destruct (Hw s1 Hr Hi) as [Hg Hs]. split; [done|]. intros E.
    specialize (Hs E). destruct (section s1) as [r s2]. destruct_and!.
    split_and!; [done..|]. by apply IH.
  - intros Hw s1 Hr Hi. destruct (Hw s1 Hr Hi). split; [done|]. by apply IH.
  - intros Hw s1 Hr Hi. destruct (Hw s1 Hr Hi). split; [done|]. by apply IH.
Qed.

Lemma wp_mono {A} (t : Thread A) : ∀ held (Q Q' : A → Held → State → Prop) s,
  (∀ a held' s', inv s' → Q a held' s' → Q' a held' s') → wp held t Q s → wp held t Q' s.
Proof.
  induction t as [a|R guard section next IH|m next IH|m next IH]; intros held Q Q' s HQ;
    cbn [wp]; intros Hw s1 Hr Hi.
  - by apply HQ; [|apply Hw].
  - destruct (Hw s1 Hr Hi) as [Hg Hs]. split; [done|]. intros E. specialize (Hs E).
    destruct (section s1) as [r s2]. destruct_and!. split_and!; [done..|]. by eapply IH.
  - destruct (Hw s1 Hr Hi). split; [done|]. by eapply IH.
  - destruct (Hw s1 Hr Hi). split; [done|]. by eapply IH.
Qed.

Lemma wp_section {R} held guard (section : State → R * State) (Q : R → Held → State → Prop) s :
  (∀ s1, rely held s s1 → inv s1 →
     section_ok held guard section
       (λ r s2, ∀ s3, rely held s2 s3 → inv s3 → Q r held s3) s1) →
  wp held (wait guard section) Q s.
Proof. done. Qed.

Lemma wp_acquire m held (Q : unit → Held → State → Prop) s :
  may_acquire m held = true →
  (∀ s1, rely held s s1 → inv s1 → ∀ s2, rely (holding m true held) s1 s2 → inv s2 →
     Q tt (holding m true held) s2) →
  wp held (acquire m) Q s.
Proof. intros Hm HQ s1 Hr Hi. split; [done|]. exact (HQ s1 Hr Hi). Qed.

Lemma wp_release m held (Q : unit → Held → State → Prop) s :
  holds m held = true →
  (∀ s1, rely held s s1 → inv s1 → ∀ s2, rely (holding m false held) s1 s2 → inv s2 →
     Q tt (holding m false held) s2) →
  wp held (release m) Q s.
Proof. intros Hm HQ s1 Hr Hi. split; [done|]. exact (HQ s1 Hr Hi). Qed.

(** ** Reachable systems *)

Definition held_by (i : nat) (sys : System) : Held :=
  mkHeld (bool_decide (sys_owner sys CommitMu = Some i)) (bool_decide (sys_owner sys StoreMu = Some i)).

(** What a finished thread leaves: no mutex. *)
Definition done_free : Reply → Held → State → Prop := λ _ held _, held = free.

Record disciplined (sys : System) : Prop := {
  dp_inv : inv (sys_state sys);
  dp_owner m i : sys_owner sys m = Some i → (i < length (sys_threads sys))%nat;
  dp_threads i t : sys_threads sys !! i = Some t →
    wp (held_by i sys) t done_free (sys_state sys);
}.

(** The threads a system may start, restart and the ticks of its clock keep to the
    protocol. *)
Context (allowed : Call → Prop).
Context (program_ok : ∀ call s, allowed call → wp free (program call) done_free s).
Context (restart_ok : ∀ reply t s, restart reply = Some t → wp free t done_free s).
Context (tick_ok : ∀ time s, inv s →
  inv (tick time s) ∧ guar false s (tick time s) ∧ move false s (tick time s)).

Definition allowed_event (e : Event) : Prop :=
  match e with Spawn call => allowed call | _ => True end.

Definition reachable (sys0 sys : System) : Prop :=
  ∃ events, Forall allowed_event events ∧ exec_all events sys0 = Some sys.

Lemma held_by_with i j t sys : held_by j (with_thread i t sys) = held_by j sys.
Proof. done. Qed.

Lemma held_by_set i m o sys s ts :
  held_by i (mkSystem s (set_owner m o (sys_owner sys)) ts) =
  holding m (bool_decide (o = Some i)) (held_by i sys).
Proof. by destruct m. Qed.

Lemma holding_same m held : holding m (holds m held) held = held.
Proof. by destruct m, held. Qed.

Lemma held_by_holds m i sys : holds m (held_by i sys) = bool_decide (sys_owner sys m = Some i).
Proof. by destruct m. Qed.

(** Two threads do not hold the same mutex. *)
Lemma holds_exclusive i j m sys :
  i ≠ j → holds m (held_by i sys) = true → holds m (held_by j sys) = false.
Proof.
  intros Hne. rewrite !held_by_holds, bool_decide_eq_true, bool_decide_eq_false.
  intros ->. by intros [= ->].
Qed.

(** What a section guarantees is what every other thread relies on. *)
Lemma guar_rely i j sys s s' :
  i ≠ j → guar (holds_commit (held_by i sys)) s s' → rely (held_by j sys) s s'.
Proof.
  intros Hne Hg. unfold rely. pose proof (holds_exclusive i j CommitMu sys Hne) as Hx.
  cbn [holds] in Hx. destruct (holds_commit (held_by i sys)); [by rewrite Hx|].
  destruct (negb _); [by apply guar_weaken|done].
Qed.

(** A step of a thread that leaves the state alone. *)
Lemma disciplined_owner i t m o sys :
  disciplined sys → (i < length (sys_threads sys))%nat →
  o = Some i ∨ (o = None ∧ sys_owner sys m = Some i) →
  (sys_owner sys m = None ∨ sys_owner sys m = Some i) →
  wp (holding m (bool_decide (o = Some i)) (held_by i sys)) t done_free (sys_state sys) →
  disciplined (with_thread i t
    (mkSystem (sys_state sys) (set_owner m o (sys_owner sys)) (sys_threads sys))).
Proof.
  intros [Hi Ho Ht] Hlt Hown Hold Hw. constructor; [done|..].
  - intros m' j. cbn. rewrite length_insert. unfold set_owner.
    destruct (mutex_eqb m' m); [|apply Ho].
    destruct Hown as [->|[-> _]]; [|done]. by intros [= <-].
  - intros j t'. rewrite held_by_with, held_by_set. cbn [sys_threads with_thread sys_state].
    intros [(-> & -> & _)|[Hne Hj]]%list_lookup_insert_Some; [done|].
    replace (bool_decide (o = Some j)) with (holds m (held_by j sys)).
    { rewrite holding_same. by apply Ht. }
    rewrite held_by_holds.
    apply bool_decide_ext. destruct Hown as [->|[-> Hown]], Hold as [Hold|Hold];
      rewrite Hold; split; intros [=]; congruence.
Qed.

Lemma disciplined_step e sys sys' :
  allowed_event e → disciplined sys → exec e sys = Some sys' →
  disciplined sys' ∧
  ∃ h, guar h (sys_state sys) (sys_state sys') ∧
       (move h (sys_state sys) (sys_state sys') ∨ sys_state sys' = sys_state sys).
Proof.
  intros Ha Hd. pose proof Hd as [Hi Ho Ht]. destruct e as [i|call|time]; cbn [exec].
  - destruct (sys_threads sys !! i) as [t|] eqn:E; [|done]. cbn [mbind option_bind].
    pose proof (lookup_lt_Some _ _ _ E) as Hlt. specialize (Ht i t E).
    destruct t as [reply|R guard section next|m next|m next]; cbn [run_thread wp] in *.
    + destruct (restart reply) as [t'|] eqn:Er; [|done]. intros [= <-].
      split; [|exists true; split; [reflexivity|by right]].
      specialize (Ht (sys_state sys) ltac:(reflexivity) Hi). constructor; [done|..]; cbn.
      * intros m j. rewrite length_insert. apply Ho.
      * intros j t. rewrite held_by_with.
        intros [(-> & -> & _)|[Hne Hj]]%list_lookup_insert_Some; [|by apply dp_threads].
        rewrite Ht. by eapply restart_ok.
    + destruct (guard _) eqn:Eg; [|done].
      destruct (Ht (sys_state sys) ltac:(reflexivity) Hi) as [_ Hs]. specialize (Hs Eg).
      destruct (section _) as [r s']. destruct Hs as (Hi' & Hg & Hm & Hw). intros [= <-].
      split; [|by exists (holds_commit (held_by i sys)); auto].
      constructor; [done|..]; cbn.
      * intros m j. rewrite length_insert. apply Ho.
      * intros j t. rewrite held_by_with.
        intros [(-> & <- & _)|[Hne Hj]]%list_lookup_insert_Some; [done|].
        eapply wp_rely; [by eapply (guar_rely i j sys)|]. by apply (dp_threads _ Hd).
    + destruct (sys_owner sys m) as [k|] eqn:Em; [done|]. intros [= <-].
      split; [|exists true; split; [reflexivity|by right]].
      destruct (Ht (sys_state sys) ltac:(reflexivity) Hi) as [_ Hw].
      apply disciplined_owner; auto. by rewrite bool_decide_true.
    + case_decide as Em; [|done]. intros [= <-].
      split; [|exists true; split; [reflexivity|by right]].
      destruct (Ht (sys_state sys) ltac:(reflexivity) Hi) as [_ Hw].
      apply disciplined_owner; auto.
  - intros [= <-]. split; [|exists true; split; [reflexivity|by right]].
    constructor; [done|..]; cbn.
    + intros m i Hm. rewrite length_app. specialize (Ho m i Hm). lia.
    + intros i t. rewrite lookup_app_Some, list_lookup_singleton_Some.
      intros [Hi1|(Hl & Hz & <-)]; [by apply Ht|].
      assert (held_by i sys = free) as Hfree.
      { unfold held_by, free. f_equal; apply bool_decide_eq_false; intros Hm%Ho; lia. }
      unfold held_by in *. cbn. rewrite Hfree. by apply program_ok.
  - intros [= <-]. destruct (tick_ok time (sys_state sys) Hi) as (Hi' & Hg & Hm). cbn.
    split; [|by exists false; auto]. constructor; [done|done|]. cbn. intros i t Hit.
    eapply wp_rely; [|by apply Ht]. unfold rely. destruct (negb _); [by apply guar_weaken|done].
Qed.

Lemma disciplined_run events : ∀ sys sys', Forall allowed_event events →
  disciplined sys → exec_all events sys = Some sys' → disciplined sys'.
Proof.
  induction events as [|e events IH]; cbn [exec_all]; intros sys sys' Ha Hd.
  { by intros [= <-]. }
  inversion_clear Ha. destruct (exec e sys) as [sys1|] eqn:E; [|done]. cbn [mbind option_bind].
  apply IH; [done|]. by eapply disciplined_step.
Qed.

Lemma reachable_disciplined sys0 sys : disciplined sys0 → reachable sys0 sys → disciplined sys.
Proof. intros Hd (events & Ha & E). by eapply disciplined_run. Qed.

Lemma reachable_step sys0 sys e sys' :
  allowed_event e → reachable sys0 sys → exec e sys = Some sys' → reachable sys0 sys'.
Proof.
  intros Ha (events & Hall & E) He. exists (events ++ [e]). split; [by apply Forall_app; auto|].
  rewrite exec_all_app, E. cbn. by rewrite He.
Qed.

(** What any sequence of steps may change. *)
Lemma run_guar events : ∀ sys sys', Forall allowed_event events →
  disciplined sys → exec_all events sys = Some sys' →
  guar true (sys_state sys) (sys_state sys').
Proof.
  induction events as [|e events IH]; cbn [exec_all]; intros sys sys' Ha Hd.
  { intros [= <-]. reflexivity. }
  inversion_clear Ha. destruct (exec e sys) as [sys1|] eqn:E; [|done]. cbn [mbind option_bind].
  intros Hrun. apply disciplined_step in E as (Hd1 & h & Hg & _); [|done..].
  transitivity (sys_state sys1); [|by apply IH].
  destruct h; [done|by apply guar_weaken].
Qed.

(** ** Progress *)

Lemma holds_any_owner m i sys : sys_owner sys m = Some i → holds_any (held_by i sys) = true.
Proof.
  intros Hm. apply (bool_decide_eq_true_2 _) in Hm.
  unfold holds_any, held_by. cbn. destruct m; rewrite Hm; [done|apply orb_true_r].
Qed.

(** A thread that holds a mutex gives back what it holds by its own steps, as long as
    no other thread holds [store_mu]. *)
Lemma thread_releases t : ∀ i sys,
  disciplined sys → sys_threads sys !! i = Some t →
  sys_owner sys StoreMu = None ∨ sys_owner sys StoreMu = Some i →
  ∃ k sys', exec_all (replicate k (Run i)) sys = Some sys' ∧ disciplined sys' ∧
    ∀ m, sys_owner sys' m ≠ Some i ∧ ∀ j, j ≠ i → sys_owner sys' m = Some j ↔ sys_owner sys m = Some j.
Proof.
  induction t as [a|R guard section next IH|m next IH|m next IH]; intros i sys Hd Ht Hs;
    (destruct (holds_any (held_by i sys)) eqn:Hany;
     [|exists 0%nat, sys; split_and!; [done..|]; intros m'; split; [|done];
       intros Hm'; by rewrite (holds_any_owner m') in Hany]);
    pose proof Hd as [Hi Ho Hw]; specialize (Hw i _ Ht); cbn [wp] in Hw;
    pose proof (Hw (sys_state sys) ltac:(reflexivity) Hi) as Hnow.
  - by rewrite Hnow in Hany.
  - destruct Hnow as [Hg _]. specialize (Hg Hany).
    assert (∃ sys1, exec (Run i) sys = Some sys1 ∧ sys_owner sys1 = sys_owner sys ∧
              ∃ r, sys_threads sys1 !! i = Some (next r)) as (sys1 & E & Eo & r & Er).
    { cbn [exec]. rewrite Ht. cbn [mbind option_bind run_thread]. rewrite Hg.
      destruct (section _) as [r s']. eexists. split_and!; [done..|]. exists r. cbn.
      apply list_lookup_insert_eq. by eapply lookup_lt_Some. }
    pose proof E as [Hd1 _]%disciplined_step; [|done..].
    destruct (IH r i sys1) as (k & sys' & Ek & Hd' & Hf); [done..|by rewrite Eo|].
    exists (S k), sys'. cbn [replicate exec_all]. rewrite E. by rewrite Eo in Hf.
  - destruct Hnow as [Hm _]. destruct m; cbn [may_acquire] in Hm; [by rewrite Hany in Hm|].
    destruct Hs as [Hs|Hs].
    2: { cbn [held_by holds_store] in Hm. by rewrite bool_decide_true in Hm. }
    eassert (exec (Run i) sys = Some _) as E.
    { cbn [exec]. rewrite Ht. cbn [mbind option_bind run_thread]. by rewrite Hs. }
    pose proof E as [Hd1 _]%disciplined_step; [|done..].
    destruct (IH i _ Hd1) as (k & sys' & Ek & Hd' & Hf).
    { cbn. apply list_lookup_insert_eq. by eapply lookup_lt_Some. }
    { by right. }
    exists (S k), sys'. cbn [replicate exec_all]. rewrite E. split_and!; [done..|].
    intros m. specialize (Hf m) as [H1 H2]. split; [done|]. intros j Hj. rewrite H2 by done.
    destruct m; cbn; [done|]. rewrite Hs. split; [by intros [= ->]|done].
  - destruct Hnow as [Hm _]. rewrite held_by_holds, bool_decide_eq_true in Hm.
    eassert (exec (Run i) sys = Some _) as E.
    { cbn [exec]. rewrite Ht. cbn [mbind option_bind run_thread]. by rewrite decide_True. }
    pose proof E as [Hd1 _]%disciplined_step; [|done..].
    destruct (IH i _ Hd1) as (k & sys' & Ek & Hd' & Hf).
    { cbn. apply list_lookup_insert_eq. by eapply lookup_lt_Some. }
    { cbn. destruct m; cbn; tauto. }
    exists (S k), sys'. cbn [replicate exec_all]. rewrite E. split_and!; [done..|].
    intros m'. specialize (Hf m') as [H1 H2]. split; [done|]. intros j Hj. rewrite H2 by done.
    cbn. unfold set_owner. destruct (mutex_eqb m' m) eqn:Em; [|done].
    assert (m' = m) as -> by (by destruct m', m). rewrite Hm. split; [done|by intros [= ->]].
Qed.

(** The thread [u] runs [t] and goes on with [k]. *)
Fixpoint alike {A} (t : Thread A) (k : A → Thread Reply) (u : Thread Reply) : Prop :=
  match t with
  | Finished a => u = k a
  | Locked guard section next =>
      ∃ next', u = Locked guard section next' ∧ ∀ r, alike (next r) k (next' r)
  | Acquire m next => ∃ next', u = Acquire m next' ∧ alike next k next'
  | Release m next => ∃ next', u = Release m next' ∧ alike next k next'
  end.

Lemma alike_bind {A} (t : Thread A) k : alike t k (t ≫= k).
Proof. induction t; cbn [alike]; [done|eexists; split; [done|]..]; done. Qed.

Lemma alike_self t : alike t Finished t.
Proof. induction t; cbn [alike]; [done|eexists; split; [done|]..]; done. Qed.

(** One step of a thread that does not wait, and the steps after it. *)
Lemma steps_on i sys t' sys1 (P : System → Prop) :
  exec (Run i) sys = Some sys1 → sys_threads sys1 = <[i := t']> (sys_threads sys) →
  (∃ n sys', exec_all (replicate n (Run i)) sys1 = Some sys' ∧ P sys' ∧
     ∃ u, sys_threads sys' = <[i := u]> (sys_threads sys1)) →
  ∃ n sys', exec_all (replicate n (Run i)) sys = Some sys' ∧ P sys' ∧
    ∃ u, sys_threads sys' = <[i := u]> (sys_threads sys).
Proof.
  intros E Ht (n & sys' & En & HP & u & Hu). exists (S n), sys'. cbn [replicate exec_all].
  rewrite E. split_and!; [done..|]. exists u. by rewrite Hu, Ht, list_insert_insert_eq.
Qed.

(** Where no other thread holds a mutex, the steps of one thread run what it is about to
    do as if it were alone; the other threads stay where they are. *)
Lemma alone_steps {A} (t : Thread A) k (Q : A → Held → State → Prop) : ∀ i u sys r s',
  alike t k u → disciplined sys → sys_threads sys !! i = Some u →
  (∀ m, sys_owner sys m = None ∨ sys_owner sys m = Some i) →
  wp (held_by i sys) t Q (sys_state sys) → alone t (sys_state sys) = Some (r, s') →
  ∃ n sys', exec_all (replicate n (Run i)) sys = Some sys' ∧
    (disciplined sys' ∧ sys_state sys' = s' ∧ sys_threads sys' !! i = Some (k r) ∧
     (∀ m, sys_owner sys' m = None ∨ sys_owner sys' m = Some i) ∧ Q r (held_by i sys') s') ∧
    ∃ u, sys_threads sys' = <[i := u]> (sys_threads sys).
Proof.
  induction t as [a|R guard section next IH|m next IH|m next IH];
    intros i u sys r s' Hu Hd Ht Ho Hw Ha; pose proof (lookup_lt_Some _ _ _ Ht) as Hlt;
    specialize (Hw (sys_state sys) ltac:(reflexivity) (dp_inv _ Hd)); cbn [alone alike] in *.
  - injection Ha as <- <-. subst u. exists 0%nat, sys. split_and!; [done..|].
    exists (k a). by rewrite list_insert_id.
  - destruct Hu as (next' & -> & Hu), Hw as [_ Hw].
    destruct (guard (sys_state sys)) eqn:Eg; [|done]. specialize (Hw eq_refl).
    destruct (section (sys_state sys)) as [r1 s1] eqn:Es. destruct Hw as (_ & _ & _ & Hw).
    assert (exec (Run i) sys =
      Some (with_thread i (next' r1) (mkSystem s1 (sys_owner sys) (sys_threads sys)))) as E.
    { cbn [exec]. rewrite Ht. cbn [mbind option_bind run_thread]. by rewrite Eg, Es. }
    pose proof E as [Hd1 _]%disciplined_step; [|done..]. eapply steps_on; [exact E|done|].
    eapply IH; [apply Hu|done|by apply list_lookup_insert_eq|exact Ho|exact Hw|exact Ha].
  - destruct Hu as (next' & -> & Hu), Hw as [Hm Hw].
    assert (sys_owner sys m = None) as Hn.
    { destruct (Ho m) as [|Hi]; [done|]. destruct m; cbn [may_acquire] in Hm.
      - apply holds_any_owner in Hi. by rewrite Hi in Hm.
      - cbn [held_by holds_store] in Hm. by rewrite Hi, bool_decide_true in Hm. }
    eassert (exec (Run i) sys = Some _) as E.
    { cbn [exec]. rewrite Ht. cbn [mbind option_bind run_thread]. by rewrite Hn. }
    pose proof E as [Hd1 _]%disciplined_step; [|done..]. eapply steps_on; [exact E|done|].
    eapply IH; [apply Hu|done|by apply list_lookup_insert_eq| | |exact Ha].
    + intros m'. cbn. unfold set_owner. destruct (mutex_eqb m' m); [by right|apply Ho].
    + rewrite held_by_with, held_by_set. by rewrite bool_decide_true.
  - destruct Hu as (next' & -> & Hu), Hw as [Hm Hw].
    rewrite held_by_holds, bool_decide_eq_true in Hm.
    eassert (exec (Run i) sys = Some _) as E.
    { cbn [exec]. rewrite Ht. cbn [mbind option_bind run_thread]. by rewrite decide_True. }
    pose proof E as [Hd1 _]%disciplined_step; [|done..]. eapply steps_on; [exact E|done|].
    eapply IH; [apply Hu|done|by apply list_lookup_insert_eq| | |exact Ha].
    + intros m'. cbn. unfold set_owner. destruct (mutex_eqb m' m); [by left|apply Ho].
    + rewrite held_by_with, held_by_set. by rewrite bool_decide_false.
Qed.

(** A thread that comes to its end alone. *)
Lemma alone_schedule t : ∀ i sys r s',
  disciplined sys → sys_threads sys !! i = Some t →
  (∀ m, sys_owner sys m = None ∨ sys_owner sys m = Some i) →
  alone t (sys_state sys) = Some (r, s') →
  ∃ k sys', exec_all (replicate k (Run i)) sys = Some sys' ∧ disciplined sys' ∧
    sys_state sys' = s' ∧ sys_threads sys' !! i = Some (Finished r).
Proof.
  intros i sys r s' Hd Ht Ho Ha.
  destruct (alone_steps t Finished done_free i t sys r s') as (n & sys' & E & (? & ? & ? & _) & _);
    [apply alike_self|done..|by apply dp_threads|done|].
  by exists n, sys'.
Qed.

(** Whatever the threads are doing, the holders of the mutexes can give them back by
    their own steps: the order of the mutexes rules out a deadlock. *)
Lemma locks_free sys : disciplined sys →
  ∃ steps sys', exec_all (Run <$> steps) sys = Some sys' ∧ disciplined sys' ∧
    (∀ i, i ∈ steps → ∃ m, sys_owner sys m = Some i) ∧
    ∀ m, sys_owner sys' m = None.
Proof.
  intros Hd.
  assert (∀ m sys, disciplined sys → (m = CommitMu → sys_owner sys StoreMu = None) →
    ∃ steps sys', exec_all (Run <$> steps) sys = Some sys' ∧ disciplined sys' ∧
      (∀ i, i ∈ steps → sys_owner sys m = Some i) ∧ sys_owner sys' m = None ∧
      ∀ m' j, sys_owner sys' m' = Some j → sys_owner sys m' = Some j) as Hone.
  { clear sys Hd. intros m sys Hd Hm. destruct (sys_owner sys m) as [i|] eqn:Em.
    2: { exists [], sys. split_and!; [done|done|by intros i ?%elem_of_nil|done|done]. }
    destruct (sys_threads sys !! i) as [t|] eqn:Et.
    2: { apply lookup_ge_None in Et. apply (dp_owner _ Hd) in Em. lia. }
    destruct (thread_releases t i sys Hd Et) as (k & sys' & Ek & Hd' & Hf).
    { destruct m; [left; by apply Hm|by right]. }
    exists (replicate k i), sys'. rewrite fmap_replicate. split_and!; [done|done|..].
    - intros j [-> _]%elem_of_replicate. done.
    - destruct (Hf m) as [H1 H2]. destruct (sys_owner sys' m) as [j|] eqn:Ej; [|done].
      assert (j ≠ i) as Hj by congruence. apply H2 in Hj. rewrite Em in Hj.
      destruct Hj as [Hj _]. specialize (Hj eq_refl). congruence.
    - intros m' j Hj. destruct (Hf m') as [H1 H2]. apply H2; [congruence|done]. }
  destruct (Hone StoreMu sys Hd) as (steps1 & sys1 & E1 & Hd1 & Hs1 & Hn1 & Ho1); [done|].
  destruct (Hone CommitMu sys1 Hd1) as (steps2 & sys2 & E2 & Hd2 & Hs2 & Hn2 & Ho2); [done|].
  exists (steps1 ++ steps2), sys2. rewrite fmap_app, exec_all_app, E1. split_and!; [done|done|..].
  - intros i [Hi|Hi]%elem_of_app; [by eauto|]. exists CommitMu. apply Ho1. by apply Hs2.
  - intros []; [done|]. destruct (sys_owner sys2 StoreMu) eqn:E; [|done].
    apply Ho2 in E. congruence.
Qed.

End Threads.
