(* ===== verification/RuntimeState.v ===== *)
(** * The coordinator's state and its critical sections

    The data of [runtime.hpp] and [runtime.cpp], and one function for each block
    the sources run under [mu] or [store_mu].  A [std::shared_ptr<Slot>] is an index
    into [co_heap], so a slot that was dropped from [co_slots] lives on for the
    threads that still hold it.  The reads of the wall clock are reads of
    [co_clock], which time may set to any value; [co_live_workers] counts the
    threads a join still waits for. *)

From Stdlib Require Import String.
From S2P Require Import Prelude StdAlgo Checked Status Hash Model ModelDigest Validate.
From S2P Require Import Explain Records Wire Store StoreOps Place.

(** ** Attempts *)

Definition AttemptStateName (v : AttemptState) : string :=
  match v with
  | AttemptState.kQueued => "QUEUED"
  | AttemptState.kRunning => "RUNNING"
  | AttemptState.kCommitted => "COMMITTED"
  | AttemptState.kRejected => "REJECTED"
  | AttemptState.kCancelled => "CANCELLED"
  | AttemptState.kFenced => "FENCED"
  | AttemptState.kFailed => "FAILED"
  end.

Record AttemptOutcome := mkOutcome {
  ao_attempt : N;
  ao_state : AttemptState;
  ao_code : StatusCode;
  ao_decision : PlacementDecision;
  ao_placement_id : N;
  ao_placement_generation : N;
}.

Definition ao_with_end (state : AttemptState) (code : StatusCode) (o : AttemptOutcome)
    : AttemptOutcome :=
  mkOutcome (ao_attempt o) state code (ao_decision o) (ao_placement_id o)
    (ao_placement_generation o).

Definition ao_with_state (state : AttemptState) (o : AttemptOutcome) : AttemptOutcome :=
  mkOutcome (ao_attempt o) state (ao_code o) (ao_decision o) (ao_placement_id o)
    (ao_placement_generation o).

Definition ao_with_decision (decision : PlacementDecision) (o : AttemptOutcome)
    : AttemptOutcome :=
  mkOutcome (ao_attempt o) (ao_state o) (ao_code o) decision (ao_placement_id o)
    (ao_placement_generation o).

Definition ao_with_placement (placement_id : N) (placement_generation : N) (o : AttemptOutcome)
    : AttemptOutcome :=
  mkOutcome (ao_attempt o) (ao_state o) (ao_code o) (ao_decision o) placement_id
    placement_generation.

(** A default-constructed request. *)
Definition PlacementPolicy_init : PlacementPolicy :=
  mkPolicy 0 0 [] [] [] [] (mkLocality None None []) (mkFailureDomains None [] false 0)
    (mkAffinity false []) (mkAdmission 0 GateAction.kPlace) (mkService false 0)
    (mkChurn ChurnAction.kAllowMove false 0 0)
    (mkEvidencePolicy EvidencePolicyMode.kHardExclude EvidencePolicyMode.kHardExclude) 0.

Definition AuthorityExpectation_init : AuthorityExpectation := mkExpectation 0 0 0 0 0 0 0.

Definition PlacementRequest_init : PlacementRequest :=
  mkRequest 0 0 (mkCandidateSet 0 0 []) (mkSnapshot 0 0 [])
    (mkQos 0 0 ServiceClass.kBestEffort PriorityClass.kNormal 0 0) PlacementPolicy_init
    (mkBundle 0 0 []) None [] AuthorityExpectation_init (mkProvenance "" "" 0 0) 0.

Record Slot := mkSlot {
  sl_attempt : N;
  sl_request : PlacementRequest;
  sl_request_digest : Digest;
  sl_terminal : bool;
  sl_commit_boundary_crossed : bool;
  sl_cancel_requested : bool;
  sl_running : bool;
  sl_in_worker : bool;
  sl_journalled_start : bool;
  sl_pending_terminal : bool;
  sl_pending_phase : AttemptPhase;
  sl_pending_code : StatusCode;
  sl_outcome : AttemptOutcome;
}.

Definition sl_with_end (terminal : bool) (outcome : AttemptOutcome) (slot : Slot) : Slot :=
  mkSlot (sl_attempt slot) (sl_request slot) (sl_request_digest slot) terminal
    (sl_commit_boundary_crossed slot) (sl_cancel_requested slot) (sl_running slot)
    (sl_in_worker slot) (sl_journalled_start slot) (sl_pending_terminal slot)
    (sl_pending_phase slot) (sl_pending_code slot) outcome.

Definition sl_with_outcome (outcome : AttemptOutcome) (slot : Slot) : Slot :=
  mkSlot (sl_attempt slot) (sl_request slot) (sl_request_digest slot) (sl_terminal slot)
    (sl_commit_boundary_crossed slot) (sl_cancel_requested slot) (sl_running slot)
    (sl_in_worker slot) (sl_journalled_start slot) (sl_pending_terminal slot)
    (sl_pending_phase slot) (sl_pending_code slot) outcome.

Definition sl_with_crossed (commit_boundary_crossed : bool) (slot : Slot) : Slot :=
  mkSlot (sl_attempt slot) (sl_request slot) (sl_request_digest slot) (sl_terminal slot)
    commit_boundary_crossed (sl_cancel_requested slot) (sl_running slot) (sl_in_worker slot)
    (sl_journalled_start slot) (sl_pending_terminal slot) (sl_pending_phase slot)
    (sl_pending_code slot) (sl_outcome slot).

Definition sl_with_cancel (cancel_requested : bool) (slot : Slot) : Slot :=
  mkSlot (sl_attempt slot) (sl_request slot) (sl_request_digest slot) (sl_terminal slot)
    (sl_commit_boundary_crossed slot) cancel_requested (sl_running slot) (sl_in_worker slot)
    (sl_journalled_start slot) (sl_pending_terminal slot) (sl_pending_phase slot)
    (sl_pending_code slot) (sl_outcome slot).

Definition sl_with_work (in_worker : bool) (outcome : AttemptOutcome) (slot : Slot) : Slot :=
  mkSlot (sl_attempt slot) (sl_request slot) (sl_request_digest slot) (sl_terminal slot)
    (sl_commit_boundary_crossed slot) (sl_cancel_requested slot) (sl_running slot) in_worker
    (sl_journalled_start slot) (sl_pending_terminal slot) (sl_pending_phase slot)
    (sl_pending_code slot) outcome.

Definition sl_with_in_worker (in_worker : bool) (slot : Slot) : Slot :=
  mkSlot (sl_attempt slot) (sl_request slot) (sl_request_digest slot) (sl_terminal slot)
    (sl_commit_boundary_crossed slot) (sl_cancel_requested slot) (sl_running slot) in_worker
    (sl_journalled_start slot) (sl_pending_terminal slot) (sl_pending_phase slot)
    (sl_pending_code slot) (sl_outcome slot).

Definition sl_with_run (running : bool) (outcome : AttemptOutcome) (slot : Slot) : Slot :=
  mkSlot (sl_attempt slot) (sl_request slot) (sl_request_digest slot) (sl_terminal slot)
    (sl_commit_boundary_crossed slot) (sl_cancel_requested slot) running (sl_in_worker slot)
    (sl_journalled_start slot) (sl_pending_terminal slot) (sl_pending_phase slot)
    (sl_pending_code slot) outcome.

Definition sl_with_start (journalled_start : bool) (pending_terminal : bool) (slot : Slot)
    : Slot :=
  mkSlot (sl_attempt slot) (sl_request slot) (sl_request_digest slot) (sl_terminal slot)
    (sl_commit_boundary_crossed slot) (sl_cancel_requested slot) (sl_running slot)
    (sl_in_worker slot) journalled_start pending_terminal (sl_pending_phase slot)
    (sl_pending_code slot) (sl_outcome slot).

Definition sl_with_pending (pending_terminal : bool) (pending_phase : AttemptPhase)
    (pending_code : StatusCode) (slot : Slot) : Slot :=
  mkSlot (sl_attempt slot) (sl_request slot) (sl_request_digest slot) (sl_terminal slot)
    (sl_commit_boundary_crossed slot) (sl_cancel_requested slot) (sl_running slot)
    (sl_in_worker slot) (sl_journalled_start slot) pending_terminal pending_phase pending_code
    (sl_outcome slot).

(** [std::make_shared<Slot>()]. *)
Definition Slot_init : Slot :=
  mkSlot 0 PlacementRequest_init (mkDigest 0 0) false false false false false false false
    AttemptPhase.kCancelled StatusCode.kCancelled
    (mkOutcome 0 AttemptState.kQueued StatusCode.kOk PlacementDecision_init 0 0).

(** [std::make_shared<Slot>()] with the four fields [RegisterAttempt] fills in. *)
Definition Slot_admitted (attempt : N) (request : PlacementRequest) (digest : Digest) : Slot :=
  mkSlot attempt request digest false false false false false false false
    AttemptPhase.kCancelled StatusCode.kCancelled
    (mkOutcome attempt AttemptState.kQueued StatusCode.kOk PlacementDecision_init 0 0).

(** ** The coordinator *)

Module RunState.
Inductive RunState :=
  | kRunning
  | kShuttingDown
  | kStopped.
End RunState.
Abbreviation RunState := RunState.RunState.

#[export] Instance RunState_eq_dec : EqDecision RunState.
Proof. solve_decision. Defined.
#[export] Instance AttemptState_eq_dec : EqDecision AttemptState.
Proof. solve_decision. Defined.

Record CoordinatorOptions := mkCoordinatorOptions {
  opt_limits : Limits;
  opt_store : StoreOptions;
  opt_store_path : string;
  opt_worker_threads : N;
  opt_queue_capacity : N;
  opt_max_retained_attempts : N;
  opt_initial_epoch : N;
  opt_incarnation : N;
  opt_seed : N;
}.

Record CoordinatorStats := mkCoordinatorStats {
  cs_submitted : N;
  cs_accepted : N;
  cs_duplicate_replays : N;
  cs_duplicate_conflicts : N;
  cs_rejected_queue_full : N;
  cs_rejected_shutting_down : N;
  cs_placed : N;
  cs_rejected : N;
  cs_cancelled : N;
  cs_fenced : N;
  cs_failed : N;
  cs_queued : N;
  cs_active : N;
  cs_completed : N;
}.

Definition CoordinatorStats_init : CoordinatorStats :=
  mkCoordinatorStats 0 0 0 0 0 0 0 0 0 0 0 0 0 0.

Definition count_submitted (t : CoordinatorStats) : CoordinatorStats :=
  mkCoordinatorStats (wrap 64 (cs_submitted t + 1)) (cs_accepted t) (cs_duplicate_replays t)
    (cs_duplicate_conflicts t) (cs_rejected_queue_full t) (cs_rejected_shutting_down t)
    (cs_placed t) (cs_rejected t) (cs_cancelled t) (cs_fenced t) (cs_failed t) (cs_queued t)
    (cs_active t) (cs_completed t).

Definition count_accepted (t : CoordinatorStats) : CoordinatorStats :=
  mkCoordinatorStats (cs_submitted t) (wrap 64 (cs_accepted t + 1)) (cs_duplicate_replays t)
    (cs_duplicate_conflicts t) (cs_rejected_queue_full t) (cs_rejected_shutting_down t)
    (cs_placed t) (cs_rejected t) (cs_cancelled t) (cs_fenced t) (cs_failed t) (cs_queued t)
    (cs_active t) (cs_completed t).

Definition count_duplicate_replays (t : CoordinatorStats) : CoordinatorStats :=
  mkCoordinatorStats (cs_submitted t) (cs_accepted t) (wrap 64 (cs_duplicate_replays t + 1))
    (cs_duplicate_conflicts t) (cs_rejected_queue_full t) (cs_rejected_shutting_down t)
    (cs_placed t) (cs_rejected t) (cs_cancelled t) (cs_fenced t) (cs_failed t) (cs_queued t)
    (cs_active t) (cs_completed t).

Definition count_duplicate_conflicts (t : CoordinatorStats) : CoordinatorStats :=
  mkCoordinatorStats (cs_submitted t) (cs_accepted t) (cs_duplicate_replays t) (wrap 64
    (cs_duplicate_conflicts t + 1)) (cs_rejected_queue_full t) (cs_rejected_shutting_down t)
    (cs_placed t) (cs_rejected t) (cs_cancelled t) (cs_fenced t) (cs_failed t) (cs_queued t)
    (cs_active t) (cs_completed t).

Definition count_rejected_queue_full (t : CoordinatorStats) : CoordinatorStats :=
  mkCoordinatorStats (cs_submitted t) (cs_accepted t) (cs_duplicate_replays t)
    (cs_duplicate_conflicts t) (wrap 64 (cs_rejected_queue_full t + 1))
    (cs_rejected_shutting_down t) (cs_placed t) (cs_rejected t) (cs_cancelled t) (cs_fenced t)
    (cs_failed t) (cs_queued t) (cs_active t) (cs_completed t).

Definition count_rejected_shutting_down (t : CoordinatorStats) : CoordinatorStats :=
  mkCoordinatorStats (cs_submitted t) (cs_accepted t) (cs_duplicate_replays t)
    (cs_duplicate_conflicts t) (cs_rejected_queue_full t) (wrap 64 (cs_rejected_shutting_down
    t + 1)) (cs_placed t) (cs_rejected t) (cs_cancelled t) (cs_fenced t) (cs_failed t)
    (cs_queued t) (cs_active t) (cs_completed t).

Definition count_placed (t : CoordinatorStats) : CoordinatorStats :=
  mkCoordinatorStats (cs_submitted t) (cs_accepted t) (cs_duplicate_replays t)
    (cs_duplicate_conflicts t) (cs_rejected_queue_full t) (cs_rejected_shutting_down t) (wrap
    64 (cs_placed t + 1)) (cs_rejected t) (cs_cancelled t) (cs_fenced t) (cs_failed t)
    (cs_queued t) (cs_active t) (cs_completed t).

Definition count_rejected (t : CoordinatorStats) : CoordinatorStats :=
  mkCoordinatorStats (cs_submitted t) (cs_accepted t) (cs_duplicate_replays t)
    (cs_duplicate_conflicts t) (cs_rejected_queue_full t) (cs_rejected_shutting_down t)
    (cs_placed t) (wrap 64 (cs_rejected t + 1)) (cs_cancelled t) (cs_fenced t) (cs_failed t)
    (cs_queued t) (cs_active t) (cs_completed t).

Definition count_cancelled (t : CoordinatorStats) : CoordinatorStats :=
  mkCoordinatorStats (cs_submitted t) (cs_accepted t) (cs_duplicate_replays t)
    (cs_duplicate_conflicts t) (cs_rejected_queue_full t) (cs_rejected_shutting_down t)
    (cs_placed t) (cs_rejected t) (wrap 64 (cs_cancelled t + 1)) (cs_fenced t) (cs_failed t)
    (cs_queued t) (cs_active t) (cs_completed t).

Definition count_fenced (t : CoordinatorStats) : CoordinatorStats :=
  mkCoordinatorStats (cs_submitted t) (cs_accepted t) (cs_duplicate_replays t)
    (cs_duplicate_conflicts t) (cs_rejected_queue_full t) (cs_rejected_shutting_down t)
    (cs_placed t) (cs_rejected t) (cs_cancelled t) (wrap 64 (cs_fenced t + 1)) (cs_failed t)
    (cs_queued t) (cs_active t) (cs_completed t).

Definition count_failed (t : CoordinatorStats) : CoordinatorStats :=
  mkCoordinatorStats (cs_submitted t) (cs_accepted t) (cs_duplicate_replays t)
    (cs_duplicate_conflicts t) (cs_rejected_queue_full t) (cs_rejected_shutting_down t)
    (cs_placed t) (cs_rejected t) (cs_cancelled t) (cs_fenced t) (wrap 64 (cs_failed t + 1))
    (cs_queued t) (cs_active t) (cs_completed t).

Definition count_completed (t : CoordinatorStats) : CoordinatorStats :=
  mkCoordinatorStats (cs_submitted t) (cs_accepted t) (cs_duplicate_replays t)
    (cs_duplicate_conflicts t) (cs_rejected_queue_full t) (cs_rejected_shutting_down t)
    (cs_placed t) (cs_rejected t) (cs_cancelled t) (cs_fenced t) (cs_failed t) (cs_queued t)
    (cs_active t) (wrap 64 (cs_completed t + 1)).

Record CoordinatorState := mkCoordinator {
  co_options : CoordinatorOptions;
  co_store : option World;
  co_authority : AuthorityExpectation;
  co_epoch : N;
  co_incarnation : N;
  co_state : RunState;
  co_queue : list N;
  co_slot_order : list N;
  co_queue_depth : N;
  co_active : N;
  co_slots : gmap N nat;
  co_stats : CoordinatorStats;
  co_next_placement_id : N;
  co_latest_in_memory : gmap N PlacementRecord;
  co_worker_count : N;
  co_heap : list Slot;
  co_live_workers : N;
  co_clock : Z;
}.

Definition co_with_store (store : option World) (st : CoordinatorState) : CoordinatorState :=
  mkCoordinator (co_options st) store (co_authority st) (co_epoch st) (co_incarnation st)
    (co_state st) (co_queue st) (co_slot_order st) (co_queue_depth st) (co_active st)
    (co_slots st) (co_stats st) (co_next_placement_id st) (co_latest_in_memory st)
    (co_worker_count st) (co_heap st) (co_live_workers st) (co_clock st).

Definition co_with_authority (authority : AuthorityExpectation) (epoch : N) (st : CoordinatorState)
    : CoordinatorState :=
  mkCoordinator (co_options st) (co_store st) authority epoch (co_incarnation st) (co_state st)
    (co_queue st) (co_slot_order st) (co_queue_depth st) (co_active st) (co_slots st)
    (co_stats st) (co_next_placement_id st) (co_latest_in_memory st) (co_worker_count st)
    (co_heap st) (co_live_workers st) (co_clock st).

Definition co_with_state (state : RunState) (st : CoordinatorState) : CoordinatorState :=
  mkCoordinator (co_options st) (co_store st) (co_authority st) (co_epoch st) (co_incarnation st)
    state (co_queue st) (co_slot_order st) (co_queue_depth st) (co_active st) (co_slots st)
    (co_stats st) (co_next_placement_id st) (co_latest_in_memory st) (co_worker_count st)
    (co_heap st) (co_live_workers st) (co_clock st).

Definition co_with_queue (queue : list N) (queue_depth : N) (st : CoordinatorState)
    : CoordinatorState :=
  mkCoordinator (co_options st) (co_store st) (co_authority st) (co_epoch st) (co_incarnation st)
    (co_state st) queue (co_slot_order st) queue_depth (co_active st) (co_slots st) (co_stats st)
    (co_next_placement_id st) (co_latest_in_memory st) (co_worker_count st) (co_heap st)
    (co_live_workers st) (co_clock st).

Definition co_with_slot_order (slot_order : list N) (st : CoordinatorState) : CoordinatorState :=
  mkCoordinator (co_options st) (co_store st) (co_authority st) (co_epoch st) (co_incarnation st)
    (co_state st) (co_queue st) slot_order (co_queue_depth st) (co_active st) (co_slots st)
    (co_stats st) (co_next_placement_id st) (co_latest_in_memory st) (co_worker_count st)
    (co_heap st) (co_live_workers st) (co_clock st).

Definition co_with_active (active : N) (st : CoordinatorState) : CoordinatorState :=
  mkCoordinator (co_options st) (co_store st) (co_authority st) (co_epoch st) (co_incarnation st)
    (co_state st) (co_queue st) (co_slot_order st) (co_queue_depth st) active (co_slots st)
    (co_stats st) (co_next_placement_id st) (co_latest_in_memory st) (co_worker_count st)
    (co_heap st) (co_live_workers st) (co_clock st).

Definition co_with_slots (slots : gmap N nat) (st : CoordinatorState) : CoordinatorState :=
  mkCoordinator (co_options st) (co_store st) (co_authority st) (co_epoch st) (co_incarnation st)
    (co_state st) (co_queue st) (co_slot_order st) (co_queue_depth st) (co_active st) slots
    (co_stats st) (co_next_placement_id st) (co_latest_in_memory st) (co_worker_count st)
    (co_heap st) (co_live_workers st) (co_clock st).

Definition co_with_stats (stats : CoordinatorStats) (st : CoordinatorState) : CoordinatorState :=
  mkCoordinator (co_options st) (co_store st) (co_authority st) (co_epoch st) (co_incarnation st)
    (co_state st) (co_queue st) (co_slot_order st) (co_queue_depth st) (co_active st)
    (co_slots st) stats (co_next_placement_id st) (co_latest_in_memory st) (co_worker_count st)
    (co_heap st) (co_live_workers st) (co_clock st).

Definition co_with_memory (next_placement_id : N)
    (latest_in_memory : gmap N PlacementRecord) (st : CoordinatorState) : CoordinatorState :=
  mkCoordinator (co_options st) (co_store st) (co_authority st) (co_epoch st) (co_incarnation st)
    (co_state st) (co_queue st) (co_slot_order st) (co_queue_depth st) (co_active st)
    (co_slots st) (co_stats st) next_placement_id latest_in_memory (co_worker_count st)
    (co_heap st) (co_live_workers st) (co_clock st).

Definition co_with_heap (heap : list Slot) (st : CoordinatorState) : CoordinatorState :=
  mkCoordinator (co_options st) (co_store st) (co_authority st) (co_epoch st) (co_incarnation st)
    (co_state st) (co_queue st) (co_slot_order st) (co_queue_depth st) (co_active st)
    (co_slots st) (co_stats st) (co_next_placement_id st) (co_latest_in_memory st)
    (co_worker_count st) heap (co_live_workers st) (co_clock st).

Definition co_with_live_workers (live_workers : N) (st : CoordinatorState) : CoordinatorState :=
  mkCoordinator (co_options st) (co_store st) (co_authority st) (co_epoch st) (co_incarnation st)
    (co_state st) (co_queue st) (co_slot_order st) (co_queue_depth st) (co_active st)
    (co_slots st) (co_stats st) (co_next_placement_id st) (co_latest_in_memory st)
    (co_worker_count st) (co_heap st) live_workers (co_clock st).

Definition co_with_clock (clock : Z) (st : CoordinatorState) : CoordinatorState :=
  mkCoordinator (co_options st) (co_store st) (co_authority st) (co_epoch st) (co_incarnation st)
    (co_state st) (co_queue st) (co_slot_order st) (co_queue_depth st) (co_active st)
    (co_slots st) (co_stats st) (co_next_placement_id st) (co_latest_in_memory st)
    (co_worker_count st) (co_heap st) (co_live_workers st) clock.


(** ** Slots *)

(** [*slot]; a dangling reference is never followed. *)
Definition slot_at (ref : nat) (st : CoordinatorState) : Slot := nth ref (co_heap st) Slot_init.

Definition upd_slot (ref : nat) (f : Slot → Slot) (st : CoordinatorState) : CoordinatorState :=
  co_with_heap (alter f ref (co_heap st)) st.

Definition upd_stats (f : CoordinatorStats → CoordinatorStats) (st : CoordinatorState)
    : CoordinatorState :=
  co_with_stats (f (co_stats st)) st.

(** The loop of [ReapRetainedSlots]. *)
Fixpoint reap (fuel : nat) (limit scanned : N) (st : CoordinatorState) : CoordinatorState :=
  match fuel with
  | O => st
  | S fuel =>
      if negb (limit <? N.of_nat (base.size (co_slots st))) then st else
      match co_slot_order st with
      | [] => st
      | oldest :: rest =>
          if negb (scanned <? size (co_slot_order st)) then st else
          match co_slots st !! oldest with
          | None => reap fuel limit (scanned + 1) (co_with_slot_order rest st)
          | Some ref =>
              if negb (sl_terminal (slot_at ref st)) then
                reap fuel limit (scanned + 1) (co_with_slot_order (rest ++ [oldest]) st)
              else
                reap fuel limit 0
                  (co_with_slots (delete oldest (co_slots st)) (co_with_slot_order rest st))
          end
      end
  end.

(** The rounds a reaping takes at most: a round that drops an attempt restarts a scan
    of the others. *)
Definition reap_fuel (st : CoordinatorState) : nat :=
  let n := length (co_slot_order st) in (n + 1) * (n + 1).

Definition ReapRetainedSlots (st : CoordinatorState) : CoordinatorState :=
  reap (reap_fuel st) (opt_max_retained_attempts (co_options st)) 0 st.

(** The counter of a terminal state. *)
Definition count_state (state : AttemptState) (t : CoordinatorStats) : CoordinatorStats :=
  match state with
  | AttemptState.kCommitted => count_placed t
  | AttemptState.kRejected => count_rejected t
  | AttemptState.kCancelled => count_cancelled t
  | AttemptState.kFenced => count_fenced t
  | AttemptState.kFailed => count_failed t
  | AttemptState.kQueued | AttemptState.kRunning => t
  end.

Definition FinalizeLocked (ref : nat) (state : AttemptState) (code : StatusCode)
    (st : CoordinatorState) : CoordinatorState :=
  if sl_terminal (slot_at ref st) then st else
  upd_stats (λ t, count_completed (count_state state t))
    (upd_slot ref (λ slot, sl_with_end true (ao_with_end state code (sl_outcome slot)) slot) st).

(** [FinalizeShutdownSlot], with the list of attempts to journal. *)
Definition FinalizeShutdownSlot (ref : nat) (acc : CoordinatorState * list N)
    : CoordinatorState * list N :=
  let '(st, journal_cancelled) := acc in
  let st := upd_slot ref (sl_with_cancel true) st in
  let st := FinalizeLocked ref AttemptState.kCancelled StatusCode.kShuttingDown st in
  let slot := slot_at ref st in
  if sl_journalled_start slot then (st, journal_cancelled ++ [sl_attempt slot])
  else (upd_slot ref (sl_with_pending true AttemptPhase.kCancelled StatusCode.kShuttingDown) st,
        journal_cancelled).

(** ** The store *)

Definition has_store (st : CoordinatorState) : bool := bool_decide (is_Some (co_store st)).

(** A call on [*st.store]; every caller has compared [st.store] with null. *)
Definition with_store {A} (op : Io A) (st : CoordinatorState) : Result A * CoordinatorState :=
  match co_store st with
  | Some world => let '(result, world) := op world in (result, co_with_store (Some world) st)
  | None => (Error (mkStatus StatusCode.kNotRunning "store is not open"), st)
  end.

(** The record of an attempt in a phase. *)
Definition attempt_record (ref : nat) (phase : AttemptPhase) (code : StatusCode)
    (st : CoordinatorState) : AttemptRecord :=
  let slot := slot_at ref st in
  mkAttempt (sl_attempt slot) (co_incarnation st)
    (exp_fabric_epoch (rq_expected (sl_request slot))) (rq_flow (sl_request slot)) phase code
    (sl_request_digest slot) 0 (co_clock st).

(** The block of [JournalTerminal] under [store_mu]; its status is ignored. *)
Definition journal_phase (ref : nat) (phase : AttemptPhase) (code : StatusCode)
    (st : CoordinatorState) : CoordinatorState :=
  let record := attempt_record ref phase code st in
  snd (match phase with
       | AttemptPhase.kStarted => with_store (AppendAttemptStart record) st
       | _ => with_store (AppendAttemptTerminal record) st
       end).

(** [CommitRecord] where a store is open. *)
Definition commit_in_store (intent : PlacementIntent) (delta : IncumbentDelta)
    (decision_digest : Digest) (commit_epoch : N) (st : CoordinatorState)
    : Result PlacementRecord * CoordinatorState :=
  with_store (CommitPlacement intent delta decision_digest (co_incarnation st) commit_epoch
                (co_clock st)) st.

(** [CommitRecord] without a store. *)
Definition commit_in_memory (intent : PlacementIntent) (delta : IncumbentDelta)
    (decision_digest : Digest) (commit_epoch : N) (st : CoordinatorState)
    : Result PlacementRecord * CoordinatorState :=
  let id := co_next_placement_id st in
  if id =? uint_max 64 then
    (Error (mkStatus StatusCode.kArithmeticOverflow "in-memory placement identity exhausted"), st)
  else
    let next := wrap 64 (id + 1) in
    let latest := co_latest_in_memory st in
    let record generation supersedes :=
      mkPlacement id generation intent delta decision_digest (co_incarnation st) commit_epoch 0
        supersedes (co_clock st) false in
    let commit record :=
      (Value record, co_with_memory next (<[int_flow intent := record]> latest) st) in
    match latest !! int_flow intent with
    | None => commit (record 1 0)
    | Some existing =>
        if pl_generation existing =? uint_max 64 then
          (Error (mkStatus StatusCode.kArithmeticOverflow "placement generation exhausted"),
           co_with_memory next latest st)
        else commit (record (wrap 64 (pl_generation existing + 1)) (pl_generation existing))
    end.

(** ** The commit boundary *)

(** A zero field of the current view is unconstrained. *)
Definition AuthorityMatches (current expected : AuthorityExpectation) : bool :=
  let differs field := valid (field current) && negb (field current =? field expected) in
  if differs exp_path_authority then false
  else if differs exp_candidate_set then false
  else if differs exp_capacity then false
  else if differs exp_policy then false
  else if differs exp_qos then false
  else if differs exp_evidence then false
  else true.

Definition is_running (st : CoordinatorState) : bool :=
  bool_decide (co_state st = RunState.kRunning).

(** The first block of [CommitSlot]: the refusal, or [None] once the boundary is
    crossed. *)
Definition cross_boundary (ref : nat) (st : CoordinatorState) : option Status * CoordinatorState :=
  let slot := slot_at ref st in
  let refuse status := (Some status, st) in
  if sl_terminal slot then
    refuse (mkStatus StatusCode.kAlreadyCommitted "attempt already reached a terminal state")
  else if sl_cancel_requested slot then
    refuse (mkStatus StatusCode.kCancelled "cancellation was observed before the commit boundary")
  else if negb (is_running st) then
    refuse (mkStatus StatusCode.kShuttingDown "coordinator is shutting down")
  else if negb (exp_fabric_epoch (rq_expected (sl_request slot)) =? co_epoch st) then
    refuse (mkStatus StatusCode.kFencedStaleEpoch
              "fabric epoch advanced after this attempt was admitted")
  else if negb (AuthorityMatches (co_authority st) (rq_expected (sl_request slot))) then
    refuse (mkStatus StatusCode.kStaleAuthorityGeneration
              "authority advanced after this attempt was admitted")
  else (None, upd_slot ref (sl_with_crossed true) st).

Definition note_placement (ref : nat) (record : PlacementRecord) (st : CoordinatorState)
    : CoordinatorState :=
  upd_slot ref (λ slot, sl_with_outcome
    (ao_with_placement (pl_id record) (pl_generation record) (sl_outcome slot)) slot) st.

Definition StateForFailure (code : StatusCode) : AttemptState :=
  match code with
  | StatusCode.kCancelled => AttemptState.kCancelled
  | StatusCode.kFencedStaleEpoch
  | StatusCode.kFencedStaleIncarnation
  | StatusCode.kStaleAuthorityGeneration => AttemptState.kFenced
  | StatusCode.kShuttingDown => AttemptState.kCancelled
  | _ => AttemptState.kFailed
  end.

Definition PhaseForState (state : AttemptState) : AttemptPhase :=
  match state with
  | AttemptState.kCommitted => AttemptPhase.kCommitted
  | AttemptState.kCancelled => AttemptPhase.kCancelled
  | AttemptState.kFenced => AttemptPhase.kFenced
  | _ => AttemptPhase.kRejected
  end.

(** The decision of an engine that failed its own check. *)
Definition engine_failure (note : string) : PlacementDecision :=
  with_digest
    (mkDecision Outcome.kConflictingInput StatusCode.kInternalInvariantViolation None
       AuthorityVector_zero IncumbentDelta.kNoIncumbent
       (mkExplanation false 0 0 0 0 0 [] [] [] [] [note]) (mkDigest 0 0) Status_Ok).

Definition ComputeDecision (limits : Limits) (request : PlacementRequest) : PlacementDecision :=
  let decision := Place limits request in
  if placed decision then
    match dec_intent decision with
    | Some intent =>
        match VerifyIntent limits request intent with
        | Some reason => engine_failure ("pre-commit self-verification failed: " ++ reason)
        | None => decision
        end
    | None => decision
    end
  else decision.

Definition decide_slot (ref : nat) (st : CoordinatorState) : PlacementDecision :=
  ComputeDecision (opt_limits (co_options st)) (sl_request (slot_at ref st)).

Definition set_decision (ref : nat) (decision : PlacementDecision) (st : CoordinatorState)
    : CoordinatorState :=
  upd_slot ref (λ slot, sl_with_outcome (ao_with_decision decision (sl_outcome slot)) slot) st.

(** ** Admission *)

Definition rq_with_attempt (attempt : N) (r : PlacementRequest) : PlacementRequest :=
  mkRequest (rq_flow r) (rq_flow_generation r) (rq_candidates r) (rq_capacity r) (rq_qos r)
    (rq_policy r) (rq_evidence r) (rq_incumbent r) (rq_occupied_failure_domains r)
    (rq_expected r) (rq_provenance r) attempt.

(** The checks of [RegisterAttempt] before the coordinator is locked. *)
Definition check_submission (request : PlacementRequest) (attempt : N) (limits : Limits)
    : Status :=
  if negb (valid attempt) then
    mkStatus StatusCode.kInvalidId "attempt id must be non-zero"
  else if valid (rq_attempt request) && negb (rq_attempt request =? attempt) then
    mkStatus StatusCode.kInvalidArgument
      "request attempt id does not match the submitted attempt id"
  else ValidateRequest request limits.

(** The slot is created and entered in the table. *)
Definition enter_slot (request : PlacementRequest) (attempt : N) (digest : Digest)
    (st : CoordinatorState) : CoordinatorState :=
  let ref := length (co_heap st) in
  let st := co_with_heap (co_heap st ++ [Slot_admitted attempt request digest]) st in
  let st := co_with_slots (<[attempt := ref]> (co_slots st)) st in
  let st := co_with_slot_order (co_slot_order st ++ [attempt]) st in
  upd_stats count_accepted st.

Definition add_slot (request : PlacementRequest) (attempt : N) (digest : Digest)
    (st : CoordinatorState) : nat * CoordinatorState :=
  (length (co_heap st), ReapRetainedSlots (enter_slot request attempt digest st)).

(** The block of [RegisterAttempt] under [mu]. *)
Definition admit_attempt (request : PlacementRequest) (attempt : N) (digest : Digest)
    (enforce_queue_capacity : bool) (st : CoordinatorState) : Result nat * CoordinatorState :=
  let st := upd_stats count_submitted st in
  let refuse count status := (Error status, upd_stats count st) in
  if negb (is_running st) then
    refuse count_rejected_shutting_down
      (mkStatus StatusCode.kShuttingDown "coordinator is shutting down")
  else if negb (exp_fabric_epoch (rq_expected request) =? co_epoch st) then
    refuse (λ t, t) (mkStatus StatusCode.kStaleFabricEpoch
      "request is bound to a fabric epoch that is not current")
  else
    match co_slots st !! attempt with
    | Some existing =>
        if Digest_eqb (sl_request_digest (slot_at existing st)) digest then
          refuse count_duplicate_replays (mkStatus StatusCode.kAlreadyExists
            "attempt was already admitted with an identical request")
        else
          refuse count_duplicate_conflicts (mkStatus StatusCode.kDuplicateAttemptConflict
            "attempt was already admitted with a different request")
    | None =>
        if enforce_queue_capacity && (opt_queue_capacity (co_options st) <=? co_queue_depth st)
        then
          refuse count_rejected_queue_full
            (mkStatus StatusCode.kQueueFull "placement queue is full")
        else let '(ref, st) := add_slot request attempt digest st in (Value ref, st)
    end.

Definition journal_start (ref : nat) (st : CoordinatorState) : Result unit * CoordinatorState :=
  with_store (AppendAttemptStart (attempt_record ref AttemptPhase.kStarted StatusCode.kOk st)) st.

(** The store refused the start record. *)
Definition refuse_start (ref : nat) (status : Status) (st : CoordinatorState) : CoordinatorState :=
  let st := FinalizeLocked ref AttemptState.kRejected (status_code status) st in
  if StatusCode_eqb (status_code status) StatusCode.kAlreadyExists
  then upd_stats count_duplicate_replays st else st.

(** The start is durable: the terminal phase left to this thread, if any. *)
Definition note_started (ref : nat) (st : CoordinatorState)
    : option (AttemptPhase * StatusCode) * CoordinatorState :=
  let slot := slot_at ref st in
  let pending := sl_pending_terminal slot in
  (if pending then Some (sl_pending_phase slot, sl_pending_code slot) else None,
   upd_slot ref (sl_with_start true false) st).

(** The block of [Submit] after the registration. *)
Definition enqueue (ref : nat) (attempt : N) (st : CoordinatorState) : Status * CoordinatorState :=
  if negb (is_running st) then
    (mkStatus StatusCode.kShuttingDown "coordinator is shutting down",
     FinalizeLocked ref AttemptState.kCancelled StatusCode.kShuttingDown
       (upd_stats count_rejected_shutting_down st))
  else
    (Status_Ok, co_with_queue (co_queue st ++ [attempt]) (wrap 64 (co_queue_depth st + 1)) st).

(** ** Workers *)

Inductive WorkItem :=
  | WorkerExit
  | WorkerSkip
  | WorkerSlot (ref : nat).

(** What a worker waits for. *)
Definition work_ready (st : CoordinatorState) : bool :=
  negb (list_empty (co_queue st)) || negb (is_running st).

(** The block in which a worker takes an item. *)
Definition take_work (st : CoordinatorState) : WorkItem * CoordinatorState :=
  match co_queue st with
  | [] =>
      if negb (is_running st) then
        (WorkerExit, co_with_live_workers (co_live_workers st - 1) st)
      else (WorkerSkip, st)
  | attempt :: queue =>
      let st := co_with_queue queue (wrap 64 (co_queue_depth st + 2 ^ 64 - 1)) st in
      match co_slots st !! attempt with
      | None => (WorkerSkip, st)
      | Some ref =>
          if sl_terminal (slot_at ref st) then (WorkerSkip, st)
          else
            let st := upd_slot ref (λ slot, sl_with_work true
                        (ao_with_state AttemptState.kRunning (sl_outcome slot)) slot) st in
            (WorkerSlot ref, co_with_active (wrap 64 (co_active st + 1)) st)
      end
  end.

(** The block after an item. *)
Definition end_work (ref : nat) (st : CoordinatorState) : CoordinatorState :=
  let st := upd_slot ref (sl_with_in_worker false) st in
  if 0 <? co_active st then co_with_active (co_active st - 1) st else st.

(** ** Synchronous placement *)

(** The block of [Prepare] that claims the slot. *)
Definition claim (ref : nat) (st : CoordinatorState) : option Status * CoordinatorState :=
  let slot := slot_at ref st in
  if sl_terminal slot then
    (Some (mkStatus (if decide (ao_state (sl_outcome slot) = AttemptState.kCommitted)
                     then StatusCode.kAlreadyCommitted else StatusCode.kAlreadyExists)
             "attempt already reached a terminal state"), st)
  else
    (None, upd_slot ref (λ slot, sl_with_run true
             (ao_with_state AttemptState.kRunning (sl_outcome slot)) slot) st).

Record PreparedAttempt := mkPrepared {
  prep_attempt : N;
  prep_request : PlacementRequest;
  prep_decision : PlacementDecision;
}.

(** Finalizes a slot unless it is terminal; whether it did. *)
Definition finalize_once (ref : nat) (state : AttemptState) (code : StatusCode)
    (st : CoordinatorState) : bool * CoordinatorState :=
  if sl_terminal (slot_at ref st) then (false, st)
  else (true, FinalizeLocked ref state code st).

(** The block of [Commit] for a decision that places nothing. *)
Definition reject_prepared (ref : nat) (decision : PlacementDecision) (st : CoordinatorState)
    : bool * CoordinatorState :=
  if sl_terminal (slot_at ref st) then (false, st)
  else (true, FinalizeLocked ref AttemptState.kRejected (dec_code decision)
                (set_decision ref decision st)).

(** The block of [Commit] that compares the decision: what it returns early. *)
Definition check_prepared (ref : nat) (decision : PlacementDecision) (st : CoordinatorState)
    : option (Result AttemptOutcome) :=
  let slot := slot_at ref st in
  if sl_terminal slot then Some (Value (sl_outcome slot))
  else if negb (Digest_eqb (dec_digest (ao_decision (sl_outcome slot))) (dec_digest decision)) then
    Some (Error (mkStatus StatusCode.kInvalidArgument
      "prepared decision does not match the decision computed for this attempt"))
  else None.

(** ** Waiting and cancelling *)

Definition await_done (ref : nat) (st : CoordinatorState) : bool :=
  sl_terminal (slot_at ref st) || bool_decide (co_state st = RunState.kStopped).

(** The block of [Await] after the wait. *)
Definition await_outcome (ref : nat) (st : CoordinatorState) : AttemptOutcome * CoordinatorState :=
  let st :=
    if negb (sl_terminal (slot_at ref st))
    then FinalizeLocked ref AttemptState.kFailed StatusCode.kShuttingDown st else st in
  (sl_outcome (slot_at ref st), st).

(** The block of [Cancel]: its status and the slot whose cancellation it journals. *)
Definition cancel_attempt (attempt : N) (st : CoordinatorState)
    : (Status * option nat) * CoordinatorState :=
  match co_slots st !! attempt with
  | None =>
      ((mkStatus StatusCode.kUnknownAttempt "no such attempt is known to this coordinator", None),
       st)
  | Some ref =>
      let slot := slot_at ref st in
      if sl_terminal slot then
        ((mkStatus (if decide (ao_state (sl_outcome slot) = AttemptState.kCommitted)
                    then StatusCode.kAlreadyCommitted else StatusCode.kAlreadyExists)
            "attempt already reached a terminal state", None), st)
      else if sl_commit_boundary_crossed slot then
        ((mkStatus StatusCode.kAlreadyCommitted
            "the commit boundary was already crossed; the placement stands", None), st)
      else
        let st := upd_slot ref (sl_with_cancel true) st in
        if negb (sl_running slot) && negb (sl_in_worker slot) then
          let st := FinalizeLocked ref AttemptState.kCancelled StatusCode.kCancelled st in
          if sl_journalled_start slot then ((Status_Ok, Some ref), st)
          else ((Status_Ok, None),
                upd_slot ref
                  (sl_with_pending true AttemptPhase.kCancelled StatusCode.kCancelled) st)
        else ((Status_Ok, None), st)
  end.

(** ** Epoch and authority *)

Definition exp_with_epoch (epoch : N) (e : AuthorityExpectation) : AuthorityExpectation :=
  mkExpectation (exp_path_authority e) (exp_candidate_set e) (exp_capacity e) (exp_policy e)
    (exp_qos e) epoch (exp_evidence e).

(** [AdvanceEpoch] under both mutexes. *)
Definition advance_epoch (st : CoordinatorState) : Status * CoordinatorState :=
  match Advance (co_epoch st) with
  | None => (mkStatus StatusCode.kArithmeticOverflow "fabric epoch is exhausted", st)
  | Some epoch => (Status_Ok, co_with_authority (exp_with_epoch epoch (co_authority st)) epoch st)
  end.

(** [SetAuthority] under both mutexes. *)
Definition set_authority (expected : AuthorityExpectation) (st : CoordinatorState)
    : Status * CoordinatorState :=
  if exp_fabric_epoch expected <? co_epoch st then
    (mkStatus StatusCode.kStaleFabricEpoch
       "authority view is bound to a superseded fabric epoch", st)
  else (Status_Ok, co_with_authority expected (exp_fabric_epoch expected) st).

(** ** Shutdown *)

Inductive ShutdownTurn :=
  | AlreadyStopped
  | StoppingElsewhere
  | StopsHere (journal_cancelled : list N).

(** One queued attempt. *)
Definition cancel_queued (acc : CoordinatorState * list N) (attempt : N)
    : CoordinatorState * list N :=
  match co_slots (fst acc) !! attempt with
  | None => acc
  | Some ref => if sl_terminal (slot_at ref (fst acc)) then acc else FinalizeShutdownSlot ref acc
  end.

(** One entry of the table. *)
Definition cancel_registered (cancel_active : bool) (acc : CoordinatorState * list N)
    (entry : N * nat) : CoordinatorState * list N :=
  let slot := slot_at (snd entry) (fst acc) in
  if sl_terminal slot || sl_in_worker slot || sl_commit_boundary_crossed slot then acc
  else if negb (sl_running slot) || cancel_active then FinalizeShutdownSlot (snd entry) acc
  else acc.

(** The first block of [ShutdownInternal]. *)
Definition begin_shutdown (cancel_active : bool) (st : CoordinatorState)
    : ShutdownTurn * CoordinatorState :=
  match co_state st with
  | RunState.kStopped => (AlreadyStopped, st)
  | RunState.kShuttingDown => (StoppingElsewhere, st)
  | RunState.kRunning =>
      let st := co_with_state RunState.kShuttingDown st in
      let '(st, journal) := foldl cancel_queued (st, []) (co_queue st) in
      let st := co_with_queue [] 0 st in
      let '(st, journal) :=
        foldl (cancel_registered cancel_active) (st, journal) (ordered_entries (co_slots st)) in
      (StopsHere journal, st)
  end.

(** ** Queries *)

Module RevalidationVerdict.
Inductive RevalidationVerdict :=
  | kUnknownFlow
  | kStillCurrent
  | kMustMove
  | kRejected
  | kStaleInput.
End RevalidationVerdict.
Abbreviation RevalidationVerdict := RevalidationVerdict.RevalidationVerdict.

Definition RevalidationVerdictName (v : RevalidationVerdict) : string :=
  match v with
  | RevalidationVerdict.kUnknownFlow => "UNKNOWN_FLOW"
  | RevalidationVerdict.kStillCurrent => "STILL_CURRENT"
  | RevalidationVerdict.kMustMove => "MUST_MOVE"
  | RevalidationVerdict.kRejected => "REJECTED"
  | RevalidationVerdict.kStaleInput => "STALE_INPUT"
  end.

Record RevalidationResult := mkRevalidation {
  rev_verdict : RevalidationVerdict;
  rev_decision : PlacementDecision;
  rev_previous : option PlacementRecord;
}.

(** The verdict on a decision and the placement it is compared with. *)
Definition revalidation_verdict (decision : PlacementDecision) (previous : option PlacementRecord)
    : RevalidationVerdict :=
  match previous with
  | None => RevalidationVerdict.kUnknownFlow
  | Some previous =>
      if decide (dec_outcome decision = Outcome.kStaleInput) then RevalidationVerdict.kStaleInput
      else if negb (placed decision) then RevalidationVerdict.kRejected
      else
        match dec_intent decision with
        | Some intent =>
            if (int_path intent =? int_path (pl_intent previous)) &&
               (int_path_authority intent =? int_path_authority (pl_intent previous))
            then RevalidationVerdict.kStillCurrent else RevalidationVerdict.kMustMove
        | None => RevalidationVerdict.kMustMove
        end
  end.

(** The latest placement of a flow, in the store or in memory. *)
Definition find_latest (flow : N) (st : CoordinatorState) : option PlacementRecord :=
  match co_store st with
  | Some world => FindLatest flow (w_store world)
  | None => co_latest_in_memory st !! flow
  end.

Definition latest_of (st : CoordinatorState) : list PlacementRecord :=
  match co_store st with
  | Some world => LatestPlacements (w_store world)
  | None => snd <$> ordered_entries (co_latest_in_memory st)
  end.

Definition recovery_of (st : CoordinatorState) : RecoveryReport :=
  match co_store st with
  | Some world => st_recovery (w_store world)
  | None =>
      mkReport false false false 0 0 0 0 0 0 0 0 0 0 0 0 0 0 0 [] []
        "in-memory coordination: no durable state exists to recover"
  end.

(** [stats()]. *)
Definition stats_of (st : CoordinatorState) : CoordinatorStats :=
  let t := co_stats st in
  mkCoordinatorStats (cs_submitted t) (cs_accepted t) (cs_duplicate_replays t)
    (cs_duplicate_conflicts t) (cs_rejected_queue_full t) (cs_rejected_shutting_down t)
    (cs_placed t) (cs_rejected t) (cs_cancelled t) (cs_fenced t) (cs_failed t)
    (co_queue_depth st) (co_active st) (cs_completed t).

Definition drained (st : CoordinatorState) : bool :=
  (co_queue_depth st =? 0) && (co_active st =? 0).
