(* ===== verification/Runtime.v ===== *)
(** * The coordinator

    The member functions of [PlacementCoordinator] and the workers of
    [runtime.cpp] as threads of critical sections: a block under [mu] is one
    section, [commit_mu] and [store_mu] are taken and given back as in the sources,
    and a wait on a condition variable is a section guarded by its predicate.  A
    system is a coordinator with its workers and any number of callers. *)

From Stdlib Require Import String.
From S2P Require Import Prelude StdAlgo Checked Status Bytes Hash Model ModelDigest Validate.
From S2P Require Import Explain Records Wire Store StoreOps Place Threads RuntimeState.

(** ** Journal and commit *)

Definition JournalTerminal (ref : nat) (phase : AttemptPhase) (code : StatusCode) : Thread unit :=
  durable ← peek has_store;
  if negb durable then mret tt
  else guarded StoreMu (update (journal_phase ref phase code)).

Definition CommitRecord (intent : PlacementIntent) (delta : IncumbentDelta)
    (decision_digest : Digest) (commit_epoch : N)
    : Thread (State := CoordinatorState) (Result PlacementRecord) :=
  durable ← peek has_store;
  if (durable : bool)
  then guarded StoreMu (locked (commit_in_store intent delta decision_digest commit_epoch))
  else locked (commit_in_memory intent delta decision_digest commit_epoch).

(** [CommitSlot] after the boundary was crossed. *)
Definition commit_crossed (ref : nat) : Thread Status :=
  slot ← peek (slot_at ref);
  let decision := ao_decision (sl_outcome slot) in
  match dec_intent decision with
  | None =>
      mret (mkStatus StatusCode.kInternalInvariantViolation "commit without a placement intent")
  | Some intent =>
      result ← CommitRecord intent (dec_delta decision) (dec_digest decision)
                 (exp_fabric_epoch (rq_expected (sl_request slot)));
      match result with
      | Error status => mret status
      | Value record =>
          _ ← update (note_placement ref record);
          _ ← JournalTerminal ref AttemptPhase.kCommitted StatusCode.kOk;
          _ ← update (FinalizeLocked ref AttemptState.kCommitted StatusCode.kOk);
          mret Status_Ok
      end
  end.

Definition CommitSlot (ref : nat) : Thread Status :=
  guarded CommitMu (
    refused ← locked (cross_boundary ref);
    match refused with
    | Some status => mret status
    | None => commit_crossed ref
    end).

(** ** Registration *)

Definition FindSlot (attempt : N) : Thread (option nat) := peek (λ st, co_slots st !! attempt).

(** The start record, under [store_mu]; the status of a failure. *)
Definition start_durably (ref : nat) : Thread (option Status) :=
  guarded StoreMu (
    result ← locked (journal_start ref);
    match result with
    | Value _ => mret None
    | Error status => _ ← update (refuse_start ref status); mret (Some status)
    end).

(** [RegisterAttempt] once the slot exists. *)
Definition journal_registered (ref : nat) : Thread (Result nat) :=
  durable ← peek has_store;
  if negb durable then mret (Value ref) else
  refused ← start_durably ref;
  match refused with
  | Some status => mret (Error status)
  | None =>
      pending ← locked (note_started ref);
      _ ← match pending with
          | Some (phase, code) => JournalTerminal ref phase code
          | None => mret tt
          end;
      mret (Value ref)
  end.

Definition RegisterAttempt (request : PlacementRequest) (attempt : N)
    (enforce_queue_capacity : bool) : Thread (Result nat) :=
  limits ← peek (λ st, opt_limits (co_options st));
  let validation := check_submission request attempt limits in
  if negb (status_ok validation) then mret (Error validation) else
  let request := rq_with_attempt attempt request in
  let digest := RequestDigest request limits in
  admitted ← locked (admit_attempt request attempt digest enforce_queue_capacity);
  match admitted with
  | Error status => mret (Error status)
  | Value ref => journal_registered ref
  end.

(** ** Workers *)

(** [ProcessSlot] for a decision that places. *)
Definition commit_processed (ref : nat) : Thread unit :=
  status ← CommitSlot ref;
  if status_ok status then mret tt else
  let state := StateForFailure (status_code status) in
  _ ← update (FinalizeLocked ref state (status_code status));
  JournalTerminal ref (PhaseForState state) (status_code status).

(** The decision of a worker enters the slot unless the slot is terminal. *)
Definition offer_decision (ref : nat) (decision : PlacementDecision) (st : CoordinatorState)
    : bool * CoordinatorState :=
  if sl_terminal (slot_at ref st) then (false, st) else (true, set_decision ref decision st).

Definition ProcessSlot (ref : nat) : Thread unit :=
  decision ← peek (decide_slot ref);
  offered ← locked (offer_decision ref decision);
  if negb offered then mret tt else
  if negb (placed decision) then
    _ ← update (FinalizeLocked ref AttemptState.kRejected (dec_code decision));
    JournalTerminal ref AttemptPhase.kRejected (dec_code decision)
  else commit_processed ref.

(** One round of a worker; whether there is another. *)
Definition worker_round : Thread bool :=
  item ← wait work_ready take_work;
  match item with
  | WorkerExit => mret false
  | WorkerSkip => mret true
  | WorkerSlot ref => _ ← ProcessSlot ref; _ ← update (end_work ref); mret true
  end.

(** ** Placement *)

Definition Submit (request : PlacementRequest) (attempt : N) : Thread Status :=
  registered ← RegisterAttempt request attempt true;
  match registered with
  | Error status => mret status
  | Value ref => locked (enqueue ref attempt)
  end.

(** [Prepare] after the registration. *)
Definition prepare_slot (ref : nat) (attempt : N) : Thread (Result PreparedAttempt) :=
  claimed ← locked (claim ref);
  match claimed with
  | Some status => mret (Error status)
  | None =>
      decision ← peek (decide_slot ref);
      _ ← update (set_decision ref decision);
      slot ← peek (slot_at ref);
      mret (Value (mkPrepared attempt (sl_request slot) (ao_decision (sl_outcome slot))))
  end.

Definition Prepare (request : PlacementRequest) (attempt : N) : Thread (Result PreparedAttempt) :=
  registered ← RegisterAttempt request attempt false;
  match registered with
  | Error status => mret (Error status)
  | Value ref => prepare_slot ref attempt
  end.

(** [Commit] of a decision that does not place. *)
Definition commit_rejected (ref : nat) (decision : PlacementDecision) : Thread unit :=
  finalized ← locked (reject_prepared ref decision);
  if (finalized : bool) then JournalTerminal ref AttemptPhase.kRejected (dec_code decision)
  else mret tt.

(** The commit of a placing decision that agreed with the slot's. *)
Definition commit_prepared (ref : nat) : Thread unit :=
  status ← CommitSlot ref;
  if status_ok status then mret tt else
  let state := StateForFailure (status_code status) in
  finalized ← locked (finalize_once ref state (status_code status));
  if (finalized : bool) then JournalTerminal ref (PhaseForState state) (status_code status)
  else mret tt.

Definition Commit (prepared : PreparedAttempt) : Thread (Result AttemptOutcome) :=
  found ← FindSlot (prep_attempt prepared);
  match found with
  | None =>
      mret (Error (mkStatus StatusCode.kUnknownAttempt
                     "no such attempt is known to this coordinator"))
  | Some ref =>
      let decision := prep_decision prepared in
      if negb (placed decision) then
        _ ← commit_rejected ref decision;
        peek (λ st, Value (sl_outcome (slot_at ref st)))
      else
        early ← peek (check_prepared ref decision);
        match early with
        | Some result => mret result
        | None =>
            _ ← commit_prepared ref;
            peek (λ st, Value (sl_outcome (slot_at ref st)))
        end
  end.

Definition PlaceNow (request : PlacementRequest) (attempt : N) : Thread (Result AttemptOutcome) :=
  prepared ← Prepare request attempt;
  match prepared with
  | Error status => mret (Error status)
  | Value prepared => Commit prepared
  end.

Definition Await (attempt : N) : Thread (Result AttemptOutcome) :=
  found ← FindSlot attempt;
  match found with
  | None =>
      mret (Error (mkStatus StatusCode.kUnknownAttempt
                     "no such attempt is known to this coordinator"))
  | Some ref => outcome ← wait (await_done ref) (await_outcome ref); mret (Value outcome)
  end.

Definition Cancel (attempt : N) : Thread Status :=
  cancelled ← locked (cancel_attempt attempt);
  _ ← match snd cancelled with
      | Some ref => JournalTerminal ref AttemptPhase.kCancelled StatusCode.kCancelled
      | None => mret tt
      end;
  mret (fst cancelled).

(** ** Epoch and authority *)

Definition AdvanceEpoch : Thread Status := guarded CommitMu (locked advance_epoch).

Definition SetAuthority (expected : AuthorityExpectation) : Thread Status :=
  guarded CommitMu (locked (set_authority expected)).

(** ** Queries *)

(** A read of the store under [store_mu], or of the memory under [mu]. *)
Definition consult {A} (query : CoordinatorState → A) : Thread A :=
  durable ← peek has_store;
  if (durable : bool) then guarded StoreMu (peek query) else peek query.

Definition Revalidate (request : PlacementRequest) : Thread (Result RevalidationResult) :=
  limits ← peek (λ st, opt_limits (co_options st));
  let validation := ValidateRequest request limits in
  if negb (status_ok validation) then mret (Error validation) else
  let decision := Place limits request in
  previous ← consult (find_latest (rq_flow request));
  mret (Value (mkRevalidation (revalidation_verdict decision previous) decision previous)).

Definition LatestPlacements : Thread (list PlacementRecord) := consult latest_of.
Definition Recovery : Thread RecoveryReport := consult recovery_of.
Definition Stats : Thread CoordinatorStats := peek stats_of.
Definition CurrentEpoch : Thread N := peek co_epoch.
Definition CurrentAuthority : Thread AuthorityExpectation := peek co_authority.
Definition Running : Thread bool := peek is_running.

Definition Drain : Thread Status := wait drained (λ st, (Status_Ok, st)).

(** ** Shutdown *)

Fixpoint journal_cancelled (attempts : list N) : Thread unit :=
  match attempts with
  | [] => mret tt
  | attempt :: attempts =>
      found ← FindSlot attempt;
      _ ← match found with
          | Some ref => JournalTerminal ref AttemptPhase.kCancelled StatusCode.kShuttingDown
          | None => mret tt
          end;
      journal_cancelled attempts
  end.

Definition close_store (st : CoordinatorState) : Status * CoordinatorState :=
  let '(result, st) := with_store Close st in
  (match result with Value _ => Status_Ok | Error status => status end, st).

(** [ShutdownInternal] once the cancellations are journalled: the join and the close. *)
Definition finish_shutdown : Thread Status :=
  _ ← wait (λ st, co_live_workers st =? 0) (λ st, (tt, st));
  _ ← update (co_with_state RunState.kStopped);
  durable ← peek has_store;
  if (durable : bool) then guarded StoreMu (locked close_store) else mret Status_Ok.

Definition ShutdownInternal (cancel_active : bool) : Thread Status :=
  turn ← locked (begin_shutdown cancel_active);
  match turn with
  | AlreadyStopped => mret Status_Ok
  | StoppingElsewhere =>
      wait (λ st, bool_decide (co_state st = RunState.kStopped)) (λ st, (Status_Ok, st))
  | StopsHere attempts => _ ← journal_cancelled attempts; finish_shutdown
  end.

(** ** Systems *)

Inductive Call :=
  | CallSubmit (request : PlacementRequest) (attempt : N)
  | CallPrepare (request : PlacementRequest) (attempt : N)
  | CallCommit (prepared : PreparedAttempt)
  | CallPlaceNow (request : PlacementRequest) (attempt : N)
  | CallAwait (attempt : N)
  | CallCancel (attempt : N)
  | CallAdvanceEpoch
  | CallSetAuthority (expected : AuthorityExpectation)
  | CallRevalidate (request : PlacementRequest)
  | CallLatestPlacements
  | CallRecovery
  | CallStats
  | CallDrain
  | CallShutdown (cancel_active : bool).

Inductive Reply :=
  | ReplyStatus (status : Status)
  | ReplyOutcome (outcome : Result AttemptOutcome)
  | ReplyPrepared (prepared : Result PreparedAttempt)
  | ReplyRevalidation (result : Result RevalidationResult)
  | ReplyPlacements (placements : list PlacementRecord)
  | ReplyRecovery (report : RecoveryReport)
  | ReplyStats (stats : CoordinatorStats)
  | ReplyWorker (again : bool).

(** The thread's answer as a reply. *)
Definition replies {A} (f : A → Reply) (t : Thread A) : Thread (State := CoordinatorState) Reply :=
  a ← t; mret (f a).

Definition program (call : Call) : Thread Reply :=
  match call with
  | CallSubmit request attempt => replies ReplyStatus (Submit request attempt)
  | CallPrepare request attempt => replies ReplyPrepared (Prepare request attempt)
  | CallCommit prepared => replies ReplyOutcome (Commit prepared)
  | CallPlaceNow request attempt => replies ReplyOutcome (PlaceNow request attempt)
  | CallAwait attempt => replies ReplyOutcome (Await attempt)
  | CallCancel attempt => replies ReplyStatus (Cancel attempt)
  | CallAdvanceEpoch => replies ReplyStatus AdvanceEpoch
  | CallSetAuthority expected => replies ReplyStatus (SetAuthority expected)
  | CallRevalidate request => replies ReplyRevalidation (Revalidate request)
  | CallLatestPlacements => replies ReplyPlacements LatestPlacements
  | CallRecovery => replies ReplyRecovery Recovery
  | CallStats => replies ReplyStats Stats
  | CallDrain => replies ReplyStatus Drain
  | CallShutdown cancel_active => replies ReplyStatus (ShutdownInternal cancel_active)
  end.

Definition worker : Thread Reply := replies ReplyWorker worker_round.

(** The loop of a worker. *)
Definition restart (reply : Reply) : option (Thread Reply) :=
  match reply with ReplyWorker true => Some worker | _ => None end.

(** ** Starting *)

Definition kMaxWorkerThreads : N := 64.
Definition kMaxQueueCapacity : N := N.shiftl 1 20.

Definition AllocateIncarnation (process : N) (now : Z) (seed : N) : N :=
  let digest := OfCanonical (hasher_init |> AddTag "incarnation" |> AddU64 process |> AddI64 now
                               |> AddU64 seed) in
  let value := N.lxor (digest_lo digest) (digest_hi digest) in
  if value =? 0 then 1 else value.

Definition clamp_options (o : CoordinatorOptions) : CoordinatorOptions :=
  let s := opt_store o in
  mkCoordinatorOptions (opt_limits o)
    (mkOptions (fsync_on_append s) (repair_torn_tail s) (read_only s) (max_record_bytes s)
       (max_journal_records s) (N.max 1 (max_total_records s)))
    (opt_store_path o)
    (N.max 1 (N.min (opt_worker_threads o) kMaxWorkerThreads))
    (N.max 1 (N.min (opt_queue_capacity o) kMaxQueueCapacity))
    (N.max 16 (N.min (opt_max_retained_attempts o) kMaxQueueCapacity))
    (opt_initial_epoch o) (opt_incarnation o) (opt_seed o).

(** [Start], given the process id, the clock, the files at the path of the store and
    the outcomes of the file system. *)
Definition Start (options : CoordinatorOptions) (process : N) (now : Z) (disk : Disk)
    (io : list IoOutcome) : Result CoordinatorState :=
  let clamped := clamp_options options in
  let epoch := if valid (opt_initial_epoch options) then opt_initial_epoch options else 1 in
  let incarnation :=
    if valid (opt_incarnation options) then opt_incarnation options
    else AllocateIncarnation process now (opt_seed options) in
  let coordinator store :=
    mkCoordinator clamped store (exp_with_epoch epoch AuthorityExpectation_init) epoch incarnation
      RunState.kRunning [] [] 0 0 ∅ CoordinatorStats_init 1 ∅ (opt_worker_threads clamped) []
      (opt_worker_threads clamped) now in
  if String.eqb (opt_store_path options) "" then Value (coordinator None)
  else
    match Open (opt_store_path options) (opt_store clamped) disk with
    | (Error status, _) => Error status
    | (Value store, disk) => Value (coordinator (Some (mkWorld store disk io)))
    end.

(** The coordinator with its workers, before the first caller. *)
Definition started (st : CoordinatorState) : System (Reply := Reply) :=
  mkSystem st (λ _, None) (replicate (N.to_nat (co_worker_count st)) worker).

(** The clock may take any value of its type. *)
Definition pass (now : Z) (st : CoordinatorState) : CoordinatorState :=
  if bool_decide (- 2 ^ 63 <= now < 2 ^ 63)%Z then co_with_clock now st else st.

(** The systems a started coordinator can reach with the calls allowed. *)
Definition reaches (allowed : Call → Prop) (st : CoordinatorState) (sys : System) : Prop :=
  reachable program restart pass allowed (started st) sys.

(** A schedule. *)
Definition schedule (events : list (Event (Call := Call) (Tick := Z))) (sys : System)
    : option System :=
  exec_all program restart pass events sys.
