(* ===== verification/RuntimeInv.v ===== *)
(** * The protocol of the coordinator

    The invariant of the coordinator's state, what threads may change with and
    without [commit_mu], and that a section which commits nothing keeps to both
    ([calm]). *)

From Stdlib Require Import String.
From S2P Require Import Prelude StdAlgo Checked Status Hash Model ModelDigest Validate.
From S2P Require Import Explain Records Wire Store StoreOps StoreFacts Place PlaceCases.
From S2P Require Import Threads RuntimeState.

(** ** Slots *)

Definition terminal_state (state : AttemptState) : bool :=
  match state with AttemptState.kQueued | AttemptState.kRunning => false | _ => true end.

(** The final state of a slot, if it has one. *)
Definition slot_end (slot : Slot) : option AttemptState :=
  if sl_terminal slot then Some (ao_state (sl_outcome slot)) else None.

(** What any slot satisfies. *)
Record slot_ok (limits : Limits) (slot : Slot) : Prop := {
  so_attempt : sl_attempt slot ≠ 0;
  so_request : rq_attempt (sl_request slot) = sl_attempt slot;
  so_digest : sl_request_digest slot = RequestDigest (sl_request slot) limits;
  so_outcome : ao_attempt (sl_outcome slot) = sl_attempt slot;
  so_state : terminal_state (ao_state (sl_outcome slot)) = sl_terminal slot;
  so_decision intent : dec_intent (ao_decision (sl_outcome slot)) = Some intent →
    ao_decision (sl_outcome slot) = Place limits (sl_request slot);
}.

(** How a slot may change: what identifies it stays, its flags are only raised, and a
    final state and code stay. *)
Record slot_evolves (a b : Slot) : Prop := {
  se_attempt : sl_attempt b = sl_attempt a;
  se_request : sl_request b = sl_request a;
  se_digest : sl_request_digest b = sl_request_digest a;
  se_terminal : sl_terminal a = true →
    sl_terminal b = true ∧ ao_state (sl_outcome b) = ao_state (sl_outcome a) ∧
    ao_code (sl_outcome b) = ao_code (sl_outcome a);
  se_crossed : sl_commit_boundary_crossed a = true → sl_commit_boundary_crossed b = true;
  se_cancel : sl_cancel_requested a = true → sl_cancel_requested b = true;
  se_started : sl_journalled_start a = true → sl_journalled_start b = true;
}.

#[export] Instance slot_evolves_preorder : PreOrder slot_evolves.
Proof.
  split; [by constructor|]. intros a b c [] []. constructor; try congruence; try tauto.
  intros Ht. destruct (se_terminal0 Ht) as (Ht' & ? & ?).
  destruct (se_terminal1 Ht') as (? & ? & ?). split_and!; congruence.
Qed.

(** ** Placements *)

(** The durable history and the placements kept in memory. *)
Definition placements (st : CoordinatorState) : list PlacementRecord * gmap N PlacementRecord :=
  (from_option (λ w, im_placements (st_impl (w_store w))) [] (co_store st),
   co_latest_in_memory st).

(** A placement was added: to the history of the store, or to the memory. *)
Definition adds_placement (st : CoordinatorState) (r : PlacementRecord) (st' : CoordinatorState)
    : Prop :=
  match co_store st with
  | Some _ => placements st' = (fst (placements st) ++ [r], snd (placements st))
  | None =>
      placements st' =
        (fst (placements st), <[int_flow (pl_intent r) := r]> (snd (placements st)))
  end.

(** A placement that a slot may commit now: the slot is past the boundary, its epoch and
    authority are the current ones, and the placement is the engine's decision on its
    request. *)
Record fenced_commit (st : CoordinatorState) (slot : Slot) (r : PlacementRecord) : Prop := {
  fc_crossed : sl_commit_boundary_crossed slot = true;
  fc_epoch : exp_fabric_epoch (rq_expected (sl_request slot)) = co_epoch st;
  fc_authority : AuthorityMatches (co_authority st) (rq_expected (sl_request slot)) = true;
  fc_intent : dec_intent (Place (opt_limits (co_options st)) (sl_request slot)) =
    Some (pl_intent r);
  fc_delta : pl_delta r = dec_delta (Place (opt_limits (co_options st)) (sl_request slot));
  fc_digest : pl_decision_digest r =
    dec_digest (Place (opt_limits (co_options st)) (sl_request slot));
  fc_commit_epoch : pl_commit_epoch r = co_epoch st;
  fc_committed_by : pl_committed_by r = co_incarnation st;
}.

(** The placement of the engine's decision on a slot's request. *)
Definition decided_intent (limits : Limits) (slot : Slot) : option PlacementIntent :=
  dec_intent (Place limits (sl_request slot)).

(** The placement that an outcome names: what the store holds under the attempt, or
    what the memory holds for the flow from its generation on. *)
Definition recorded (st : CoordinatorState) (slot : Slot) : Prop :=
  let id := ao_placement_id (sl_outcome slot) in
  let generation := ao_placement_generation (sl_outcome slot) in
  match co_store st with
  | Some w => ∃ r intent,
      committed_placement (sl_attempt slot) (st_impl (w_store w)) = Some r ∧
      pl_id r = id ∧ pl_generation r = generation ∧
      decided_intent (opt_limits (co_options st)) slot = Some intent ∧
      PlacementIntent_eqb (pl_intent r) intent = true
  | None => ∃ r, co_latest_in_memory st !! rq_flow (sl_request slot) = Some r ∧
      generation <= pl_generation r
  end.

(** ** The invariant *)

(** The slots that ended in a state. *)
Definition ended (state : AttemptState) (st : CoordinatorState) : N :=
  size (filter (λ e, e = Some state) (slot_end <$> co_heap st)).

Definition ended_any (st : CoordinatorState) : N :=
  size (filter (λ e, is_Some e) (slot_end <$> co_heap st)).

Record counted_ends (st : CoordinatorState) : Prop := {
  ce_accepted : cs_accepted (co_stats st) = wrap 64 (size (co_heap st));
  ce_placed : cs_placed (co_stats st) = wrap 64 (ended AttemptState.kCommitted st);
  ce_rejected : cs_rejected (co_stats st) = wrap 64 (ended AttemptState.kRejected st);
  ce_cancelled : cs_cancelled (co_stats st) = wrap 64 (ended AttemptState.kCancelled st);
  ce_fenced : cs_fenced (co_stats st) = wrap 64 (ended AttemptState.kFenced st);
  ce_failed : cs_failed (co_stats st) = wrap 64 (ended AttemptState.kFailed st);
  ce_completed : cs_completed (co_stats st) = wrap 64 (ended_any st);
}.

Record coherent (st : CoordinatorState) : Prop := {
  ch_slots attempt ref : co_slots st !! attempt = Some ref →
    ∃ slot, co_heap st !! ref = Some slot ∧ sl_attempt slot = attempt;
  ch_order_NoDup : NoDup (co_slot_order st);
  ch_order attempt : attempt ∈ co_slot_order st ↔ is_Some (co_slots st !! attempt);
  ch_queue : co_queue_depth st = wrap 64 (size (co_queue st));
  ch_slot ref slot : co_heap st !! ref = Some slot →
    slot_ok (opt_limits (co_options st)) slot;
  ch_recorded ref slot : co_heap st !! ref = Some slot →
    slot_end slot = Some AttemptState.kCommitted → recorded st slot;
  ch_indexed w : co_store st = Some w → well_indexed (st_impl (w_store w));
  ch_counts : counted_ends st;
  ch_epoch : exp_fabric_epoch (co_authority st) = co_epoch st;
  ch_epoch_fits : u64_fits (co_epoch st);
  ch_memory flow r : co_latest_in_memory st !! flow = Some r → u64_fits (pl_generation r);
}.

(** ** What threads guarantee *)

Definition run_rank (state : RunState) : nat :=
  match state with
  | RunState.kRunning => 0
  | RunState.kShuttingDown => 1
  | RunState.kStopped => 2
  end.

(** A slot only crosses the commit boundary while the coordinator runs and the slot is
    neither terminal nor cancelled. *)
Definition crosses (st : CoordinatorState) (a b : Slot) : Prop :=
  sl_commit_boundary_crossed b = true → sl_commit_boundary_crossed a = false →
  sl_cancel_requested a = false ∧ sl_terminal a = false ∧ co_state st = RunState.kRunning.

(** A slot's change by a thread that does not commit it. *)
Definition uncommitted (a b : Slot) : Prop :=
  (slot_end b = Some AttemptState.kCommitted → slot_end a = Some AttemptState.kCommitted) ∧
  ao_placement_id (sl_outcome b) = ao_placement_id (sl_outcome a) ∧
  ao_placement_generation (sl_outcome b) = ao_placement_generation (sl_outcome a).

(** Without [commit_mu], the epoch, the authority and the placements stay as they are
    and no slot is committed. *)
Record evolves (h : bool) (st st' : CoordinatorState) : Prop := {
  ev_options : co_options st' = co_options st;
  ev_incarnation : co_incarnation st' = co_incarnation st;
  ev_store : match co_store st with
             | Some w => ∃ ops, co_store st' = Some (run_ops ops w)
             | None => co_store st' = None
             end;
  ev_heap ref slot : co_heap st !! ref = Some slot →
    ∃ slot', co_heap st' !! ref = Some slot' ∧ slot_evolves slot slot' ∧
      crosses st slot slot' ∧ (h = false → uncommitted slot slot');
  ev_memory flow r : co_latest_in_memory st !! flow = Some r →
    ∃ r', co_latest_in_memory st' !! flow = Some r' ∧ pl_generation r <= pl_generation r';
  ev_epoch : co_epoch st <= co_epoch st';
  ev_run : (run_rank (co_state st) <= run_rank (co_state st'))%nat;
  ev_frame : h = false →
    co_epoch st' = co_epoch st ∧ co_authority st' = co_authority st ∧
    placements st' = placements st;
}.

Lemma run_ops_app' ops1 ops2 w : run_ops (ops1 ++ ops2) w = run_ops ops2 (run_ops ops1 w).
Proof. apply foldl_app. Qed.

Lemma uncommitted_refl slot : uncommitted slot slot.
Proof. done. Qed.

Lemma crosses_refl st slot : crosses st slot slot.
Proof. intros H1 H2. congruence. Qed.

#[export] Instance evolves_preorder h : PreOrder (evolves h).
Proof.
  split.
  - intros st. constructor; [done|done|..|lia|done|done].
    + destruct (co_store st); [by exists []|done].
    + intros ref slot E. exists slot. split_and!; [done|done|apply crosses_refl|done].
    + intros flow r E. exists r. split; [done|lia].
  - intros a b c [] []. constructor; try congruence; try lia; [..|].
    + destruct (co_store a) as [w|]; [|by rewrite ev_store0 in ev_store1].
      destruct ev_store0 as [ops1 E1]. rewrite E1 in ev_store1.
      destruct ev_store1 as [ops2 ->]. exists (ops1 ++ ops2). by rewrite run_ops_app'.
    + intros ref slot E. destruct (ev_heap0 ref slot E) as (slot1 & E1 & Hs1 & Hc1 & Hu1).
      destruct (ev_heap1 ref slot1 E1) as (slot2 & E2 & Hs2 & Hc2 & Hu2).
      exists slot2. split_and!; [done|by transitivity slot1| |].
      2: { unfold uncommitted in *. intros Hh. destruct (Hu1 Hh) as (? & ? & ?), (Hu2 Hh) as (? & ? & ?).
           split_and!; (tauto || congruence). }
      intros H2 H0.
      destruct (sl_commit_boundary_crossed slot1) eqn:H1; [by apply Hc1|].
      destruct (Hc2 H2 H1) as (Hcancel & Hterm & Hrun).
      assert (run_rank (co_state a) = 0%nat) by (rewrite Hrun in ev_run0; cbn in ev_run0; lia).
      split_and!.
      * destruct (sl_cancel_requested slot) eqn:E'; [|done]. by rewrite (se_cancel _ _ Hs1) in Hcancel.
      * destruct (sl_terminal slot) eqn:E'; [|done].
        destruct (se_terminal _ _ Hs1 E') as [H' _]. congruence.
      * by destruct (co_state a).
    + intros flow r E. destruct (ev_memory0 flow r E) as (r1 & E1 & ?).
      destruct (ev_memory1 flow r1 E1) as (r2 & E2 & ?). exists r2. split; [done|lia].
    + intros Hh. destruct (ev_frame0 Hh) as (? & ? & ?), (ev_frame1 Hh) as (? & ? & ?).
      split_and!; congruence.
Qed.

(** What one section may do to the placements. *)
Definition section_move (h : bool) (st st' : CoordinatorState) : Prop :=
  placements st' = placements st ∨
  ∃ ref slot r, co_heap st !! ref = Some slot ∧ fenced_commit st slot r ∧ adds_placement st r st'.

#[export] Program Instance coordinator_protocol : Protocol (State := CoordinatorState) := {|
  inv := coherent;
  guar := evolves;
  move := section_move;
|}.
Next Obligation.
  intros st st' []. constructor; try done. intros ref slot E.
  destruct (ev_heap0 ref slot E) as (slot' & ? & ? & ? & _). by exists slot'.
Qed.

(** ** Calm sections *)

(** A change that keeps the invariant and what threads guarantee without
    [commit_mu]. *)
Definition calm (st st' : CoordinatorState) : Prop :=
  coherent st → coherent st' ∧ evolves false st st'.

#[export] Instance calm_preorder : PreOrder calm.
Proof.
  split.
  - intros st H. split; [done|reflexivity].
  - intros a b c Hab Hbc Ha. destruct (Hab Ha) as [Hb E1]. destruct (Hbc Hb) as [Hc E2].
    split; [done|]. by transitivity b.
Qed.

Lemma evolves_any h st st' : evolves false st st' → evolves h st st'.
Proof. destruct h; [apply (guar_weaken (Protocol := coordinator_protocol))|done]. Qed.

Lemma evolves_move h st st' : evolves false st st' → section_move h st st'.
Proof. intros []. left. by destruct (ev_frame0 eq_refl) as (_ & _ & ?). Qed.

Definition allocated (ref : nat) (st : CoordinatorState) : Prop := (ref < length (co_heap st))%nat.

Lemma slot_at_lookup ref st : allocated ref st → co_heap st !! ref = Some (slot_at ref st).
Proof.
  intros H. unfold slot_at. apply lookup_lt_is_Some in H as [slot E].
  by rewrite E, (nth_lookup_Some _ _ _ _ E).
Qed.

Lemma lookup_slot_at ref slot st : co_heap st !! ref = Some slot →
  slot_at ref st = slot ∧ allocated ref st.
Proof.
  intros E. split; [|by eapply lookup_lt_Some]. unfold slot_at.
  by rewrite (nth_lookup_Some _ _ _ _ E).
Qed.

Lemma evolves_allocated h ref st st' : evolves h st st' → allocated ref st → allocated ref st'.
Proof.
  intros [] H%slot_at_lookup. destruct (ev_heap0 _ _ H) as (slot' & E & _).
  by eapply lookup_lt_Some.
Qed.

Lemma evolves_slot h ref st st' : evolves h st st' → allocated ref st →
  slot_evolves (slot_at ref st) (slot_at ref st').
Proof.
  intros [] H%slot_at_lookup. destruct (ev_heap0 _ _ H) as (slot' & E & Hs & _).
  by apply lookup_slot_at in E as [-> _].
Qed.

(** The parts of the state that one slot's change leaves alone. *)
Lemma evolves_parts st st' :
  co_options st' = co_options st → co_incarnation st' = co_incarnation st →
  co_store st' = co_store st → co_epoch st' = co_epoch st → co_authority st' = co_authority st →
  co_latest_in_memory st' = co_latest_in_memory st →
  (run_rank (co_state st) <= run_rank (co_state st'))%nat →
  (∀ ref slot, co_heap st !! ref = Some slot →
     ∃ slot', co_heap st' !! ref = Some slot' ∧ slot_evolves slot slot' ∧ crosses st slot slot' ∧
       uncommitted slot slot') →
  evolves false st st'.
Proof.
  intros Ho Hi Hs He Ha Hm Hr Hh. constructor; [done|done|..|by rewrite He|done|].
  - rewrite Hs. destruct (co_store st); [by exists []|done].
  - intros ref slot E. destruct (Hh ref slot E) as (slot' & ? & ? & ? & ?). eauto 10.
  - intros flow r E. rewrite Hm. exists r. split; [done|lia].
  - intros _. unfold placements. by rewrite Hs, Hm.
Qed.

Lemma heap_same st : ∀ ref slot, co_heap st !! ref = Some slot →
  ∃ slot', co_heap st !! ref = Some slot' ∧ slot_evolves slot slot' ∧ crosses st slot slot' ∧
    uncommitted slot slot'.
Proof. intros ref slot E. exists slot. split_and!; [done|done|apply crosses_refl|done]. Qed.

(** The counters the invariant reads. *)
Definition end_counters (t : CoordinatorStats) :=
  (cs_accepted t, cs_placed t, cs_rejected t, cs_cancelled t, cs_fenced t, cs_failed t,
   cs_completed t).

Lemma counted_ends_same st st' :
  end_counters (co_stats st') = end_counters (co_stats st) →
  slot_end <$> co_heap st' = slot_end <$> co_heap st →
  counted_ends st → counted_ends st'.
Proof.
  intros [= E1 E2 E3 E4 E5 E6 E7] Hh []. unfold ended, ended_any in *.
  assert (size (co_heap st') = size (co_heap st)) as Hsize.
  { apply (f_equal length) in Hh. rewrite !length_fmap in Hh. unfold size. by rewrite Hh. }
  constructor; unfold ended, ended_any; rewrite ?Hsize, ?Hh, ?E1, ?E2, ?E3, ?E4, ?E5, ?E6, ?E7;
    done.
Qed.

Lemma calm_stats f st : end_counters (f (co_stats st)) = end_counters (co_stats st) →
  calm st (upd_stats f st).
Proof.
  intros Hf []. split; [|apply evolves_parts; try done; exact (heap_same st)].
  constructor; try done. by apply (counted_ends_same st).
Qed.

(** A change of one slot that does not end it. *)
Definition slot_step (st : CoordinatorState) (a b : Slot) : Prop :=
  slot_evolves a b ∧ crosses st a b ∧ uncommitted a b ∧ slot_end b = slot_end a ∧
  (slot_ok (opt_limits (co_options st)) a → slot_ok (opt_limits (co_options st)) b).

Lemma heap_alter_slot ref f st :
  (∀ slot, co_heap st !! ref = Some slot →
     slot_evolves slot (f slot) ∧ crosses st slot (f slot) ∧ uncommitted slot (f slot)) →
  ∀ ref' slot, co_heap st !! ref' = Some slot →
    ∃ slot', alter f ref (co_heap st) !! ref' = Some slot' ∧
      slot_evolves slot slot' ∧ crosses st slot slot' ∧ uncommitted slot slot'.
Proof.
  intros Hf ref' slot E. destruct (decide (ref' = ref)) as [->|Hne].
  - exists (f slot). rewrite list_lookup_alter_eq, E. cbn. auto.
  - exists slot. rewrite list_lookup_alter_ne by done. split_and!; [done|done|apply crosses_refl|done].
Qed.

Lemma slot_end_alter ref f (heap : list Slot) :
  (∀ slot, heap !! ref = Some slot → slot_end (f slot) = slot_end slot) →
  slot_end <$> alter f ref heap = slot_end <$> heap.
Proof.
  intros Hf. apply list_eq. intros i. rewrite !list_lookup_fmap.
  destruct (decide (i = ref)) as [->|Hne]; [|by rewrite list_lookup_alter_ne].
  rewrite list_lookup_alter_eq. destruct (heap !! ref) eqn:E; [|done]. cbn. f_equal. by apply Hf.
Qed.

(** What the heap's change keeps of the invariant. *)
Lemma coherent_alter ref f st :
  coherent st →
  (∀ slot, co_heap st !! ref = Some slot → sl_attempt (f slot) = sl_attempt slot ∧
     (slot_ok (opt_limits (co_options st)) slot → slot_ok (opt_limits (co_options st)) (f slot)) ∧
     (slot_end (f slot) = Some AttemptState.kCommitted → recorded st (f slot))) →
  counted_ends (upd_slot ref f st) → coherent (upd_slot ref f st).
Proof.
  intros [] Hf Hc. constructor; try done; cbn [upd_slot co_with_heap co_slots co_heap co_options].
  - intros attempt r E. destruct (ch_slots0 _ _ E) as (slot & Es & Ha).
    destruct (decide (r = ref)) as [->|Hne].
    + exists (f slot). rewrite list_lookup_alter_eq, Es. split; [done|].
      by destruct (Hf slot Es) as [-> _].
    + exists slot. by rewrite list_lookup_alter_ne.
  - intros r slot. destruct (decide (r = ref)) as [->|Hne].
    + rewrite list_lookup_alter_eq. intros (slot0 & E & ->)%fmap_Some. apply Hf; [done|].
      by eapply ch_slot0.
    + rewrite list_lookup_alter_ne by done. apply ch_slot0.
  - intros r slot. destruct (decide (r = ref)) as [->|Hne].
    + rewrite list_lookup_alter_eq. intros (slot0 & E & ->)%fmap_Some. apply (Hf _ E).
    + rewrite list_lookup_alter_ne by done. apply ch_recorded0.
Qed.

Lemma calm_upd_slot ref f st :
  (∀ slot, co_heap st !! ref = Some slot → slot_step st slot (f slot)) →
  calm st (upd_slot ref f st).
Proof.
  intros Hf Hc. split.
  - apply coherent_alter; [done|..].
    + intros slot E. destruct (Hf slot E) as ([] & _ & (_ & Hid & Hgen) & He & ?).
      split_and!; [done|done|]. rewrite He. intros Hend.
      pose proof (ch_recorded _ Hc _ _ E Hend) as Hr. unfold recorded, decided_intent in *.
      by rewrite Hid, Hgen, se_attempt0, se_request0.
    + apply (counted_ends_same st); [done| |apply Hc]. apply slot_end_alter.
      intros slot E. by destruct (Hf slot E) as (_ & _ & _ & ? & _).
  - apply evolves_parts; try done. apply heap_alter_slot.
    intros slot E. by destruct (Hf slot E) as (? & ? & ? & _).
Qed.

(** Whatever threads do, what is recorded stays recorded. *)
Lemma run_ops_committed ops w attempt r : attempt ≠ 0 →
  well_indexed (st_impl (w_store w)) →
  committed_placement attempt (st_impl (w_store w)) = Some r →
  well_indexed (st_impl (w_store (run_ops ops w))) ∧
  committed_placement attempt (st_impl (w_store (run_ops ops w))) = Some r.
Proof.
  intros Ha Hw Hr.
  apply (run_ops_inv (λ _, True) (λ impl, well_indexed impl ∧ committed_placement attempt impl = Some r));
    [|by apply Forall_true|done].
  intros op impl impl' _ Hs. by apply (book_step_commit op).
Qed.

Lemma recorded_evolves h st st' slot slot' :
  (∀ w, co_store st = Some w → well_indexed (st_impl (w_store w))) →
  evolves h st st' → sl_attempt slot ≠ 0 → sl_attempt slot' = sl_attempt slot →
  sl_request slot' = sl_request slot →
  ao_placement_id (sl_outcome slot') = ao_placement_id (sl_outcome slot) →
  ao_placement_generation (sl_outcome slot') = ao_placement_generation (sl_outcome slot) →
  recorded st slot → recorded st' slot'.
Proof.
  intros Hi [] Ha Hsa Hsr Hid Hgen. unfold recorded, decided_intent. rewrite Hsa, Hsr, Hid, Hgen.
  destruct (co_store st) as [w|].
  - destruct ev_store0 as [ops ->]. rewrite ev_options0. intros (r & intent & Hc & Hr).
    exists r, intent. split; [|done]. apply run_ops_committed; [done|by apply Hi|done].
  - rewrite ev_store0. intros (r & Hr & Hg). destruct (ev_memory0 _ _ Hr) as (r' & ? & ?).
    exists r'. split; [done|lia].
Qed.

(** ** Finalizing a slot *)

Lemma filter_insert_size {A} (P : A → Prop) `{∀ x, Decision (P x)} (l : list A) i x y :
  l !! i = Some x → ¬ P x →
  size (filter P (<[i := y]> l)) = size (filter P l) + (if decide (P y) then 1 else 0).
Proof.
  intros Hi Hx. rewrite <-(take_drop_middle l i x Hi) at 2.
  rewrite insert_take_drop by (by eapply lookup_lt_Some).
  rewrite !filter_app, !filter_cons, !size_app, (decide_False (P := P x)) by done.
  case_decide; [rewrite size_cons|]; lia.
Qed.

Lemma wrap_succ w n : wrap w (wrap w n + 1) = wrap w (n + 1).
Proof. unfold wrap. by rewrite N.Div0.add_mod_idemp_l. Qed.

Definition end_slot (state : AttemptState) (code : StatusCode) (slot : Slot) : Slot :=
  sl_with_end true (ao_with_end state code (sl_outcome slot)) slot.

Lemma FinalizeLocked_unfold ref state code st :
  FinalizeLocked ref state code st =
  if sl_terminal (slot_at ref st) then st
  else upd_stats (λ t, count_completed (count_state state t)) (upd_slot ref (end_slot state code) st).
Proof. done. Qed.

(** The final states after one more slot ended. *)
Lemma slot_ends_finalized ref state code st :
  allocated ref st → sl_terminal (slot_at ref st) = false →
  slot_end <$> co_heap (upd_slot ref (end_slot state code) st) =
    <[ref := Some state]> (slot_end <$> co_heap st) ∧
  (slot_end <$> co_heap st) !! ref = Some None.
Proof.
  intros Ha%slot_at_lookup Ht. split.
  - cbn [upd_slot co_with_heap co_heap]. apply list_eq. intros i. rewrite list_lookup_fmap.
    destruct (decide (i = ref)) as [->|Hne].
    + rewrite list_lookup_alter_eq, Ha, list_lookup_insert_eq; [done|].
      rewrite length_fmap. by eapply lookup_lt_Some.
    + by rewrite list_lookup_alter_ne, list_lookup_insert_ne, list_lookup_fmap.
  - rewrite list_lookup_fmap, Ha. cbn. unfold slot_end. by rewrite Ht.
Qed.

Lemma counted_ends_finalized ref state code st :
  allocated ref st → sl_terminal (slot_at ref st) = false → terminal_state state = true →
  counted_ends st →
  counted_ends (upd_stats (λ t, count_completed (count_state state t))
                  (upd_slot ref (end_slot state code) st)).
Proof.
  intros Ha Ht Hs []. destruct (slot_ends_finalized ref state code st Ha Ht) as [He Hn].
  assert (∀ x, ended x (upd_slot ref (end_slot state code) st) =
            ended x st + if decide (Some state = Some x) then 1 else 0) as Hx.
  { intros x. unfold ended. rewrite He. by rewrite (filter_insert_size (λ e, e = Some x) _ _ None). }
  assert (ended_any (upd_slot ref (end_slot state code) st) = ended_any st + 1) as Hany.
  { unfold ended_any. rewrite He, (filter_insert_size (λ e, is_Some e) _ _ None);
      [|done|by intros []]. by rewrite decide_True. }
  set (st' := upd_slot ref (end_slot state code) st) in *.
  assert (size (co_heap st') = size (co_heap st)) as Hsize.
  { unfold size. f_equal. apply length_alter. }
  constructor; unfold upd_stats; cbn [co_with_stats co_stats co_heap];
    change (ended ?x (co_with_stats _ st')) with (ended x st');
    change (ended_any (co_with_stats _ st')) with (ended_any st'); rewrite ?Hx, ?Hany, ?Hsize;
    change (co_stats st') with (co_stats st); destruct state; try done;
    unfold count_completed, count_state, count_placed, count_rejected, count_cancelled,
      count_fenced, count_failed;
    cbn [cs_accepted cs_placed cs_rejected cs_cancelled cs_fenced cs_failed cs_completed];
    rewrite ?ce_accepted0, ?ce_placed0, ?ce_rejected0, ?ce_cancelled0, ?ce_fenced0, ?ce_failed0,
      ?ce_completed0, ?wrap_succ; repeat case_decide; rewrite ?N.add_0_r; done.
Qed.

(** Finalizing keeps the invariant; only a commit needs its placement recorded. *)
Lemma coherent_finalize ref state code st :
  allocated ref st → terminal_state state = true →
  (state = AttemptState.kCommitted → recorded st (slot_at ref st)) →
  coherent st → coherent (FinalizeLocked ref state code st).
Proof.
  intros Ha Hs Hr Hc. rewrite FinalizeLocked_unfold.
  destruct (sl_terminal (slot_at ref st)) eqn:Ht; [done|].
  pose proof (slot_at_lookup _ _ Ha) as E.
  assert (counted_ends (upd_stats (λ t, count_completed (count_state state t))
            (upd_slot ref (end_slot state code) st))) as Hcount.
  { apply counted_ends_finalized; [done..|apply Hc]. }
  destruct Hc. constructor; try done; cbn.
  - intros attempt r Er. destruct (ch_slots0 _ _ Er) as (slot & Es & Hat).
    destruct (decide (r = ref)) as [->|Hne].
    + exists (end_slot state code slot). by rewrite list_lookup_alter_eq, Es.
    + exists slot. by rewrite list_lookup_alter_ne.
  - intros r slot. destruct (decide (r = ref)) as [->|Hne];
      [|rewrite list_lookup_alter_ne by done; apply ch_slot0].
    rewrite list_lookup_alter_eq. intros (slot0 & Es & ->)%fmap_Some.
    destruct (ch_slot0 _ _ Es). by constructor.
  - intros r slot. destruct (decide (r = ref)) as [->|Hne];
      [|rewrite list_lookup_alter_ne by done; apply ch_recorded0].
    rewrite list_lookup_alter_eq, E. intros [= <-] [= ->]. by apply Hr.
Qed.

Lemma evolves_finalize h ref state code st :
  allocated ref st → (h = false → state ≠ AttemptState.kCommitted) →
  evolves h st (FinalizeLocked ref state code st).
Proof.
  intros Ha Hs. rewrite FinalizeLocked_unfold.
  destruct (sl_terminal (slot_at ref st)) eqn:Ht; [reflexivity|].
  pose proof (slot_at_lookup _ _ Ha) as E. constructor; try done; cbn.
  - destruct (co_store st); [by exists []|done].
  - intros r slot Es. destruct (decide (r = ref)) as [->|Hne].
    + rewrite E in Es. injection Es as <-. exists (end_slot state code (slot_at ref st)).
      rewrite list_lookup_alter_eq, E. split_and!; [done|..].
      * constructor; try done. by rewrite Ht.
      * intros H1 H2. cbn in H1. congruence.
      * intros Hh. split_and!; [|done..]. intros [= ->]. by destruct (Hs Hh).
    + exists slot. rewrite list_lookup_alter_ne by done.
      split_and!; [done|done|apply crosses_refl|done].
  - intros flow r E'. exists r. split; [done|lia].
Qed.

Lemma calm_finalize ref state code st :
  allocated ref st → terminal_state state = true → state ≠ AttemptState.kCommitted →
  calm st (FinalizeLocked ref state code st).
Proof.
  intros Ha Hs Hn Hc. split; [by apply coherent_finalize|by apply evolves_finalize].
Qed.

(** ** Changes of one slot *)

Lemma ComputeDecision_Place limits request :
  ComputeDecision limits request = Place limits request.
Proof.
  unfold ComputeDecision. destruct (placed _); [|done].
  destruct (dec_intent _) as [intent|] eqn:E; [|done]. by rewrite (Place_verifies _ _ _ E).
Qed.

(** A decision that a slot may carry. *)
Definition honest_decision (limits : Limits) (request : PlacementRequest)
    (decision : PlacementDecision) : Prop :=
  ∀ intent, dec_intent decision = Some intent → decision = Place limits request.

Lemma honest_computed limits request : honest_decision limits request (Place limits request).
Proof. by intros intent. Qed.

(** A slot's change by one of the setters. *)
Ltac slot_change := unfold slot_step, uncommitted; split_and!;
  [ constructor; cbn; first [done | intros; congruence]
  | intros H1 H2; cbn in *; congruence
  | unfold slot_end; cbn; repeat case_match; first [done | intros; congruence]
  | done
  | done
  | unfold slot_end; cbn; repeat case_match; congruence
  | intros []; constructor; cbn; first [done | congruence] ].

Lemma slot_step_cancel st slot : slot_step st slot (sl_with_cancel true slot).
Proof. slot_change. Qed.

Lemma slot_step_pending st slot phase code :
  slot_step st slot (sl_with_pending true phase code slot).
Proof. slot_change. Qed.

Lemma slot_step_start st slot : slot_step st slot (sl_with_start true false slot).
Proof. slot_change. Qed.

Lemma slot_step_in_worker st slot b : slot_step st slot (sl_with_in_worker b slot).
Proof. slot_change. Qed.

Lemma slot_step_work st slot : sl_terminal slot = false →
  slot_step st slot
    (sl_with_work true (ao_with_state AttemptState.kRunning (sl_outcome slot)) slot).
Proof. intros Ht. slot_change. Qed.

Lemma slot_step_run st slot : sl_terminal slot = false →
  slot_step st slot
    (sl_with_run true (ao_with_state AttemptState.kRunning (sl_outcome slot)) slot).
Proof. intros Ht. slot_change. Qed.

Lemma slot_step_decision st slot decision :
  honest_decision (opt_limits (co_options st)) (sl_request slot) decision →
  slot_step st slot (sl_with_outcome (ao_with_decision decision (sl_outcome slot)) slot).
Proof. intros Hd. slot_change. Qed.

Lemma slot_step_cross st slot :
  sl_terminal slot = false → sl_cancel_requested slot = false → co_state st = RunState.kRunning →
  slot_step st slot (sl_with_crossed true slot).
Proof. intros Ht Hc Hr. split_and!; [by constructor|done..|]. intros []. by constructor. Qed.
