(* ===== verification/RuntimeCalm.v ===== *)
(** * Sections and the protocol

    Every critical section of [RuntimeState] keeps to the protocol of
    [RuntimeInv]: all but the changes of the epoch and of the authority and the
    commits are calm, and a commit adds at most the placement of the slot that is
    past the boundary. *)

From Stdlib Require Import String.
From S2P Require Import Prelude StdAlgo Checked Status Hash Model ModelDigest Validate.
From S2P Require Import Explain Records Wire Store StoreOps StoreFacts Place PlaceCases.
From S2P Require Import Threads RuntimeState Runtime RuntimeInv.

(** ** Fields that carry no invariant *)

(** A change of fields the protocol frames. *)
Ltac calm_frame st :=
  let Hc := fresh in
  intros Hc; split; [|apply evolves_parts; cbn; try done; exact (heap_same st)];
  destruct Hc; constructor; cbn; try done; by apply (counted_ends_same st).

Lemma calm_queue queue depth st : depth = wrap 64 (size queue) →
  calm st (co_with_queue queue depth st).
Proof. intros Hd. calm_frame st. Qed.

Lemma calm_active active st : calm st (co_with_active active st).
Proof. calm_frame st. Qed.

Lemma calm_live_workers n st : calm st (co_with_live_workers n st).
Proof. calm_frame st. Qed.

Lemma calm_clock now st : calm st (co_with_clock now st).
Proof. calm_frame st. Qed.

Lemma calm_state state st : (run_rank (co_state st) <= run_rank state)%nat →
  calm st (co_with_state state st).
Proof. intros Hr. calm_frame st. Qed.

Lemma calm_coherent st st' : (coherent st → calm st st') → calm st st'.
Proof. intros H Hc. by apply H. Qed.

(** ** Retention *)

Lemma calm_rotate oldest rest st : co_slot_order st = oldest :: rest →
  calm st (co_with_slot_order (rest ++ [oldest]) st).
Proof.
  intros E Hc. split; [|apply evolves_parts; cbn; try done; exact (heap_same st)].
  destruct Hc. rewrite E in *. constructor; cbn; try done.
  - apply NoDup_app. apply NoDup_cons in ch_order_NoDup as [Hn Hd].
    split_and!; [done| |apply NoDup_singleton]. by intros x Hx ->%list_elem_of_singleton.
  - intros attempt. rewrite <-ch_order, elem_of_app, !elem_of_cons, elem_of_nil. tauto.
  - by apply (counted_ends_same st).
Qed.

Lemma calm_erase oldest rest st : co_slot_order st = oldest :: rest →
  calm st (co_with_slots (delete oldest (co_slots st)) (co_with_slot_order rest st)).
Proof.
  intros E Hc. split; [|apply evolves_parts; cbn; try done; exact (heap_same st)].
  destruct Hc. rewrite E in *. apply NoDup_cons in ch_order_NoDup as [Hn Hd].
  constructor; cbn; try done.
  - intros attempt ref [_ Hl]%lookup_delete_Some. by apply ch_slots.
  - intros attempt. split.
    + intros Ha. rewrite lookup_delete_ne by congruence. apply ch_order. by right.
    + intros [ref [Hne Hl]%lookup_delete_Some].
      assert (attempt ∈ oldest :: rest) as Ha by (apply ch_order; eauto).
      apply elem_of_cons in Ha as [->|Ha]; done.
  - by apply (counted_ends_same st).
Qed.

Lemma calm_reap fuel : ∀ limit scanned st, calm st (reap fuel limit scanned st).
Proof.
  induction fuel as [|fuel IH]; intros limit scanned st; cbn [reap]; [reflexivity|].
  destruct (negb _); [reflexivity|]. destruct (co_slot_order st) as [|oldest rest] eqn:E; [reflexivity|].
  destruct (negb _); [reflexivity|]. destruct (co_slots st !! oldest) as [ref|] eqn:El.
  - destruct (negb _).
    + transitivity (co_with_slot_order (rest ++ [oldest]) st); [by apply calm_rotate|apply IH].
    + transitivity (co_with_slots (delete oldest (co_slots st)) (co_with_slot_order rest st));
        [by apply calm_erase|apply IH].
  - apply calm_coherent. intros []. assert (is_Some (co_slots st !! oldest)) as [? Hs].
    { apply ch_order. rewrite E. left. }
    congruence.
Qed.

Lemma calm_retain st : calm st (ReapRetainedSlots st).
Proof. apply calm_reap. Qed.

(** ** Admission *)

Lemma counted_ends_admitted st attempt request digest :
  counted_ends st →
  counted_ends (upd_stats count_accepted
    (co_with_heap (co_heap st ++ [Slot_admitted attempt request digest]) st)).
Proof.
  intros []. set (slot := Slot_admitted attempt request digest).
  assert (∀ state, ended state (co_with_heap (co_heap st ++ [slot]) st) = ended state st) as He.
  { intros state. unfold ended. cbn [co_with_heap co_heap]. rewrite fmap_app, filter_app, size_app.
    cbn [fmap list_fmap]. rewrite filter_cons_False, filter_nil; [apply N.add_0_r|by intros [=]]. }
  assert (ended_any (co_with_heap (co_heap st ++ [slot]) st) = ended_any st) as Ha.
  { unfold ended_any. cbn [co_with_heap co_heap]. rewrite fmap_app, filter_app, size_app.
    cbn [fmap list_fmap]. rewrite filter_cons_False, filter_nil; [apply N.add_0_r|by intros []]. }
  constructor; cbn [upd_stats co_with_stats co_stats co_heap];
    change (ended ?x (upd_stats _ ?s)) with (ended x s);
    change (ended_any (upd_stats _ ?s)) with (ended_any s); rewrite ?He, ?Ha;
    cbn [count_accepted cs_accepted cs_placed cs_rejected cs_cancelled cs_fenced cs_failed
         cs_completed co_with_heap co_stats co_heap]; try done.
  rewrite ce_accepted, wrap_succ, size_app. done.
Qed.

Lemma calm_enter_slot request attempt digest st :
  attempt ≠ 0 → rq_attempt request = attempt →
  digest = RequestDigest request (opt_limits (co_options st)) →
  co_slots st !! attempt = None →
  calm st (enter_slot request attempt digest st).
Proof.
  intros Ha Hr Hd Hn Hc. set (st1 := enter_slot request attempt digest st).
  assert (co_heap st1 = co_heap st ++ [Slot_admitted attempt request digest]) as Eh by done.
  assert (counted_ends st1) as Hcount.
  { eapply (counted_ends_same _ st1);
      [| |apply (counted_ends_admitted st attempt request digest), Hc]; done. }
  destruct Hc. split.
  - constructor; try done.
    + intros a ref. subst st1. cbn. intros [[<- <-]|[Hne E]]%lookup_insert_Some.
      * exists (Slot_admitted attempt request digest). by rewrite lookup_app_r, Nat.sub_diag.
      * destruct (ch_slots _ _ E) as (slot & Es & Hat). exists slot.
        split; [|done]. by apply lookup_app_l_Some.
    + cbn. apply NoDup_app. split_and!; [done| |apply NoDup_singleton].
      intros x Hx ->%list_elem_of_singleton. apply ch_order in Hx as [? Hx]. congruence.
    + intros a. cbn. rewrite elem_of_app, list_elem_of_singleton, ch_order.
      destruct (decide (a = attempt)) as [->|Hne].
      * rewrite lookup_insert_eq. split; [by eauto|by right].
      * rewrite lookup_insert_ne by done. tauto.
    + intros ref slot. rewrite Eh. intros [E|[Hl [_ <-]%list_lookup_singleton_Some]]%lookup_app_Some.
      * by apply (ch_slot ref).
      * by constructor.
    + intros ref slot. rewrite Eh. intros [E|[Hl [_ <-]%list_lookup_singleton_Some]]%lookup_app_Some.
      * by apply (ch_recorded ref).
      * done.
  - apply evolves_parts; try done. intros ref slot E. exists slot. rewrite Eh.
    split_and!; [by apply lookup_app_l_Some|done|apply crosses_refl|done].
Qed.

Lemma calm_add_slot request attempt digest st :
  attempt ≠ 0 → rq_attempt request = attempt →
  digest = RequestDigest request (opt_limits (co_options st)) →
  co_slots st !! attempt = None →
  calm st (snd (add_slot request attempt digest st)) ∧
  (coherent st → allocated (fst (add_slot request attempt digest st))
                   (snd (add_slot request attempt digest st))).
Proof.
  intros Ha Hr Hd Hn. cbn [add_slot fst snd]. set (st1 := enter_slot request attempt digest st).
  assert (calm st st1) as H1 by (by apply calm_enter_slot). split.
  - transitivity st1; [done|apply calm_retain].
  - intros Hc. apply (evolves_allocated false (length (co_heap st)) st1).
    + apply calm_retain. by apply H1.
    + unfold allocated. subst st1. cbn. rewrite length_app. cbn. lia.
Qed.

Lemma calm_admit request attempt digest enforce st :
  attempt ≠ 0 → rq_attempt request = attempt →
  digest = RequestDigest request (opt_limits (co_options st)) →
  calm st (snd (admit_attempt request attempt digest enforce st)) ∧
  (coherent st → ∀ ref, fst (admit_attempt request attempt digest enforce st) = Value ref →
     allocated ref (snd (admit_attempt request attempt digest enforce st))).
Proof.
  intros Ha Hr Hd. unfold admit_attempt. set (st1 := upd_stats count_submitted st).
  assert (calm st st1) as H1 by (by apply calm_stats).
  assert (∀ f, end_counters (f (co_stats st1)) = end_counters (co_stats st1) →
            calm st (upd_stats f st1)) as Hrefuse.
  { intros f Hf. transitivity st1; [done|by apply calm_stats]. }
  repeat (case_match; [split; [by apply Hrefuse|done]|]).
  destruct (co_slots st1 !! attempt) as [existing|] eqn:El.
  { case_match; (split; [by apply Hrefuse|done]). }
  case_match; [split; [by apply Hrefuse|done]|].
  destruct (calm_add_slot request attempt digest st1) as [Hc Hal]; [done..|].
  destruct (add_slot request attempt digest st1) as [ref st2]. cbn [fst snd] in *. split.
  - by transitivity st1.
  - intros Hcoh ref' [= <-]. apply Hal. by apply H1.
Qed.

(** ** The store *)

(** A call on the store that leaves the history alone. *)
Lemma calm_store {A} (op : Io A) st :
  (∀ w, ∃ sop, snd (op w) = snd (run_op sop w) ∧
     im_placements (st_impl (w_store (snd (op w)))) = im_placements (st_impl (w_store w))) →
  calm st (snd (with_store op st)).
Proof.
  intros Hop. unfold with_store. destruct (co_store st) as [w|] eqn:E; [|reflexivity].
  destruct (Hop w) as (sop & Hw & Hp). destruct (op w) as [r w']. cbn [snd] in *. intros Hc.
  assert (evolves false st (co_with_store (Some w') st)) as He.
  { constructor; try done; cbn.
    - rewrite E. exists [sop]. by rewrite Hw.
    - intros ref slot Es. exists slot. split_and!; [done|done|apply crosses_refl|done].
    - intros flow p Ep. exists p. split; [done|lia].
    - intros _. split_and!; [done..|]. unfold placements. cbn. by rewrite E, Hp. }
  split; [|done]. destruct Hc. constructor; cbn; try done.
  - intros ref slot Es Hend. by apply (recorded_evolves false st _ slot slot ch_indexed He);
      [apply (so_attempt _ _ (ch_slot _ _ Es))|..|apply (ch_recorded ref)].
  - intros w1 [= <-]. rewrite Hw.
    exact (book_step_well_indexed _ _ _ (run_op_step sop w) (ch_indexed w E)).
  - by apply (counted_ends_same st).
Qed.

(** The placements of the books. *)
Lemma books_placements a b : books a = books b → im_placements a = im_placements b.
Proof. by intros [= ? _ _ _ _]. Qed.

Lemma AppendAttemptStart_placements record w :
  im_placements (st_impl (w_store (snd (AppendAttemptStart record w)))) =
  im_placements (st_impl (w_store w)).
Proof.
  destruct (AppendAttemptStart record w) as [r w'] eqn:E.
  apply AppendAttemptStart_step in E as [E _]. cbn [snd].
  inversion E as [op impl' Hb|record' n impl' H1 H2 Hb| |]; subst; by apply books_placements in Hb.
Qed.

Lemma AppendAttemptTerminal_placements record w :
  im_placements (st_impl (w_store (snd (AppendAttemptTerminal record w)))) =
  im_placements (st_impl (w_store w)).
Proof.
  destruct (AppendAttemptTerminal record w) as [r w'] eqn:E.
  apply AppendAttemptTerminal_step in E as [E _]. cbn [snd].
  inversion E as [op impl' Hb| |record' n impl' H1 H2 Hb|]; subst; by apply books_placements in Hb.
Qed.

Lemma calm_start record st : calm st (snd (with_store (AppendAttemptStart record) st)).
Proof.
  apply calm_store. intros w. exists (OpStart record). split; [done|].
  apply AppendAttemptStart_placements.
Qed.

Lemma calm_terminal record st : calm st (snd (with_store (AppendAttemptTerminal record) st)).
Proof.
  apply calm_store. intros w. exists (OpTerminal record). split; [done|].
  apply AppendAttemptTerminal_placements.
Qed.

Lemma calm_close st : calm st (snd (with_store Close st)).
Proof.
  apply calm_store. intros w. exists OpClose. split; [done|]. apply books_placements, Close_books.
Qed.

Lemma calm_journal ref phase code st : calm st (journal_phase ref phase code st).
Proof.
  unfold journal_phase. destruct phase; first [apply calm_start|apply calm_terminal].
Qed.

Lemma calm_refuse_start ref status st :
  allocated ref st → calm st (refuse_start ref status st).
Proof.
  intros Ha. unfold refuse_start. set (st1 := FinalizeLocked _ _ _ st).
  transitivity st1; [by apply calm_finalize|].
  destruct (StatusCode_eqb _ _); [by apply calm_stats|reflexivity].
Qed.

(** ** Slots *)

Lemma calm_note_started ref st : calm st (snd (note_started ref st)).
Proof. apply calm_upd_slot. intros slot _. apply slot_step_start. Qed.

Lemma calm_set_decision ref decision st :
  (allocated ref st →
   honest_decision (opt_limits (co_options st)) (sl_request (slot_at ref st)) decision) →
  calm st (set_decision ref decision st).
Proof.
  intros Hd. apply calm_upd_slot. intros slot E. apply lookup_slot_at in E as [<- Ha].
  apply slot_step_decision. by apply Hd.
Qed.

Lemma calm_cross ref st : calm st (snd (cross_boundary ref st)).
Proof.
  unfold cross_boundary. destruct (sl_terminal _) eqn:Ht; [reflexivity|].
  destruct (sl_cancel_requested _) eqn:Hc; [reflexivity|].
  destruct (is_running st) eqn:Hr; cbn [negb]; [|reflexivity].
  repeat (case_match; [reflexivity|]). apply calm_upd_slot.
  intros slot E. apply lookup_slot_at in E as [<- _].
  apply slot_step_cross; [done..|by apply bool_decide_eq_true in Hr].
Qed.

(** What crossing the boundary has checked. *)
Lemma cross_boundary_checked ref st st' : allocated ref st →
  cross_boundary ref st = (None, st') →
  let request := sl_request (slot_at ref st) in
  sl_commit_boundary_crossed (slot_at ref st') = true ∧ co_epoch st' = co_epoch st ∧
  co_authority st' = co_authority st ∧
  exp_fabric_epoch (rq_expected request) = co_epoch st ∧
  AuthorityMatches (co_authority st) (rq_expected request) = true.
Proof.
  intros Ha. unfold cross_boundary. repeat (case_match; [done|]). intros [= <-]. cbv zeta.
  b2p. split_and!; try done. unfold slot_at, upd_slot. cbn.
  rewrite (nth_lookup_Some _ _ _ (sl_with_crossed true (slot_at ref st))); [done|].
  by rewrite list_lookup_alter_eq, slot_at_lookup.
Qed.

Lemma calm_enqueue ref attempt st : allocated ref st → calm st (snd (enqueue ref attempt st)).
Proof.
  intros Ha. unfold enqueue. destruct (negb _); cbn [snd].
  - transitivity (upd_stats count_rejected_shutting_down st); [by apply calm_stats|].
    by apply calm_finalize.
  - apply calm_coherent. intros Hc. apply calm_queue. rewrite (ch_queue _ Hc), wrap_succ, size_app.
    done.
Qed.

Lemma wrap_pred n : wrap 64 (wrap 64 (1 + n) + 2 ^ 64 - 1) = wrap 64 n.
Proof.
  unfold wrap. rewrite <-N.add_sub_assoc by done. rewrite N.Div0.add_mod_idemp_l.
  replace (1 + n + (2 ^ 64 - 1)) with (n + 1 * 2 ^ 64) by lia. apply N.Div0.mod_add.
Qed.

Lemma calm_take_work st : calm st (snd (take_work st)).
Proof.
  unfold take_work. destruct (co_queue st) as [|attempt queue] eqn:E.
  { destruct (negb _); [apply calm_live_workers|reflexivity]. }
  set (st1 := co_with_queue queue _ st).
  assert (calm st st1) as H1.
  { apply calm_coherent. intros Hc. apply calm_queue.
    by rewrite (ch_queue _ Hc), E, size_cons, wrap_pred. }
  destruct (co_slots st1 !! attempt) as [ref|]; [|done].
  destruct (sl_terminal (slot_at ref st1)) eqn:Ht; [done|]. transitivity st1; [done|].
  cbn [snd]. set (st2 := upd_slot _ _ st1). transitivity st2; [|apply calm_active].
  apply calm_upd_slot. intros slot Es. apply lookup_slot_at in Es as [<- _].
  by apply slot_step_work.
Qed.

Lemma take_work_allocated st ref : coherent st → fst (take_work st) = WorkerSlot ref →
  allocated ref (snd (take_work st)).
Proof.
  intros Hc. unfold take_work. destruct (co_queue st) as [|attempt queue] eqn:E; [by case_match|].
  set (st1 := co_with_queue queue _ st).
  destruct (co_slots st1 !! attempt) as [ref'|] eqn:El; [|done]. case_match; [done|].
  intros [= ->]. apply (ch_slots _ Hc) in El as (slot & El & _).
  unfold allocated. cbn. rewrite length_alter. by eapply lookup_lt_Some.
Qed.

Lemma calm_end_work ref st : calm st (end_work ref st).
Proof.
  unfold end_work. set (st1 := upd_slot _ _ st).
  assert (calm st st1) as H1 by (apply calm_upd_slot; intros slot _; apply slot_step_in_worker).
  destruct (_ <? _); [|done]. transitivity st1; [done|apply calm_active].
Qed.

Lemma calm_claim ref st : calm st (snd (claim ref st)).
Proof.
  unfold claim. destruct (sl_terminal _) eqn:Ht; [reflexivity|]. apply calm_upd_slot.
  intros slot E. apply lookup_slot_at in E as [<- _]. by apply slot_step_run.
Qed.

Lemma calm_offer ref decision st :
  (allocated ref st →
   honest_decision (opt_limits (co_options st)) (sl_request (slot_at ref st)) decision) →
  calm st (snd (offer_decision ref decision st)).
Proof.
  intros Hd. unfold offer_decision. destruct (sl_terminal _); [reflexivity|].
  by apply calm_set_decision.
Qed.

Lemma calm_finalize_once ref state code st :
  allocated ref st → terminal_state state = true → state ≠ AttemptState.kCommitted →
  calm st (snd (finalize_once ref state code st)).
Proof.
  intros. unfold finalize_once. destruct (sl_terminal _); [reflexivity|]. by apply calm_finalize.
Qed.

Lemma calm_reject_prepared ref decision st :
  allocated ref st → dec_intent decision = None →
  calm st (snd (reject_prepared ref decision st)).
Proof.
  intros Ha Hd. unfold reject_prepared. destruct (sl_terminal _); [reflexivity|]. cbn [snd].
  set (st1 := set_decision ref decision st). transitivity st1.
  - apply calm_set_decision. intros _ intent. by rewrite Hd.
  - apply calm_finalize; [|done..]. unfold allocated, st1. cbn. by rewrite length_alter.
Qed.

Lemma calm_await ref st : allocated ref st → calm st (snd (await_outcome ref st)).
Proof.
  intros Ha. unfold await_outcome. cbn [snd]. destruct (negb _); [by apply calm_finalize|reflexivity].
Qed.

Lemma calm_pending ref phase code st : calm st (upd_slot ref (sl_with_pending true phase code) st).
Proof. apply calm_upd_slot. intros slot _. apply slot_step_pending. Qed.

Lemma calm_request_cancel ref st : calm st (upd_slot ref (sl_with_cancel true) st).
Proof. apply calm_upd_slot. intros slot _. apply slot_step_cancel. Qed.

Lemma allocated_upd ref ref' f st : allocated ref st → allocated ref (upd_slot ref' f st).
Proof. unfold allocated. cbn. by rewrite length_alter. Qed.

Lemma allocated_finalize ref ref' state code st :
  allocated ref st → allocated ref (FinalizeLocked ref' state code st).
Proof.
  intros Ha. rewrite FinalizeLocked_unfold. destruct (sl_terminal _); [done|].
  by apply (allocated_upd ref ref' (end_slot state code) st).
Qed.

Lemma slots_allocated attempt ref st :
  coherent st → co_slots st !! attempt = Some ref → allocated ref st.
Proof. intros Hc E. destruct (ch_slots _ Hc _ _ E) as (? & ? & _). by eapply lookup_lt_Some. Qed.

Lemma calm_cancel attempt st : calm st (snd (cancel_attempt attempt st)).
Proof.
  apply calm_coherent. intros Hc. unfold cancel_attempt.
  destruct (co_slots st !! attempt) as [ref|] eqn:E; [|reflexivity].
  pose proof (slots_allocated _ _ _ Hc E) as Ha.
  destruct (sl_terminal _); [reflexivity|].
  destruct (sl_commit_boundary_crossed _); [reflexivity|]. set (st1 := upd_slot _ _ st).
  assert (calm st st1) as H1 by apply calm_request_cancel.
  destruct (_ && _); [|done]. set (st2 := FinalizeLocked _ _ _ st1).
  assert (calm st st2) as H2.
  { transitivity st1; [done|]. apply calm_finalize; [by apply allocated_upd|done..]. }
  destruct (sl_journalled_start _); [done|]. transitivity st2; [done|apply calm_pending].
Qed.

Lemma cancel_allocated attempt st ref : coherent st →
  snd (fst (cancel_attempt attempt st)) = Some ref → allocated ref (snd (cancel_attempt attempt st)).
Proof.
  intros Hc. unfold cancel_attempt. destruct (co_slots st !! attempt) as [ref'|] eqn:E; [|done].
  repeat (case_match; try done). intros [= ->].
  by apply allocated_finalize, allocated_upd, (slots_allocated attempt).
Qed.

(** ** Shutdown *)

Lemma calm_shutdown_slot ref acc : allocated ref (fst acc) →
  calm (fst acc) (fst (FinalizeShutdownSlot ref acc)).
Proof.
  destruct acc as [st journal]. cbn [fst]. intros Ha. unfold FinalizeShutdownSlot.
  set (st1 := upd_slot _ _ st). set (st2 := FinalizeLocked _ _ _ st1).
  assert (calm st st2) as H2.
  { transitivity st1; [apply calm_request_cancel|].
    apply calm_finalize; [by apply allocated_upd|done..]. }
  destruct (sl_journalled_start _); [done|]. transitivity st2; [done|apply calm_pending].
Qed.

Lemma shutdown_slot_slots ref acc :
  co_slots (fst (FinalizeShutdownSlot ref acc)) = co_slots (fst acc).
Proof.
  destruct acc as [st journal]. unfold FinalizeShutdownSlot, FinalizeLocked.
  repeat case_match; done.
Qed.

Lemma calm_cancel_queued attempts : ∀ acc,
  calm (fst acc) (fst (foldl cancel_queued acc attempts)) ∧
  co_slots (fst (foldl cancel_queued acc attempts)) = co_slots (fst acc).
Proof.
  induction attempts as [|attempt attempts IH]; intros acc; cbn [foldl]; [split; [reflexivity|done]|].
  destruct (IH (cancel_queued acc attempt)) as [Hc Hs].
  assert (calm (fst acc) (fst (cancel_queued acc attempt)) ∧
          co_slots (fst (cancel_queued acc attempt)) = co_slots (fst acc)) as [Hc1 Hs1].
  { unfold cancel_queued. destruct (co_slots (fst acc) !! attempt) as [ref|] eqn:E;
      [|split; [reflexivity|done]].
    destruct (sl_terminal _); [split; [reflexivity|done]|]. split; [|apply shutdown_slot_slots].
    apply calm_coherent. intros Hi. by apply calm_shutdown_slot, (slots_allocated attempt). }
  split; [by transitivity (fst (cancel_queued acc attempt))|by rewrite Hs].
Qed.

Lemma calm_cancel_registered cancel_active entries : ∀ acc,
  (∀ entry, entry ∈ entries → co_slots (fst acc) !! fst entry = Some (snd entry)) →
  calm (fst acc) (fst (foldl (cancel_registered cancel_active) acc entries)).
Proof.
  induction entries as [|entry entries IH]; intros acc He; cbn [foldl]; [reflexivity|].
  assert (calm (fst acc) (fst (cancel_registered cancel_active acc entry)) ∧
          co_slots (fst (cancel_registered cancel_active acc entry)) = co_slots (fst acc))
    as [Hc1 Hs1].
  { unfold cancel_registered. destruct (_ || _); [split; [reflexivity|done]|].
    destruct (_ || _); [|split; [reflexivity|done]]. split; [|apply shutdown_slot_slots].
    apply calm_coherent. intros Hi. apply calm_shutdown_slot, (slots_allocated (fst entry)); [done|].
    apply He. left. }
  transitivity (fst (cancel_registered cancel_active acc entry)); [done|]. apply IH.
  intros entry' Hin. rewrite Hs1. apply He. by right.
Qed.

Lemma calm_begin_shutdown cancel_active st : calm st (snd (begin_shutdown cancel_active st)).
Proof.
  unfold begin_shutdown. destruct (co_state st) eqn:Er; try reflexivity.
  set (st1 := co_with_state RunState.kShuttingDown st).
  assert (calm st st1) as H1 by (apply calm_state; rewrite Er; cbn; lia).
  destruct (calm_cancel_queued (co_queue st1) (st1, [])) as [H2 Hs2]. cbn [fst] in *.
  destruct (foldl cancel_queued _ _) as [st2 journal]. cbn [fst] in *.
  set (st3 := co_with_queue [] 0 st2).
  assert (calm st2 st3) as H3 by (by apply calm_queue).
  pose proof (calm_cancel_registered cancel_active (ordered_entries (co_slots st3)) (st3, journal))
    as H4. destruct (foldl _ (st3, journal) _) as [st4 journal']. cbn [fst snd] in *.
  transitivity st1; [done|]. transitivity st2; [done|]. transitivity st3; [done|].
  apply H4. intros [attempt ref]. unfold ordered_entries. rewrite std_sort_elem.
  by rewrite elem_of_map_to_list.
Qed.
