(* ===== verification/RuntimeCommit.v ===== *)
(** * The sections under [commit_mu]

    A change of the epoch or the authority, and the sections of a commit: what a
    thread knows between crossing the boundary and the end of its commit
    ([committing]), that others do not take it away, and that the placement a
    commit adds is fenced. *)

From Stdlib Require Import String.
From S2P Require Import Prelude StdAlgo Checked Status Hash Model ModelDigest Validate.
From S2P Require Import Explain Records Wire Store StoreOps StoreFacts Place PlaceCases.
From S2P Require Import Threads RuntimeState Runtime RuntimeInv RuntimeCalm.

(** A section that keeps to the protocol of a holder of [commit_mu]. *)
Definition holder_ok (st st' : CoordinatorState) : Prop :=
  coherent st' ∧ evolves true st st' ∧ section_move true st st'.

Lemma calm_holder st st' : coherent st → calm st st' → holder_ok st st'.
Proof.
  intros Hc H. destruct (H Hc) as [Hc' He].
  split_and!; [done|by apply evolves_any|by apply evolves_move].
Qed.

Lemma holder_refl st : coherent st → holder_ok st st.
Proof. intros Hc. apply calm_holder; [done|reflexivity]. Qed.

(** ** Epoch and authority *)

Lemma authority_ok authority epoch st :
  coherent st → co_epoch st <= epoch → u64_fits epoch → exp_fabric_epoch authority = epoch →
  holder_ok st (co_with_authority authority epoch st).
Proof.
  intros Hc Hle Hf He. unfold holder_ok. split_and!; [|constructor; try done; cbn|by left].
  - destruct Hc. constructor; try done. by apply (counted_ends_same st).
  - destruct (co_store st); [by exists []|done].
  - intros ref slot E. exists slot. split_and!; [done|done|apply crosses_refl|done].
  - intros flow r E. exists r. split; [done|lia].
Qed.

Lemma advance_epoch_ok st : coherent st → holder_ok st (snd (advance_epoch st)).
Proof.
  intros Hc. unfold advance_epoch, Advance. case_match eqn:E; [|by apply calm_holder].
  case_match eqn:Em; [done|]. injection E as <-. b2p. pose proof (ch_epoch_fits _ Hc) as Hf.
  unfold uint_fits, uint_max in *. cbn [snd]. rewrite wrap_small by (unfold uint_fits; lia).
  apply authority_ok; [done|lia|unfold uint_fits; lia|done].
Qed.

Lemma set_authority_ok expected st : u64_fits (exp_fabric_epoch expected) →
  coherent st → holder_ok st (snd (set_authority expected st)).
Proof.
  intros Hf Hc. unfold set_authority. case_match eqn:E; [by apply calm_holder|]. b2p.
  by apply authority_ok.
Qed.

(** ** A slot past the boundary *)

Record committing (ref : nat) (st : CoordinatorState) : Prop := {
  cm_allocated : allocated ref st;
  cm_crossed : sl_commit_boundary_crossed (slot_at ref st) = true;
  cm_epoch : exp_fabric_epoch (rq_expected (sl_request (slot_at ref st))) = co_epoch st;
  cm_authority : AuthorityMatches (co_authority st)
    (rq_expected (sl_request (slot_at ref st))) = true;
  cm_uncommitted : slot_end (slot_at ref st) ≠ Some AttemptState.kCommitted;
}.

Lemma evolves_slot_uncommitted ref st st' : evolves false st st' → allocated ref st →
  uncommitted (slot_at ref st) (slot_at ref st').
Proof.
  intros [] H%slot_at_lookup. destruct (ev_heap _ _ H) as (slot' & E & _ & _ & Hu).
  apply lookup_slot_at in E as [-> _]. by apply Hu.
Qed.

(** The others leave a committing slot alone. *)
Lemma committing_stable ref st st' :
  evolves false st st' → committing ref st → committing ref st'.
Proof.
  intros He [Ha Hx Hep0 Hau0 Hun]. pose proof (evolves_slot false ref _ _ He Ha) as [].
  pose proof (evolves_slot_uncommitted ref _ _ He Ha) as (Hu & _).
  pose proof (ev_frame _ _ _ He eq_refl) as (Hep & Hau & _).
  constructor; rewrite ?se_request, ?Hep, ?Hau; auto. by eapply evolves_allocated.
Qed.

Lemma committing_crossed ref st st' : coherent st → allocated ref st →
  cross_boundary ref st = (None, st') → committing ref st'.
Proof.
  intros Hc Ha E. pose proof (calm_cross ref st Hc) as [_ He]. rewrite E in He. cbn in He.
  pose proof (evolves_slot false ref _ _ He Ha) as [].
  pose proof (cross_boundary_checked ref st st' Ha E) as (H1 & H2 & H3 & H4 & H5).
  constructor; rewrite ?se_request, ?H2, ?H3; [|done..|].
  - by eapply evolves_allocated.
  - pose proof (evolves_slot_uncommitted ref _ _ He Ha) as (Hu & _). intros Hend%Hu.
    unfold cross_boundary, slot_end in *. by destruct (sl_terminal (slot_at ref st)).
Qed.

(** ** The placement *)

(** The slot once its outcome names a placement. *)
Definition naming (record : PlacementRecord) (slot : Slot) : Slot :=
  sl_with_outcome (ao_with_placement (pl_id record) (pl_generation record) (sl_outcome slot)) slot.

Lemma next_placement_fields intent delta digest by_incarnation epoch now impl r :
  next_placement intent delta digest by_incarnation epoch now impl = Value r →
  pl_intent r = intent ∧ pl_delta r = delta ∧ pl_decision_digest r = digest ∧
  pl_committed_by r = by_incarnation ∧ pl_commit_epoch r = epoch.
Proof.
  unfold next_placement. destruct (Latest _ _); [case_match; [done|]|]; by intros [= <-].
Qed.

(** The commit of the decision on a slot's request. *)
Lemma fenced_commit_intro ref st intent r :
  committing ref st → let slot := slot_at ref st in
  let decision := Place (opt_limits (co_options st)) (sl_request slot) in
  dec_intent decision = Some intent →
  pl_intent r = intent ∧ pl_delta r = dec_delta decision ∧
  pl_decision_digest r = dec_digest decision ∧ pl_committed_by r = co_incarnation st ∧
  pl_commit_epoch r = exp_fabric_epoch (rq_expected (sl_request slot)) →
  fenced_commit st slot r.
Proof.
  cbv zeta. intros [] Hd (<- & H1 & H2 & H3 & H4). constructor; try done. by rewrite H4.
Qed.

Section Commit.
Context (ref : nat) (st : CoordinatorState) (intent : PlacementIntent).
Context (Hc : coherent st) (Hm : committing ref st).
Let slot := slot_at ref st.
Let decision := Place (opt_limits (co_options st)) (sl_request slot).
Let epoch := exp_fabric_epoch (rq_expected (sl_request slot)).
Context (Hintent : dec_intent decision = Some intent).

Lemma commit_in_store_ok w : co_store st = Some w →
  let '(result, st') := commit_in_store intent (dec_delta decision) (dec_digest decision) epoch st in
  holder_ok st st' ∧ committing ref st' ∧
  ∀ record, result = Value record → recorded st' (naming record (slot_at ref st')).
Proof.
  intros Ew. unfold commit_in_store, with_store. rewrite Ew.
  set (op := OpCommit intent (dec_delta decision) (dec_digest decision) (co_incarnation st) epoch
               (co_clock st)).
  destruct (CommitPlacement _ _ _ _ _ _ w) as [result w'] eqn:E.
  assert (w' = run_ops [op] w) as Hw.
  { cbn [run_ops foldl run_op op]. unfold mbind, Io_bind. rewrite E. by destruct result. }
  pose proof (ch_indexed _ Hc w Ew) as Hi.
  pose proof (CommitPlacement_step _ _ _ _ _ _ _ _ _ E) as [Hs _]. fold op in Hs.
  pose proof (book_step_well_indexed _ _ _ Hs Hi) as Hi'.
  pose proof (so_attempt _ _ (ch_slot _ Hc _ _ (slot_at_lookup _ _ (cm_allocated _ _ Hm)))) as Ha.
  pose proof (so_request _ _ (ch_slot _ Hc _ _ (slot_at_lookup _ _ (cm_allocated _ _ Hm)))) as Hr.
  assert (evolves true st (co_with_store (Some w') st)) as He.
  { constructor; try done; cbn.
    - rewrite Ew. exists [op]. by rewrite Hw.
    - intros r s Es. exists s. split_and!; [done|done|apply crosses_refl|done].
    - intros flow p Ep. exists p. split; [done|lia]. }
  clear Hw. unfold holder_ok. split_and!; [|exact He|..].
  - destruct Hc. constructor; cbn; try done.
    + intros r s Es Hend. by apply (recorded_evolves true st _ s s ch_indexed He);
        [apply (so_attempt _ _ (ch_slot _ _ Es))|..|apply (ch_recorded r)].
    + intros w1 [= <-]. done.
    + by apply (counted_ends_same st).
  - inversion Hs as [? ? Hb| | |? ? ? ? ? ? r ? _ _ _ _ Hn Hb].
    + left. unfold placements. cbn. rewrite Ew. cbn. by rewrite (books_placements _ _ Hb).
    + right. exists ref, slot, r.
      split_and!; [by apply slot_at_lookup, Hm|..].
      * apply next_placement_fields in Hn. by apply (fenced_commit_intro ref st intent r Hm Hintent).
      * unfold adds_placement, placements. cbn. rewrite Ew. cbn.
        by rewrite (books_placements _ _ Hb).
  - destruct Hm. by constructor.
  - intros record ->. pose proof (Place_intent_ids _ _ _ Hintent) as [_ Hat].
    apply CommitPlacement_value in E as (_ & Heq & Hcp); [|done].
    exists record, intent. split_and!; [|done..].
    change (committed_placement (sl_attempt (slot_at ref st)) (st_impl (w_store w')) = Some record).
    rewrite <-Hr in Ha |- *. fold slot in Ha |- *. rewrite <-Hat in Ha |- *. by apply Hcp.
Qed.

Lemma commit_in_memory_ok : co_store st = None →
  let '(result, st') := commit_in_memory intent (dec_delta decision) (dec_digest decision) epoch st in
  holder_ok st st' ∧ committing ref st' ∧
  ∀ record, result = Value record → recorded st' (naming record (slot_at ref st')).
Proof.
  intros En. pose proof (Place_intent_ids _ _ _ Hintent) as [Hflow _].
  set (latest := co_latest_in_memory st). set (next := wrap 64 (co_next_placement_id st + 1)).
  (* the commit of a record that follows the latest one *)
  assert (∀ record, pl_intent record = intent ∧ pl_delta record = dec_delta decision ∧
      pl_decision_digest record = dec_digest decision ∧
      pl_committed_by record = co_incarnation st ∧ pl_commit_epoch record = epoch →
    u64_fits (pl_generation record) →
    (∀ r, latest !! int_flow intent = Some r → pl_generation r <= pl_generation record) →
    let st' := co_with_memory next (<[int_flow intent := record]> latest) st in
    holder_ok st st' ∧ committing ref st' ∧ recorded st' (naming record (slot_at ref st'))) as Hcommit.
  { intros record Hrec Hf Hle. cbv zeta.
    assert (evolves true st (co_with_memory next (<[int_flow intent := record]> latest) st)) as He.
    { constructor; try done; cbn.
      - by rewrite En.
      - intros r s Es. exists s. split_and!; [done|done|apply crosses_refl|done].
      - intros flow r Er. destruct (decide (flow = int_flow intent)) as [->|Hne].
        + exists record. rewrite lookup_insert_eq. split; [done|by apply Hle].
        + exists r. rewrite lookup_insert_ne by done. split; [done|lia]. }
    unfold holder_ok. split_and!; [|exact He|..].
    - destruct Hc. constructor; cbn; try done.
      + intros r s Es Hend. by apply (recorded_evolves true st _ s s ch_indexed He);
          [apply (so_attempt _ _ (ch_slot _ _ Es))|..|apply (ch_recorded r)].
      + by apply (counted_ends_same st).
      + intros flow r [[<- <-]|[_ Er]]%lookup_insert_Some; [done|by eapply ch_memory].
    - right. exists ref, slot, record. split_and!; [by apply slot_at_lookup, Hm|..].
      + by apply (fenced_commit_intro ref st intent record Hm Hintent).
      + unfold adds_placement, placements. cbn. rewrite En. destruct Hrec as [-> _]. done.
    - destruct Hm. by constructor.
    - unfold recorded. cbn. rewrite En. exists record. split; [|lia].
      change (<[int_flow intent:=record]> latest !! rq_flow (sl_request slot) = Some record).
      rewrite <-Hflow. apply lookup_insert_eq. }
  unfold commit_in_memory. destruct (co_next_placement_id st =? uint_max 64).
  { split_and!; [by apply holder_refl|done|done]. }
  fold latest next.
  destruct (latest !! int_flow intent) as [existing|] eqn:El.
  - destruct (pl_generation existing =? uint_max 64) eqn:Emax.
    + split_and!; [|destruct Hm; by constructor|done].
      apply calm_holder; [done|]. intros _. split; [|by apply evolves_parts; try done; exact (heap_same st)].
      destruct Hc. constructor; try done. by apply (counted_ends_same st).
    + b2p. pose proof (ch_memory _ Hc _ _ El) as Hf. unfold uint_fits, uint_max in *.
      assert (wrap 64 (pl_generation existing + 1) = pl_generation existing + 1) as Hw
        by (apply wrap_small; unfold uint_fits; lia).
      destruct (Hcommit (mkPlacement (co_next_placement_id st) (wrap 64 (pl_generation existing + 1))
        intent (dec_delta decision) (dec_digest decision) (co_incarnation st) epoch 0
        (pl_generation existing) (co_clock st) false)) as (H1 & H2 & H3); [done|..].
      * cbn. rewrite Hw. lia.
      * intros r [= <-]. cbn. rewrite Hw. lia.
      * split_and!; [done..|]. by intros record [= <-].
  - destruct (Hcommit (mkPlacement (co_next_placement_id st) 1
      intent (dec_delta decision) (dec_digest decision) (co_incarnation st) epoch 0
      0 (co_clock st) false)) as (H1 & H2 & H3); [done..|].
    split_and!; [done..|]. by intros record [= <-].
Qed.
End Commit.

(** The outcome takes the placement's identity. *)
Lemma slot_at_upd ref f st : allocated ref st → slot_at ref (upd_slot ref f st) = f (slot_at ref st).
Proof.
  intros Ha. apply (lookup_slot_at ref). cbn. by rewrite list_lookup_alter_eq, slot_at_lookup.
Qed.

Lemma note_placement_ok ref record st :
  coherent st → committing ref st → recorded st (naming record (slot_at ref st)) →
  holder_ok st (note_placement ref record st) ∧ committing ref (note_placement ref record st) ∧
  recorded (note_placement ref record st) (slot_at ref (note_placement ref record st)).
Proof.
  intros Hc Hm Hr. pose proof (cm_allocated _ _ Hm) as Ha.
  pose proof (slot_at_lookup _ _ Ha) as Es.
  change (note_placement ref record st) with (upd_slot ref (naming record) st).
  assert (evolves true st (upd_slot ref (naming record) st)) as He.
  { constructor; try done; cbn.
    - destruct (co_store st); [by exists []|done].
    - intros r s E. destruct (decide (r = ref)) as [->|Hne].
      + exists (naming record s). rewrite list_lookup_alter_eq, E.
        split_and!; [done|by constructor|intros H1 H2; cbn in *; congruence|done].
      + exists s. rewrite list_lookup_alter_ne by done.
        split_and!; [done|done|apply crosses_refl|done].
    - intros flow p E. exists p. split; [done|lia]. }
  unfold holder_ok. split_and!; [|exact He|by left|..].
  - apply coherent_alter; [done|..].
    + intros s E. split_and!; [done|by intros []; constructor|].
      rewrite Es in E. injection E as <-. done.
    + apply (counted_ends_same st); [done| |apply Hc]. by apply slot_end_alter.
  - destruct Hm. constructor; rewrite ?slot_at_upd by done; try done. by apply allocated_upd.
  - rewrite slot_at_upd by done. done.
Qed.

Lemma finalize_committed_ok ref st :
  coherent st → allocated ref st → recorded st (slot_at ref st) →
  holder_ok st (FinalizeLocked ref AttemptState.kCommitted StatusCode.kOk st).
Proof.
  intros Hc Ha Hr. unfold holder_ok. split_and!; [by apply coherent_finalize|by apply evolves_finalize|].
  left. unfold FinalizeLocked. by case_match.
Qed.

Lemma recorded_stable ref st st' :
  coherent st → allocated ref st → evolves false st st' →
  recorded st (slot_at ref st) → recorded st' (slot_at ref st').
Proof.
  intros Hc Ha He. pose proof (evolves_slot false ref _ _ He Ha) as [].
  pose proof (evolves_slot_uncommitted ref _ _ He Ha) as (_ & Hid & Hgen).
  pose proof (so_attempt _ _ (ch_slot _ Hc _ _ (slot_at_lookup _ _ Ha))) as Hat.
  apply (recorded_evolves false); [apply (ch_indexed _ Hc)|done..].
Qed.

Lemma recorded_naming_stable ref record st st' :
  coherent st → allocated ref st → evolves false st st' →
  recorded st (naming record (slot_at ref st)) → recorded st' (naming record (slot_at ref st')).
Proof.
  intros Hc Ha He. pose proof (evolves_slot false ref _ _ He Ha) as [].
  pose proof (so_attempt _ _ (ch_slot _ Hc _ _ (slot_at_lookup _ _ Ha))) as Hat.
  apply (recorded_evolves false); [apply (ch_indexed _ Hc)|done..].
Qed.
