(* ===== verification/RuntimeThreads.v ===== *)
(** * Threads and the protocol

    Every thread of [Runtime] keeps to the protocol of the coordinator, by rules
    that follow the structure of the threads: [meets held t P Q] says that [t],
    run by a thread that holds [held] from a state with [P], keeps to the protocol,
    gives back what it takes, and ends with [Q]. *)

From Stdlib Require Import String.
From S2P Require Import Prelude StdAlgo Checked Status Hash Model ModelDigest Validate.
From S2P Require Import Explain Records Wire Store StoreOps StoreFacts Place PlaceCases.
From S2P Require Import Threads RuntimeState Runtime RuntimeInv RuntimeCalm RuntimeCommit.

(** ** Assertions the others respect *)

Class Stable (held : Held) (P : CoordinatorState → Prop) : Prop :=
  stable s s' : coherent s → rely held s s' → P s → P s'.

Definition with_commit : Held := holding CommitMu true free.

Lemma rely_evolves held s s' : rely held s s' → evolves true s s'.
Proof.
  unfold rely. destruct (negb _); [done|]. apply (guar_weaken (Protocol := coordinator_protocol)).
Qed.

Lemma evolves_rely held s s' : evolves false s s' → rely held s s'.
Proof. apply evolves_any. Qed.

#[export] Instance stable_pure held (P : Prop) : Stable held (λ _, P).
Proof. by intros s s'. Qed.

#[export] Instance stable_and held P Q :
  Stable held P → Stable held Q → Stable held (λ s, P s ∧ Q s).
Proof. intros HP HQ s s' Hc Hr [H1 H2]. split; [by apply (HP s)|by apply (HQ s)]. Qed.

#[export] Instance stable_impl held (A : Prop) P :
  Stable held P → Stable held (λ s, A → P s).
Proof. intros HP s s' Hc Hr H Ha. apply (HP s); auto. Qed.

#[export] Instance stable_forall {A} held (P : A → CoordinatorState → Prop) :
  (∀ a, Stable held (P a)) → Stable held (λ s, ∀ a, P a s).
Proof. intros HP s s' Hc Hr H a. by apply (HP a s). Qed.

#[export] Instance stable_allocated held ref : Stable held (allocated ref).
Proof. intros s s' _ Hr%rely_evolves. by apply (evolves_allocated true). Qed.

#[export] Instance stable_committing ref : Stable with_commit (committing ref).
Proof. intros s s' _ Hr. by apply committing_stable. Qed.

(** What the coordinator was started with. *)
Definition limits_are (limits : Limits) (s : CoordinatorState) : Prop :=
  opt_limits (co_options s) = limits.

#[export] Instance stable_limits held limits : Stable held (limits_are limits).
Proof. intros s s' _ [Ho]%rely_evolves. unfold limits_are. by rewrite Ho. Qed.

(** Whether the coordinator has a store. *)
Definition durable_is (durable : bool) (s : CoordinatorState) : Prop := has_store s = durable.

#[export] Instance stable_durable held durable : Stable held (durable_is durable).
Proof.
  intros s s' _ [? ? Hs]%rely_evolves <-. unfold durable_is, has_store.
  destruct (co_store s); [destruct Hs as [ops ->]|rewrite Hs]; done.
Qed.

Lemma durable_store s : durable_is true s → ∃ w, co_store s = Some w.
Proof. intros H. by apply bool_decide_eq_true in H as [w ?]; exists w. Qed.

Lemma not_durable_store s : durable_is false s → co_store s = None.
Proof. intros H. apply bool_decide_eq_false in H. by apply eq_None_not_Some. Qed.

(** A decision the slot may carry. *)
Definition decided (ref : nat) (decision : PlacementDecision) (s : CoordinatorState) : Prop :=
  allocated ref s ∧
  honest_decision (opt_limits (co_options s)) (sl_request (slot_at ref s)) decision.

#[export] Instance stable_decided held ref decision : Stable held (decided ref decision).
Proof.
  intros s s' _ Hr%rely_evolves [Ha Hd]. split; [by apply (evolves_allocated true _ s)|].
  pose proof (evolves_slot true ref _ _ Hr Ha) as []. destruct Hr. by rewrite se_request, ev_options.
Qed.

(** A slot as it was read. *)
Definition slot_read (ref : nat) (slot : Slot) (s : CoordinatorState) : Prop :=
  decided ref (ao_decision (sl_outcome slot)) s ∧ sl_request slot = sl_request (slot_at ref s).

#[export] Instance stable_slot_read held ref slot : Stable held (slot_read ref slot).
Proof.
  intros s s' Hc Hr [Hd Hq]. split; [by apply (stable_decided held _ _ s)|].
  destruct Hd as [Ha _]. apply rely_evolves in Hr.
  pose proof (evolves_slot true ref _ _ Hr Ha) as []. congruence.
Qed.

Lemma slot_at_read ref s : coherent s → allocated ref s → slot_read ref (slot_at ref s) s.
Proof.
  intros Hc Ha. split; [|done]. split; [done|].
  intros intent. apply (so_decision _ _ (ch_slot _ Hc _ _ (slot_at_lookup _ _ Ha))).
Qed.

(** ** Rules *)

Definition meets {A} (held : Held) (t : Thread A) (P : CoordinatorState → Prop)
    (Q : A → CoordinatorState → Prop) : Prop :=
  ∀ s, coherent s → P s → wp held t (λ a held' s', held' = held ∧ Q a s') s.

Lemma meets_ret {A} held (a : A) P (Q : A → CoordinatorState → Prop) `{Hst : !Stable held (Q a)} :
  (∀ s, P s → Q a s) → meets held (mret a) P Q.
Proof. intros HQ s Hc HP s1 Hr Hi. split; [done|]. apply (Hst s); auto. Qed.

Lemma meets_bind {A B} held (t : Thread A) (k : A → Thread B) P Q R :
  meets held t P Q → (∀ a, meets held (k a) (Q a) R) → meets held (t ≫= k) P R.
Proof.
  intros Ht Hk s Hc HP. apply wp_bind. eapply wp_mono; [|by apply Ht].
  intros a held' s' Hc' [-> HQ]. by apply Hk.
Qed.

Lemma meets_pre {A} held (t : Thread A) P P' Q :
  (∀ s, P s → P' s) → meets held t P' Q → meets held t P Q.
Proof. intros HP Ht s Hc H. apply Ht; auto. Qed.

Lemma meets_post {A} held (t : Thread A) P Q Q' :
  (∀ a s, Q a s → Q' a s) → meets held t P Q → meets held t P Q'.
Proof.
  intros HQ Ht s Hc H. eapply wp_mono; [|by apply Ht]. intros a held' s' _ [-> ?]. auto.
Qed.

(** A section that keeps to what its holder may do. *)
Definition section_keeps (held : Held) (s s' : CoordinatorState) : Prop :=
  coherent s' ∧ evolves (holds_commit held) s s' ∧ section_move (holds_commit held) s s'.

Lemma calm_keeps held s s' : coherent s → calm s s' → section_keeps held s s'.
Proof.
  intros Hc H. destruct (H Hc) as [Hc' He].
  split_and!; [done|by apply evolves_any|by apply evolves_move].
Qed.

Lemma meets_section {R} held guard (section : CoordinatorState → R * CoordinatorState) P Q
    `{HP : !Stable held P} `{HQ : !∀ r, Stable held (Q r)} :
  (holds_any held = true → ∀ s, guard s = true) →
  (∀ s, coherent s → P s → guard s = true →
     section_keeps held s (snd (section s)) ∧ Q (fst (section s)) (snd (section s))) →
  meets held (wait guard section) P Q.
Proof.
  intros Hg Hs s Hc H. apply wp_section. intros s1 Hr Hc1.
  split; [by intros Hany; apply Hg|]. intros E.
  destruct (Hs s1 Hc1) as [(Hc2 & He & Hm) Hq]; [by apply (HP s)|done|].
  destruct (section s1) as [r s2]. cbn [fst snd] in *. split_and!; [done..|].
  intros s3 Hr3 Hc3. split; [done|]. by apply (HQ r s2).
Qed.

Lemma meets_locked {R} held (section : CoordinatorState → R * CoordinatorState) P Q
    `{HP : !Stable held P} `{HQ : !∀ r, Stable held (Q r)} :
  (∀ s, coherent s → P s →
     section_keeps held s (snd (section s)) ∧ Q (fst (section s)) (snd (section s))) →
  meets held (locked section) P Q.
Proof. intros Hs. apply (meets_section _ _ _ _ _); [done|]. intros s Hc H _. by apply Hs. Qed.

Lemma meets_calm {R} held (section : CoordinatorState → R * CoordinatorState) P Q
    `{HP : !Stable held P} `{HQ : !∀ r, Stable held (Q r)} :
  (∀ s, coherent s → P s → calm s (snd (section s)) ∧ Q (fst (section s)) (snd (section s))) →
  meets held (locked section) P Q.
Proof.
  intros Hs. apply (meets_locked _ _ _ _). intros s Hc H. destruct (Hs s Hc H).
  split; [by apply calm_keeps|done].
Qed.

(** A calm section does not disturb what the others respect. *)
Lemma meets_keep {R} held (section : CoordinatorState → R * CoordinatorState) P `{HP : !Stable held P} :
  (∀ s, coherent s → P s → calm s (snd (section s))) →
  meets held (locked section) P (λ _, P).
Proof.
  intros Hs. apply (meets_calm _ _ _ _). intros s Hc H. specialize (Hs s Hc H).
  split; [done|]. apply (HP s); [done| |done]. apply evolves_rely. by apply Hs.
Qed.

Lemma meets_update held (f : CoordinatorState → CoordinatorState) P `{HP : !Stable held P} :
  (∀ s, coherent s → P s → calm s (f s)) →
  meets held (update f) P (λ _, P).
Proof. exact (meets_keep held (λ s, (tt, f s)) P). Qed.

Lemma meets_peek {R} held (f : CoordinatorState → R) P Q
    `{HP : !Stable held P} `{HQ : !∀ r, Stable held (Q r)} :
  (∀ s, coherent s → P s → Q (f s) s) → meets held (peek f) P Q.
Proof.
  intros Hs. apply (meets_calm _ _ _ _). intros s Hc H. split; [reflexivity|by apply Hs].
Qed.

Lemma meets_guarded {A} m held (t : Thread A) P Q
    `{HP : !Stable held P} `{HQ : !∀ a, Stable held (Q a)} :
  may_acquire m held = true →
  holds m held = false →
  meets (holding m true held) t P Q → meets held (guarded m t) P Q.
Proof.
  intros Hm Hh Ht s Hc H. unfold guarded.
  apply wp_bind, wp_acquire; [done|]. intros s1 Hr1 Hc1 s2 Hr2 Hc2.
  assert (∀ s s', rely (holding m true held) s s' → rely held s s') as Hweak.
  { intros a b. unfold rely. destruct m; cbn in *; [|done]. rewrite Hh. cbn.
    apply (guar_weaken (Protocol := coordinator_protocol)). }
  assert (P s2) as H2.
  { apply (HP s1); [done|by apply Hweak|]. by apply (HP s). }
  apply wp_bind. eapply wp_mono; [|by apply Ht]. intros a held' s3 Hc3 [-> HQ3].
  apply wp_bind, wp_release; [by destruct m|]. intros s4 Hr4 Hc4 s5 Hr5 Hc5.
  assert (holding m false (holding m true held) = held) as Eh by (destruct m, held; cbn in *; by rewrite Hh).
  rewrite Eh in *. apply wp_ret. intros s6 Hr6 Hc6. split; [done|].
  apply (HQ a s5); [done..|]. apply (HQ a s4); [done..|].
  apply (HQ a s3); [done|by apply Hweak|done].
Qed.

(** ** Journal *)

(** Holding [store_mu] does not change what a thread may rely on. *)
#[export] Instance stable_store held b P : Stable held P → Stable (holding StoreMu b held) P.
Proof. intros HP. exact HP. Qed.

Lemma meets_JournalTerminal held ref phase code P `{HP : !Stable held P} :
  holds_store held = false → meets held (JournalTerminal ref phase code) P (λ _, P).
Proof.
  intros Hh. eapply meets_bind; [by apply (meets_peek _ _ _ (λ _, P))|]. intros durable.
  destruct (negb durable); [by apply (meets_ret _ _ _ _)|].
  apply (meets_guarded _ _ _ _ _); [by cbn; rewrite Hh|done|].
  apply (meets_update _ _ _). intros s Hc _. apply calm_journal.
Qed.

(** ** Commit *)

(** What a commit answers: a recorded placement. *)
Definition answered (ref : nat) (result : Result PlacementRecord) (s : CoordinatorState) : Prop :=
  committing ref s ∧
  ∀ record, result = Value record → recorded s (naming record (slot_at ref s)).

#[export] Instance stable_answered ref result : Stable with_commit (answered ref result).
Proof.
  intros s s' Hc Hr [Hm Hrec]. split; [by apply (committing_stable ref s)|].
  intros record E. apply (recorded_naming_stable ref record s); auto. apply Hm.
Qed.

(** The slot's decision, its delta and digest and its epoch. *)
Record committed_as (ref : nat) (intent : PlacementIntent) (delta : IncumbentDelta)
    (digest : Digest) (epoch : N) (s : CoordinatorState) : Prop := {
  ca_committing : committing ref s;
  ca_intent : dec_intent (Place (opt_limits (co_options s)) (sl_request (slot_at ref s))) = Some intent;
  ca_delta : delta = dec_delta (Place (opt_limits (co_options s)) (sl_request (slot_at ref s)));
  ca_digest : digest = dec_digest (Place (opt_limits (co_options s)) (sl_request (slot_at ref s)));
  ca_epoch : epoch = exp_fabric_epoch (rq_expected (sl_request (slot_at ref s)));
}.

#[export] Instance stable_committed_as ref intent delta digest epoch :
  Stable with_commit (committed_as ref intent delta digest epoch).
Proof.
  intros s s' Hc Hr [Hm H1 H2 H3 H4]. pose proof (cm_allocated _ _ Hm) as Ha.
  pose proof (evolves_slot false ref _ _ Hr Ha) as [].
  destruct Hr. constructor; rewrite ?se_request, ?ev_options; [|done..].
  by apply (committing_stable ref s).
Qed.

Lemma meets_CommitRecord ref intent delta digest epoch :
  meets with_commit (CommitRecord intent delta digest epoch)
    (committed_as ref intent delta digest epoch) (answered ref).
Proof.
  eapply meets_bind.
  { by apply (meets_peek _ _ _
      (λ durable s, committed_as ref intent delta digest epoch s ∧ durable_is durable s)). }
  intros [|].
  - apply (meets_guarded _ _ _ _ _); [done|done|]. apply (meets_locked _ _ _ _).
    intros s Hc [[Hm H1 -> -> ->] [w Hw]%durable_store].
    pose proof (commit_in_store_ok ref s intent Hc Hm H1 w Hw) as Hok.
    destruct (commit_in_store _ _ _ _ s) as [result s']. destruct Hok as ((? & ? & ?) & ? & ?). done.
  - apply (meets_locked _ _ _ _). intros s Hc [[Hm H1 -> -> ->] Hn%not_durable_store].
    pose proof (commit_in_memory_ok ref s intent Hc Hm H1 Hn) as Hok.
    destruct (commit_in_memory _ _ _ _ s) as [result s']. destruct Hok as ((? & ? & ?) & ? & ?). done.
Qed.

(** A committing slot with its placement in the outcome. *)
Definition committed_slot (ref : nat) (s : CoordinatorState) : Prop :=
  committing ref s ∧ recorded s (slot_at ref s).

#[export] Instance stable_committed_slot ref : Stable with_commit (committed_slot ref).
Proof.
  intros s s' Hc Hr [Hm Hrec]. split; [by apply (committing_stable ref s)|].
  apply (recorded_stable ref s); auto. apply Hm.
Qed.

Lemma meets_commit_crossed ref :
  meets with_commit (commit_crossed ref) (committing ref) (λ _, allocated ref).
Proof.
  assert (∀ s, committing ref s → allocated ref s) as Hal by (by intros s []).
  eapply meets_bind.
  { apply (meets_peek _ _ _ (λ slot s, committing ref s ∧ slot_read ref slot s)).
    intros s Hc Hm. split; [done|by apply slot_at_read; [|apply Hal]]. }
  intros slot. cbv zeta. destruct (dec_intent _) as [intent|] eqn:Ei.
  2: { apply (meets_ret _ _ _ _). intros s [Hm _]. by apply Hal. }
  eapply meets_bind.
  { eapply meets_pre; [|apply meets_CommitRecord]. cbv beta.
    intros s [Hm [[Ha Hd] Hq]]. specialize (Hd _ Ei). rewrite Hd in Ei |- *.
    constructor; [done..|by rewrite Hq]. }
  intros [record|status].
  2: { apply (meets_ret _ _ _ _). intros s [Hm _]. by apply Hal. }
  eapply meets_bind.
  { apply (meets_locked _ _ _ (λ _, committed_slot ref)). intros s Hc [Hm Hrec].
    destruct (note_placement_ok ref record s Hc Hm) as ((? & ? & ?) & ? & ?); [by apply Hrec|done]. }
  intros []. eapply meets_bind; [by apply (meets_JournalTerminal _ _ _ _ _)|]. intros [].
  eapply meets_bind.
  { apply (meets_locked _ _ _ (λ _, allocated ref)). intros s Hc [Hm Hrec].
    destruct (finalize_committed_ok ref s Hc) as (? & ? & ?); [by apply Hal|done|].
    split; [done|]. by apply allocated_finalize, Hal. }
  intros []. by apply (meets_ret _ _ _ _).
Qed.

Lemma meets_CommitSlot ref : meets free (CommitSlot ref) (allocated ref) (λ _, allocated ref).
Proof.
  apply (meets_guarded _ _ _ _ _); [done|done|]. eapply meets_bind.
  { apply (meets_calm _ _ _ (λ refused s, allocated ref s ∧ (refused = None → committing ref s))).
    intros s Hc Ha. split; [apply calm_cross|]. split.
    - apply (evolves_allocated false ref s); [|done]. by apply calm_cross.
    - intros E. apply (committing_crossed ref s); [done..|].
      destruct (cross_boundary ref s). cbn in *. by subst. }
  intros [status|]; [apply (meets_ret _ _ _ _); by intros s []|].
  eapply meets_pre; [|apply meets_commit_crossed]. intros s [_ H]. by apply H.
Qed.

(** ** Workers *)

Lemma StateForFailure_terminal code :
  terminal_state (StateForFailure code) = true ∧ StateForFailure code ≠ AttemptState.kCommitted.
Proof. by destruct code. Qed.

Lemma meets_finalize held ref state code :
  terminal_state state = true → state ≠ AttemptState.kCommitted →
  meets held (update (FinalizeLocked ref state code)) (allocated ref) (λ _, allocated ref).
Proof. intros. apply (meets_update _ _ _). intros s _ Ha. by apply calm_finalize. Qed.

Lemma meets_decide held ref :
  meets held (peek (decide_slot ref)) (allocated ref) (λ decision, decided ref decision).
Proof.
  apply (meets_peek _ _ _ _). intros s Hc Ha. split; [done|].
  unfold decide_slot. rewrite ComputeDecision_Place. apply honest_computed.
Qed.

Lemma meets_commit_processed ref :
  meets free (commit_processed ref) (allocated ref) (λ _, allocated ref).
Proof.
  eapply meets_bind; [apply meets_CommitSlot|]. intros status.
  destruct (status_ok status); [by apply (meets_ret _ _ _ _)|].
  destruct (StateForFailure_terminal (status_code status)).
  eapply meets_bind; [by apply meets_finalize|]. intros []. by apply (meets_JournalTerminal _ _ _ _ _).
Qed.

Lemma meets_ProcessSlot ref : meets free (ProcessSlot ref) (allocated ref) (λ _, allocated ref).
Proof.
  assert (∀ decision s, decided ref decision s → allocated ref s) as Hal by (by intros ? ? []).
  eapply meets_bind; [apply meets_decide|]. intros decision. eapply meets_bind.
  { apply (meets_keep _ _ _). intros s _ [_ Hd]. by apply calm_offer. }
  intros offered. destruct (negb offered); [apply (meets_ret _ _ _ _), Hal|].
  eapply meets_pre; [apply Hal|]. destruct (negb _); [|apply meets_commit_processed].
  eapply meets_bind; [by apply meets_finalize|]. intros []. by apply (meets_JournalTerminal _ _ _ _ _).
Qed.

Lemma meets_worker_round : meets free worker_round (λ _, True) (λ _ _, True).
Proof.
  eapply meets_bind.
  { apply (meets_section _ _ _ _ (λ item s, ∀ ref, item = WorkerSlot ref → allocated ref s)); [done|].
    intros s Hc _ _. split; [by apply calm_keeps, calm_take_work|]. intros ref.
    by apply take_work_allocated. }
  intros [| |ref]; [by apply (meets_ret _ _ _ _)..|].
  eapply meets_pre; [by intros s H; apply (H ref)|].
  eapply meets_bind; [apply meets_ProcessSlot|]. intros []. eapply meets_bind.
  { apply (meets_update _ _ _). intros s _ _. apply calm_end_work. }
  intros []. by apply (meets_ret _ _ _ _).
Qed.

(** ** Registration *)

(** The reference a registration returns. *)
Definition registered (result : Result nat) (s : CoordinatorState) : Prop :=
  ∀ ref, result = Value ref → allocated ref s.

#[export] Instance stable_registered held result : Stable held (registered result).
Proof. unfold registered. apply _. Qed.

Lemma registered_value ref s : allocated ref s → registered (Value ref) s.
Proof. by intros H ? [= <-]. Qed.

Lemma registered_error status s : registered (Error status) s.
Proof. done. Qed.

Lemma meets_start_durably ref :
  meets free (start_durably ref) (allocated ref) (λ _, allocated ref).
Proof.
  apply (meets_guarded _ _ _ _ _); [done|done|]. eapply meets_bind.
  { apply (meets_keep _ _ _). intros s _ _. apply calm_start. }
  intros [[]|status]; [by apply (meets_ret _ _ _ _)|]. eapply meets_bind.
  { apply (meets_update _ _ _). intros s _ Ha. by apply calm_refuse_start. }
  intros []. by apply (meets_ret _ _ _ _).
Qed.

Lemma meets_journal_registered ref :
  meets free (journal_registered ref) (allocated ref) registered.
Proof.
  eapply meets_bind; [by apply (meets_peek _ _ _ (λ _, allocated ref))|]. intros durable.
  destruct (negb durable); [apply (meets_ret _ _ _ _), registered_value|].
  eapply meets_bind; [apply meets_start_durably|].
  intros [status|]; [apply (meets_ret _ _ _ _); intros; apply registered_error|].
  eapply meets_bind.
  { apply (meets_keep _ _ _). intros s _ _. apply calm_note_started. }
  intros pending. eapply meets_bind.
  { instantiate (1 := λ _, allocated ref). destruct pending as [[phase code]|].
    - by apply (meets_JournalTerminal _ _ _ _ _).
    - by apply (meets_ret _ _ _ _). }
  intros []. apply (meets_ret _ _ _ _), registered_value.
Qed.

Lemma check_submission_valid request attempt limits :
  status_ok (check_submission request attempt limits) = true → attempt ≠ 0.
Proof. unfold check_submission. destruct (valid attempt) eqn:E; [|done]. intros _. by apply valid_true. Qed.

Lemma meets_RegisterAttempt request attempt enforce :
  meets free (RegisterAttempt request attempt enforce) (λ _, True) registered.
Proof.
  eapply meets_bind.
  { by apply (meets_peek _ _ _ (λ limits, limits_are limits)). }
  intros limits. cbv zeta. destruct (status_ok _) eqn:Eok; cbn [negb].
  2: { apply (meets_ret _ _ _ _). intros. apply registered_error. }
  apply check_submission_valid in Eok. eapply meets_bind.
  { apply (meets_calm _ _ _ registered). intros s Hc Hl.
    destruct (calm_admit (rq_with_attempt attempt request) attempt
      (RequestDigest (rq_with_attempt attempt request) limits) enforce s) as [Hcalm Hal];
      [done|done|by rewrite Hl|]. split; [done|]. intros ref. by apply Hal. }
  intros [ref|status]; [|by apply (meets_ret _ _ _ _)].
  eapply meets_pre; [|apply meets_journal_registered]. intros s H. by apply H.
Qed.

(** ** Placement *)

(** A decision that a caller may hand to [Commit]. *)
Definition honest_prepared (prepared : PreparedAttempt) : Prop :=
  placed (prep_decision prepared) = false → dec_intent (prep_decision prepared) = None.

Lemma meets_Submit request attempt :
  meets free (Submit request attempt) (λ _, True) (λ _ _, True).
Proof.
  eapply meets_bind; [apply meets_RegisterAttempt|].
  intros [ref|status]; [|by apply (meets_ret _ _ _ _)].
  apply (meets_calm _ _ _ _). intros s _ H. split; [|done]. apply calm_enqueue. by apply H.
Qed.

Lemma decided_honest ref decision s :
  decided ref decision s → placed decision = false → dec_intent decision = None.
Proof.
  intros [_ Hd] Hp. destruct (dec_intent decision) as [intent|] eqn:E; [|done].
  pose proof (Hd _ E) as Hplace. rewrite Hplace in E, Hp.
  assert (placed (Place (opt_limits (co_options s)) (sl_request (slot_at ref s))) = true).
  { apply placed_intent. eauto. }
  congruence.
Qed.

Lemma meets_prepare_slot ref attempt :
  meets free (prepare_slot ref attempt) (allocated ref)
    (λ result _, ∀ prepared, result = Value prepared → honest_prepared prepared).
Proof.
  eapply meets_bind.
  { apply (meets_keep _ _ _). intros s _ _. apply calm_claim. }
  intros [status|]; [by apply (meets_ret _ _ _ _)|].
  eapply meets_bind; [apply meets_decide|]. intros decision. eapply meets_bind.
  { apply (meets_update _ _ _). intros s _ [_ Hd]. by apply calm_set_decision. }
  intros []. eapply meets_bind.
  { apply (meets_peek _ _ _ (λ slot s, slot_read ref slot s)). intros s Hc [Ha _].
    by apply slot_at_read. }
  intros slot. apply (meets_ret _ _ _ _). intros s [Hd _] prepared [= <-].
  unfold honest_prepared. cbn. by apply (decided_honest ref _ s).
Qed.

Lemma meets_Prepare request attempt :
  meets free (Prepare request attempt) (λ _, True)
    (λ result _, ∀ prepared, result = Value prepared → honest_prepared prepared).
Proof.
  eapply meets_bind; [apply meets_RegisterAttempt|].
  intros [ref|status]; [|by apply (meets_ret _ _ _ _)].
  eapply meets_pre; [|apply meets_prepare_slot]. intros s H. by apply H.
Qed.

Lemma meets_FindSlot held attempt :
  meets held (FindSlot attempt) (λ _, True) (λ found s, ∀ ref, found = Some ref → allocated ref s).
Proof.
  apply (meets_peek _ _ _ _). intros s Hc _ ref. by apply slots_allocated.
Qed.

Lemma meets_commit_prepared ref :
  meets free (commit_prepared ref) (allocated ref) (λ _, allocated ref).
Proof.
  eapply meets_bind; [apply meets_CommitSlot|]. intros status.
  destruct (status_ok status); [by apply (meets_ret _ _ _ _)|].
  destruct (StateForFailure_terminal (status_code status)). eapply meets_bind.
  { apply (meets_keep _ _ _). intros s _ Ha. by apply calm_finalize_once. }
  intros [|]; [by apply (meets_JournalTerminal _ _ _ _ _)|by apply (meets_ret _ _ _ _)].
Qed.

Lemma meets_commit_rejected ref decision : dec_intent decision = None →
  meets free (commit_rejected ref decision) (allocated ref) (λ _, allocated ref).
Proof.
  intros Hd. eapply meets_bind.
  { apply (meets_keep _ _ _). intros s _ Ha. by apply calm_reject_prepared. }
  intros [|]; [by apply (meets_JournalTerminal _ _ _ _ _)|by apply (meets_ret _ _ _ _)].
Qed.

Lemma meets_any_peek {R} held (f : CoordinatorState → R) P `{HP : !Stable held P} :
  meets held (peek f) P (λ _ _, True).
Proof. by apply (meets_peek _ _ _ _). Qed.

Lemma meets_Commit prepared : honest_prepared prepared →
  meets free (Commit prepared) (λ _, True) (λ _ _, True).
Proof.
  intros Hp. eapply meets_bind; [apply meets_FindSlot|].
  intros [ref|]; [|by apply (meets_ret _ _ _ _)]. cbv zeta.
  eapply meets_pre; [by intros s H; apply (H ref)|].
  destruct (placed (prep_decision prepared)) eqn:E; cbn [negb].
  - eapply meets_bind; [by apply (meets_peek _ _ _ (λ _, allocated ref))|].
    intros [result|]; [by apply (meets_ret _ _ _ _)|].
    eapply meets_bind; [apply meets_commit_prepared|]. intros []. apply (meets_any_peek _ _ _).
  - eapply meets_bind; [by apply meets_commit_rejected, Hp|]. intros []. apply (meets_any_peek _ _ _).
Qed.

Lemma meets_PlaceNow request attempt :
  meets free (PlaceNow request attempt) (λ _, True) (λ _ _, True).
Proof.
  eapply meets_bind; [apply meets_Prepare|].
  intros [prepared|status]; [|by apply (meets_ret _ _ _ _)].
  intros s Hc Hp. by apply meets_Commit; [apply Hp|..].
Qed.

(** ** Waiting, cancelling, changing the epoch *)

Lemma meets_Await attempt : meets free (Await attempt) (λ _, True) (λ _ _, True).
Proof.
  eapply meets_bind; [apply meets_FindSlot|].
  intros [ref|]; [|by apply (meets_ret _ _ _ _)].
  eapply meets_pre; [by intros s H; apply (H ref)|]. eapply meets_bind.
  { apply (meets_section _ _ _ _ (λ _ _, True)); [done|]. intros s Hc Ha _.
    split; [|done]. by apply calm_keeps, calm_await. }
  intros outcome. by apply (meets_ret _ _ _ _).
Qed.

Lemma meets_Cancel attempt : meets free (Cancel attempt) (λ _, True) (λ _ _, True).
Proof.
  eapply meets_bind.
  { apply (meets_calm _ _ _ (λ _ _, True)). intros s _ _. split; [apply calm_cancel|done]. }
  intros [status [ref|]];
    (apply (meets_bind _ _ _ _ (λ _ _, True)); [|by intros []; apply (meets_ret _ _ _ _)]).
  - by apply (meets_JournalTerminal _ _ _ _ _).
  - by apply (meets_ret _ _ _ _).
Qed.

Lemma meets_AdvanceEpoch : meets free AdvanceEpoch (λ _, True) (λ _ _, True).
Proof.
  apply (meets_guarded _ _ _ _ _); [done|done|]. apply (meets_locked _ _ _ _).
  intros s Hc _. split; [|done]. by apply advance_epoch_ok.
Qed.

Lemma meets_SetAuthority expected : u64_fits (exp_fabric_epoch expected) →
  meets free (SetAuthority expected) (λ _, True) (λ _ _, True).
Proof.
  intros Hf. apply (meets_guarded _ _ _ _ _); [done|done|]. apply (meets_locked _ _ _ _).
  intros s Hc _. split; [|done]. by apply set_authority_ok.
Qed.

(** ** Queries *)

Lemma meets_consult {A} (query : CoordinatorState → A) :
  meets free (consult query) (λ _, True) (λ _ _, True).
Proof.
  eapply meets_bind; [apply (meets_any_peek _ _ _)|]. intros [|]; [|apply (meets_any_peek _ _ _)].
  apply (meets_guarded _ _ _ _ _); [done|done|]. apply (meets_any_peek _ _ _).
Qed.

Lemma meets_Revalidate request : meets free (Revalidate request) (λ _, True) (λ _ _, True).
Proof.
  eapply meets_bind; [apply (meets_any_peek _ _ _)|]. intros limits. cbv zeta.
  destruct (negb _); [by apply (meets_ret _ _ _ _)|].
  eapply meets_bind; [apply meets_consult|]. intros previous. by apply (meets_ret _ _ _ _).
Qed.

(** ** Shutdown *)

Lemma meets_journal_cancelled attempts :
  meets free (journal_cancelled attempts) (λ _, True) (λ _ _, True).
Proof.
  induction attempts as [|attempt attempts IH]; cbn [journal_cancelled]; [by apply (meets_ret _ _ _ _)|].
  eapply meets_bind; [apply meets_FindSlot|]. intros [ref|].
  - eapply meets_pre; [by intros s H; apply (H ref)|].
    eapply meets_bind; [by apply (meets_JournalTerminal _ _ _ _ _)|]. intros [].
    eapply meets_pre; [|exact IH]. done.
  - eapply meets_bind; [by apply (meets_ret _ _ _ (λ _ _, True))|]. intros []. exact IH.
Qed.

Lemma meets_begin_shutdown cancel_active :
  meets free (locked (begin_shutdown cancel_active)) (λ _, True) (λ _ _, True).
Proof. apply (meets_calm _ _ _ (λ _ _, True)). intros s _ _. split; [apply calm_begin_shutdown|done]. Qed.

Lemma meets_finish_shutdown : meets free finish_shutdown (λ _, True) (λ _ _, True).
Proof.
  eapply meets_bind.
  { apply (meets_section _ _ _ _ (λ _ _, True)); [done|]. intros s Hc _ _. split; [|done].
    by apply calm_keeps. }
  intros []. eapply meets_bind.
  { apply (meets_update _ _ _). intros s _ _. apply calm_state. destruct (co_state s); cbn; lia. }
  intros []. eapply meets_bind; [apply (meets_any_peek _ _ _)|].
  intros [|]; [|by apply (meets_ret _ _ _ _)]. apply (meets_guarded _ _ _ _ _); [done|done|].
  apply (meets_calm _ _ _ _). intros s _ _. split; [|done].
  pose proof (calm_close s) as Hclose. unfold close_store.
  destruct (with_store Close s) as [result s']. done.
Qed.

Lemma meets_ShutdownInternal cancel_active :
  meets free (ShutdownInternal cancel_active) (λ _, True) (λ _ _, True).
Proof.
  eapply meets_bind; [apply meets_begin_shutdown|].
  intros [| |attempts]; [by apply (meets_ret _ _ _ _)|..].
  { apply (meets_section _ _ _ _ _); [done|]. intros s Hc _ _. split; [|done].
    by apply calm_keeps. }
  eapply meets_bind; [apply meets_journal_cancelled|]. intros []. apply meets_finish_shutdown.
Qed.

(** ** Calls *)

(** What callers keep to: an authority's epoch is a 64-bit value, and a decision
    handed to [Commit] that does not place has no intent, as the decisions of the
    engine. *)
Definition honest (call : Call) : Prop :=
  match call with
  | CallCommit prepared => honest_prepared prepared
  | CallSetAuthority expected => u64_fits (exp_fabric_epoch expected)
  | _ => True
  end.

Lemma meets_replies {A} (f : A → Reply) (t : Thread A) :
  meets free t (λ _, True) (λ _ _, True) →
  ∀ s, coherent s → wp free (replies f t) done_free s.
Proof.
  intros Ht s Hc. assert (meets free (replies f t) (λ _, True) (λ _ _, True)) as H.
  { eapply meets_bind; [exact Ht|]. intros a. by apply (meets_ret _ _ _ _). }
  eapply wp_mono; [|by apply H]. by intros a held s' _ [-> _].
Qed.

Lemma program_ok call s : honest call → wp free (program call) done_free s.
Proof.
  intros Hh. apply wp_now. intros s1 _ Hc. revert Hc.
  destruct call; cbn [program]; intros Hc; apply meets_replies; try done.
  - apply meets_Submit.
  - eapply meets_post; [|apply meets_Prepare]. done.
  - by apply meets_Commit.
  - apply meets_PlaceNow.
  - apply meets_Await.
  - apply meets_Cancel.
  - apply meets_AdvanceEpoch.
  - by apply meets_SetAuthority.
  - apply meets_Revalidate.
  - apply meets_consult.
  - apply meets_consult.
  - apply (meets_any_peek _ _ _).
  - apply (meets_section _ _ _ _ _); [done|]. intros st Hc' _ _. split; [|done]. by apply calm_keeps.
  - apply meets_ShutdownInternal.
Qed.

Lemma worker_ok s : wp free worker done_free s.
Proof.
  apply wp_now. intros s1 _ Hc. apply meets_replies; [|done]. apply meets_worker_round.
Qed.

Lemma restart_ok reply t s : restart reply = Some t → wp free t done_free s.
Proof. destruct reply as [| | | | | | |[]]; try done. intros [= <-]. apply worker_ok. Qed.

Lemma pass_ok now s : coherent s →
  coherent (pass now s) ∧ evolves false s (pass now s) ∧ section_move false s (pass now s).
Proof.
  intros Hc. unfold pass. case_bool_decide.
  - destruct (calm_clock now s Hc). split_and!; [done..|]. by left.
  - split_and!; [done|reflexivity|by left].
Qed.

(** ** Reachable coordinators *)

Lemma started_disciplined st : coherent st → disciplined (started st).
Proof.
  intros Hc. constructor; [done|done|]. intros i t [-> _]%lookup_replicate_1. apply worker_ok.
Qed.

Lemma reaches_disciplined st sys : coherent st → reaches honest st sys → disciplined sys.
Proof.
  intros Hc Hr. eapply reachable_disciplined; [..|exact Hr].
  - intros. by apply program_ok.
  - intros. by eapply restart_ok.
  - intros. by apply pass_ok.
  - by apply started_disciplined.
Qed.

Lemma reaches_coherent st sys : coherent st → reaches honest st sys → coherent (sys_state sys).
Proof. intros Hc Hr. by apply (reaches_disciplined st). Qed.

(** One step of a reachable coordinator. *)
Lemma reaches_step st sys e sys' : coherent st → reaches honest st sys →
  allowed_event honest e → exec program restart pass e sys = Some sys' →
  evolves true (sys_state sys) (sys_state sys') ∧
  (∃ h, section_move h (sys_state sys) (sys_state sys')).
Proof.
  intros Hc Hr He Hx. eapply disciplined_step in Hx as (_ & h & Hg & Hm); first last.
  - by apply (reaches_disciplined st).
  - exact He.
  - intros. by apply pass_ok.
  - intros. by eapply restart_ok.
  - intros. by apply program_ok.
  - split; [destruct h; [done|by apply evolves_any]|]. exists h.
    destruct Hm as [Hm| ->]; [done|by left].
Qed.

(** Any number of steps. *)
Lemma schedule_evolves st sys events sys' : coherent st → reaches honest st sys →
  Forall (allowed_event honest) events → schedule events sys = Some sys' →
  reaches honest st sys' ∧ evolves true (sys_state sys) (sys_state sys').
Proof.
  intros Hc Hr He Hx. split.
  - destruct Hr as (events0 & He0 & Hx0). exists (events0 ++ events).
    split; [by apply Forall_app|]. rewrite exec_all_app, Hx0. done.
  - refine (run_guar program restart pass honest _ _ _ events sys sys' He _ Hx).
    + intros. by apply program_ok.
    + intros. by eapply restart_ok.
    + intros. by apply pass_ok.
    + by apply (reaches_disciplined st).
Qed.
