(* ===== verification/RuntimeFacts.v ===== *)
(** * Facts about the coordinator's sections

    What the counters count, what a reaping drops, and what a shutdown leaves. *)

From Stdlib Require Import String.
From S2P Require Import Prelude StdAlgo Checked Status Hash Model ModelDigest Validate.
From S2P Require Import Explain Records Wire Store StoreOps StoreFacts RecoveryFacts.
From S2P Require Import Place PlaceCases.
From S2P Require Import Threads RuntimeState Runtime RuntimeInv RuntimeCalm RuntimeCommit.

(** ** Counters *)

Lemma ends_partition (l : list (option AttemptState)) :
  (∀ state, Some state ∈ l → terminal_state state = true) →
  let count state := size (filter (λ e, e = Some state) l) in
  size (filter (λ e, is_Some e) l) =
    count AttemptState.kCommitted + count AttemptState.kRejected + count AttemptState.kCancelled +
    count AttemptState.kFenced + count AttemptState.kFailed.
Proof.
  cbv zeta. induction l as [|e l IH]; intros Hl; [done|]. rewrite !filter_cons.
  assert (∀ state, Some state ∈ l → terminal_state state = true) as Hl' by (intros; apply Hl; by right).
  specialize (IH Hl'). destruct e as [state|].
  - assert (terminal_state state = true) as Hs by (apply Hl; left).
    rewrite (decide_True (P := is_Some (Some state))) by done.
    destruct state; try done; repeat (case_decide; try done); rewrite ?size_cons, IH; lia.
  - rewrite (decide_False (P := is_Some None)) by (by intros []).
    repeat (case_decide; try done).
Qed.

Lemma ended_any_sum st : coherent st →
  ended_any st = ended AttemptState.kCommitted st + ended AttemptState.kRejected st +
    ended AttemptState.kCancelled st + ended AttemptState.kFenced st + ended AttemptState.kFailed st.
Proof.
  intros Hc. apply ends_partition. intros state (slot & Hs & [ref E]%list_elem_of_lookup)%list_elem_of_fmap.
  unfold slot_end in Hs. destruct (sl_terminal slot) eqn:Et; [|done]. injection Hs as ->.
  by rewrite (so_state _ _ (ch_slot _ Hc _ _ E)).
Qed.

(** ** Retention *)

Definition live (st : CoordinatorState) (attempt : N) : Prop :=
  ∃ ref, co_slots st !! attempt = Some ref ∧ sl_terminal (slot_at ref st) = false.

(** What a reaping leaves: the slots themselves, every registered attempt that is not
    finished, and either a table within the bound or no finished attempt. *)
Record reaped (limit : N) (st st' : CoordinatorState) : Prop := {
  rp_heap : co_heap st' = co_heap st;
  rp_kept attempt ref : co_slots st !! attempt = Some ref →
    co_slots st' !! attempt = Some ref ∨
    co_slots st' !! attempt = None ∧ sl_terminal (slot_at ref st) = true;
  rp_subset : co_slots st' ⊆ co_slots st;
  rp_bound : N.of_nat (base.size (co_slots st')) <= limit ∨
    ∀ attempt, is_Some (co_slots st' !! attempt) → live st' attempt;
  rp_least : N.min limit (N.of_nat (base.size (co_slots st))) <=
    N.of_nat (base.size (co_slots st'));
}.

Lemma live_order st order attempt : live (co_with_slot_order order st) attempt ↔ live st attempt.
Proof. done. Qed.

Lemma reap_spec fuel : ∀ n limit scanned st front back,
  coherent st → co_slot_order st = front ++ back → size back = scanned →
  (∀ attempt, attempt ∈ back → live st attempt) →
  (length (co_slot_order st) ≤ n)%nat →
  (length (co_slot_order st) * (n + 1) + length front < fuel)%nat →
  reaped limit st (reap fuel limit scanned st).
Proof.
  induction fuel as [|fuel IH]; intros n limit scanned st front back Hc Ho Hs Hb Hn Hf; [lia|].
  assert (∀ a, is_Some (co_slots st !! a) → a ∈ co_slot_order st) as Hin by (by intros; apply ch_order).
  cbn [reap]. destruct (limit <? _) eqn:El; cbn [negb]; b2p.
  2: { constructor; try done; [by auto|by left|lia]. }
  destruct (co_slot_order st) as [|oldest rest] eqn:E.
  { constructor; try done; [by auto| |lia]. right. intros a Ha%Hin. by apply elem_of_nil in Ha. }
  destruct (scanned <? size (oldest :: rest)) eqn:Es; cbn [negb]; b2p.
  2: { constructor; try done; [by auto| |lia]. right. intros a Ha%Hin. apply Hb.
       destruct front as [|x front]; [by rewrite Ho in Ha|].
       rewrite Ho, <-Hs, size_app, size_cons in Es. lia. }
  destruct front as [|x front]; [rewrite Ho, <-Hs in Es; cbn in Es; lia|].
  cbn in Ho. injection Ho as <- ->.
  destruct (ch_order _ Hc oldest) as [Hex _].
  destruct Hex as [ref Er]; [rewrite E; left|]. rewrite Er.
  destruct (sl_terminal (slot_at ref st)) eqn:Et; cbn [negb].
  - (* a finished attempt is dropped *)
    set (st1 := co_with_slots (delete oldest (co_slots st)) (co_with_slot_order (front ++ back) st)).
    assert (coherent st1) as Hc1 by (by apply (calm_erase oldest (front ++ back))).
    pose proof (ch_order_NoDup _ Hc) as Hnd. rewrite E in Hnd. apply NoDup_cons in Hnd as [Hnin Hnd].
    assert (base.size (co_slots st1) = base.size (co_slots st) - 1)%nat as Hsize.
    { cbn. rewrite map_size_delete, Er. lia. }
    destruct (IH n limit 0 st1 (front ++ back) []) as [H1 H2 H3 H4 H5].
    + done.
    + cbn. by rewrite app_nil_r.
    + done.
    + by intros attempt ?%elem_of_nil.
    + cbn in *. lia.
    + cbn in *. rewrite length_app in *. nia.
    + constructor; [done|..|done|lia].
      * intros attempt r Hr. destruct (decide (attempt = oldest)) as [->|Hne].
        -- right. split; [|congruence]. destruct (co_slots (reap _ _ _ st1) !! oldest) eqn:Eo; [|done].
           eapply lookup_weaken in Eo; [|exact H3]. cbn in Eo. by rewrite lookup_delete_eq in Eo.
        -- apply H2. cbn. by rewrite lookup_delete_ne.
      * etrans; [exact H3|]. cbn. apply delete_subseteq.
  - (* an attempt in flight moves to the end of the order *)
    set (st1 := co_with_slot_order ((front ++ back) ++ [oldest]) st).
    assert (coherent st1) as Hc1 by (by apply (calm_rotate oldest (front ++ back))).
    destruct (IH n limit (scanned + 1) st1 front (back ++ [oldest])) as [H1 H2 H3 H4 H5].
    + done.
    + cbn. by rewrite app_assoc.
    + rewrite size_app, Hs. done.
    + intros attempt [Ha| ->%list_elem_of_singleton]%elem_of_app; [by apply Hb|]. by exists ref.
    + cbn in *. rewrite !length_app in *. cbn in *. lia.
    + cbn in *. rewrite !length_app in *. cbn in *. nia.
    + by constructor.
Qed.

Lemma ReapRetainedSlots_spec st : coherent st →
  reaped (opt_max_retained_attempts (co_options st)) st (ReapRetainedSlots st).
Proof.
  intros Hc. apply (reap_spec _ (length (co_slot_order st)) _ _ _ (co_slot_order st) []); try done.
  - by rewrite app_nil_r.
  - by intros attempt ?%elem_of_nil.
  - unfold reap_fuel. nia.
Qed.

(** ** Admission *)

Lemma admit_facts request attempt digest enforce st ref st' :
  coherent st → attempt ≠ 0 → rq_attempt request = attempt →
  digest = RequestDigest request (opt_limits (co_options st)) →
  admit_attempt request attempt digest enforce st = (Value ref, st') →
  is_running st = true ∧ exp_fabric_epoch (rq_expected request) = co_epoch st ∧
  co_slots st !! attempt = None ∧
  (enforce = true → co_queue_depth st < opt_queue_capacity (co_options st)) ∧
  let st1 := enter_slot request attempt digest (upd_stats count_submitted st) in
  coherent st1 ∧ ref = length (co_heap st) ∧ st' = ReapRetainedSlots st1.
Proof.
  intros Hc Ha Hr Hd. unfold admit_attempt. change (is_running (upd_stats count_submitted st)) with (is_running st).
  destruct (is_running st) eqn:Erun; cbn [negb]; [|done].
  change (co_epoch (upd_stats count_submitted st)) with (co_epoch st).
  destruct (exp_fabric_epoch (rq_expected request) =? co_epoch st) eqn:Ee; cbn [negb]; [|done].
  change (co_slots (upd_stats count_submitted st)) with (co_slots st).
  destruct (co_slots st !! attempt) as [existing|] eqn:Es; [by case_match|].
  destruct (enforce && _) eqn:Eq; [done|]. unfold add_slot. intros [= <- <-]. b2p.
  split_and!; [done|done|done| | |done|done].
  - intros ->. by destruct Eq.
  - apply calm_enter_slot; [done..|]. by apply calm_stats.
Qed.

(** ** Shutdown *)

(** A slot that a shutdown cancels. *)
Definition shut (slot : Slot) : Slot :=
  let slot := end_slot AttemptState.kCancelled StatusCode.kShuttingDown (sl_with_cancel true slot) in
  if sl_journalled_start slot then slot
  else sl_with_pending true AttemptPhase.kCancelled StatusCode.kShuttingDown slot.

(** A slot that was cancelled by a shutdown, for a reason. *)
Record was_shut (why : nat → Prop) (st : CoordinatorState) (acc : CoordinatorState * list N)
    (ref : nat) : Prop := {
  ws_why : why ref;
  ws_unfinished : sl_terminal (slot_at ref st) = false;
  ws_slot : slot_at ref (fst acc) = shut (slot_at ref st);
  ws_journal : sl_journalled_start (slot_at ref st) = true →
    sl_attempt (slot_at ref st) ∈ snd acc;
}.

(** What the loops of a shutdown have done so far to the slots of [st]. *)
Record shutting (why : nat → Prop) (st : CoordinatorState) (acc : CoordinatorState * list N)
    : Prop := {
  sh_slots : co_slots (fst acc) = co_slots st;
  sh_length : length (co_heap (fst acc)) = length (co_heap st);
  sh_slot ref : allocated ref st →
    slot_at ref (fst acc) = slot_at ref st ∨ was_shut why st acc ref;
}.

Lemma slot_at_upd_ne ref ref' f st : ref ≠ ref' → slot_at ref (upd_slot ref' f st) = slot_at ref st.
Proof.
  intros Hne. unfold slot_at, upd_slot. cbn. rewrite !nth_lookup.
  by rewrite list_lookup_alter_ne by done.
Qed.

Lemma slot_at_stats ref f st : slot_at ref (upd_stats f st) = slot_at ref st.
Proof. done. Qed.

Lemma FinalizeShutdownSlot_spec ref st journal :
  allocated ref st → sl_terminal (slot_at ref st) = false →
  let acc := FinalizeShutdownSlot ref (st, journal) in
  co_slots (fst acc) = co_slots st ∧ length (co_heap (fst acc)) = length (co_heap st) ∧
  slot_at ref (fst acc) = shut (slot_at ref st) ∧
  (∀ ref', ref' ≠ ref → slot_at ref' (fst acc) = slot_at ref' st) ∧
  snd acc = if sl_journalled_start (slot_at ref st)
            then journal ++ [sl_attempt (slot_at ref st)] else journal.
Proof.
  intros Ha Ht. cbv zeta. unfold FinalizeShutdownSlot. rewrite FinalizeLocked_unfold.
  rewrite (slot_at_upd ref _ st Ha).
  change (sl_terminal (sl_with_cancel true (slot_at ref st))) with (sl_terminal (slot_at ref st)).
  rewrite Ht, slot_at_stats.
  assert (allocated ref (upd_slot ref (sl_with_cancel true) st)) as Ha1 by (by apply allocated_upd).
  rewrite (slot_at_upd ref _ _ Ha1), (slot_at_upd ref _ st Ha).
  change (sl_journalled_start (end_slot _ _ (sl_with_cancel true (slot_at ref st))))
    with (sl_journalled_start (slot_at ref st)).
  unfold shut.
  change (sl_journalled_start (end_slot _ _ (sl_with_cancel true (slot_at ref st))))
    with (sl_journalled_start (slot_at ref st)).
  assert (allocated ref (upd_slot ref (end_slot AttemptState.kCancelled StatusCode.kShuttingDown)
            (upd_slot ref (sl_with_cancel true) st))) as Ha2 by (by apply allocated_upd).
  destruct (sl_journalled_start (slot_at ref st)); cbn [fst snd]; split_and!; try done.
  - cbn. by rewrite !length_alter.
  - by rewrite slot_at_stats, (slot_at_upd ref _ _ Ha1), (slot_at_upd ref _ st Ha).
  - intros r Hr. by rewrite slot_at_stats, !slot_at_upd_ne.
  - cbn. by rewrite !length_alter.
  - rewrite slot_at_upd by (by apply Ha2).
    by rewrite slot_at_stats, (slot_at_upd ref _ _ Ha1), (slot_at_upd ref _ st Ha).
  - intros r Hr. by rewrite slot_at_upd_ne, slot_at_stats, !slot_at_upd_ne.
Qed.

Lemma shut_terminal slot : sl_terminal (shut slot) = true.
Proof. unfold shut. by destruct (sl_journalled_start _). Qed.

Lemma shutting_init why st st' : co_slots st' = co_slots st → co_heap st' = co_heap st →
  shutting why st (st', []).
Proof. intros E1 E2. constructor; cbn; [done|by rewrite E2|]. intros ref _. left. unfold slot_at. by rewrite E2. Qed.

Lemma shutting_same why st st1 st2 journal :
  co_slots st2 = co_slots st1 → co_heap st2 = co_heap st1 →
  shutting why st (st1, journal) → shutting why st (st2, journal).
Proof.
  intros E1 E2 [H1 H2 H3]. constructor; cbn in *; [by rewrite E1|by rewrite E2|].
  intros ref Ha. assert (slot_at ref st2 = slot_at ref st1) as E by (unfold slot_at; by rewrite E2).
  destruct (H3 ref Ha) as [H|[]]; [left; cbn; by rewrite E|right]. constructor; try done. cbn. by rewrite E.
Qed.

Lemma shutting_unfinished why st acc ref : shutting why st acc → allocated ref st →
  sl_terminal (slot_at ref (fst acc)) = false → slot_at ref (fst acc) = slot_at ref st.
Proof.
  intros Hs Ha Ht. destruct (sh_slot _ _ _ Hs ref Ha) as [?|[_ _ E _]]; [done|].
  rewrite E, shut_terminal in Ht. done.
Qed.

Lemma shutting_step why st acc ref :
  shutting why st acc → allocated ref st → sl_terminal (slot_at ref (fst acc)) = false →
  why ref → shutting why st (FinalizeShutdownSlot ref acc).
Proof.
  intros Hs Ha Ht Hw. pose proof (shutting_unfinished _ _ _ _ Hs Ha Ht) as E.
  destruct acc as [s journal]. cbn [fst] in *. destruct Hs as [H1 H2 H3]. cbn [fst snd] in *.
  assert (allocated ref s) as Ha' by (unfold allocated in *; congruence).
  destruct (FinalizeShutdownSlot_spec ref s journal Ha' Ht) as (E1 & E2 & E3 & E4 & E5).
  constructor; [congruence|congruence|]. intros r Hr. destruct (decide (r = ref)) as [->|Hne].
  - right. constructor; [done|congruence|congruence|]. intros Hj. rewrite E5, E, Hj.
    apply elem_of_app. right. left.
  - rewrite (E4 r Hne). destruct (H3 r Hr) as [|[]]; [by left|right]. constructor; [done..| |].
    + by rewrite (E4 r Hne).
    + intros Hj. rewrite E5. case_match; [apply elem_of_app; left|]; auto.
Qed.

Lemma shutting_queued why st queue : ∀ acc, coherent st → shutting why st acc →
  (∀ attempt ref, attempt ∈ queue → co_slots st !! attempt = Some ref → why ref) →
  shutting why st (foldl cancel_queued acc queue).
Proof.
  induction queue as [|attempt queue IH]; intros acc Hc Hs Hw; [done|]. cbn [foldl]. apply IH.
  - done.
  - unfold cancel_queued. rewrite (sh_slots _ _ _ Hs).
    destruct (co_slots st !! attempt) as [ref|] eqn:E; [|done].
    destruct (sl_terminal _) eqn:Et; [done|]. apply shutting_step; [done| |done|].
    + by eapply slots_allocated.
    + eapply (Hw attempt); [left|done].
  - intros a ref Ha. apply Hw. by right.
Qed.

(** A slot the second loop of a shutdown leaves alone. *)
Definition settled (cancel_active : bool) (slot : Slot) : bool :=
  sl_terminal slot || sl_in_worker slot || sl_commit_boundary_crossed slot ||
  (sl_running slot && negb cancel_active).

Lemma cancel_registered_settled cancel_active acc entry :
  cancel_registered cancel_active acc entry =
  if settled cancel_active (slot_at (snd entry) (fst acc)) then acc
  else FinalizeShutdownSlot (snd entry) acc.
Proof.
  unfold cancel_registered, settled. destruct (sl_terminal _ || _ || _); [done|].
  by destruct (sl_running _), cancel_active.
Qed.

Lemma shutting_registered why cancel_active st entries : ∀ acc,
  shutting why st acc →
  (∀ entry, entry ∈ entries → allocated (snd entry) st) →
  (∀ ref, settled cancel_active (slot_at ref st) = false → why ref) →
  let acc' := foldl (cancel_registered cancel_active) acc entries in
  shutting why st acc' ∧
  (∀ ref, allocated ref st → settled cancel_active (slot_at ref (fst acc)) = true →
     settled cancel_active (slot_at ref (fst acc')) = true) ∧
  ∀ entry, entry ∈ entries → settled cancel_active (slot_at (snd entry) (fst acc')) = true.
Proof.
  cbv zeta. induction entries as [|entry entries IH]; intros acc Hs Ha Hw.
  { split_and!; [done|done|]. by intros e ?%elem_of_nil. }
  cbn [foldl]. rewrite cancel_registered_settled.
  assert (allocated (snd entry) st) as Hal by (apply Ha; left).
  assert (∀ e, e ∈ entries → allocated (snd e) st) as Ha' by (intros; apply Ha; by right).
  destruct (settled cancel_active (slot_at (snd entry) (fst acc))) eqn:Es.
  - destruct (IH acc Hs Ha' Hw) as (H1 & H2 & H3). split_and!; [done|done|].
    intros e [->|He]%elem_of_cons; auto.
  - assert (sl_terminal (slot_at (snd entry) (fst acc)) = false) as Ht.
    { unfold settled in Es. by destruct (sl_terminal _). }
    pose proof (shutting_unfinished _ _ _ _ Hs Hal Ht) as E. rewrite E in Es.
    assert (shutting why st (FinalizeShutdownSlot (snd entry) acc)) as Hs'.
    { apply shutting_step; auto. }
    assert (allocated (snd entry) (fst acc)) as Hal'.
    { unfold allocated in *. by rewrite (sh_length _ _ _ Hs). }
    destruct (FinalizeShutdownSlot_spec (snd entry) (fst acc) (snd acc) Hal' Ht)
      as (_ & _ & E3 & E4 & _). destruct acc as [s journal]. cbn [fst snd] in *.
    assert (∀ slot, settled cancel_active (shut slot) = true) as Hshut.
    { intros slot. unfold settled. by rewrite shut_terminal. }
    destruct (IH _ Hs' Ha' Hw) as (H1 & H2 & H3). split_and!; [done|..].
    + intros ref Hr He. apply H2; [done|]. destruct (decide (ref = snd entry)) as [->|Hne].
      * by rewrite E3.
      * by rewrite E4.
    + intros e [->|He]%elem_of_cons; [|by auto]. apply H2; [done|]. by rewrite E3.
Qed.

(** What the loops do not touch. *)
Lemma FinalizeShutdownSlot_parts ref acc :
  let st' := fst (FinalizeShutdownSlot ref acc) in
  co_state st' = co_state (fst acc) ∧ co_queue st' = co_queue (fst acc) ∧
  co_queue_depth st' = co_queue_depth (fst acc).
Proof.
  cbv zeta. destruct acc as [st journal]. unfold FinalizeShutdownSlot, FinalizeLocked.
  by repeat case_match.
Qed.

Lemma cancel_registered_parts cancel_active entries : ∀ acc,
  let st' := fst (foldl (cancel_registered cancel_active) acc entries) in
  co_state st' = co_state (fst acc) ∧ co_queue st' = co_queue (fst acc) ∧
  co_queue_depth st' = co_queue_depth (fst acc).
Proof.
  cbv zeta. induction entries as [|entry entries IH]; intros acc; cbn [foldl]; [done|].
  destruct (IH (cancel_registered cancel_active acc entry)) as (-> & -> & ->).
  rewrite cancel_registered_settled. case_match; [done|]. apply FinalizeShutdownSlot_parts.
Qed.

Lemma cancel_queued_state queue : ∀ acc,
  co_state (fst (foldl cancel_queued acc queue)) = co_state (fst acc).
Proof.
  induction queue as [|attempt queue IH]; intros acc; cbn [foldl]; [done|]. rewrite IH.
  unfold cancel_queued. repeat case_match; try done. apply FinalizeShutdownSlot_parts.
Qed.

(** What the first block of a shutdown does. *)
Lemma begin_shutdown_spec cancel_active st : coherent st → is_running st = true →
  ∃ journal st', begin_shutdown cancel_active st = (StopsHere journal, st') ∧
    co_state st' = RunState.kShuttingDown ∧ co_queue st' = [] ∧ co_queue_depth st' = 0 ∧
    co_slots st' = co_slots st ∧
    (∀ attempt ref, co_slots st !! attempt = Some ref →
       settled cancel_active (slot_at ref st') = true) ∧
    ∀ ref, allocated ref st → slot_at ref st' = slot_at ref st ∨
      was_shut (λ ref, (∃ attempt, attempt ∈ co_queue st ∧ co_slots st !! attempt = Some ref) ∨
                       settled cancel_active (slot_at ref st) = false) st (st', journal) ref.
Proof.
  intros Hc Hr. unfold begin_shutdown.
  assert (co_state st = RunState.kRunning) as -> by (by apply bool_decide_eq_true in Hr).
  set (why := λ ref, _ ∨ settled _ (slot_at ref st) = false).
  set (st1 := co_with_state RunState.kShuttingDown st).
  assert (shutting why st (foldl cancel_queued (st1, []) (co_queue st))) as H1.
  { apply shutting_queued; [done|by apply shutting_init|]. intros a ref Ha E. left. by exists a. }
  change (co_queue st1) with (co_queue st).
  destruct (foldl cancel_queued (st1, []) (co_queue st)) as [st2 journal2] eqn:E2.
  apply (shutting_same _ _ _ (co_with_queue [] 0 st2)) in H1; [|done..].
  set (st3 := co_with_queue [] 0 st2) in *.
  assert (co_slots st3 = co_slots st) as Es by apply H1.
  destruct (shutting_registered why cancel_active st (ordered_entries (co_slots st3)) (st3, journal2) H1)
    as (H2 & _ & H3).
  { intros [a ref] He. rewrite Es in He. apply ordered_entries_elem in He.
    by eapply slots_allocated. }
  { intros ref E. by right. }

  destruct (cancel_registered_parts cancel_active (ordered_entries (co_slots st3)) (st3, journal2))
    as (P1 & P2 & P3).
  pose proof (cancel_queued_state (co_queue st) (st1, [])) as P0. rewrite E2 in P0.
  destruct (foldl (cancel_registered _) _ _) as [st4 journal4]. exists journal4, st4.
  cbn [fst] in *. destruct H2 as [H21 H22 H23]. split_and!; [done|by rewrite P1|done|done|done| |done].
  intros attempt ref E. apply (H3 (attempt, ref)). rewrite Es. by apply ordered_entries_elem.
Qed.
