(* ===== verification/RuntimeAlone.v ===== *)
(** * A placement without interference

    What [PlaceNow] answers where no other thread runs: the registration, the
    decision and the commit in a row, with a store and without. *)

From Stdlib Require Import String.
From S2P Require Import Prelude StdAlgo Checked Status Hash Model ModelDigest Validate.
From S2P Require Import Explain Records Wire Store StoreOps StoreFacts Place PlaceCases.
From S2P Require Import Threads RuntimeState Runtime RuntimeInv RuntimeCalm RuntimeCommit.
From S2P Require Import RuntimeThreads RuntimeFacts.

(** ** Parts of the state *)

(** What a placement does not change. *)
Definition setting (st : CoordinatorState) :=
  (co_options st, co_authority st, co_epoch st, co_incarnation st, co_state st, co_clock st).

Definition memory (st : CoordinatorState) := (co_next_placement_id st, co_latest_in_memory st).

Lemma reap_frame fuel : ∀ limit scanned st,
  let st' := reap fuel limit scanned st in
  setting st' = setting st ∧ memory st' = memory st ∧ co_store st' = co_store st ∧
  co_heap st' = co_heap st.
Proof.
  cbv zeta. induction fuel as [|fuel IH]; intros limit scanned st; cbn [reap]; [done|].
  repeat (case_match; try done).
  - destruct (IH limit (scanned + 1) (co_with_slot_order (l ++ [n]) st)) as (-> & -> & -> & ->). done.
  - destruct (IH limit 0 (co_with_slots (delete n (co_slots st)) (co_with_slot_order l st)))
      as (-> & -> & -> & ->). done.
  - destruct (IH limit (scanned + 1) (co_with_slot_order l st)) as (-> & -> & -> & ->). done.
Qed.

(** The state of a thread that places: its slot, and what it has not touched. *)
Record placing (st0 : CoordinatorState) (attempt : N) (ref : nat) (slot : Slot)
    (s : CoordinatorState) : Prop := {
  pg_setting : setting s = setting st0;
  pg_slots : co_slots s !! attempt = Some ref;
  pg_allocated : allocated ref s;
  pg_slot : slot_at ref s = slot;
}.

Lemma placing_upd st0 attempt ref slot s f :
  placing st0 attempt ref slot s → placing st0 attempt ref (f slot) (upd_slot ref f s).
Proof.
  intros [H1 H2 H3 H4]. constructor; [done|done|by apply allocated_upd|].
  by rewrite slot_at_upd, H4.
Qed.

Lemma placing_stats st0 attempt ref slot s f :
  placing st0 attempt ref slot s → placing st0 attempt ref slot (upd_stats f s).
Proof. by intros []. Qed.

Lemma placing_store st0 attempt ref slot s w :
  placing st0 attempt ref slot s → placing st0 attempt ref slot (co_with_store w s).
Proof. by intros []. Qed.

Lemma placing_memory st0 attempt ref slot s next latest :
  placing st0 attempt ref slot s → placing st0 attempt ref slot (co_with_memory next latest s).
Proof. by intros []. Qed.

Lemma placing_finalize st0 attempt ref slot s state code :
  sl_terminal slot = false → placing st0 attempt ref slot s →
  placing st0 attempt ref (end_slot state code slot) (FinalizeLocked ref state code s).
Proof.
  intros Ht Hp. rewrite FinalizeLocked_unfold, (pg_slot _ _ _ _ _ Hp), Ht.
  by apply placing_stats, (placing_upd _ _ _ _ _ (end_slot state code)).
Qed.

Lemma placing_with_store {A} (op : Io A) st0 attempt ref slot s :
  placing st0 attempt ref slot s → placing st0 attempt ref slot (snd (with_store op s)).
Proof.
  intros Hp. unfold with_store. destruct (co_store s) as [w|]; [|done].
  destruct (op w). by apply placing_store.
Qed.

Lemma placing_journal st0 attempt ref slot s phase code :
  placing st0 attempt ref slot s → placing st0 attempt ref slot (journal_phase ref phase code s).
Proof. intros Hp. unfold journal_phase. destruct phase; by apply placing_with_store. Qed.

(** ** Statuses *)

(** An error of the store is not the success code. *)
Definition never_ok {A} (m : Io A) : Prop := ∀ w status w',
  m w = (Error status, w') → status_ok status = false.

Lemma never_ok_fail {A} status : status_ok status = false → never_ok (io_fail status : Io A).
Proof. by intros H w s w' [= <- _]. Qed.

Lemma never_ok_bind {A B} (m : Io A) (k : A → Io B) :
  never_ok m → (∀ a, never_ok (k a)) → never_ok (m ≫= k).
Proof.
  intros Hm Hk w status w' H. apply bind_cases in H as [(s & H & [= ->])|(a & w1 & _ & H)].
  - by eapply Hm.
  - by eapply Hk.
Qed.

Lemma never_ok_value {A} (m : Io A) : (∀ w, ∃ a w', m w = (Value a, w')) → never_ok m.
Proof. intros H w status w' E. destruct (H w) as (a & w1 & E'). congruence. Qed.

Create HintDb never_ok.
#[export] Hint Extern 1 (never_ok (io_fail _)) => by apply never_ok_fail : never_ok.
#[export] Hint Extern 1 (never_ok (mret _)) => by apply never_ok_value; eauto : never_ok.
#[export] Hint Extern 1 (never_ok get_store) => by apply never_ok_value; eauto : never_ok.
#[export] Hint Extern 1 (never_ok (on_store _)) => by apply never_ok_value; eauto : never_ok.
#[export] Hint Extern 1 (never_ok (on_disk _)) => by apply never_ok_value; eauto : never_ok.

Lemma never_ok_next : never_ok next_outcome.
Proof. apply never_ok_value. intros w. unfold next_outcome. destruct (w_io w); eauto. Qed.

Lemma never_ok_status {A} (m : Io A) : never_ok (io_status m).
Proof. apply never_ok_value. intros w. unfold io_status. destruct (m w); eauto. Qed.
#[export] Hint Resolve never_ok_next never_ok_status : never_ok.

Ltac failing := cbv beta zeta; repeat first
  [ solve [eauto with never_ok]
  | apply never_ok_bind; [|intros ?]
  | case_match ].

Lemma never_ok_append type payload : never_ok (AppendRecordRaw type payload).
Proof. unfold AppendRecordRaw, refuse_if, fwrite_journal, SyncFile, file_call. failing. Qed.
#[export] Hint Resolve never_ok_append : never_ok.

(** A status that is turned into a value and given back. *)
Lemma never_ok_relay {A B} (m : Io A) (k : Result A → Io B) :
  never_ok m → (∀ r, (∀ status, r = Error status → status_ok status = false) → never_ok (k r)) →
  never_ok (io_status m ≫= k).
Proof.
  intros Hm Hk w status w' H. apply bind_cases in H as [(s & H & _)|(r & w1 & H & H2)].
  - unfold io_status in H. by destruct (m w).
  - unfold io_status in H. destruct (m w) as [r0 w0] eqn:E. injection H as <- <-.
    eapply (Hk r0); [|exact H2]. intros s ->. by eapply Hm.
Qed.

Lemma never_ok_compact_body : never_ok compact_body.
Proof.
  unfold compact_body, write_snapshot, reset_journal, write_marker, ReplaceFileAtomically, SyncFile,
    file_call.
  failing.
Qed.

Lemma never_ok_compact : never_ok Compact.
Proof.
  unfold Compact, refuse_if.
  do 5 (apply never_ok_bind; [solve [failing]|intros ?]).
  apply never_ok_relay; [apply never_ok_compact_body|]. intros r Hr.
  apply never_ok_bind; [solve [failing]|intros ?]. destruct r; [solve [failing]|].
  by apply never_ok_fail, Hr.
Qed.
#[export] Hint Resolve never_ok_compact : never_ok.

Lemma never_ok_maybe_compact : never_ok MaybeCompact.
Proof. unfold MaybeCompact. failing. Qed.
#[export] Hint Resolve never_ok_maybe_compact : never_ok.

Lemma never_ok_commit intent delta digest by_incarnation epoch now :
  never_ok (CommitPlacement intent delta digest by_incarnation epoch now).
Proof.
  unfold CommitPlacement, refuse_if.
  do 4 (apply never_ok_bind; [solve [failing]|intros ?]).
  destruct (committed_before _ _) as [[]|] eqn:E; [solve [failing]|..].
  - apply committed_before_error in E as ->. by apply never_ok_fail.
  - apply never_ok_bind; [solve [failing]|intros ?].
    destruct (next_placement _ _ _ _ _ _ _) eqn:E'; [solve [failing]|].
    apply never_ok_fail. revert E'. unfold next_placement.
    repeat case_match; try done; by intros [= <-].
Qed.

(** ** Threads *)

Lemma alone_JournalTerminal ref phase code s :
  alone (JournalTerminal ref phase code) s =
  Some (tt, if has_store s then journal_phase ref phase code s else s).
Proof.
  unfold JournalTerminal. rewrite alone_bind, alone_peek. cbn [mbind option_bind].
  destruct (has_store s); cbn [negb]; [|done]. by rewrite alone_guarded.
Qed.

Lemma alone_CommitRecord intent delta digest epoch s :
  alone (CommitRecord intent delta digest epoch) s =
  Some (if has_store s then commit_in_store intent delta digest epoch s
        else commit_in_memory intent delta digest epoch s).
Proof.
  unfold CommitRecord. rewrite alone_bind, alone_peek. cbn [mbind option_bind].
  destruct (has_store s); [by rewrite alone_guarded, alone_locked|by rewrite alone_locked].
Qed.

Section Place.
Context (st : CoordinatorState) (request : PlacementRequest) (attempt : N).
Let limits := opt_limits (co_options st).
Let request' := rq_with_attempt attempt request.
Let digest := RequestDigest request' limits.
Let decision := Place limits request'.

Context (Hc : coherent st).
Context (Hcheck : status_ok (check_submission request attempt limits) = true).
Context (Hrun : is_running st = true).
Context (Hepoch : exp_fabric_epoch (rq_expected request) = co_epoch st).
Context (Hfresh : co_slots st !! attempt = None).

Definition start_record : AttemptRecord :=
  mkAttempt attempt (co_incarnation st) (co_epoch st) (rq_flow request) AttemptPhase.kStarted
    StatusCode.kOk digest 0 (co_clock st).

(** The admission. *)
Lemma admit_alone : ∃ ref s,
  admit_attempt request' attempt digest false st = (Value ref, s) ∧
  placing st attempt ref (Slot_admitted attempt request' digest) s ∧
  co_store s = co_store st ∧ memory s = memory st.
Proof.
  unfold admit_attempt. change (is_running (upd_stats count_submitted st)) with (is_running st).
  rewrite Hrun. cbn [negb].
  change (exp_fabric_epoch (rq_expected request')) with (exp_fabric_epoch (rq_expected request)).
  change (co_epoch (upd_stats count_submitted st)) with (co_epoch st).
  change (co_slots (upd_stats count_submitted st)) with (co_slots st).
  rewrite Hepoch, N.eqb_refl, Hfresh. cbn [negb andb].
  set (st1 := upd_stats count_submitted st).
  assert (coherent st1) as Hc1 by (by apply calm_stats).
  apply check_submission_valid in Hcheck as Ha.
  destruct (calm_add_slot request' attempt digest st1) as [_ Hal]; [done..|].
  specialize (Hal Hc1). unfold add_slot in *. cbn [fst snd] in *.
  set (st2 := enter_slot request' attempt digest st1) in *.
  set (ref := length (co_heap st1)) in *. exists ref, (ReapRetainedSlots st2). split; [done|].
  destruct (reap_frame (reap_fuel st2) (opt_max_retained_attempts (co_options st2)) 0 st2)
    as (Hset & Hmem & Hst & Hheap). fold (ReapRetainedSlots st2) in *.
  assert (slot_at ref st2 = Slot_admitted attempt request' digest) as Hslot.
  { apply (lookup_slot_at ref). cbn. subst ref. by rewrite lookup_app_r, Nat.sub_diag. }
  assert (coherent st2) as Hc2.
  { by apply calm_enter_slot. }
  split_and!; [|done..]. constructor; [done| |done|].
  - destruct (rp_kept _ _ _ (ReapRetainedSlots_spec st2 Hc2) attempt ref) as [H|[_ H]].
    + cbn. by rewrite lookup_insert_eq.
    + done.
    + by rewrite Hslot in H.
  - unfold slot_at in *. by rewrite Hheap.
Qed.

(** The start record's effect on the store. *)
Definition start_store (store : option World) : Result (option World) :=
  match store with
  | None => Value None
  | Some w =>
      match AppendAttemptStart start_record w with
      | (Value _, w') => Value (Some w')
      | (Error status, _) => Error status
      end
  end.

(** The slot once its start is on record. *)
Definition start_slot : Slot :=
  let slot := Slot_admitted attempt request' digest in
  if has_store st then sl_with_start true false slot else slot.

Lemma register_alone :
  match start_store (co_store st) with
  | Error status => ∃ s, alone (RegisterAttempt request attempt false) st = Some (Error status, s)
  | Value store => ∃ ref s,
      alone (RegisterAttempt request attempt false) st = Some (Value ref, s) ∧
      placing st attempt ref start_slot s ∧ co_store s = store ∧ memory s = memory st
  end.
Proof.
  destruct admit_alone as (ref & s & Ha & Hp & Hs & Hm).
  unfold RegisterAttempt. rewrite alone_bind, alone_peek. cbn [mbind option_bind].
  fold limits. rewrite Hcheck. cbn [negb]. rewrite alone_bind, alone_locked. cbn [mbind option_bind].
  change (admit_attempt _ _ _ _ _) with (admit_attempt request' attempt digest false st).
  rewrite Ha. unfold journal_registered. rewrite alone_bind, alone_peek. cbn [mbind option_bind].
  unfold start_slot, start_store. unfold has_store in *. rewrite Hs.
  destruct (co_store st) as [w|] eqn:Ew.
  2: { rewrite bool_decide_false by (by intros []). cbn [negb]. exists ref, s. by rewrite alone_ret. }
  rewrite bool_decide_true by done. cbn [negb]. unfold start_durably.
  rewrite alone_bind, alone_guarded, alone_bind, alone_locked. cbn [mbind option_bind].
  unfold journal_start, with_store. rewrite Hs.
  assert (attempt_record ref AttemptPhase.kStarted StatusCode.kOk s = start_record) as ->.
  { destruct Hp as [Hset _ _ Hslot]. unfold attempt_record. rewrite Hslot. cbn.
    injection Hset as _ _ _ -> _ ->. unfold start_record. by rewrite Hepoch. }
  destruct (AppendAttemptStart start_record w) as [[u|status] w1].
  - rewrite alone_ret. cbn [mbind option_bind]. rewrite alone_bind, alone_locked.
    cbn [mbind option_bind]. apply (placing_store _ _ _ _ _ (Some w1)) in Hp.
    unfold note_started. rewrite (pg_slot _ _ _ _ _ Hp). cbn [sl_pending_terminal Slot_admitted].
    rewrite alone_bind, alone_ret. cbn [mbind option_bind]. rewrite alone_ret.
    exists ref. eexists. split; [done|]. split; [|done].
    by apply (placing_upd _ _ _ _ _ (sl_with_start true false)).
  - rewrite alone_bind, alone_update. cbn [mbind option_bind]. rewrite alone_ret.
    cbn [mbind option_bind]. rewrite alone_ret. by eexists.
Qed.

(** The slot once it has been claimed and decided. *)
Definition decided_slot : Slot :=
  let slot := sl_with_run true (ao_with_state AttemptState.kRunning (sl_outcome start_slot))
                start_slot in
  sl_with_outcome (ao_with_decision decision (sl_outcome slot)) slot.

Lemma start_slot_terminal : sl_terminal start_slot = false.
Proof. unfold start_slot. by destruct (has_store st). Qed.

Lemma start_slot_request : sl_request start_slot = request'.
Proof. unfold start_slot. by destruct (has_store st). Qed.

Lemma prepare_slot_alone ref s : placing st attempt ref start_slot s → ∃ s',
  alone (prepare_slot ref attempt) s = Some (Value (mkPrepared attempt request' decision), s') ∧
  placing st attempt ref decided_slot s' ∧ co_store s' = co_store s ∧ memory s' = memory s.
Proof.
  intros Hp. unfold prepare_slot. rewrite alone_bind, alone_locked. cbn [mbind option_bind].
  unfold claim. rewrite (pg_slot _ _ _ _ _ Hp), start_slot_terminal.
  set (f := λ slot, sl_with_run true (ao_with_state AttemptState.kRunning (sl_outcome slot)) slot).
  pose proof (placing_upd _ _ _ _ _ f Hp) as Hp1.
  rewrite alone_bind, alone_peek. cbn [mbind option_bind].
  assert (decide_slot ref (upd_slot ref f s) = decision) as ->.
  { unfold decide_slot. rewrite (pg_slot _ _ _ _ _ Hp1), ComputeDecision_Place.
    change (co_options (upd_slot ref f s)) with (co_options s).
    destruct Hp as [Hset _ _ _]. injection Hset as -> _ _ _ _ _. subst f. cbn.
    by rewrite start_slot_request. }
  rewrite alone_bind, alone_update. cbn [mbind option_bind].
  pose proof (placing_upd _ _ _ _ _
    (λ slot, sl_with_outcome (ao_with_decision decision (sl_outcome slot)) slot) Hp1) as Hp2.
  fold (set_decision ref decision (upd_slot ref f s)) in Hp2.
  rewrite alone_bind, alone_peek. cbn [mbind option_bind]. rewrite alone_ret.
  rewrite (pg_slot _ _ _ _ _ Hp2). eexists. split; [|done]. do 4 f_equal. by rewrite <-start_slot_request.
Qed.

(** The placement that is committed, given the store after the start record. *)
Definition commit_result (store : option World) (intent : PlacementIntent)
    : Result PlacementRecord :=
  match store with
  | Some w => fst (CommitPlacement intent (dec_delta decision) (dec_digest decision)
                     (co_incarnation st) (co_epoch st) (co_clock st) w)
  | None => fst (commit_in_memory intent (dec_delta decision) (dec_digest decision) (co_epoch st) st)
  end.

(** How the attempt ends. *)
Definition ends_as (state : AttemptState) (code : StatusCode) (placement : N * N)
    : AttemptOutcome :=
  mkOutcome attempt state code decision (fst placement) (snd placement).

Definition expected_outcome (store : option World) : AttemptOutcome :=
  match dec_intent decision with
  | None => ends_as AttemptState.kRejected (dec_code decision) (0, 0)
  | Some intent =>
      if AuthorityMatches (co_authority st) (rq_expected request) then
        match commit_result store intent with
        | Value r => ends_as AttemptState.kCommitted StatusCode.kOk (pl_id r, pl_generation r)
        | Error status =>
            ends_as (StateForFailure (status_code status)) (status_code status) (0, 0)
        end
      else ends_as AttemptState.kFenced StatusCode.kStaleAuthorityGeneration (0, 0)
  end.

(** The slot of an attempt that ended with an outcome. *)
Definition ended_with (outcome : AttemptOutcome) (ref : nat) (s : CoordinatorState) : Prop :=
  co_slots s !! attempt = Some ref ∧ sl_terminal (slot_at ref s) = true ∧
  sl_outcome (slot_at ref s) = outcome.

Lemma decided_slot_outcome :
  sl_outcome decided_slot = mkOutcome attempt AttemptState.kRunning StatusCode.kOk decision 0 0.
Proof. unfold decided_slot, start_slot. by destruct (has_store st). Qed.

Lemma decided_slot_flags :
  sl_terminal decided_slot = false ∧ sl_cancel_requested decided_slot = false ∧
  sl_request decided_slot = request'.
Proof. unfold decided_slot, start_slot. by destruct (has_store st). Qed.

(** The slot may end now. *)
Lemma end_alone ref slot phase state code s :
  placing st attempt ref slot s → sl_terminal slot = false →
  ∃ s', alone (finalized ← locked (finalize_once ref state code);
               if (finalized : bool) then JournalTerminal ref phase code else mret tt) s =
          Some (tt, s') ∧
    ended_with (ao_with_end state code (sl_outcome slot)) ref s'.
Proof.
  intros Hp Ht. rewrite alone_bind, alone_locked. cbn [mbind option_bind]. unfold finalize_once.
  rewrite (pg_slot _ _ _ _ _ Hp), Ht, alone_JournalTerminal.
  pose proof (placing_finalize _ _ _ _ _ state code Ht Hp) as Hp1. eexists. split; [done|].
  assert (placing st attempt ref (end_slot state code slot)
    (if has_store (FinalizeLocked ref state code s)
     then journal_phase ref phase code (FinalizeLocked ref state code s)
     else FinalizeLocked ref state code s)) as [_ H2 _ H3].
  { destruct (has_store _); [by apply placing_journal|done]. }
  unfold ended_with. by rewrite H3.
Qed.

Lemma reject_alone ref s : placing st attempt ref decided_slot s → ∃ s',
  alone (commit_rejected ref decision) s = Some (tt, s') ∧
  ended_with (ends_as AttemptState.kRejected (dec_code decision) (0, 0)) ref s'.
Proof.
  intros Hp. destruct decided_slot_flags as (Ht & _).
  pose proof (placing_upd _ _ _ _ _
    (λ slot, sl_with_outcome (ao_with_decision decision (sl_outcome slot)) slot) Hp) as Hp1.
  destruct (end_alone ref _ AttemptPhase.kRejected AttemptState.kRejected (dec_code decision) _ Hp1)
    as (s' & Ha & He); [done|]. exists s'. rewrite <-Ha. split.
  - unfold commit_rejected. rewrite !alone_bind, !alone_locked. cbn [mbind option_bind].
    unfold reject_prepared, finalize_once.
    rewrite (pg_slot _ _ _ _ _ Hp), (pg_slot _ _ _ _ _ Hp1). cbn [sl_terminal sl_with_outcome].
    by rewrite Ht.
  - revert He. cbn [sl_with_outcome sl_outcome ao_with_decision ao_with_end].
    by rewrite decided_slot_outcome.
Qed.

(** The commit of the decision, with [CommitRecord]'s result. *)
Lemma commit_record_alone intent ref slot s :
  placing st attempt ref slot s → memory s = memory st →
  ∃ s', alone (CommitRecord intent (dec_delta decision) (dec_digest decision) (co_epoch st)) s =
      Some (commit_result (co_store s) intent, s') ∧
    placing st attempt ref slot s'.
Proof.
  intros Hp Hm. rewrite alone_CommitRecord. unfold commit_result, has_store.
  pose proof (pg_setting _ _ _ _ _ Hp) as Hset. injection Hset as _ _ _ Hi _ Hk.
  destruct (co_store s) as [w|] eqn:Es.
  - rewrite bool_decide_true by done. unfold commit_in_store, with_store. rewrite Es, Hi, Hk.
    destruct (CommitPlacement _ _ _ _ _ _ w) as [r w']. eexists. split; [done|].
    by apply placing_store.
  - rewrite bool_decide_false by (by intros []). injection Hm as Hn Hl.
    unfold commit_in_memory. rewrite Hn, Hl, Hi, Hk.
    destruct (co_next_placement_id st =? _); [by exists s|].
    destruct (co_latest_in_memory st !! int_flow intent) as [r|];
      [destruct (pl_generation r =? _)|]; (eexists; split; [done|]; by apply placing_memory).
Qed.

Lemma commit_in_memory_error intent delta d epoch s status s' :
  commit_in_memory intent delta d epoch s = (Error status, s') → status_ok status = false.
Proof. unfold commit_in_memory. repeat case_match; try done; by intros [= <- _]. Qed.

Lemma commit_result_error store intent status :
  commit_result store intent = Error status → status_ok status = false.
Proof.
  unfold commit_result. destruct store as [w|].
  - destruct (CommitPlacement _ _ _ _ _ _ w) as [r w'] eqn:E. cbn. intros ->.
    by eapply never_ok_commit.
  - destruct (commit_in_memory _ _ _ _ st) as [r s'] eqn:E. cbn. intros ->.
    by eapply commit_in_memory_error.
Qed.

Lemma finalize_ended ref slot state code phase s :
  placing st attempt ref slot s → sl_terminal slot = false →
  let s1 := if has_store s then journal_phase ref phase code s else s in
  ended_with (ao_with_end state code (sl_outcome slot)) ref (FinalizeLocked ref state code s1).
Proof.
  intros Hp Ht s1. assert (placing st attempt ref slot s1) as Hp1.
  { subst s1. destruct (has_store s); [by apply placing_journal|done]. }
  apply (placing_finalize _ _ _ _ _ state code Ht) in Hp1 as [_ H2 _ H3].
  unfold ended_with. by rewrite H3.
Qed.

Definition crossed_slot : Slot := sl_with_crossed true decided_slot.

Lemma crossed_slot_outcome : sl_outcome crossed_slot = sl_outcome decided_slot.
Proof. done. Qed.

Lemma cross_alone ref s : placing st attempt ref decided_slot s →
  if AuthorityMatches (co_authority st) (rq_expected request) then
    cross_boundary ref s = (None, upd_slot ref (sl_with_crossed true) s)
  else ∃ message,
    cross_boundary ref s = (Some (mkStatus StatusCode.kStaleAuthorityGeneration message), s).
Proof.
  intros Hp. unfold cross_boundary. rewrite (pg_slot _ _ _ _ _ Hp).
  destruct decided_slot_flags as (-> & -> & ->).
  pose proof (pg_setting _ _ _ _ _ Hp) as Hset. injection Hset as _ Ha He _ Hs _.
  assert (is_running s = true) as -> by (unfold is_running in *; by rewrite Hs).
  rewrite Ha, He. change (rq_expected request') with (rq_expected request). rewrite Hepoch, N.eqb_refl.
  cbn [negb]. destruct (AuthorityMatches _ _); [done|by eexists].
Qed.

(** A commit that crossed the boundary: it ends the slot, or reports a failure. *)
Lemma crossed_alone intent ref s :
  dec_intent decision = Some intent →
  placing st attempt ref crossed_slot s → memory s = memory st →
  ∃ s', match commit_result (co_store s) intent with
        | Value r => alone (commit_crossed ref) s = Some (Status_Ok, s') ∧
            ended_with (ends_as AttemptState.kCommitted StatusCode.kOk (pl_id r, pl_generation r))
              ref s'
        | Error status => alone (commit_crossed ref) s = Some (status, s') ∧
            placing st attempt ref crossed_slot s'
        end.
Proof.
  intros Hi Hp Hm. unfold commit_crossed. rewrite alone_bind, alone_peek. cbn [mbind option_bind].
  rewrite (pg_slot _ _ _ _ _ Hp). destruct decided_slot_flags as (Ht & _ & Hr).
  cbn [crossed_slot sl_with_crossed sl_outcome sl_request].
  rewrite decided_slot_outcome, Hr. cbn [ao_decision].
  change (rq_expected request') with (rq_expected request).
  rewrite Hi, Hepoch, alone_bind.
  destruct (commit_record_alone intent ref crossed_slot s Hp Hm) as (s1 & -> & Hp1).
  cbn [mbind option_bind]. destruct (commit_result (co_store s) intent) as [r|status].
  2: { rewrite alone_ret. by exists s1. }
  rewrite alone_bind, alone_update. cbn [mbind option_bind].
  apply (placing_upd _ _ _ _ _ (λ slot, sl_with_outcome
    (ao_with_placement (pl_id r) (pl_generation r) (sl_outcome slot)) slot)) in Hp1.
  fold (note_placement ref r s1) in Hp1.
  rewrite alone_bind, alone_JournalTerminal. cbn [mbind option_bind].
  rewrite alone_bind, alone_update. cbn [mbind option_bind]. rewrite alone_ret.
  eexists. split; [done|].
  pose proof (finalize_ended ref _ AttemptState.kCommitted StatusCode.kOk AttemptPhase.kCommitted
    _ Hp1 Ht) as He. revert He.
  cbn [sl_with_outcome sl_outcome crossed_slot sl_with_crossed].
  by rewrite decided_slot_outcome.
Qed.

Lemma commit_prepared_alone intent ref s :
  dec_intent decision = Some intent →
  placing st attempt ref decided_slot s → memory s = memory st →
  ∃ s', alone (commit_prepared ref) s = Some (tt, s') ∧
    ended_with (expected_outcome (co_store s)) ref s'.
Proof.
  intros Hi Hp Hm. unfold commit_prepared, expected_outcome. rewrite Hi, alone_bind.
  unfold CommitSlot. rewrite alone_guarded, alone_bind, alone_locked. cbn [mbind option_bind].
  pose proof (cross_alone ref s Hp) as Hx. destruct decided_slot_flags as (Ht & _ & _).
  destruct (AuthorityMatches _ _).
  2: { destruct Hx as [message ->]. rewrite alone_ret. cbn [mbind option_bind].
       destruct (end_alone ref decided_slot AttemptPhase.kFenced AttemptState.kFenced
         StatusCode.kStaleAuthorityGeneration s Hp Ht) as (s' & Ha & He).
       exists s'. split; [exact Ha|]. by rewrite decided_slot_outcome in He. }
  rewrite Hx. apply (placing_upd _ _ _ _ _ (sl_with_crossed true)) in Hp.
  destruct (crossed_alone intent ref _ Hi Hp Hm) as [s1 H1].
  change (co_store (upd_slot _ _ s)) with (co_store s) in H1.
  destruct (commit_result (co_store s) intent) as [r|status] eqn:Ec; destruct H1 as [-> H1].
  - by exists s1.
  - cbn [mbind option_bind]. rewrite (commit_result_error _ _ _ Ec).
    destruct (end_alone ref crossed_slot (PhaseForState (StateForFailure (status_code status)))
      (StateForFailure (status_code status)) (status_code status) s1 H1 Ht) as (s' & Ha & He).
    exists s'. split; [exact Ha|]. by rewrite crossed_slot_outcome, decided_slot_outcome in He.
Qed.

(** What [PlaceNow] answers alone. *)
Lemma PlaceNow_alone :
  match start_store (co_store st) with
  | Error status => ∃ s, alone (PlaceNow request attempt) st = Some (Error status, s)
  | Value store => ∃ ref s,
      alone (PlaceNow request attempt) st = Some (Value (expected_outcome store), s) ∧
      ended_with (expected_outcome store) ref s
  end.
Proof.
  pose proof register_alone as Hr. unfold PlaceNow, Runtime.Prepare.
  destruct (start_store (co_store st)) as [store|status].
  2: { destruct Hr as [s Hr]. exists s. by rewrite !alone_bind, Hr. }
  destruct Hr as (ref & s & Hr & Hp & <- & Hm). exists ref.
  destruct (prepare_slot_alone ref s Hp) as (s1 & Ha & Hp1 & Hs1 & Hm1). rewrite Hm in Hm1.
  rewrite <-Hs1. rewrite !alone_bind, Hr. cbn [mbind option_bind]. rewrite Ha.
  cbn [mbind option_bind]. unfold Commit, FindSlot. cbn [prep_attempt prep_decision].
  rewrite alone_bind, alone_peek. cbn [mbind option_bind]. rewrite (pg_slots _ _ _ _ _ Hp1).
  destruct decided_slot_flags as (Ht & _). destruct (dec_intent decision) as [intent|] eqn:Hi.
  - assert (placed decision = true) as -> by (apply placed_intent; by eexists).
    cbn [negb]. rewrite alone_bind, alone_peek. cbn [mbind option_bind].
    unfold check_prepared. rewrite (pg_slot _ _ _ _ _ Hp1), Ht, decided_slot_outcome.
    cbn [ao_decision]. rewrite (proj2 (Digest_eqb_eq _ _)) by done.
    cbn [negb].
    destruct (commit_prepared_alone intent ref s1 Hi Hp1 Hm1) as (s2 & H2 & He).
    rewrite alone_bind, H2. cbn [mbind option_bind]. rewrite alone_peek. exists s2.
    by rewrite (proj2 (proj2 He)).
  - assert (placed decision = false) as ->.
    { destruct (placed decision) eqn:E; [|done]. apply placed_intent in E as [i E].
      change (dec_intent decision = Some i) in E. congruence. }
    cbn [negb]. destruct (reject_alone ref s1 Hp1) as (s2 & H2 & He).
    unfold expected_outcome. rewrite Hi.
    rewrite alone_bind, H2. cbn [mbind option_bind]. rewrite alone_peek. exists s2.
    by rewrite (proj2 (proj2 He)).
Qed.
End Place.
