(* ===== verification/RuntimeDemo.v ===== *)
(** * Concrete coordinators

    Started coordinators with one worker, and schedules of their callers. *)

From Stdlib Require Import String.
From S2P Require Import Prelude StdAlgo Checked Status Hash Model ModelDigest Validate.
From S2P Require Import Explain Records Wire Store StoreOps Place Threads RuntimeState Runtime.
From S2P Require Import RuntimeInv RuntimeThreads Fixture.

(** Options with one worker, and the requests of the fixture's epoch. *)
Definition lab_options (path : string) (max_journal queue_capacity : N) : CoordinatorOptions :=
  mkCoordinatorOptions default_limits (mkOptions true true false 65536 max_journal 1000) path
    1 queue_capacity 16 11 9 3.

Definition lab_request : PlacementRequest := Baseline 3 5000.

Definition unstarted : CoordinatorState :=
  mkCoordinator (lab_options "" 0 1) None AuthorityExpectation_init 0 0 RunState.kStopped [] [] 0 0
    ∅ CoordinatorStats_init 0 ∅ 0 [] 0 0.

Definition lab (options : CoordinatorOptions) (io : list IoOutcome) : CoordinatorState :=
  match Start options 1 0 (mkDisk None None) io with
  | Value st => st
  | Error _ => unstarted
  end.

(** Without a store, and with one. *)
Definition lab_memory : CoordinatorState := lab (lab_options "" 0 1) [].
Definition lab_store : CoordinatorState := lab (lab_options "store" 0 1) [].

(** A coordinator that [Start] returned. *)
Definition starts (st : CoordinatorState) : Prop :=
  ∃ options process now disk io, u64_fits (opt_initial_epoch options) ∧
    Start options process now disk io = Value st.

Lemma lab_starts options io : u64_fits (opt_initial_epoch options) →
  match Start options 1 0 (mkDisk None None) io with Value _ => true | Error _ => false end = true →
  starts (lab options io).
Proof.
  intros Hf H. exists options, 1, 0%Z, (mkDisk None None), io. split; [done|]. unfold lab.
  by destruct (Start options 1 0 (mkDisk None None) io).
Qed.

Lemma lab_memory_starts : starts lab_memory.
Proof. by apply lab_starts. Qed.

Lemma lab_store_starts : starts lab_store.
Proof. apply lab_starts; [done|by vm_compute]. Qed.

(** A caller and its steps.  The callers follow the worker, thread 0. *)
Definition steps (thread : nat) (count : nat) : list (Event (Call := Call) (Tick := Z)) :=
  replicate count (Run thread).

Definition after (st : CoordinatorState) (events : list (Event (Call := Call) (Tick := Z)))
    : System :=
  match schedule events (started st) with
  | Some sys => sys
  | None => started st
  end.

(** The whole schedule can be run. *)
Definition runs (st : CoordinatorState) (events : list (Event (Call := Call) (Tick := Z))) : bool :=
  match schedule events (started st) with
  | Some _ => true
  | None => false
  end.

Lemma after_run st events : runs st events = true →
  schedule events (started st) = Some (after st events).
Proof. unfold runs, after. by destruct (schedule events (started st)). Qed.

Lemma schedule_app events1 events2 sys :
  schedule (events1 ++ events2) sys = schedule events1 sys ≫= schedule events2.
Proof. apply exec_all_app. Qed.

Lemma runs_app st events more : runs st (events ++ more) = true → runs st events = true.
Proof. unfold runs. rewrite schedule_app. by destruct (schedule events (started st)). Qed.

Lemma after_app st events more : runs st (events ++ more) = true →
  schedule more (after st events) = Some (after st (events ++ more)).
Proof.
  intros H. pose proof (after_run _ _ H) as E. apply runs_app, after_run in H.
  by rewrite schedule_app, H in E.
Qed.

Lemma after_reaches st events :
  Forall (allowed_event honest) events → runs st events = true → reaches honest st (after st events).
Proof. intros Ha H. exists events. split; [done|by apply after_run]. Qed.

(** Events without a caller that brings its own decision or authority. *)
Definition plain (e : Event (Call := Call) (Tick := Z)) : bool :=
  match e with
  | Spawn (CallCommit _) | Spawn (CallSetAuthority _) => false
  | _ => true
  end.

Lemma plain_allowed events : forallb plain events = true → Forall (allowed_event honest) events.
Proof.
  rewrite List.forallb_forall, Forall_forall. intros H e He. specialize (H e).
  rewrite <-list_elem_of_In in H. specialize (H He). by destruct e as [|[]|].
Qed.

Lemma plain_reaches st events : forallb plain events = true → runs st events = true →
  reaches honest st (after st events).
Proof. intros H. apply after_reaches. by apply plain_allowed. Qed.

(** A caller of [PlaceNow] after some of its steps. *)
Definition placing_after (count : nat) : list (Event (Call := Call) (Tick := Z)) :=
  Spawn (CallPlaceNow lab_request 5) :: steps 1 count.

(** The durable placements and what the store says about an attempt. *)
Definition durable (attempt : N) (st : CoordinatorState)
    : option (list N * option AttemptPhase * option N) :=
  w ← co_store st;
  Some (pl_id <$> im_placements (st_impl (w_store w)), at_phase <$> FindAttempt attempt (w_store w),
        pl_id <$> FindByAttempt attempt (w_store w)).

(** The answer of a thread. *)
Definition reply_of (thread : nat) (sys : System (State := CoordinatorState) (Reply := Reply))
    : option Reply :=
  t ← (sys_threads sys !! thread : option (Thread Reply));
  match t with
  | Finished reply => Some reply
  | _ => None
  end.
