(* ===== verification/ServerState.v ===== *)
(** * The server's state

    The data of [server.hpp] and the context of [server.cpp].  A connection is a
    [Link]: its [TcpConnection], what [recv] will return and the kernel's answers
    to [send], frame by frame, and the bytes the kernel took.  The listener is the
    list of what its calls will report; the log is the list of its lines. *)

From Stdlib Require Import String.
From S2P Require Import Prelude StdAlgo Checked Status Bytes Hash Model ModelDigest Validate.
From S2P Require Import Explain Records Codec Wire Transport Store StoreOps Place.
From S2P Require Import Threads RuntimeState Runtime.

Definition kVersionString : string := "1.0.0".
Definition kProjectName : string := "flowplace".
Definition kWireProtocolVersion : N := 1.

Record ServerOptions := mkServerOptions {
  svo_address : string;
  svo_port : N;
  svo_store_path : string;
  svo_worker_threads : N;
  svo_queue_capacity : N;
  svo_max_connections : N;
  svo_max_frame_bytes : N;
  svo_epoch : N;
  svo_max_requests : N;
  svo_ready_file : string;
  svo_log_file : string;
}.

Record ServerResult := mkServerResult {
  svr_port : N;
  svr_requests_served : N;
  svr_connections : N;
  svr_rejected_handshakes : N;
  svr_protocol_errors : N;
  svr_fenced_requests : N;
  svr_committed : N;
  svr_clean_shutdown : bool;
}.

(** ** Connections *)

Record Link := mkLink {
  ln_connection : TcpConnection;
  ln_received : list Received;
  ln_sends : list (list N);
  ln_sent : list N;
}.

Definition ln_with_connection (connection : TcpConnection) (l : Link) : Link :=
  mkLink connection (ln_received l) (ln_sends l) (ln_sent l).

(** An open connection, as [Accept] and [Connect] return it. *)
Definition open_link (max_frame_bytes : N) : Link :=
  mkLink (mkConnection true (FrameStream_init max_frame_bytes) max_frame_bytes) [] [] [].

Definition link_closed (l : Link) : Link :=
  let c := ln_connection l in
  ln_with_connection (mkConnection false (con_stream c) (con_max_frame_bytes c)) l.

Section Socket.
Context (strerror : string).

(** [ReceiveFrame] on a link, and whether it returns. *)
Definition link_receive (l : Link) : option (Result Frame) * Link :=
  let '(result, received, connection) := ReceiveFrame strerror (ln_received l) (ln_connection l) in
  (result, mkLink connection received (ln_sends l) (ln_sent l)).

(** [SendFrame] on a link. *)
Definition link_send (frame : Frame) (l : Link) : option Status * Link :=
  let '(status, taken) := SendFrame strerror (hd [] (ln_sends l)) frame (ln_connection l) in
  (status, mkLink (ln_connection l) (ln_received l) (tl (ln_sends l)) (ln_sent l ++ taken)).
End Socket.

Definition link_bound (max_frame_bytes : N) (l : Link) : Link :=
  ln_with_connection (TcpConnection_SetMaxFrameBytes max_frame_bytes (ln_connection l)) l.

(** ** The context *)

Record ServerCounters := mkServerCounters {
  sc_requests_served : N;
  sc_connections : N;
  sc_rejected_handshakes : N;
  sc_protocol_errors : N;
  sc_fenced_requests : N;
  sc_committed : N;
  sc_live_connections : N;
}.

Definition count_served (c : ServerCounters) : ServerCounters :=
  mkServerCounters (wrap 64 (sc_requests_served c + 1)) (sc_connections c)
    (sc_rejected_handshakes c) (sc_protocol_errors c) (sc_fenced_requests c) (sc_committed c)
    (sc_live_connections c).

Definition count_connections (c : ServerCounters) : ServerCounters :=
  mkServerCounters (sc_requests_served c) (wrap 64 (sc_connections c + 1))
    (sc_rejected_handshakes c) (sc_protocol_errors c) (sc_fenced_requests c) (sc_committed c)
    (sc_live_connections c).

Definition count_rejected_handshakes (c : ServerCounters) : ServerCounters :=
  mkServerCounters (sc_requests_served c) (sc_connections c)
    (wrap 64 (sc_rejected_handshakes c + 1)) (sc_protocol_errors c) (sc_fenced_requests c)
    (sc_committed c) (sc_live_connections c).

Definition count_protocol_errors (c : ServerCounters) : ServerCounters :=
  mkServerCounters (sc_requests_served c) (sc_connections c) (sc_rejected_handshakes c)
    (wrap 64 (sc_protocol_errors c + 1)) (sc_fenced_requests c) (sc_committed c)
    (sc_live_connections c).

Definition count_fenced_requests (c : ServerCounters) : ServerCounters :=
  mkServerCounters (sc_requests_served c) (sc_connections c) (sc_rejected_handshakes c)
    (sc_protocol_errors c) (wrap 64 (sc_fenced_requests c + 1)) (sc_committed c)
    (sc_live_connections c).

Definition count_committed (c : ServerCounters) : ServerCounters :=
  mkServerCounters (sc_requests_served c) (sc_connections c) (sc_rejected_handshakes c)
    (sc_protocol_errors c) (sc_fenced_requests c) (wrap 64 (sc_committed c + 1))
    (sc_live_connections c).

Definition live_connections_up (c : ServerCounters) : ServerCounters :=
  mkServerCounters (sc_requests_served c) (sc_connections c) (sc_rejected_handshakes c)
    (sc_protocol_errors c) (sc_fenced_requests c) (sc_committed c)
    (wrap 64 (sc_live_connections c + 1)).

Definition live_connections_down (c : ServerCounters) : ServerCounters :=
  mkServerCounters (sc_requests_served c) (sc_connections c) (sc_rejected_handshakes c)
    (sc_protocol_errors c) (sc_fenced_requests c) (sc_committed c)
    (wrap 64 (sc_live_connections c + 2 ^ 64 - 1)).

(** What the listener reports: [WaitReadable] fails, [Accept] fails, or a connection. *)
Inductive Listened :=
  | WaitFails (status : Status)
  | AcceptFails (status : Status)
  | Connected.

(** Whether the thread of an entry has been created and runs. *)
Inductive ThreadPhase := NoThread | ThreadCreated | ThreadRuns.

#[export] Instance ThreadPhase_eq_dec : EqDecision ThreadPhase.
Proof. solve_decision. Defined.

Record ConnectionEntry := mkEntry {
  en_connection : Link;
  en_done : bool;
  en_thread : ThreadPhase;
}.

Definition en_with_connection (l : Link) (e : ConnectionEntry) : ConnectionEntry :=
  mkEntry l (en_done e) (en_thread e).

Definition en_with_done (done : bool) (e : ConnectionEntry) : ConnectionEntry :=
  mkEntry (en_connection e) done (en_thread e).

Definition en_with_thread (thread : ThreadPhase) (e : ConnectionEntry) : ConnectionEntry :=
  mkEntry (en_connection e) (en_done e) thread.

Definition Entry_none : ConnectionEntry := mkEntry (link_closed (open_link 0)) true NoThread.

Record ServerContext := mkServer {
  sv_options : ServerOptions;
  sv_coordinator : CoordinatorState;
  sv_counters : ServerCounters;
  sv_stop : bool;
  sv_log : option (list string);
  sv_open_connections : list nat;
  sv_port : N;
  sv_entries : list ConnectionEntry;
  sv_arriving : list Listened;
}.

Definition sv_with_coordinator (coordinator : CoordinatorState) (s : ServerContext)
    : ServerContext :=
  mkServer (sv_options s) coordinator (sv_counters s) (sv_stop s) (sv_log s)
    (sv_open_connections s) (sv_port s) (sv_entries s) (sv_arriving s).

Definition sv_with_counters (counters : ServerCounters) (s : ServerContext) : ServerContext :=
  mkServer (sv_options s) (sv_coordinator s) counters (sv_stop s) (sv_log s)
    (sv_open_connections s) (sv_port s) (sv_entries s) (sv_arriving s).

Definition sv_with_stop (stop : bool) (s : ServerContext) : ServerContext :=
  mkServer (sv_options s) (sv_coordinator s) (sv_counters s) stop (sv_log s)
    (sv_open_connections s) (sv_port s) (sv_entries s) (sv_arriving s).

Definition sv_with_log (log : option (list string)) (s : ServerContext) : ServerContext :=
  mkServer (sv_options s) (sv_coordinator s) (sv_counters s) (sv_stop s) log
    (sv_open_connections s) (sv_port s) (sv_entries s) (sv_arriving s).

Definition sv_with_open (open_connections : list nat) (s : ServerContext) : ServerContext :=
  mkServer (sv_options s) (sv_coordinator s) (sv_counters s) (sv_stop s) (sv_log s)
    open_connections (sv_port s) (sv_entries s) (sv_arriving s).

Definition sv_with_entries (entries : list ConnectionEntry) (s : ServerContext) : ServerContext :=
  mkServer (sv_options s) (sv_coordinator s) (sv_counters s) (sv_stop s) (sv_log s)
    (sv_open_connections s) (sv_port s) entries (sv_arriving s).

Definition sv_with_arriving (arriving : list Listened) (s : ServerContext) : ServerContext :=
  mkServer (sv_options s) (sv_coordinator s) (sv_counters s) (sv_stop s) (sv_log s)
    (sv_open_connections s) (sv_port s) (sv_entries s) arriving.

(** ** Atomic operations *)

Definition bump (f : ServerCounters → ServerCounters) (s : ServerContext) : ServerContext :=
  sv_with_counters (f (sv_counters s)) s.

(** [Log]. *)
Definition log_line (message : string) (s : ServerContext) : ServerContext :=
  sv_with_log ((λ lines, lines ++ [message]) <$> sv_log s) s.

Definition entry_at (i : nat) (s : ServerContext) : ConnectionEntry :=
  nth i (sv_entries s) Entry_none.

Definition link_at (i : nat) (s : ServerContext) : Link := en_connection (entry_at i s).

Definition upd_entry (i : nat) (f : ConnectionEntry → ConnectionEntry) (s : ServerContext)
    : ServerContext :=
  sv_with_entries (alter f i (sv_entries s)) s.

Definition set_link (i : nat) (l : Link) (s : ServerContext) : ServerContext :=
  upd_entry i (en_with_connection l) s.

(** [Close] on the connection of an entry. *)
Definition close_link (i : nat) (s : ServerContext) : ServerContext :=
  set_link i (link_closed (link_at i s)) s.
