(* ===== verification/Server.v ===== *)
(** * The server

    [server.cpp]: a thread per connection and the accept loop, over the threads of
    the coordinator.  [lift] runs a thread of the coordinator on the server's
    state; a frame is received or sent in one step, which waits while [recv] or
    [send] would block.  The listener's [select] and [accept] are the arrival of
    connections. *)

From Stdlib Require Import String.
From S2P Require Import Prelude StdAlgo Checked Status Bytes Hash Model ModelDigest Validate.
From S2P Require Import Explain Records Codec Wire Transport Store StoreOps Place.
From S2P Require Import Threads RuntimeState Runtime ServerState.

(** A thread of the coordinator as a thread of the server. *)
Definition lift {A} : Thread (State := CoordinatorState) A → Thread (State := ServerContext) A :=
  fix go (t : Thread A) : Thread A :=
    match t with
    | Finished a => Finished a
    | Locked guard section next =>
        Locked (λ s, guard (sv_coordinator s))
          (λ s, let '(r, st) := section (sv_coordinator s) in (r, sv_with_coordinator st s))
          (λ r, go (next r))
    | Acquire m next => Acquire m (go next)
    | Release m next => Release m (go next)
    end.

Section Server.
Context (strerror : string).

Abbreviation Thread := (Thread (State := ServerContext)).

Definition log (message : string) : Thread unit := update (log_line message).
Definition count (f : ServerCounters → ServerCounters) : Thread unit := update (bump f).

(** ** Frames *)

Definition ready {A} (result : option A) : bool :=
  match result with Some _ => true | None => false end.

Definition receive_now (i : nat) (s : ServerContext) : Result Frame * ServerContext :=
  let '(result, l) := link_receive strerror (link_at i s) in
  (default (Error Status_Ok) result, set_link i l s).

Definition receive_frame (i : nat) : Thread (Result Frame) :=
  wait (λ s, ready (fst (link_receive strerror (link_at i s)))) (receive_now i).

Definition send_now (i : nat) (frame : Frame) (s : ServerContext) : Status * ServerContext :=
  let '(status, l) := link_send strerror frame (link_at i s) in
  (default Status_Ok status, set_link i l s).

Definition send_frame (i : nat) (frame : Frame) : Thread Status :=
  wait (λ s, ready (fst (link_send strerror frame (link_at i s)))) (send_now i frame).

Definition error_frame (code : StatusCode) (attempt : N) (message : string) (sequence : N)
    : Frame :=
  mkFrame FrameKind.kError 0 sequence (EncodeErrorPayload (mkErrorPayload code attempt message) []).

Definition SendError (i : nat) (code : StatusCode) (attempt : N) (message : string) (sequence : N)
    : Thread Status :=
  send_frame i (error_frame code attempt message sequence).

Definition result_frame (outcome : AttemptOutcome) (sequence : N) : Frame :=
  mkFrame FrameKind.kPlaceResult 0 sequence
    (EncodePlaceResult
       (mkPlaceResult (ao_attempt outcome) (ao_state outcome) (ao_code outcome)
          (ao_placement_id outcome) (ao_placement_generation outcome) (ao_decision outcome)) []).

Definition SendPlaceResult (i : nat) (outcome : AttemptOutcome) (sequence : N) : Thread Status :=
  send_frame i (result_frame outcome sequence).

(** [++sequence]. *)
Definition next_sequence (sequence : N) : N := wrap 64 (sequence + 1).

(** ** The handshake *)

Definition hello_ack (options : ServerOptions) (coordinator epoch : N) (hello : HelloPayload)
    : HelloAckPayload :=
  let ack accepted code message :=
    mkHelloAck kWireProtocolVersion coordinator epoch
      (N.min (hello_max_frame_bytes hello) (svo_max_frame_bytes options))
      (svo_max_connections options) (kProjectName ++ " " ++ kVersionString)
      accepted code message in
  if negb (hello_protocol_version hello =? kWireProtocolVersion) then
    ack false StatusCode.kProtocolMismatch "wire protocol version mismatch"%string
  else if negb (hello_epoch hello =? epoch) then
    ack false StatusCode.kStaleFabricEpoch "worker epoch is not the coordinator epoch"%string
  else ack true StatusCode.kOk ""%string.

(** The counters of a refusal. *)
Definition count_refusal (ack : HelloAckPayload) (c : ServerCounters) : ServerCounters :=
  if ack_accepted ack then c
  else match ack_code ack with
       | StatusCode.kStaleFabricEpoch => count_fenced_requests (count_rejected_handshakes c)
       | _ => count_rejected_handshakes c
       end.

Definition ack_frame (ack : HelloAckPayload) (sequence : N) : Frame :=
  mkFrame FrameKind.kHelloAck 0 sequence (EncodeHelloAck ack []).

Definition handshake_line (ack : HelloAckPayload) (hello : HelloPayload) : string :=
  "handshake " ++ (if ack_accepted ack then "accepted" else "rejected") ++
  " worker=" ++ to_string (hello_worker hello) ++ " epoch=" ++ to_string (hello_epoch hello).

(** The answer to a [HELLO]; the sequence the connection goes on with, if it does. *)
Definition answer_hello (i : nat) (hello : HelloPayload) : Thread (option N) :=
  options ← peek sv_options;
  _ ← update (λ s, set_link i
        (link_bound (N.min (hello_max_frame_bytes hello) (svo_max_frame_bytes options))
           (link_at i s)) s);
  coordinator ← peek (λ s, co_incarnation (sv_coordinator s));
  epoch ← lift CurrentEpoch;
  let ack := hello_ack options coordinator epoch hello in
  _ ← count (count_refusal ack);
  sent ← send_frame i (ack_frame ack (next_sequence 0));
  if negb (status_ok sent) then mret None else
  _ ← log (handshake_line ack hello);
  if negb (ack_accepted ack) then mret None else
  _ ← count count_connections;
  mret (Some (next_sequence 0)).

(** [ServeConnection] up to its loop. *)
Definition handshake (i : nat) : Thread (option N) :=
  received ← receive_frame i;
  match received with
  | Error status =>
      _ ← count count_rejected_handshakes;
      _ ← log ("handshake read failed: " ++ Status_ToString status);
      mret None
  | Value frame =>
      if negb (bool_decide (fr_kind frame = FrameKind.kHello)) then
        _ ← count count_protocol_errors;
        _ ← SendError i StatusCode.kWireMalformed 0 "first frame must be HELLO" (next_sequence 0);
        _ ← log "handshake rejected: first frame was not HELLO";
        mret None
      else
        match DecodeHello (mkReader (fr_body frame) 0) with
        | Error status =>
            _ ← count count_protocol_errors;
            _ ← SendError i (status_code status) 0 (status_message status) (next_sequence 0);
            _ ← log "handshake rejected: malformed HELLO";
            mret None
        | Value (hello, _) => answer_hello i hello
        end
  end.

(** ** Requests *)

(** A payload that does not decode: the error is sent and the connection ends. *)
Definition refuse_payload (i : nat) (sequence : N) (status : Status) : Thread (option N) :=
  _ ← count count_protocol_errors;
  _ ← SendError i (status_code status) 0 (status_message status) (next_sequence sequence);
  mret None.

(** The request with the attempt of its payload. *)
Definition bound_request (payload : PlaceRequestPayload) : PlacementRequest :=
  let request := preq_request payload in
  if valid (rq_attempt request) then request else rq_with_attempt (preq_attempt payload) request.

(** A placement that was decided: its result, and whether the connection goes on. *)
Definition answer_outcome (i : nat) (sequence : N) (outcome : AttemptOutcome) : Thread (option N) :=
  _ ← (if bool_decide (ao_state outcome = AttemptState.kCommitted)
       then count count_committed else mret tt);
  sent ← SendPlaceResult i outcome (next_sequence sequence);
  _ ← count count_served;
  if negb (status_ok sent) then mret None else
  enough ← peek (λ s, negb (svo_max_requests (sv_options s) =? 0) &&
                      (svo_max_requests (sv_options s) <=? sc_requests_served (sv_counters s)));
  if (enough : bool) then _ ← update (sv_with_stop true); mret None
  else mret (Some (next_sequence sequence)).

Definition serve_place (i : nat) (sequence : N) (body : list N) : Thread (option N) :=
  limits ← peek (λ s, opt_limits (co_options (sv_coordinator s)));
  match DecodePlaceRequest limits (mkReader body 0) with
  | Error status =>
      _ ← refuse_payload i sequence status;
      _ ← log ("place request rejected: " ++ Status_ToString status);
      mret None
  | Value (payload, _) =>
      epoch ← lift CurrentEpoch;
      if negb (preq_epoch payload =? epoch) then
        _ ← count count_fenced_requests;
        _ ← SendError i StatusCode.kFencedStaleEpoch (preq_attempt payload)
              "request is bound to a superseded fabric epoch" (next_sequence sequence);
        _ ← log ("place request fenced: epoch " ++ to_string (preq_epoch payload));
        mret (Some (next_sequence sequence))
      else
        outcome ← lift (PlaceNow (bound_request payload) (preq_attempt payload));
        match outcome with
        | Error status =>
            _ ← SendError i (status_code status) (preq_attempt payload) (status_message status)
                  (next_sequence sequence);
            _ ← log ("place request failed: " ++ Status_ToString status);
            mret (Some (next_sequence sequence))
        | Value outcome => answer_outcome i sequence outcome
        end
  end.

(** The connection goes on if the frame was sent. *)
Definition answer (i : nat) (sequence : N) (frame : Frame) : Thread (option N) :=
  sent ← send_frame i frame;
  mret (if status_ok sent then Some (next_sequence sequence) else None).

Definition epoch_reply (previous epoch : N) (applied : Status) : EpochPayload :=
  mkEpochPayload epoch previous
    (if status_ok applied then StatusCode.kOk else status_code applied)
    (if status_ok applied then "epoch updated"%string else status_message applied).

Definition serve_epoch (i : nat) (sequence : N) (body : list N) : Thread (option N) :=
  match DecodeEpochPayload (mkReader body 0) with
  | Error status => refuse_payload i sequence status
  | Value (payload, _) =>
      authority ← lift CurrentAuthority;
      previous ← lift CurrentEpoch;
      applied ← lift (SetAuthority (exp_with_epoch (epoch_epoch payload) authority));
      epoch ← lift CurrentEpoch;
      sent ← send_frame i
        (mkFrame FrameKind.kEpochAck 0 (next_sequence sequence)
           (EncodeEpochPayload (epoch_reply previous epoch applied) []));
      _ ← log ("epoch request: " ++ to_string (epoch_epoch payload) ++ " -> " ++
               (if status_ok applied then "applied" else Status_ToString applied));
      mret (if status_ok sent then Some (next_sequence sequence) else None)
  end.

Definition serve_recovery (i : nat) (sequence : N) : Thread (option N) :=
  report ← lift Recovery;
  answer i sequence (mkFrame FrameKind.kRecoveryReport 0 (next_sequence sequence)
                       (EncodeRecoveryReport report [])).

Definition stats_values (stats : CoordinatorStats) : list N :=
  [cs_submitted stats; cs_accepted stats; cs_duplicate_replays stats;
   cs_duplicate_conflicts stats; cs_rejected_queue_full stats;
   cs_rejected_shutting_down stats; cs_placed stats; cs_rejected stats;
   cs_cancelled stats; cs_fenced stats; cs_failed stats;
   cs_queued stats; cs_active stats; cs_completed stats].

Definition serve_stats (i : nat) (sequence : N) : Thread (option N) :=
  stats ← lift Stats;
  answer i sequence (mkFrame FrameKind.kStatsReport 0 (next_sequence sequence)
                       (write_each wU64 (stats_values stats) [])).

Definition serve_shutdown (i : nat) (sequence : N) : Thread (option N) :=
  epoch ← lift CurrentEpoch;
  _ ← send_frame i (mkFrame FrameKind.kShutdownAck 0 (next_sequence sequence)
        (EncodeEpochPayload (mkEpochPayload epoch epoch StatusCode.kOk "shutting down") []));
  _ ← update (sv_with_stop true);
  _ ← log "shutdown requested by peer";
  mret None.

Definition serve_frame (i : nat) (sequence : N) (frame : Frame) : Thread (option N) :=
  match fr_kind frame with
  | FrameKind.kPlaceRequest => serve_place i sequence (fr_body frame)
  | FrameKind.kSetEpoch => serve_epoch i sequence (fr_body frame)
  | FrameKind.kRecoveryQuery => serve_recovery i sequence
  | FrameKind.kStatsQuery => serve_stats i sequence
  | FrameKind.kShutdown => serve_shutdown i sequence
  | _ =>
      refuse_payload i sequence
        (mkStatus StatusCode.kWireMalformed "unexpected frame kind from worker")
  end.

(** One round of the loop of [ServeConnection]. *)
Definition serve_round (i : nat) (sequence : N) : Thread (option N) :=
  stop ← peek sv_stop;
  if (stop : bool) then mret None else
  received ← receive_frame i;
  match received with
  | Error status =>
      _ ← (if bool_decide (status_code status = StatusCode.kConnectionClosed) then mret tt
           else log ("connection ended: " ++ Status_ToString status));
      mret None
  | Value frame => serve_frame i sequence frame
  end.

(** The end of a connection's thread: the guard, then [done]. *)
Definition leave (i : nat) : Thread unit :=
  _ ← count live_connections_down;
  update (upd_entry i (en_with_done true)).

(** ** The accept loop *)

(** Finished connections are joined and dropped, which closes them. *)
Definition reap_connections (s : ServerContext) : ServerContext :=
  let open_connections := sv_open_connections s in
  let s := foldl (λ s i, if en_done (entry_at i s) then close_link i s else s) s open_connections in
  sv_with_open (List.filter (λ i, negb (en_done (entry_at i s))) open_connections) s.

Inductive Arrival :=
  | NoArrival
  | ListenerFailed (status : Status)
  | ArrivalFailed (status : Status)
  | Arrived (entry : nat).

(** [WaitReadable] and [Accept]. *)
Definition accept_connection (s : ServerContext) : Arrival * ServerContext :=
  match sv_arriving s with
  | [] => (NoArrival, s)
  | WaitFails status :: arriving => (ListenerFailed status, sv_with_arriving arriving s)
  | AcceptFails status :: arriving => (ArrivalFailed status, sv_with_arriving arriving s)
  | Connected :: arriving =>
      let entry := mkEntry (open_link kDefaultMaxFrameBytes) false NoThread in
      (Arrived (length (sv_entries s)),
       sv_with_entries (sv_entries s ++ [entry]) (sv_with_arriving arriving s))
  end.

(** The connection is tracked and its thread created. *)
Definition start_connection (i : nat) (s : ServerContext) : ServerContext :=
  upd_entry i (en_with_thread ThreadCreated)
    (sv_with_open (sv_open_connections s ++ [i]) s).

(** One round of the accept loop; whether there is another. *)
Definition accept_round : Thread bool :=
  stop ← peek sv_stop;
  if (stop : bool) then mret false else
  _ ← update reap_connections;
  arrival ← locked accept_connection;
  match arrival with
  | NoArrival => mret true
  | ListenerFailed status =>
      _ ← log ("listener wait failed: " ++ Status_ToString status);
      mret false
  | ArrivalFailed status =>
      stop ← peek sv_stop;
      if (stop : bool) then mret false else
      _ ← log ("accept failed: " ++ Status_ToString status);
      mret false
  | Arrived i =>
      full ← peek (λ s, svo_max_connections (sv_options s) <=? sc_live_connections (sv_counters s));
      if (full : bool) then
        _ ← SendError i StatusCode.kWorkerLimitExceeded 0 "connection limit reached" 1;
        _ ← count count_rejected_handshakes;
        _ ← log "connection refused: limit reached";
        _ ← update (close_link i);
        mret true
      else
        _ ← count live_connections_up;
        _ ← update (start_connection i);
        mret true
  end.

Definition close_connections (s : ServerContext) : ServerContext :=
  foldl (λ s i, close_link i s) s (sv_open_connections s).

Definition all_done (s : ServerContext) : bool :=
  forallb (λ i, en_done (entry_at i s)) (sv_open_connections s).

Definition server_result (clean_shutdown : bool) (s : ServerContext) : ServerResult :=
  let c := sv_counters s in
  mkServerResult (sv_port s) (sc_requests_served c) (sc_connections c) (sc_rejected_handshakes c)
    (sc_protocol_errors c) (sc_fenced_requests c) (sc_committed c) clean_shutdown.

(** [RunServer] after the accept loop. *)
Definition stop_server : Thread (Result ServerResult) :=
  _ ← update (sv_with_stop true);
  _ ← update close_connections;
  _ ← wait all_done (λ s, (tt, sv_with_open [] s));
  result ← peek (server_result true);
  shutdown ← lift (ShutdownInternal false);
  mret (if status_ok shutdown then Value result else Error shutdown).

(** ** Systems *)

Inductive ServerReply :=
  | CoordinatorReply (reply : Reply)
  | Serving (i : nat) (sequence : N)
  | Served
  | Accepting (again : bool)
  | ServerEnded (result : Result ServerResult).

(** The thread of a connection: the handshake, then a round for every frame. *)
Definition go_on (i : nat) (outcome : option N) : Thread ServerReply :=
  match outcome with
  | Some sequence => mret (Serving i sequence)
  | None => _ ← leave i; mret Served
  end.

Definition thread_created (i : nat) (s : ServerContext) : bool :=
  bool_decide (en_thread (entry_at i s) = ThreadCreated).

Definition connection_thread (i : nat) : Thread ServerReply :=
  _ ← wait (thread_created i) (λ s, (tt, upd_entry i (en_with_thread ThreadRuns) s));
  outcome ← handshake i;
  go_on i outcome.

Definition connection_round (i : nat) (sequence : N) : Thread ServerReply :=
  outcome ← serve_round i sequence;
  go_on i outcome.

Definition accepting : Thread ServerReply := again ← accept_round; mret (Accepting again).

Definition ending : Thread ServerReply := result ← stop_server; mret (ServerEnded result).

Definition coordinator_thread (t : Threads.Thread (State := CoordinatorState) Reply)
    : Thread ServerReply :=
  reply ← lift t; mret (CoordinatorReply reply).

Definition server_restart (reply : ServerReply) : option (Thread ServerReply) :=
  match reply with
  | CoordinatorReply reply =>
      match restart reply with
      | Some t => Some (coordinator_thread t)
      | None => None
      end
  | Serving i sequence => Some (connection_round i sequence)
  | Served => None
  | Accepting true => Some accepting
  | Accepting false => Some ending
  | ServerEnded _ => None
  end.

(** What happens outside: time passes, bytes arrive on a connection, the kernel answers
    the sends of a frame, a connection arrives. *)
Inductive Happening :=
  | Clock (now : Z)
  | Receives (i : nat) (received : Received)
  | Takes (i : nat) (sends : list N)
  | Connects (arrival : Listened).

(** The bytes of a [recv] are bytes. *)
Definition receivable (received : Received) : bool :=
  match received with
  | RecvError => true
  | RecvBytes chunk => forallb (λ b, b <? 256) chunk
  end.

Definition happens (what : Happening) (s : ServerContext) : ServerContext :=
  match what with
  | Clock now => sv_with_coordinator (pass now (sv_coordinator s)) s
  | Receives i received =>
      let l := link_at i s in
      if receivable received
      then set_link i (mkLink (ln_connection l) (ln_received l ++ [received]) (ln_sends l) (ln_sent l)) s
      else s
  | Takes i sends =>
      let l := link_at i s in
      set_link i (mkLink (ln_connection l) (ln_received l) (ln_sends l ++ [sends]) (ln_sent l)) s
  | Connects arrival => sv_with_arriving (sv_arriving s ++ [arrival]) s
  end.

(** The threads: the coordinator's workers, the accept loop, and one thread for every
    connection, which starts when the accept loop has created it. *)
Definition server_system (s : ServerContext) : System (Reply := ServerReply) :=
  mkSystem s (λ _, None)
    (replicate (N.to_nat (co_worker_count (sv_coordinator s)))
       (coordinator_thread worker) ++ [accepting]).

Definition server_reaches (s : ServerContext) (sys : System) : Prop :=
  reachable connection_thread server_restart happens (λ _, True) (server_system s) sys.

Definition server_schedule (events : list (Event (Call := nat) (Tick := Happening)))
    (sys : System) : option System :=
  exec_all connection_thread server_restart happens events sys.
End Server.

(** ** Starting *)

Definition server_coordinator_options (options : ServerOptions) : CoordinatorOptions :=
  mkCoordinatorOptions default_limits default_options (svo_store_path options)
    (svo_worker_threads options) (svo_queue_capacity options) 4096 (svo_epoch options) 0 0.

(** [RunServer] up to its loop: [bound] is the port of the listener, [log_opened] and
    [ready_created] whether the two files could be opened. *)
Definition RunServer (options : ServerOptions) (bound : Result N) (log_opened ready_created : bool)
    (process : N) (now : Z) (disk : Disk) (io : list IoOutcome) : Result ServerContext :=
  match bound with
  | Error status => Error status
  | Value port =>
      match Start (server_coordinator_options options) process now disk io with
      | Error status => Error status
      | Value coordinator =>
          if negb (String.eqb (svo_ready_file options) "") && negb ready_created then
            Error (mkStatus StatusCode.kIoError
                     ("cannot create ready file " ++ svo_ready_file options))
          else
            let opened := negb (String.eqb (svo_log_file options) "") && log_opened in
            Value (log_line ("listening on " ++ svo_address options ++ ":" ++ to_string port ++
                             " epoch=" ++ to_string (svo_epoch options))
                     (mkServer options coordinator (mkServerCounters 0 0 0 0 0 0 0) false
                        (if opened then Some [] else None) [] port [] []))
      end
  end.
