(* ===== verification/ServerFacts.v ===== *)
(** * The server's threads keep to the coordinator's protocol

    What the server does to its coordinator it does by the coordinator's own
    threads, whatever its clients send. *)

From Stdlib Require Import String.
From S2P Require Import Prelude StdAlgo Checked Status Bytes Hash Model ModelDigest Validate.
From S2P Require Import Explain Records Codec CodecFacts CodecExact Wire Transport WireFacts.
From S2P Require Import Store StoreOps Place Threads RuntimeState Runtime RuntimeInv RuntimeCalm.
From S2P Require Import RuntimeCommit RuntimeThreads ServerState Server.

(** ** Bytes *)

Definition received_bytes (received : Received) : Prop :=
  match received with
  | RecvError => True
  | RecvBytes chunk => Forall u8_fits chunk
  end.

(** Everything that was received on a link is bytes. *)
Definition link_bytes (l : Link) : Prop :=
  Forall u8_fits (fs_buffer (con_stream (ln_connection l))) ∧
  Forall received_bytes (ln_received l).

Lemma pending_bytes s : Forall u8_fits (fs_buffer s) → Forall u8_fits (pending s).
Proof. apply Forall_drop. Qed.

Lemma next_bytes s : Forall u8_fits (fs_buffer s) →
  let '(result, s') := FrameStream_Next s in
  Forall u8_fits (fs_buffer s') ∧
  match result with Value (Some frame) => Forall u8_fits (fr_body frame) | _ => True end.
Proof.
  intros H%pending_bytes. rewrite FrameStream_Next_spec. cbv zeta.
  destruct (next_frame _ (pending s)) as [[[frame rest]|]|status] eqn:E; [|done|done].
  apply next_frame_exact in E as [E Hf]; [|done]. rewrite E in H.
  apply Forall_app in H as [_ H]. split; [done|by destruct Hf].
Qed.

Lemma receive_loop_bytes strerror received : ∀ stream,
  Forall received_bytes received → Forall u8_fits (fs_buffer stream) →
  let '(result, received', stream') := receive_loop strerror received stream in
  Forall received_bytes received' ∧ Forall u8_fits (fs_buffer stream') ∧
  match result with Some (Value frame) => Forall u8_fits (fr_body frame) | _ => True end.
Proof.
  induction received as [|r received IH]; intros stream Hr Hs; cbn [receive_loop];
    pose proof (next_bytes stream Hs) as Hn;
    destruct (FrameStream_Next stream) as [[[frame|]|status] stream'];
    destruct Hn as [Hs' Hf]; try done.
  apply Forall_cons in Hr as [Hr Hrs]. destruct r as [|[|b chunk]]; try done.
  apply IH; [done|]. cbn. by apply Forall_app.
Qed.

Lemma link_receive_bytes strerror l : link_bytes l →
  let '(result, l') := link_receive strerror l in
  link_bytes l' ∧
  match result with Some (Value frame) => Forall u8_fits (fr_body frame) | _ => True end.
Proof.
  intros [Hb Hr]. unfold link_receive, ReceiveFrame.
  destruct (con_open (ln_connection l)); cbn [negb]; [|done].
  pose proof (receive_loop_bytes strerror (ln_received l) (con_stream (ln_connection l)) Hr Hb) as H.
  destruct (receive_loop _ _ _) as [[result received] stream].
  destruct H as (H1 & H2 & H3). by split.
Qed.

(** ** The protocol *)

Record server_ok (s : ServerContext) : Prop := {
  so_coherent : coherent (sv_coordinator s);
  so_links i e : sv_entries s !! i = Some e → link_bytes (en_connection e);
}.

#[export] Program Instance server_protocol : Protocol (State := ServerContext) := {|
  inv := server_ok;
  guar h s s' := evolves h (sv_coordinator s) (sv_coordinator s');
  move h s s' := section_move h (sv_coordinator s) (sv_coordinator s');
|}.
Next Obligation.
  intros h. split.
  - intros s. reflexivity.
  - intros s1 s2 s3 H1 H2. by transitivity (sv_coordinator s2).
Qed.
Next Obligation. intros s s'. apply (guar_weaken (Protocol := coordinator_protocol)). Qed.

(** A thread that keeps to the protocol, gives back what it takes and answers
    something with a property. *)
Definition safe {A} (t : Thread A) (P : A → Prop) : Prop :=
  ∀ s, wp free t (λ a held _, held = free ∧ P a) s.

Definition any {A} (_ : A) : Prop := True.

Lemma safe_ret {A} (a : A) (P : A → Prop) : P a → safe (mret a) P.
Proof. by intros HP s s1 _ _. Qed.

Lemma safe_bind {A B} (t : Thread A) (k : A → Thread B) P Q :
  safe t P → (∀ a, P a → safe (k a) Q) → safe (t ≫= k) Q.
Proof.
  intros Ht Hk s. apply wp_bind. eapply wp_mono; [|apply Ht]. cbn. intros a held' s' _ [-> Ha].
  by apply Hk.
Qed.

(** A section that leaves the coordinator alone. *)
Lemma safe_wait {R} guard (section : ServerContext → R * ServerContext) (P : R → Prop) :
  (∀ s, server_ok s → guard s = true →
     let '(r, s') := section s in
     server_ok s' ∧ sv_coordinator s' = sv_coordinator s ∧ P r) →
  safe (wait guard section) P.
Proof.
  intros Hs s s1 Hr Hi. split; [done|]. intros Hg. specialize (Hs s1 Hi Hg).
  destruct (section s1) as [r s2]. destruct Hs as (Hi2 & He & HP).
  split; [done|]. split; [|split].
  - change (evolves false (sv_coordinator s1) (sv_coordinator s2)). rewrite He. reflexivity.
  - left. by rewrite He.
  - by intros s3 _ _.
Qed.

Lemma safe_locked {R} (section : ServerContext → R * ServerContext) (P : R → Prop) :
  (∀ s, server_ok s →
     let '(r, s') := section s in
     server_ok s' ∧ sv_coordinator s' = sv_coordinator s ∧ P r) →
  safe (locked section) P.
Proof. intros Hs. apply safe_wait. by intros s Hi _; apply Hs. Qed.

Lemma safe_update (f : ServerContext → ServerContext) :
  (∀ s, server_ok s → server_ok (f s) ∧ sv_coordinator (f s) = sv_coordinator s) →
  safe (update f) any.
Proof. intros Hf. apply safe_locked. intros s Hi. by destruct (Hf s Hi). Qed.

Lemma safe_peek {R} (f : ServerContext → R) : safe (peek f) any.
Proof. by apply safe_locked. Qed.

(** A thread of the coordinator. *)
Lemma wp_lift {A} (t : Thread (State := CoordinatorState) A) : ∀ held Q s,
  wp held t Q (sv_coordinator s) →
  wp held (lift t) (λ a held' s', Q a held' (sv_coordinator s')) s.
Proof.
  induction t as [a|R guard section next IH|m next IH|m next IH]; intros held Q s Hw.
  - intros s1 Hr Hi. apply Hw; [done|apply Hi].
  - intros s1 Hr Hi. destruct (Hw (sv_coordinator s1) Hr (so_coherent _ Hi)) as [Hg Hs].
    split; [done|]. intros E. specialize (Hs E).
    destruct (section (sv_coordinator s1)) as [r st]. destruct Hs as (Hi' & He & Hm & Hn).
    split_and!; [|done|done|].
    + constructor; [done|]. apply (so_links _ Hi).
    + by apply IH.
  - intros s1 Hr Hi. destruct (Hw (sv_coordinator s1) Hr (so_coherent _ Hi)) as [Hm Hn].
    split; [done|]. by apply IH.
  - intros s1 Hr Hi. destruct (Hw (sv_coordinator s1) Hr (so_coherent _ Hi)) as [Hm Hn].
    split; [done|]. by apply IH.
Qed.

Lemma safe_lift {A} (t : Thread (State := CoordinatorState) A) :
  meets free t (λ _, True) (λ _ _, True) → safe (lift t) any.
Proof.
  intros Ht s. apply wp_now. intros s1 _ Hi. eapply wp_mono; [|apply wp_lift, Ht; [apply Hi|done]].
  by intros a held' s' _ [-> _].
Qed.

(** ** Sections *)

Lemma server_ok_entries s f :
  server_ok s → (∀ e, link_bytes (en_connection e) → link_bytes (en_connection (f e))) →
  ∀ i, server_ok (upd_entry i f s).
Proof.
  intros [Hc Hl] Hf i. constructor; [done|]. intros j e. cbn.
  destruct (decide (j = i)) as [->|Hne].
  - rewrite list_lookup_alter_eq. intros (e0 & E & ->)%fmap_Some. apply Hf. by eapply Hl.
  - rewrite list_lookup_alter_ne by done. apply Hl.
Qed.

Lemma link_at_bytes i s : server_ok s → link_bytes (link_at i s).
Proof.
  intros [_ Hl]. unfold link_at, entry_at. destruct (sv_entries s !! i) as [e|] eqn:E.
  - rewrite (nth_lookup_Some _ _ _ _ E). by eapply Hl.
  - rewrite nth_overflow by (by apply lookup_ge_None). split; constructor.
Qed.

Lemma server_ok_link i l s : server_ok s → link_bytes l → server_ok (set_link i l s).
Proof. intros Hs Hl. by apply server_ok_entries. Qed.

Lemma server_ok_frame s s' : server_ok s →
  sv_coordinator s' = sv_coordinator s → sv_entries s' = sv_entries s → server_ok s'.
Proof. intros [Hc Hl] E1 E2. constructor; [by rewrite E1|by rewrite E2]. Qed.

Lemma close_link_frame i s : server_ok s →
  server_ok (close_link i s) ∧ sv_coordinator (close_link i s) = sv_coordinator s.
Proof.
  intros Hs. split; [|done]. apply server_ok_link; [done|]. apply (link_at_bytes i s Hs).
Qed.

(** Closing some of the connections of a list. *)
Lemma close_fold (which : ServerContext → nat → bool) open : ∀ s, server_ok s →
  let s' := foldl (λ s i, if which s i then close_link i s else s) s open in
  server_ok s' ∧ sv_coordinator s' = sv_coordinator s.
Proof.
  induction open as [|i open IH]; intros s Hs; [done|]. cbn [foldl].
  destruct (which s i); [|by apply IH].
  destruct (close_link_frame i s Hs) as [H1 H2]. rewrite <-H2. by apply IH.
Qed.

Lemma reap_connections_frame s : server_ok s →
  server_ok (reap_connections s) ∧ sv_coordinator (reap_connections s) = sv_coordinator s.
Proof.
  intros Hs. unfold reap_connections.
  destruct (close_fold (λ s i, en_done (entry_at i s)) (sv_open_connections s) s Hs) as [H1 H2].
  split; [|done]. by eapply server_ok_frame.
Qed.

Lemma close_connections_frame s : server_ok s →
  server_ok (close_connections s) ∧ sv_coordinator (close_connections s) = sv_coordinator s.
Proof. intros Hs. apply (close_fold (λ _ _, true) (sv_open_connections s) s Hs). Qed.

Lemma safe_log message : safe (log message) any.
Proof. apply safe_update. intros s Hs. split; [by apply (server_ok_frame s)|done]. Qed.

Lemma safe_count f : safe (count f) any.
Proof. apply safe_update. intros s Hs. split; [by apply (server_ok_frame s)|done]. Qed.

Lemma safe_stop stop : safe (update (sv_with_stop stop)) any.
Proof. apply safe_update. intros s Hs. split; [by apply (server_ok_frame s)|done]. Qed.

Definition frame_result (result : Result Frame) : Prop :=
  match result with Value frame => Forall u8_fits (fr_body frame) | Error _ => True end.

Lemma safe_receive strerror i : safe (receive_frame strerror i) frame_result.
Proof.
  apply safe_wait. intros s Hs _. unfold receive_now.
  pose proof (link_receive_bytes strerror (link_at i s) (link_at_bytes i s Hs)) as H.
  destruct (link_receive strerror (link_at i s)) as [result l]. destruct H as [Hl Hf].
  split_and!; [by apply server_ok_link|done|]. by destruct result as [[]|].
Qed.

Lemma safe_send strerror i frame : safe (send_frame strerror i frame) any.
Proof.
  apply safe_wait. intros s Hs _. unfold send_now, link_send.
  destruct (SendFrame _ _ _ _) as [status taken]. split_and!; [|done|done].
  apply server_ok_link; [done|]. apply (link_at_bytes i s Hs).
Qed.

Create HintDb safe.
#[export] Hint Resolve safe_log safe_count safe_stop safe_receive safe_send safe_peek : safe.
#[export] Hint Extern 1 (safe (SendError _ _ _ _ _ _) _) => apply safe_send : safe.
#[export] Hint Extern 1 (safe (SendPlaceResult _ _ _ _) _) => apply safe_send : safe.
#[export] Hint Extern 2 (safe (mret _) any) => by apply safe_ret : safe.

(** Runs the rules along a thread whose answers do not matter. *)
Ltac safely := cbv beta zeta; repeat first
  [ solve [eauto with safe]
  | eapply safe_bind; [solve [eauto with safe]|intros ? _]
  | case_match ].

(** ** Threads *)

Section Threads.
Context (strerror : string).

Lemma safe_epoch : safe (lift CurrentEpoch) any.
Proof. apply safe_lift, (meets_any_peek _ _ _). Qed.

Lemma safe_handshake i : safe (handshake strerror i) any.
Proof.
  assert (∀ hello, safe (answer_hello strerror i hello) any) as Hanswer.
  { intros hello. unfold answer_hello. eapply safe_bind; [apply safe_peek|intros options _].
    eapply safe_bind.
    { apply safe_update. intros s Hs. split; [|done]. apply server_ok_link; [done|].
      apply (link_at_bytes i s Hs). }
    intros _ _. eapply safe_bind; [apply safe_peek|intros coordinator _].
    eapply safe_bind; [apply safe_epoch|intros epoch _]. safely. }
  unfold handshake. eapply safe_bind; [apply safe_receive|intros [frame|status] _]; safely.
Qed.

Lemma safe_refuse i sequence status : safe (refuse_payload strerror i sequence status) any.
Proof. unfold refuse_payload. safely. Qed.

Lemma safe_answer_outcome i sequence outcome : safe (answer_outcome strerror i sequence outcome) any.
Proof.
  unfold answer_outcome. eapply (safe_bind _ _ any); [|intros ? _; safely]. case_match; safely.
Qed.

Lemma safe_serve_place i sequence body : safe (serve_place strerror i sequence body) any.
Proof.
  unfold serve_place. eapply safe_bind; [apply safe_peek|intros limits _].
  destruct (DecodePlaceRequest _ _) as [[payload rest]|status].
  - eapply safe_bind; [apply safe_epoch|intros epoch _]. case_match; [safely|].
    eapply safe_bind; [apply safe_lift, meets_PlaceNow|intros [outcome|status] _].
    + apply safe_answer_outcome.
    + safely.
  - eapply safe_bind; [apply safe_refuse|intros ? _]. safely.
Qed.

Lemma decoded_epoch body payload rest : Forall u8_fits body →
  DecodeEpochPayload (mkReader body 0) = Value (payload, rest) → u64_fits (epoch_epoch payload).
Proof.
  intros Hb Hd.
  destruct (accepts_epoch_payload (mkReader body 0) payload rest)
    as (bs & left & _ & _ & _ & Hf & _); [done|unfold ok_of; by rewrite Hd|].
  by apply Forall_cons in Hf as [Hf _].
Qed.

Lemma safe_serve_epoch i sequence body : Forall u8_fits body →
  safe (serve_epoch strerror i sequence body) any.
Proof.
  intros Hb. unfold serve_epoch.
  destruct (DecodeEpochPayload _) as [[payload rest]|status] eqn:E; [|apply safe_refuse].
  eapply safe_bind; [apply safe_lift, (meets_any_peek _ _ _)|intros authority _].
  eapply safe_bind; [apply safe_epoch|intros previous _].
  eapply safe_bind; [apply safe_lift, meets_SetAuthority|intros applied _].
  { by eapply decoded_epoch. }
  eapply safe_bind; [apply safe_epoch|intros epoch _]. safely.
Qed.

Lemma safe_answer i sequence frame : safe (answer strerror i sequence frame) any.
Proof. unfold answer. safely. Qed.

Lemma safe_serve_frame i sequence frame : Forall u8_fits (fr_body frame) →
  safe (serve_frame strerror i sequence frame) any.
Proof.
  intros Hb. unfold serve_frame. destruct (fr_kind frame); try apply safe_refuse.
  - apply safe_serve_place.
  - by apply safe_serve_epoch.
  - unfold serve_shutdown. eapply safe_bind; [apply safe_epoch|intros epoch _]. safely.
  - unfold serve_recovery. eapply safe_bind; [apply safe_lift, meets_consult|intros report _].
    apply safe_answer.
  - unfold serve_stats. eapply safe_bind; [apply safe_lift, (meets_any_peek _ _ _)|intros stats _].
    apply safe_answer.
Qed.

Lemma safe_serve_round i sequence : safe (serve_round strerror i sequence) any.
Proof.
  unfold serve_round. eapply safe_bind; [apply safe_peek|intros [] _]; [safely|].
  eapply safe_bind; [apply safe_receive|intros [frame|status] Hf].
  - by apply safe_serve_frame.
  - eapply (safe_bind _ _ any); [|intros ? _; safely]. case_match; safely.
Qed.

Lemma safe_leave i : safe (leave i) any.
Proof.
  unfold leave. eapply safe_bind; [apply safe_count|intros _ _].
  apply safe_update. intros s Hs. split; [|done]. by apply server_ok_entries.
Qed.

Lemma safe_go_on i outcome : safe (go_on i outcome) any.
Proof.
  destruct outcome as [sequence|]; cbn [go_on]; [safely|].
  eapply safe_bind; [apply safe_leave|intros _ _]. safely.
Qed.

Lemma safe_connection i : safe (connection_thread strerror i) any.
Proof.
  unfold connection_thread. eapply (safe_bind _ _ any).
  - apply safe_wait. intros s Hs _. split_and!; [|done|exact I]. by apply server_ok_entries.
  - intros _ _. eapply safe_bind; [apply safe_handshake|intros outcome _]. apply safe_go_on.
Qed.

Lemma safe_accepting : safe (accepting strerror) any.
Proof.
  unfold accepting. eapply (safe_bind _ _ any); [|intros again _; safely]. unfold accept_round.
  eapply safe_bind; [apply safe_peek|intros [] _]; [safely|].
  eapply safe_bind; [apply safe_update, reap_connections_frame|intros _ _].
  eapply (safe_bind _ _ any).
  { apply safe_locked. intros s Hs. unfold accept_connection.
    destruct (sv_arriving s) as [|[status|status|] arriving]; (split_and!; [|done|exact I]).
    - done.
    - by apply (server_ok_frame s).
    - by apply (server_ok_frame s).
    - destruct Hs as [Hc Hl]. constructor; [done|]. intros j e. cbn.
      rewrite lookup_app_Some, list_lookup_singleton_Some.
      intros [?|(_ & _ & <-)]; [by eapply Hl|]. split; constructor. }
  intros [|status|status|i] _; [safely..|].
  eapply safe_bind; [apply safe_peek|intros [] _].
  { eapply safe_bind; [apply safe_send|intros ? _]. eapply safe_bind; [apply safe_count|intros ? _].
    eapply safe_bind; [apply safe_log|intros ? _].
    eapply safe_bind; [apply safe_update, close_link_frame|intros ? _]. safely. }
  eapply safe_bind; [apply safe_count|intros _ _]. eapply (safe_bind _ _ any); [|intros _ _; safely].
  apply safe_update. intros s Hs. split; [|done].
  unfold start_connection. apply server_ok_entries; [|done]. by apply (server_ok_frame s).
Qed.

Lemma safe_stop_server : safe stop_server any.
Proof.
  unfold stop_server. eapply safe_bind; [apply safe_stop|intros _ _].
  eapply safe_bind; [apply safe_update, close_connections_frame|intros _ _].
  eapply (safe_bind _ _ any).
  { apply safe_wait. intros s Hs _. split_and!; [|done|exact I]. by apply (server_ok_frame s). }
  intros _ _. eapply safe_bind; [apply safe_peek|intros result _].
  eapply safe_bind; [apply safe_lift, meets_ShutdownInternal|intros shutdown _]. safely.
Qed.

Lemma safe_worker : safe (coordinator_thread worker) any.
Proof.
  unfold coordinator_thread. eapply safe_bind; [apply safe_lift|intros reply _; safely].
  eapply meets_bind; [apply meets_worker_round|]. intros again. by apply (meets_ret _ _ _ _).
Qed.

Lemma safe_ending : safe ending any.
Proof. unfold ending. eapply safe_bind; [apply safe_stop_server|intros result _; safely]. Qed.

Lemma safe_restart reply t : server_restart strerror reply = Some t → safe t any.
Proof.
  destruct reply as [reply|i sequence| |[]|result]; cbn [server_restart]; try done.
  - destruct (restart reply) as [t'|] eqn:E; [|done]. intros [= <-].
    destruct reply as [| | | | | | |[]]; try done. injection E as <-. apply safe_worker.
  - intros [= <-]. unfold connection_round. eapply safe_bind; [apply safe_serve_round|].
    intros outcome _. apply safe_go_on.
  - intros [= <-]. apply safe_accepting.
  - intros [= <-]. apply safe_ending.
Qed.

Lemma happens_ok what s : server_ok s →
  server_ok (happens what s) ∧
  evolves false (sv_coordinator s) (sv_coordinator (happens what s)) ∧
  section_move false (sv_coordinator s) (sv_coordinator (happens what s)).
Proof.
  intros Hs. destruct what as [now|i received|i sends|arrival]; cbn [happens].
  - destruct (pass_ok now (sv_coordinator s)) as (H1 & H2 & H3); [apply Hs|].
    split_and!; [|done|done]. constructor; [done|]. apply (so_links _ Hs).
  - destruct (receivable received) eqn:E; [|split_and!; [done|reflexivity|by left]].
    split_and!; [|reflexivity|by left]. apply server_ok_link; [done|].
    destruct (link_at_bytes i s Hs) as [H1 H2]. split; [done|]. cbn.
    apply Forall_app. split; [done|]. apply Forall_singleton. destruct received as [|chunk]; [done|].
    cbn in *. apply forallb_Forall in E. eapply Forall_impl; [exact E|]. cbn. intros b Hb. by b2p.
  - split_and!; [|reflexivity|by left]. apply server_ok_link; [done|]. apply (link_at_bytes i s Hs).
  - split_and!; [|reflexivity|by left]. by apply (server_ok_frame s).
Qed.

(** ** Reachable servers *)

Lemma safe_done {A} (t : Thread A) P s : safe t P → wp free t (λ _ held _, held = free) s.
Proof. intros Ht. eapply wp_mono; [|apply Ht]. by intros a held' s' _ [-> _]. Qed.

Lemma server_disciplined s sys : server_ok s → server_reaches strerror s sys → disciplined sys.
Proof.
  intros Hs Hr. eapply reachable_disciplined; [..|exact Hr].
  - intros i s1 _. eapply safe_done, safe_connection.
  - intros reply t s1 E. by eapply safe_done, safe_restart.
  - apply happens_ok.
  - constructor; [done|done|]. intros i t. cbn [server_system sys_threads].
    rewrite lookup_app_Some, list_lookup_singleton_Some.
    intros [[-> _]%lookup_replicate_1|(_ & _ & <-)]; eapply safe_done;
      [apply safe_worker|apply safe_accepting].
Qed.

Lemma server_step s sys e sys' : server_ok s → server_reaches strerror s sys →
  server_schedule strerror [e] sys = Some sys' →
  server_ok (sys_state sys') ∧
  evolves true (sv_coordinator (sys_state sys)) (sv_coordinator (sys_state sys')) ∧
  ∃ h, section_move h (sv_coordinator (sys_state sys)) (sv_coordinator (sys_state sys')).
Proof.
  intros Hs Hr Hx. cbn in Hx. destruct (exec _ _ _ e sys) as [sys1|] eqn:E; [|done].
  injection Hx as ->. eapply (disciplined_step (connection_thread strerror) (server_restart strerror) happens
    (λ _, True)) in E as (Hd & h & Hg & Hm); first last.
  - by eapply server_disciplined.
  - by destruct e.
  - apply happens_ok.
  - intros reply t s1 E'. by eapply safe_done, safe_restart.
  - intros i s1 _. eapply safe_done, safe_connection.
  - split_and!; [apply Hd| |].
    + destruct h; [done|by apply evolves_any].
    + exists h. destruct Hm as [Hm|Hm]; [done|]. left. by rewrite Hm.
Qed.
End Threads.
