(* ===== verification/Worker.v ===== *)
(** * The worker's side of the handshake

    [ConnectWorker] of [server.cpp].  The calls of [TcpConnection::Connect] are a
    parameter: their results, in order, a successful one with what [recv] and [send]
    will answer on it. *)

From Stdlib Require Import String.
From S2P Require Import Prelude StdAlgo Checked Status Bytes Hash Model ModelDigest Validate.
From S2P Require Import Explain Records Codec Wire Transport Store StoreOps Place.
From S2P Require Import Threads RuntimeState Runtime ServerState Server.

Record WorkerOptions := mkWorkerOptions {
  wo_address : string;
  wo_port : N;
  wo_epoch : N;
  wo_worker : N;
  wo_max_frame_bytes : N;
  wo_connect_attempts : N;
  wo_connect_retry_millis : N;
}.

Record WorkerResult := mkWorkerResult {
  wr_handshake_accepted : bool;
  wr_handshake_code : StatusCode;
  wr_handshake_message : string;
  wr_coordinator : N;
  wr_coordinator_epoch : N;
  wr_placements_committed : N;
  wr_placements_rejected : N;
  wr_responses_fenced : N;
  wr_responses_other : N;
}.

Definition WorkerResult_init : WorkerResult := mkWorkerResult false StatusCode.kOk "" 0 0 0 0 0 0.

(** The loop of connection attempts; [None] where [Connect] never returns. *)
Fixpoint connect_loop (attempts : nat) (candidates : list (Result Link)) (last_status : Status)
    : option (Result Link) :=
  match attempts with
  | O => Some (Error last_status)
  | S attempts =>
      match candidates with
      | [] => None
      | Value connection :: _ => Some (Value connection)
      | Error status :: candidates => connect_loop attempts candidates status
      end
  end.

Definition worker_hello (options : WorkerOptions) (process : N) : HelloPayload :=
  mkHello kWireProtocolVersion process (wo_epoch options) (wo_worker options)
    (wo_max_frame_bytes options) (kProjectName ++ " " ++ kVersionString).

Definition hello_frame (hello : HelloPayload) : Frame :=
  mkFrame FrameKind.kHello 0 1 (EncodeHello hello []).

(** A connection that was moved: the stream is a new one, without the bytes it had. *)
Definition link_moved (l : Link) : Link :=
  let c := ln_connection l in
  let max_frame_bytes := con_max_frame_bytes c in
  ln_with_connection
    (mkConnection (con_open c) (FrameStream_init max_frame_bytes) max_frame_bytes) l.

(** The fields of the result a decoded answer fills in. *)
Definition worker_result (ack : HelloAckPayload) : WorkerResult :=
  mkWorkerResult (ack_accepted ack) (ack_code ack) (ack_message ack) (ack_coordinator ack)
    (ack_epoch ack) 0 0 0 0.

(** [ConnectWorker] after the [HELLO_ACK] was decoded. *)
Definition finish_handshake (options : WorkerOptions) (ack : HelloAckPayload) (connection : Link)
    : Result Link :=
  let connection :=
    link_bound (N.min (wo_max_frame_bytes options) (ack_max_frame_bytes ack)) connection in
  if negb (ack_accepted ack) then
    Error (mkStatus
      (if StatusCode_eqb (ack_code ack) StatusCode.kOk then StatusCode.kProtocolMismatch
       else ack_code ack)
      (if String.eqb (ack_message ack) "" then "handshake rejected" else ack_message ack))
  else Value (link_moved connection).

(** [None] where a call never returns. *)
Definition ConnectWorker (strerror : string) (options : WorkerOptions) (process : N)
    (candidates : list (Result Link)) : option (Result Link) * WorkerResult :=
  let out := WorkerResult_init in
  match connect_loop (N.to_nat (N.max 1 (wo_connect_attempts options))) candidates
          (mkStatus StatusCode.kIoError "connect was not attempted") with
  | None => (None, out)
  | Some (Error status) => (Some (Error status), out)
  | Some (Value connection) =>
      match link_send strerror (hello_frame (worker_hello options process)) connection with
      | (None, _) => (None, out)
      | (Some sent, connection) =>
          if negb (status_ok sent) then (Some (Error sent), out) else
          match link_receive strerror connection with
          | (None, _) => (None, out)
          | (Some (Error status), _) => (Some (Error status), out)
          | (Some (Value reply), connection) =>
              if negb (bool_decide (fr_kind reply = FrameKind.kHelloAck)) then
                (Some (Error (mkStatus StatusCode.kWireMalformed "expected HELLO_ACK")), out)
              else
                match DecodeHelloAck (mkReader (fr_body reply) 0) with
                | Error status => (Some (Error status), out)
                | Value (ack, _) =>
                    (Some (finish_handshake options ack connection), worker_result ack)
                end
          end
      end
  end.
