(* ===== verification/ServerAlone.v ===== *)
(** * A request without interference

    What a connection answers to a placement request where no other thread runs:
    the bytes that arrive, the decision and the bytes that are sent; and the handshake
    from both ends. *)

From Stdlib Require Import String.
From S2P Require Import Prelude StdAlgo Checked Status Bytes Hash Model ModelDigest Validate.
From S2P Require Import Explain Records Codec CodecFacts Wire Transport WireFacts.
From S2P Require Import Store StoreOps Place Threads RuntimeState Runtime RuntimeInv RuntimeCalm.
From S2P Require Import RuntimeAlone ServerState Server Worker.

Lemma alone_lift {A} (t : Thread (State := CoordinatorState) A) : ∀ s,
  alone (lift t) s = '(a, st) ← alone t (sv_coordinator s); Some (a, sv_with_coordinator st s).
Proof.
  induction t as [a|R guard section next IH|m next IH|m next IH]; intros s; cbn [lift alone].
  - by destruct s.
  - destruct (guard (sv_coordinator s)); [|done].
    destruct (section (sv_coordinator s)) as [r st]. by rewrite IH.
  - apply IH.
  - apply IH.
Qed.

Section Link.
Context (strerror : string) (max : N).
Context (Hmin : kMinMaxFrameBytes ≤ max) (Hmax : u32_fits max).

(** An open connection with a negotiated bound. *)
Record negotiated (l : Link) : Prop := {
  ng_open : con_open (ln_connection l) = true;
  ng_bound : con_max_frame_bytes (ln_connection l) = max;
  ng_stream : fs_max_frame_bytes (con_stream (ln_connection l)) = max;
}.

(** A frame has arrived, in whatever pieces, before anything else. *)
Definition arrives (f : Frame) (l : Link) : Prop :=
  ∃ chunks more rest, ln_received l = (RecvBytes <$> chunks) ++ more ∧ Forall (.≠ []) chunks ∧
    pending (con_stream (ln_connection l)) ++ mjoin chunks = frame_bytes f ++ rest.

(** The kernel takes something in each of at least [n] calls. *)
Definition takes (n : N) (l : Link) : Prop :=
  Forall (.≠ 0) (hd [] (ln_sends l)) ∧ n ≤ size (hd [] (ln_sends l)).

Lemma link_receives f l : negotiated l → arrives f l → frame_fits max f → ∃ l',
  link_receive strerror l = (Some (Value f), l') ∧ negotiated l' ∧
  ln_sends l' = ln_sends l ∧ ln_sent l' = ln_sent l.
Proof.
  intros [Ho Hb Hs] (chunks & more & rest & Hr & Hc & Hp) Hf.
  unfold link_receive, ReceiveFrame. rewrite Ho. cbn [negb].
  pose proof (receive_loop_spec strerror chunks more (con_stream (ln_connection l)) Hc) as H.
  cbv zeta in H. rewrite Hs, Hp, next_frame_bytes in H by done.
  destruct H as (left & stream & E & _ & _ & Hm). rewrite Hr, E.
  eexists. split_and!; [done| |done|done]. constructor; cbn; congruence.
Qed.

Lemma link_sends f l : negotiated l → size (fr_body f) ≤ max → takes (size (fr_body f) + 20) l →
  ∃ l', link_send strerror f l = (Some Status_Ok, l') ∧ negotiated l' ∧
    ln_sent l' = ln_sent l ++ frame_bytes f.
Proof.
  intros Hn Hb [Hs Hl]. pose proof Hn as [Ho Hm _]. unfold link_send, SendFrame.
  rewrite Ho. cbn [negb]. rewrite Hm, EncodeFrame_bytes, send_loop_all by
    (done || (pose proof (frame_bytes_size f); unfold size in *; lia)).
  eexists. split_and!; [done| |done]. by destruct Hn.
Qed.

Lemma link_at_set i l s : (i < length (sv_entries s))%nat → link_at i (set_link i l s) = l.
Proof.
  intros [e E]%lookup_lt_is_Some. unfold link_at, entry_at, set_link, upd_entry. cbn.
  erewrite nth_lookup_Some; [|by rewrite list_lookup_alter_eq, E]. done.
Qed.

Lemma link_at_upd i f s : (∀ e, en_connection (f e) = en_connection e) →
  link_at i (upd_entry i f s) = link_at i s.
Proof.
  intros Hf. unfold link_at, entry_at, upd_entry. cbn. rewrite !nth_lookup, list_lookup_alter_eq.
  by destruct (sv_entries s !! i); cbn; rewrite ?Hf.
Qed.

(** The end of a connection's thread. *)
Lemma leave_alone i s : ∃ s', alone (go_on i None) s = Some (Served, s') ∧
  link_at i s' = link_at i s.
Proof.
  cbn [go_on]. unfold leave. rewrite !alone_bind. unfold count. rewrite alone_update.
  cbn [mbind option_bind]. rewrite alone_update. cbn [mbind option_bind]. rewrite alone_ret.
  eexists. split; [done|]. by rewrite link_at_upd.
Qed.

Lemma receive_alone i f s : negotiated (link_at i s) → arrives f (link_at i s) → frame_fits max f →
  ∃ l', alone (receive_frame strerror i) s = Some (Value f, set_link i l' s) ∧ negotiated l' ∧
    ln_sends l' = ln_sends (link_at i s) ∧ ln_sent l' = ln_sent (link_at i s).
Proof.
  intros Hn Ha Hf. destruct (link_receives f _ Hn Ha Hf) as (l' & E & H). exists l'. split; [|done].
  unfold receive_frame, wait, receive_now. cbn [alone]. by rewrite E.
Qed.

Lemma send_alone i f s : negotiated (link_at i s) → size (fr_body f) ≤ max →
  takes (size (fr_body f) + 20) (link_at i s) →
  ∃ l', alone (send_frame strerror i f) s = Some (Status_Ok, set_link i l' s) ∧ negotiated l' ∧
    ln_sent l' = ln_sent (link_at i s) ++ frame_bytes f.
Proof.
  intros Hn Hb Ht. destruct (link_sends f _ Hn Hb Ht) as (l' & E & H). exists l'. split; [|done].
  unfold send_frame, wait, send_now. cbn [alone]. by rewrite E.
Qed.
End Link.

(** ** A placement request *)

Section Request.
Context (strerror : string) (max : N) (s : ServerContext) (i : nat) (sequence : N).
Context (payload : PlaceRequestPayload) (frame : Frame).
Let st := sv_coordinator s.
Let request := bound_request payload.
Let attempt := preq_attempt payload.
Let limits := opt_limits (co_options st).

(** The frame that answers. *)
Definition place_answer : Frame :=
  match start_store st request attempt (co_store st) with
  | Error status =>
      error_frame (status_code status) attempt (status_message status) (next_sequence sequence)
  | Value store =>
      result_frame (expected_outcome st request attempt store) (next_sequence sequence)
  end.

(** The request was the last one this server serves. *)
Definition enough_served : bool :=
  match start_store st request attempt (co_store st) with
  | Error _ => false
  | Value _ =>
      negb (svo_max_requests (sv_options s) =? 0) &&
      (svo_max_requests (sv_options s) <=? wrap 64 (sc_requests_served (sv_counters s) + 1))
  end.

Context (Hmin : kMinMaxFrameBytes ≤ max) (Hmax : u32_fits max).
Context (Hentry : (i < length (sv_entries s))%nat).
Context (Hnegotiated : negotiated max (link_at i s)).
Context (Harrives : arrives frame (link_at i s)) (Hframe : frame_fits max frame).
Context (Hkind : fr_kind frame = FrameKind.kPlaceRequest).
Context (Hbody : fr_body frame = EncodePlaceRequest payload []).
Context (Hpayload : place_request_fits limits payload).
Context (Hstop : sv_stop s = false).
Context (Hcurrent : preq_epoch payload = co_epoch st).
Context (Hc : coherent st).
Context (Hcheck : status_ok (check_submission request attempt limits) = true).
Context (Hrun : is_running st = true).
Context (Hepoch : exp_fabric_epoch (rq_expected request) = co_epoch st).
Context (Hfresh : co_slots st !! attempt = None).
Context (Hfits : size (fr_body place_answer) ≤ max).
Context (Htakes : takes (size (fr_body place_answer) + 20) (link_at i s)).

Lemma serve_place_alone l1 :
  negotiated max l1 → ln_sends l1 = ln_sends (link_at i s) → ln_sent l1 = ln_sent (link_at i s) →
  ∃ s', alone (serve_place strerror i sequence (fr_body frame)) (set_link i l1 s) =
      Some (if enough_served then None else Some (next_sequence sequence), s') ∧
    ln_sent (link_at i s') = ln_sent (link_at i s) ++ frame_bytes place_answer.
Proof.
  intros Hn1 Hs1 Ht1. set (s1 := set_link i l1 s).
  assert (sv_coordinator s1 = st) as Est by done.
  assert (link_at i s1 = l1) as El1 by (by apply link_at_set).
  assert (takes (size (fr_body place_answer) + 20) l1) as Htk.
  { unfold takes in *. by rewrite Hs1. }
  assert (∀ s2, (length (sv_entries s2) = length (sv_entries s))%nat → link_at i s2 = l1 →
    ∃ s', alone (send_frame strerror i place_answer) s2 = Some (Status_Ok, s') ∧
      sv_options s' = sv_options s2 ∧ sv_counters s' = sv_counters s2 ∧
      ln_sent (link_at i s') = ln_sent (link_at i s) ++ frame_bytes place_answer) as Hsend.
  { intros s2 Hlen E2. destruct (send_alone strerror max Hmin Hmax i place_answer s2)
      as (l2 & Ha & _ & Hsent); [by rewrite E2|done|by rewrite E2|].
    exists (set_link i l2 s2). split_and!; [done..|].
    rewrite link_at_set by (by rewrite Hlen). by rewrite Hsent, E2, Ht1. }
  unfold serve_place. rewrite alone_bind, alone_peek. cbn [mbind option_bind].
  rewrite Est. fold limits. rewrite Hbody.
  change (EncodePlaceRequest payload []) with (bytes_of (EncodePlaceRequest payload)).
  rewrite (decodes_all_run _ _ _ (DecodePlaceRequest_inverts limits payload Hpayload)).
  rewrite alone_bind, alone_lift. unfold CurrentEpoch. rewrite alone_peek. cbn [mbind option_bind].
  change (sv_with_coordinator (sv_coordinator s1) s1) with s1. rewrite Est, Hcurrent, N.eqb_refl.
  cbn [negb]. rewrite alone_bind, alone_lift, Est.
  pose proof (PlaceNow_alone st request attempt Hc Hcheck Hrun Hepoch Hfresh) as Hplace.
  unfold place_answer, enough_served in *. fold request attempt.
  destruct (start_store st request attempt (co_store st)) as [store|status].
  - destruct Hplace as (ref & st' & -> & _). cbn [mbind option_bind].
    set (outcome := expected_outcome st request attempt store) in *.
    set (s2 := sv_with_coordinator st' s1). unfold answer_outcome. rewrite alone_bind.
    assert (∃ s3, alone (if bool_decide (ao_state outcome = AttemptState.kCommitted)
                         then count count_committed else mret tt) s2 = Some (tt, s3) ∧
      length (sv_entries s3) = length (sv_entries s) ∧ link_at i s3 = l1 ∧
      sv_options s3 = sv_options s ∧
      sc_requests_served (sv_counters s3) = sc_requests_served (sv_counters s))
      as (s3 & -> & Hlen & E3 & Ho & Hserved).
    { assert (length (sv_entries s2) = length (sv_entries s)) as Hlen by apply length_alter.
      case_bool_decide; [unfold count; rewrite alone_update|rewrite alone_ret]; (eexists; by split_and!). }
    cbn [mbind option_bind]. rewrite alone_bind. unfold SendPlaceResult.
    destruct (Hsend s3 Hlen E3) as (s4 & -> & Ho4 & Hc4 & Hsent). cbn [mbind option_bind].
    rewrite alone_bind. unfold count. rewrite alone_update. cbn [mbind option_bind].
    change (negb (status_ok Status_Ok)) with false. cbn match.
    rewrite alone_bind, alone_peek. cbn [mbind option_bind].
    change (sv_options (bump count_served s4)) with (sv_options s4).
    change (sc_requests_served (sv_counters (bump count_served s4)))
      with (wrap 64 (sc_requests_served (sv_counters s4) + 1)).
    rewrite Ho4, Hc4, Ho, Hserved.
    destruct (negb _ && _); [rewrite alone_bind, alone_update; cbn [mbind option_bind]|];
      rewrite alone_ret; by eexists.
  - destruct Hplace as (st' & ->). cbn [mbind option_bind]. rewrite alone_bind. unfold SendError.
    destruct (Hsend (sv_with_coordinator st' s1)) as (s2 & -> & _ & _ & Hsent);
      [apply length_alter|done|]. cbn [mbind option_bind]. rewrite alone_bind. unfold log.
    rewrite alone_update. cbn [mbind option_bind]. rewrite alone_ret. by eexists.
Qed.

Lemma serve_round_alone :
  ∃ s', alone (serve_round strerror i sequence) s =
      Some (if enough_served then None else Some (next_sequence sequence), s') ∧
    ln_sent (link_at i s') = ln_sent (link_at i s) ++ frame_bytes place_answer.
Proof.
  unfold serve_round. rewrite alone_bind, alone_peek. cbn [mbind option_bind]. rewrite Hstop.
  destruct (receive_alone strerror max Hmax i frame s Hnegotiated Harrives Hframe)
    as (l1 & Ha & Hn1 & Hs1 & Ht1).
  rewrite alone_bind, Ha. cbn [mbind option_bind]. unfold serve_frame. rewrite Hkind.
  by apply serve_place_alone.
Qed.
End Request.

(** * The handshake

    The bytes of HELLO and HELLO_ACK, the connection thread's side of the handshake
    where no other thread runs, and the worker's side over the bytes it is answered. *)

(** ** The bytes *)

Lemma hello_body v : EncodeHello v [] =
  le_bytes 4 (hello_protocol_version v) ++ le_bytes 8 (hello_incarnation v) ++
  le_bytes 8 (hello_epoch v) ++ le_bytes 8 (hello_worker v) ++
  le_bytes 4 (hello_max_frame_bytes v) ++
  le_bytes 4 (wrap 32 (string_size (hello_build v))) ++ string_bytes (hello_build v).
Proof.
  unfold EncodeHello, wString, wU32, wU64, wBytes. by rewrite <-!app_assoc.
Qed.

Lemma hello_ack_body v : EncodeHelloAck v [] =
  le_bytes 4 (ack_protocol_version v) ++ le_bytes 8 (ack_coordinator v) ++
  le_bytes 8 (ack_epoch v) ++ le_bytes 4 (ack_max_frame_bytes v) ++
  le_bytes 4 (ack_worker_limit v) ++
  le_bytes 4 (wrap 32 (string_size (ack_build v))) ++ string_bytes (ack_build v) ++
  [wrap 8 (if ack_accepted v then 1 else 0)] ++ le_bytes 2 (code_value (ack_code v)) ++
  le_bytes 4 (wrap 32 (string_size (ack_message v))) ++ string_bytes (ack_message v).
Proof.
  unfold EncodeHelloAck, wString, wU32, wU64, wBytes, wFlag, wU8, wU16. rewrite u16_bytes.
  by rewrite <-!app_assoc.
Qed.

Lemma string_bytes_u8 s : Forall u8_fits (string_bytes s).
Proof.
  unfold string_bytes. apply Forall_fmap, Forall_true. intros a. apply Ascii.N_ascii_bounded.
Qed.

#[local] Hint Resolve le_bytes_u8 string_bytes_u8 : core.

Lemma hello_body_bytes v : Forall u8_fits (EncodeHello v []).
Proof. rewrite hello_body, !Forall_app. by split_and!. Qed.

Lemma hello_ack_body_bytes v : Forall u8_fits (EncodeHelloAck v []).
Proof. rewrite hello_ack_body, !Forall_app, Forall_singleton. by split_and!. Qed.

Lemma hello_body_size v : size (EncodeHello v []) = 36 + string_size (hello_build v).
Proof.
  rewrite hello_body. unfold size. rewrite !length_app, !le_bytes_length.
  pose proof (string_bytes_length (hello_build v)). lia.
Qed.

Lemma hello_ack_body_size v :
  size (EncodeHelloAck v []) = 39 + string_size (ack_build v) + string_size (ack_message v).
Proof.
  rewrite hello_ack_body. unfold size. rewrite !length_app, !le_bytes_length. cbn [length].
  pose proof (string_bytes_length (ack_build v)). pose proof (string_bytes_length (ack_message v)).
  lia.
Qed.

(** What a worker's HELLO and the answer to it need on the wire. *)
Definition kHandshakeBytes : N := 128.

Section Handshake.
Context (strerror : string) (options : WorkerOptions) (server : ServerOptions).
Context (process coordinator epoch : N).
Context (Hprocess : u64_fits process) (Hcoordinator : u64_fits coordinator).
Context (Hepoch : u64_fits epoch) (Hwepoch : u64_fits (wo_epoch options)).
Context (Hworker : u64_fits (wo_worker options)).
Context (Hwmax : u32_fits (wo_max_frame_bytes options)).
Context (Hwmin : kMinMaxFrameBytes ≤ wo_max_frame_bytes options).
Context (Hsmax : u32_fits (svo_max_frame_bytes server)).
Context (Hsmin : kMinMaxFrameBytes ≤ svo_max_frame_bytes server).
Context (Hlimit : u32_fits (svo_max_connections server)).

Let hello := worker_hello options process.
Let ack := hello_ack server coordinator epoch hello.
Let bound := N.min (wo_max_frame_bytes options) (svo_max_frame_bytes server).

Lemma bound_min : kMinMaxFrameBytes ≤ bound.
Proof. by apply N.min_glb. Qed.

Lemma bound_fits : u32_fits bound.
Proof. unfold uint_fits in *. lia. Qed.

(** The answer, and whether the worker is let in. *)
Lemma ack_spec : ack =
  mkHelloAck kWireProtocolVersion coordinator epoch bound (svo_max_connections server)
    (kProjectName ++ " " ++ kVersionString) (wo_epoch options =? epoch)
    (if wo_epoch options =? epoch then StatusCode.kOk else StatusCode.kStaleFabricEpoch)
    (if wo_epoch options =? epoch then "" else "worker epoch is not the coordinator epoch").
Proof. unfold ack, hello_ack. cbn. by destruct (wo_epoch options =? epoch). Qed.

Lemma hello_fits_options : hello_fits hello.
Proof. unfold hello_fits, text_fits. rewrite !Forall_cons. by split_and!. Qed.

Lemma ack_fits : hello_ack_fits ack.
Proof.
  rewrite ack_spec. unfold hello_ack_fits, text_fits. rewrite !Forall_cons.
  split_and!; try done; [apply bound_fits|apply bound_min|by cbn; case_match..].
Qed.

Lemma hello_frame_size : size (fr_body (hello_frame hello)) + 20 ≤ kHandshakeBytes.
Proof. cbn [hello_frame fr_body]. by rewrite hello_body_size. Qed.

Lemma ack_frame_size sequence : size (fr_body (ack_frame ack sequence)) + 20 ≤ kHandshakeBytes.
Proof. cbn [ack_frame fr_body]. rewrite hello_ack_body_size, ack_spec. by cbn; case_match. Qed.

Lemma hello_frame_fits max : kMinMaxFrameBytes ≤ max → frame_fits max (hello_frame hello).
Proof.
  intros Hm. pose proof hello_frame_size as H. unfold kHandshakeBytes, kMinMaxFrameBytes in *.
  split; [done|done|lia|apply hello_body_bytes].
Qed.

Lemma ack_frame_fits max sequence : kMinMaxFrameBytes ≤ max → u64_fits sequence →
  frame_fits max (ack_frame ack sequence).
Proof.
  intros Hm Hs. pose proof (ack_frame_size sequence) as H.
  unfold kHandshakeBytes, kMinMaxFrameBytes in *. split; [done|done|lia|apply hello_ack_body_bytes].
Qed.

Lemma takes_less m n l : m ≤ n → takes n l → takes m l.
Proof. intros H [H1 H2]. split; [done|lia]. Qed.

Lemma negotiated_bound max n l : negotiated max l → negotiated n (link_bound n l).
Proof. by intros [Ho _ _]. Qed.

Lemma negotiated_moved max l : negotiated max l → negotiated max (link_moved l).
Proof. by intros [Ho Hb _]. Qed.

(** ** The server's side *)

Lemma handshake_alone s i :
  sv_options s = server → co_incarnation (sv_coordinator s) = coordinator →
  co_epoch (sv_coordinator s) = epoch → (i < length (sv_entries s))%nat →
  negotiated kDefaultMaxFrameBytes (link_at i s) → arrives (hello_frame hello) (link_at i s) →
  takes kHandshakeBytes (link_at i s) →
  ∃ s', alone (handshake strerror i) s =
      Some (if ack_accepted ack then Some 1 else None, s') ∧
    ln_sent (link_at i s') = ln_sent (link_at i s) ++ frame_bytes (ack_frame ack 1) ∧
    negotiated bound (link_at i s') ∧ sv_coordinator s' = sv_coordinator s ∧
    sv_counters s' =
      (if ack_accepted ack then count_connections else count_refusal ack) (sv_counters s).
Proof.
  intros Ho Hi He Hlen Hn Ha Ht.
  destruct (receive_alone strerror kDefaultMaxFrameBytes ltac:(done) i (hello_frame hello) s Hn Ha)
    as (l1 & Hrec & Hn1 & Hs1 & Ht1); [by apply hello_frame_fits|].
  unfold handshake. rewrite alone_bind, Hrec. cbn [mbind option_bind].
  change (negb (bool_decide (fr_kind (hello_frame hello) = FrameKind.kHello))) with false. cbn match.
  change (fr_body (hello_frame hello)) with (bytes_of (EncodeHello hello)).
  rewrite (decodes_all_run _ _ _ (DecodeHello_inverts hello hello_fits_options)).
  unfold answer_hello. rewrite alone_bind, alone_peek. cbn [mbind option_bind].
  rewrite alone_bind, alone_update. cbn [mbind option_bind].
  rewrite alone_bind, alone_peek. cbn [mbind option_bind].
  rewrite alone_bind, alone_lift. unfold CurrentEpoch. rewrite alone_peek. cbn [mbind option_bind].
  change (sv_options (set_link i l1 s)) with (sv_options s). rewrite Ho.
  change (N.min (hello_max_frame_bytes hello) (svo_max_frame_bytes server)) with bound.
  rewrite link_at_set by done. set (s2 := set_link i (link_bound bound l1) (set_link i l1 s)).
  change (sv_with_coordinator (sv_coordinator s2) s2) with s2.
  change (sv_coordinator s2) with (sv_coordinator s). rewrite Hi, He.
  change (hello_ack server coordinator epoch hello) with ack.
  rewrite alone_bind. unfold count. rewrite alone_update. cbn [mbind option_bind].
  set (s3 := bump (count_refusal ack) s2).
  assert (link_at i s3 = link_bound bound l1) as E3.
  { change (link_at i s2 = link_bound bound l1). apply link_at_set. cbn. by rewrite length_alter. }
  pose proof (ack_frame_size (next_sequence 0)) as Hsz.
  destruct (send_alone strerror bound bound_min bound_fits i (ack_frame ack (next_sequence 0)) s3)
    as (l4 & Hsend & Hn4 & Ht4).
  { rewrite E3. by eapply negotiated_bound. }
  { pose proof bound_min. unfold kMinMaxFrameBytes, kHandshakeBytes in *. lia. }
  { rewrite E3. eapply takes_less; [exact Hsz|]. unfold takes. cbn. by rewrite Hs1. }
  rewrite alone_bind, Hsend. cbn [mbind option_bind].
  change (negb (status_ok Status_Ok)) with false. cbn match.
  rewrite alone_bind. unfold log. rewrite alone_update. cbn [mbind option_bind].
  assert (length (sv_entries s3) = length (sv_entries s)) as Hl3 by (cbn; by rewrite !length_alter).
  assert (link_at i (set_link i l4 s3) = l4) as E4 by (apply link_at_set; by rewrite Hl3).
  destruct (ack_accepted ack) eqn:Eacc; cbn [negb].
  - rewrite alone_bind, alone_update. cbn [mbind option_bind]. rewrite alone_ret.
    eexists. split; [done|].
    change (link_at i (bump count_connections (log_line (handshake_line ack hello) (set_link i l4 s3))))
      with (link_at i (set_link i l4 s3)). rewrite E4, Ht4, E3. split_and!; [by cbn; rewrite Ht1|done|done|].
    change (count_connections (count_refusal ack (sv_counters s)) = count_connections (sv_counters s)).
    unfold count_refusal. by rewrite Eacc.
  - rewrite alone_ret. eexists. split; [done|].
    change (link_at i (log_line (handshake_line ack hello) (set_link i l4 s3)))
      with (link_at i (set_link i l4 s3)). rewrite E4, Ht4, E3. by split_and!; [cbn; rewrite Ht1| | |].
Qed.

(** ** The worker's side *)

Lemma connect_loop_finds connection more errors : ∀ attempts last,
  (length errors < attempts)%nat →
  connect_loop attempts ((Error <$> errors) ++ Value connection :: more) last =
  Some (Value connection).
Proof.
  induction errors as [|status errors IH]; intros [|attempts] last H; cbn in *; try lia; [done|].
  apply IH. lia.
Qed.

Lemma ConnectWorker_answered connection errors more :
  size errors < N.max 1 (wo_connect_attempts options) →
  negotiated (wo_max_frame_bytes options) connection → arrives (ack_frame ack 1) connection →
  takes kHandshakeBytes connection →
  ∃ connection',
    ConnectWorker strerror options process ((Error <$> errors) ++ Value connection :: more) =
      (Some (if wo_epoch options =? epoch then Value connection'
             else Error (mkStatus StatusCode.kStaleFabricEpoch
                           "worker epoch is not the coordinator epoch")), worker_result ack) ∧
    ln_sent connection' = ln_sent connection ++ frame_bytes (hello_frame hello) ∧
    negotiated bound connection'.
Proof.
  intros He Hn Ha Ht. unfold ConnectWorker. rewrite connect_loop_finds by (unfold size in *; lia).
  fold hello. pose proof hello_frame_size as Hsz.
  pose proof (takes_less _ _ _ Hsz Ht) as Ht0. pose proof Hn as [Ho Hb Hs].
  destruct (link_sends strerror _ Hwmin Hwmax (hello_frame hello) connection Hn) as (l1 & E1 & Hn1 & Ht1);
    [unfold kMinMaxFrameBytes, kHandshakeBytes in *; lia|done|].
  pose proof E1 as E1'. unfold link_send in E1'.
  destruct (SendFrame _ _ _ _) as [status taken] eqn:Es. injection E1' as _ <-.
  rewrite E1. cbn [status_ok negb].
  destruct (link_receives strerror _ Hwmax (ack_frame ack 1)
    (mkLink (ln_connection connection) (ln_received connection) (tl (ln_sends connection))
       (ln_sent connection ++ taken))) as (l2 & E2 & Hn2 & Hs2 & Ht2);
    [done|exact Ha|by apply ack_frame_fits|].
  change (negb (status_ok Status_Ok)) with false. cbn match. rewrite E2.
  change (negb (bool_decide (fr_kind (ack_frame ack 1) = FrameKind.kHelloAck))) with false. cbn match.
  change (fr_body (ack_frame ack 1)) with (bytes_of (EncodeHelloAck ack)).
  rewrite (decodes_all_run _ _ _ (DecodeHelloAck_inverts ack ack_fits)).
  exists (link_moved (link_bound bound l2)). split_and!.
  - f_equal. f_equal. unfold finish_handshake. rewrite ack_spec. cbn.
    replace (N.min (wo_max_frame_bytes options) bound) with bound by (unfold bound; lia).
    by destruct (wo_epoch options =? epoch).
  - change (ln_sent (link_moved (link_bound bound l2))) with (ln_sent l2). rewrite Ht2. exact Ht1.
  - by eapply negotiated_moved, negotiated_bound.
Qed.
End Handshake.
