(* ===== verification/ServerDemo.v ===== *)
(** * A concrete server

    A server that [RunServer] has set up over a coordinator in memory, and schedules of
    its accept loop and of one worker's connection. *)

From Stdlib Require Import String.
From S2P Require Import Prelude StdAlgo Checked Status Bytes Hash Model ModelDigest Validate.
From S2P Require Import Explain Records Codec CodecFacts CodecExact Wire Transport WireFacts.
From S2P Require Import Store StoreOps Place Threads RuntimeState Runtime RuntimeInv RuntimeCalm.
From S2P Require Import Fixture RuntimeDemo ServerState Server ServerAlone Worker.

(** A server that [RunServer] has set up. *)
Definition set_up (s : ServerContext) : Prop :=
  ∃ options bound log_opened ready_created process now disk io, u64_fits (svo_epoch options) ∧
    RunServer options bound log_opened ready_created process now disk io = Value s.

(** One worker thread, no store, the fixture's epoch. *)
Definition demo_options : ServerOptions :=
  mkServerOptions "127.0.0.1" 0 "" 1 4 16 kDefaultMaxFrameBytes 11 0 "" "server.log".

Definition demo_server : ServerContext :=
  match RunServer demo_options (Value 9000) true true 1 0%Z (mkDisk None None) [] with
  | Value s => s
  | Error _ =>
      mkServer demo_options unstarted (mkServerCounters 0 0 0 0 0 0 0) true None [] 0 [] []
  end.

Lemma demo_set_up : set_up demo_server.
Proof.
  exists demo_options, (Value 9000), true, true, 1, 0%Z, (mkDisk None None), [].
  split; [done|]. unfold demo_server.
  assert (match RunServer demo_options (Value 9000) true true 1 0%Z (mkDisk None None) [] with
          | Value _ => true | Error _ => false end = true) as H by by vm_compute.
  by destruct (RunServer demo_options (Value 9000) true true 1 0%Z (mkDisk None None) []).
Qed.

(** Thread 0 is the coordinator's worker, thread 1 the accept loop, thread 2 the first
    connection's. *)
Abbreviation Happenings := (list (Event (Call := nat) (Tick := Happening))).

Definition serve (events : Happenings) : option (System (Reply := ServerReply)) :=
  server_schedule "" events (server_system "" demo_server).

Definition served (events : Happenings) : System :=
  match serve events with
  | Some sys => sys
  | None => server_system "" demo_server
  end.

Definition serves (events : Happenings) : bool :=
  match serve events with
  | Some _ => true
  | None => false
  end.

Lemma serve_served events : serves events = true → serve events = Some (served events).
Proof. unfold serves, served. by destruct (serve events). Qed.

Lemma served_reaches events : serves events = true →
  server_reaches "" demo_server (served events).
Proof.
  intros H. exists events. split; [|by apply serve_served]. apply Forall_true. by intros [].
Qed.

Lemma served_app events more : serves (events ++ more) = true →
  server_schedule "" more (served events) = Some (served (events ++ more)).
Proof.
  intros H. pose proof (serve_served _ H) as E. unfold serve, server_schedule in E.
  rewrite exec_all_app in E. fold (server_schedule "" events (server_system "" demo_server)) in E.
  fold (serve events) in E. unfold served at 1. by destruct (serve events).
Qed.

(** ** Schedules *)

(** A worker connects and sends its HELLO in two pieces. *)
Definition demo_worker (epoch : N) : WorkerOptions :=
  mkWorkerOptions "127.0.0.1" 9000 epoch 4 65536 400 10.

Definition hello_bytes (epoch : N) : list N :=
  frame_bytes (hello_frame (worker_hello (demo_worker epoch) 77)).

Definition connecting (epoch : N) : Happenings :=
  ([Pass (Connects Connected)] ++ replicate 6 (Run 1)) ++ [Spawn 0%nat] ++
  (Pass <$> [Receives 0 (RecvBytes (take 7 (hello_bytes epoch)));
             Receives 0 (RecvBytes (drop 7 (hello_bytes epoch))); Takes 0 (replicate 128 50)]).

(** It is let in, and sends a request. *)
Definition demo_payload : PlaceRequestPayload := mkPlaceRequest 5 11 lab_request.

Definition demo_request : Frame :=
  mkFrame FrameKind.kPlaceRequest 0 1 (EncodePlaceRequest demo_payload []).

Definition requesting : Happenings :=
  connecting 11 ++ replicate 10 (Run 2) ++
  [Pass (Receives 0 (RecvBytes (take 30 (frame_bytes demo_request))));
   Pass (Receives 0 (RecvBytes (drop 30 (frame_bytes demo_request))));
   Pass (Takes 0 (replicate 4000 512))].

(** The attempt, state, identity and generation in a result frame. *)
Definition placed_in (reply : Frame) : option (N * AttemptState * N * N) :=
  match DecodePlaceResult default_limits (mkReader (fr_body reply) 0) with
  | Value (p, _) =>
      Some (pres_attempt p, pres_state p, pres_placement_id p, pres_placement_generation p)
  | Error _ => None
  end.

(** What a thread of the server has answered. *)
Definition server_reply (thread : nat) (sys : System (State := ServerContext) (Reply := ServerReply))
    : option ServerReply :=
  t ← (sys_threads sys !! thread : option (Thread ServerReply));
  match t with
  | Finished reply => Some reply
  | _ => None
  end.

Lemma replied thread sys reply : server_reply thread sys = Some reply →
  sys_threads sys !! thread = Some (Finished reply).
Proof.
  unfold server_reply. destruct (sys_threads sys !! thread) as [[reply'| | |]|]; try done.
  by intros [= ->].
Qed.

Lemma unowned (sys : System (State := ServerContext) (Reply := ServerReply)) :
  match sys_owner sys CommitMu, sys_owner sys StoreMu with
  | None, None => true
  | _, _ => false
  end = true → ∀ m, sys_owner sys m = None.
Proof. intros H []; by destruct (sys_owner sys CommitMu), (sys_owner sys StoreMu). Qed.

Lemma takes_all n l :
  forallb (λ taken, negb (taken =? 0)) (hd [] (ln_sends l)) && (n <=? size (hd [] (ln_sends l))) = true →
  takes n l.
Proof.
  intros [H1 H2]%andb_prop. split; [|by apply N.leb_le].
  apply forallb_Forall in H1. eapply Forall_impl; [exact H1|]. cbn. intros x Hx ->. done.
Qed.

Lemma demo_payload_fits : place_request_fits default_limits demo_payload.
Proof.
  eapply (accepts_all (DecodePlaceRequest default_limits) (λ _, place_request_fits default_limits)
    (EncodePlaceRequest demo_payload [])).
  - apply accepts_place_request.
  - apply DecodePlaceRequest_ends.
  - apply all_u8. by vm_compute.
  - by vm_compute.
Qed.

(** A worker's connection on which a frame arrives in one piece. *)
Definition answered_link (frame : Frame) : Link :=
  mkLink (ln_connection (open_link 65536)) [RecvBytes (frame_bytes frame)] [replicate 128 50] [].

Lemma passing_threads strerror times : ∀ sys sys',
  server_schedule strerror (Pass <$> times) sys = Some sys' → sys_threads sys' = sys_threads sys.
Proof.
  induction times as [|time times IH]; intros sys sys'; cbn; [by intros [= ->]|].
  intros H. by apply IH in H.
Qed.

(** A connection's thread before its first step. *)
Lemma spawned events i times :
  let sys := served events in
  serves (events ++ [Spawn i] ++ (Pass <$> times)) = true →
  sys_threads (served (events ++ [Spawn i] ++ (Pass <$> times))) !! length (sys_threads sys) =
  Some (connection_thread "" i).
Proof.
  intros sys H. pose proof (served_app _ _ H) as E. unfold server_schedule in E.
  rewrite exec_all_app in E. cbn [exec_all exec mbind option_bind] in E.
  fold (server_schedule "" (Pass <$> times)) in E. apply passing_threads in E. rewrite E. cbn.
  by apply list_lookup_middle.
Qed.
