(* ===== verification/Scenario.v ===== *)
(** * The scenario text format

    [scenario.cpp]: the strict line-oriented grammar the command line builds a
    request from, and its canonical rendering.  The keys of a directive are read
    in a monad over the [ArgParser], which marks the keys it was asked for.  The
    [have_] flags are the list of the directives they stand for. *)

From Stdlib Require Import String Ascii.
From S2P Require Import Prelude StdAlgo Checked Status Bytes Hash Model ModelDigest Validate.
From S2P Require Import Explain Records RuntimeState.

Open Scope string_scope.
Open Scope N_scope.

Definition kScenarioFormatVersion : N := 1.
Definition kMaxScenarioBytes : N := N.shiftl 64 20.
Definition kMaxScenarioLineBytes : N := N.shiftl 64 10.

(** ** Text *)

Definition LineTag (line : N) : string := "line " ++ to_string line ++ ": ".

Definition is_space (c : ascii) : bool :=
  Ascii.eqb c " " || Ascii.eqb c "009" || Ascii.eqb c "013" || Ascii.eqb c "010".

Definition push_word (word : string) (words : list string) : list string :=
  match word with
  | EmptyString => words
  | _ => word :: words
  end.

(** The characters before the first space, and the words after it. *)
Fixpoint split_words (text : string) : string * list string :=
  match text with
  | EmptyString => (EmptyString, [])
  | String c rest =>
      let '(word, words) := split_words rest in
      if is_space c then (EmptyString, push_word word words) else (String c word, words)
  end.

Definition SplitWhitespace (text : string) : list string :=
  let '(word, words) := split_words text in push_word word words.

(** [std::from_chars] into a [std::uint64_t], up to the end of the text. *)
Definition digit_of (c : ascii) : option N :=
  let n := N_of_ascii c in if (48 <=? n) && (n <=? 57) then Some (n - 48) else None.

Fixpoint digits_value (text : string) (value : N) : option N :=
  match text with
  | EmptyString => Some value
  | String c rest => digit ← digit_of c; digits_value rest (10 * value + digit)
  end.

Definition ParseU64 (text : string) : option N :=
  match text with
  | EmptyString => None
  | _ => value ← digits_value text 0; if value <=? uint_max 64 then Some value else None
  end.

(** The text before the first [separator] and the text after it. *)
Fixpoint cut (separator : ascii) (text : string) : option (string * string) :=
  match text with
  | EmptyString => None
  | String c rest =>
      if Ascii.eqb c separator then Some (EmptyString, rest)
      else '(before, after) ← cut separator rest; Some (String c before, after)
  end.

(** The pieces between the separators: the first, and the others. *)
Fixpoint pieces (separator : ascii) (text : string) : string * list string :=
  match text with
  | EmptyString => (EmptyString, [])
  | String c rest =>
      let '(piece, others) := pieces separator rest in
      if Ascii.eqb c separator then (EmptyString, piece :: others) else (String c piece, others)
  end.

Definition split_on (separator : ascii) (text : string) : list string :=
  let '(piece, others) := pieces separator text in piece :: others.

(** The first loop of [SplitCommas]: no comma makes one element more than [max_count]. *)
Fixpoint commas_within (max_count elements : N) (text : string) : bool :=
  match text with
  | EmptyString => true
  | String c rest =>
      if Ascii.eqb c "," then
        let elements := elements + 1 in
        if max_count <? elements then false else commas_within max_count elements rest
      else commas_within max_count elements rest
  end.

Definition SplitCommas (text : string) (max_count : N) : option (list string) :=
  if commas_within max_count 1 text then Some (split_on "," text) else None.

(** ** Arguments *)

Record Argument := mkArgument {
  arg_key : string;
  arg_value : string;
  arg_consumed : bool;
}.

Record ArgParser := mkArgs {
  ap_directive : string;
  ap_line : N;
  ap_args : list Argument;
  ap_malformed : bool;
  ap_oversized : bool;
  ap_duplicate : string;
}.

Definition kMaxKeysPerDirective : N := 64.

(** The loop of the constructor: the arguments up to the first key that repeats. *)
Fixpoint collect_arguments (tokens : list string) (args : list Argument)
    : list Argument * string :=
  match tokens with
  | key :: value :: tokens =>
      if existsb (λ existing, String.eqb (arg_key existing) key) args then (args, key)
      else collect_arguments tokens (args ++ [mkArgument key value false])
  | _ => (args, EmptyString)
  end.

Definition ArgParser_init (directive : string) (tokens : list string) (line : N) : ArgParser :=
  if negb (size tokens mod 2 =? 0) then mkArgs directive line [] true false EmptyString
  else if kMaxKeysPerDirective <? size tokens / 2 then
    mkArgs directive line [] false true EmptyString
  else
    let '(args, duplicate) := collect_arguments tokens [] in
    mkArgs directive line args false false duplicate.

(** [Reject] with the line and the directive in front of the message. *)
Definition line_status (code : StatusCode) (line : N) (message : string) : Status :=
  mkStatus code (LineTag line ++ message).

Definition args_status (p : ArgParser) (code : StatusCode) (message : string) : Status :=
  line_status code (ap_line p) (ap_directive p ++ message).

Definition ArgParser_Validate (p : ArgParser) : Status :=
  if ap_oversized p then
    args_status p StatusCode.kOversizeRequest ": too many keys on one directive"
  else if ap_malformed p then
    args_status p StatusCode.kMalformedRequest ": expected key/value pairs"
  else if negb (String.eqb (ap_duplicate p) "") then
    args_status p StatusCode.kMalformedRequest (": duplicate key '" ++ ap_duplicate p ++ "'")
  else Status_Ok.

(** A chain of calls on the parser, each made if the one before it succeeded. *)
Definition Arg (A : Type) : Type := ArgParser → Result (A * ArgParser).

#[export] Instance Arg_ret : MRet Arg := λ A a p, Value (a, p).
#[export] Instance Arg_bind : MBind Arg := λ A B k m p,
  match m p with
  | Value (a, p) => k a p
  | Error status => Error status
  end.

Definition reject {A} (code : StatusCode) (message : string) : Arg A :=
  λ p, Error (args_status p code message).

(** The value of the first argument with the key, which is marked. *)
Fixpoint consume (key : string) (args : list Argument) : option (string * list Argument) :=
  match args with
  | [] => None
  | entry :: args =>
      if String.eqb (arg_key entry) key
      then Some (arg_value entry, mkArgument (arg_key entry) (arg_value entry) true :: args)
      else '(value, args) ← consume key args; Some (value, entry :: args)
  end.

Definition ap_with_args (args : list Argument) (p : ArgParser) : ArgParser :=
  mkArgs (ap_directive p) (ap_line p) args (ap_malformed p) (ap_oversized p) (ap_duplicate p).

Module Args.
Definition Find (key : string) (required : bool) : Arg (option string) := λ p,
  match consume key (ap_args p) with
  | Some (value, args) => Value (Some value, ap_with_args args p)
  | None =>
      if required then
        Error (args_status p StatusCode.kMissingField (": missing key '" ++ key ++ "'"))
      else Value (None, p)
  end.

(** The out-parameter keeps its value [old] where an optional key is missing. *)
Definition U64 (key : string) (required : bool) (old : N) : Arg N :=
  value ← Find key required;
  match value with
  | None => mret old
  | Some value =>
      match ParseU64 value with
      | Some n => mret n
      | None =>
          reject StatusCode.kInvalidFieldValue (": key '" ++ key ++ "' is not an unsigned integer")
      end
  end.

(** The out-parameter becomes 0 where an optional key is missing. *)
Definition U32 (key : string) (required : bool) : Arg N :=
  raw ← U64 key required 0;
  match NarrowU32 raw with
  | Some narrowed => mret narrowed
  | None => reject StatusCode.kUnrepresentableValue (": key '" ++ key ++ "' exceeds 32 bits")
  end.

Definition Bool (key : string) (required : bool) (old : bool) : Arg bool :=
  value ← Find key required;
  match value with
  | None => mret old
  | Some value =>
      if String.eqb value "true" then mret true
      else if String.eqb value "false" then mret false
      else reject StatusCode.kInvalidFieldValue (": key '" ++ key ++ "' must be true or false")
  end.

Definition Text (key : string) (required : bool) (old : string) (max_length : N) : Arg string :=
  value ← Find key required;
  match value with
  | None => mret old
  | Some value =>
      if max_length <? string_size value then
        reject StatusCode.kOversizeRequest (": key '" ++ key ++ "' is too long")
      else mret value
  end.

(** As for [U32], a missing optional key makes the identifier 0. *)
Definition Id (key : string) (required : bool) : Arg N := U64 key required 0.

(** The parts of a comma-separated value, or an entry that [parse] refuses. *)
Fixpoint parse_parts {A} (parse : string → option A) (parts : list string) : option (list A) :=
  match parts with
  | [] => Some []
  | part :: parts => a ← parse part; others ← parse_parts parse parts; Some (a :: others)
  end.

Definition List {A} (parse : string → option A) (entries : string) (key : string) (required : bool)
    (old : list A) (max_count : N) : Arg (list A) :=
  value ← Find key required;
  match value with
  | None => mret old
  | Some value =>
      match SplitCommas value max_count with
      | None => reject StatusCode.kOversizeRequest (": key '" ++ key ++ "' has too many entries")
      | Some parts =>
          match parse_parts parse parts with
          | Some items => mret items
          | None => reject StatusCode.kInvalidFieldValue (": key '" ++ key ++ "' " ++ entries)
          end
      end
  end.

Definition IdList : string → bool → list N → N → Arg (list N) :=
  List ParseU64 "contains a non-numeric id".

Definition parse_ref (part : string) : option ReservationRef :=
  '(before, after) ← cut ":" part;
  id ← ParseU64 before;
  generation ← ParseU64 after;
  Some (mkRef id generation).

Definition RefList : string → bool → list ReservationRef → N → Arg (list ReservationRef) :=
  List parse_ref "entries must be id:generation".

Definition Enum {T} (key : string) (required : bool) (parse : string → option T) (old : T) : Arg T :=
  value ← Find key required;
  match value with
  | None => mret old
  | Some value =>
      match parse value with
      | Some v => mret v
      | None =>
          reject StatusCode.kInvalidFieldValue
            (": key '" ++ key ++ "' has an unknown value '" ++ value ++ "'")
      end
  end.

Definition Finish : Arg unit := λ p,
  match find (λ entry, negb (arg_consumed entry)) (ap_args p) with
  | Some entry =>
      Error (args_status p StatusCode.kMalformedRequest (": unknown key '" ++ arg_key entry ++ "'"))
  | None => Value (tt, p)
  end.
End Args.

(** ** Objectives and tiers *)

(** [ParseObjectives]; the text is an argument of the [policy] directive. *)
Fixpoint objectives_of (parts : list string) : Arg (list Objective) :=
  match parts with
  | [] => mret []
  | part :: parts =>
      match cut ":" part with
      | None => reject StatusCode.kInvalidFieldValue ": objectives must be kind:direction"
      | Some (before, after) =>
          match ParseObjectiveKind before, ParseDirection after with
          | Some kind, Some direction =>
              objectives ← objectives_of parts; mret (mkObjective kind direction :: objectives)
          | _, _ => reject StatusCode.kInvalidFieldValue (": unknown objective '" ++ part ++ "'")
          end
      end
  end.

Definition ParseObjectives (text : string) (max_objectives : N) : Arg (list Objective) :=
  match SplitCommas text max_objectives with
  | None => reject StatusCode.kOversizeRequest ": too many objectives"
  | Some [] => reject StatusCode.kMissingField ": no objectives"
  | Some parts => objectives_of parts
  end.

Fixpoint tiers_of (parts : list string) : Arg (list PathTier) :=
  match parts with
  | [] => mret []
  | part :: parts =>
      match ParsePathTier part with
      | None => reject StatusCode.kInvalidFieldValue (": unknown tier '" ++ part ++ "'")
      | Some tier => tiers ← tiers_of parts; mret (tier :: tiers)
      end
  end.

Definition ParseTierList (text : string) : Arg (list PathTier) :=
  match SplitCommas text 3 with
  | None => reject StatusCode.kOversizeRequest ": too many tiers"
  | Some parts => tiers_of parts
  end.

(** ** The arguments of a directive *)

(** [NarrowU16] and [NarrowU8] of a value read as 32 bits. *)
Definition narrowed (narrow : option N) (message : string) : Arg N :=
  match narrow with
  | Some n => mret n
  | None => reject StatusCode.kUnrepresentableValue message
  end.

Definition pair_arguments : Arg (N * N) :=
  id ← Args.Id "id" true; generation ← Args.Id "gen" true; mret (id, generation).

Definition path_arguments (limits : Limits) : Arg CandidatePath :=
  id ← Args.Id "id" true;
  authority ← Args.Id "auth" true;
  tier ← Args.Enum "tier" false ParsePathTier PathTier.kStandard;
  locality ← Args.Id "locality" false;
  scope ← Args.Enum "scope" false ParseLocalityScope LocalityScope.kNode;
  domain ← Args.Id "domain" false;
  cost ← Args.U64 "cost" false 0;
  latency ← Args.U64 "latency" false 0;
  hops ← Args.U32 "hops" false;
  hops ← narrowed (NarrowU16 hops) ": hops exceeds 16 bits";
  labels ← Args.IdList "labels" false [] (max_path_labels limits);
  reservations ← Args.RefList "reservations" false [] (max_path_reservations limits);
  _ ← Args.Finish;
  mret (mkPath id authority
          (mkAttributes tier locality scope domain cost latency hops labels reservations)).

Definition entry_arguments : Arg PathCapacity :=
  path ← Args.Id "path" true;
  total ← Args.U64 "total" true 0;
  residual ← Args.U64 "residual" true 0;
  _ ← Args.Finish;
  mret (mkCapacity path total residual).

Definition qos_arguments : Arg QosProfile :=
  id ← Args.Id "id" true;
  generation ← Args.Id "gen" true;
  service_class ← Args.Enum "class" true ParseServiceClass ServiceClass.kBestEffort;
  priority ← Args.Enum "priority" false ParsePriorityClass PriorityClass.kNormal;
  required ← Args.U64 "required" false 0;
  max_latency ← Args.U64 "maxlatency" false 0;
  _ ← Args.Finish;
  mret (mkQos id generation service_class priority required max_latency).

(** [capacity] and [evidence]. *)
Definition finished_pair : Arg (N * N) := pair ← pair_arguments; _ ← Args.Finish; mret pair.

Definition util_arguments : Arg CongestionEvidenceEntry :=
  path ← Args.Id "path" true;
  ppb ← Args.U32 "ppb" true;
  _ ← Args.Finish;
  mret (mkEvidenceEntry path ppb).

(** An identifier that is only set where it is valid. *)
Definition optional_id (key : string) : Arg (option N) :=
  value ← Args.Id key false; mret (if valid value then Some value else None).

Definition policy_lists (limits : Limits)
    : Arg (list Objective * list PathTier * list N * list N * LocalityConstraint) :=
  text ← Args.Find "objectives" true;
  objectives ← (match text with
                | Some text => ParseObjectives text (max_objectives limits)
                | None => mret []
                end);
  text ← Args.Find "tiers" false;
  tiers ← (match text with Some text => ParseTierList text | None => mret [] end);
  required_labels ← Args.IdList "require-labels" false [] (max_policy_id_lists limits);
  forbidden_labels ← Args.IdList "forbid-labels" false [] (max_policy_id_lists limits);
  required_locality ← optional_id "locality-required";
  preferred_locality ← optional_id "locality-preferred";
  forbidden ← Args.IdList "locality-forbidden" false [] (max_policy_id_lists limits);
  mret (objectives, tiers, required_labels, forbidden_labels,
        mkLocality required_locality preferred_locality forbidden).

Definition domain_arguments (limits : Limits) : Arg FailureDomainConstraint :=
  required ← optional_id "domain-required";
  forbidden ← Args.IdList "domain-forbidden" false [] (max_policy_id_lists limits);
  avoid ← Args.Bool "domain-avoid-occupied" false false;
  min_distinct ← Args.U32 "domain-min-distinct" false;
  mret (mkFailureDomains required forbidden avoid min_distinct).

Definition affinity_arguments (limits : Limits) : Arg ReservationAffinity :=
  required ← Args.Bool "affinity-required" false false;
  refs ← Args.RefList "affinity-refs" false [] (max_affinity_refs limits);
  mret (mkAffinity required refs).

Definition admission_arguments : Arg AdmissionGate :=
  headroom ← Args.U64 "admission-headroom" false 0;
  action ← Args.Enum "admission-action" false ParseGateAction GateAction.kPlace;
  mret (mkAdmission headroom action).

Definition service_arguments : Arg ServicePolicy :=
  degraded ← Args.Bool "service-degraded" false false;
  steps ← Args.U32 "service-relaxation" false;
  steps ← narrowed (NarrowU8 steps) ": service relaxation exceeds 8 bits";
  mret (mkService degraded steps).

Definition churn_arguments : Arg ChurnPolicy :=
  action ← Args.Enum "churn-action" false ParseChurnAction ChurnAction.kAllowMove;
  prefer ← Args.Bool "churn-prefer-incumbent" false false;
  threshold ← Args.U64 "churn-threshold" false 0;
  index ← Args.U32 "churn-threshold-objective" false;
  mret (mkChurn action prefer threshold index).

Definition evidence_policy_arguments : Arg EvidencePolicy :=
  missing ← Args.Enum "evidence-missing" false ParseEvidencePolicyMode
              EvidencePolicyMode.kHardExclude;
  stale ← Args.Enum "evidence-stale" false ParseEvidencePolicyMode EvidencePolicyMode.kHardExclude;
  mret (mkEvidencePolicy missing stale).

Definition policy_arguments (limits : Limits) : Arg PlacementPolicy :=
  pair ← pair_arguments;
  lists ← policy_lists limits;
  domains ← domain_arguments limits;
  affinity ← affinity_arguments limits;
  admission ← admission_arguments;
  service ← service_arguments;
  churn ← churn_arguments;
  evidence ← evidence_policy_arguments;
  revalidate ← Args.U64 "revalidate" false 0;
  _ ← Args.Finish;
  let '(objectives, tiers, required_labels, forbidden_labels, locality) := lists in
  mret (mkPolicy (fst pair) (snd pair) objectives tiers required_labels forbidden_labels locality
          domains affinity admission service churn evidence revalidate).

Definition incumbent_arguments : Arg IncumbentPlacement :=
  id ← Args.Id "id" true;
  generation ← Args.Id "gen" true;
  path ← Args.Id "path" true;
  path_authority ← Args.Id "pathauth" true;
  candidate_set ← Args.Id "cset" true;
  capacity ← Args.Id "cap" true;
  policy ← Args.Id "policy" true;
  qos ← Args.Id "qos" true;
  epoch ← Args.Id "epoch" true;
  refs ← Args.RefList "reservation" false [] 1;
  _ ← Args.Finish;
  mret (mkIncumbent id generation path path_authority candidate_set capacity policy qos epoch
          (hd ReservationRef_none refs)).

Definition occupied_arguments (limits : Limits) : Arg (list N) :=
  domains ← Args.IdList "domains" true [] (max_occupied_failure_domains limits);
  _ ← Args.Finish;
  mret domains.

Definition expected_arguments : Arg AuthorityExpectation :=
  path_authority ← Args.Id "pathauth" true;
  candidate_set ← Args.Id "cset" true;
  capacity ← Args.Id "cap" true;
  policy ← Args.Id "policy" true;
  qos ← Args.Id "qos" true;
  epoch ← Args.Id "epoch" true;
  evidence ← Args.Id "evidence" false;
  _ ← Args.Finish;
  mret (mkExpectation path_authority candidate_set capacity policy qos epoch evidence).

Definition provenance_arguments : Arg Provenance :=
  producer ← Args.Text "producer" true "" kMaxProvenanceFieldLength;
  version ← Args.Text "version" true "" kMaxProvenanceFieldLength;
  sequence ← Args.U64 "sequence" true 0;
  observed ← Args.U64 "observed" false 0;
  _ ← Args.Finish;
  mret (mkProvenance producer version sequence (i64_of_u64 observed)).

Definition attempt_arguments : Arg N := id ← Args.Id "id" true; _ ← Args.Finish; mret id.

(** ** Requests *)

Definition rq_with_flow (flow generation : N) (r : PlacementRequest) : PlacementRequest :=
  mkRequest flow generation (rq_candidates r) (rq_capacity r) (rq_qos r) (rq_policy r)
    (rq_evidence r) (rq_incumbent r) (rq_occupied_failure_domains r) (rq_expected r)
    (rq_provenance r) (rq_attempt r).

Definition rq_with_candidates (candidates : CandidateSet) (r : PlacementRequest)
    : PlacementRequest :=
  mkRequest (rq_flow r) (rq_flow_generation r) candidates (rq_capacity r) (rq_qos r) (rq_policy r)
    (rq_evidence r) (rq_incumbent r) (rq_occupied_failure_domains r) (rq_expected r)
    (rq_provenance r) (rq_attempt r).

Definition rq_with_capacity (capacity : CapacitySnapshot) (r : PlacementRequest)
    : PlacementRequest :=
  mkRequest (rq_flow r) (rq_flow_generation r) (rq_candidates r) capacity (rq_qos r) (rq_policy r)
    (rq_evidence r) (rq_incumbent r) (rq_occupied_failure_domains r) (rq_expected r)
    (rq_provenance r) (rq_attempt r).

Definition rq_with_qos (qos : QosProfile) (r : PlacementRequest) : PlacementRequest :=
  mkRequest (rq_flow r) (rq_flow_generation r) (rq_candidates r) (rq_capacity r) qos (rq_policy r)
    (rq_evidence r) (rq_incumbent r) (rq_occupied_failure_domains r) (rq_expected r)
    (rq_provenance r) (rq_attempt r).

Definition rq_with_policy (policy : PlacementPolicy) (r : PlacementRequest) : PlacementRequest :=
  mkRequest (rq_flow r) (rq_flow_generation r) (rq_candidates r) (rq_capacity r) (rq_qos r) policy
    (rq_evidence r) (rq_incumbent r) (rq_occupied_failure_domains r) (rq_expected r)
    (rq_provenance r) (rq_attempt r).

Definition rq_with_evidence (evidence : EvidenceBundle) (r : PlacementRequest)
    : PlacementRequest :=
  mkRequest (rq_flow r) (rq_flow_generation r) (rq_candidates r) (rq_capacity r) (rq_qos r)
    (rq_policy r) evidence (rq_incumbent r) (rq_occupied_failure_domains r) (rq_expected r)
    (rq_provenance r) (rq_attempt r).

Definition rq_with_incumbent (incumbent : IncumbentPlacement) (r : PlacementRequest)
    : PlacementRequest :=
  mkRequest (rq_flow r) (rq_flow_generation r) (rq_candidates r) (rq_capacity r) (rq_qos r)
    (rq_policy r) (rq_evidence r) (Some incumbent) (rq_occupied_failure_domains r) (rq_expected r)
    (rq_provenance r) (rq_attempt r).

Definition rq_with_occupied (occupied : list N) (r : PlacementRequest) : PlacementRequest :=
  mkRequest (rq_flow r) (rq_flow_generation r) (rq_candidates r) (rq_capacity r) (rq_qos r)
    (rq_policy r) (rq_evidence r) (rq_incumbent r) occupied (rq_expected r)
    (rq_provenance r) (rq_attempt r).

Definition rq_with_expected (expected : AuthorityExpectation) (r : PlacementRequest)
    : PlacementRequest :=
  mkRequest (rq_flow r) (rq_flow_generation r) (rq_candidates r) (rq_capacity r) (rq_qos r)
    (rq_policy r) (rq_evidence r) (rq_incumbent r) (rq_occupied_failure_domains r) expected
    (rq_provenance r) (rq_attempt r).

Definition rq_with_provenance (provenance : Provenance) (r : PlacementRequest)
    : PlacementRequest :=
  mkRequest (rq_flow r) (rq_flow_generation r) (rq_candidates r) (rq_capacity r) (rq_qos r)
    (rq_policy r) (rq_evidence r) (rq_incumbent r) (rq_occupied_failure_domains r) (rq_expected r)
    provenance (rq_attempt r).

(** ** Directives *)

(** The request so far and the directives whose [have_] flag is set. *)
Record ScenarioState := mkScenario {
  sn_request : PlacementRequest;
  sn_declared : list string;
}.

Definition ScenarioState_init : ScenarioState := mkScenario PlacementRequest_init [].

Definition have (directive : string) (s : ScenarioState) : bool :=
  existsb (String.eqb directive) (sn_declared s).

(** The request is changed by what the arguments say. *)
Definition take_arguments {A} (arguments : Arg A) (f : A → PlacementRequest → PlacementRequest)
    (p : ArgParser) (s : ScenarioState) : Result ScenarioState :=
  match arguments p with
  | Error status => Error status
  | Value (a, _) => Value (mkScenario (f a (sn_request s)) (sn_declared s))
  end.

(** A directive that may only appear once. *)
Definition declare_once {A} (arguments : Arg A) (f : A → PlacementRequest → PlacementRequest)
    (p : ArgParser) (s : ScenarioState) : Result ScenarioState :=
  let directive := ap_directive p in
  if have directive s then Error (args_status p StatusCode.kMalformedRequest ": already declared")
  else
    match take_arguments arguments f p s with
    | Error status => Error status
    | Value s => Value (mkScenario (sn_request s) (directive :: sn_declared s))
    end.

Definition set_paths_with (path : CandidatePath) (r : PlacementRequest) : PlacementRequest :=
  let c := rq_candidates r in
  rq_with_candidates (mkCandidateSet (set_id c) (set_generation c) (set_paths c ++ [path])) r.

Definition snap_entries_with (entry : PathCapacity) (r : PlacementRequest) : PlacementRequest :=
  let c := rq_capacity r in
  rq_with_capacity (mkSnapshot (snap_id c) (snap_generation c) (snap_entries c ++ [entry])) r.

Definition bundle_entries_with (entry : CongestionEvidenceEntry) (r : PlacementRequest)
    : PlacementRequest :=
  let e := rq_evidence r in
  rq_with_evidence (mkBundle (bundle_id e) (bundle_generation e) (bundle_entries e ++ [entry])) r.

Definition ParseDirective (limits : Limits) (p : ArgParser) (s : ScenarioState)
    : Result ScenarioState :=
  let directive := ap_directive p in
  let r := sn_request s in
  if String.eqb directive "flow" then
    declare_once pair_arguments (λ a, rq_with_flow (fst a) (snd a)) p s
  else if String.eqb directive "candidateset" then
    declare_once pair_arguments
      (λ a r, rq_with_candidates (mkCandidateSet (fst a) (snd a) (set_paths (rq_candidates r))) r) p s
  else if String.eqb directive "path" then
    if negb (have "candidateset" s) then
      Error (args_status p StatusCode.kMissingField ": candidateset must be declared first")
    else if max_candidate_paths limits <=? size (set_paths (rq_candidates r)) then
      Error (args_status p StatusCode.kOversizeRequest ": too many candidate paths")
    else take_arguments (path_arguments limits) set_paths_with p s
  else if String.eqb directive "capacity" then
    declare_once finished_pair
      (λ a r, rq_with_capacity (mkSnapshot (fst a) (snd a) (snap_entries (rq_capacity r))) r) p s
  else if String.eqb directive "entry" then
    if negb (have "capacity" s) then
      Error (args_status p StatusCode.kMissingField ": capacity must be declared first")
    else if max_capacity_entries limits <=? size (snap_entries (rq_capacity r)) then
      Error (args_status p StatusCode.kOversizeRequest ": too many capacity entries")
    else take_arguments entry_arguments snap_entries_with p s
  else if String.eqb directive "qos" then declare_once qos_arguments rq_with_qos p s
  else if String.eqb directive "evidence" then
    declare_once finished_pair
      (λ a r, rq_with_evidence (mkBundle (fst a) (snd a) (bundle_entries (rq_evidence r))) r) p s
  else if String.eqb directive "util" then
    if max_evidence_entries limits <=? size (bundle_entries (rq_evidence r)) then
      Error (args_status p StatusCode.kOversizeRequest ": too many evidence entries")
    else take_arguments util_arguments bundle_entries_with p s
  else if String.eqb directive "policy" then
    declare_once (policy_arguments limits) rq_with_policy p s
  else if String.eqb directive "incumbent" then
    declare_once incumbent_arguments rq_with_incumbent p s
  else if String.eqb directive "occupied" then
    declare_once (occupied_arguments limits) rq_with_occupied p s
  else if String.eqb directive "expected" then declare_once expected_arguments rq_with_expected p s
  else if String.eqb directive "provenance" then
    declare_once provenance_arguments rq_with_provenance p s
  else if String.eqb directive "attempt" then
    declare_once attempt_arguments rq_with_attempt p s
  else
    Error (line_status StatusCode.kMalformedRequest (ap_line p)
             ("unknown directive '" ++ directive ++ "'")).

(** The [version] directive. *)
Definition ParseVersion (line : N) (tokens : list string) (s : ScenarioState)
    : Result ScenarioState :=
  match tokens with
  | [token] =>
      match ParseU64 token with
      | None => Error (line_status StatusCode.kInvalidFieldValue line "version: not a number")
      | Some value =>
          if negb (value =? kScenarioFormatVersion) then
            Error (line_status StatusCode.kUnsupported line
                     "version: unsupported scenario format version")
          else Value s
      end
  | _ => Error (line_status StatusCode.kMalformedRequest line "version: expected one value")
  end.

(** ** Documents *)

Definition without_comment (line : string) : string :=
  match cut "#" line with
  | Some (text, _) => text
  | None => line
  end.

(** One round of the loop of [ParseScenario]. *)
Definition ParseLine (limits : Limits) (number : N) (line : string) (s : ScenarioState)
    : Result ScenarioState :=
  if kMaxScenarioLineBytes <? string_size line then
    Error (line_status StatusCode.kOversizeRequest number "line is too long")
  else
    match SplitWhitespace (without_comment line) with
    | [] => Value s
    | directive :: tokens =>
        if String.eqb directive "version" then ParseVersion number tokens s
        else
          let p := ArgParser_init directive tokens number in
          let status := ArgParser_Validate p in
          if negb (status_ok status) then Error status else ParseDirective limits p s
    end.

Fixpoint ParseLines (limits : Limits) (number : N) (lines : list string) (s : ScenarioState)
    : Result ScenarioState :=
  match lines with
  | [] => Value s
  | line :: lines =>
      match ParseLine limits number line s with
      | Error status => Error status
      | Value s => ParseLines limits (number + 1) lines s
      end
  end.

(** The directives a scenario cannot do without, in the order they are missed. *)
Definition kRequiredDirectives : list string :=
  ["flow"; "candidateset"; "capacity"; "qos"; "policy"; "expected"].

Definition ParseScenario (text : string) (limits : Limits) : Result PlacementRequest :=
  if kMaxScenarioBytes <? string_size text then
    Error (mkStatus StatusCode.kOversizeRequest "scenario exceeds kMaxScenarioBytes")
  else
    match ParseLines limits 1 (split_on "010" text) ScenarioState_init with
    | Error status => Error status
    | Value s =>
        match find (λ directive, negb (have directive s)) kRequiredDirectives with
        | Some directive =>
            Error (mkStatus StatusCode.kMissingField
                     ("scenario is missing the " ++ directive ++ " directive"))
        | None => Value (sn_request s)
        end
    end.

(** ** Rendering *)

(** [std::to_string] of a [std::int64_t]. *)
Definition signed_to_string (v : Z) : string :=
  if (v <? 0)%Z then "-" ++ to_string (Z.to_N (- v)) else to_string (Z.to_N v).

Definition AppendRef (r : ReservationRef) : string :=
  to_string (ref_id r) ++ ":" ++ to_string (ref_generation r).

Definition comma_list {A} (append : A → string) (l : list A) : string :=
  String.concat "," (append <$> l).

Definition AppendIdList : list N → string := comma_list to_string.

(** A key with a list, where the list is not empty. *)
Definition write_list {A} (key : string) (append : A → string) (l : list A) : string :=
  match l with
  | [] => ""
  | _ => key ++ comma_list append l
  end.

Definition write_optional (key : string) (id : option N) : string :=
  match id with
  | Some id => key ++ to_string id
  | None => ""
  end.

Definition bool_text (b : bool) : string := if b then "true" else "false".

Definition write_path (path : CandidatePath) : string :=
  let a := path_attributes path in
  "path id " ++ to_string (path_id path) ++ " auth " ++ to_string (path_authority path) ++
  " tier " ++ PathTierName (attr_tier a) ++
  " locality " ++ to_string (attr_locality a) ++
  " scope " ++ LocalityScopeName (attr_locality_scope a) ++
  " domain " ++ to_string (attr_failure_domain a) ++
  " cost " ++ to_string (attr_cost_micro a) ++
  " latency " ++ to_string (attr_latency_nanos a) ++
  " hops " ++ to_string (attr_hop_count a) ++
  write_list " labels " to_string (attr_labels a) ++
  write_list " reservations " AppendRef (attr_reservations a).

Definition write_entry (entry : PathCapacity) : string :=
  "entry path " ++ to_string (cap_path entry) ++ " total " ++ to_string (cap_capacity_bytes entry) ++
  " residual " ++ to_string (cap_residual_bytes entry).

Definition write_util (entry : CongestionEvidenceEntry) : string :=
  "util path " ++ to_string (ev_path entry) ++ " ppb " ++ to_string (ev_utilization_ppb entry).

Definition write_qos (qos : QosProfile) : string :=
  "qos id " ++ to_string (qos_id qos) ++ " gen " ++ to_string (qos_generation qos) ++
  " class " ++ ServiceClassName (qos_service_class qos) ++
  " priority " ++ PriorityClassName (qos_priority qos) ++
  " required " ++ to_string (qos_required_residual_bytes qos) ++
  " maxlatency " ++ to_string (qos_max_latency_nanos qos).

Definition write_objective (o : Objective) : string :=
  ObjectiveKindName (obj_kind o) ++ ":" ++ DirectionName (obj_direction o).

Definition write_policy (policy : PlacementPolicy) : string :=
  let locality := pol_locality policy in
  let domains := pol_failure_domains policy in
  let affinity := pol_reservation_affinity policy in
  let churn := pol_churn policy in
  "policy id " ++ to_string (pol_id policy) ++ " gen " ++ to_string (pol_generation policy) ++
  " objectives " ++ comma_list write_objective (pol_objectives policy) ++
  write_list " tiers " PathTierName (pol_allowed_tiers policy) ++
  write_list " require-labels " to_string (pol_required_labels policy) ++
  write_list " forbid-labels " to_string (pol_forbidden_labels policy) ++
  write_optional " locality-required " (required_locality locality) ++
  write_optional " locality-preferred " (preferred_locality locality) ++
  write_list " locality-forbidden " to_string (forbidden_localities locality) ++
  write_optional " domain-required " (required_domain domains) ++
  write_list " domain-forbidden " to_string (forbidden_domains domains) ++
  " domain-avoid-occupied " ++ bool_text (avoid_occupied_domains domains) ++
  " domain-min-distinct " ++ to_string (min_distinct_domains domains) ++
  " affinity-required " ++ bool_text (affinity_required affinity) ++
  write_list " affinity-refs " AppendRef (affinity_refs affinity) ++
  " admission-headroom " ++ to_string (min_residual_headroom_bytes (pol_admission policy)) ++
  " admission-action " ++ GateActionName (on_below (pol_admission policy)) ++
  " service-degraded " ++ bool_text (allow_degraded (pol_service policy)) ++
  " service-relaxation " ++ to_string (max_relaxation_steps (pol_service policy)) ++
  " churn-action " ++ ChurnActionName (on_move churn) ++
  " churn-prefer-incumbent " ++ bool_text (prefer_incumbent churn) ++
  " churn-threshold " ++ to_string (move_improvement_threshold churn) ++
  " churn-threshold-objective " ++ to_string (threshold_objective_index churn) ++
  " evidence-missing " ++ EvidencePolicyModeName (on_missing (pol_evidence policy)) ++
  " evidence-stale " ++ EvidencePolicyModeName (on_stale (pol_evidence policy)) ++
  " revalidate " ++ to_string (pol_revalidate_after_nanos policy).

Definition write_incumbent (i : IncumbentPlacement) : string :=
  "incumbent id " ++ to_string (inc_id i) ++ " gen " ++ to_string (inc_generation i) ++
  " path " ++ to_string (inc_path i) ++ " pathauth " ++ to_string (inc_path_authority i) ++
  " cset " ++ to_string (inc_candidate_set_generation i) ++
  " cap " ++ to_string (inc_capacity_generation i) ++
  " policy " ++ to_string (inc_policy_generation i) ++
  " qos " ++ to_string (inc_qos_generation i) ++
  " epoch " ++ to_string (inc_fabric_epoch i) ++
  (if ReservationRef_valid (inc_reservation i) then " reservation " ++ AppendRef (inc_reservation i)
   else "").

Definition write_expected (e : AuthorityExpectation) : string :=
  "expected pathauth " ++ to_string (exp_path_authority e) ++
  " cset " ++ to_string (exp_candidate_set e) ++ " cap " ++ to_string (exp_capacity e) ++
  " policy " ++ to_string (exp_policy e) ++ " qos " ++ to_string (exp_qos e) ++
  " epoch " ++ to_string (exp_fabric_epoch e) ++ " evidence " ++ to_string (exp_evidence e).

Definition dash_if_empty (s : string) : string := if String.eqb s "" then "-" else s.

Definition write_provenance (p : Provenance) : string :=
  "provenance producer " ++ dash_if_empty (prov_producer p) ++
  " version " ++ dash_if_empty (prov_producer_version p) ++
  " sequence " ++ to_string (prov_source_sequence p) ++
  " observed " ++ signed_to_string (prov_observer_unix_nanos p).

(** The lines of the rendering. *)
Definition scenario_lines (r : PlacementRequest) : list string :=
  ["version " ++ to_string kScenarioFormatVersion;
   "flow id " ++ to_string (rq_flow r) ++ " gen " ++ to_string (rq_flow_generation r);
   "candidateset id " ++ to_string (set_id (rq_candidates r)) ++
   " gen " ++ to_string (set_generation (rq_candidates r))] ++
  (write_path <$> set_paths (rq_candidates r)) ++
  ["capacity id " ++ to_string (snap_id (rq_capacity r)) ++
   " gen " ++ to_string (snap_generation (rq_capacity r))] ++
  (write_entry <$> snap_entries (rq_capacity r)) ++
  [write_qos (rq_qos r);
   "evidence id " ++ to_string (bundle_id (rq_evidence r)) ++
   " gen " ++ to_string (bundle_generation (rq_evidence r))] ++
  (write_util <$> bundle_entries (rq_evidence r)) ++
  [write_policy (rq_policy r)] ++
  (match rq_incumbent r with Some incumbent => [write_incumbent incumbent] | None => [] end) ++
  (match rq_occupied_failure_domains r with
   | [] => []
   | domains => ["occupied domains " ++ AppendIdList domains]
   end) ++
  [write_expected (rq_expected r);
   write_provenance (rq_provenance r);
   "attempt id " ++ to_string (rq_attempt r)].

Definition WriteScenario (r : PlacementRequest) : string :=
  String.concat "" ((λ line, line ++ newline) <$> scenario_lines r).
