(* ===== verification/Bench.v ===== *)
(** * The synthetic benchmark

    [bench.cpp]: the generated population and what the benchmark counts.  The time a
    placement takes is an argument; [double] is the binary64 of [SpecFloat]. *)

From Stdlib Require Import String Ascii ZArith SpecFloat.
From S2P Require Import Prelude StdAlgo Checked Status Bytes Hash Model ModelDigest Validate.
From S2P Require Import Explain Records Place RuntimeState ServerState.

Open Scope N_scope.

(** ** The generator *)

Definition kGolden : N := 0x9E3779B97F4A7C15.

(** Draws from a [SyntheticRng], in order. *)
Definition Rng (A : Type) : Type := N → A * N.

#[export] Instance Rng_ret : MRet Rng := λ A a state, (a, state).
#[export] Instance Rng_bind : MBind Rng := λ A B k m state, let '(a, state) := m state in k a state.

Definition SyntheticRng_init (seed : N) : N := wrap 64 (seed + kGolden).

Definition Next : Rng N := λ state,
  let state := wrap 64 (state + kGolden) in
  let z := state in
  let z := wrap 64 (N.lxor z (N.shiftr z 30) * 0xBF58476D1CE4E5B9) in
  let z := wrap 64 (N.lxor z (N.shiftr z 27) * 0x94D049BB133111EB) in
  (N.lxor z (N.shiftr z 31), state).

Definition Below (bound : N) : Rng N :=
  if bound =? 0 then mret 0 else next ← Next; mret (next mod bound).

(** A loop that draws. *)
Fixpoint draws {A B} (f : A → Rng B) (l : list A) : Rng (list B) :=
  match l with
  | [] => mret []
  | a :: l => b ← f a; bs ← draws f l; mret (b :: bs)
  end.

(** The indices of a loop from 0. *)
Definition up_to (n : N) : list N := N.of_nat <$> seq 0 (N.to_nat n).

(** ** Requests *)

Record BenchConfig := mkBenchConfig {
  bc_fanout : N;
  bc_resources : N;
  bc_domains : N;
  bc_churn_percent : N;
  bc_objectives : N;
  bc_iterations : N;
  bc_warmup : N;
  bc_seed : N;
  bc_limits : Limits;
}.

Definition BenchConfig_init : BenchConfig := mkBenchConfig 64 1024 16 0 3 200 10 1 default_limits.

Definition bc_with_fanout (fanout : N) (c : BenchConfig) : BenchConfig :=
  mkBenchConfig fanout (bc_resources c) (bc_domains c) (bc_churn_percent c) (bc_objectives c)
    (bc_iterations c) (bc_warmup c) (bc_seed c) (bc_limits c).

(** One round of the loop over the paths. *)
Definition bench_path (config : BenchConfig) (i : N) : Rng CandidatePath :=
  let domains := N.max 1 (bc_domains config) in
  tier ← Below 3;
  locality ← Below (N.max 1 (bc_resources config));
  scope ← Below 5;
  domain ← Below domains;
  cost ← Below 10000;
  latency ← Below 1000000;
  hops ← Below 9;
  labelled ← Below 4;
  labels ← (if labelled =? 0 then label ← Below 8; mret [wrap 64 (1 + label)] else mret []);
  reserved ← Below 3;
  reservations ← (if reserved =? 0 then
                    id ← Below 64;
                    generation ← Below 4;
                    mret [mkRef (wrap 64 (1 + id)) (wrap 64 (1 + generation))]
                  else mret []);
  mret (mkPath (wrap 64 (1 + i)) 5
          (mkAttributes (PathTier_cast tier) (wrap 64 (1 + locality)) (LocalityScope_cast scope)
             (wrap 64 (1 + domain)) (100 + cost) (1000 + latency) (wrap 16 (1 + hops)) labels
             reservations)).

Definition bench_entry (path : CandidatePath) : Rng PathCapacity :=
  residual ← Below 950000;
  mret (mkCapacity (path_id path) 1000000 (50000 + residual)).

Definition bench_evidence (path : CandidatePath) : Rng CongestionEvidenceEntry :=
  utilization ← Below 1000000000;
  mret (mkEvidenceEntry (path_id path) (wrap 32 utilization)).

(** The two tables, side by side. *)
Definition bench_objectives : list Objective :=
  [mkObjective ObjectiveKind.kCost Direction.kMinimize;
   mkObjective ObjectiveKind.kLatency Direction.kMinimize;
   mkObjective ObjectiveKind.kResidualCapacity Direction.kMaximize;
   mkObjective ObjectiveKind.kCongestionUtilization Direction.kMinimize;
   mkObjective ObjectiveKind.kHopCount Direction.kMinimize;
   mkObjective ObjectiveKind.kTier Direction.kMinimize;
   mkObjective ObjectiveKind.kLocalityAffinity Direction.kMinimize;
   mkObjective ObjectiveKind.kIncumbentStability Direction.kMinimize].

(** The policy, with the churn rule of a request that has an incumbent. *)
Definition bench_policy (config : BenchConfig) (incumbent : bool) : PlacementPolicy :=
  let p := PlacementPolicy_init in
  let churn := pol_churn p in
  let objectives := N.max 1 (N.min 8 (bc_objectives config)) in
  mkPolicy 17 8 (take (N.to_nat objectives) bench_objectives) (pol_allowed_tiers p)
    (pol_required_labels p) (pol_forbidden_labels p) (pol_locality p) (pol_failure_domains p)
    (pol_reservation_affinity p) (pol_admission p) (pol_service p)
    (if incumbent then mkChurn (on_move churn) true 50 0
     else mkChurn (on_move churn) (prefer_incumbent churn) (move_improvement_threshold churn) 0)
    (pol_evidence p) 1000000000.

Definition bench_incumbent (index : N) (path : CandidatePath) : IncumbentPlacement :=
  mkIncumbent (wrap 64 (500 + index)) 1 (path_id path) 5 3 4 8 2 1 ReservationRef_none.

Definition MakeRequest (config : BenchConfig) (index : N) : Rng PlacementRequest :=
  let fanout := N.max 1 (bc_fanout config) in
  paths ← draws (bench_path config) (up_to fanout);
  entries ← draws bench_entry paths;
  evidence ← draws bench_evidence paths;
  incumbent ← (if bc_churn_percent config =? 0 then mret None
               else
                 chance ← Below 100;
                 if chance <? bc_churn_percent config then
                   at_path ← Below fanout;
                   mret (Some (bench_incumbent index (nth (N.to_nat at_path) paths no_path)))
                 else mret None);
  mret (mkRequest (wrap 64 (1000 + index)) (wrap 64 (1 + index)) (mkCandidateSet 7 3 paths)
          (mkSnapshot 9 4 entries)
          (mkQos 11 2 ServiceClass.kControlled PriorityClass.kNormal 10000 0)
          (bench_policy config (bool_decide (is_Some incumbent))) (mkBundle 13 6 evidence) incumbent []
          (mkExpectation 5 3 4 8 2 1 6)
          (mkProvenance "flowplace-bench" kVersionString index 0) (wrap 64 (100000 + index))).

(** ** Doubles *)

Definition of_u64 (n : N) : spec_float := binary_normalize 53 1024 (Z.of_N n) 0 false.

(** [static_cast<std::size_t>] of a [double] that is not negative. *)
Definition to_u64 (f : spec_float) : N :=
  match f with
  | S754_finite false m (Zneg e) => Npos m / 2 ^ Npos e
  | S754_finite false m e => Npos m * 2 ^ Z.to_N e
  | _ => 0
  end.

Definition kHalf : spec_float := S754_finite false 4503599627370496 (-53).
Definition k99Percent : spec_float := S754_finite false 8917127262193582 (-53).
Definition k1e9 : spec_float := of_u64 1000000000.

(** The samples sorted, and the one at the fraction. *)
Definition Percentile (samples : list N) (fraction : spec_float) : N * list N :=
  match samples with
  | [] => (0, samples)
  | _ =>
      let samples := std_sort N.ltb samples in
      let position := SFmul 53 1024 fraction (of_u64 (size samples - 1)) in
      let index := to_u64 (SFadd 53 1024 position kHalf) in
      (nth (N.to_nat (N.min index (size samples - 1))) samples 0, samples)
  end.

(** ** The benchmark *)

Record BenchSample := mkSample {
  bs_fanout : N;
  bs_iterations : N;
  bs_placed : N;
  bs_placed_degraded : N;
  bs_no_legal_path : N;
  bs_insufficient_capacity : N;
  bs_policy_rejected : N;
  bs_deferred : N;
  bs_stale_input : N;
  bs_conflicting_input : N;
  bs_total_nanos : N;
  bs_p50_nanos : N;
  bs_p99_nanos : N;
  bs_max_nanos : N;
  bs_decision_digest_accumulator : N;
  bs_candidates_examined : N;
  bs_placements_per_second : spec_float;
}.

Record BenchResult := mkBenchResult {
  br_config : BenchConfig;
  br_samples : list BenchSample;
  br_label : string;
}.

Definition count_at (outcome other : Outcome) (n : N) : N :=
  if bool_decide (outcome = other) then wrap 64 (n + 1) else n.

(** The sample after a measured placement. *)
Definition count_decision (decision : PlacementDecision) (nanos : N) (s : BenchSample)
    : BenchSample :=
  let at_outcome := count_at (dec_outcome decision) in
  mkSample (bs_fanout s) (bs_iterations s)
    (at_outcome Outcome.kPlaced (bs_placed s))
    (at_outcome Outcome.kPlacedDegraded (bs_placed_degraded s))
    (at_outcome Outcome.kNoLegalPath (bs_no_legal_path s))
    (at_outcome Outcome.kInsufficientCapacity (bs_insufficient_capacity s))
    (at_outcome Outcome.kPolicyRejected (bs_policy_rejected s))
    (at_outcome Outcome.kDeferred (bs_deferred s))
    (at_outcome Outcome.kStaleInput (bs_stale_input s))
    (at_outcome Outcome.kConflictingInput (bs_conflicting_input s))
    (wrap 64 (bs_total_nanos s + nanos)) (bs_p50_nanos s) (bs_p99_nanos s) (bs_max_nanos s)
    (N.lxor (bs_decision_digest_accumulator s) (digest_lo (dec_digest decision)))
    (wrap 64 (bs_candidates_examined s + ex_candidate_count (dec_explanation decision)))
    (bs_placements_per_second s).

Section Measuring.
(** The nanoseconds that the placement of a round took, at each fan-out. *)
Context (elapsed : N → N → N).

(** The loop over the rounds: the sample and the durations. *)
Fixpoint run_rounds (point : BenchConfig) (warmup : N) (rounds : list N)
    (sample : BenchSample) (durations : list N) : Rng (BenchSample * list N) :=
  match rounds with
  | [] => mret (sample, durations)
  | i :: rounds =>
      request ← MakeRequest point i;
      let decision := Place (bc_limits point) request in
      if i <? warmup then run_rounds point warmup rounds sample durations
      else
        let nanos := elapsed (bc_fanout point) i in
        run_rounds point warmup rounds (count_decision decision nanos sample)
          (durations ++ [nanos])
  end.

Definition finish_sample (iterations : N) (durations : list N) (s : BenchSample) : BenchSample :=
  let '(p50, durations) := Percentile durations kHalf in
  let '(p99, durations) := Percentile durations k99Percent in
  mkSample (bs_fanout s) iterations (bs_placed s) (bs_placed_degraded s) (bs_no_legal_path s)
    (bs_insufficient_capacity s) (bs_policy_rejected s) (bs_deferred s) (bs_stale_input s)
    (bs_conflicting_input s) (bs_total_nanos s) p50 p99 (List.last durations 0)
    (bs_decision_digest_accumulator s) (bs_candidates_examined s)
    (if bs_total_nanos s =? 0 then S754_zero false
     else
       SFdiv 53 1024 (SFmul 53 1024 (of_u64 iterations) k1e9) (of_u64 (bs_total_nanos s))).

Definition run_point (config : BenchConfig) (fanout : N) : BenchSample :=
  let point := bc_with_fanout fanout config in
  let rng := SyntheticRng_init (N.lxor (bc_seed config) (wrap 64 (fanout * kGolden))) in
  let sample := mkSample fanout 0 0 0 0 0 0 0 0 0 0 0 0 0 0 0 (S754_zero false) in
  let warmup := N.min (bc_warmup config) (bc_iterations config) in
  let rounds := up_to (wrap 64 (bc_iterations config + warmup)) in
  let '((sample, durations), _) := run_rounds point warmup rounds sample [] rng in
  finish_sample (bc_iterations config) durations sample.

(** [for (value = 1; value < target; value *= 2)]; [None] out of fuel. *)
Fixpoint powers_below (fuel : nat) (value target : N) : option (list N) :=
  if negb (value <? target) then Some [] else
  match fuel with
  | O => None
  | S fuel => powers ← powers_below fuel (wrap 64 (value * 2)) target; Some (value :: powers)
  end.

(** The sweep over the fan-out: at most six points. *)
Definition sweep (fuel : nat) (config : BenchConfig) : option (list N) :=
  let target := N.max 1 (bc_fanout config) in
  powers ← powers_below fuel 1 target;
  let fanouts := powers ++ [target] in
  Some (if 6 <? size fanouts then
          (if target / 32 =? 0 then 1 else target / 32) ::
          drop (length fanouts - 5) fanouts
        else fanouts).

Definition RunSyntheticPlacementBenchmark (fuel : nat) (config : BenchConfig)
    : option BenchResult :=
  fanouts ← sweep fuel config;
  Some (mkBenchResult config (run_point config <$> fanouts) "SYNTHETIC").
End Measuring.

(** ** The report *)

(** [%-<width>llu]. *)
Definition padded (width : nat) (n : N) : string :=
  let text := to_string n in
  (text ++ String.concat "" (replicate (width - String.length text) " "))%string.

(** [%.1f] of a [double] that is not negative: the nearest tenth, ties to the even one. *)
Definition tenths (f : spec_float) : N :=
  match f with
  | S754_finite _ m (Zneg e) =>
      let q := 10 * Npos m / 2 ^ Npos e in
      let r := (10 * Npos m) mod 2 ^ Npos e in
      match 2 * r ?= 2 ^ Npos e with
      | Lt => q
      | Eq => if N.even q then q else q + 1
      | Gt => q + 1
      end
  | S754_finite _ m e => 10 * Npos m * 2 ^ Z.to_N e
  | _ => 0
  end.

Definition one_decimal (f : spec_float) : string :=
  (to_string (tenths f / 10) ++ "." ++ to_string (tenths f mod 10))%string.

(** One line, cut to the buffer. *)
Definition render_sample (s : BenchSample) : string :=
  (String.substring 0 511
     ("fanout=" ++ padded 7 (bs_fanout s) ++ " placed=" ++ padded 6 (bs_placed s) ++
      " degraded=" ++ padded 6 (bs_placed_degraded s) ++
      " no_legal=" ++ padded 6 (bs_no_legal_path s) ++
      " insufficient=" ++ padded 6 (bs_insufficient_capacity s) ++
      " policy=" ++ padded 6 (bs_policy_rejected s) ++
      " deferred=" ++ padded 6 (bs_deferred s) ++ " stale=" ++ padded 6 (bs_stale_input s) ++
      " conflicting=" ++ padded 6 (bs_conflicting_input s) ++
      " p50_ns=" ++ padded 9 (bs_p50_nanos s) ++ " p99_ns=" ++ padded 9 (bs_p99_nanos s) ++
      " max_ns=" ++ padded 9 (bs_max_nanos s) ++
      " placements_per_second=" ++ one_decimal (bs_placements_per_second s) ++ newline))%string.

Definition RenderBenchResult (result : BenchResult) : string :=
  let c := br_config result in
  ("label: " ++ br_label result ++
   " (in-process generated populations; not a network measurement)" ++ newline ++
   "config: fanout=" ++ to_string (bc_fanout c) ++ " resources=" ++ to_string (bc_resources c) ++
   " domains=" ++ to_string (bc_domains c) ++
   " churn_percent=" ++ to_string (bc_churn_percent c) ++
   " objectives=" ++ to_string (bc_objectives c) ++
   " iterations=" ++ to_string (bc_iterations c) ++ " seed=" ++ to_string (bc_seed c) ++ newline ++
   concat_map render_sample (br_samples result))%string.
