(* ===== verification/CommandLine.v ===== *)
(** * The command line

    [flowplace_main.cpp]: the options, the files, the commands and their exit codes.
    What the process finds outside — its files, what lies at the paths of stores, the
    answers of the sockets — is a record; a command returns what it printed and its
    exit code, or the threads it runs. *)

From Stdlib Require Import String Ascii.
From S2P Require Import Prelude StdAlgo Checked Status Bytes Hash Model ModelDigest Validate.
From S2P Require Import Explain Records Codec Wire Transport Store StoreOps Place.
From S2P Require Import Threads RuntimeState Runtime ServerState Server Worker Scenario Bench.

Open Scope string_scope.
Open Scope N_scope.

(** ** Options *)

Record Arguments := mkArguments {
  positional : list string;
  options : list (string * string);
}.

Definition Has (name : string) (args : Arguments) : bool :=
  existsb (λ option, String.eqb (fst option) name) (options args).

Definition Get (name fallback : string) (args : Arguments) : string :=
  from_option snd fallback (find (λ option, String.eqb (fst option) name) (options args)).

(** [std::from_chars]: the value of the leading digits, 0 where there are none or the
    value is out of range, and whether all of the text was read. *)
Fixpoint leading_digits (text : string) (value : N) : N * string :=
  match text with
  | EmptyString => (value, EmptyString)
  | String c rest =>
      match digit_of c with
      | Some digit => leading_digits rest (10 * value + digit)
      | None => (value, text)
      end
  end.

Definition from_chars (text : string) : N * bool :=
  let '(value, rest) := leading_digits text 0 in
  if String.eqb rest text then (0, false)
  else if uint_max 64 <? value then (0, false)
  else (value, String.eqb rest "").

(** The value of an option and [*ok], which every call overwrites. *)
Definition GetU64 (name : string) (fallback : N) (args : Arguments) : N * bool :=
  match find (λ option, String.eqb (fst option) name) (options args) with
  | Some option => from_chars (snd option)
  | None => (fallback, true)
  end.

Definition is_option (token : string) : bool :=
  match token with
  | String "-" (String "-" _) => true
  | _ => false
  end.

(** The next token is a value unless it starts with a dash and is longer. *)
Definition is_value (token : string) : bool :=
  match token with
  | String "-" (String _ _) => false
  | _ => true
  end.

Fixpoint ParseArguments (tokens : list string) (out : Arguments) : Arguments :=
  match tokens with
  | [] => out
  | token :: tokens =>
      if is_option token then
        let name := String.substring 2 (String.length token - 2) token in
        match tokens with
        | value :: others =>
            if is_value value then
              ParseArguments others
                (mkArguments (positional out) (options out ++ [(name, value)]))
            else
              ParseArguments tokens
                (mkArguments (positional out) (options out ++ [(name, "true")]))
        | [] => mkArguments (positional out) (options out ++ [(name, "true")])
        end
      else ParseArguments tokens (mkArguments (positional out ++ [token]) (options out))
  end.

(** ** What a command prints *)

Record Report := mkOutput {
  exit_code : N;
  printed : string;
  complained : string;
}.

Definition prints (code : N) (out : string) : Report := mkOutput code out "".
Definition complains (err : string) : Report := mkOutput 1 "" (err ++ newline).

(** ** Files *)

(** The process and what is outside of it. *)
Record Environment := mkEnvironment {
  env_files : string → option string;
  env_disks : string → Disk;
  env_io : list IoOutcome;
  env_process : N;
  env_now : Z;
  env_sockets : Status;
  env_reopens : bool;
  env_strerror : string;
  env_connects : list (Result Link);
  env_close : Status;
}.

Definition kReadChunk : nat := Nat.pow 2 16.

(** The loop over the chunks of a file; the bound is compared after each of them. *)
Fixpoint read_chunks (rounds : nat) (path : string) (max_bytes : N) (file text : string)
    : Result string :=
  match rounds with
  | O => Value text
  | S rounds =>
      let chunk := String.substring 0 kReadChunk file in
      let text := text ++ chunk in
      if max_bytes <? string_size text then
        Error (mkStatus StatusCode.kOversizeRequest (path ++ " exceeds the maximum scenario size"))
      else if string_size chunk <? 65536 then Value text
      else
        read_chunks rounds path max_bytes
          (String.substring kReadChunk (String.length file - kReadChunk) file) text
  end.

Definition ReadFile (path : string) (max_bytes : N) (env : Environment) : Result string :=
  match env_files env path with
  | None => Error (mkStatus StatusCode.kIoError ("cannot open " ++ path))
  | Some file =>
      read_chunks (S (N.to_nat (string_size file / 65536))) path max_bytes file ""
  end.

(** The path and the request. *)
Definition LoadScenario (args : Arguments) (env : Environment)
    : Result (string * PlacementRequest) :=
  let path := Get "scenario" "" args in
  if String.eqb path "" then
    Error (mkStatus StatusCode.kInvalidArgument "--scenario FILE is required")
  else
    match ReadFile path kMaxScenarioBytes env with
    | Error status => Error status
    | Value text =>
        match ParseScenario text default_limits with
        | Error status => Error status
        | Value request => Value (path, request)
        end
    end.

Definition scenario_error (status : Status) : Report :=
  complains ("scenario error: " ++ c_str (Status_ToString status)).

(** ** Commands without threads *)

Definition RunValidate (args : Arguments) (env : Environment) : Report :=
  match LoadScenario args env with
  | Error status => prints 1 ("invalid: " ++ c_str (Status_ToString status) ++ newline)
  | Value (path, request) =>
      let status := ValidateRequest request default_limits in
      if negb (status_ok status) then
        prints 1 ("invalid: " ++ c_str (Status_ToString status) ++ newline)
      else
        prints 0 ("valid: " ++ c_str path ++ newline ++ "request_digest=" ++
                  Digest_ToHex (RequestDigest request default_limits) ++ newline)
  end.

Definition RunRoundtrip (args : Arguments) (env : Environment) : Report :=
  match LoadScenario args env with
  | Error status => scenario_error status
  | Value (_, request) =>
      let first := WriteScenario request in
      match ParseScenario first default_limits with
      | Error status => complains ("roundtrip parse error: " ++ c_str (Status_ToString status))
      | Value reparsed =>
          let before := RequestDigest request default_limits in
          let after := RequestDigest reparsed default_limits in
          if negb (Digest_eqb before after) then
            complains ("roundtrip digest mismatch: " ++ Digest_ToHex before ++ " != " ++
                       Digest_ToHex after)
          else if negb (String.eqb (WriteScenario reparsed) first) then
            complains "roundtrip rendering is not canonical"
          else prints 0 ("roundtrip ok: digest=" ++ Digest_ToHex before ++ newline)
      end
  end.

(** [RunPlace] without a store. *)
Definition place_uncommitted (request : PlacementRequest) (explain : bool) : Report :=
  let decision := Place default_limits request in
  prints (if placed decision then 0 else 2)
    (c_str (RenderDecision decision) ++
     (if explain then
        "request_digest=" ++ Digest_ToHex (RequestDigest request default_limits) ++ newline
      else "")).

(** ** Placing with a store *)

Definition outcome_line (attempt : N) (outcome : AttemptOutcome) : string :=
  "attempt=" ++ to_string attempt ++ " state=" ++ AttemptStateName (ao_state outcome) ++
  " code=" ++ StatusCodeName (ao_code outcome) ++
  " placement=" ++ to_string (ao_placement_id outcome) ++
  " generation=" ++ to_string (ao_placement_generation outcome) ++ newline.

(** The report of an attempt that ended, given how the coordinator shut down. *)
Definition place_report (attempt : N) (outcome : AttemptOutcome) (shutdown : Status) : Report :=
  let out := c_str (RenderDecision (ao_decision outcome)) ++ outcome_line attempt outcome in
  if negb (status_ok shutdown) then
    mkOutput 1 out ("shutdown error: " ++ c_str (Status_ToString shutdown) ++ newline)
  else prints (if bool_decide (ao_state outcome = AttemptState.kCommitted) then 0 else 2) out.

Definition placement_error (status : Status) : Report :=
  complains ("placement error: " ++ c_str (Status_ToString status)).

(** The main thread beside the workers of its coordinator.  Every return runs the
    destructor, which shuts the coordinator down again. *)
Definition place_committing (request : PlacementRequest) (attempt : N)
    : Thread (State := CoordinatorState) Report :=
  answer ← PlaceNow request attempt;
  match answer with
  | Error status => _ ← ShutdownInternal false; mret (placement_error status)
  | Value outcome =>
      shutdown ← ShutdownInternal false;
      _ ← ShutdownInternal false;
      mret (place_report attempt outcome shutdown)
  end.

Definition place_options (store_path : string) (request : PlacementRequest) : CoordinatorOptions :=
  let epoch := exp_fabric_epoch (rq_expected request) in
  mkCoordinatorOptions default_limits default_options store_path 4 1024 4096
    (if valid epoch then epoch else 1) 0 0.

(** What a command is: done, a thread beside the workers of a coordinator, a server, or
    a call that never returns. *)
Inductive Execution :=
  | Exits (report : Report)
  | Places (coordinator : CoordinatorState) (main : Thread (State := CoordinatorState) Report)
  | Serves (server : ServerContext) (finish : ServerResult → Report)
  | Hangs.

Definition RunPlace (args : Arguments) (explain : bool) (env : Environment) : Execution :=
  match LoadScenario args env with
  | Error status => Exits (scenario_error status)
  | Value (_, request) =>
      if negb (Has "no-commit" args) && Has "store" args then
        let path := Get "store" "" args in
        match Start (place_options path request) (env_process env) (env_now env)
                (env_disks env path) (env_io env) with
        | Error status =>
            Exits (complains ("coordinator error: " ++ c_str (Status_ToString status)))
        | Value coordinator =>
            let attempt := if valid (rq_attempt request) then rq_attempt request else 1 in
            Places coordinator (place_committing request attempt)
        end
      else Exits (place_uncommitted request explain)
  end.

(** The process: the main thread, and the workers its coordinator has started.  A thread
    says whether it is a worker that goes on or is through with the command. *)
Definition aside {A B} (f : A → B) (t : Thread (State := CoordinatorState) A)
    : Thread (State := CoordinatorState) B :=
  a ← t; mret (f a).

Definition process_worker : Thread (Reply + Report) := aside inl worker.

Definition place_process (coordinator : CoordinatorState)
    (main : Thread (State := CoordinatorState) Report) : System (Reply := Reply + Report) :=
  mkSystem coordinator (λ _, None)
    (aside inr main :: replicate (N.to_nat (co_worker_count coordinator)) process_worker).

Definition process_restart (reply : Reply + Report)
    : option (Thread (State := CoordinatorState) (Reply + Report)) :=
  match reply with
  | inl reply => aside inl <$> restart reply
  | inr _ => None
  end.

(** Nobody else calls the coordinator. *)
Definition process_schedule (events : list (Event (Call := Empty_set) (Tick := Z)))
    (sys : System (Reply := Reply + Report)) : option System :=
  exec_all (λ call : Empty_set, match call with end) process_restart pass events sys.

(** ** The store commands *)

Definition report_lines (path : string) (r : RecoveryReport) : string :=
  "store=" ++ c_str path ++ newline ++
  "liveness_restored=" ++ bool_text (rep_liveness_restored r) ++
  " truncated_tail=" ++ bool_text (rep_truncated_tail r) ++
  " snapshot_loaded=" ++ bool_text (rep_snapshot_loaded r) ++
  " bytes_discarded=" ++ to_string (rep_bytes_discarded r) ++ newline ++
  "records=" ++ to_string (rep_records_valid r) ++
  " placements=" ++ to_string (rep_placements_total r) ++
  " attempts=" ++ to_string (rep_attempts_total r) ++
  " committed=" ++ to_string (rep_committed_attempts r) ++
  " rejected=" ++ to_string (rep_rejected_attempts r) ++
  " cancelled=" ++ to_string (rep_cancelled_attempts r) ++
  " fenced=" ++ to_string (rep_fenced_attempts r) ++
  " unfinished=" ++ to_string (rep_unfinished_attempts r) ++
  " superseded=" ++ to_string (rep_superseded_placements r) ++
  " requiring_revalidation=" ++ to_string (rep_placements_requiring_revalidation r) ++
  " retired=" ++ to_string (rep_retired_attempts r) ++
  " max_sequence=" ++ to_string (rep_max_sequence r) ++ newline ++
  "last_epoch=" ++ to_string (rep_last_epoch r) ++
  " last_incarnation=" ++ to_string (rep_last_incarnation r) ++ newline.

Definition placement_line (record : PlacementRecord) : string :=
  let i := pl_intent record in
  "placement flow=" ++ to_string (int_flow i) ++ " generation=" ++ to_string (pl_generation record) ++
  " path=" ++ to_string (int_path i) ++ " pathauth=" ++ to_string (int_path_authority i) ++
  " placement=" ++ to_string (pl_id record) ++ " epoch=" ++ to_string (pl_commit_epoch record) ++
  " attempt=" ++ to_string (int_attempt i) ++
  " requires_revalidation=" ++ bool_text (pl_requires_revalidation record) ++ newline.

(** A command on an open store: its report and the disk it leaves. *)
Definition on_opened_store (command : string) (args : Arguments) (env : Environment)
    (body : string → Io Report) : Report * Disk :=
  let path := Get "store" "" args in
  if String.eqb path "" then
    (complains (command ++ ": --store FILE is required"), env_disks env path)
  else
    match Open path default_options (env_disks env path) with
    | (Error status, disk) =>
        (complains (command ++ ": " ++ c_str (Status_ToString status)), disk)
    | (Value store, disk) =>
        match body path (mkWorld store disk (env_io env)) with
        | (Value report, w) => (report, w_disk w)
        | (Error status, w) =>
            (complains (command ++ ": " ++ c_str (Status_ToString status)), w_disk w)
        end
    end.

(** [return store.value().Close().ok() ? 0 : 1] after the output. *)
Definition close_after (out : string) : Io Report :=
  closed ← io_status Close;
  mret (prints (if result_ok closed then 0 else 1) out).

Definition inspect_body (path : string) : Io Report :=
  store ← get_store;
  let report := st_recovery store in
  close_after (report_lines path report ++ concat_map placement_line (rep_latest_by_flow report)).

Definition RunStoreInspect (args : Arguments) (env : Environment) : Report * Disk :=
  on_opened_store "store-inspect" args env inspect_body.

Definition compact_store (path : string) : Io Report :=
  _ ← Compact;
  store ← get_store;
  let stats := st_stats store in
  close_after ("store-compact: journal_bytes=" ++ to_string (ss_journal_bytes stats) ++
               " snapshot_bytes=" ++ to_string (ss_snapshot_bytes stats) ++
               " compactions=" ++ to_string (ss_compactions stats) ++ newline).

Definition RunStoreCompact (args : Arguments) (env : Environment) : Report * Disk :=
  on_opened_store "store-compact" args env compact_store.

(** ** Serving *)

(** [*ok] is what the last [GetU64] left. *)
Definition serve_options (args : Arguments) : option ServerOptions :=
  let '(port, _) := GetU64 "port" 0 args in
  let '(workers, _) := GetU64 "workers" 4 args in
  let '(queue, _) := GetU64 "queue" 1024 args in
  let '(epoch, _) := GetU64 "epoch" 1 args in
  let '(max_requests, _) := GetU64 "max-requests" 0 args in
  let '(connections, ok) := GetU64 "max-connections" 16 args in
  if negb ok || (65535 <? port) then None
  else
    Some (mkServerOptions (Get "address" "127.0.0.1" args) (wrap 16 port) (Get "store" "" args)
            (wrap 32 workers) queue (wrap 32 connections) kDefaultMaxFrameBytes epoch max_requests
            (Get "ready-file" "" args) (Get "log-file" "" args)).

Definition serve_report (r : ServerResult) : Report :=
  prints (if svr_clean_shutdown r then 0 else 1)
    ("serve: port=" ++ to_string (svr_port r) ++ " requests=" ++ to_string (svr_requests_served r) ++
     " connections=" ++ to_string (svr_connections r) ++
     " committed=" ++ to_string (svr_committed r) ++
     " fenced=" ++ to_string (svr_fenced_requests r) ++
     " rejected_handshakes=" ++ to_string (svr_rejected_handshakes r) ++
     " protocol_errors=" ++ to_string (svr_protocol_errors r) ++
     " clean_shutdown=" ++ bool_text (svr_clean_shutdown r) ++ newline).

(** The listener and the two files [RunServer] opens are given. *)
Definition RunServe (args : Arguments) (env : Environment) (bound : Result N)
    (log_opened ready_created : bool) : Execution :=
  match serve_options args with
  | None => Exits (complains "serve: option could not be parsed")
  | Some options =>
      match RunServer options bound log_opened ready_created (env_process env) (env_now env)
              (env_disks env (svo_store_path options)) (env_io env) with
      | Error status => Exits (complains ("serve error: " ++ c_str (Status_ToString status)))
      | Value server => Serves server serve_report
      end
  end.

(** ** Working *)

Record WorkerCounts := mkCounts {
  wc_committed : N;
  wc_rejected : N;
  wc_fenced : N;
  wc_other : N;
}.

(** The options of the worker, the number of rounds and the committed placements expected. *)
Definition worker_options (args : Arguments) : option (WorkerOptions * N * N) :=
  let '(port, _) := GetU64 "port" 0 args in
  let '(epoch, _) := GetU64 "epoch" 1 args in
  let '(repeat, _) := GetU64 "repeat" 1 args in
  let '(worker, _) := GetU64 "worker" 1 args in
  let '(expected, ok) := GetU64 "expect-committed" (uint_max 64) args in
  if negb ok || (65535 <? port) then None
  else
    Some (mkWorkerOptions (Get "address" "127.0.0.1" args) (wrap 16 port) epoch worker
            kDefaultMaxFrameBytes 400 10, repeat, expected).

(** The frame of a round. *)
Definition worker_frame (request : PlacementRequest) (epoch worker i sequence : N) : Frame :=
  let attempt := wrap 64 (1000000 + worker * 100000 + i) in
  let request :=
    rq_with_attempt attempt
      (rq_with_expected (exp_with_epoch epoch (rq_expected request)) request) in
  mkFrame FrameKind.kPlaceRequest 0 sequence
    (EncodePlaceRequest (mkPlaceRequest attempt epoch request) []).

Definition count_error (code : StatusCode) (c : WorkerCounts) : WorkerCounts :=
  if StatusCode_eqb code StatusCode.kFencedStaleEpoch then
    mkCounts (wc_committed c) (wc_rejected c) (wrap 64 (wc_fenced c + 1)) (wc_other c)
  else mkCounts (wc_committed c) (wc_rejected c) (wc_fenced c) (wrap 64 (wc_other c + 1)).

Definition count_state (state : AttemptState) (c : WorkerCounts) : WorkerCounts :=
  match state with
  | AttemptState.kCommitted =>
      mkCounts (wrap 64 (wc_committed c + 1)) (wc_rejected c) (wc_fenced c) (wc_other c)
  | AttemptState.kFenced =>
      mkCounts (wc_committed c) (wc_rejected c) (wrap 64 (wc_fenced c + 1)) (wc_other c)
  | _ => mkCounts (wc_committed c) (wrap 64 (wc_rejected c + 1)) (wc_fenced c) (wc_other c)
  end.

(** What a round counts for the reply, or the report of a malformed one. *)
Definition count_reply (reply : Frame) (c : WorkerCounts) : Report + WorkerCounts :=
  match fr_kind reply with
  | FrameKind.kError =>
      match DecodeErrorPayload (mkReader (fr_body reply) 0) with
      | Error _ => inl (complains "worker: malformed error frame")
      | Value (error, _) => inr (count_error (err_code error) c)
      end
  | FrameKind.kPlaceResult =>
      match DecodePlaceResult default_limits (mkReader (fr_body reply) 0) with
      | Error status =>
          inl (complains ("worker: malformed result frame: " ++ c_str (Status_ToString status)))
      | Value (result, _) => inr (count_state (pres_state result) c)
      end
  | kind => inl (complains ("worker: unexpected frame kind " ++ FrameKindName kind))
  end.

(** The rounds; [None] where a call never returns. *)
Fixpoint worker_rounds (strerror : string) (request : PlacementRequest) (epoch worker : N)
    (rounds : nat) (i sequence : N) (l : Link) (c : WorkerCounts)
    : option (Report + WorkerCounts * Link) :=
  match rounds with
  | O => Some (inr (c, l))
  | S rounds =>
      let sequence := wrap 64 (sequence + 1) in
      match link_send strerror (worker_frame request epoch worker i sequence) l with
      | (None, _) => None
      | (Some sent, l) =>
          if negb (status_ok sent) then
            Some (inl (complains ("worker: send failed: " ++ c_str (Status_ToString sent))))
          else
            match link_receive strerror l with
            | (None, _) => None
            | (Some (Error status), _) =>
                Some (inl (complains ("worker: receive failed: " ++ c_str (Status_ToString status))))
            | (Some (Value reply), l) =>
                match count_reply reply c with
                | inl report => Some (inl report)
                | inr c =>
                    worker_rounds strerror request epoch worker rounds (wrap 64 (i + 1)) sequence l c
                end
            end
      end
  end.

Definition worker_line (c : WorkerCounts) (handshake : WorkerResult) : string :=
  "worker: committed=" ++ to_string (wc_committed c) ++ " rejected=" ++ to_string (wc_rejected c) ++
  " fenced=" ++ to_string (wc_fenced c) ++ " other=" ++ to_string (wc_other c) ++
  " coordinator=" ++ to_string (wr_coordinator handshake) ++
  " epoch=" ++ to_string (wr_coordinator_epoch handshake) ++ newline.

(** The report after the rounds. *)
Definition finish_worker (expected : N) (handshake : WorkerResult) (closed : Status)
    (c : WorkerCounts) : Report :=
  let out := worker_line c handshake in
  if negb (status_ok closed) then
    mkOutput 1 out ("worker: close failed: " ++ c_str (Status_ToString closed) ++ newline)
  else if negb (expected =? uint_max 64) && negb (wc_committed c =? expected) then
    mkOutput 2 out
      ("worker: expected " ++ to_string expected ++ " committed placements but committed " ++
       to_string (wc_committed c) ++ newline)
  else prints 0 out.

Definition RunWorker (args : Arguments) (env : Environment) : Execution :=
  match LoadScenario args env with
  | Error status => Exits (scenario_error status)
  | Value (_, request) =>
      match worker_options args with
      | None => Exits (complains "worker: option could not be parsed")
      | Some (options, repeat, expected) =>
          match ConnectWorker (env_strerror env) options (env_process env) (env_connects env) with
          | (None, _) => Hangs
          | (Some (Error _), handshake) =>
              Exits (prints 3
                ("worker: handshake rejected code=" ++ StatusCodeName (wr_handshake_code handshake) ++
                 " message=" ++ c_str (wr_handshake_message handshake) ++ newline))
          | (Some (Value connection), handshake) =>
              let epoch :=
                if valid (wr_coordinator_epoch handshake) then wr_coordinator_epoch handshake
                else wo_epoch options in
              match worker_rounds (env_strerror env) request epoch (wo_worker options)
                      (N.to_nat (N.max 1 repeat)) 0 2 connection (mkCounts 0 0 0 0) with
              | None => Hangs
              | Some (inl report) => Exits report
              | Some (inr (c, _)) => Exits (finish_worker expected handshake (env_close env) c)
              end
          end
      end
  end.

(** ** Benchmarking *)

Definition bench_options (args : Arguments) : option BenchConfig :=
  let d := BenchConfig_init in
  let '(fanout, _) := GetU64 "fanout" (bc_fanout d) args in
  let '(iterations, _) := GetU64 "iterations" (bc_iterations d) args in
  let '(resources, _) := GetU64 "resources" (bc_resources d) args in
  let '(domains, _) := GetU64 "domains" (bc_domains d) args in
  let '(churn, _) := GetU64 "churn" (bc_churn_percent d) args in
  let '(objectives, _) := GetU64 "objectives" (bc_objectives d) args in
  let '(seed, ok) := GetU64 "seed" (bc_seed d) args in
  if negb ok then None
  else
    Some (mkBenchConfig fanout resources domains churn objectives iterations (bc_warmup d) seed
            (bc_limits d)).

(** 63 rounds of the sweep are enough wherever it ends. *)
Definition RunBench (args : Arguments) (elapsed : N → N → N) : Execution :=
  match bench_options args with
  | None => Exits (complains "bench: numeric option could not be parsed")
  | Some config =>
      match RunSyntheticPlacementBenchmark elapsed 63 config with
      | None => Hangs
      | Some result => Exits (prints 0 (c_str (RenderBenchResult result)))
      end
  end.

(** ** The command *)

Definition usage : string := String.concat "" ((λ line, line ++ newline) <$>
  ["flowplace 1.0.0";
   "Deterministic, generation-bound placement of admitted flows onto authorized candidate paths.";
   "";
   "Usage:";
   "  flowplace version";
   "  flowplace validate --scenario FILE";
   "  flowplace place    --scenario FILE [--store FILE] [--no-commit]";
   "  flowplace explain  --scenario FILE [--store FILE] [--no-commit]";
   "  flowplace roundtrip --scenario FILE";
   "  flowplace bench    [--fanout N] [--iterations N] [--resources N] [--domains N]";
   "                     [--churn N] [--objectives N] [--seed N]";
   "  flowplace serve    --store FILE [--port N] [--address A] [--workers N] [--epoch N]";
   "                     [--max-requests N] [--ready-file FILE] [--log-file FILE]";
   "  flowplace worker   --scenario FILE [--port N] [--address A] [--repeat N] [--epoch N]";
   "  flowplace store-inspect --store FILE";
   "  flowplace store-compact --store FILE";
   "";
   "Every command accepts --report FILE, which redirects the report to FILE."]).

Section Main.
(** What [serve] and [bench] find besides. *)
Context (bound : Result N) (log_opened ready_created : bool) (elapsed : N → N → N).

Definition run_command (command : string) (args : Arguments) (env : Environment) : Execution :=
  if String.eqb command "version" || String.eqb command "--version" then
    Exits (prints 0 (kProjectName ++ " " ++ kVersionString ++ newline))
  else if String.eqb command "help" || String.eqb command "--help" then Exits (prints 0 usage)
  else if String.eqb command "validate" then Exits (RunValidate args env)
  else if String.eqb command "place" then RunPlace args false env
  else if String.eqb command "explain" then RunPlace args true env
  else if String.eqb command "roundtrip" then Exits (RunRoundtrip args env)
  else if String.eqb command "bench" then RunBench args elapsed
  else if String.eqb command "serve" then RunServe args env bound log_opened ready_created
  else if String.eqb command "worker" then RunWorker args env
  else if String.eqb command "store-inspect" then Exits (fst (RunStoreInspect args env))
  else if String.eqb command "store-compact" then Exits (fst (RunStoreCompact args env))
  else Exits (mkOutput 1 usage ("unknown command '" ++ command ++ "'" ++ newline)).

(** [argv] without the name of the program. *)
Definition main (argv : list string) (env : Environment) : Execution :=
  match argv with
  | [] => Exits (prints 1 usage)
  | command :: tokens =>
      if negb (status_ok (env_sockets env)) then
        Exits (complains (c_str (Status_ToString (env_sockets env))))
      else
        let args := ParseArguments tokens (mkArguments [] []) in
        let report_path := Get "report" "" args in
        if negb (String.eqb report_path "") && negb (env_reopens env) then
          Exits (complains ("cannot open report file " ++ report_path))
        else run_command command args env
  end.
End Main.
