(* ===== verification/ScenarioText.v ===== *)
(** * Facts about the text of scenarios

    Words, lines and comma-separated parts come back from the text they are
    written to, and numbers from their decimal rendering; the pairs of a line come back
    from the arguments it is parsed to. *)

From Stdlib Require Import String Ascii DecimalString DecimalN.
From S2P Require Import Prelude StdAlgo Checked Status Bytes Hash Model Explain Records RuntimeState.
From S2P Require Import Scenario.

Open Scope string_scope.
Open Scope N_scope.

#[local] Arguments String.append : simpl nomatch.

(** ** Characters *)

(** Every character of the text passes the test. *)
Fixpoint text_all (test : ascii → bool) (text : string) : bool :=
  match text with
  | EmptyString => true
  | String c rest => test c && text_all test rest
  end.

Lemma text_all_app test a b : text_all test (a ++ b) = text_all test a && text_all test b.
Proof. induction a as [|c a IH]; [done|]. cbn. by rewrite IH, andb_assoc. Qed.

Lemma text_all_impl (test test' : ascii → bool) text :
  (∀ c, test c = true → test' c = true) → text_all test text = true → text_all test' text = true.
Proof.
  intros H. induction text as [|c text IH]; [done|]. cbn. rewrite !andb_true_iff.
  intros [Hc Ht]. split; [by apply H|by apply IH].
Qed.

Lemma text_all_concat test separator l :
  text_all test separator = true → Forall (λ s, text_all test s = true) l →
  text_all test (String.concat separator l) = true.
Proof.
  intros Hs. induction 1 as [|a l Ha Hl IH]; [done|]. cbn. destruct l as [|b l]; [done|].
  by rewrite !text_all_app, Ha, Hs.
Qed.

Definition is_digit (c : ascii) : bool :=
  match digit_of c with Some _ => true | None => false end.

(** A character of a word: neither a space nor the start of a comment. *)
Definition plain_char (c : ascii) : bool := negb (is_space c) && negb (Ascii.eqb c "#").

(** A character of a part: one of a word that does not separate parts. *)
Definition part_char (c : ascii) : bool := plain_char c && negb (Ascii.eqb c ",").

(** A character of a part without a colon. *)
Definition item_char (c : ascii) : bool := part_char c && negb (Ascii.eqb c ":").

Lemma digit_item c : is_digit c = true → item_char c = true.
Proof. by destruct c as [[] [] [] [] [] [] [] []]. Qed.

Lemma item_part c : item_char c = true → part_char c = true.
Proof. by intros [H _]%andb_prop. Qed.

Lemma part_plain c : part_char c = true → plain_char c = true.
Proof. by intros [H _]%andb_prop. Qed.

(** Something the tokenizer takes as one word. *)
Definition is_word (text : string) : Prop := text ≠ "" ∧ text_all plain_char text = true.

(** ** Numbers *)

Lemma digits_value_acc d : ∀ acc,
  digits_value (NilEmpty.string_of_uint d) (N.pos acc) = Some (N.pos (Pos.of_uint_acc d acc)).
Proof.
  induction d as [|d IH|d IH|d IH|d IH|d IH|d IH|d IH|d IH|d IH|d IH]; intros acc; cbn -[N.mul N.add Pos.mul Pos.add]; [done|..];
    rewrite <-IH; match goal with |- digit_of ?c ≫= _ = _ =>
      let d := eval vm_compute in (digit_of c) in change (digit_of c) with d end;
    cbn [mbind option_bind]; f_equal; lia.
Qed.

Lemma digits_value_string d : digits_value (NilEmpty.string_of_uint d) 0 = Some (N.of_uint d).
Proof.
  induction d as [|d IH|d IH|d IH|d IH|d IH|d IH|d IH|d IH|d IH|d IH]; cbn; [done|exact IH|..];
    apply digits_value_acc.
Qed.

Lemma to_string_digits n : text_all is_digit (to_string n) = true.
Proof.
  unfold to_string, NilZero.string_of_uint. destruct (N.to_uint n) as [|d|d|d|d|d|d|d|d|d|d]; [done|..];
    cbn; induction d; cbn; (done || assumption).
Qed.

Lemma to_string_not_empty n : to_string n ≠ "".
Proof. unfold to_string, NilZero.string_of_uint. by destruct (N.to_uint n). Qed.

Lemma to_string_value n : digits_value (to_string n) 0 = Some n.
Proof.
  assert (∀ d, N.to_uint n = d → n = N.of_uint d) as H.
  { intros d <-. symmetry. apply Unsigned.of_to. }
  unfold to_string, NilZero.string_of_uint.
  destruct (N.to_uint n) as [|d|d|d|d|d|d|d|d|d|d] eqn:E; rewrite (H _ eq_refl);
    first [done|apply digits_value_string].
Qed.

Lemma ParseU64_to_string n : u64_fits n → ParseU64 (to_string n) = Some n.
Proof.
  intros Hn. unfold ParseU64. destruct (to_string n) eqn:E; [by apply to_string_not_empty in E|].
  rewrite <-E, to_string_value. cbn [mbind option_bind].
  rewrite (proj2 (N.leb_le _ _)); [done|]. unfold uint_max, uint_fits in *. lia.
Qed.

Lemma to_string_word n : is_word (to_string n).
Proof.
  split; [apply to_string_not_empty|]. eapply text_all_impl; [|apply to_string_digits].
  intros c Hc. by apply part_plain, item_part, digit_item.
Qed.

(** ** Words *)

Definition spaced (words : list string) : string :=
  String.concat "" ((λ word, " " ++ word) <$> words).

Lemma string_concat_cons a l : String.concat "" (a :: l) = a ++ String.concat "" l.
Proof. destruct l; [|done]. cbn. induction a; cbn; by f_equal. Qed.

Lemma spaced_cons word words : spaced (word :: words) = " " ++ word ++ spaced words.
Proof. unfold spaced. cbn [fmap list_fmap]. by rewrite string_concat_cons. Qed.

Lemma string_app_assoc (a b c : string) : (a ++ b) ++ c = a ++ b ++ c.
Proof. induction a; cbn; by f_equal. Qed.

Lemma string_app_nil (a : string) : a ++ "" = a.
Proof. induction a; cbn; by f_equal. Qed.

Lemma spaced_app words others : spaced (words ++ others) = spaced words ++ spaced others.
Proof.
  induction words as [|word words IH]; [done|]. cbn [app]. by rewrite !spaced_cons, IH, !string_app_assoc.
Qed.

Lemma split_words_app word rest : text_all plain_char word = true →
  split_words (word ++ rest) = let '(first, words) := split_words rest in (word ++ first, words).
Proof.
  induction word as [|c word IH]; intros H; [by cbn; destruct (split_words rest)|].
  cbn in *. apply andb_prop in H as [Hc Hw]. rewrite IH by done.
  destruct (split_words rest) as [first words]. apply andb_prop in Hc as [Hc _].
  by destruct (is_space c).
Qed.

Lemma split_words_spaced words : Forall is_word words → split_words (spaced words) = ("", words).
Proof.
  induction 1 as [|word words [Hne Hw] Hws IH]; [done|]. rewrite spaced_cons. cbn.
  rewrite split_words_app, IH by done. rewrite string_app_nil. by destruct word.
Qed.

Lemma SplitWhitespace_words word words : is_word word → Forall is_word words →
  SplitWhitespace (word ++ spaced words) = word :: words.
Proof.
  intros [Hne Hw] Hws. unfold SplitWhitespace. rewrite split_words_app, split_words_spaced by done.
  rewrite string_app_nil. by destruct word.
Qed.

Lemma spaced_text test words : test " "%char = true → Forall (λ w, text_all test w = true) words →
  text_all test (spaced words) = true.
Proof.
  intros Hs Hw. unfold spaced. apply text_all_concat; [done|]. apply Forall_fmap.
  eapply Forall_impl; [exact Hw|]. intros w H. cbn. by rewrite Hs.
Qed.

(** ** Separators *)

Definition not_char (separator c : ascii) : bool := negb (Ascii.eqb c separator).

Lemma cut_none separator text : text_all (not_char separator) text = true → cut separator text = None.
Proof.
  induction text as [|c text IH]; [done|]. cbn. unfold not_char at 1. intros [Hc Ht]%andb_prop.
  apply negb_true_iff in Hc. by rewrite Hc, IH.
Qed.

Lemma cut_app separator before after : text_all (not_char separator) before = true →
  cut separator (before ++ String separator after) = Some (before, after).
Proof.
  induction before as [|c before IH]; cbn; [by rewrite Ascii.eqb_refl|].
  unfold not_char at 1. intros [Hc Ht]%andb_prop. apply negb_true_iff in Hc. by rewrite Hc, IH.
Qed.

Lemma pieces_none separator text : text_all (not_char separator) text = true →
  pieces separator text = (text, []).
Proof.
  induction text as [|c text IH]; [done|]. cbn. unfold not_char at 1. intros [Hc Ht]%andb_prop.
  apply negb_true_iff in Hc. by rewrite Hc, IH.
Qed.

Lemma pieces_app separator piece rest : text_all (not_char separator) piece = true →
  pieces separator (piece ++ String separator rest) = (piece, split_on separator rest).
Proof.
  unfold split_on. induction piece as [|c piece IH]; cbn.
  - rewrite Ascii.eqb_refl. by destruct (pieces separator rest).
  - unfold not_char at 1. intros [Hc Ht]%andb_prop. apply negb_true_iff in Hc.
    rewrite IH by done. destruct (pieces separator rest). by rewrite Hc.
Qed.

Lemma split_on_app separator piece rest : text_all (not_char separator) piece = true →
  split_on separator (piece ++ String separator rest) = piece :: split_on separator rest.
Proof. intros H. unfold split_on at 1. by rewrite pieces_app. Qed.

(** The lines of a text in which every line is ended. *)
Lemma split_on_lines lines : Forall (λ line, text_all (not_char "010") line = true) lines →
  split_on "010" (String.concat "" ((λ line, line ++ newline) <$> lines)) = (lines ++ [""])%list.
Proof.
  induction 1 as [|line lines Hl Hls IH]; [done|]. cbn [fmap list_fmap].
  rewrite string_concat_cons, string_app_assoc. change newline with (String "010" ""). cbn [append].
  rewrite split_on_app by done. cbn [app]. by f_equal.
Qed.

(** ** Comma-separated parts *)

Lemma split_on_concat parts : parts ≠ [] → Forall (λ p, text_all (not_char ",") p = true) parts →
  split_on "," (String.concat "," parts) = parts.
Proof.
  intros Hne H. induction H as [|part parts Hp Hps IH]; [done|]. destruct parts as [|next parts].
  - cbn. unfold split_on. by rewrite pieces_none.
  - change (String.concat "," (part :: next :: parts))
      with (part ++ String "," (String.concat "," (next :: parts))).
    rewrite split_on_app by done. by rewrite IH.
Qed.

Lemma commas_within_none max elements text : text_all (not_char ",") text = true →
  commas_within max elements text = true.
Proof.
  induction text as [|c text IH]; [done|]. cbn. unfold not_char at 1. intros [Hc Ht]%andb_prop.
  apply negb_true_iff in Hc. rewrite Hc. by apply IH.
Qed.

Lemma commas_within_app max elements part text : text_all (not_char ",") part = true →
  commas_within max elements (part ++ String "," text) =
  if max <? elements + 1 then false else commas_within max (elements + 1) text.
Proof.
  induction part as [|c part IH]; [done|]. cbn. unfold not_char at 1. intros [Hc Ht]%andb_prop.
  apply negb_true_iff in Hc. rewrite Hc. by apply IH.
Qed.

Lemma commas_within_concat max parts : ∀ elements,
  Forall (λ p, text_all (not_char ",") p = true) parts → elements + size parts ≤ max + 1 →
  commas_within max elements (String.concat "," parts) = true.
Proof.
  induction parts as [|part parts IH]; intros elements H Hm; [done|].
  apply Forall_cons in H as [Hp Hps]. destruct parts as [|next parts].
  - by apply commas_within_none.
  - change (String.concat "," (part :: next :: parts))
      with (part ++ String "," (String.concat "," (next :: parts))).
    rewrite commas_within_app by done. autorewrite with size in *.
    rewrite (proj2 (N.ltb_ge _ _)) by lia. apply IH; [done|]. autorewrite with size. lia.
Qed.

Lemma SplitCommas_concat max parts : parts ≠ [] → size parts ≤ max →
  Forall (λ p, text_all part_char p = true) parts →
  SplitCommas (String.concat "," parts) max = Some parts.
Proof.
  intros Hne Hm Hp. assert (Forall (λ p, text_all (not_char ",") p = true) parts) as Hc.
  { eapply Forall_impl; [exact Hp|]. intros p. apply text_all_impl. intros c [_ H]%andb_prop. done. }
  unfold SplitCommas. rewrite commas_within_concat by (done || lia). by rewrite split_on_concat.
Qed.

Lemma parse_parts_fmap {A} (parse : string → option A) (write : A → string) l :
  Forall (λ a, parse (write a) = Some a) l → Args.parse_parts parse (write <$> l) = Some l.
Proof.
  induction 1 as [|a l Ha Hl IH]; [done|]. cbn. rewrite Ha. cbn [mbind option_bind]. by rewrite IH.
Qed.

Lemma comma_list_word {A} (write : A → string) l : l ≠ [] →
  Forall (λ a, write a ≠ "" ∧ text_all part_char (write a) = true) l →
  is_word (comma_list write l).
Proof.
  intros Hne H. split.
  - destruct H as [|a l [Ha _] _]; [done|]. unfold comma_list. cbn [fmap list_fmap].
    destruct l as [|b l]; cbn; [done|]. by destruct (write a).
  - apply text_all_concat; [done|]. apply Forall_fmap. eapply Forall_impl; [exact H|].
    intros a [_ Ha]. eapply text_all_impl; [apply part_plain|done].
Qed.

(** * Facts about the arguments of a directive

    A line written from key/value pairs is parsed back to the pairs, and each call
    on the [ArgParser] returns the value of its key and marks it. *)

Abbreviation Pairs := (list (string * string)).

(** ** Lines *)

(** The text of the pairs. *)
Fixpoint render (kvs : Pairs) : string :=
  match kvs with
  | [] => ""
  | (key, value) :: kvs => " " ++ key ++ " " ++ value ++ render kvs
  end.

Definition words_of (kvs : Pairs) : list string := mjoin ((λ kv, [kv.1; kv.2]) <$> kvs).

Lemma render_words kvs : render kvs = spaced (words_of kvs).
Proof.
  induction kvs as [|[key value] kvs IH]; [done|].
  change (words_of ((key, value) :: kvs)) with (key :: value :: words_of kvs).
  by rewrite !spaced_cons, <-IH.
Qed.

Lemma render_app kvs others : render (kvs ++ others)%list = render kvs ++ render others.
Proof.
  induction kvs as [|[key value] kvs IH]; [done|].
  change (((key, value) :: kvs) ++ others)%list with ((key, value) :: (kvs ++ others))%list.
  cbn [render]. rewrite IH. by rewrite !string_app_assoc.
Qed.

(** The pair of a list that is left out where it is empty, and of an optional. *)
Definition list_pair {A} (key : string) (write : A → string) (l : list A) : Pairs :=
  match l with
  | [] => []
  | _ => [(key, comma_list write l)]
  end.

Definition optional_pair (key : string) (id : option N) : Pairs :=
  match id with
  | Some id => [(key, to_string id)]
  | None => []
  end.

Lemma render_list {A} key (write : A → string) l :
  render (list_pair key write l) = write_list (" " ++ key ++ " ") write l.
Proof. destruct l; [done|]. cbn. by rewrite string_app_nil, string_app_assoc. Qed.

Lemma render_optional key id : render (optional_pair key id) = write_optional (" " ++ key ++ " ") id.
Proof. destruct id; [|done]. cbn. by rewrite string_app_nil, string_app_assoc. Qed.

(** ** The parser of a line *)

Definition value_of (key : string) (kvs : Pairs) : option string :=
  snd <$> find (λ kv, String.eqb kv.1 key) kvs.

(** The arguments after the keys in [keys] were asked for. *)
Definition asked (keys : list string) (kvs : Pairs) : list Argument :=
  (λ kv, mkArgument kv.1 kv.2 (existsb (String.eqb kv.1) keys)) <$> kvs.

Definition parsing (directive : string) (line : N) (kvs : Pairs) (keys : list string) : ArgParser :=
  mkArgs directive line (asked keys kvs) false false "".

(** Pairs a line can carry. *)
Record pairs_ok (kvs : Pairs) : Prop := {
  po_keys : NoDup kvs.*1;
  po_words : Forall (λ kv, is_word kv.1 ∧ is_word kv.2) kvs;
  po_count : size kvs ≤ kMaxKeysPerDirective;
}.

Lemma existsb_key key args :
  existsb (λ existing, String.eqb (arg_key existing) key) args = false ↔ key ∉ arg_key <$> args.
Proof.
  rewrite <-not_true_iff_false, existsb_exists_elem, list_elem_of_fmap. apply not_iff_compat.
  split; intros (a & H1 & H2); exists a; [|subst key]; b2p; done.
Qed.

Lemma collect_pairs kvs : ∀ args, NoDup (arg_key <$> args) → NoDup ((arg_key <$> args) ++ kvs.*1) →
  collect_arguments (words_of kvs) args = ((args ++ asked [] kvs)%list, "").
Proof.
  induction kvs as [|[key value] kvs IH]; intros args Ha Hn; [by rewrite app_nil_r|].
  change (words_of ((key, value) :: kvs)) with (key :: value :: words_of kvs).
  cbn [collect_arguments]. cbn [fmap list_fmap fst] in Hn.
  rewrite (proj2 (existsb_key _ _)).
  - rewrite cons_middle, app_assoc in Hn.
    rewrite IH; [by rewrite <-app_assoc|by rewrite fmap_app; apply NoDup_app in Hn as (Hn & _)|].
    by rewrite fmap_app.
  - intros Hin. apply NoDup_app in Hn as (_ & Hn & _). apply (Hn key Hin). by left.
Qed.

Lemma words_size kvs : size (words_of kvs) = 2 * size kvs.
Proof.
  induction kvs as [|[key value] kvs IH]; [done|].
  change (words_of ((key, value) :: kvs)) with (key :: value :: words_of kvs).
  autorewrite with size. rewrite IH. lia.
Qed.

Lemma ArgParser_pairs directive line kvs : pairs_ok kvs →
  ArgParser_init directive (words_of kvs) line = parsing directive line kvs [].
Proof.
  intros [Hn _ Hc]. unfold ArgParser_init. rewrite words_size, N.mul_comm, N.Div0.mod_mul, N.div_mul by done.
  cbn [negb N.eqb]. rewrite (proj2 (N.ltb_ge _ _) Hc).
  rewrite collect_pairs; [done|constructor|done].
Qed.

Lemma words_ok kvs : pairs_ok kvs → Forall is_word (words_of kvs).
Proof.
  intros [_ Hw _]. induction Hw as [|[key value] kvs [Hk Hv] Hs IH]; [constructor|].
  change (words_of ((key, value) :: kvs)) with (key :: value :: words_of kvs). by rewrite !Forall_cons.
Qed.

Lemma plain_line directive kvs : is_word directive → pairs_ok kvs →
  text_all (λ c, negb (Ascii.eqb c "#") && negb (Ascii.eqb c "010")) (directive ++ render kvs) = true.
Proof.
  intros [_ Hd] Hp%words_ok. rewrite text_all_app, render_words. apply andb_true_intro.
  assert (∀ c, plain_char c = true → negb (Ascii.eqb c "#") && negb (Ascii.eqb c "010") = true) as Hc.
  { intros c. by destruct c as [[] [] [] [] [] [] [] []]. }
  split; [by eapply text_all_impl|]. apply spaced_text; [done|].
  eapply Forall_impl; [exact Hp|]. intros w [_ Hw]. by eapply text_all_impl.
Qed.

(** A line of pairs reaches its directive with the pairs as arguments. *)
Lemma ParseLine_pairs limits number directive kvs s :
  is_word directive → directive ≠ "version" → pairs_ok kvs →
  string_size (directive ++ render kvs) ≤ kMaxScenarioLineBytes →
  ParseLine limits number (directive ++ render kvs) s =
  ParseDirective limits (parsing directive number kvs []) s.
Proof.
  intros Hd Hv Hp Hs. unfold ParseLine. rewrite (proj2 (N.ltb_ge _ _) Hs).
  unfold without_comment. rewrite cut_none.
  - rewrite render_words, SplitWhitespace_words by (done || by apply words_ok).
    rewrite (proj2 (String.eqb_neq _ _) Hv), ArgParser_pairs by done. done.
  - eapply text_all_impl; [|by apply plain_line]. by intros c [H _]%andb_prop.
Qed.

(** ** Reading *)

Section Reading.
Context (directive : string) (line : N) (kvs : Pairs).
Context (Hkeys : NoDup kvs.*1).

(** A call, or a chain of calls, returns [a] after the keys [before] were asked for
    and leaves the keys [after] asked for. *)
Definition reads_arg {A} (before : list string) (m : Arg A) (after : list string) (a : A) : Prop :=
  m (parsing directive line kvs before) = Value (a, parsing directive line kvs after).

Lemma reads_arg_ret {A} keys (a : A) : reads_arg keys (mret a) keys a.
Proof. done. Qed.

Lemma reads_arg_eq {A} keys (a b : A) : a = b → reads_arg keys (mret a) keys b.
Proof. by intros ->. Qed.

Lemma reads_arg_bind {A B} (m : Arg A) (k : A → Arg B) keys keys1 keys2 a b :
  reads_arg keys m keys1 a → reads_arg keys1 (k a) keys2 b → reads_arg keys (m ≫= k) keys2 b.
Proof. unfold reads_arg. intros H1 H2. unfold mbind, Arg_bind. by rewrite H1. Qed.

Lemma asked_other key keys others : key ∉ others.*1 → asked (key :: keys) others = asked keys others.
Proof.
  induction others as [|[k v] others IH]; intros Hn; [done|]. apply not_elem_of_cons in Hn as [Hk Hn].
  unfold asked in *. cbn [fmap list_fmap fst snd] in *. rewrite IH by done. f_equal. f_equal. cbn.
  apply not_eq_sym, String.eqb_neq in Hk. by rewrite Hk.
Qed.

Lemma consume_asked key keys : ∀ others, NoDup others.*1 →
  consume key (asked keys others) =
  '(v) ← value_of key others; Some (v, asked (key :: keys) others).
Proof.
  induction others as [|[k v] others IH]; intros Hn; [done|]. apply NoDup_cons in Hn as [Hk Hn].
  unfold asked, value_of. cbn [fmap list_fmap consume arg_key arg_value find fst snd].
  destruct (String.eqb_spec k key) as [->|Hne].
  - cbn. rewrite String.eqb_refl. cbn. do 3 f_equal. symmetry. by apply asked_other.
  - fold (asked keys others). rewrite IH by done. unfold value_of.
    destruct (find _ others) as [[k' v']|]; cbn; [|done].
    apply String.eqb_neq in Hne. by rewrite Hne.
Qed.

Lemma reads_find key required keys v : value_of key kvs = Some v →
  reads_arg keys (Args.Find key required) (key :: keys) (Some v).
Proof. intros H. unfold reads_arg, Args.Find. cbn. by rewrite consume_asked, H. Qed.

Lemma value_of_None key others : value_of key others = None → key ∉ others.*1.
Proof.
  unfold value_of. intros H%fmap_None Hin. apply list_elem_of_fmap in Hin as ([k v] & -> & Hin).
  apply list_elem_of_In in Hin. apply (find_none _ _ H) in Hin. cbn in Hin. by rewrite String.eqb_refl in Hin.
Qed.

Lemma reads_find_none key keys : value_of key kvs = None →
  reads_arg keys (Args.Find key false) (key :: keys) None.
Proof.
  intros H. unfold reads_arg, Args.Find. cbn. rewrite consume_asked, H by done. cbn.
  unfold parsing. by rewrite asked_other by (by apply value_of_None).
Qed.

Lemma reads_arg_u64 key required keys old n : value_of key kvs = Some (to_string n) → u64_fits n →
  reads_arg keys (Args.U64 key required old) (key :: keys) n.
Proof.
  intros H Hn. eapply reads_arg_bind; [by apply reads_find|]. cbn.
  by rewrite ParseU64_to_string.
Qed.

Lemma reads_id key required keys n : value_of key kvs = Some (to_string n) → u64_fits n →
  reads_arg keys (Args.Id key required) (key :: keys) n.
Proof. apply reads_arg_u64. Qed.

Lemma Narrow_fits w n : uint_fits w n → Narrow w n = Some n.
Proof.
  intros H. unfold Narrow. rewrite (proj2 (N.ltb_ge _ _)); [by rewrite wrap_small|]. unfold uint_max, uint_fits in *. lia.
Qed.

Lemma reads_arg_u32 key required keys n : value_of key kvs = Some (to_string n) → u32_fits n →
  reads_arg keys (Args.U32 key required) (key :: keys) n.
Proof.
  intros H Hn. eapply reads_arg_bind; [apply reads_arg_u64; [done|unfold uint_fits in *; lia]|].
  cbn beta. unfold NarrowU32. by rewrite Narrow_fits.
Qed.

Lemma reads_narrowed w keys n message : uint_fits w n →
  reads_arg keys (narrowed (Narrow w n) message) keys n.
Proof. intros Hn. by rewrite Narrow_fits. Qed.

Lemma reads_bool key required keys old b : value_of key kvs = Some (bool_text b) →
  reads_arg keys (Args.Bool key required old) (key :: keys) b.
Proof. intros H. eapply reads_arg_bind; [by apply reads_find|]. by destruct b. Qed.

Lemma reads_text key required keys old max v : value_of key kvs = Some v → string_size v ≤ max →
  reads_arg keys (Args.Text key required old max) (key :: keys) v.
Proof.
  intros H Hm. eapply reads_arg_bind; [by apply reads_find|]. cbn beta iota.
  by rewrite (proj2 (N.ltb_ge _ _) Hm).
Qed.

Lemma reads_arg_enum {T} key required keys (parse : string → option T) old w v :
  value_of key kvs = Some w → parse w = Some v →
  reads_arg keys (Args.Enum key required parse old) (key :: keys) v.
Proof. intros H Hv. eapply reads_arg_bind; [by apply reads_find|]. cbn. by rewrite Hv. Qed.

(** A list, or the default where it was left out. *)
Lemma reads_list {A} (parse : string → option A) entries write key required keys l max :
  value_of key kvs = match l with [] => None | _ => Some (comma_list write l) end →
  (l = [] → required = false) → size l ≤ max →
  Forall (λ a, parse (write a) = Some a ∧ text_all part_char (write a) = true) l →
  reads_arg keys (Args.List parse entries key required [] max) (key :: keys) l.
Proof.
  intros H Hr Hm Hl. destruct l as [|a l].
  - rewrite Hr by done. eapply reads_arg_bind; [by apply reads_find_none|done].
  - eapply reads_arg_bind; [by apply reads_find|]. cbn beta iota. unfold comma_list.
    rewrite SplitCommas_concat; [|done|unfold size in *; by rewrite length_fmap|].
    + rewrite parse_parts_fmap; [done|]. eapply Forall_impl; [exact Hl|]. by intros ? [].
    + apply Forall_fmap. eapply Forall_impl; [exact Hl|]. by intros ? [].
Qed.

Lemma reads_finish keys : (∀ key, key ∈ kvs.*1 → key ∈ keys) →
  reads_arg keys Args.Finish keys tt.
Proof.
  intros Hk. unfold reads_arg, Args.Finish. cbn [ap_args parsing].
  destruct (find _ _) as [entry|] eqn:E; [|done]. apply find_some in E as [Hin Hc].
  apply list_elem_of_In, list_elem_of_fmap in Hin as ([k v] & -> & Hin). cbn in Hc.
  apply negb_true_iff in Hc. rewrite <-not_true_iff_false, existsb_exists_elem in Hc. destruct Hc.
  exists k. split; [|by apply String.eqb_refl]. apply Hk. apply list_elem_of_fmap. by exists (k, v).
Qed.
End Reading.
