(* ===== verification/ScenarioRound.v ===== *)
(** * Parsing what was rendered

    Every line of [WriteScenario] is its directive followed by key/value pairs, and
    parses back to the record it was written from. *)

From Stdlib Require Import String Ascii.
From S2P Require Import Prelude StdAlgo Checked Status Bytes Hash Model ModelDigest Validate.
From S2P Require Import Explain Records Codec CodecFacts RuntimeState.
From S2P Require Import Scenario ScenarioText.

Open Scope string_scope.
Open Scope N_scope.

#[local] Arguments String.append : simpl nomatch.

(** ** Values *)

(** A name that is parsed back and can stand in a list of pairs of names. *)
Definition named {T} (parse : string → option T) (name : T → string) (v : T) : Prop :=
  parse (name v) = Some v ∧ name v ≠ "" ∧ text_all item_char (name v) = true.

(** Declared enumerators have names; [kOther] is none of them. *)
Ltac enum_named ordinal cast :=
  intros v [Hm Hc]; destruct v; try (by split_and!);
  unfold ordinal in Hm; unfold cast in Hc; exfalso; repeat (case_match; try done); simplify_eq; lia.

Lemma ServiceClass_named v : enumerator ServiceClass_ordinal ServiceClass_cast 3 v →
  named ParseServiceClass ServiceClassName v.
Proof. revert v. enum_named ServiceClass_ordinal ServiceClass_cast. Qed.
Lemma PriorityClass_named v : enumerator PriorityClass_ordinal PriorityClass_cast 3 v →
  named ParsePriorityClass PriorityClassName v.
Proof. revert v. enum_named PriorityClass_ordinal PriorityClass_cast. Qed.
Lemma PathTier_named v : enumerator PathTier_ordinal PathTier_cast 2 v →
  named ParsePathTier PathTierName v.
Proof. revert v. enum_named PathTier_ordinal PathTier_cast. Qed.
Lemma LocalityScope_named v : enumerator LocalityScope_ordinal LocalityScope_cast 4 v →
  named ParseLocalityScope LocalityScopeName v.
Proof. revert v. enum_named LocalityScope_ordinal LocalityScope_cast. Qed.
Lemma ObjectiveKind_named v : enumerator ObjectiveKind_ordinal ObjectiveKind_cast 8 v →
  named ParseObjectiveKind ObjectiveKindName v.
Proof. revert v. enum_named ObjectiveKind_ordinal ObjectiveKind_cast. Qed.
Lemma Direction_named v : enumerator Direction_ordinal Direction_cast 1 v →
  named ParseDirection DirectionName v.
Proof. revert v. enum_named Direction_ordinal Direction_cast. Qed.
Lemma EvidencePolicyMode_named v : enumerator EvidencePolicyMode_ordinal EvidencePolicyMode_cast 1 v →
  named ParseEvidencePolicyMode EvidencePolicyModeName v.
Proof. revert v. enum_named EvidencePolicyMode_ordinal EvidencePolicyMode_cast. Qed.
Lemma GateAction_named v : enumerator GateAction_ordinal GateAction_cast 1 v →
  named ParseGateAction GateActionName v.
Proof. revert v. enum_named GateAction_ordinal GateAction_cast. Qed.
Lemma ChurnAction_named v : enumerator ChurnAction_ordinal ChurnAction_cast 1 v →
  named ParseChurnAction ChurnActionName v.
Proof. revert v. enum_named ChurnAction_ordinal ChurnAction_cast. Qed.

Create HintDb named.
#[export] Hint Resolve ServiceClass_named PriorityClass_named PathTier_named LocalityScope_named
  ObjectiveKind_named Direction_named EvidencePolicyMode_named GateAction_named ChurnAction_named
  : named.

Lemma named_word {T} parse name (v : T) : named parse name v → is_word (name v).
Proof.
  intros (_ & Hne & Ht). split; [done|]. eapply text_all_impl; [|exact Ht].
  intros c Hc. by apply part_plain, item_part.
Qed.

Lemma named_parse {T} parse name (v : T) : named parse name v → parse (name v) = Some v.
Proof. by intros []. Qed.

Lemma bool_word b : is_word (bool_text b).
Proof. by destruct b. Qed.

(** An element of a list: it is parsed back and does not end its part. *)
Definition listed {A} (parse : string → option A) (write : A → string) (a : A) : Prop :=
  parse (write a) = Some a ∧ write a ≠ "" ∧ text_all part_char (write a) = true.

Lemma to_string_items n : text_all item_char (to_string n) = true.
Proof. eapply text_all_impl; [apply digit_item|apply to_string_digits]. Qed.

Lemma item_parts text : text_all item_char text = true → text_all part_char text = true.
Proof. apply text_all_impl. intros c. apply item_part. Qed.

Lemma item_colon text : text_all item_char text = true → text_all (not_char ":") text = true.
Proof. apply text_all_impl. by intros c [_ H]%andb_prop. Qed.

Lemma id_listed n : u64_fits n → listed ParseU64 to_string n.
Proof.
  intros Hn. split_and!; [by apply ParseU64_to_string|apply to_string_not_empty|].
  apply item_parts, to_string_items.
Qed.

Lemma colon_part a b : text_all item_char a = true → text_all item_char b = true →
  a ++ ":" ++ b ≠ "" ∧ text_all part_char (a ++ ":" ++ b) = true ∧
  cut ":" (a ++ ":" ++ b) = Some (a, b).
Proof.
  intros Ha Hb. split_and!; [by destruct a| |].
  - rewrite !text_all_app, (item_parts a), (item_parts b) by done. done.
  - by apply cut_app, item_colon.
Qed.

Lemma ref_listed r : reservation_fits r → listed Args.parse_ref AppendRef r.
Proof.
  intros [Hi [Hg _]%Forall_cons]%Forall_cons.
  destruct (colon_part (to_string (ref_id r)) (to_string (ref_generation r)))
    as (Hne & Hp & Hc); [apply to_string_items..|].
  split_and!; [|done|done]. unfold Args.parse_ref, AppendRef. rewrite Hc. cbn [mbind option_bind].
  rewrite !ParseU64_to_string by done. by destruct r.
Qed.

Lemma tier_listed v : tier_fits v → listed ParsePathTier PathTierName v.
Proof. intros (? & ? & ?)%PathTier_named. split_and!; [done|done|by apply item_parts]. Qed.

Lemma list_word {A} parse (write : A → string) l : l ≠ [] → Forall (listed parse write) l →
  is_word (comma_list write l).
Proof.
  intros Hne Hl. apply comma_list_word; [done|]. eapply Forall_impl; [exact Hl|].
  by intros a (_ & ? & ?).
Qed.

(** ** Pairs *)

Lemma value_of_app key kvs others :
  value_of key (kvs ++ others)%list =
  match value_of key kvs with Some v => Some v | None => value_of key others end.
Proof.
  induction kvs as [|[k v] kvs IH]; [done|]. unfold value_of in *. cbn.
  by destruct (String.eqb k key).
Qed.

Lemma value_of_list {A} key k (write : A → string) l :
  value_of key (list_pair k write l) =
  if String.eqb k key then match l with [] => None | _ => Some (comma_list write l) end else None.
Proof. unfold value_of, list_pair. destruct l; cbn; by destruct (String.eqb k key). Qed.

Lemma value_of_optional key k id :
  value_of key (optional_pair k id) =
  if String.eqb k key then match id with Some n => Some (to_string n) | None => None end else None.
Proof. unfold value_of, optional_pair. destruct id; cbn; by destruct (String.eqb k key). Qed.

Lemma keys_list {A} key (write : A → string) l : (list_pair key write l).*1 `sublist_of` [key].
Proof. destruct l; [apply sublist_nil_l|done]. Qed.

Lemma keys_optional key id : (optional_pair key id).*1 `sublist_of` [key].
Proof. destruct id; [done|apply sublist_nil_l]. Qed.

Lemma pairs_fit (keys : list string) (kvs : Pairs) : kvs.*1 `sublist_of` keys → NoDup keys →
  Forall is_word keys → Forall (λ kv, is_word kv.2) kvs → size keys ≤ kMaxKeysPerDirective →
  pairs_ok kvs.
Proof.
  intros Hs Hn Hk Hv Hm. split.
  - by eapply sublist_NoDup.
  - rewrite Forall_forall in Hk. rewrite Forall_forall in Hv. rewrite Forall_forall.
    intros [k v] Hin. split; [|by apply (Hv (k, v))]. apply Hk. eapply elem_of_sublist; [|exact Hs]. apply list_elem_of_fmap. by exists (k, v).
  - apply sublist_length in Hs. rewrite length_fmap in Hs. unfold size in *. lia.
Qed.

(** ** Calls *)

Section Calls.
Context (directive : string) (line : N) (kvs : Pairs).
Context (Hkeys : NoDup kvs.*1).

Abbreviation reads_arg := (reads_arg directive line kvs).

Lemma reads_listed {A} (parse : string → option A) entries write key keys l max :
  value_of key kvs = match l with [] => None | _ => Some (comma_list write l) end →
  size l ≤ max → Forall (listed parse write) l →
  reads_arg keys (Args.List parse entries key false [] max) (key :: keys) l.
Proof.
  intros H Hm Hl. apply (reads_list _ _ _ Hkeys _ _ write); [done..|].
  eapply Forall_impl; [exact Hl|]. by intros a (? & _ & ?).
Qed.

Lemma reads_named {T} key required keys (parse : string → option T) name old v :
  value_of key kvs = Some (name v) → named parse name v →
  reads_arg keys (Args.Enum key required parse old) (key :: keys) v.
Proof. intros H Hv. eapply reads_arg_enum; [done|done|by apply named_parse]. Qed.

Lemma reads_optional key keys id :
  value_of key kvs = match id with Some n => Some (to_string n) | None => None end →
  optional_fits id → reads_arg keys (optional_id key) (key :: keys) id.
Proof.
  intros H [Hf H0]. destruct id as [n|].
  - eapply reads_arg_bind; [by apply reads_id|]. cbn beta. unfold valid.
    destruct (N.eqb_spec n 0) as [->|]; done.
  - apply (reads_arg_bind _ _ _ _ _ keys (key :: keys) _ 0 None); [|done].
    eapply reads_arg_bind; [by apply reads_find_none|apply reads_arg_ret].
Qed.

Lemma reads_objectives keys l max : l ≠ [] → size l ≤ max → Forall objective_fits l →
  reads_arg keys (ParseObjectives (comma_list write_objective l) max) keys l.
Proof.
  intros Hne Hm Hl. unfold ParseObjectives, comma_list.
  assert (∀ o, objective_fits o → text_all part_char (write_objective o) = true ∧
    cut ":" (write_objective o) = Some (ObjectiveKindName (obj_kind o), DirectionName (obj_direction o)))
    as Hcut.
  { intros o [(_ & _ & Hk)%ObjectiveKind_named (_ & _ & Hd)%Direction_named].
    by apply colon_part. }
  rewrite SplitCommas_concat; [|by destruct l|unfold size in *; by rewrite length_fmap|].
  - assert (reads_arg keys (objectives_of (write_objective <$> l)) keys l) as H; [|by destruct l].
    clear Hne Hm. induction Hl as [|o l Ho Hl IH]; [done|]. cbn [fmap list_fmap objectives_of].
    destruct (Hcut o Ho) as [_ ->], Ho as [Hk%ObjectiveKind_named%named_parse Hd%Direction_named%named_parse].
    rewrite Hk, Hd. eapply reads_arg_bind; [exact IH|]. by destruct o.
  - apply Forall_fmap. eapply Forall_impl; [exact Hl|]. intros o Ho. by apply Hcut.
Qed.

Lemma reads_tiers keys l : l ≠ [] → size l ≤ 3 → Forall tier_fits l →
  reads_arg keys (ParseTierList (comma_list PathTierName l)) keys l.
Proof.
  intros Hne Hm Hl. unfold ParseTierList, comma_list.
  rewrite SplitCommas_concat; [|by destruct l|unfold size in *; by rewrite length_fmap|].
  - clear Hne Hm. induction Hl as [|t l Ht Hl IH]; [done|]. cbn [fmap list_fmap tiers_of].
    destruct (tier_listed t Ht) as [-> _]. by eapply reads_arg_bind.
  - apply Forall_fmap. eapply Forall_impl; [exact Hl|]. intros t Ht. by apply tier_listed in Ht as (_ & _ & ?).
Qed.

Lemma reads_tier_list {B} key keys l (k : list PathTier → Arg B) keys2 b :
  value_of key kvs = match l with [] => None | _ => Some (comma_list PathTierName l) end →
  size l ≤ 3 → Forall tier_fits l → reads_arg (key :: keys) (k l) keys2 b →
  reads_arg keys
    (text ← Args.Find key false;
     tiers ← (match text with Some text => ParseTierList text | None => mret [] end);
     k tiers) keys2 b.
Proof.
  intros H Hm Hl Hk. destruct l as [|tier l].
  - eapply reads_arg_bind; [by apply reads_find_none|]. cbn beta iota. by eapply reads_arg_bind.
  - eapply reads_arg_bind; [by apply reads_find|]. cbn beta iota.
    eapply reads_arg_bind; [by apply reads_tiers|done].
Qed.
End Calls.
