(* ===== verification/ScenarioLines.v ===== *)
(** * The lines of a rendered scenario

    For each directive: the pairs of its line, their text, and that the arguments
    are read back from them. *)

From Stdlib Require Import String Ascii.
From S2P Require Import Prelude StdAlgo Checked Status Bytes Hash Model ModelDigest Validate.
From S2P Require Import Explain Records Codec CodecFacts RuntimeState.
From S2P Require Import Scenario ScenarioText ScenarioRound.

Open Scope string_scope.
Open Scope N_scope.

#[local] Arguments String.append : simpl nomatch.

(** ** Automation *)

Lemma string_app_literal c a b : String c a ++ b = String c (a ++ b).
Proof. done. Qed.

Lemma string_nil_app b : "" ++ b = b.
Proof. done. Qed.

Lemma render_cons key value kvs :
  render ((key, value) :: kvs) = " " ++ key ++ " " ++ value ++ render kvs.
Proof. done. Qed.

Lemma render_nil : render [] = "".
Proof. done. Qed.

(** Both sides become one chain of characters and values. *)
Ltac same_text :=
  rewrite ?render_app, ?render_list, ?render_optional, ?render_cons, ?render_nil;
  rewrite ?string_app_assoc, ?string_app_literal, ?string_nil_app, ?string_app_nil; done.

Lemma list_words {A} key parse (write : A → string) l : Forall (listed parse write) l →
  Forall (λ kv, is_word kv.2) (list_pair key write l).
Proof.
  intros Hl. destruct l as [|a l]; [constructor|]. apply Forall_singleton. by eapply list_word.
Qed.

Lemma optional_words key id : Forall (λ kv, is_word kv.2) (optional_pair key id).
Proof. destruct id; [|constructor]. apply Forall_singleton, to_string_word. Qed.

Lemma ids_listed max l : counted max u64_fits l → Forall (listed ParseU64 to_string) l.
Proof. intros (_ & _ & H). eapply Forall_impl; [exact H|apply id_listed]. Qed.

Lemma refs_listed max l : counted max reservation_fits l → Forall (listed Args.parse_ref AppendRef) l.
Proof. intros (_ & _ & H). eapply Forall_impl; [exact H|apply ref_listed]. Qed.

Lemma tiers_listed max l : counted max tier_fits l → Forall (listed ParsePathTier PathTierName) l.
Proof. intros (_ & _ & H). eapply Forall_impl; [exact H|apply tier_listed]. Qed.

Lemma counted_size {A} max (P : A → Prop) l : counted (clamp32 max) P l → size l ≤ max.
Proof. intros (_ & H & _). unfold clamp32 in H. lia. Qed.

Lemma counted_bound {A} max (P : A → Prop) l : counted max P l → size l ≤ max.
Proof. by intros (_ & H & _). Qed.

#[export] Hint Resolve to_string_word bool_word optional_words ids_listed refs_listed tiers_listed
  counted_size counted_bound : named.
#[export] Hint Extern 1 (is_word (_ _)) => eapply named_word; eauto with named : named.
#[export] Hint Extern 1 (Forall _ (list_pair _ _ _)) => eapply list_words; eauto with named : named.

(** Every value of the pairs is a word. *)
Ltac value_words := rewrite ?Forall_app, ?Forall_cons, ?Forall_nil; cbn [snd];
  repeat match goal with |- _ ∧ _ => split end;
  eauto with named.

(** The keys of the pairs are among the keys of the directive. *)
Ltac among_keys :=
  rewrite ?fmap_app; repeat first [apply sublist_app | apply keys_list | apply keys_optional
                                  | reflexivity].

(** The value of a literal key. *)
Ltac look :=
  rewrite ?value_of_app, ?value_of_list, ?value_of_optional; cbn; repeat case_match; (done || congruence).

Lemma keys_asked (kvs : Pairs) keys asked : kvs.*1 `sublist_of` keys →
  forallb (λ key, existsb (String.eqb key) asked) keys = true → ∀ key, key ∈ kvs.*1 → key ∈ asked.
Proof.
  intros Hs Hk key Hin. rewrite forallb_Forall, Forall_forall in Hk.
  specialize (Hk key (elem_of_sublist _ _ _ Hin Hs)). cbn in Hk.
  apply existsb_exists_elem in Hk as (k & Hk & ->%String.eqb_eq). done.
Qed.

(** One call of a chain, by the lemma of its kind. *)
Ltac read_with H :=
  eapply reads_arg_bind; [eapply H; [eassumption|look|..]; eauto with named|cbn beta iota].
Ltac read_list key :=
  lazymatch goal with
  | |- reads_arg _ _ ?kvs _ _ _ _ =>
      lazymatch kvs with
      | context [list_pair key ?f ?values] =>
          eapply reads_arg_bind;
            [eapply reads_listed with (write := f) (l := values); [eassumption|look|..];
             eauto with named
            |cbn beta iota]
      end
  end.

Ltac read :=
  lazymatch goal with
  | |- reads_arg _ _ _ _ (Args.Id _ _ ≫= _) _ _ => read_with reads_id
  | |- reads_arg _ _ _ _ (Args.U64 _ _ _ ≫= _) _ _ => read_with reads_arg_u64
  | |- reads_arg _ _ _ _ (Args.U32 _ _ ≫= _) _ _ => read_with reads_arg_u32
  | |- reads_arg _ _ _ _ (Args.Bool _ _ _ ≫= _) _ _ => read_with reads_bool
  | |- reads_arg _ _ _ _ (Args.Text _ _ _ _ ≫= _) _ _ => read_with reads_text
  | |- reads_arg _ _ _ _ (Args.Enum _ _ _ _ ≫= _) _ _ => read_with @reads_named
  | |- reads_arg _ _ _ _ (Args.IdList ?key _ _ _ ≫= _) _ _ => read_list key
  | |- reads_arg _ _ _ _ (Args.RefList ?key _ _ _ ≫= _) _ _ => read_list key
  | |- reads_arg _ _ ?kvs _ (optional_id ?key ≫= _) _ _ =>
      lazymatch kvs with
      | context [optional_pair key ?value] =>
          eapply reads_arg_bind;
            [eapply reads_optional with (id := value); [eassumption|look|]; eauto with named
            |cbn beta iota]
      end
  | |- reads_arg _ _ _ _ (narrowed _ _ ≫= _) _ _ =>
      eapply reads_arg_bind; [apply reads_narrowed; eauto with named|cbn beta iota]
  end.

(** The end of a chain. *)
Ltac finish Hsub :=
  eapply reads_arg_bind; [apply reads_finish, (keys_asked _ _ _ Hsub); reflexivity|cbn beta iota].

Lemma u32_of_u16 n : u16_fits n → u32_fits n.
Proof. unfold uint_fits. lia. Qed.
#[export] Hint Resolve u32_of_u16 : named.

(** ** Candidate paths *)

Section Path.
Context (limits : Limits) (path : CandidatePath) (Hfits : path_fits limits path).
Let a := path_attributes path.

Definition path_pairs : Pairs :=
  ([("id", to_string (path_id path)); ("auth", to_string (path_authority path));
    ("tier", PathTierName (attr_tier a)); ("locality", to_string (attr_locality a));
    ("scope", LocalityScopeName (attr_locality_scope a));
    ("domain", to_string (attr_failure_domain a)); ("cost", to_string (attr_cost_micro a));
    ("latency", to_string (attr_latency_nanos a)); ("hops", to_string (attr_hop_count a))] ++
   list_pair "labels" to_string (attr_labels a) ++
   list_pair "reservations" AppendRef (attr_reservations a))%list.

Definition path_keys : list string :=
  (["id"; "auth"; "tier"; "locality"; "scope"; "domain"; "cost"; "latency"; "hops"] ++
   ["labels"] ++ ["reservations"])%list.

Lemma write_path_pairs : write_path path = "path" ++ render path_pairs.
Proof. unfold write_path, path_pairs. same_text. Qed.

Lemma path_pairs_keys : path_pairs.*1 `sublist_of` path_keys.
Proof. unfold path_pairs, path_keys. among_keys. Qed.

Lemma path_pairs_ok : pairs_ok path_pairs.
Proof.
  apply (pairs_fit path_keys); [apply path_pairs_keys|by apply (bool_decide_unpack _)| | |done].
  - by repeat constructor.
  - destruct Hfits as [_ (? & ? & _ & _ & ? & ?)]. unfold path_pairs, tier_fits in *. value_words.
Qed.

Lemma path_read line :
  ∃ keys, reads_arg "path" line path_pairs [] (path_arguments limits) keys path.
Proof.
  destruct Hfits as [Hid (Ht & Hsc & Hn & Hh & Hl & Hr)]. unfold tier_fits in *.
  rewrite !Forall_cons in Hid. rewrite !Forall_cons in Hn.
  destruct Hid as (? & ? & _), Hn as (? & ? & ? & ? & _).
  pose proof (po_keys _ path_pairs_ok) as Hkeys. unfold path_pairs in *.
  eexists. unfold path_arguments. repeat read. finish path_pairs_keys.
  by destruct path as [? ? []].
Qed.
End Path.

(** Opens what a record must fit. *)
Ltac open_numbers :=
  repeat match goal with
  | H : Forall _ (_ :: _) |- _ => apply Forall_cons in H as [? H]
  | H : Forall _ [] |- _ => clear H
  | H : _ ∧ _ |- _ => destruct H
  end.

(** The pairs of a line are pairs of words with different keys. *)
Ltac line_pairs keys Hsub :=
  apply (pairs_fit keys); [apply Hsub|by apply (bool_decide_unpack _)|by repeat constructor| |done].

(** ** Identifier and generation *)

Definition pair_pairs (id generation : N) : Pairs :=
  [("id", to_string id); ("gen", to_string generation)].

Definition pair_keys : list string := ["id"; "gen"].

Lemma pair_pairs_keys id generation : (pair_pairs id generation).*1 `sublist_of` pair_keys.
Proof. done. Qed.

Lemma pair_pairs_ok id generation : pairs_ok (pair_pairs id generation).
Proof. line_pairs pair_keys pair_pairs_keys. unfold pair_pairs. value_words. Qed.

Lemma pair_read directive line id generation : u64_fits id → u64_fits generation →
  reads_arg directive line (pair_pairs id generation) [] pair_arguments ["gen"; "id"] (id, generation).
Proof.
  intros ? ?. pose proof (po_keys _ (pair_pairs_ok id generation)) as Hkeys.
  unfold pair_pairs, pair_arguments in *. repeat read. done.
Qed.

Lemma finished_pair_read directive line id generation : u64_fits id → u64_fits generation →
  reads_arg directive line (pair_pairs id generation) [] finished_pair ["gen"; "id"] (id, generation).
Proof.
  intros ? ?. eapply reads_arg_bind; [by apply pair_read|cbn beta]. finish (pair_pairs_keys id generation). done.
Qed.

(** ** Capacity and evidence entries *)

Definition entry_pairs (entry : PathCapacity) : Pairs :=
  [("path", to_string (cap_path entry)); ("total", to_string (cap_capacity_bytes entry));
   ("residual", to_string (cap_residual_bytes entry))].

Definition entry_keys : list string := ["path"; "total"; "residual"].

Lemma entry_pairs_keys entry : (entry_pairs entry).*1 `sublist_of` entry_keys.
Proof. done. Qed.

Lemma entry_pairs_ok entry : pairs_ok (entry_pairs entry).
Proof. line_pairs entry_keys entry_pairs_keys. unfold entry_pairs. value_words. Qed.

Lemma write_entry_pairs entry : write_entry entry = "entry" ++ render (entry_pairs entry).
Proof. unfold write_entry, entry_pairs. same_text. Qed.

Lemma entry_read line entry : capacity_fits entry →
  ∃ keys, reads_arg "entry" line (entry_pairs entry) [] entry_arguments keys entry.
Proof.
  intros H. unfold capacity_fits in H. open_numbers. pose proof (po_keys _ (entry_pairs_ok entry)) as Hkeys.
  unfold entry_arguments. eexists. pose proof (entry_pairs_keys entry) as Hsub. unfold entry_pairs in *.
  repeat read. finish Hsub. by destruct entry.
Qed.

Definition util_pairs (entry : CongestionEvidenceEntry) : Pairs :=
  [("path", to_string (ev_path entry)); ("ppb", to_string (ev_utilization_ppb entry))].

Definition util_keys : list string := ["path"; "ppb"].

Lemma util_pairs_keys entry : (util_pairs entry).*1 `sublist_of` util_keys.
Proof. done. Qed.

Lemma util_pairs_ok entry : pairs_ok (util_pairs entry).
Proof. line_pairs util_keys util_pairs_keys. unfold util_pairs. value_words. Qed.

Lemma write_util_pairs entry : write_util entry = "util" ++ render (util_pairs entry).
Proof. unfold write_util, util_pairs. same_text. Qed.

Lemma util_read line entry : evidence_fits entry →
  ∃ keys, reads_arg "util" line (util_pairs entry) [] util_arguments keys entry.
Proof.
  intros [? Hu]. assert (u32_fits (ev_utilization_ppb entry)) by (unfold uint_fits; lia).
  pose proof (po_keys _ (util_pairs_ok entry)) as Hkeys.
  unfold util_arguments. eexists. pose proof (util_pairs_keys entry) as Hsub. unfold util_pairs in *.
  repeat read. finish Hsub. by destruct entry.
Qed.

(** ** QoS *)

Definition qos_pairs (qos : QosProfile) : Pairs :=
  [("id", to_string (qos_id qos)); ("gen", to_string (qos_generation qos));
   ("class", ServiceClassName (qos_service_class qos));
   ("priority", PriorityClassName (qos_priority qos));
   ("required", to_string (qos_required_residual_bytes qos));
   ("maxlatency", to_string (qos_max_latency_nanos qos))].

Definition qos_keys : list string := ["id"; "gen"; "class"; "priority"; "required"; "maxlatency"].

Lemma qos_pairs_keys qos : (qos_pairs qos).*1 `sublist_of` qos_keys.
Proof. done. Qed.

Lemma qos_pairs_ok qos : qos_fits qos → pairs_ok (qos_pairs qos).
Proof. intros (_ & ? & ?). line_pairs qos_keys qos_pairs_keys. unfold qos_pairs. value_words. Qed.

Lemma write_qos_pairs qos : write_qos qos = "qos" ++ render (qos_pairs qos).
Proof. unfold write_qos, qos_pairs. same_text. Qed.

Lemma qos_read line qos : qos_fits qos →
  ∃ keys, reads_arg "qos" line (qos_pairs qos) [] qos_arguments keys qos.
Proof.
  intros H. pose proof (po_keys _ (qos_pairs_ok qos H)) as Hkeys. destruct H as (H & ? & ?). open_numbers.
  unfold qos_arguments. eexists. pose proof (qos_pairs_keys qos) as Hsub. unfold qos_pairs in *.
  repeat read. finish Hsub. by destruct qos.
Qed.

(** ** The incumbent *)

(** The reservation as a list of one or none. *)
Definition incumbent_refs (i : IncumbentPlacement) : list ReservationRef :=
  if ReservationRef_valid (inc_reservation i) then [inc_reservation i] else [].

Definition incumbent_pairs (i : IncumbentPlacement) : Pairs :=
  ([("id", to_string (inc_id i)); ("gen", to_string (inc_generation i));
    ("path", to_string (inc_path i)); ("pathauth", to_string (inc_path_authority i));
    ("cset", to_string (inc_candidate_set_generation i));
    ("cap", to_string (inc_capacity_generation i));
    ("policy", to_string (inc_policy_generation i)); ("qos", to_string (inc_qos_generation i));
    ("epoch", to_string (inc_fabric_epoch i))] ++
   list_pair "reservation" AppendRef (incumbent_refs i))%list.

Definition incumbent_keys : list string :=
  (["id"; "gen"; "path"; "pathauth"; "cset"; "cap"; "policy"; "qos"; "epoch"] ++ ["reservation"])%list.

Lemma incumbent_pairs_keys i : (incumbent_pairs i).*1 `sublist_of` incumbent_keys.
Proof. unfold incumbent_pairs, incumbent_keys. among_keys. Qed.

Lemma incumbent_refs_fit i : incumbent_fits i → counted 1 reservation_fits (incumbent_refs i).
Proof.
  intros [_ Hr]. unfold incumbent_refs. destruct (ReservationRef_valid _); split_and!; try done.
  by apply Forall_singleton.
Qed.

Lemma incumbent_pairs_ok i : incumbent_fits i → pairs_ok (incumbent_pairs i).
Proof.
  intros H%incumbent_refs_fit. line_pairs incumbent_keys incumbent_pairs_keys.
  unfold incumbent_pairs. value_words.
Qed.

Lemma write_incumbent_pairs i : write_incumbent i = "incumbent" ++ render (incumbent_pairs i).
Proof.
  unfold write_incumbent, incumbent_pairs, incumbent_refs.
  destruct (ReservationRef_valid (inc_reservation i)); same_text.
Qed.

(** A reservation that is not valid is all zero. *)
Definition reservation_kept (i : IncumbentPlacement) : Prop :=
  ReservationRef_valid (inc_reservation i) = true ∨ inc_reservation i = ReservationRef_none.

Lemma incumbent_read line i : incumbent_fits i → reservation_kept i →
  ∃ keys, reads_arg "incumbent" line (incumbent_pairs i) [] incumbent_arguments keys i.
Proof.
  intros H Hk. pose proof (po_keys _ (incumbent_pairs_ok i H)) as Hkeys.
  pose proof (incumbent_refs_fit i H) as Hrefs. destruct H as (H & Hr). open_numbers.
  unfold incumbent_arguments. eexists. pose proof (incumbent_pairs_keys i) as Hsub.
  unfold incumbent_pairs in *. repeat read. finish Hsub. unfold incumbent_refs.
  unfold reservation_kept in Hk. destruct i; cbn in *. by destruct Hk as [->| ->].
Qed.

(** ** The rest of the request *)

(** [write_list] and [occupied] leave an empty list out altogether. *)
Definition occupied_pairs (domains : list N) : Pairs := list_pair "domains" to_string domains.

Lemma occupied_pairs_keys domains : (occupied_pairs domains).*1 `sublist_of` ["domains"].
Proof. apply keys_list. Qed.

Lemma occupied_pairs_ok max domains : counted max u64_fits domains → pairs_ok (occupied_pairs domains).
Proof.
  intros H. line_pairs ["domains"] occupied_pairs_keys. unfold occupied_pairs. value_words.
Qed.

Lemma occupied_read limits line domains : domains ≠ [] →
  counted (clamp32 (max_occupied_failure_domains limits)) u64_fits domains →
  ∃ keys, reads_arg "occupied" line (occupied_pairs domains) [] (occupied_arguments limits) keys domains.
Proof.
  intros Hne H. pose proof (po_keys _ (occupied_pairs_ok _ _ H)) as Hkeys.
  pose proof (occupied_pairs_keys domains) as Hsub. eexists. unfold occupied_arguments.
  eapply reads_arg_bind.
  - apply reads_list with (write := to_string) (l := domains); [done| |done|eauto with named|].
    + unfold occupied_pairs. look.
    + eapply Forall_impl; [eauto with named|]. by intros n (? & _ & ?).
  - finish Hsub. done.
Qed.

Definition expected_pairs (e : AuthorityExpectation) : Pairs :=
  [("pathauth", to_string (exp_path_authority e)); ("cset", to_string (exp_candidate_set e));
   ("cap", to_string (exp_capacity e)); ("policy", to_string (exp_policy e));
   ("qos", to_string (exp_qos e)); ("epoch", to_string (exp_fabric_epoch e));
   ("evidence", to_string (exp_evidence e))].

Definition expected_keys : list string :=
  ["pathauth"; "cset"; "cap"; "policy"; "qos"; "epoch"; "evidence"].

Lemma expected_pairs_keys e : (expected_pairs e).*1 `sublist_of` expected_keys.
Proof. done. Qed.

Lemma expected_pairs_ok e : pairs_ok (expected_pairs e).
Proof. line_pairs expected_keys expected_pairs_keys. unfold expected_pairs. value_words. Qed.

Lemma write_expected_pairs e : write_expected e = "expected" ++ render (expected_pairs e).
Proof. unfold write_expected, expected_pairs. same_text. Qed.

Lemma expected_read line e : expectation_fits e →
  ∃ keys, reads_arg "expected" line (expected_pairs e) [] expected_arguments keys e.
Proof.
  intros H. unfold expectation_fits in H. open_numbers.
  pose proof (po_keys _ (expected_pairs_ok e)) as Hkeys.
  unfold expected_arguments. eexists. pose proof (expected_pairs_keys e) as Hsub.
  unfold expected_pairs in *. repeat read. finish Hsub. by destruct e.
Qed.

(** A provenance the tokenizer leaves alone. *)
Definition provenance_plain (p : Provenance) : Prop :=
  is_word (prov_producer p) ∧ is_word (prov_producer_version p) ∧
  (0 ≤ prov_observer_unix_nanos p)%Z.

Definition provenance_pairs (p : Provenance) : Pairs :=
  [("producer", prov_producer p); ("version", prov_producer_version p);
   ("sequence", to_string (prov_source_sequence p));
   ("observed", to_string (u64_of_i64 (prov_observer_unix_nanos p)))].

Definition provenance_keys : list string := ["producer"; "version"; "sequence"; "observed"].

Lemma provenance_pairs_keys p : (provenance_pairs p).*1 `sublist_of` provenance_keys.
Proof. done. Qed.

Lemma provenance_pairs_ok p : provenance_plain p → pairs_ok (provenance_pairs p).
Proof.
  intros (? & ? & _). line_pairs provenance_keys provenance_pairs_keys.
  unfold provenance_pairs. value_words.
Qed.

Lemma word_not_dashed s : is_word s → dash_if_empty s = s.
Proof. intros [Hne _]. unfold dash_if_empty. by apply String.eqb_neq in Hne as ->. Qed.

Lemma signed_plain v : i64_fits v → (0 ≤ v)%Z → signed_to_string v = to_string (u64_of_i64 v).
Proof.
  intros Hf Hv. unfold signed_to_string, u64_of_i64. rewrite (proj2 (Z.ltb_ge _ _) Hv).
  rewrite Z.mod_small; [done|]. unfold i64_fits in Hf. lia.
Qed.

Lemma write_provenance_pairs p : provenance_fits p → provenance_plain p →
  write_provenance p = "provenance" ++ render (provenance_pairs p).
Proof.
  intros (_ & _ & _ & Hf) (Hp & Hv & Ho). unfold write_provenance, provenance_pairs.
  rewrite !word_not_dashed, signed_plain by done. same_text.
Qed.

Lemma provenance_read line p : provenance_fits p → provenance_plain p →
  ∃ keys, reads_arg "provenance" line (provenance_pairs p) [] provenance_arguments keys p.
Proof.
  intros ([_ ?] & [_ ?] & ? & Hf) Hp. pose proof (po_keys _ (provenance_pairs_ok p Hp)) as Hkeys.
  pose proof (u64_of_i64_fits (prov_observer_unix_nanos p)).
  unfold provenance_arguments. eexists. pose proof (provenance_pairs_keys p) as Hsub.
  unfold provenance_pairs in *. repeat read. finish Hsub.
  rewrite i64_of_u64_of_i64 by done. by destruct p.
Qed.

Definition attempt_pairs (attempt : N) : Pairs := [("id", to_string attempt)].

Lemma attempt_pairs_keys attempt : (attempt_pairs attempt).*1 `sublist_of` ["id"].
Proof. done. Qed.

Lemma attempt_pairs_ok attempt : pairs_ok (attempt_pairs attempt).
Proof. line_pairs ["id"] attempt_pairs_keys. unfold attempt_pairs. value_words. Qed.

Lemma attempt_read line attempt : u64_fits attempt →
  ∃ keys, reads_arg "attempt" line (attempt_pairs attempt) [] attempt_arguments keys attempt.
Proof.
  intros H. pose proof (po_keys _ (attempt_pairs_ok attempt)) as Hkeys.
  unfold attempt_arguments. eexists. pose proof (attempt_pairs_keys attempt) as Hsub.
  unfold attempt_pairs in *. repeat read. finish Hsub. done.
Qed.

(** * The policy line of a rendered scenario

 *)

Lemma policy_eta p :
  mkPolicy (pol_id p) (pol_generation p) (pol_objectives p) (pol_allowed_tiers p)
    (pol_required_labels p) (pol_forbidden_labels p) (pol_locality p) (pol_failure_domains p)
    (pol_reservation_affinity p) (pol_admission p) (pol_service p) (pol_churn p) (pol_evidence p)
    (pol_revalidate_after_nanos p) = p.
Proof. by destruct p. Qed.

Section Policy.
Context (limits : Limits) (policy : PlacementPolicy) (Hfits : policy_fits limits policy).
Let locality := pol_locality policy.
Let domains := pol_failure_domains policy.
Let affinity := pol_reservation_affinity policy.
Let admission := pol_admission policy.
Let service := pol_service policy.
Let churn := pol_churn policy.
Let evidence := pol_evidence policy.

Definition policy_pairs : Pairs :=
  ([("id", to_string (pol_id policy)); ("gen", to_string (pol_generation policy));
    ("objectives", comma_list write_objective (pol_objectives policy))] ++
   list_pair "tiers" PathTierName (pol_allowed_tiers policy) ++
   list_pair "require-labels" to_string (pol_required_labels policy) ++
   list_pair "forbid-labels" to_string (pol_forbidden_labels policy) ++
   optional_pair "locality-required" (required_locality locality) ++
   optional_pair "locality-preferred" (preferred_locality locality) ++
   list_pair "locality-forbidden" to_string (forbidden_localities locality) ++
   optional_pair "domain-required" (required_domain domains) ++
   list_pair "domain-forbidden" to_string (forbidden_domains domains) ++
   [("domain-avoid-occupied", bool_text (avoid_occupied_domains domains));
    ("domain-min-distinct", to_string (min_distinct_domains domains));
    ("affinity-required", bool_text (affinity_required affinity))] ++
   list_pair "affinity-refs" AppendRef (affinity_refs affinity) ++
   [("admission-headroom", to_string (min_residual_headroom_bytes admission));
    ("admission-action", GateActionName (on_below admission));
    ("service-degraded", bool_text (allow_degraded service));
    ("service-relaxation", to_string (max_relaxation_steps service));
    ("churn-action", ChurnActionName (on_move churn));
    ("churn-prefer-incumbent", bool_text (prefer_incumbent churn));
    ("churn-threshold", to_string (move_improvement_threshold churn));
    ("churn-threshold-objective", to_string (threshold_objective_index churn));
    ("evidence-missing", EvidencePolicyModeName (on_missing evidence));
    ("evidence-stale", EvidencePolicyModeName (on_stale evidence));
    ("revalidate", to_string (pol_revalidate_after_nanos policy))])%list.

Definition policy_keys : list string :=
  (["id"; "gen"; "objectives"] ++ ["tiers"] ++ ["require-labels"] ++ ["forbid-labels"] ++
   ["locality-required"] ++ ["locality-preferred"] ++ ["locality-forbidden"] ++
   ["domain-required"] ++ ["domain-forbidden"] ++
   ["domain-avoid-occupied"; "domain-min-distinct"; "affinity-required"] ++ ["affinity-refs"] ++
   ["admission-headroom"; "admission-action"; "service-degraded"; "service-relaxation";
    "churn-action"; "churn-prefer-incumbent"; "churn-threshold"; "churn-threshold-objective";
    "evidence-missing"; "evidence-stale"; "revalidate"])%list.

Lemma write_policy_pairs : write_policy policy = "policy" ++ render policy_pairs.
Proof. unfold write_policy, policy_pairs. same_text. Qed.

Lemma policy_pairs_keys : policy_pairs.*1 `sublist_of` policy_keys.
Proof. unfold policy_pairs, policy_keys. among_keys. Qed.

Lemma objectives_word l : l ≠ [] → Forall objective_fits l → is_word (comma_list write_objective l).
Proof.
  intros Hne Hl. apply comma_list_word; [done|]. eapply Forall_impl; [exact Hl|].
  intros o [(_ & ? & Hk)%ObjectiveKind_named (_ & _ & Hd)%Direction_named].
  by destruct (colon_part _ _ Hk Hd) as (? & ? & _).
Qed.

Lemma policy_pairs_ok : pairs_ok policy_pairs.
Proof.
  destruct Hfits as (_ & Hne & (_ & _ & Ho) & Ht & Hr & Hf & (_ & _ & Hl) & (_ & Hd & _) & Ha &
    (_ & Hg) & _ & (Hc & _) & Hm & Hs).
  line_pairs policy_keys policy_pairs_keys. unfold policy_pairs, affinity_fits in *. value_words.
  by apply objectives_word.
Qed.

(** ** Reading *)

Section Reading.
Context (line : N).

Abbreviation reads := (reads_arg "policy" line policy_pairs).

(** The calls ask for the keys in the order of [policy_keys]. *)
Definition asked_for (keys before : list string) : list string := (rev keys ++ before)%list.

Lemma lists_read before : reads before (policy_lists limits)
    (asked_for ["objectives"; "tiers"; "require-labels"; "forbid-labels"; "locality-required";
                "locality-preferred"; "locality-forbidden"] before)
    (pol_objectives policy, pol_allowed_tiers policy, pol_required_labels policy,
     pol_forbidden_labels policy, locality).
Proof.
  pose proof (po_keys _ policy_pairs_ok) as Hkeys.
  destruct Hfits as (_ & Hne & (_ & Hom & Ho) & Ht & Hr & Hf & (Hlr & Hlp & Hl) & _).
  unfold policy_lists, asked_for. eapply reads_arg_bind.
  { apply reads_find; [exact Hkeys|]. unfold policy_pairs. look. }
  cbn beta iota. eapply reads_arg_bind; [by apply reads_objectives|cbn beta].
  destruct Ht as (_ & Htm & Ht).
  apply reads_tier_list with (l := pol_allowed_tiers policy); [exact Hkeys| |done|done|].
  { unfold policy_pairs. look. }
  unfold policy_pairs in *. repeat read. by destruct locality.
Qed.

Lemma domains_read before : reads before (domain_arguments limits)
  (asked_for ["domain-required"; "domain-forbidden"; "domain-avoid-occupied";
              "domain-min-distinct"] before) domains.
Proof.
  pose proof (po_keys _ policy_pairs_ok) as Hkeys.
  destruct Hfits as (_ & _ & _ & _ & _ & _ & _ & (Hd & Hf & Hm) & _).
  unfold domain_arguments, policy_pairs in *. repeat read. by destruct domains.
Qed.

Lemma affinity_read before : reads before (affinity_arguments limits)
  (asked_for ["affinity-required"; "affinity-refs"] before) affinity.
Proof.
  pose proof (po_keys _ policy_pairs_ok) as Hkeys.
  destruct Hfits as (_ & _ & _ & _ & _ & _ & _ & _ & Ha & _). unfold affinity_fits in Ha.
  unfold affinity_arguments, policy_pairs in *. repeat read. by destruct affinity.
Qed.

Lemma admission_read before : reads before admission_arguments
  (asked_for ["admission-headroom"; "admission-action"] before) admission.
Proof.
  pose proof (po_keys _ policy_pairs_ok) as Hkeys.
  destruct Hfits as (_ & _ & _ & _ & _ & _ & _ & _ & _ & (Hh & Hg) & _).
  unfold admission_arguments, policy_pairs in *. repeat read. by destruct admission.
Qed.

Lemma service_read before : reads before service_arguments
  (asked_for ["service-degraded"; "service-relaxation"] before) service.
Proof.
  pose proof (po_keys _ policy_pairs_ok) as Hkeys.
  destruct Hfits as (_ & _ & _ & _ & _ & _ & _ & _ & _ & _ & Hs & _). unfold service_fits in Hs.
  assert (u32_fits (max_relaxation_steps service)) by (unfold uint_fits; unfold service; lia).
  assert (u8_fits (max_relaxation_steps service)) by (unfold uint_fits; unfold service; lia).
  unfold service_arguments, policy_pairs in *. repeat read. by destruct service.
Qed.

Lemma churn_read before : reads before churn_arguments
  (asked_for ["churn-action"; "churn-prefer-incumbent"; "churn-threshold";
              "churn-threshold-objective"] before) churn.
Proof.
  pose proof (po_keys _ policy_pairs_ok) as Hkeys.
  destruct Hfits as (_ & _ & _ & _ & _ & _ & _ & _ & _ & _ & _ & (Hc & Ht & Hi) & _).
  unfold churn_arguments, policy_pairs in *. repeat read. by destruct churn.
Qed.

Lemma evidence_read before : reads before evidence_policy_arguments
  (asked_for ["evidence-missing"; "evidence-stale"] before) evidence.
Proof.
  pose proof (po_keys _ policy_pairs_ok) as Hkeys.
  destruct Hfits as (_ & _ & _ & _ & _ & _ & _ & _ & _ & _ & _ & _ & (Hm & Hs)).
  unfold evidence_policy_arguments, policy_pairs in *. repeat read. by destruct evidence.
Qed.

Lemma policy_read : ∃ keys, reads [] (policy_arguments limits) keys policy.
Proof.
  pose proof (po_keys _ policy_pairs_ok) as Hkeys. pose proof policy_pairs_keys as Hsub.
  destruct Hfits as (Hn & _). open_numbers.
  eexists. unfold policy_arguments.
  eapply reads_arg_bind.
  { unfold pair_arguments, policy_pairs in *. repeat read. apply reads_arg_ret. }
  cbn beta. eapply reads_arg_bind; [apply lists_read|cbn beta].
  eapply reads_arg_bind; [apply domains_read|cbn beta].
  eapply reads_arg_bind; [apply affinity_read|cbn beta].
  eapply reads_arg_bind; [apply admission_read|cbn beta].
  eapply reads_arg_bind; [apply service_read|cbn beta].
  eapply reads_arg_bind; [apply churn_read|cbn beta].
  eapply reads_arg_bind; [apply evidence_read|cbn beta].
  eapply reads_arg_bind; [eapply reads_arg_u64; [exact Hkeys|unfold policy_pairs; look|done]|cbn beta].
  finish Hsub. apply reads_arg_eq, policy_eta.
Qed.
End Reading.
End Policy.
