(* ===== verification/ScenarioDocument.v ===== *)
(** * Rendered documents

    The lines of [WriteScenario], one after the other, build the request they were
    written from. *)

From Stdlib Require Import String Ascii.
From S2P Require Import Prelude StdAlgo Checked Status Bytes Hash Model ModelDigest Validate.
From S2P Require Import Explain Records Codec CodecFacts RuntimeState.
From S2P Require Import Scenario ScenarioText ScenarioRound ScenarioLines.

Open Scope string_scope.
Open Scope N_scope.

#[local] Arguments String.append : simpl nomatch.

Section Document.
Context (limits : Limits).

(** A line that stays one line and takes the parser from one state to the next. *)
Definition line_parses (line : string) (s s' : ScenarioState) : Prop :=
  text_all (not_char "010") line = true ∧
  (string_size line ≤ kMaxScenarioLineBytes → ∀ number, ParseLine limits number line s = Value s').

(** Lines, one after the other. *)
Inductive lines_parse : list string → ScenarioState → ScenarioState → Prop :=
  | lines_none s : lines_parse [] s s
  | lines_one line lines s s1 s' :
      line_parses line s s1 → lines_parse lines s1 s' → lines_parse (line :: lines) s s'.

Lemma lines_parse_app lines others s s1 s' :
  lines_parse lines s s1 → lines_parse others s1 s' → lines_parse (lines ++ others) s s'.
Proof. induction 1 as [|line lines s s1 s2 Hl Hls IH]; [done|]. intros Ho. eapply lines_one; eauto. Qed.

Lemma lines_parse_text lines s s' : lines_parse lines s s' →
  Forall (λ line, text_all (not_char "010") line = true) lines.
Proof. induction 1 as [|line lines s s1 s' [Ht _] _ IH]; by constructor. Qed.

Lemma ParseLines_parse lines s s' : lines_parse lines s s' →
  Forall (λ line, string_size line ≤ kMaxScenarioLineBytes) lines →
  ∀ number, ParseLines limits number (lines ++ [""])%list s = Value s'.
Proof.
  induction 1 as [s|line lines s s1 s' [_ Hl] _ IH]; intros Hs number; [done|].
  apply Forall_cons in Hs as [Hs Hss]. cbn [app ParseLines]. rewrite Hl by done. by apply IH.
Qed.

(** A line of pairs. *)
Lemma pairs_parse directive kvs s s' : is_word directive → directive ≠ "version" → pairs_ok kvs →
  (∀ number, ParseDirective limits (parsing directive number kvs []) s = Value s') →
  line_parses (directive ++ render kvs) s s'.
Proof.
  intros Hd Hv Hp Hs. split.
  - eapply text_all_impl; [|by apply plain_line]. by intros c [_ H]%andb_prop.
  - intros Hm number. by rewrite ParseLine_pairs.
Qed.

Lemma taken_arguments {A} directive line kvs (arguments : Arg A) f s a :
  (∃ keys, reads_arg directive line kvs [] arguments keys a) →
  take_arguments arguments f (parsing directive line kvs []) s =
  Value (mkScenario (f a (sn_request s)) (sn_declared s)).
Proof. intros [keys H]. unfold take_arguments. by rewrite H. Qed.

Lemma declared_once {A} directive line kvs (arguments : Arg A) f s a : have directive s = false →
  (∃ keys, reads_arg directive line kvs [] arguments keys a) →
  declare_once arguments f (parsing directive line kvs []) s =
  Value (mkScenario (f a (sn_request s)) (directive :: sn_declared s)).
Proof.
  intros Hh H. unfold declare_once. change (ap_directive (parsing directive line kvs [])) with directive.
  rewrite Hh. by rewrite (taken_arguments _ _ _ _ _ _ _ H).
Qed.

(** ** Repeated directives *)

Lemma paths_parse paths : ∀ s, have "candidateset" s = true → Forall (path_fits limits) paths →
  size (set_paths (rq_candidates (sn_request s))) + size paths ≤ max_candidate_paths limits →
  lines_parse (write_path <$> paths) s
    (mkScenario
       (let c := rq_candidates (sn_request s) in
        rq_with_candidates (mkCandidateSet (set_id c) (set_generation c) (set_paths c ++ paths))
          (sn_request s)) (sn_declared s)).
Proof.
  induction paths as [|path paths IH]; intros s Hh Hf Hm; cbv zeta.
  - rewrite app_nil_r. destruct s as [[? ? [] ? ? ? ? ? ? ? ? ?] ?]. constructor.
  - apply Forall_cons in Hf as [Hp Hps]. autorewrite with size in Hm. cbn [fmap list_fmap].
    eapply lines_one.
    + rewrite write_path_pairs. apply pairs_parse; [done|done|by eapply path_pairs_ok|].
      intros number. unfold ParseDirective. cbn [ap_directive parsing String.eqb Ascii.eqb Bool.eqb].
      rewrite Hh. cbn [negb]. rewrite (proj2 (N.leb_gt _ _)) by lia.
      apply taken_arguments. by apply path_read.
    + set (s1 := mkScenario _ _).
      replace (set_paths (rq_candidates (sn_request s)) ++ path :: paths)%list
        with (set_paths (rq_candidates (sn_request s1)) ++ paths)%list
        by (cbn; by rewrite <-app_assoc).
      apply (IH s1); [done|done|]. cbn. autorewrite with size. lia.
Qed.

Lemma entries_parse entries : ∀ s, have "capacity" s = true → Forall capacity_fits entries →
  size (snap_entries (rq_capacity (sn_request s))) + size entries ≤ max_capacity_entries limits →
  lines_parse (write_entry <$> entries) s
    (mkScenario
       (let c := rq_capacity (sn_request s) in
        rq_with_capacity (mkSnapshot (snap_id c) (snap_generation c) (snap_entries c ++ entries))
          (sn_request s)) (sn_declared s)).
Proof.
  induction entries as [|entry entries IH]; intros s Hh Hf Hm; cbv zeta.
  - rewrite app_nil_r. destruct s as [[? ? ? [] ? ? ? ? ? ? ? ?] ?]. constructor.
  - apply Forall_cons in Hf as [He Hes]. autorewrite with size in Hm. cbn [fmap list_fmap].
    eapply lines_one.
    + rewrite write_entry_pairs. apply pairs_parse; [done|done|apply entry_pairs_ok|].
      intros number. unfold ParseDirective. cbn [ap_directive parsing String.eqb Ascii.eqb Bool.eqb].
      rewrite Hh. cbn [negb]. rewrite (proj2 (N.leb_gt _ _)) by lia.
      apply taken_arguments. by apply entry_read.
    + set (s1 := mkScenario _ _).
      replace (snap_entries (rq_capacity (sn_request s)) ++ entry :: entries)%list
        with (snap_entries (rq_capacity (sn_request s1)) ++ entries)%list
        by (cbn; by rewrite <-app_assoc).
      apply (IH s1); [done|done|]. cbn. autorewrite with size. lia.
Qed.

Lemma utils_parse entries : ∀ s, Forall evidence_fits entries →
  size (bundle_entries (rq_evidence (sn_request s))) + size entries ≤ max_evidence_entries limits →
  lines_parse (write_util <$> entries) s
    (mkScenario
       (let e := rq_evidence (sn_request s) in
        rq_with_evidence (mkBundle (bundle_id e) (bundle_generation e) (bundle_entries e ++ entries))
          (sn_request s)) (sn_declared s)).
Proof.
  induction entries as [|entry entries IH]; intros s Hf Hm; cbv zeta.
  - rewrite app_nil_r. destruct s as [[? ? ? ? ? ? [] ? ? ? ? ?] ?]. constructor.
  - apply Forall_cons in Hf as [He Hes]. autorewrite with size in Hm. cbn [fmap list_fmap].
    eapply lines_one.
    + rewrite write_util_pairs. apply pairs_parse; [done|done|apply util_pairs_ok|].
      intros number. unfold ParseDirective. cbn [ap_directive parsing String.eqb Ascii.eqb Bool.eqb].
      rewrite (proj2 (N.leb_gt _ _)) by lia. apply taken_arguments. by apply util_read.
    + set (s1 := mkScenario _ _).
      replace (bundle_entries (rq_evidence (sn_request s)) ++ entry :: entries)%list
        with (bundle_entries (rq_evidence (sn_request s1)) ++ entries)%list
        by (cbn; by rewrite <-app_assoc).
      apply (IH s1); [done|]. cbn. autorewrite with size. lia.
Qed.

(** ** The whole document *)

Lemma once_parses {A} directive kvs (arguments : Arg A) f a s :
  is_word directive → directive ≠ "version" → pairs_ok kvs → have directive s = false →
  (∀ p, ap_directive p = directive → ParseDirective limits p s = declare_once arguments f p s) →
  (∀ line, ∃ keys, reads_arg directive line kvs [] arguments keys a) →
  line_parses (directive ++ render kvs) s
    (mkScenario (f a (sn_request s)) (directive :: sn_declared s)).
Proof.
  intros Hd Hv Hp Hh Hdir Ha. apply pairs_parse; [done..|]. intros number.
  rewrite Hdir by done. by apply declared_once.
Qed.

(** What a request needs to be written and read back. *)
Record writable (r : PlacementRequest) : Prop := {
  wr_fits : request_fits limits r;
  wr_provenance : provenance_plain (rq_provenance r);
  wr_incumbent : from_option reservation_kept True (rq_incumbent r);
  wr_lines : Forall (λ line, string_size line ≤ kMaxScenarioLineBytes) (scenario_lines r);
  wr_document : string_size (WriteScenario r) ≤ kMaxScenarioBytes;
}.

Lemma version_parses s : line_parses ("version " ++ to_string kScenarioFormatVersion) s s.
Proof. by split. Qed.

(** Finds the branch of a directive. *)
Ltac its_branch := let H := fresh in intros p H; unfold ParseDirective; by rewrite H.

(** A line with an identifier and a generation. *)
Lemma pair_line_parses directive (arguments : Arg (N * N)) f id generation s :
  is_word directive → directive ≠ "version" → have directive s = false →
  (∀ p, ap_directive p = directive → ParseDirective limits p s = declare_once arguments f p s) →
  (∀ line, reads_arg directive line (pair_pairs id generation) [] arguments ["gen"; "id"]
             (id, generation)) →
  line_parses (directive ++ " id " ++ to_string id ++ " gen " ++ to_string generation) s
    (mkScenario (f (id, generation) (sn_request s)) (directive :: sn_declared s)).
Proof.
  intros Hd Hv Hh Hp Hr.
  replace (" id " ++ to_string id ++ " gen " ++ to_string generation)
    with (render (pair_pairs id generation)) by (unfold pair_pairs; same_text).
  apply (once_parses directive _ arguments f (id, generation)); try done; [apply pair_pairs_ok|].
  intros line. by eexists.
Qed.

(** The lines up to the policy, and the request they leave. *)
Definition candidates_lines (r : PlacementRequest) : list string :=
  ["version " ++ to_string kScenarioFormatVersion;
   "flow id " ++ to_string (rq_flow r) ++ " gen " ++ to_string (rq_flow_generation r);
   "candidateset id " ++ to_string (set_id (rq_candidates r)) ++
   " gen " ++ to_string (set_generation (rq_candidates r))] ++
  (write_path <$> set_paths (rq_candidates r)).

Definition capacity_lines (r : PlacementRequest) : list string :=
  ["capacity id " ++ to_string (snap_id (rq_capacity r)) ++
   " gen " ++ to_string (snap_generation (rq_capacity r))] ++
  (write_entry <$> snap_entries (rq_capacity r)).

Definition qos_evidence_lines (r : PlacementRequest) : list string :=
  [write_qos (rq_qos r);
   "evidence id " ++ to_string (bundle_id (rq_evidence r)) ++
   " gen " ++ to_string (bundle_generation (rq_evidence r))] ++
  (write_util <$> bundle_entries (rq_evidence r)).

Definition head_lines (r : PlacementRequest) : list string :=
  candidates_lines r ++ capacity_lines r ++ qos_evidence_lines r ++ [write_policy (rq_policy r)].

Definition head_request (r : PlacementRequest) : PlacementRequest :=
  mkRequest (rq_flow r) (rq_flow_generation r) (rq_candidates r) (rq_capacity r) (rq_qos r)
    (rq_policy r) (rq_evidence r) None [] AuthorityExpectation_init (mkProvenance "" "" 0 0) 0.

Definition head_declared : list string :=
  ["policy"; "evidence"; "qos"; "capacity"; "candidateset"; "flow"].

Lemma lines_parse_eq lines s s1 s2 : lines_parse lines s s1 → s1 = s2 → lines_parse lines s s2.
Proof. by intros H <-. Qed.

Ltac own_line := eapply lines_one; [|apply lines_none].

(** The request after some of its lines. *)
Definition partly (flow generation : N) (candidates : CandidateSet) (capacity : CapacitySnapshot)
    (qos : QosProfile) (evidence : EvidenceBundle) : PlacementRequest :=
  mkRequest flow generation candidates capacity qos (rq_policy PlacementRequest_init) evidence None []
    AuthorityExpectation_init (mkProvenance "" "" 0 0) 0.

Let no_candidates := rq_candidates PlacementRequest_init.
Let no_capacity := rq_capacity PlacementRequest_init.
Let no_qos := rq_qos PlacementRequest_init.
Let no_evidence := rq_evidence PlacementRequest_init.

Lemma candidates_parse r : request_fits limits r →
  lines_parse
    (candidates_lines r) ScenarioState_init
    (mkScenario
       (partly (rq_flow r) (rq_flow_generation r) (rq_candidates r) no_capacity no_qos no_evidence)
       ["candidateset"; "flow"]).
Proof.
  intros Hfits. unfold request_fits in Hfits. open_numbers. unfold set_fits, counted in *. open_numbers.
  set (c := mkCandidateSet (set_id (rq_candidates r)) (set_generation (rq_candidates r)) []).
  eapply lines_parse_app.
  - eapply lines_one; [apply version_parses|].
    apply lines_one with (s1 := mkScenario (partly (rq_flow r) (rq_flow_generation r) no_candidates
      no_capacity no_qos no_evidence) ["flow"]).
    { apply (pair_line_parses "flow" pair_arguments (λ a, rq_with_flow (fst a) (snd a))
        _ _ ScenarioState_init);
        [done|done|done|its_branch|intros; by apply pair_read]. }
    own_line. apply (pair_line_parses "candidateset" pair_arguments
      (λ a r, rq_with_candidates (mkCandidateSet (fst a) (snd a) (set_paths (rq_candidates r))) r));
      [done|done|done|its_branch|intros; by apply pair_read].
  - eapply lines_parse_eq; [by apply paths_parse|]. cbn. by destruct (rq_candidates r).
Qed.

Lemma capacities_parse r flow generation candidates : request_fits limits r →
  lines_parse
    (capacity_lines r)
    (mkScenario (partly flow generation candidates no_capacity no_qos no_evidence)
       ["candidateset"; "flow"])
    (mkScenario (partly flow generation candidates (rq_capacity r) no_qos no_evidence)
       ["capacity"; "candidateset"; "flow"]).
Proof.
  intros Hfits. unfold request_fits in Hfits. open_numbers. unfold snapshot_fits, counted in *. open_numbers.
  eapply lines_parse_app.
  - own_line. apply (pair_line_parses "capacity" finished_pair
      (λ a r, rq_with_capacity (mkSnapshot (fst a) (snd a) (snap_entries (rq_capacity r))) r));
      [done|done|done|its_branch|intros; by apply finished_pair_read].
  - eapply lines_parse_eq; [by apply entries_parse|]. cbn. by destruct (rq_capacity r).
Qed.

Lemma qos_evidence_parse r flow generation candidates capacity : request_fits limits r →
  lines_parse
    (qos_evidence_lines r)
    (mkScenario (partly flow generation candidates capacity no_qos no_evidence)
       ["capacity"; "candidateset"; "flow"])
    (mkScenario (partly flow generation candidates capacity (rq_qos r) (rq_evidence r))
       ["evidence"; "qos"; "capacity"; "candidateset"; "flow"]).
Proof.
  intros Hfits. unfold request_fits in Hfits. open_numbers. unfold bundle_fits, counted in *. open_numbers.
  eapply lines_parse_app.
  - apply lines_one with (s1 := mkScenario (partly flow generation candidates capacity (rq_qos r)
      no_evidence) ["qos"; "capacity"; "candidateset"; "flow"]).
    { rewrite write_qos_pairs.
      apply (once_parses "qos" _ qos_arguments rq_with_qos (rq_qos r)
        (mkScenario (partly flow generation candidates capacity no_qos no_evidence)
          ["capacity"; "candidateset"; "flow"]));
        [done|done|by apply qos_pairs_ok|done|its_branch|intros; by apply qos_read]. }
    own_line. apply (pair_line_parses "evidence" finished_pair
      (λ a r, rq_with_evidence (mkBundle (fst a) (snd a) (bundle_entries (rq_evidence r))) r));
      [done|done|done|its_branch|intros; by apply finished_pair_read].
  - eapply lines_parse_eq; [by apply utils_parse|]. cbn. by destruct (rq_evidence r).
Qed.

Lemma sets_parse r : request_fits limits r →
  lines_parse (head_lines r) ScenarioState_init (mkScenario (head_request r) head_declared).
Proof.
  intros Hfits. unfold head_lines.
  eapply lines_parse_app; [by apply candidates_parse|].
  eapply lines_parse_app; [by apply capacities_parse|].
  eapply lines_parse_app; [by apply qos_evidence_parse|]. own_line. rewrite write_policy_pairs.
  unfold request_fits in Hfits. open_numbers.
  apply (once_parses "policy" _ (policy_arguments limits) rq_with_policy (rq_policy r)
    (mkScenario (partly (rq_flow r) (rq_flow_generation r) (rq_candidates r) (rq_capacity r)
       (rq_qos r) (rq_evidence r)) ["evidence"; "qos"; "capacity"; "candidateset"; "flow"]));
    [done|done|by eapply policy_pairs_ok|done|its_branch|intros; by apply policy_read].
Qed.

(** The lines after the policy. *)
Definition tail_lines (r : PlacementRequest) : list string :=
  (match rq_incumbent r with Some incumbent => [write_incumbent incumbent] | None => [] end) ++
  (match rq_occupied_failure_domains r with
   | [] => []
   | domains => ["occupied domains " ++ AppendIdList domains]
   end) ++
  [write_expected (rq_expected r);
   write_provenance (rq_provenance r);
   "attempt id " ++ to_string (rq_attempt r)].

Lemma scenario_lines_split r : scenario_lines r = (head_lines r ++ tail_lines r)%list.
Proof.
  unfold scenario_lines, head_lines, candidates_lines, capacity_lines, qos_evidence_lines, tail_lines.
  by rewrite <-!app_assoc.
Qed.

Lemma incumbent_parses r s : have "incumbent" s = false →
  from_option incumbent_fits True (rq_incumbent r) →
  from_option reservation_kept True (rq_incumbent r) →
  lines_parse (match rq_incumbent r with Some i => [write_incumbent i] | None => [] end) s
    (match rq_incumbent r with
     | Some i => mkScenario (rq_with_incumbent i (sn_request s)) ("incumbent" :: sn_declared s)
     | None => s
     end).
Proof.
  intros Hh Hf Hk. destruct (rq_incumbent r) as [i|]; [|apply lines_none]. own_line.
  rewrite write_incumbent_pairs. apply (once_parses "incumbent" _ incumbent_arguments rq_with_incumbent);
    [done|done|by apply incumbent_pairs_ok|done|its_branch|intros; by apply incumbent_read].
Qed.

Lemma occupied_parses domains s : have "occupied" s = false →
  counted (clamp32 (max_occupied_failure_domains limits)) u64_fits domains →
  lines_parse
    (match domains with
     | [] => []
     | domain :: domains => ["occupied domains " ++ AppendIdList (domain :: domains)]
     end) s
    (match domains with
     | [] => s
     | _ => mkScenario (rq_with_occupied domains (sn_request s)) ("occupied" :: sn_declared s)
     end).
Proof.
  intros Hh Hf. destruct domains as [|d domains]; [apply lines_none|]. own_line.
  replace ("occupied domains " ++ AppendIdList (d :: domains))
    with ("occupied" ++ render (occupied_pairs (d :: domains)))
    by (unfold occupied_pairs; rewrite render_list; same_text).
  apply (once_parses "occupied" _ (occupied_arguments limits) rq_with_occupied);
    [done|done|by eapply occupied_pairs_ok|done|its_branch|intros; by apply occupied_read].
Qed.

Lemma rest_parses r s : (∀ directive, directive ∈ ["expected"; "provenance"; "attempt"] →
    have directive s = false) →
  expectation_fits (rq_expected r) → provenance_fits (rq_provenance r) →
  provenance_plain (rq_provenance r) → u64_fits (rq_attempt r) →
  lines_parse [write_expected (rq_expected r); write_provenance (rq_provenance r);
               "attempt id " ++ to_string (rq_attempt r)] s
    (mkScenario (rq_with_attempt (rq_attempt r) (rq_with_provenance (rq_provenance r)
                   (rq_with_expected (rq_expected r) (sn_request s))))
       ("attempt" :: "provenance" :: "expected" :: sn_declared s)).
Proof.
  intros Hh He Hp Hpp Ha.
  assert (have "expected" s = false ∧ have "provenance" s = false ∧ have "attempt" s = false)
    as (H1 & H2 & H3) by (split_and!; apply Hh; set_solver).
  eapply lines_one.
  { rewrite write_expected_pairs. apply (once_parses "expected" _ expected_arguments rq_with_expected);
      [done|done|apply expected_pairs_ok|done|its_branch|intros; by apply expected_read]. }
  eapply lines_one.
  { rewrite write_provenance_pairs by done.
    apply (once_parses "provenance" _ provenance_arguments rq_with_provenance);
      [done|done|by apply provenance_pairs_ok|done|its_branch|intros; by apply provenance_read]. }
  own_line. change ("attempt id " ++ to_string (rq_attempt r))
    with ("attempt" ++ " id " ++ to_string (rq_attempt r)).
  replace (" id " ++ to_string (rq_attempt r)) with (render (attempt_pairs (rq_attempt r)))
    by (unfold attempt_pairs; same_text).
  apply (once_parses "attempt" _ attempt_arguments rq_with_attempt);
    [done|done|apply attempt_pairs_ok|done|its_branch|intros; by apply attempt_read].
Qed.

(** The directives of a document. *)
Definition document_declared (r : PlacementRequest) : list string :=
  ["attempt"; "provenance"; "expected"] ++
  (match rq_occupied_failure_domains r with [] => [] | _ => ["occupied"] end) ++
  (match rq_incumbent r with Some _ => ["incumbent"] | None => [] end) ++ head_declared.

Lemma document_parses r : writable r →
  lines_parse (scenario_lines r) ScenarioState_init (mkScenario r (document_declared r)).
Proof.
  intros [Hf Hp Hi _ _]. rewrite scenario_lines_split. eapply lines_parse_app; [by apply sets_parse|].
  unfold request_fits in Hf. open_numbers. unfold tail_lines.
  eapply lines_parse_eq.
  - eapply lines_parse_app; [by apply incumbent_parses|]. eapply lines_parse_app.
    + apply (occupied_parses (rq_occupied_failure_domains r)); [by destruct (rq_incumbent r)|done].
    + apply rest_parses; try done. intros directive Hd. unfold have.
      destruct (rq_incumbent r), (rq_occupied_failure_domains r); cbn;
        repeat (apply elem_of_cons in Hd as [->|Hd]; [done|]); by apply elem_of_nil in Hd.
  - unfold document_declared.
    destruct r as [? ? ? ? ? ? ? incumbent domains ? ? ?]. by destruct incumbent, domains.
Qed.

Lemma rendered_request r : writable r → ParseScenario (WriteScenario r) limits = Value r.
Proof.
  intros Hw. pose proof (document_parses r Hw) as Hd. destruct Hw as [_ _ _ Hl Hs].
  unfold ParseScenario. rewrite (proj2 (N.ltb_ge _ _) Hs). unfold WriteScenario.
  rewrite split_on_lines by (by eapply lines_parse_text).
  rewrite (ParseLines_parse _ _ _ Hd Hl). cbn [sn_request]. unfold document_declared.
  by destruct (rq_occupied_failure_domains r), (rq_incumbent r).
Qed.
End Document.
