(* ===== verification/ScenarioStrict.v ===== *)
(** * What the parser refuses

    Every refusal inside a document names its line, and a directive that is read to
    its end has no key it was not asked for. *)

From Stdlib Require Import String Ascii.
From S2P Require Import Prelude StdAlgo Checked Status Bytes Hash Model ModelDigest Validate.
From S2P Require Import Explain Records RuntimeState Scenario ScenarioText ScenarioLines.
From S2P Require Import ScenarioLines.

Open Scope string_scope.
Open Scope N_scope.

#[local] Arguments String.append : simpl nomatch.

(** ** Chains of calls *)

(** The message starts with the line. *)
Definition tagged (line : N) (status : Status) : Prop :=
  ∃ message, status_message status = LineTag line ++ message.

(** An argument before and after some calls: it was only marked if its key is one of [keys]. *)
Definition marked (keys : list string) (a a' : Argument) : Prop :=
  arg_key a' = arg_key a ∧ (arg_consumed a' = true → arg_consumed a = true ∨ arg_key a ∈ keys).

Definition called (keys : list string) (p p' : ArgParser) : Prop :=
  ap_line p' = ap_line p ∧ Forall2 (marked keys) (ap_args p) (ap_args p').

(** A chain asks for [keys] only, and refuses with the line in front of its message. *)
Definition asks {A} (keys : list string) (m : Arg A) : Prop := ∀ p,
  match m p with
  | Value (_, p') => called keys p p'
  | Error status => tagged (ap_line p) status
  end.

Lemma marked_refl keys l : Forall2 (marked keys) l l.
Proof. apply Reflexive_instance_0. intros a. split; [done|by left]. Qed.

Lemma called_refl keys p : called keys p p.
Proof. split; [done|apply marked_refl]. Qed.

Lemma marked_trans keys l1 : ∀ l2 l3,
  Forall2 (marked keys) l1 l2 → Forall2 (marked keys) l2 l3 → Forall2 (marked keys) l1 l3.
Proof.
  intros l2 l3 H12. revert l3. induction H12 as [|a b l1 l2 [Hk Hm] _ IH]; intros l3 H23.
  - by apply Forall2_nil_inv_l in H23 as ->.
  - apply Forall2_cons_inv_l in H23 as (c & l4 & [Hk' Hm'] & Hl & ->). constructor; [|by apply IH].
    split; [congruence|]. intros Hc. destruct (Hm' Hc) as [Hb|Hb]; [by apply Hm|right; congruence].
Qed.

Lemma args_tagged p code message : tagged (ap_line p) (args_status p code message).
Proof. by eexists. Qed.

Section Asks.
Context (keys : list string).

Lemma asks_ret {A} (a : A) : asks keys (mret a).
Proof. intros p. apply called_refl. Qed.

Lemma asks_reject {A} code message : asks keys (reject (A := A) code message).
Proof. intros p. apply args_tagged. Qed.

Lemma asks_bind {A B} (m : Arg A) (k : A → Arg B) :
  asks keys m → (∀ a, asks keys (k a)) → asks keys (m ≫= k).
Proof.
  intros Hm Hk p. unfold mbind, Arg_bind. specialize (Hm p). destruct (m p) as [[a p1]|status]; [|done].
  destruct Hm as [Hl Hf]. specialize (Hk a p1). destruct (k a p1) as [[b p2]|status].
  - destruct Hk as [Hl' Hf']. split; [congruence|by eapply marked_trans].
  - by rewrite <-Hl.
Qed.

Lemma consume_marks key args value args' : key ∈ keys →
  consume key args = Some (value, args') → Forall2 (marked keys) args args'.
Proof.
  intros Hk. revert args'. induction args as [|entry args IH]; cbn; intros args' H; [done|].
  destruct (String.eqb_spec (arg_key entry) key) as [He|_].
  - injection H as <- <-. constructor; [|apply marked_refl]. split; [done|]. right. by rewrite He.
  - destruct (consume key args) as [[value' args'']|]; [|done]. cbn in H. simplify_eq.
    constructor; [|by apply IH]. split; [done|by left].
Qed.

Lemma asks_find key required : key ∈ keys → asks keys (Args.Find key required).
Proof.
  intros Hk p. unfold Args.Find. destruct (consume key (ap_args p)) as [[value args]|] eqn:E.
  - split; [done|]. by eapply consume_marks.
  - destruct required; [apply args_tagged|apply called_refl].
Qed.

(** The calls of the parser are all made of the first. *)
Ltac call := intros Hk; eapply asks_bind; [by apply asks_find|]; intros [value|]; [|apply asks_ret];
  repeat case_match; first [apply asks_ret|apply asks_reject].

Lemma asks_u64 key required old : key ∈ keys → asks keys (Args.U64 key required old).
Proof. call. Qed.
Lemma asks_id key required : key ∈ keys → asks keys (Args.Id key required).
Proof. apply asks_u64. Qed.
Lemma asks_u32 key required : key ∈ keys → asks keys (Args.U32 key required).
Proof.
  intros Hk. eapply asks_bind; [by apply asks_u64|]. intros raw.
  destruct (NarrowU32 raw); [apply asks_ret|apply asks_reject].
Qed.
Lemma asks_bool key required old : key ∈ keys → asks keys (Args.Bool key required old).
Proof. call. Qed.
Lemma asks_text key required old max : key ∈ keys → asks keys (Args.Text key required old max).
Proof. call. Qed.
Lemma asks_enum {T} key required (parse : string → option T) old :
  key ∈ keys → asks keys (Args.Enum key required parse old).
Proof. call. Qed.
Lemma asks_list {A} (parse : string → option A) entries key required old max :
  key ∈ keys → asks keys (Args.List parse entries key required old max).
Proof. call. Qed.
Lemma asks_ids key required old max : key ∈ keys → asks keys (Args.IdList key required old max).
Proof. apply asks_list. Qed.
Lemma asks_refs key required old max : key ∈ keys → asks keys (Args.RefList key required old max).
Proof. apply asks_list. Qed.
Lemma asks_narrowed narrow message : asks keys (narrowed narrow message).
Proof. destruct narrow; [apply asks_ret|apply asks_reject]. Qed.

Lemma asks_finish : asks keys Args.Finish.
Proof.
  intros p. unfold Args.Finish. destruct (find _ _); [apply args_tagged|apply called_refl].
Qed.

(** ** Chains that end with [Finish] *)

Definition unmarked (p : ArgParser) : Prop :=
  Forall (λ a, arg_consumed a = true → arg_key a ∈ keys) (ap_args p).

Definition finishes {A} (m : Arg A) : Prop := ∀ p a p', m p = Value (a, p') → unmarked p →
  Forall (λ a, arg_key a ∈ keys) (ap_args p).

Lemma finishes_finish {A} (k : () → Arg A) : finishes (Args.Finish ≫= k).
Proof.
  intros p a p'. unfold mbind, Arg_bind, Args.Finish. destruct (find _ _) eqn:E; [done|]. intros _ Hu.
  unfold unmarked in Hu. rewrite Forall_forall in *. intros arg Hin. apply Hu; [done|].
  apply list_elem_of_In in Hin. apply (find_none _ _ E) in Hin. by destruct (arg_consumed arg).
Qed.

Lemma finishes_bind {A B} (m : Arg A) (k : A → Arg B) :
  asks keys m → (∀ a, finishes (k a)) → finishes (m ≫= k).
Proof.
  intros Hm Hk p b p'. unfold mbind, Arg_bind. specialize (Hm p).
  destruct (m p) as [[a p1]|status]; [|done]. destruct Hm as [_ Hf]. intros Hv Hu.
  assert (Forall (λ a, arg_key a ∈ keys) (ap_args p1)) as Hp1.
  { apply (Hk a p1 b p' Hv). unfold unmarked in *. clear Hv. induction Hf as [|x y l l' [Hkey Hm'] _ IH]; [done|].
    apply Forall_cons in Hu as [Hx Hl]. constructor; [|by apply IH]. rewrite Hkey. intros Hy.
    destruct (Hm' Hy); [by apply Hx|done]. }
  clear Hv Hu. induction Hf as [|x y l l' [Hkey _] _ IH]; [done|].
  apply Forall_cons in Hp1 as [Hy Hl]. constructor; [by rewrite <-Hkey|by apply IH].
Qed.
End Asks.

(** ** The keys of a directive *)

Definition known_keys (directive : string) : list string :=
  if String.eqb directive "path" then path_keys
  else if String.eqb directive "entry" then entry_keys
  else if String.eqb directive "qos" then qos_keys
  else if String.eqb directive "util" then util_keys
  else if String.eqb directive "policy" then policy_keys
  else if String.eqb directive "incumbent" then incumbent_keys
  else if String.eqb directive "occupied" then ["domains"]
  else if String.eqb directive "expected" then expected_keys
  else if String.eqb directive "provenance" then provenance_keys
  else if String.eqb directive "attempt" then ["id"]
  else pair_keys.

Create HintDb asks.
#[export] Hint Resolve asks_ret asks_reject asks_u64 asks_id asks_u32 asks_bool asks_text asks_enum
  asks_list asks_ids asks_refs asks_narrowed asks_finish asks_find : asks.
#[export] Hint Extern 2 (_ ∈ _) => apply (bool_decide_unpack _); vm_compute; exact I : asks.

Lemma objectives_ask keys parts : asks keys (objectives_of parts).
Proof.
  induction parts as [|part parts IH]; cbn [objectives_of]; [apply asks_ret|].
  destruct (cut ":" part) as [[before after]|]; [|apply asks_reject].
  destruct (ParseObjectiveKind before); [|apply asks_reject].
  destruct (ParseDirection after); [|apply asks_reject].
  eapply asks_bind; [exact IH|]. intros. apply asks_ret.
Qed.

Lemma ParseObjectives_asks keys text max : asks keys (ParseObjectives text max).
Proof.
  unfold ParseObjectives. destruct (SplitCommas text max) as [[|part parts]|];
    [apply asks_reject|apply objectives_ask|apply asks_reject].
Qed.

Lemma ParseTierList_asks keys text : asks keys (ParseTierList text).
Proof.
  unfold ParseTierList. destruct (SplitCommas text 3) as [parts|]; [|apply asks_reject].
  induction parts as [|part parts IH]; cbn [tiers_of]; [apply asks_ret|].
  destruct (ParsePathTier part); [|apply asks_reject].
  eapply asks_bind; [exact IH|]. intros. apply asks_ret.
Qed.

#[export] Hint Resolve ParseObjectives_asks ParseTierList_asks : asks.

(** Goes through a chain up to its [Finish]. *)
Ltac ask_step := eapply asks_bind; [solve [eauto with asks nocore]|intros].
Ltac ask := repeat ask_step; solve [eauto with asks nocore].
Ltac end_step := eapply finishes_bind; [solve [eauto with asks nocore]|intros].
Ltac ending := first [apply finishes_finish|end_step; ending].

Lemma pair_asks directive : "id" ∈ known_keys directive → "gen" ∈ known_keys directive →
  asks (known_keys directive) pair_arguments.
Proof. intros Hi Hg. unfold pair_arguments. ask. Qed.

Lemma optional_asks keys key : key ∈ keys → asks keys (optional_id key).
Proof. intros Hk. unfold optional_id. ask. Qed.

#[export] Hint Resolve pair_asks optional_asks : asks.

Lemma path_asks limits : asks (known_keys "path") (path_arguments limits).
Proof. unfold path_arguments. ask. Qed.
Lemma entry_asks : asks (known_keys "entry") entry_arguments.
Proof. unfold entry_arguments. ask. Qed.
Lemma qos_asks : asks (known_keys "qos") qos_arguments.
Proof. unfold qos_arguments. ask. Qed.
Lemma util_asks : asks (known_keys "util") util_arguments.
Proof. unfold util_arguments. ask. Qed.
Lemma incumbent_asks : asks (known_keys "incumbent") incumbent_arguments.
Proof. unfold incumbent_arguments. ask. Qed.
Lemma occupied_asks limits : asks (known_keys "occupied") (occupied_arguments limits).
Proof. unfold occupied_arguments. ask. Qed.
Lemma expected_asks : asks (known_keys "expected") expected_arguments.
Proof. unfold expected_arguments. ask. Qed.
Lemma provenance_asks : asks (known_keys "provenance") provenance_arguments.
Proof. unfold provenance_arguments. ask. Qed.
Lemma attempt_asks : asks (known_keys "attempt") attempt_arguments.
Proof. unfold attempt_arguments. ask. Qed.

Lemma lists_ask limits : asks (known_keys "policy") (policy_lists limits).
Proof.
  unfold policy_lists. ask_step. eapply asks_bind; [destruct a; eauto with asks nocore|intros].
  ask_step. eapply asks_bind; [destruct a1; eauto with asks nocore|intros]. ask.
Qed.
Lemma domains_ask limits : asks (known_keys "policy") (domain_arguments limits).
Proof. unfold domain_arguments. ask. Qed.
Lemma affinity_asks limits : asks (known_keys "policy") (affinity_arguments limits).
Proof. unfold affinity_arguments. ask. Qed.
Lemma admission_asks : asks (known_keys "policy") admission_arguments.
Proof. unfold admission_arguments. ask. Qed.
Lemma service_asks : asks (known_keys "policy") service_arguments.
Proof. unfold service_arguments. ask. Qed.
Lemma churn_asks : asks (known_keys "policy") churn_arguments.
Proof. unfold churn_arguments. ask. Qed.
Lemma evidence_policy_asks : asks (known_keys "policy") evidence_policy_arguments.
Proof. unfold evidence_policy_arguments. ask. Qed.

#[export] Hint Resolve lists_ask domains_ask affinity_asks admission_asks service_asks churn_asks
  evidence_policy_asks : asks.

Lemma policy_asks limits : asks (known_keys "policy") (policy_arguments limits).
Proof.
  unfold policy_arguments. repeat ask_step. repeat case_match. apply asks_ret.
Qed.
Lemma finished_asks directive : "id" ∈ known_keys directive → "gen" ∈ known_keys directive →
  asks (known_keys directive) finished_pair.
Proof. intros Hi Hg. unfold finished_pair. ask. Qed.

#[export] Hint Resolve path_asks entry_asks qos_asks util_asks incumbent_asks occupied_asks
  expected_asks provenance_asks attempt_asks policy_asks finished_asks : asks.

Ltac reading arguments := intros; unfold arguments; ending.

Lemma path_finishes limits : finishes (known_keys "path") (path_arguments limits).
Proof. reading path_arguments. Qed.
Lemma entry_finishes : finishes (known_keys "entry") entry_arguments.
Proof. reading entry_arguments. Qed.
Lemma qos_finishes : finishes (known_keys "qos") qos_arguments.
Proof. reading qos_arguments. Qed.
Lemma util_finishes : finishes (known_keys "util") util_arguments.
Proof. reading util_arguments. Qed.
Lemma policy_finishes limits : finishes (known_keys "policy") (policy_arguments limits).
Proof. reading policy_arguments. Qed.
Lemma incumbent_finishes : finishes (known_keys "incumbent") incumbent_arguments.
Proof. reading incumbent_arguments. Qed.
Lemma occupied_finishes limits : finishes (known_keys "occupied") (occupied_arguments limits).
Proof. reading occupied_arguments. Qed.
Lemma expected_finishes : finishes (known_keys "expected") expected_arguments.
Proof. reading expected_arguments. Qed.
Lemma provenance_finishes : finishes (known_keys "provenance") provenance_arguments.
Proof. reading provenance_arguments. Qed.
Lemma attempt_finishes : finishes (known_keys "attempt") attempt_arguments.
Proof. reading attempt_arguments. Qed.
Lemma finished_finishes directive : "id" ∈ known_keys directive → "gen" ∈ known_keys directive →
  finishes (known_keys directive) finished_pair.
Proof. reading finished_pair. Qed.

Create HintDb finishes.
#[export] Hint Resolve path_finishes entry_finishes qos_finishes util_finishes policy_finishes incumbent_finishes occupied_finishes
  expected_finishes provenance_finishes attempt_finishes finished_finishes : finishes.

(** ** Lines *)

Lemma take_tagged {A} keys (arguments : Arg A) f p s status : asks keys arguments →
  take_arguments arguments f p s = Error status → tagged (ap_line p) status.
Proof.
  intros Ha. unfold take_arguments. specialize (Ha p).
  destruct (arguments p) as [[a p']|status']; [done|]. by intros [= <-].
Qed.

Lemma once_tagged {A} keys (arguments : Arg A) f p s status : asks keys arguments →
  declare_once arguments f p s = Error status → tagged (ap_line p) status.
Proof.
  intros Ha. unfold declare_once. destruct (have _ s); [intros [= <-]; apply args_tagged|].
  destruct (take_arguments arguments f p s) as [s'|status'] eqn:E; [done|]. intros [= <-].
  by apply (take_tagged _ _ _ _ _ _ Ha E).
Qed.

(** The branches of [ParseDirective]. *)
Ltac directives :=
  repeat match goal with
    | |- (if String.eqb (ap_directive ?p) ?d then _ else _) = _ → _ =>
        destruct (String.eqb_spec (ap_directive p) d)
    | |- (if negb (have _ _) then _ else _) = _ → _ => destruct (have _ _); cbn [negb]
    | |- (if _ <=? _ then _ else _) = _ → _ => destruct (_ <=? _)
    end.

Lemma ParseDirective_tagged limits p s status :
  ParseDirective limits p s = Error status → tagged (ap_line p) status.
Proof.
  unfold ParseDirective. directives;
    first [intros [= <-]; by eexists
          |apply (once_tagged (known_keys "flow")); solve [eauto with asks nocore]
          |eapply once_tagged; solve [eauto with asks nocore]
          |eapply take_tagged; solve [eauto with asks nocore]].
Qed.

Lemma ParseLine_tagged limits number line s status :
  ParseLine limits number line s = Error status → tagged number status.
Proof.
  unfold ParseLine. destruct (_ <? _); [intros [= <-]; by eexists|].
  destruct (SplitWhitespace _) as [|directive tokens]; [done|].
  destruct (String.eqb directive "version").
  - unfold ParseVersion. intros H. repeat case_match; simplify_eq; by eexists.
  - assert (ap_line (ArgParser_init directive tokens number) = number) as Hl.
    { unfold ArgParser_init. repeat case_match; done. }
    destruct (negb _) eqn:Hv; [|rewrite <-Hl at 2; apply ParseDirective_tagged].
    intros [= <-]. revert Hv. rewrite <-Hl at 2. unfold ArgParser_Validate.
    destruct (ap_oversized _); [intros; apply args_tagged|].
    destruct (ap_malformed _); [intros; apply args_tagged|].
    destruct (negb (String.eqb _ _)); [intros; apply args_tagged|done].
Qed.

Lemma take_finishes {A} keys (arguments : Arg A) f p s s' : finishes keys arguments → unmarked keys p →
  take_arguments arguments f p s = Value s' → Forall (λ a, arg_key a ∈ keys) (ap_args p).
Proof.
  intros He Hu. unfold take_arguments. destruct (arguments p) as [[a p']|] eqn:E; [|done]. intros _.
  by apply (He p a p').
Qed.

Lemma once_finishes {A} keys (arguments : Arg A) f p s s' : finishes keys arguments → unmarked keys p →
  declare_once arguments f p s = Value s' → Forall (λ a, arg_key a ∈ keys) (ap_args p).
Proof.
  intros He Hu. unfold declare_once. destruct (have _ s); [done|].
  destruct (take_arguments arguments f p s) as [s1|] eqn:E; [|done]. intros _.
  by apply (take_finishes _ _ _ _ _ _ He Hu E).
Qed.

(** The two directives whose keys are not checked. *)
Definition unchecked (directive : string) : Prop := directive = "flow" ∨ directive = "candidateset".

Lemma ParseDirective_keys limits p s s' : ParseDirective limits p s = Value s' →
  ¬ unchecked (ap_directive p) → unmarked (known_keys (ap_directive p)) p →
  Forall (λ a, arg_key a ∈ known_keys (ap_directive p)) (ap_args p).
Proof.
  unfold ParseDirective, unchecked. directives; intros Hv Hn Hu; try done; try (by destruct Hn; auto);
    repeat match goal with H : ap_directive _ = _ |- _ => rewrite H in *; clear H end;
    first [eapply once_finishes; [|exact Hu|exact Hv]|eapply take_finishes; [|exact Hu|exact Hv]];
    eauto with finishes asks nocore.
Qed.

(** ** Words and pairs *)

Lemma push_word_words word words : Forall (λ w, w ≠ "") words →
  Forall (λ w, w ≠ "") (push_word word words).
Proof. intros Hw. destruct word; [done|]. by constructor. Qed.

Lemma split_words_words text : Forall (λ w, w ≠ "") (snd (split_words text)).
Proof.
  induction text as [|c text IH]; cbn; [constructor|].
  destruct (split_words text) as [word words]. destruct (is_space c); [by apply push_word_words|done].
Qed.

Lemma SplitWhitespace_nonempty text : Forall (λ w, w ≠ "") (SplitWhitespace text).
Proof.
  unfold SplitWhitespace. pose proof (split_words_words text) as Hw.
  destruct (split_words text). by apply push_word_words.
Qed.

(** An even number of words is a list of pairs. *)
Lemma words_pairs tokens : size tokens mod 2 = 0 → ∃ kvs, tokens = words_of kvs.
Proof.
  remember (length tokens) as n eqn:Hn. revert tokens Hn.
  induction (lt_wf n) as [n _ IH]; intros tokens Hn Hm.
  destruct tokens as [|key [|value tokens]]; [by exists []|done|].
  destruct (IH (length tokens)) with (tokens := tokens) as [kvs ->]; [cbn in Hn; lia|done| |].
  - replace (size (key :: value :: tokens)) with (size tokens + 1 * 2) in Hm
      by (autorewrite with size; lia).
    by rewrite N.Div0.mod_add in Hm.
  - by exists ((key, value) :: kvs).
Qed.

(** Without a key that repeats all pairs become arguments. *)
Lemma collect_distinct kvs : ∀ args args', Forall (λ w, w ≠ "") (words_of kvs) →
  NoDup (arg_key <$> args) → collect_arguments (words_of kvs) args = (args', "") →
  args' = (args ++ asked [] kvs)%list ∧ NoDup (arg_key <$> args').
Proof.
  induction kvs as [|[key value] kvs IH]; intros args args' Hw Hn.
  - intros [= <-]. by rewrite app_nil_r.
  - change (words_of ((key, value) :: kvs)) with (key :: value :: words_of kvs) in *.
    apply Forall_cons in Hw as [Hk [_ Hw]%Forall_cons]. cbn [collect_arguments].
    destruct (existsb _ args) eqn:E; [by intros [= _ ->]|]. apply existsb_key in E. intros Hc.
    apply IH in Hc as [-> Hd]; [|done|].
    + rewrite <-app_assoc in *. by split.
    + rewrite fmap_app. apply NoDup_app. split_and!; [done| |by repeat constructor; set_solver].
      intros x Hx Hin. cbn in Hin. apply list_elem_of_singleton in Hin as ->. done.
Qed.

Lemma asked_keys keys kvs : arg_key <$> asked keys kvs = kvs.*1.
Proof. unfold asked. rewrite <-list_fmap_compose. done. Qed.

Lemma ArgParser_init_valid directive tokens number : Forall (λ w, w ≠ "") tokens →
  status_ok (ArgParser_Validate (ArgParser_init directive tokens number)) = true →
  ∃ kvs, tokens = words_of kvs ∧ NoDup kvs.*1 ∧
    ArgParser_init directive tokens number = parsing directive number kvs [].
Proof.
  intros Hw. unfold ArgParser_init. destruct (size tokens mod 2 =? 0) eqn:Hm; [|done]. cbn [negb].
  destruct (_ <? _); [done|]. b2p. destruct (words_pairs tokens Hm) as [kvs ->].
  destruct (collect_arguments _ []) as [args duplicate] eqn:E. unfold ArgParser_Validate.
  cbn [ap_oversized ap_malformed ap_duplicate]. destruct (String.eqb_spec duplicate "") as [->|_]; [|done].
  intros _. apply collect_distinct in E as [-> Hn]; [|done|constructor].
  exists kvs. split_and!; [done|by rewrite <-(asked_keys [])|done].
Qed.

(** ** Declared directives *)

Lemma take_declares {A} (arguments : Arg A) f p s s' :
  take_arguments arguments f p s = Value s' → sn_declared s' = sn_declared s.
Proof. unfold take_arguments. destruct (arguments p) as [[a p']|]; [|done]. by intros [= <-]. Qed.

Lemma once_declares {A} (arguments : Arg A) f p s s' :
  declare_once arguments f p s = Value s' → sn_declared s' = ap_directive p :: sn_declared s.
Proof.
  unfold declare_once. destruct (have _ s); [done|].
  destruct (take_arguments arguments f p s) eqn:E; [|done]. intros [= <-]. cbn.
  by rewrite (take_declares _ _ _ _ _ E).
Qed.

Lemma ParseDirective_declares limits p s s' : ParseDirective limits p s = Value s' →
  sn_declared s' = ap_directive p :: sn_declared s ∨
  sn_declared s' = sn_declared s ∧ ap_directive p ∉ kRequiredDirectives.
Proof.
  unfold ParseDirective. directives; intros H; try done;
    first [left; by eapply once_declares
          |right; split; [by eapply take_declares|]];
    match goal with E : ap_directive _ = _ |- _ => rewrite E; by apply (bool_decide_unpack _) end.
Qed.

Lemma version_optional : "version" ∉ kRequiredDirectives.
Proof. by apply (bool_decide_unpack _). Qed.

(** The directive of a line. *)
Definition line_directive (line : string) : option string :=
  head (SplitWhitespace (without_comment line)).

Lemma ParseLine_declares limits number line s s' : ParseLine limits number line s = Value s' →
  sn_declared s ⊆ sn_declared s' ∧
  (∀ d, d ∈ kRequiredDirectives → line_directive line = Some d → d ∈ sn_declared s').
Proof.
  unfold ParseLine, line_directive. destruct (_ <? _); [done|].
  destruct (SplitWhitespace _) as [|directive tokens]; [by intros [= <-]|]. cbn [head].
  destruct (String.eqb_spec directive "version") as [->|_].
  - intros H. assert (s' = s) as ->; [unfold ParseVersion in H; repeat case_match; by simplify_eq|].
    split; [done|]. intros d Hd [= <-]. by destruct version_optional.
  - destruct (negb _) eqn:Hv; [done|].
    assert (ap_directive (ArgParser_init directive tokens number) = directive) as Hdir.
    { unfold ArgParser_init. repeat case_match; done. }
    intros H. apply ParseDirective_declares in H. rewrite Hdir in H.
    destruct H as [->|[-> Hn]]; (split; [|intros d Hd [= <-]; first [by left|done]]);
      [by intros d Hd; right|done].
Qed.

Lemma ParseLines_declares limits lines : ∀ number s s', ParseLines limits number lines s = Value s' →
  sn_declared s ⊆ sn_declared s' ∧
  (∀ line d, line ∈ lines → d ∈ kRequiredDirectives → line_directive line = Some d →
             d ∈ sn_declared s').
Proof.
  induction lines as [|line lines IH]; intros number s s'; cbn [ParseLines].
  - intros [= <-]. split; [done|]. by intros line d Hl%elem_of_nil.
  - destruct (ParseLine limits number line s) as [s1|] eqn:E; [|done]. intros H.
    apply ParseLine_declares in E as [Hs Hd]. apply IH in H as [Hs' Hd'].
    split; [by etrans|].
    intros other d [->|Hin]%elem_of_cons Hr Ho; [|by eapply Hd'].
    by apply Hs', Hd.
Qed.

(** The first line that is refused. *)
Lemma ParseLines_refusal limits lines : ∀ number s status,
  ParseLines limits number lines s = Error status →
  ∃ before line after s', lines = (before ++ line :: after)%list ∧
    ParseLines limits number before s = Value s' ∧
    ParseLine limits (number + size before) line s' = Error status.
Proof.
  induction lines as [|line lines IH]; intros number s status; cbn [ParseLines]; [done|].
  destruct (ParseLine limits number line s) as [s1|status'] eqn:E.
  - intros (before & other & after & s' & -> & Hb & Ho)%IH.
    exists (line :: before), other, after, s'. cbn [ParseLines]. rewrite E. split_and!; [done..|].
    replace (number + size (line :: before)) with (number + 1 + size before); [done|].
    autorewrite with size. lia.
  - intros [= <-]. exists [], line, lines, s. split_and!; [done..|]. by rewrite N.add_0_r.
Qed.
