(* ===== verification/BenchFacts.v ===== *)
(** * Facts about the synthetic benchmark

    Every request of the generator is well formed and current, and every candidate it
    supplies is legal. *)

From Stdlib Require Import String ZArith.
From S2P Require Import Prelude StdAlgo Checked Status Bytes Hash Model ModelDigest Validate.
From S2P Require Import Explain Records Evaluate Place PlaceCases RuntimeState Bench.

Open Scope N_scope.

(** ** Draws *)

(** Whatever the state, the value has the property. *)
Definition yields {A} (m : Rng A) (P : A → Prop) : Prop := ∀ state, P (fst (m state)).

Lemma yields_ret {A} (a : A) (P : A → Prop) : P a → yields (mret a) P.
Proof. by intros H state. Qed.

Lemma yields_bind {A B} (m : Rng A) (k : A → Rng B) (P : A → Prop) (Q : B → Prop) :
  yields m P → (∀ a, P a → yields (k a) Q) → yields (m ≫= k) Q.
Proof.
  intros Hm Hk state. unfold mbind, Rng_bind. specialize (Hm state).
  destruct (m state) as [a state']. by apply (Hk a).
Qed.

Lemma yields_below bound : 0 < bound → yields (Below bound) (λ n, n < bound).
Proof.
  intros Hb. unfold Below. rewrite (proj2 (N.eqb_neq _ _)) by lia.
  eapply yields_bind with (P := λ _, True); [done|]. intros next _. apply yields_ret, N.mod_lt. lia.
Qed.

Lemma yields_draws {A B} (f : A → Rng B) (R : A → B → Prop) l :
  (∀ a, a ∈ l → yields (f a) (R a)) → yields (draws f l) (Forall2 R l).
Proof.
  induction l as [|a l IH]; intros Hf; cbn [draws]; [apply yields_ret; constructor|].
  eapply yields_bind; [apply Hf; by left|]. intros b Hb.
  eapply yields_bind; [apply IH; intros; apply Hf; by right|]. intros bs Hbs.
  apply yields_ret. by constructor.
Qed.

(** Goes through a chain of draws. *)
Ltac draw :=
  repeat (eapply yields_bind;
          [first [apply yields_below; lia|by apply yields_ret]|cbv beta; intros]).

(** ** The generated request *)

Record path_made (i : N) (p : CandidatePath) : Prop := {
  pm_id : path_id p = wrap 64 (1 + i);
  pm_authority : path_authority p = 5;
  pm_tier : PathTier_ordinal (attr_tier (path_attributes p)) ≤ 2;
  pm_scope : LocalityScope_ordinal (attr_locality_scope (path_attributes p)) ≤ 4;
  pm_labels : size (attr_labels (path_attributes p)) ≤ 1;
  pm_reservations : size (attr_reservations (path_attributes p)) ≤ 1;
  pm_valid : Forall (λ ref, ReservationRef_valid ref = true) (attr_reservations (path_attributes p));
}.

Lemma bench_path_made config i : yields (bench_path config i) (path_made i).
Proof.
  unfold bench_path. cbv zeta. draw.
  eapply yields_bind with (P := λ l, size l ≤ 1).
  { destruct (_ =? _); [draw|]; by apply yields_ret. }
  intros labels Hl. draw.
  eapply yields_bind with
    (P := λ l, size l ≤ 1 ∧ Forall (λ ref, ReservationRef_valid ref = true) l).
  { destruct (_ =? _); [|by apply yields_ret]. draw. apply yields_ret. split; [done|].
    constructor; [|constructor]. apply ReservationRef_valid_true. cbn.
    rewrite !wrap_small by (unfold uint_fits; lia). lia. }
  intros reservations [Hr Hv]. apply yields_ret. constructor; cbn; try done.
  - assert (a = 0 ∨ a = 1 ∨ a = 2) as [->|[->| ->]] by lia; done.
  - assert (a1 = 0 ∨ a1 = 1 ∨ a1 = 2 ∨ a1 = 3 ∨ a1 = 4) as Ha by lia.
    by repeat destruct Ha as [->|Ha]; subst.
Qed.

Definition entry_made (p : CandidatePath) (e : PathCapacity) : Prop :=
  cap_path e = path_id p ∧ cap_capacity_bytes e = 1000000 ∧
  50000 ≤ cap_residual_bytes e ≤ cap_capacity_bytes e.

Lemma bench_entry_made p : yields (bench_entry p) (entry_made p).
Proof. unfold bench_entry. draw. apply yields_ret. unfold entry_made. cbn. lia. Qed.

Definition evidence_made (p : CandidatePath) (e : CongestionEvidenceEntry) : Prop :=
  ev_path e = path_id p ∧ ev_utilization_ppb e ≤ 1000000000.

Lemma bench_evidence_made p : yields (bench_evidence p) (evidence_made p).
Proof.
  unfold bench_evidence. draw. apply yields_ret. unfold evidence_made. cbn.
  rewrite wrap_small by (unfold uint_fits; lia). lia.
Qed.

(** What the generator makes of a configuration and an index. *)
Record made (config : BenchConfig) (index : N) (r : PlacementRequest) : Prop := {
  md_paths : Forall2 path_made (up_to (N.max 1 (bc_fanout config))) (set_paths (rq_candidates r));
  md_entries : Forall2 entry_made (set_paths (rq_candidates r)) (snap_entries (rq_capacity r));
  md_evidence : Forall2 evidence_made (set_paths (rq_candidates r)) (bundle_entries (rq_evidence r));
  md_incumbent : from_option (λ i, ∃ p, p ∈ set_paths (rq_candidates r) ∧ i = bench_incumbent index p)
    True (rq_incumbent r);
  md_rest : r = mkRequest (wrap 64 (1000 + index)) (wrap 64 (1 + index))
    (mkCandidateSet 7 3 (set_paths (rq_candidates r)))
    (mkSnapshot 9 4 (snap_entries (rq_capacity r)))
    (mkQos 11 2 ServiceClass.kControlled PriorityClass.kNormal 10000 0)
    (bench_policy config (bool_decide (is_Some (rq_incumbent r))))
    (mkBundle 13 6 (bundle_entries (rq_evidence r))) (rq_incumbent r) []
    (mkExpectation 5 3 4 8 2 1 6)
    (mkProvenance "flowplace-bench" ServerState.kVersionString index 0) (wrap 64 (100000 + index));
}.

Lemma up_to_length n : length (up_to n) = N.to_nat n.
Proof. unfold up_to. by rewrite length_fmap, length_seq. Qed.

Lemma MakeRequest_made config index : yields (MakeRequest config index) (made config index).
Proof.
  unfold MakeRequest. cbv zeta.
  eapply yields_bind; [apply yields_draws; intros i _; apply bench_path_made|]. intros paths Hp.
  eapply yields_bind; [apply yields_draws; intros p _; apply bench_entry_made|]. intros entries He.
  eapply yields_bind; [apply yields_draws; intros p _; apply bench_evidence_made|]. intros evidence Hv.
  eapply yields_bind with
    (P := from_option (λ i, ∃ p, p ∈ paths ∧ i = bench_incumbent index p) True).
  { destruct (_ =? _); [by apply yields_ret|]. draw. destruct (_ <? _); [|by apply yields_ret].
    draw. apply yields_ret. cbn. eexists. split; [|done]. apply list_elem_of_In, nth_In.
    apply Forall2_length in Hp. rewrite <-Hp, up_to_length. lia. }
  intros incumbent Hi. apply yields_ret. by constructor.
Qed.

(** ** The generated request is valid *)

Section Made.
Context (config : BenchConfig) (index : N) (r : PlacementRequest).
Context (Hm : made config index r).
Context (Hfanout : bc_fanout config ≤ 2 ^ 20).
Context (Hindex : index < 2 ^ 63).

Lemma made_ids : path_id <$> set_paths (rq_candidates r) =
  (λ i, 1 + i) <$> up_to (N.max 1 (bc_fanout config)).
Proof.
  destruct Hm as [Hp _ _ _ _]. assert (Forall (λ i, i < 2 ^ 20) (up_to (N.max 1 (bc_fanout config)))) as Hi.
  { apply Forall_forall. intros i (n & -> & Hn)%list_elem_of_fmap. apply elem_of_seq in Hn. lia. }
  induction Hp as [|i p l ps [Hid _ _ _ _ _ _] _ IH]; [done|].
  apply Forall_cons in Hi as [Hi His]. cbn. rewrite IH by done. rewrite Hid.
  by rewrite wrap_small by (unfold uint_fits; lia).
Qed.

Lemma made_ids_NoDup : NoDup (path_id <$> set_paths (rq_candidates r)).
Proof.
  rewrite made_ids. apply NoDup_fmap_2; [intros i j; lia|].
  apply NoDup_fmap_2; [intros i j; lia|apply NoDup_seq].
Qed.

Lemma made_id_nonzero p : p ∈ set_paths (rq_candidates r) → path_id p ≠ 0.
Proof.
  intros Hp. assert (path_id p ∈ path_id <$> set_paths (rq_candidates r)) as Hin
    by (by apply list_elem_of_fmap_2).
  rewrite made_ids in Hin. apply list_elem_of_fmap in Hin as (i & -> & _). lia.
Qed.

Lemma made_path p : p ∈ set_paths (rq_candidates r) → ∃ i, path_made i p.
Proof.
  intros Hp. destruct Hm as [Hps _ _ _ _].
  destruct (list_elem_of_lookup_1 _ _ Hp) as [n Hn].
  destruct (Forall2_lookup_r _ _ _ _ _ Hps Hn) as (i & _ & Hi). by exists i.
Qed.

Lemma made_size : size (set_paths (rq_candidates r)) = N.max 1 (bc_fanout config).
Proof.
  destruct Hm as [Hp _ _ _ _]. apply Forall2_length in Hp. unfold size. rewrite <-Hp, up_to_length. lia.
Qed.

Lemma made_entries_ids : cap_path <$> snap_entries (rq_capacity r) = path_id <$> set_paths (rq_candidates r).
Proof. destruct Hm as [_ He _ _ _]. induction He as [|p e ps es [Hp _] _ IH]; [done|]. cbn. by rewrite Hp, IH. Qed.

Lemma made_evidence_ids : ev_path <$> bundle_entries (rq_evidence r) = path_id <$> set_paths (rq_candidates r).
Proof. destruct Hm as [_ _ He _ _]. induction He as [|p e ps es [Hp _] _ IH]; [done|]. cbn. by rewrite Hp, IH. Qed.

Lemma made_entry e : e ∈ snap_entries (rq_capacity r) →
  ∃ p, p ∈ set_paths (rq_candidates r) ∧ entry_made p e.
Proof.
  intros [n Hn]%list_elem_of_lookup_1. destruct Hm as [_ He _ _ _].
  destruct (Forall2_lookup_r _ _ _ _ _ He Hn) as (p & Hp & Hpe). exists p.
  split; [by eapply list_elem_of_lookup_2|done].
Qed.

Lemma made_evidence_entry e : e ∈ bundle_entries (rq_evidence r) →
  ∃ p, p ∈ set_paths (rq_candidates r) ∧ evidence_made p e.
Proof.
  intros [n Hn]%list_elem_of_lookup_1. destruct Hm as [_ _ He _ _].
  destruct (Forall2_lookup_r _ _ _ _ _ He Hn) as (p & Hp & Hpe). exists p.
  split; [by eapply list_elem_of_lookup_2|done].
Qed.

Lemma bench_policy_objectives b : pol_objectives (bench_policy config b) ≠ [] ∧
  pol_objectives (bench_policy config b) `prefix_of` bench_objectives.
Proof.
  cbn [bench_policy pol_objectives]. split.
  - destruct (N.to_nat _) eqn:E; [lia|done].
  - apply prefix_take.
Qed.

(** A field of the request. *)
Ltac field f := let H := fresh in pose proof (f_equal f (md_rest _ _ _ Hm)) as H; exact H.

Lemma made_policy : rq_policy r = bench_policy config (bool_decide (is_Some (rq_incumbent r))).
Proof. field rq_policy. Qed.
Lemma made_qos : rq_qos r = mkQos 11 2 ServiceClass.kControlled PriorityClass.kNormal 10000 0.
Proof. field rq_qos. Qed.
Lemma made_expected : rq_expected r = mkExpectation 5 3 4 8 2 1 6.
Proof. field rq_expected. Qed.
Lemma made_candidates : rq_candidates r = mkCandidateSet 7 3 (set_paths (rq_candidates r)).
Proof. field rq_candidates. Qed.
Lemma made_capacity : rq_capacity r = mkSnapshot 9 4 (snap_entries (rq_capacity r)).
Proof. field rq_capacity. Qed.
Lemma made_bundle : rq_evidence r = mkBundle 13 6 (bundle_entries (rq_evidence r)).
Proof. field rq_evidence. Qed.
Lemma made_occupied : rq_occupied_failure_domains r = [].
Proof. field rq_occupied_failure_domains. Qed.
Lemma made_flow : rq_flow r = 1000 + index ∧ rq_flow_generation r = 1 + index.
Proof.
  pose proof (f_equal rq_flow (md_rest _ _ _ Hm)) as ->.
  pose proof (f_equal rq_flow_generation (md_rest _ _ _ Hm)) as ->. cbn.
  rewrite !wrap_small by (unfold uint_fits; lia). done.
Qed.
Lemma made_provenance :
  rq_provenance r = mkProvenance "flowplace-bench" ServerState.kVersionString index 0.
Proof. field rq_provenance. Qed.

(** The policy does not depend on the request otherwise. *)
Lemma bench_policy_rest b : let p := bench_policy config b in
  pol_id p = 17 ∧ pol_generation p = 8 ∧ pol_allowed_tiers p = [] ∧ pol_required_labels p = [] ∧
  pol_forbidden_labels p = [] ∧ pol_locality p = mkLocality None None [] ∧
  pol_failure_domains p = mkFailureDomains None [] false 0 ∧
  pol_reservation_affinity p = mkAffinity false [] ∧
  pol_admission p = mkAdmission 0 GateAction.kPlace ∧ pol_service p = mkService false 0 ∧
  on_move (pol_churn p) = ChurnAction.kAllowMove ∧ threshold_objective_index (pol_churn p) = 0 ∧
  pol_evidence p = mkEvidencePolicy EvidencePolicyMode.kHardExclude EvidencePolicyMode.kHardExclude.
Proof. by destruct b. Qed.

Lemma made_enumerations : enumerations_ok r.
Proof.
  unfold enumerations_ok. rewrite made_qos, made_policy.
  destruct (bench_policy_rest (bool_decide (is_Some (rq_incumbent r))))
    as (_ & _ & -> & _ & _ & _ & _ & _ & -> & -> & -> & _ & ->).
  destruct (bench_policy_objectives (bool_decide (is_Some (rq_incumbent r)))) as [_ [l Hl]].
  split_and!; try done.
  - assert (Forall (λ o, ObjectiveKind_ordinal (obj_kind o) ≤ 8 ∧ Direction_ordinal (obj_direction o) ≤ 1)
      bench_objectives) as Ho by (by repeat constructor).
    rewrite Hl in Ho. by apply Forall_app in Ho as [Ho _].
  - apply Forall_forall. intros p Hp. destruct (made_path p Hp) as [i []]. by split.
Qed.

Lemma made_generations : generations_ok r.
Proof.
  destruct made_flow as [Hf Hg]. unfold generations_ok, declared_ids.
  rewrite Hf, Hg, made_expected, made_candidates, made_capacity, made_bundle, made_qos, made_policy.
  destruct (bench_policy_rest (bool_decide (is_Some (rq_incumbent r)))) as (-> & -> & _).
  split_and!; [cbn; repeat constructor; lia|done|].
  destruct (rq_incumbent r) as [i|] eqn:Hi; [|done]. cbn.
  pose proof (md_incumbent _ _ _ Hm) as H. rewrite Hi in H. destruct H as (p & Hp & ->).
  apply made_id_nonzero in Hp. unfold incumbent_ok, bench_incumbent. cbn.
  rewrite wrap_small by (unfold uint_fits; lia). split; [|done]. by repeat constructor; try lia.
Qed.

Lemma made_bounds : bounds_ok r default_limits.
Proof.
  unfold bounds_ok. rewrite made_occupied, made_policy, made_provenance, made_size.
  assert (size (snap_entries (rq_capacity r)) = size (set_paths (rq_candidates r))) as ->.
  { unfold size. by rewrite <-(length_fmap cap_path), made_entries_ids, length_fmap. }
  assert (size (bundle_entries (rq_evidence r)) = size (set_paths (rq_candidates r))) as ->.
  { unfold size. by rewrite <-(length_fmap ev_path), made_evidence_ids, length_fmap. }
  rewrite made_size.
  destruct (bench_policy_rest (bool_decide (is_Some (rq_incumbent r))))
    as (_ & _ & -> & -> & -> & -> & -> & -> & _).
  destruct (bench_policy_objectives (bool_decide (is_Some (rq_incumbent r)))) as [Ho [l Hl]].
  cbn [max_candidate_paths max_capacity_entries max_evidence_entries max_occupied_failure_domains
    max_objectives max_policy_id_lists max_affinity_refs default_limits].
  split_and!; try done; try lia.
  - apply (f_equal size) in Hl. autorewrite with size in Hl. change (size bench_objectives) with 8 in Hl. lia.
  - by repeat constructor.
Qed.

Lemma made_candidates_ok : candidates_ok r default_limits.
Proof.
  split; [|apply made_ids_NoDup]. apply Forall_forall. intros p Hp.
  destruct (made_path p Hp) as [i []]. apply made_id_nonzero in Hp. unfold candidate_ok.
  cbn [max_path_labels max_path_reservations default_limits].
  assert (∀ {A} (l : list A), size l ≤ 1 → NoDup l) as Hshort.
  { intros A [|x [|y l]] Hl; [constructor|apply NoDup_singleton|].
    autorewrite with size in Hl. lia. }
  split_and!; try done; try lia; by apply Hshort.
Qed.

Lemma made_capacity_and_evidence : capacity_and_evidence_ok r.
Proof.
  unfold capacity_and_evidence_ok. rewrite made_entries_ids, made_evidence_ids.
  split_and!; [|apply made_ids_NoDup| |apply made_ids_NoDup]; apply Forall_forall.
  - intros e (p & Hp & He)%made_entry. destruct He as (-> & ? & ?).
    split; [by apply made_id_nonzero|lia].
  - intros e (p & Hp & He)%made_evidence_entry. destruct He as (-> & ?).
    split; [by apply made_id_nonzero|lia].
Qed.

Lemma made_policy_ok : policy_ok r.
Proof.
  unfold policy_ok. cbv zeta. rewrite made_policy, made_qos.
  destruct (bench_policy_rest (bool_decide (is_Some (rq_incumbent r))))
    as (_ & _ & -> & -> & -> & -> & -> & -> & _ & -> & -> & -> & _).
  destruct (bench_policy_objectives (bool_decide (is_Some (rq_incumbent r)))) as [Ho [l Hl]].
  split_and!; try done; try (by constructor).
  - assert (NoDup ((λ o, ObjectiveKind_ordinal (obj_kind o)) <$> bench_objectives)) as Hn
      by (by apply (bool_decide_unpack _)).
    rewrite Hl, fmap_app in Hn. by apply NoDup_app in Hn as [Hn _].
  - intros label Hin%elem_of_nil. done.
  - destruct (pol_objectives _); [done|]. autorewrite with size. lia.
  - cbn. lia.
Qed.

Lemma made_well_formed : well_formed r default_limits.
Proof.
  constructor; [apply made_enumerations|apply made_generations|apply made_bounds
    |apply made_candidates_ok|apply made_capacity_and_evidence|apply made_policy_ok].
Qed.

Lemma made_current : current r.
Proof.
  unfold current. rewrite made_expected, made_candidates, made_capacity, made_qos, made_policy.
  by destruct (bench_policy_rest (bool_decide (is_Some (rq_incumbent r)))) as (_ & -> & _).
Qed.

(** ** The generated request is placed *)

Lemma made_legal p : p ∈ set_paths (rq_candidates r) → legal_path r p.
Proof.
  intros Hp reason. destruct (made_path p Hp) as [i [_ Ha _ _ _ _ _]].
  assert (∃ e, e ∈ snap_entries (rq_capacity r) ∧ entry_made p e) as (e & He & Hpe).
  { destruct (list_elem_of_lookup_1 _ _ Hp) as [n Hn].
    destruct (Forall2_lookup_l _ _ _ _ _ (md_entries _ _ _ Hm) Hn) as (e & Hen & Hpe).
    exists e. split; [by eapply list_elem_of_lookup_2|done]. }
  unfold violates. cbv zeta. rewrite made_expected, made_policy, made_qos, made_occupied.
  destruct (bench_policy_rest (bool_decide (is_Some (rq_incumbent r))))
    as (_ & _ & -> & -> & -> & -> & -> & -> & _ & _ & _ & _ & ->).
  assert (∀ e', reports r p e' → cap_residual_bytes e' = cap_residual_bytes e) as Hsame.
  { intros e' [He' Hid]. destruct Hpe as [Hpid _]. f_equal.
    apply (NoDup_fmap_elem_inj cap_path (snap_entries (rq_capacity r)));
      [rewrite made_entries_ids; apply made_ids_NoDup|done|done|congruence]. }
  destruct Hpe as (Hpid & Hcap & Hres).
  assert (evidence_trusted r) as Htrust.
  { unfold evidence_trusted. by rewrite made_expected, made_bundle. }
  assert (required_headroom r ≤ 50000) as Hhead by (unfold required_headroom; by rewrite made_qos).
  destruct reason; cbn; intros Hv; try done;
    repeat match goal with
    | H : _ ∧ _ |- _ => destruct H
    | H : ∃ _, _ |- _ => destruct H
    | H : _ ∈ [] |- _ => by apply elem_of_nil in H
    | H : reports r p _ |- _ => apply Hsame in H
    end; try done; try lia.
  - by apply (Hv e).
  - match goal with H : _ ∨ _ |- _ => destruct H as [H|[_ H]] end.
    + by destruct Htrust.
    + rewrite made_evidence_ids in *. by apply list_elem_of_fmap_2 with (f := path_id) in Hp.
Qed.

Lemma made_legal_candidates : legal_candidates default_limits r ≠ [].
Proof.
  destruct (set_paths (rq_candidates r)) as [|p ps] eqn:E.
  - pose proof made_size as Hs. rewrite E in Hs. change (size []) with 0 in Hs. lia.
  - intros Hn. assert (p ∈ legal_candidates default_limits r) as Hp.
    { apply legal_candidates_elem; [apply made_well_formed|].
      assert (p ∈ set_paths (rq_candidates r)) by (rewrite E; by left). split; [done|by apply made_legal]. }
    rewrite Hn in Hp. by apply elem_of_nil in Hp.
Qed.

(** The engine places it. *)
Lemma made_placed : dec_outcome (Place default_limits r) ∈ [Outcome.kPlaced; Outcome.kPlacedDegraded].
Proof.
  pose proof made_well_formed as Hw. pose proof made_current as Hc. pose proof made_legal_candidates as Hl.
  pose proof made_policy as Hp.
  destruct (bench_policy_rest (bool_decide (is_Some (rq_incumbent r))))
    as (_ & _ & _ & _ & _ & _ & Hd & _ & Hadm & _ & Hmove & _). rewrite <-Hp in *.
  assert (diverse default_limits r) as Hdiv by (unfold diverse; rewrite Hd; cbn; lia).
  assert (¬ defers_move default_limits r) as Hmv.
  { unfold defers_move. rewrite Hmove. destruct (rq_incumbent r); [by intros [_ ?]|by intros []]. }
  assert (¬ under_gate default_limits r) as Hgate by (unfold under_gate; rewrite Hadm; cbn; lia).
  destruct (Place_cases default_limits r); try done.
  cbn [dec_outcome with_digest]. destruct (is_degraded _); set_solver.
Qed.
End Made.

(** ** Counting *)

(** The fields of a sample that are not times. *)
Definition untimed (s : BenchSample) : list N :=
  [bs_fanout s; bs_iterations s; bs_placed s; bs_placed_degraded s; bs_no_legal_path s;
   bs_insufficient_capacity s; bs_policy_rejected s; bs_deferred s; bs_stale_input s;
   bs_conflicting_input s; bs_decision_digest_accumulator s; bs_candidates_examined s].

(** [n] placements were counted, and nothing else. *)
Record placed_only (n : N) (s : BenchSample) : Prop := {
  po_placed : bs_placed s + bs_placed_degraded s = n;
  po_others : Forall (λ c, c = 0) [bs_no_legal_path s; bs_insufficient_capacity s;
    bs_policy_rejected s; bs_deferred s; bs_stale_input s; bs_conflicting_input s];
}.

(** Evaluates the comparisons of outcomes. *)
Ltac decide_outcomes :=
  repeat match goal with
  | |- context [bool_decide ?P] =>
      let b := eval vm_compute in (bool_decide P) in change (bool_decide P) with b
  end; cbv beta iota.

Lemma count_decision_placed n decision nanos s : n < 2 ^ 63 →
  dec_outcome decision ∈ [Outcome.kPlaced; Outcome.kPlacedDegraded] →
  placed_only n s → placed_only (n + 1) (count_decision decision nanos s).
Proof.
  intros Hn Ho [Hp Hs]. rewrite !Forall_cons in Hs. destruct_and!.
  assert (dec_outcome decision = Outcome.kPlaced ∨ dec_outcome decision = Outcome.kPlacedDegraded)
    as [E|E] by (by apply elem_of_cons in Ho as [?|?%list_elem_of_singleton]; auto);
    unfold count_decision, count_at; rewrite E;
    (constructor; cbn -[wrap bool_decide]; decide_outcomes;
      [rewrite wrap_small by (unfold uint_fits; lia); lia|by repeat constructor]).
Qed.

Lemma count_decision_untimed decision nanos nanos' s s' : untimed s = untimed s' →
  untimed (count_decision decision nanos s) = untimed (count_decision decision nanos' s').
Proof. unfold untimed. destruct s, s'. cbn. intros [= -> -> -> -> -> -> -> -> -> -> -> ->]. done. Qed.

Section Rounds.
Context (elapsed elapsed' : N → N → N) (point : BenchConfig) (warmup : N).
Context (Hlimits : bc_limits point = default_limits) (Hfanout : bc_fanout point ≤ 2 ^ 20).

Lemma run_rounds_placed n : ∀ start k sample durations state,
  N.of_nat (start + n) < 2 ^ 63 → k ≤ N.of_nat start → placed_only k sample →
  placed_only (k + (N.of_nat (start + n) - N.max warmup (N.of_nat start)))
    (fst (fst (run_rounds elapsed point warmup (N.of_nat <$> seq start n) sample durations state))).
Proof.
  induction n as [|n IH]; intros start k sample durations state Hb Hk Hs; cbn [seq fmap list_fmap run_rounds].
  - replace (k + _) with k by lia. done.
  - unfold mbind, Rng_bind. pose proof (MakeRequest_made point (N.of_nat start) state) as Hm.
    destruct (MakeRequest point (N.of_nat start) state) as [r state']. cbn [fst] in Hm. cbv zeta.
    assert (N.of_nat start < 2 ^ 63) as Hi by lia.
    pose proof (made_placed _ _ _ Hm Hfanout Hi) as Ho. rewrite <-Hlimits in Ho.
    rewrite <-Nat.add_succ_comm in *. destruct (N.ltb_spec (N.of_nat start) warmup).
    + specialize (IH (S start) k sample durations state' ltac:(lia) ltac:(lia) Hs).
      replace (k + _) with (k + (N.of_nat (S start + n) - N.max warmup (N.of_nat (S start)))) by lia.
      exact IH.
    + specialize (IH (S start) (k + 1)
        (count_decision (Place (bc_limits point) r) (elapsed (bc_fanout point) (N.of_nat start)) sample)
        (durations ++ [elapsed (bc_fanout point) (N.of_nat start)]) state' ltac:(lia) ltac:(lia)).
      replace (k + _) with (k + 1 + (N.of_nat (S start + n) - N.max warmup (N.of_nat (S start)))) by lia.
      apply IH. apply count_decision_placed; [lia|done|done].
Qed.

(** The clock only decides the times. *)
Lemma run_rounds_untimed rounds : ∀ sample sample' durations durations' state,
  untimed sample = untimed sample' →
  untimed (fst (fst (run_rounds elapsed point warmup rounds sample durations state))) =
  untimed (fst (fst (run_rounds elapsed' point warmup rounds sample' durations' state))).
Proof.
  induction rounds as [|i rounds IH]; intros sample sample' durations durations' state Hs; [done|].
  cbn [run_rounds]. unfold mbind, Rng_bind.
  destruct (MakeRequest point i state) as [r state']. cbv zeta. destruct (_ <? _); apply IH; [done|].
  by apply count_decision_untimed.
Qed.
End Rounds.

Lemma finish_untimed iterations durations durations' s s' : untimed s = untimed s' →
  untimed (finish_sample iterations durations s) = untimed (finish_sample iterations durations' s').
Proof.
  unfold untimed, finish_sample. destruct (Percentile durations kHalf) as [p50 d].
  destruct (Percentile durations' kHalf) as [p50' d']. destruct (Percentile d k99Percent), (Percentile d' k99Percent).
  destruct s, s'. cbn. by intros [= -> -> -> -> -> -> -> -> -> -> -> ->].
Qed.

Lemma finish_placed n iterations durations s : placed_only n s →
  placed_only n (finish_sample iterations durations s).
Proof.
  intros [Hp Ho]. unfold finish_sample. destruct (Percentile durations kHalf) as [p50 d].
  destruct (Percentile d k99Percent). by constructor.
Qed.

Lemma run_point_placed elapsed config fanout :
  bc_limits config = default_limits → fanout ≤ 2 ^ 20 → bc_iterations config < 2 ^ 62 →
  placed_only (bc_iterations config) (run_point elapsed config fanout).
Proof.
  intros Hl Hf Hi. unfold run_point. cbv zeta. unfold up_to.
  set (warmup := N.min _ _). assert (warmup ≤ bc_iterations config) by (unfold warmup; lia).
  rewrite wrap_small by (unfold uint_fits; lia). set (state := SyntheticRng_init _).
  set (sample := mkSample _ _ _ _ _ _ _ _ _ _ _ _ _ _ _ _ _).
  pose proof (run_rounds_placed elapsed (bc_with_fanout fanout config) warmup Hl Hf
    (N.to_nat (bc_iterations config + warmup)) 0 0 sample [] state ltac:(lia) ltac:(lia)) as Hr.
  destruct (run_rounds _ _ _ _ _ _ _) as [[s durations] state']. cbn [fst] in Hr.
  apply finish_placed. replace (bc_iterations config) with
    (0 + (N.of_nat (0 + N.to_nat (bc_iterations config + warmup)) - N.max warmup (N.of_nat 0))) by lia.
  apply Hr. by constructor; [|repeat constructor].
Qed.

Lemma run_point_untimed elapsed elapsed' config fanout :
  untimed (run_point elapsed config fanout) = untimed (run_point elapsed' config fanout).
Proof.
  unfold run_point. cbv zeta.
  pose proof (run_rounds_untimed elapsed elapsed' (bc_with_fanout fanout config)
    (N.min (bc_warmup config) (bc_iterations config))
    (up_to (wrap 64 (bc_iterations config + N.min (bc_warmup config) (bc_iterations config))))
    (mkSample fanout 0 0 0 0 0 0 0 0 0 0 0 0 0 0 0 (SpecFloat.S754_zero false))
    (mkSample fanout 0 0 0 0 0 0 0 0 0 0 0 0 0 0 0 (SpecFloat.S754_zero false)) [] []
    (SyntheticRng_init (N.lxor (bc_seed config) (wrap 64 (fanout * kGolden)))) eq_refl) as Hr.
  destruct (run_rounds elapsed _ _ _ _ _ _) as [[s d] st], (run_rounds elapsed' _ _ _ _ _ _) as [[s' d'] st'].
  by apply finish_untimed.
Qed.

(** ** The sweep *)

Lemma powers_below_bound target fuel : ∀ value l,
  powers_below fuel value target = Some l → Forall (λ v, v < target) l.
Proof.
  induction fuel as [|fuel IH]; intros value l; cbn [powers_below];
    destruct (N.ltb_spec value target); cbn [negb]; try done; try (intros [= <-]; constructor).
  destruct (powers_below fuel _ _) as [powers|] eqn:E; [|done]. intros [= <-].
  constructor; [done|by apply (IH _ _ E)].
Qed.

(** Up to 2^63 the powers of two pass the target. *)
Lemma powers_below_ends target n : ∀ k, (k + n ≤ 63)%nat → target ≤ 2 ^ N.of_nat (k + n) →
  ∃ l, (∀ fuel, (n ≤ fuel)%nat → powers_below fuel (2 ^ N.of_nat k) target = Some l) ∧
       Forall (λ v, 1 ≤ v) l.
Proof.
  induction n as [|n IH]; intros k Hk Ht.
  - exists []. split; [|constructor]. rewrite Nat.add_0_r in Ht. intros [|fuel] _; cbn [powers_below];
      by rewrite (proj2 (N.ltb_ge _ _)).
  - destruct (N.ltb_spec (2 ^ N.of_nat k) target) as [Hlt|Hge].
    + destruct (IH (S k)) as (l & Hl & H1); [lia|by rewrite Nat.add_succ_comm|].
      exists (2 ^ N.of_nat k :: l). split.
      * intros [|fuel] Hf; [lia|]. cbn [powers_below]. rewrite (proj2 (N.ltb_lt _ _)) by done. cbn [negb].
        assert (wrap 64 (2 ^ N.of_nat k * 2) = 2 ^ N.of_nat (S k)) as ->.
        { rewrite Nat2N.inj_succ, N.pow_succ_r', (N.mul_comm 2). apply wrap_small. unfold uint_fits.
          apply N.le_lt_trans with (2 ^ 62 * 2); [|done]. apply N.mul_le_mono_r, N.pow_le_mono_r; lia. }
        rewrite Hl by lia. done.
      * constructor; [|done]. pose proof (N.pow_nonzero 2 (N.of_nat k)). lia.
    + exists []. split; [|constructor]. intros [|fuel] _; cbn [powers_below];
        by rewrite (proj2 (N.ltb_ge _ _)).
Qed.

(** Above, the value wraps to 0 and the loop never ends. *)
Lemma powers_below_loops target fuel : 2 ^ 63 < target → ∀ value,
  value = 0 ∨ (∃ k, k ≤ 63 ∧ value = 2 ^ k) → powers_below fuel value target = None.
Proof.
  intros Ht. induction fuel as [|fuel IH]; intros value Hv; cbn [powers_below];
    (assert (value ≤ 2 ^ 63) by (destruct Hv as [->|(k & Hk & ->)]; [lia|by apply N.pow_le_mono_r]));
    rewrite (proj2 (N.ltb_lt _ _)) by lia; cbn [negb]; [done|].
  rewrite IH; [done|]. destruct Hv as [->|(k & Hk & ->)]; [by left|].
  destruct (N.eq_dec k 63) as [->|Hne]; [by left|]. right. exists (k + 1). split; [lia|].
  rewrite N.pow_add_r. apply wrap_small. unfold uint_fits. change (2 ^ 1) with 2.
  apply N.le_lt_trans with (2 ^ 62 * 2); [|done]. apply N.mul_le_mono_r, N.pow_le_mono_r; lia.
Qed.

(** The points of a sweep do not exceed the configured fan-out. *)
Lemma sweep_bound fuel config fanouts : sweep fuel config = Some fanouts →
  Forall (λ f, f ≤ N.max 1 (bc_fanout config)) fanouts.
Proof.
  unfold sweep. cbv zeta. destruct (powers_below _ _ _) as [powers|] eqn:E; [|done].
  cbn [mbind option_bind]. intros [= <-]. apply powers_below_bound in E.
  assert (Forall (λ f, f ≤ N.max 1 (bc_fanout config)) (powers ++ [N.max 1 (bc_fanout config)])) as Ha.
  { apply Forall_app. split; [|by constructor]. eapply Forall_impl; [exact E|]. cbn. lia. }
  destruct (_ <? _); [|done]. constructor; [|by apply Forall_drop].
  destruct (_ =? _); [lia|]. apply N.Div0.div_le_upper_bound. lia.
Qed.

Lemma run_rounds_fanout elapsed point warmup rounds : ∀ sample durations state,
  bs_fanout (fst (fst (run_rounds elapsed point warmup rounds sample durations state))) =
  bs_fanout sample.
Proof.
  induction rounds as [|i rounds IH]; intros sample durations state; [done|].
  cbn [run_rounds]. unfold mbind, Rng_bind. destruct (MakeRequest point i state) as [request state'].
  destruct (i <? warmup); by rewrite IH.
Qed.

Lemma run_point_fanout elapsed config fanout : bs_fanout (run_point elapsed config fanout) = fanout.
Proof.
  unfold run_point. cbv zeta.
  match goal with |- context [run_rounds ?e ?p ?w ?r ?s [] ?rng] =>
    pose proof (run_rounds_fanout e p w r s [] rng) as Hr;
    destruct (run_rounds e p w r s [] rng) as [[sample durations] state]
  end.
  unfold finish_sample. destruct (Percentile durations kHalf) as [p50 d1], (Percentile d1 k99Percent).
  exact Hr.
Qed.
