(* ===== verification/EngineProps.v ===== *)
(** * What the placement engine promises

    The properties of [PlacementEngine] as theorems about [Place],
    [VerifyIntent] and [Evaluate], read off the complete list of results in
    [PlaceCases].  Each one that has hypotheses is followed by a witness: its
    instance at a concrete request of [Fixture]. *)

From Stdlib Require Import String.
From S2P Require Import Prelude StdAlgo Checked Status Hash Model ModelDigest Validate Explain.
From S2P Require Import Evaluate Rank Exclusions Place ScanFacts PlaceCases OrderFacts.
From S2P Require Import DegradeFacts Fixture.

(** ** Shared facts *)

(** Deciding validity of a concrete request by running the validator. *)
Lemma well_formed_run r limits :
  status_ok (ValidateRequest r limits) = true → well_formed r limits.
Proof. apply ValidateRequest_ok. Qed.

(** The authority every binding of an intent must quote. *)
Record bound_to (r : PlacementRequest) (p : CandidatePath) (i : PlacementIntent) : Prop := {
  bt_flow : int_flow i = rq_flow r ∧ int_flow_generation i = rq_flow_generation r;
  bt_path : int_path i = path_id p ∧ int_path_authority i = path_authority p;
  bt_set : int_candidate_set i = set_id (rq_candidates r) ∧
           int_candidate_set_generation i = exp_candidate_set (rq_expected r);
  bt_capacity : int_capacity i = snap_id (rq_capacity r) ∧
                int_capacity_generation i = exp_capacity (rq_expected r);
  bt_policy : int_policy i = pol_id (rq_policy r) ∧
              int_policy_generation i = exp_policy (rq_expected r);
  bt_qos : int_qos i = qos_id (rq_qos r) ∧ int_qos_generation i = exp_qos (rq_expected r);
  bt_epoch : int_fabric_epoch i = exp_fabric_epoch (rq_expected r);
  bt_evidence : int_evidence_generation i ≠ 0 →
                int_evidence i = bundle_id (rq_evidence r) ∧
                int_evidence_generation i = exp_evidence (rq_expected r);
  bt_reservation : ReservationRef_valid (int_reservation i) = true →
                   int_reservation i ∈ attr_reservations (path_attributes p);
  bt_digest : int_digest i = IntentDigest i;
}.

Lemma build_intent_bound r limits p :
  current r → bound_to r p (build_intent (Prepare r limits) p).
Proof.
  intros (Hset & Hcap & Hpol & Hqos).
  split; cbn [build_intent intent_with_digest int_flow int_flow_generation int_path
    int_path_authority int_candidate_set int_candidate_set_generation int_capacity
    int_capacity_generation int_policy int_policy_generation int_qos int_qos_generation
    int_evidence int_evidence_generation int_fabric_epoch int_reservation
    pr_request Prepare]; try done.
  - change (Prepare r limits).(pr_evidence_trusted) with (pr_evidence_trusted (Prepare r limits)).
    destruct (pr_evidence_trusted (Prepare r limits)) eqn:E; [|done].
    apply evidence_trusted_spec in E as [Hv He]. intros _.
    cbn [Prepare pr_evidence_trusted]. by rewrite He.
  - apply choose_reservation_carried.
Qed.

Lemma legal_candidates_nil r limits :
  well_formed r limits →
  legal_candidates limits r = [] ↔ ¬ ∃ p, p ∈ set_paths (rq_candidates r) ∧ legal_path r p.
Proof.
  intros Hwf. setoid_rewrite <-(legal_candidates_elem limits r); [|done].
  destruct (legal_candidates limits r) as [|p l].
  - split; [|done]. intros _ (p & Hp). by apply elem_of_nil in Hp.
  - split; [done|]. intros []. exists p. left.
Qed.

Lemma legal_candidates_exists r limits :
  well_formed r limits → legal_candidates limits r ≠ [] →
  ∃ p, p ∈ set_paths (rq_candidates r) ∧ legal_path r p.
Proof.
  intros Hwf Hl. destruct (legal_candidates limits r) as [|p l] eqn:E; [done|].
  exists p. apply (legal_candidates_elem limits r p Hwf). rewrite E. left.
Qed.

(** Some legal candidates together span the failure domains the policy asks for. *)
Definition spans_required (r : PlacementRequest) : Prop :=
  ∃ l, (∀ p, p ∈ l → p ∈ set_paths (rq_candidates r) ∧ legal_path r p) ∧
    min_distinct_domains (pol_failure_domains (rq_policy r)) ≤
      N.of_nat (base.size (spanned_domains l)).

Lemma spans_required_diverse r limits :
  well_formed r limits → spans_required r ↔ diverse limits r.
Proof.
  intros Hwf. split.
  - intros (l & Hl & Hmin). unfold diverse.
    assert (base.size (spanned_domains l) ≤
            base.size (spanned_domains (legal_candidates limits r)))%nat; [|lia].
    apply subseteq_size. unfold spanned_domains. intros d.
    rewrite !elem_of_difference, !elem_of_list_to_set, !list_elem_of_fmap.
    intros [(p & -> & Hp) Hd]. split; [|done]. exists p. split; [done|].
    by apply legal_candidates_elem; [|apply Hl].
  - intros Hd. exists (legal_candidates limits r). split; [|done].
    intros p Hp. by apply legal_candidates_elem in Hp.
Qed.

(** ** The decision is always one the engine meant *)

(** Self-verification never fails.  Whatever request the engine
    is given, it never reports an internal invariant violation: the intent it
    builds always passes its own [VerifyIntent]. *)
Theorem Place_self_verified limits r :
  dec_code (Place limits r) ≠ StatusCode.kInternalInvariantViolation.
Proof.
  place_cases limits r.
  - subst validation. cbn. pose proof (ValidateRequest_code r limits) as Hc.
    intros He. by rewrite He in Hc.
  - apply first_stale_Some in Hs as [_ Hs]. cbn. intros ->.
    by rewrite !elem_of_cons, elem_of_nil in Hs; destruct Hs as [|[|[|[|]]]].
  - unfold place_empty. destruct (classify_empty _ _ _) as [[outcome code] note] eqn:E. cbn.
    unfold classify_empty in E. repeat case_match; by simplify_eq.
  - done.
  - done.
  - done.
  - done.
Qed.

(** C1: a placement is authorised.  An intent is only produced for a
    well-formed request whose four generations are the expected ones, for a
    path that is in the supplied candidate set and that no hard constraint
    excludes, and it is bound to exactly the generations of the request. *)
Theorem Place_sound limits r intent :
  dec_intent (Place limits r) = Some intent →
  well_formed r limits ∧ current r ∧ dec_code (Place limits r) = StatusCode.kOk ∧
  ∃ p, p ∈ set_paths (rq_candidates r) ∧ legal_path r p ∧ bound_to r p intent.
Proof.
  place_cases limits r; try done.
  - by rewrite place_empty_intent.
  - intros [= <-]. split_and!; [done..|]. apply legal_candidates_elem in Hp as [Hin Hlegal]; [|done].
    exists p. split_and!; [done..|by apply build_intent_bound].
Qed.

Lemma Place_sound_witness :
  ∃ intent, dec_intent (Place default_limits (Baseline 3 5000)) = Some intent ∧
  (well_formed (Baseline 3 5000) default_limits ∧ current (Baseline 3 5000) ∧
   dec_code (Place default_limits (Baseline 3 5000)) = StatusCode.kOk ∧
   ∃ p, p ∈ set_paths (rq_candidates (Baseline 3 5000)) ∧ legal_path (Baseline 3 5000) p ∧
        bound_to (Baseline 3 5000) p intent).
Proof.
  eexists. split; [vm_compute; reflexivity|]. apply Place_sound. vm_compute. reflexivity.
Defined.

(** C2: the engine neither misses nor invents a placement.  It places or
    defers the flow exactly when the request is well formed and current, some
    supplied path is legal, and the legal paths span the required failure
    domains. *)
Theorem Place_complete limits r :
  placed (Place limits r) = true ∨ dec_outcome (Place limits r) = Outcome.kDeferred ↔
  well_formed r limits ∧ current r ∧
  (∃ p, p ∈ set_paths (rq_candidates r) ∧ legal_path r p) ∧ spans_required r.
Proof.
  place_cases limits r.
  - subst validation. unfold placed. cbn.
    destruct (OutcomeForValidationCode_cases (status_code (ValidateRequest r limits))) as [-> | ->];
      split; [by intros [|]|tauto|by intros [|]|tauto].
  - split; [by intros [|]|tauto].
  - apply (legal_candidates_nil r limits Hwf) in Hl. unfold placed.
    match goal with |- context [place_empty ?a ?b ?c ?d] =>
      pose proof (place_empty_outcome a b c d) as Ho end.
    rewrite !elem_of_cons, elem_of_nil in Ho.
    destruct Ho as [-> |[-> |[-> |[-> |[]]]]]; split; (by intros [|]) || tauto.
  - rewrite (spans_required_diverse r limits Hwf). split; [by intros [|]|tauto].
  - rewrite (spans_required_diverse r limits Hwf). split; [intros _|by right].
    split_and!; try done. by apply (legal_candidates_exists r limits).
  - rewrite (spans_required_diverse r limits Hwf). split; [intros _|by right].
    split_and!; try done. by apply (legal_candidates_exists r limits).
  - rewrite (spans_required_diverse r limits Hwf). split; [intros _|intros _; left].
    + split_and!; try done. exists p. by apply legal_candidates_elem in Hp.
    + unfold placed. cbn. by destruct (is_degraded e).
Qed.

(** ** The choice *)

(** [p] is best: no legal candidate ranks before it. *)
Definition best_candidate (limits : Limits) (r : PlacementRequest) (p : CandidatePath) : Prop :=
  p ∈ legal_candidates limits r ∧
  ∀ q, q ∈ legal_candidates limits r →
    RankLess (entry_of (Prepare r limits) q) (entry_of (Prepare r limits) p) = false.

(** How much the policy's threshold objective improves from [current] to [best]. *)
Definition gain (limits : Limits) (r : PlacementRequest) (best current : CandidatePath) : N :=
  let key p := key_at (entry_of (Prepare r limits) p)
                 (threshold_objective_index (pol_churn (rq_policy r))) in
  improvement (key best) (key current).

(** The incumbent sits on [p] and the policy keeps it unless a move gains more
    than the threshold. *)
Definition kept_incumbent (limits : Limits) (r : PlacementRequest) (best p : CandidatePath)
    : Prop :=
  ∃ incumbent, rq_incumbent r = Some incumbent ∧ eligible_incumbent r incumbent ∧
    inc_path incumbent = path_id p ∧ prefer_incumbent (pol_churn (rq_policy r)) = true ∧
    gain limits r best p ≤ move_improvement_threshold (pol_churn (rq_policy r)).

Lemma best_candidate_unique limits r p q :
  well_formed r limits → best_candidate limits r p → best_candidate limits r q → p = q.
Proof.
  intros Hwf [Hp Hpb] [Hq Hqb]. apply (same_path limits r); [done..|].
  apply (RankLess_tie (Prepare r limits)); [by apply Hqb|by apply Hpb].
Qed.

Lemma chosen_best_or_kept limits r p :
  well_formed r limits → p ∈ legal_candidates limits r →
  chosen limits r = entry_of (Prepare r limits) p →
  ∃ best, best_candidate limits r best ∧ (p = best ∨ kept_incumbent limits r best p).
Proof.
  intros Hwf Hp Hc. assert (legal_candidates limits r ≠ []) as Hl.
  { intros Hn. rewrite Hn in Hp. by apply elem_of_nil in Hp. }
  destruct (ranking_head limits r Hl) as (best & Hb & Hhead & Hmin).
  exists best. split; [by split|].
  destruct (choose_index_retains (Prepare r limits) (ranking limits r)
    (explain_ranking limits (ranking limits r) (scanned_explanation limits r)))
    as [[Hi _]|(incumbent & Hinc & Helig & Hpref & Hi & _ & Hlt & Hgain)].
  - left. fold (chosen_index limits r) in Hi. unfold chosen in Hc. rewrite Hi, Hhead in Hc.
    apply (f_equal rk_path) in Hc. by rewrite !entry_of_path in Hc.
  - right. fold (chosen_index limits r) in *. unfold chosen in Hc. exists incumbent.
    split_and!; [done|by apply (incumbent_is_eligible_spec r limits)| |done|].
    + rewrite Hi in Hlt. pose proof (index_of_path_entry _ _ Hlt) as He.
      rewrite <-Hi, Hc in He. by rewrite entry_of_path in He.
    + unfold gain. by rewrite Hhead, Hc in Hgain.
Qed.

(** C19: the placed path is the best one.  No legal candidate ranks before
    the placed path, unless the incumbent sits on the placed path, is eligible,
    is preferred by the policy, and the best candidate does not improve on it
    by more than the move threshold. *)
Theorem Place_optimal limits r intent :
  dec_intent (Place limits r) = Some intent →
  ∃ p best, int_path intent = path_id p ∧ p ∈ legal_candidates limits r ∧
    best_candidate limits r best ∧ (p = best ∨ kept_incumbent limits r best p).
Proof.
  place_cases limits r; try done; [by rewrite place_empty_intent|].
  intros [= <-]. destruct (chosen_best_or_kept limits r p) as (best & Hb & Hk); [done..|].
  by exists p, best.
Qed.

Lemma Place_optimal_witness :
  ∃ intent, dec_intent (Place default_limits (Baseline 3 5000)) = Some intent ∧
  ∃ p best, int_path intent = path_id p ∧
    p ∈ legal_candidates default_limits (Baseline 3 5000) ∧
    best_candidate default_limits (Baseline 3 5000) best ∧
    (p = best ∨ kept_incumbent default_limits (Baseline 3 5000) best p).
Proof. eexists. split; [vm_compute; reflexivity|]. apply Place_optimal. vm_compute. reflexivity. Defined.

(** Churn is avoided exactly as the policy says.  When the
    policy prefers an eligible, legal incumbent and the best candidate gains no
    more than the threshold, a placement stays on the incumbent's path; when it
    gains more, the placement is on the best path. *)
Theorem Place_churn limits r intent incumbent q best :
  dec_intent (Place limits r) = Some intent →
  rq_incumbent r = Some incumbent → eligible_incumbent r incumbent →
  prefer_incumbent (pol_churn (rq_policy r)) = true →
  q ∈ legal_candidates limits r → path_id q = inc_path incumbent →
  best_candidate limits r best →
  int_path intent =
    if gain limits r best q <=? move_improvement_threshold (pol_churn (rq_policy r))
    then inc_path incumbent else path_id best.
Proof.
  place_cases limits r; try done; [by rewrite place_empty_intent|].
  intros [= <-] Hinc Helig Hpref Hq Hpath Hbest.
  change (int_path (build_intent (Prepare r limits) p)) with (path_id p).
  assert (legal_candidates limits r ≠ []) as Hl.
  { intros Hn. rewrite Hn in Hp. by apply elem_of_nil in Hp. }
  destruct (ranking_head limits r Hl) as (b & Hb & Hhead & Hmin).
  assert (b = best) as -> by by apply (best_candidate_unique limits r).
  destruct (incumbent_entry limits r (inc_path incumbent) q Hwf Hq Hpath) as [Hlt He].
  apply (incumbent_is_eligible_spec r limits) in Helig; [|done..].
  destruct (choose_index_retains (Prepare r limits) (ranking limits r)
    (explain_ranking limits (ranking limits r) (scanned_explanation limits r)))
    as [[Hi Hno]|(incumbent' & Hinc' & _ & _ & Hi & _ & _ & Hgain)];
    fold (chosen_index limits r) in *; unfold chosen in Hc; rewrite Hi in Hc.
  - rewrite Hhead in Hc. apply (f_equal rk_path) in Hc. rewrite !entry_of_path in Hc. subst p.
    destruct (N.leb_spec (gain limits r best q) (move_improvement_threshold (pol_churn (rq_policy r))));
      [|done].
    destruct (N.eq_dec (path_id best) (inc_path incumbent)) as [|Hne]; [done|].
    destruct (Hno (index_of_path (inc_path incumbent) (ranking limits r))).
    exists incumbent. split_and!; try done.
    + intros H0. rewrite H0, Hhead in He. apply (f_equal rk_path) in He.
      rewrite !entry_of_path in He. congruence.
    + by rewrite Hhead, He.
  - change (rq_incumbent (pr_request (Prepare r limits))) with (rq_incumbent r) in Hinc'.
    rewrite Hinc in Hinc'. injection Hinc' as <-. rewrite He in Hc.
    apply (f_equal rk_path) in Hc. rewrite !entry_of_path in Hc. subst p.
    rewrite Hi, Hhead, He in Hgain. apply N.leb_le in Hgain. unfold gain.
    change (pr_request (Prepare r limits)) with r in Hgain. by rewrite Hgain.
Qed.

(** Finding the best candidate of a concrete request by running the ranking. *)
Lemma best_candidate_run limits r p :
  bool_decide (p ∈ legal_candidates limits r) &&
  forallb (λ q, negb (RankLess (entry_of (Prepare r limits) q) (entry_of (Prepare r limits) p)))
    (legal_candidates limits r) = true →
  best_candidate limits r p.
Proof.
  intros [Hp Hall]%andb_true_iff. split; [by apply bool_decide_eq_true in Hp|].
  intros q Hq. rewrite forallb_forall in Hall.
  by apply negb_true_iff, Hall, list_elem_of_In.
Qed.

(** The incumbent is on path 2, which costs 10 more than path 1; moving takes an
    improvement of more than 20. *)
Definition sticky : PlacementRequest :=
  with_incumbent (Some (incumbent_on 2))
    (with_policy (with_churn (mkChurn ChurnAction.kAllowMove true 20 0) fixture_policy)
       (Baseline 3 5000)).

Lemma Place_churn_witness :
  ∃ intent, dec_intent (Place default_limits sticky) = Some intent ∧
  int_path intent =
    if gain default_limits sticky (fixture_path 0) (fixture_path 1) <=? 20
    then 2 else path_id (fixture_path 0).
Proof.
  eexists. split; [vm_compute; reflexivity|].
  apply (Place_churn default_limits sticky _ (incumbent_on 2) (fixture_path 1) (fixture_path 0)).
  - vm_compute. reflexivity.
  - reflexivity.
  - by repeat split; try (vm_compute; reflexivity); apply (bool_decide_unpack _); vm_compute.
  - reflexivity.
  - apply (bool_decide_unpack _). vm_compute. exact I.
  - reflexivity.
  - apply best_candidate_run. vm_compute. reflexivity.
Defined.

(** ** Deferral, degradation and the incumbent relation *)

(** A flow is deferred for exactly two reasons.  Both need a
    well-formed, current request with a legal, sufficiently diverse candidate
    set: either the policy defers the move away from the incumbent, or the
    chosen path is under an admission gate that defers. *)
Theorem Place_deferred limits r :
  dec_outcome (Place limits r) = Outcome.kDeferred ↔
  (well_formed r limits ∧ current r ∧ legal_candidates limits r ≠ [] ∧ diverse limits r) ∧
  (defers_move limits r ∧ dec_code (Place limits r) = StatusCode.kPolicyMoveSuppressed ∨
   ¬ defers_move limits r ∧ under_gate limits r ∧
   on_below (pol_admission (rq_policy r)) = GateAction.kDefer ∧
   dec_code (Place limits r) = StatusCode.kPolicyHeadroomGate).
Proof.
  place_cases limits r.
  - subst validation. cbn.
    destruct (OutcomeForValidationCode_cases (status_code (ValidateRequest r limits))) as [-> | ->];
      (split; [done|tauto]).
  - split; [done|tauto].
  - match goal with |- context [place_empty ?a ?b ?c ?d] =>
      pose proof (place_empty_outcome a b c d) as Ho end.
    rewrite !elem_of_cons, elem_of_nil in Ho.
    destruct Ho as [-> |[-> |[-> |[-> |[]]]]]; (split; [done|tauto]).
  - split; [done|tauto].
  - split; [|done]. intros _. split; [done|by left].
  - split; [|done]. intros _. split; [done|by right].
  - split; [cbn; by destruct (is_degraded e)|]. intros [_ [[Hdm _]|(_ & Hu & Hdefer & _)]]; [done|].
    by destruct (Hg Hu).
Qed.

(** PLACED_DEGRADED means that something was given up.  A placement
    is degraded exactly when the chosen path is below the admission gate or the
    service-class headroom, lacks a reservation its class requires, misses the
    preferred locality or every affinity reservation, or was ranked on UNKNOWN
    congestion evidence; otherwise it is PLACED. *)
Theorem Place_degraded limits r intent :
  dec_intent (Place limits r) = Some intent →
  ∃ p, p ∈ set_paths (rq_candidates r) ∧ int_path intent = path_id p ∧
    (dec_outcome (Place limits r) = Outcome.kPlacedDegraded ↔ degraded_by r p) ∧
    (dec_outcome (Place limits r) = Outcome.kPlaced ↔ ¬ degraded_by r p).
Proof.
  place_cases limits r; try done; [by rewrite place_empty_intent|].
  intros [= <-]. exists p. split; [by apply legal_candidates_elem in Hp as [? _]|].
  split; [done|]. rewrite <-(is_degraded_placed limits r p) by done. cbn.
  fold e. by destruct (is_degraded e).
Qed.

Lemma Place_degraded_witness :
  let r := with_policy (with_admission (mkAdmission 6000 GateAction.kPlace) fixture_policy)
             (Baseline 3 5000) in
  ∃ intent, dec_intent (Place default_limits r) = Some intent ∧
  ∃ p, p ∈ set_paths (rq_candidates r) ∧ int_path intent = path_id p ∧
    (dec_outcome (Place default_limits r) = Outcome.kPlacedDegraded ↔ degraded_by r p) ∧
    (dec_outcome (Place default_limits r) = Outcome.kPlaced ↔ ¬ degraded_by r p).
Proof.
  cbv zeta. eexists. split; [vm_compute; reflexivity|]. apply Place_degraded.
  vm_compute. reflexivity.
Defined.

(** The incumbent relation of a placement is the true one.  KEPT means
    the incumbent is eligible and the flow stays on its path, MOVED that it is
    eligible and the flow leaves it, REPLACED_STALE that it is not eligible,
    and NO_INCUMBENT that there was none. *)
Theorem Place_delta limits r intent :
  dec_intent (Place limits r) = Some intent →
  match dec_delta (Place limits r) with
  | IncumbentDelta.kNoIncumbent => rq_incumbent r = None
  | IncumbentDelta.kKept =>
      ∃ i, rq_incumbent r = Some i ∧ eligible_incumbent r i ∧ int_path intent = inc_path i
  | IncumbentDelta.kMoved =>
      ∃ i, rq_incumbent r = Some i ∧ eligible_incumbent r i ∧ int_path intent ≠ inc_path i
  | IncumbentDelta.kReplacedStale =>
      ∃ i, rq_incumbent r = Some i ∧ ¬ eligible_incumbent r i
  end.
Proof.
  place_cases limits r; try done; [by rewrite place_empty_intent|].
  intros [= <-]. cbn [with_digest dec_delta]. unfold final_delta. rewrite Hc, entry_of_path.
  change (int_path (build_intent (Prepare r limits) p)) with (path_id p).
  change (rq_incumbent (pr_request (Prepare r limits))) with (rq_incumbent r).
  destruct (rq_incumbent r) as [i|] eqn:Ei; [|done].
  pose proof (incumbent_is_eligible_spec r limits i Hwf Ei) as Helig.
  destruct (pr_incumbent_eligible (Prepare r limits)).
  - destruct (N.eqb_spec (path_id p) (inc_path i)); exists i; split_and!; try done; by apply Helig.
  - assert (¬ eligible_incumbent r i) by by rewrite <-Helig.
    destruct (path_id p =? inc_path i); by exists i.
Qed.

Lemma Place_delta_witness :
  ∃ intent, dec_intent (Place default_limits sticky) = Some intent ∧
  match dec_delta (Place default_limits sticky) with
  | IncumbentDelta.kNoIncumbent => rq_incumbent sticky = None
  | IncumbentDelta.kKept =>
      ∃ i, rq_incumbent sticky = Some i ∧ eligible_incumbent sticky i ∧ int_path intent = inc_path i
  | IncumbentDelta.kMoved =>
      ∃ i, rq_incumbent sticky = Some i ∧ eligible_incumbent sticky i ∧ int_path intent ≠ inc_path i
  | IncumbentDelta.kReplacedStale =>
      ∃ i, rq_incumbent sticky = Some i ∧ ¬ eligible_incumbent sticky i
  end.
Proof.
  eexists. split; [vm_compute; reflexivity|]. apply Place_delta. vm_compute. reflexivity.
Defined.

(** ** The explanation *)

Lemma record_all_bounded max_reasons k l :
  recorder_bounded (record_all max_reasons k l) ∧
  er_max_reasons (record_all max_reasons k l) = max_reasons ∧
  er_max_samples (record_all max_reasons k l) = k.
Proof.
  unfold record_all. apply (fold_left_inv (λ rec, recorder_bounded rec ∧
    er_max_reasons rec = max_reasons ∧ er_max_samples rec = k)).
  - intros rec x _ (Hb & Hr & Hs). unfold add_excluded.
    destruct (Add_limits (xc_reason x) (xc_verdict x) (xc_path x) rec) as [-> ->].
    split_and!; [by apply Add_bounded|done|done].
  - split_and!; [|done|done]. split; [apply N.le_0_l|apply map_Forall_empty].
Qed.

Lemma note_if_bounded limits test note e :
  bounded limits e → bounded limits (note_if test note e).
Proof. destruct test; [apply AddNote_bounded|done]. Qed.

Lemma degrade_if_bounded limits test flag e :
  bounded limits e → bounded limits (degrade_if test flag e).
Proof. destruct test; [apply AddDegradation_bounded|done]. Qed.

Create HintDb bounded.
#[local] Hint Resolve AddNote_bounded AddBinding_bounded AddDegradation_bounded
  note_if_bounded degrade_if_bounded : bounded.

Lemma no_lists_bounded limits b n1 n2 n3 n4 n5 :
  bounded limits (mkExplanation b n1 n2 n3 n4 n5 [] [] [] [] []).
Proof.
  split; cbn [ex_notes ex_binding ex_ranked ex_exclusions ex_degradations];
    try apply N.le_0_l; constructor.
Qed.

Lemma scanned_explanation_bounded limits r : bounded limits (scanned_explanation limits r).
Proof.
  unfold scanned_explanation, scan_explanation. apply note_if_bounded, note_if_bounded.
  unfold scanned. rewrite scan_candidates_spec. cbn [sc_exclusions sc_legal sc_unknown sc_domains].
  destruct (record_all_bounded (max_exclusion_reasons limits) (max_exclusion_samples limits)
    (excluded_of (Prepare r limits) (set_paths (rq_candidates r)))) as (Hb & Hr & Hs).
  apply Summaries_bounded in Hb as [Hsize Hsamples]. rewrite Hr in Hsize. rewrite Hs in Hsamples.
  split; cbn [ex_notes ex_binding ex_ranked ex_exclusions ex_degradations];
    try apply N.le_0_l; try done. constructor.
Qed.

Lemma explain_ranking_bounded limits legal e :
  bounded limits e → bounded limits (explain_ranking limits legal e).
Proof.
  intros []. unfold explain_ranking. cbv zeta.
  assert (size (imap ranked_candidate (take (N.to_nat (N.min (size legal)
    (max_ranked_explained limits))) legal)) ≤ max_ranked_explained limits) as Hr.
  { unfold size. rewrite length_imap, length_take. lia. }
  destruct (_ <? _)%nat; by split.
Qed.

Lemma chosen_index_bounded limits r : bounded limits (chosen_index limits r).2.
Proof.
  pose proof (explain_ranking_bounded limits (ranking limits r) _ (scanned_explanation_bounded limits r)).
  unfold chosen_index, choose_index. repeat case_match; cbn [snd]; auto with bounded.
Qed.

Lemma last_binding_bounded limits r : bounded limits (last_binding limits r (placed_explanation limits r)).
Proof.
  pose proof (chosen_index_bounded limits r).
  unfold last_binding, placed_explanation, delta_degradation, add_degradations, gate_degradation,
    relaxation_degradation, gate_binding.
  repeat case_match; auto 10 with bounded.
Qed.

(** C24: explanations are bounded.  Whatever the request, the explanation
    carries at most 16 notes, 8 binding constraints and 9 degradation flags, and
    no more ranked candidates, exclusion reasons and sampled paths per reason
    than the limits allow. *)
Theorem Place_explanation_bounded limits r :
  let e := dec_explanation (Place limits r) in
  size (ex_notes e) ≤ 16 ∧ size (ex_binding e) ≤ 8 ∧ size (ex_degradations e) ≤ 9 ∧
  size (ex_ranked e) ≤ max_ranked_explained limits ∧
  size (ex_exclusions e) ≤ max_exclusion_reasons limits ∧
  Forall (λ s, size (sum_sample s) ≤ max_exclusion_samples limits) (ex_exclusions e).
Proof.
  cbv zeta. assert (bounded limits (dec_explanation (Place limits r))) as [].
  { place_cases limits r; cbn [with_digest dec_explanation].
    - apply AddNote_bounded, no_lists_bounded.
    - apply AddNote_bounded, no_lists_bounded.
    - unfold place_empty. destruct (classify_empty _ _ _) as [[outcome code] note].
      pose proof (scanned_explanation_bounded limits r). cbn [with_digest conclude dec_explanation].
      case_match; auto with bounded.
    - pose proof (scanned_explanation_bounded limits r). unfold place_undiverse.
      cbn [with_digest conclude dec_explanation]. auto with bounded.
    - pose proof (chosen_index_bounded limits r). unfold place_move_deferred.
      cbn [with_digest conclude dec_explanation]. auto with bounded.
    - pose proof (chosen_index_bounded limits r). unfold place_gate_deferred, gate_binding.
      cbn [with_digest conclude dec_explanation]. auto with bounded.
    - apply last_binding_bounded. }
  split_and!; [done|done|by apply flags_length|done..].
Qed.

(** The counts and exclusions of the scan survive to the decision. *)
Record same_counts (e f : Explanation) : Prop := {
  sc_exclusions_eq : ex_exclusions e = ex_exclusions f;
  sc_candidates_eq : ex_candidate_count e = ex_candidate_count f;
  sc_legal_eq : ex_legal_candidate_count e = ex_legal_candidate_count f;
  sc_excluded_eq : ex_excluded_candidate_count e = ex_excluded_candidate_count f;
}.

#[local] Instance same_counts_preorder : PreOrder same_counts.
Proof. split; [by intros e|]. intros e f g [] []. split; congruence. Qed.

Lemma AddNote_counts note e : same_counts (AddNote note e) e.
Proof. unfold AddNote. by case_match. Qed.
Lemma AddBinding_counts k p a b l e : same_counts (AddBinding k p a b l e) e.
Proof. unfold AddBinding. by case_match. Qed.
Lemma AddDegradation_counts flag e : same_counts (AddDegradation flag e) e.
Proof. unfold AddDegradation. by case_match. Qed.
Lemma degrade_if_counts test flag e : same_counts (degrade_if test flag e) e.
Proof. destruct test; [apply AddDegradation_counts|done]. Qed.

Lemma chosen_index_counts limits r :
  same_counts (chosen_index limits r).2 (scanned_explanation limits r).
Proof.
  assert (same_counts (explain_ranking limits (ranking limits r) (scanned_explanation limits r))
            (scanned_explanation limits r)) as H.
  { unfold explain_ranking. cbv zeta. by destruct (_ <? _)%nat. }
  unfold chosen_index, choose_index.
  repeat case_match; cbn [snd]; try done;
    rewrite ?AddNote_counts, ?AddDegradation_counts; done.
Qed.

Lemma last_binding_counts limits r :
  same_counts (last_binding limits r (placed_explanation limits r)) (scanned_explanation limits r).
Proof.
  unfold last_binding. rewrite AddBinding_counts.
  unfold placed_explanation, delta_degradation, add_degradations. cbv zeta.
  rewrite !degrade_if_counts. unfold relaxation_degradation, gate_degradation, gate_binding.
  pose proof (chosen_index_counts limits r).
  repeat case_match; rewrite ?AddBinding_counts, ?AddDegradation_counts,
    ?AddBinding_counts, ?AddDegradation_counts; done.
Qed.

Lemma Place_counts limits r :
  well_formed r limits → current r →
  same_counts (dec_explanation (Place limits r)) (scanned_explanation limits r).
Proof.
  intros Hwf' Hcur'. place_cases limits r; try done; cbn [with_digest dec_explanation].
  - unfold place_empty. destruct (classify_empty _ _ _) as [[outcome code] note].
    cbn [with_digest conclude dec_explanation].
    case_match; by rewrite ?AddBinding_counts, ?AddNote_counts.
  - unfold place_undiverse. cbn [with_digest conclude dec_explanation].
    by rewrite AddBinding_counts, AddNote_counts.
  - unfold place_move_deferred. cbn [with_digest conclude dec_explanation].
    by rewrite AddNote_counts, chosen_index_counts.
  - unfold place_gate_deferred, gate_binding. cbn [with_digest conclude dec_explanation].
    by rewrite AddNote_counts, AddBinding_counts, chosen_index_counts.
  - apply last_binding_counts.
Qed.
