(* ===== verification/OutcomeProps.v ===== *)
(** * What the unplaced outcomes and the exclusion report say

    The properties of [PlacementEngine] about requests that are not placed, and
    about the exclusion report every decision on a current request carries. *)

From Stdlib Require Import String.
From S2P Require Import Prelude StdAlgo Checked Status Hash Model ModelDigest Validate Explain.
From S2P Require Import Evaluate Rank Exclusions Place ScanFacts PlaceCases OrderFacts.
From S2P Require Import DegradeFacts Fixture EngineProps.

(** ** The summaries of the recorder *)

Section Summaries.
Context (max_reasons k : N) (l : list Excluded)
  (Hmax : 18 ≤ max_reasons) (Hnd : NoDup (xc_path <$> l)).
Let recorder := record_all max_reasons k l.

Lemma recorder_lookup reason : er_entries recorder !! reason = expected_entry k reason l.
Proof. apply (record_all_spec max_reasons k Hmax l Hnd). Qed.

Lemma recorder_summary reason :
  en_summary <$> er_entries recorder !! reason =
  match of_reason reason l with
  | [] => None
  | _ => Some (mkSummary reason (size (of_reason reason l))
                 (take (N.to_nat k) (std_sort N.ltb (xc_path <$> of_reason reason l))))
  end.
Proof.
  rewrite recorder_lookup, <-ordered_paths. unfold expected_entry.
  destruct (ordered reason l) as [|x xs] eqn:E.
  - apply ordered_nil in E. by rewrite E.
  - destruct (of_reason reason l) eqn:E'; [|done].
    apply ordered_nil in E'. by rewrite E' in E.
Qed.

Lemma Summaries_elem s :
  s ∈ Summaries recorder ↔
  ∃ reason, of_reason reason l ≠ [] ∧
    s = mkSummary reason (size (of_reason reason l))
          (take (N.to_nat k) (std_sort N.ltb (xc_path <$> of_reason reason l))).
Proof.
  unfold Summaries. rewrite list_elem_of_omap. setoid_rewrite recorder_summary. split.
  - intros (reason & _ & Hs). exists reason. destruct (of_reason reason l); [done|].
    by injection Hs as <-.
  - intros (reason & Hne & ->). exists reason. split; [apply ExclusionReason_all_elem|].
    by destruct (of_reason reason l).
Qed.

Lemma Count_spec reason : Count reason recorder = size (of_reason reason l).
Proof.
  unfold Count. pose proof (recorder_summary reason) as H.
  destruct (er_entries recorder !! reason) as [entry|]; cbn in H |- *;
    destruct (of_reason reason l); try done.
  by injection H as ->.
Qed.

Lemma all_reasons_spec f :
  all_reasons f (Summaries recorder) = true ↔ l ≠ [] ∧ ∀ x, x ∈ l → f (xc_reason x) = true.
Proof.
  unfold all_reasons. rewrite andb_true_iff, negb_true_iff, forallb_forall.
  assert (∀ x, x ∈ l → ∃ s, s ∈ Summaries recorder ∧ sum_reason s = xc_reason x) as Hx.
  { intros x Hx. eexists. rewrite Summaries_elem. split; [exists (xc_reason x); split; [|done]|done].
    intros Hn. apply (filter_nil_not_elem_of _ _ x) in Hn; [|done]. done. }
  split.
  - intros [Hne Hall]. split.
    + intros Hl. apply not_true_iff_false in Hne. apply Hne, list_empty_nil.
      destruct (Summaries recorder) as [|s ss] eqn:E; [done|].
      assert (s ∈ Summaries recorder) as Hs by (rewrite E; left).
      apply Summaries_elem in Hs as (reason & Hr & _). by rewrite Hl in Hr.
    + intros x Hin. destruct (Hx x Hin) as (s & Hs & <-). apply Hall. by apply list_elem_of_In.
  - intros [Hne Hall]. split.
    + destruct l as [|x l'] eqn:E; [done|]. destruct (Hx x) as (s & Hs & _); [left|].
      apply not_true_iff_false. rewrite list_empty_nil. intros Hn.
      rewrite Hn in Hs. by apply elem_of_nil in Hs.
    + intros s Hs%list_elem_of_In. apply Summaries_elem in Hs as (reason & Hr & ->). cbn [sum_reason].
      destruct (of_reason reason l) as [|x xs] eqn:E; [done|].
      assert (x ∈ of_reason reason l) as Hin by (rewrite E; left).
      apply list_elem_of_filter in Hin as [<- Hin]. by apply Hall.
Qed.
End Summaries.

(** The summaries come in the order of the enumerators. *)
Lemma Summaries_sorted recorder :
  (∀ reason entry, er_entries recorder !! reason = Some entry →
     sum_reason (en_summary entry) = reason) →
  StronglySorted (λ s t, ExclusionReason_ordinal (sum_reason s) <
                         ExclusionReason_ordinal (sum_reason t)) (Summaries recorder).
Proof.
  intros Hr. unfold Summaries.
  assert (StronglySorted (λ a b, ExclusionReason_ordinal a < ExclusionReason_ordinal b)
            ExclusionReason_all) as Hs by (repeat constructor).
  induction Hs as [|reason l Hl IH Hall]; [constructor|]. cbn [omap list_omap].
  destruct (er_entries recorder !! reason) as [entry|] eqn:E; cbn [fmap option_fmap option_map]; [|done].
  constructor; [done|]. rewrite Forall_forall in Hall. apply Forall_forall. intros s Hs.
  apply list_elem_of_omap in Hs as (other & Hin & Hs).
  destruct (er_entries recorder !! other) as [entry'|] eqn:E'; [|done].
  injection Hs as <-. rewrite (Hr _ _ E), (Hr _ _ E'). by apply Hall.
Qed.

(** ** The reason a candidate is excluded for *)

(** [reason] is the first hard constraint, in the fixed order, that removes [p]. *)
Definition first_violation (r : PlacementRequest) (p : CandidatePath) (reason : ExclusionReason)
    : Prop :=
  violates r p reason ∧
  ∀ other, ExclusionReason_ordinal other < ExclusionReason_ordinal reason → ¬ violates r p other.

Lemma first_violation_unique r p a b : first_violation r p a → first_violation r p b → a = b.
Proof.
  intros [Ha Hla] [Hb Hlb]. apply (inj ExclusionReason_ordinal).
  destruct (N.lt_trichotomy (ExclusionReason_ordinal a) (ExclusionReason_ordinal b))
    as [H|[H|H]]; [|done|].
  - by apply Hlb in H.
  - by apply Hla in H.
Qed.

Lemma Evaluate_first r limits p reason :
  well_formed r limits →
  vd_legal (Evaluate (Prepare r limits) p) = false ∧
    vd_reason (Evaluate (Prepare r limits) p) = reason ↔ first_violation r p reason.
Proof.
  intros Hwf. split.
  - intros [Hl <-]. by apply (Evaluate_reason r limits Hwf).
  - intros Hf. assert (vd_legal (Evaluate (Prepare r limits) p) = false) as Hl.
    { apply not_true_iff_false. rewrite (Evaluate_legal r limits Hwf). intros Hlegal.
      by apply (Hlegal reason), Hf. }
    split; [done|]. apply (first_violation_unique r p); [|done].
    by apply (Evaluate_reason r limits Hwf).
Qed.

(** [l] lists the candidates that [reason] removes, each once. *)
Definition removed_by (r : PlacementRequest) (reason : ExclusionReason) (l : list CandidatePath)
    : Prop :=
  NoDup (path_id <$> l) ∧
  ∀ p, p ∈ l ↔ p ∈ set_paths (rq_candidates r) ∧ first_violation r p reason.

Definition removed (limits : Limits) (r : PlacementRequest) (reason : ExclusionReason)
    : list CandidatePath :=
  filter (λ p, vd_legal (Evaluate (Prepare r limits) p) = false ∧
               vd_reason (Evaluate (Prepare r limits) p) = reason)
    (set_paths (rq_candidates r)).

Lemma removed_spec limits r reason :
  well_formed r limits → removed_by r reason (removed limits r reason).
Proof.
  intros Hwf. split.
  - apply filter_NoDup_ids. apply (wf_candidates _ _ Hwf).
  - intros p. unfold removed. rewrite list_elem_of_filter, Evaluate_first by done. tauto.
Qed.

Lemma removed_by_perm r reason l k : removed_by r reason l → removed_by r reason k → l ≡ₚ k.
Proof.
  intros [Hl Hlin] [Hk Hkin]. apply NoDup_Permutation.
  - by apply (NoDup_fmap_1 path_id).
  - by apply (NoDup_fmap_1 path_id).
  - intros p. by rewrite Hlin, Hkin.
Qed.

Lemma of_reason_removed limits r reason :
  of_reason reason (excluded_of (Prepare r limits) (set_paths (rq_candidates r))) =
  (λ p, mkExcluded (Evaluate (Prepare r limits) p) (path_id p)) <$> removed limits r reason.
Proof.
  unfold of_reason, excluded_of, removed, is_legal.
  induction (set_paths (rq_candidates r)) as [|p paths IH]; [done|].
  rewrite !filter_cons. destruct (vd_legal (Evaluate (Prepare r limits) p)) eqn:El.
  - rewrite !decide_False by naive_solver. done.
  - rewrite decide_True by done. cbn [fmap list_fmap]. rewrite filter_cons.
    change (xc_reason (mkExcluded (Evaluate (Prepare r limits) p) (path_id p)))
      with (vd_reason (Evaluate (Prepare r limits) p)).
    destruct (decide (vd_reason (Evaluate (Prepare r limits) p) = reason)).
    + rewrite decide_True by done. cbn [fmap list_fmap]. f_equal. exact IH.
    + rewrite decide_False by naive_solver. exact IH.
Qed.

(** The summary the report owes a reason that removes the candidates [l]. *)
Definition summary_of (limits : Limits) (reason : ExclusionReason) (l : list CandidatePath)
    : ExclusionSummary :=
  mkSummary reason (size l)
    (take (N.to_nat (max_exclusion_samples limits)) (std_sort N.ltb (path_id <$> l))).

Lemma summary_of_perm limits reason l k :
  l ≡ₚ k → summary_of limits reason l = summary_of limits reason k.
Proof.
  intros Hp. unfold summary_of. f_equal; [by apply size_perm|].
  f_equal. apply (std_sort_total_perm N.ltb). by rewrite Hp.
Qed.

Lemma scanned_exclusions_elem limits r s :
  well_formed r limits → 18 ≤ max_exclusion_reasons limits →
  s ∈ Summaries (sc_exclusions (scanned limits r)) ↔
  ∃ reason l, removed_by r reason l ∧ l ≠ [] ∧ s = summary_of limits reason l.
Proof.
  intros Hwf Hmax. unfold scanned. rewrite scan_candidates_spec. cbn [sc_exclusions].
  rewrite Summaries_elem; [|done|by apply excluded_of_NoDup, (wf_candidates _ _ Hwf)].
  setoid_rewrite of_reason_removed. split.
  - intros (reason & Hne & ->). exists reason, (removed limits r reason). split_and!.
    + by apply removed_spec.
    + intros Hn. by rewrite Hn in Hne.
    + unfold summary_of, size. by rewrite length_fmap, <-list_fmap_compose.
  - intros (reason & l & Hl & Hne & ->). exists reason.
    rewrite (summary_of_perm limits reason l (removed limits r reason))
      by (apply (removed_by_perm r reason); [done|by apply removed_spec]).
    split.
    + intros Hn%fmap_nil_inv. apply Hne.
      apply Permutation_nil. rewrite <-Hn. apply (removed_by_perm r reason); [|done].
      by apply removed_spec.
    + unfold summary_of, size. by rewrite length_fmap, <-list_fmap_compose.
Qed.

(** The exclusion report is exact.  For a current request the counts of
    candidates, legal and excluded candidates are the true ones, and there is
    exactly one summary for every reason that removes some candidate: its count
    is the number of candidates whose first violated constraint it is, its sample
    the lowest path ids among them, and the summaries are ordered by reason. *)
Theorem Place_exclusions limits r :
  well_formed r limits → current r → 18 ≤ max_exclusion_reasons limits →
  let e := dec_explanation (Place limits r) in
  ex_candidate_count e = size (set_paths (rq_candidates r)) ∧
  ex_legal_candidate_count e = size (legal_candidates limits r) ∧
  ex_legal_candidate_count e + ex_excluded_candidate_count e = ex_candidate_count e ∧
  (∀ s, s ∈ ex_exclusions e ↔
     ∃ reason l, removed_by r reason l ∧ l ≠ [] ∧ s = summary_of limits reason l) ∧
  StronglySorted (λ s t, ExclusionReason_ordinal (sum_reason s) <
                         ExclusionReason_ordinal (sum_reason t)) (ex_exclusions e).
Proof.
  intros Hwf Hcur Hmax. cbv zeta.
  destruct (Place_counts limits r Hwf Hcur) as [-> -> -> ->].
  destruct (scanned_explanation_counts limits r) as (-> & -> & -> & _ & ->).
  pose proof (counts_partition (Prepare r limits) (set_paths (rq_candidates r))) as Hp.
  split_and!; [done|done| |by intros s; apply scanned_exclusions_elem|].
  - fold (legal_candidates limits r) in Hp. lia.
  - apply Summaries_sorted. intros reason entry. unfold scanned.
    rewrite scan_candidates_spec. cbn [sc_exclusions].
    rewrite recorder_lookup; [|done|by apply excluded_of_NoDup, (wf_candidates _ _ Hwf)].
    unfold expected_entry. case_match; [done|]. by intros [= <-].
Qed.

Lemma Place_exclusions_witness :
  let r := Baseline 3 50 in
  let e := dec_explanation (Place default_limits r) in
  ex_candidate_count e = size (set_paths (rq_candidates r)) ∧
  ex_legal_candidate_count e = size (legal_candidates default_limits r) ∧
  ex_legal_candidate_count e + ex_excluded_candidate_count e = ex_candidate_count e ∧
  (∀ s, s ∈ ex_exclusions e ↔
     ∃ reason l, removed_by r reason l ∧ l ≠ [] ∧ s = summary_of default_limits reason l) ∧
  StronglySorted (λ s t, ExclusionReason_ordinal (sum_reason s) <
                         ExclusionReason_ordinal (sum_reason t)) (ex_exclusions e).
Proof.
  apply Place_exclusions; [apply well_formed_run; vm_compute; reflexivity|by repeat split|].
  vm_compute. discriminate.
Defined.

(** ** The unplaced outcomes *)

(** The category every candidate's first violated constraint belongs to. *)
Definition blocked_by (r : PlacementRequest) (category : ExclusionReason → bool) : Prop :=
  set_paths (rq_candidates r) ≠ [] ∧
  ∀ p, p ∈ set_paths (rq_candidates r) →
    ∃ reason, first_violation r p reason ∧ category reason = true.

Lemma no_legal_excluded limits r :
  legal_candidates limits r = [] →
  excluded_of (Prepare r limits) (set_paths (rq_candidates r)) =
  (λ p, mkExcluded (Evaluate (Prepare r limits) p) (path_id p)) <$> set_paths (rq_candidates r).
Proof.
  unfold legal_candidates, legal_of, excluded_of. intros Hl. f_equal.
  induction (set_paths (rq_candidates r)) as [|p paths IH]; [done|]. rewrite filter_cons in *.
  destruct (is_legal (Prepare r limits) p) eqn:E; [by rewrite decide_True in Hl|].
  rewrite decide_False in Hl by done. rewrite decide_True by done. f_equal. by apply IH.
Qed.

Lemma blocked_by_summaries limits r category :
  well_formed r limits → 18 ≤ max_exclusion_reasons limits → legal_candidates limits r = [] →
  all_reasons category (Summaries (sc_exclusions (scanned limits r))) = true ↔
  blocked_by r category.
Proof.
  intros Hwf Hmax Hl. unfold scanned. rewrite scan_candidates_spec. cbn [sc_exclusions].
  rewrite all_reasons_spec; [|done|by apply excluded_of_NoDup, (wf_candidates _ _ Hwf)].
  rewrite no_legal_excluded by done. unfold blocked_by.
  assert (∀ p, p ∈ set_paths (rq_candidates r) →
            vd_legal (Evaluate (Prepare r limits) p) = false) as Hx.
  { intros p Hp. apply not_true_iff_false. intros Hlegal.
    assert (p ∈ legal_candidates limits r) as Hin by by apply legal_of_elem.
    rewrite Hl in Hin. by apply elem_of_nil in Hin. }
  split.
  - intros [Hne Hall]. split; [intros Hn; by rewrite Hn in Hne|]. intros p Hp.
    exists (vd_reason (Evaluate (Prepare r limits) p)). split.
    + apply (Evaluate_reason r limits Hwf). by apply Hx.
    + apply (Hall (mkExcluded (Evaluate (Prepare r limits) p) (path_id p))).
      by apply (list_elem_of_fmap_2 (λ p, mkExcluded (Evaluate (Prepare r limits) p) (path_id p))).
  - intros [Hne Hall]. split; [intros Hn%fmap_nil_inv; done|]. intros x Hin.
    apply list_elem_of_fmap in Hin as (p & -> & Hp). destruct (Hall p Hp) as (reason & Hf & Hc).
    apply (Evaluate_first r limits) in Hf as [_ <-]; done.
Qed.

Lemma disjoint_categories r f g :
  (∀ reason, f reason = true → g reason = true → False) →
  blocked_by r f → ¬ blocked_by r g.
Proof.
  intros Hd [Hne Hf] [_ Hg]. destruct (set_paths (rq_candidates r)) as [|p paths] eqn:E; [done|].
  destruct (Hf p) as (a & Ha & Hfa); [left|]. destruct (Hg p) as (b & Hb & Hgb); [left|].
  rewrite (first_violation_unique r p a b Ha Hb) in Hfa. by apply (Hd b).
Qed.

Lemma size_filter_all {A} (P : A → Prop) `{!∀ x, Decision (P x)} (l : list A) :
  size (filter P l) = size l → ∀ x, x ∈ l → P x.
Proof.
  induction l as [|y l IH]; intros Hs x Hx; [by apply elem_of_nil in Hx|].
  rewrite filter_cons in Hs. pose proof (length_filter P l) as Hle. unfold size in *.
  case_decide as Hy; cbn [length] in Hs; [|lia].
  apply elem_of_cons in Hx as [->|Hx]; [done|]. apply IH; [lia|done].
Qed.

Section Classify.
Context (limits : Limits) (r : PlacementRequest)
  (Hwf : well_formed r limits) (Hmax : 18 ≤ max_exclusion_reasons limits)
  (Hl : legal_candidates limits r = []).
Let recorder := sc_exclusions (scanned limits r).
Let excluded := excluded_of (Prepare r limits) (set_paths (rq_candidates r)).

Local Lemma recorder_eq :
  recorder = record_all (max_exclusion_reasons limits) (max_exclusion_samples limits) excluded.
Proof. unfold recorder, scanned. by rewrite scan_candidates_spec. Qed.

Local Lemma excluded_NoDup : NoDup (xc_path <$> excluded).
Proof. apply excluded_of_NoDup, (wf_candidates _ _ Hwf). Qed.

Local Lemma excluded_all :
  size excluded = size (set_paths (rq_candidates r)).
Proof. unfold excluded. rewrite no_legal_excluded by done. unfold size. by rewrite length_fmap. Qed.

Lemma all_stale_paths :
  set_paths (rq_candidates r) ≠ [] →
  Count ExclusionReason.kPathAuthorityStale recorder = size (set_paths (rq_candidates r)) →
  blocked_by r IsStalenessReason.
Proof.
  intros Hne Hc. apply (blocked_by_summaries limits); [done..|]. fold recorder.
  rewrite recorder_eq in *. rewrite Count_spec in Hc by (done || apply excluded_NoDup).
  rewrite all_reasons_spec by (done || apply excluded_NoDup).
  rewrite <-excluded_all in Hc. split.
  - intros Hn. pose proof excluded_all as Hs. rewrite Hn in Hs. unfold size in Hs.
    destruct (set_paths (rq_candidates r)); [done|]. cbn in Hs. lia.
  - intros x Hx. by rewrite (size_filter_all _ _ Hc x Hx).
Qed.

Lemma only_stale_evidence :
  ReasonIsOnly ExclusionReason.kEvidenceStale recorder = true →
  blocked_by r IsStalenessReason.
Proof.
  unfold ReasonIsOnly. intros [Hsize%Nat.eqb_eq Hin]%andb_true_iff.
  destruct (er_entries recorder !! ExclusionReason.kEvidenceStale) as [entry|] eqn:E; [|done].
  assert (Hdel : delete ExclusionReason.kEvidenceStale (er_entries recorder) = ∅).
  { apply map_size_empty_inv. rewrite map_size_delete_Some by done. lia. }
  apply (blocked_by_summaries limits); [done..|]. fold recorder.
  assert (Hother : ∀ reason, er_entries recorder !! reason ≠ None →
            reason = ExclusionReason.kEvidenceStale).
  { intros reason Hr. destruct (decide (reason = ExclusionReason.kEvidenceStale)); [done|].
    rewrite <-(lookup_delete_ne _ ExclusionReason.kEvidenceStale) in Hr by done.
    by rewrite Hdel in Hr. }
  rewrite recorder_eq in *. rewrite all_reasons_spec by (done || apply excluded_NoDup).
  rewrite (recorder_lookup _ _ _ Hmax excluded_NoDup) in E.
  split; [by intros Hn; rewrite Hn in E|]. intros x Hx. rewrite (Hother (xc_reason x)); [done|].
  rewrite (recorder_lookup _ _ _ Hmax excluded_NoDup). unfold expected_entry.
  destruct (ordered (xc_reason x) excluded) eqn:Eo; [|done].
  apply ordered_nil in Eo. by apply (filter_nil_not_elem_of _ _ x) in Eo.
Qed.

(** The outcome of the empty legal set, by category. *)
Lemma classify_empty_category :
  let n := size (set_paths (rq_candidates r)) in
  let outcome := (classify_empty recorder n (Summaries recorder)).1.1 in
  (outcome = Outcome.kStaleInput ∧ blocked_by r IsStalenessReason) ∨
  (outcome = Outcome.kPolicyRejected ∧ blocked_by r IsPolicyReason) ∨
  (outcome = Outcome.kInsufficientCapacity ∧ blocked_by r IsCapacityReason) ∨
  (outcome = Outcome.kNoLegalPath ∧ ¬ blocked_by r IsStalenessReason ∧
   ¬ blocked_by r IsPolicyReason ∧ ¬ blocked_by r IsCapacityReason).
Proof.
  cbv zeta. unfold classify_empty.
  assert (Hb : ∀ f, all_reasons f (Summaries recorder) = true ↔ blocked_by r f)
    by (intros f; by apply blocked_by_summaries).
  destruct (N.eqb_spec (size (set_paths (rq_candidates r))) 0) as [H0|H0].
  { assert (set_paths (rq_candidates r) = []) as Hn
      by (destruct (set_paths (rq_candidates r)); [done|unfold size in H0; cbn in H0; lia]).
    do 3 right. split; [done|]. by split_and!; intros []. }
  assert (set_paths (rq_candidates r) ≠ []) as Hne by (intros Hn; by rewrite Hn in H0).
  destruct (N.eqb_spec (Count ExclusionReason.kPathAuthorityStale recorder)
              (size (set_paths (rq_candidates r)))); [left; split; [done|by apply all_stale_paths]|].
  destruct (all_reasons IsStalenessReason _ || _) eqn:Es.
  { left. split; [done|]. apply orb_true_iff in Es as [Es|Es]; [by apply Hb|].
    by apply only_stale_evidence. }
  apply orb_false_iff in Es as [Es _]. apply not_true_iff_false in Es. rewrite Hb in Es.
  destruct (all_reasons IsPolicyReason _) eqn:Ep; [right; left; split; [done|by apply Hb]|].
  apply not_true_iff_false in Ep. rewrite Hb in Ep.
  destruct (all_reasons IsServiceReason _) eqn:Ev.
  { do 3 right. split_and!; [done..|]. apply Hb in Ev.
    by apply (disjoint_categories r IsServiceReason); [by intros []|]. }
  destruct (all_reasons IsCapacityReason _) eqn:Ec.
  { do 2 right. left. apply Hb in Ec. by case_match. }
  apply not_true_iff_false in Ec. rewrite Hb in Ec. do 3 right. by case_match.
Qed.
End Classify.

Lemma place_empty_classified authority delta exclusions e :
  dec_outcome (place_empty authority delta exclusions e) =
  (classify_empty exclusions (ex_candidate_count e) (ex_exclusions e)).1.1.
Proof. unfold place_empty. by destruct (classify_empty _ _ _) as [[outcome code] note]. Qed.

(** The outcome names the category that blocked the flow.  When a
    current request has no legal candidate there is no intent, and the outcome
    is STALE_INPUT, POLICY_REJECTED or INSUFFICIENT_CAPACITY exactly when the
    first violated constraint of every candidate is one of that category; in
    every other case it is NO_LEGAL_PATH. *)
Theorem Place_unplaced limits r :
  well_formed r limits → current r → 18 ≤ max_exclusion_reasons limits →
  (∀ p, p ∈ set_paths (rq_candidates r) → ¬ legal_path r p) →
  let d := Place limits r in
  dec_intent d = None ∧
  (dec_outcome d = Outcome.kStaleInput ↔ blocked_by r IsStalenessReason) ∧
  (dec_outcome d = Outcome.kPolicyRejected ↔ blocked_by r IsPolicyReason) ∧
  (dec_outcome d = Outcome.kInsufficientCapacity ↔ blocked_by r IsCapacityReason) ∧
  (dec_outcome d = Outcome.kNoLegalPath ↔
     ¬ blocked_by r IsStalenessReason ∧ ¬ blocked_by r IsPolicyReason ∧
     ¬ blocked_by r IsCapacityReason).
Proof.
  intros Hwf' Hcur' Hmax Hno. cbv zeta. assert (legal_candidates limits r = []) as Hl'.
  { apply legal_candidates_nil; [done|]. intros (p & Hp & Hlegal). by apply (Hno p). }
  place_cases limits r; try done.
  2: { rewrite Hl' in Hp. by apply elem_of_nil in Hp. }
  split; [apply place_empty_intent|]. rewrite place_empty_classified.
  destruct (scanned_explanation_counts limits r) as (-> & _ & _ & _ & ->).
  pose proof (disjoint_categories r IsStalenessReason IsPolicyReason) as Hsp.
  pose proof (disjoint_categories r IsStalenessReason IsCapacityReason) as Hsc.
  pose proof (disjoint_categories r IsPolicyReason IsCapacityReason) as Hpc.
  assert (∀ reason, IsStalenessReason reason = true → IsPolicyReason reason = true → False)
    as H1 by by intros [].
  assert (∀ reason, IsStalenessReason reason = true → IsCapacityReason reason = true → False)
    as H2 by by intros [].
  assert (∀ reason, IsPolicyReason reason = true → IsCapacityReason reason = true → False)
    as H3 by by intros [].
  destruct (classify_empty_category limits r Hwf Hmax Hl) as
    [(-> & H)|[(-> & H)|[(-> & H)|(-> & H)]]]; split_and!; split; (done || tauto).
Qed.

Lemma Place_unplaced_witness :
  let r := Baseline 2 50 in
  let d := Place default_limits r in
  dec_intent d = None ∧
  (dec_outcome d = Outcome.kStaleInput ↔ blocked_by r IsStalenessReason) ∧
  (dec_outcome d = Outcome.kPolicyRejected ↔ blocked_by r IsPolicyReason) ∧
  (dec_outcome d = Outcome.kInsufficientCapacity ↔ blocked_by r IsCapacityReason) ∧
  (dec_outcome d = Outcome.kNoLegalPath ↔
     ¬ blocked_by r IsStalenessReason ∧ ¬ blocked_by r IsPolicyReason ∧
     ¬ blocked_by r IsCapacityReason).
Proof.
  apply Place_unplaced.
  - apply well_formed_run. vm_compute. reflexivity.
  - by repeat split.
  - vm_compute. discriminate.
  - intros p Hp. rewrite <-(Evaluate_legal _ default_limits)
      by (apply well_formed_run; vm_compute; reflexivity).
    assert (forallb (λ p, negb (vd_legal (Evaluate (Prepare (Baseline 2 50) default_limits) p)))
              (set_paths (rq_candidates (Baseline 2 50))) = true) as Hall
      by (vm_compute; reflexivity).
    rewrite forallb_forall in Hall. apply list_elem_of_In, Hall in Hp.
    apply negb_true_iff in Hp. congruence.
Defined.

(** ** Requests that are refused *)

(** An invalid request is refused with the validator's verdict.  It
    gets no intent, the outcome CONFLICTING_INPUT, and the code and status of the
    first failing check, all of which are input errors. *)
Theorem Place_invalid limits r :
  ¬ well_formed r limits →
  let d := Place limits r in
  dec_intent d = None ∧ dec_outcome d = Outcome.kConflictingInput ∧
  dec_validation d = ValidateRequest r limits ∧ dec_code d = status_code (ValidateRequest r limits) ∧
  dec_code d ∈ [StatusCode.kInvalidId; StatusCode.kInvalidFieldValue; StatusCode.kMissingField;
                StatusCode.kOversizeRequest; StatusCode.kDuplicatePathId;
                StatusCode.kInconsistentAuthorityGeneration;
                StatusCode.kContradictoryConstraints; StatusCode.kArithmeticOverflow].
Proof.
  intros Hwf'. cbv zeta. place_cases limits r; try done.
  subst validation. pose proof (ValidateRequest_code r limits) as Hc.
  rewrite <-ValidateRequest_ok in Hwf.
  destruct (ValidateRequest r limits) as [code message]. unfold status_ok in Hwf.
  cbn [status_code status_message] in *.
  split; [done|]. cbn. destruct code; try done; (split_and!; [done..|set_solver]) || by destruct Hwf.
Qed.

Lemma Place_invalid_witness :
  let r := with_policy (with_labels [3] [3] fixture_policy) (Baseline 2 5000) in
  let d := Place default_limits r in
  dec_intent d = None ∧ dec_outcome d = Outcome.kConflictingInput ∧
  dec_validation d = ValidateRequest r default_limits ∧
  dec_code d = status_code (ValidateRequest r default_limits) ∧
  dec_code d ∈ [StatusCode.kInvalidId; StatusCode.kInvalidFieldValue; StatusCode.kMissingField;
                StatusCode.kOversizeRequest; StatusCode.kDuplicatePathId;
                StatusCode.kInconsistentAuthorityGeneration;
                StatusCode.kContradictoryConstraints; StatusCode.kArithmeticOverflow].
Proof.
  apply Place_invalid. rewrite <-ValidateRequest_ok. vm_compute. discriminate.
Defined.

(** The code of the first generation, in the fixed order, that is not the
    expected one. *)
Definition stale_code (r : PlacementRequest) : StatusCode :=
  if negb (set_generation (rq_candidates r) =? exp_candidate_set (rq_expected r))
  then StatusCode.kStaleCandidateSet
  else if negb (snap_generation (rq_capacity r) =? exp_capacity (rq_expected r))
  then StatusCode.kStaleCapacitySnapshot
  else if negb (pol_generation (rq_policy r) =? exp_policy (rq_expected r))
  then StatusCode.kStalePolicy else StatusCode.kStaleQos.

(** Nothing is placed on stale input.  A valid request with a generation
    that is not the expected one is answered STALE_INPUT, with the code of the
    first such generation and no intent. *)
Theorem Place_stale limits r :
  well_formed r limits → ¬ current r →
  let d := Place limits r in
  dec_intent d = None ∧ dec_outcome d = Outcome.kStaleInput ∧ dec_code d = stale_code r ∧
  status_code (dec_validation d) = stale_code r.
Proof.
  intros Hwf' Hcur'. cbv zeta. place_cases limits r; try done.
  assert (code = stale_code r) as ->; [|done]. revert Hs. unfold first_stale, stale_checks, stale_code.
  cbn [find fst snd].
  repeat match goal with |- context [?a =? ?b] =>
    destruct (N.eqb_spec a b); cbn [negb fmap option_fmap option_map fst snd] end;
    intros; simplify_eq; done.
Qed.

(** [Baseline] with a capacity snapshot of another generation. *)
Definition stale_baseline : PlacementRequest :=
  let r := Baseline 2 5000 in
  mkRequest (rq_flow r) (rq_flow_generation r) (rq_candidates r)
    (mkSnapshot (snap_id (rq_capacity r)) 4 (snap_entries (rq_capacity r))) (rq_qos r)
    (rq_policy r) (rq_evidence r) (rq_incumbent r) (rq_occupied_failure_domains r)
    (rq_expected r) (rq_provenance r) (rq_attempt r).

Lemma Place_stale_witness :
  let d := Place default_limits stale_baseline in
  dec_intent d = None ∧ dec_outcome d = Outcome.kStaleInput ∧
  dec_code d = stale_code stale_baseline ∧
  status_code (dec_validation d) = stale_code stale_baseline.
Proof.
  apply Place_stale; [apply well_formed_run; vm_compute; reflexivity|].
  intros (_ & H & _). vm_compute in H. discriminate.
Defined.
