(* ===== verification/InputProps.v ===== *)
(** * What the engine's stages promise on their own

    The validator, the evaluation of one candidate, the ranking, the
    verification of an intent and the digests, each stated against the
    declarative reading of the request, and the independence of a decision of
    the order its unordered collections are supplied in. *)

From Stdlib Require Import String.
From S2P Require Import Prelude StdAlgo Checked Status Hash Model ModelDigest Validate Explain.
From S2P Require Import Evaluate Rank Exclusions Place ScanFacts PlaceCases OrderFacts.
From S2P Require Import DegradeFacts Fixture EngineProps OutcomeProps.

(** ** Order *)

(** C21: A decision does not depend on the order of the unordered collections.
    For a valid request and limits that record all eighteen exclusion reasons, supplying
    the labels of each path in another order, its reservations too where the policy names
    no affinity references, and then the candidate paths, the capacity entries, the
    evidence entries, the occupied domains and the policy's allowed tiers, required labels,
    forbidden labels, forbidden localities, forbidden domains and affinity references in
    another order gives the same decision, explanation and digest included.  With affinity
    references the order of a path's reservations does reach the intent
    ([reservation_order_matters]). *)
Theorem Place_order_independent limits r paths c :
  let refs := affinity_refs (pol_reservation_affinity (rq_policy r)) in
  Forall2 (reordered refs) (set_paths (rq_candidates r)) paths →
  let s := request_with_paths paths r in
  collections_perm (collections_of s) c → well_formed r limits →
  18 ≤ max_exclusion_reasons limits →
  Place limits (with_collections c s) = Place limits r.
Proof.
  intros refs Hp s Hc Hwf Hreasons. rewrite (Place_perm limits s c Hc); [|..|done].
  - by apply Place_reordered.
  - by apply well_formed_reordered.
Qed.

Definition reversed (r : PlacementRequest) : Collections :=
  let c := collections_of r in
  mkCollections (rev (co_paths c)) (rev (co_capacity c)) (rev (co_evidence c))
    (rev (co_occupied c)) (rev (co_tiers c)) (rev (co_required_labels c))
    (rev (co_forbidden_labels c)) (rev (co_localities c)) (rev (co_domains c)) (rev (co_refs c)).

(** Three paths, one with two labels and two reservations. *)
Definition listed_paths (labels : list N) (refs : list ReservationRef) : list CandidatePath :=
  [with_lists labels refs (fixture_path 0); fixture_path 1; fixture_path 2].

Definition listed : PlacementRequest :=
  with_paths (listed_paths [3; 7] [mkRef 31 1; mkRef 32 1]) (Baseline 3 5000).

Lemma Place_order_independent_witness :
  let s := request_with_paths (listed_paths [7; 3] [mkRef 32 1; mkRef 31 1]) listed in
  Place default_limits (with_collections (reversed s) s) = Place default_limits listed.
Proof.
  intros s. apply (Place_order_independent default_limits listed).
  - constructor; [|do 2 (constructor; [apply reordered_refl|]); constructor].
    apply (Reordered _ (with_lists [3; 7] [mkRef 31 1; mkRef 32 1] (fixture_path 0)));
      [apply perm_swap|apply perm_swap|by left].
  - split; apply Permutation_rev.
  - apply well_formed_run. vm_compute. reflexivity.
  - vm_compute. discriminate.
Defined.

(** ** One candidate *)

(** C22: a candidate is excluded for the first constraint it violates.  For
    a valid request a candidate is legal exactly when it violates none of the
    hard constraints, and it is reported with a reason exactly when that is the
    first constraint of the fixed order that it violates. *)
Theorem Evaluate_spec limits r p reason :
  well_formed r limits →
  let verdict := Evaluate (Prepare r limits) p in
  (vd_legal verdict = true ↔ legal_path r p) ∧
  (vd_legal verdict = false ∧ vd_reason verdict = reason ↔ first_violation r p reason).
Proof.
  intros Hwf. split; [by apply Evaluate_legal|by apply Evaluate_first].
Qed.

Lemma Evaluate_spec_witness :
  let r := Baseline 2 50 in
  let verdict := Evaluate (Prepare r default_limits) (fixture_path 0) in
  (vd_legal verdict = true ↔ legal_path r (fixture_path 0)) ∧
  (vd_legal verdict = false ∧ vd_reason verdict = ExclusionReason.kCapacityInsufficient ↔
   first_violation r (fixture_path 0) ExclusionReason.kCapacityInsufficient).
Proof. apply Evaluate_spec. apply well_formed_run. vm_compute. reflexivity. Defined.

(** ** Validation *)

(** C23: the validator accepts exactly the well-formed requests.  The chain
    of checks reports Ok if and only if every enumeration value, generation,
    bound, candidate, capacity and evidence entry and every policy constraint is
    as [well_formed] says. *)
Theorem ValidateRequest_spec limits r :
  status_ok (ValidateRequest r limits) = true ↔ well_formed r limits.
Proof. apply ValidateRequest_ok. Qed.

(** ** Ranking *)

(** The ranking is a strict total order with UNKNOWN last.  Among the
    legal entries of one request [RankLess] is irreflexive, transitive and total
    up to the path id, it is decided by the first objective on which two entries
    differ, and an entry whose value for that objective is UNKNOWN ranks after
    one whose value is known, whatever the direction. *)
Theorem RankLess_spec pr (paths : list CandidatePath) :
  let l := entry_of pr <$> paths in
  (∀ e, e ∈ l → RankLess e e = false) ∧
  (∀ e f g, e ∈ l → f ∈ l → g ∈ l → RankLess e f = true → RankLess f g = true →
     RankLess e g = true) ∧
  (∀ e f, e ∈ l → f ∈ l → RankLess e f = false → RankLess f e = false →
     path_id (rk_path e) = path_id (rk_path f)) ∧
  (∀ e f pre x y es fs, e ∈ l → f ∈ l →
     rk_keys e = pre ++ x :: es → rk_keys f = pre ++ y :: fs →
     val_known x = true → val_known y = false → RankLess e f = true).
Proof.
  cbv zeta. pose proof (legal_entries_directions pr paths) as Hd. rewrite Forall_forall in Hd.
  set (ds := objective_directions pr) in *. split_and!.
  - intros e He. rewrite (RankLess_order ds) by auto. apply (swo_irrefl e).
  - intros e f g He Hf Hg. rewrite !(RankLess_order ds) by auto. apply (swo_trans e f g).
  - intros e f He Hf. rewrite !(RankLess_order ds) by auto.
    apply (order_by_tie ds (rank_key e) (rank_key f)).
  - intros e f pre x y es fs He Hf Hke Hkf Hx Hy. unfold RankLess. rewrite Hke, Hkf. clear Hke Hkf.
    induction pre as [|z pre IH]; cbn [app keys_less].
    + rewrite Hx, Hy. done.
    + rewrite Bool.eqb_reflx, N.eqb_refl. cbn [negb andb].
      by rewrite andb_false_r.
Qed.

(** ** The verification of an intent *)

(** What [VerifyIntent] demands of an intent. *)
Record authorized (r : PlacementRequest) (i : PlacementIntent) : Prop := {
  au_flow : int_flow i = rq_flow r ∧ int_flow_generation i = rq_flow_generation r;
  au_authority : int_path_authority i = exp_path_authority (rq_expected r);
  au_set : int_candidate_set i = set_id (rq_candidates r) ∧
           int_candidate_set_generation i = set_generation (rq_candidates r);
  au_capacity : int_capacity i = snap_id (rq_capacity r) ∧
                int_capacity_generation i = snap_generation (rq_capacity r);
  au_policy : int_policy i = pol_id (rq_policy r) ∧
              int_policy_generation i = pol_generation (rq_policy r);
  au_qos : int_qos i = qos_id (rq_qos r) ∧ int_qos_generation i = qos_generation (rq_qos r);
  au_epoch : int_fabric_epoch i = exp_fabric_epoch (rq_expected r);
  au_evidence :
    int_evidence_generation i = 0 ∧ int_evidence i = 0 ∨
    evidence_trusted r ∧ int_evidence_generation i = bundle_generation (rq_evidence r) ∧
    int_evidence i = bundle_id (rq_evidence r);
  au_path : ∃ p, p ∈ set_paths (rq_candidates r) ∧ path_id p = int_path i ∧
    path_authority p = int_path_authority i ∧ legal_path r p ∧
    (ReservationRef_valid (int_reservation i) = true →
     int_reservation i ∈ attr_reservations (path_attributes p));
}.

Lemma verify_evidence_spec r i :
  verify_evidence r i = None ↔
  int_evidence_generation i = 0 ∧ int_evidence i = 0 ∨
  evidence_trusted r ∧ int_evidence_generation i = bundle_generation (rq_evidence r) ∧
  int_evidence i = bundle_id (rq_evidence r).
Proof.
  unfold verify_evidence, evidence_trusted.
  destruct (valid (int_evidence_generation i)) eqn:Eg; b2p.
  - destruct (N.eqb_spec (int_evidence_generation i) (bundle_generation (rq_evidence r))) as [Hg|];
      cbn [negb]; [|split; [done|lia]].
    destruct (N.eqb_spec (int_evidence i) (bundle_id (rq_evidence r))); cbn [negb];
      [|split; [done|tauto]].
    destruct (negb (valid _) || _) eqn:E.
    + split; [done|]. intros [[]|[[? He] _]]; [done|].
      apply orb_true_iff in E as [E|E]; b2p; congruence.
    + split; [intros _; right|done]. apply orb_false_iff in E as [_ E]. b2p. rewrite <-Hg. tauto.
  - destruct (valid (int_evidence i)) eqn:Ee; b2p.
    + split; [done|]. intros [[? ?]|[[? ?] [? ?]]]; congruence.
    + split; [by left|done].
Qed.

Lemma verify_path_spec limits r i :
  well_formed r limits →
  verify_path (Prepare r limits) i = None ↔
  ∃ p, p ∈ set_paths (rq_candidates r) ∧ path_id p = int_path i ∧
    path_authority p = int_path_authority i ∧ legal_path r p ∧
    (ReservationRef_valid (int_reservation i) = true →
     int_reservation i ∈ attr_reservations (path_attributes p)).
Proof.
  intros Hwf. unfold verify_path. setoid_rewrite <-(Evaluate_legal r limits Hwf).
  destruct (LookupById (pr_candidates_by_id (Prepare r limits)) path_id (int_path i)) as [p|] eqn:E.
  - assert (p ∈ set_paths (rq_candidates r) ∧ path_id p = int_path i) as [Hp Hid]
      by (apply (lookup_key_sort path_id); [apply (wf_candidates _ _ Hwf)|exact E]).
    assert (∀ q, q ∈ set_paths (rq_candidates r) ∧ path_id q = int_path i ↔ q = p) as Hq.
    { intros q. split; [|by intros ->]. intros [Hin Hq].
      apply (NoDup_fmap_elem_inj path_id (set_paths (rq_candidates r))); [|done..|congruence].
      apply (wf_candidates _ _ Hwf). }
    trans (path_authority p = int_path_authority i ∧
           vd_legal (Evaluate (Prepare r limits) p) = true ∧
           (ReservationRef_valid (int_reservation i) = true →
            int_reservation i ∈ attr_reservations (path_attributes p))).
    + destruct (N.eqb_spec (path_authority p) (int_path_authority i)); cbn [negb];
        [|split; [done|tauto]].
      destruct (vd_legal _); cbn [negb]; [|split; [done|intros (_ & ? & _); done]].
      destruct (ReservationRef_valid (int_reservation i)); cbn [andb]; [|split; [intros _; by split_and!|done]].
      destruct (existsb _ _) eqn:Ex; cbn [negb].
      * apply existsb_exists_elem in Ex as (ref & Hr & Heq). b2p. subst.
        split; [intros _; by split_and!|done].
      * split; [done|]. intros (_ & _ & Hr). specialize (Hr eq_refl).
        apply not_true_iff_false in Ex. destruct Ex. apply existsb_exists_elem.
        exists (int_reservation i). split; [done|]. by apply ReservationRef_eqb_eq.
    + split.
      * intros (? & ? & ?). by exists p.
      * intros (q & Hqin & Hqid & ?). assert (q = p) as -> by (by apply Hq). tauto.
  - split; [done|]. intros (p & Hp & Hid & _). exfalso.
    assert (LookupById (pr_candidates_by_id (Prepare r limits)) path_id (int_path i) = Some p) as E'.
    { apply (lookup_key_sort path_id); [apply (wf_candidates _ _ Hwf)|done]. }
    congruence.
Qed.

(** C20: self-verification accepts exactly the authorised intents.
    [VerifyIntent] answers true if and only if the request is valid, every
    binding of the intent is the request's, its evidence is absent or trusted,
    and its path is a legal candidate that carries the bound reservation. *)
Theorem VerifyIntent_spec limits r i :
  VerifyIntent limits r i = None ↔ well_formed r limits ∧ authorized r i.
Proof.
  unfold VerifyIntent. rewrite <-(ValidateRequest_ok r limits).
  destruct (status_ok (ValidateRequest r limits)) eqn:Hwf; cbn [negb]; [|split; [done|by intros []]].
  apply ValidateRequest_ok in Hwf.
  trans (verify_bindings r i = None ∧ verify_path (Prepare r limits) i = None).
  { destruct (verify_bindings r i); [split; [done|by intros []]|tauto]. }
  rewrite (verify_path_spec limits r i Hwf). unfold verify_bindings.
  repeat match goal with |- context [?a =? ?b] => destruct (N.eqb_spec a b); cbn [negb orb] end;
    try (split; [by intros [? _]|]; intros [_ []]; tauto).
  rewrite verify_evidence_spec. split.
  - intros [He Hp]. split; [done|]. by split.
  - by intros [_ []].
Qed.

(** ** Digests *)

(** C25: the request digest is canonical.  Two requests that differ only
    in the order of their unordered collections, in repeated labels, reservations
    or set members, and in the informational observation time have the same
    digest. *)
Theorem RequestDigest_canonical r s limits :
  request_equiv r s → RequestDigest r limits = RequestDigest s limits.
Proof. apply RequestDigest_equiv. Qed.

(** A path whose two reservations both match the policy's affinity. *)
Definition reserved_path (refs : list ReservationRef) : CandidatePath :=
  mkPath 1 kPathAuthority
    (mkAttributes PathTier.kStandard 10 LocalityScope.kRack 20 100 1000 1 [] refs).

Definition reserved_request (refs : list ReservationRef) : PlacementRequest :=
  with_paths [reserved_path refs]
    (with_policy
       (with_affinity (mkAffinity true [mkRef 31 1; mkRef 32 1]) fixture_policy)
       (Baseline 1 5000)).

Lemma keyed_equiv_singleton {A} (key : A → N) (R : relation A) x y :
  R x y → keyed_equiv key R [x] [y].
Proof.
  intros HR. split; [apply NoDup_singleton|]. exists [x]. split; [done|]. by repeat constructor.
Qed.

Lemma reserved_request_equiv refs refs' :
  same_set refs refs' → request_equiv (reserved_request refs) (reserved_request refs').
Proof.
  intros Hs. split; try done; by apply keyed_equiv_singleton.
Qed.

Lemma RequestDigest_canonical_witness :
  RequestDigest (reserved_request [mkRef 31 1; mkRef 32 1]) default_limits =
  RequestDigest (reserved_request [mkRef 32 1; mkRef 31 1; mkRef 32 1]) default_limits.
Proof.
  apply RequestDigest_canonical. apply reserved_request_equiv. intros x. set_solver.
Defined.

(** The order of a path's reservations reaches the intent.  The
    reservation list is a set, and the request digest treats it as one; but the
    intent is bound to the first affinity match in the supplied order, so two
    requests that are equal up to that order, with the same request digest, get
    different intents and decision digests. *)
Theorem reservation_order_matters :
  ∃ r s, request_equiv r s ∧ well_formed r default_limits ∧ well_formed s default_limits ∧
    RequestDigest r default_limits = RequestDigest s default_limits ∧
    (int_reservation <$> dec_intent (Place default_limits r)) ≠
    (int_reservation <$> dec_intent (Place default_limits s)) ∧
    dec_digest (Place default_limits r) ≠ dec_digest (Place default_limits s).
Proof.
  exists (reserved_request [mkRef 31 1; mkRef 32 1]), (reserved_request [mkRef 32 1; mkRef 31 1]).
  assert (request_equiv (reserved_request [mkRef 31 1; mkRef 32 1])
            (reserved_request [mkRef 32 1; mkRef 31 1])) as He.
  { apply reserved_request_equiv. intros x. set_solver. }
  split_and!; [done|apply well_formed_run; by vm_compute|apply well_formed_run; by vm_compute
              |by apply RequestDigest_equiv|by vm_compute|by vm_compute].
Qed.

(** The high half of a digest adds nothing.  It is computed from the
    low half and not from a second pass over the stream, so two canonical streams
    collide on the 128-bit digest as soon as they collide on 64 bits. *)
Theorem Digest_halves h1 h2 :
  digest_lo (OfCanonical h1) = digest_lo (OfCanonical h2) ↔ OfCanonical h1 = OfCanonical h2.
Proof. rewrite OfCanonical_inj. done. Qed.

(** ** Names of the enumerators *)

(** The enumerators with ordinals [0 .. last]. *)
Definition declared {T} (cast : N → T) (last : nat) : list T :=
  (λ i, cast (N.of_nat i)) <$> seq 0 (S last).

(** [parse] inverts [name] on the declared enumerators and accepts nothing else. *)
Definition names_parse {T} (parse : string → option T) (name : T → string) (cast : N → T)
    (last : nat) : Prop :=
  ∀ s v, parse s = Some v ↔ v ∈ declared cast last ∧ name v = s.

Lemma ParseEnum_names {T} (table : list (string * T)) (name : T → string) (cast : N → T) last :
  table = (λ v, (name v, v)) <$> declared cast last → NoDup (table.*1) →
  names_parse (ParseEnum table) name cast last.
Proof.
  intros -> Hnd s v. unfold ParseEnum. rewrite <-list_fmap_compose in Hnd.
  induction (declared cast last) as [|w l IH]; [split; [done|by intros [?%elem_of_nil _]]|].
  cbn [fmap list_fmap find fst snd] in *. apply NoDup_cons in Hnd as [Hw Hnd].
  rewrite elem_of_cons. destruct (String.eqb_spec (name w) s) as [Hs|Hs].
  - split; [intros [= <-]; by split; [left|]|]. intros [[->|Hv] Hn]; [done|].
    destruct Hw. apply list_elem_of_fmap. exists v. split; [|done]. cbn. congruence.
  - rewrite (IH Hnd). split; [intros []; by split; [right|]|].
    intros [[->|Hv] Hn]; [by destruct Hs|done].
Qed.

(** Every enumeration parses exactly the names it prints.  For the nine
    enumerations of the model, parsing a string succeeds exactly on the name of a
    declared enumerator and gives that enumerator back; in particular the name
    "unknown" of an undeclared value is never parsed. *)
Theorem enumeration_names :
  names_parse ParseServiceClass ServiceClassName ServiceClass_cast 3 ∧
  names_parse ParsePriorityClass PriorityClassName PriorityClass_cast 3 ∧
  names_parse ParsePathTier PathTierName PathTier_cast 2 ∧
  names_parse ParseLocalityScope LocalityScopeName LocalityScope_cast 4 ∧
  names_parse ParseObjectiveKind ObjectiveKindName ObjectiveKind_cast 8 ∧
  names_parse ParseDirection DirectionName Direction_cast 1 ∧
  names_parse ParseEvidencePolicyMode EvidencePolicyModeName EvidencePolicyMode_cast 1 ∧
  names_parse ParseGateAction GateActionName GateAction_cast 1 ∧
  names_parse ParseChurnAction ChurnActionName ChurnAction_cast 1.
Proof.
  split_and!; apply ParseEnum_names; try reflexivity; by apply (bool_decide_unpack _).
Qed.

(** ** Arithmetic *)

(** The checked operations are exact or refuse.  On 64-bit operands
    the checked sum and product are the exact value when it is representable and
    nothing otherwise, and a generation counter advances by one except at its
    maximum, where it refuses instead of wrapping to the invalid zero. *)
Theorem checked_arithmetic a b :
  u64_fits a → u64_fits b →
  CheckedAdd a b = (if a + b <=? uint_max 64 then Some (a + b) else None) ∧
  CheckedMul a b = (if a * b <=? uint_max 64 then Some (a * b) else None) ∧
  Advance a = (if a <? uint_max 64 then Some (a + 1) else None).
Proof.
  intros Ha Hb. split_and!; [by apply CheckedAdd_spec|by apply CheckedMul_spec|by apply Advance_spec].
Qed.

Lemma checked_arithmetic_witness :
  let a := uint_max 64 in
  CheckedAdd a 1 = (if a + 1 <=? uint_max 64 then Some (a + 1) else None) ∧
  CheckedMul a 1 = (if a * 1 <=? uint_max 64 then Some (a * 1) else None) ∧
  Advance a = (if a <? uint_max 64 then Some (a + 1) else None).
Proof. apply checked_arithmetic; vm_compute; reflexivity. Defined.
