(* ===== verification/CodecProps.v ===== *)
(** * Properties of the codec

    The round trips of requests, decisions and store records; what the decoders
    accept on arbitrary bytes; and two values the engine handles that do not
    survive the codec. *)

From Stdlib Require Import String.
From S2P Require Import Prelude StdAlgo Checked Status Bytes Hash Model Explain Records Codec.
From S2P Require Import CodecFacts CodecExact ModelDigest Validate Place Fixture.

(** ** Requests *)

(** A value of the C++ type of an enumeration: its ordinal determines it. *)
Definition enum_value {T} (ordinal : T → N) (cast : N → T) (v : T) : Prop := cast (ordinal v) = v.

Definition path_typed (p : CandidatePath) : Prop :=
  let a := path_attributes p in
  Forall u64_fits [path_id p; path_authority p; attr_locality a; attr_failure_domain a;
    attr_cost_micro a; attr_latency_nanos a] ∧
  u16_fits (attr_hop_count a) ∧
  enum_value PathTier_ordinal PathTier_cast (attr_tier a) ∧
  enum_value LocalityScope_ordinal LocalityScope_cast (attr_locality_scope a) ∧
  Forall u64_fits (attr_labels a) ∧ Forall reservation_fits (attr_reservations a).

Definition policy_typed (v : PlacementPolicy) : Prop :=
  Forall u64_fits [pol_id v; pol_generation v; pol_revalidate_after_nanos v;
    optional_value (required_locality (pol_locality v));
    optional_value (preferred_locality (pol_locality v));
    optional_value (required_domain (pol_failure_domains v));
    min_residual_headroom_bytes (pol_admission v); move_improvement_threshold (pol_churn v)] ∧
  Forall u32_fits [min_distinct_domains (pol_failure_domains v);
    threshold_objective_index (pol_churn v)] ∧
  Forall (λ o, enum_value ObjectiveKind_ordinal ObjectiveKind_cast (obj_kind o) ∧
               enum_value Direction_ordinal Direction_cast (obj_direction o)) (pol_objectives v) ∧
  Forall (enum_value PathTier_ordinal PathTier_cast) (pol_allowed_tiers v) ∧
  enum_value GateAction_ordinal GateAction_cast (on_below (pol_admission v)) ∧
  enum_value ChurnAction_ordinal ChurnAction_cast (on_move (pol_churn v)) ∧
  enum_value EvidencePolicyMode_ordinal EvidencePolicyMode_cast (on_missing (pol_evidence v)) ∧
  enum_value EvidencePolicyMode_ordinal EvidencePolicyMode_cast (on_stale (pol_evidence v)) ∧
  Forall (Forall u64_fits) [pol_required_labels v; pol_forbidden_labels v;
    forbidden_localities (pol_locality v); forbidden_domains (pol_failure_domains v)] ∧
  Forall reservation_fits (affinity_refs (pol_reservation_affinity v)).

(** A request whose fields are values of their C++ types. *)
Definition request_typed (r : PlacementRequest) : Prop :=
  Forall u64_fits [rq_flow r; rq_flow_generation r; rq_attempt r;
    set_id (rq_candidates r); set_generation (rq_candidates r);
    snap_id (rq_capacity r); snap_generation (rq_capacity r);
    qos_id (rq_qos r); qos_generation (rq_qos r); qos_required_residual_bytes (rq_qos r);
    qos_max_latency_nanos (rq_qos r);
    bundle_id (rq_evidence r); bundle_generation (rq_evidence r);
    prov_source_sequence (rq_provenance r)] ∧
  i64_fits (prov_observer_unix_nanos (rq_provenance r)) ∧
  enum_value ServiceClass_ordinal ServiceClass_cast (qos_service_class (rq_qos r)) ∧
  enum_value PriorityClass_ordinal PriorityClass_cast (qos_priority (rq_qos r)) ∧
  Forall path_typed (set_paths (rq_candidates r)) ∧
  Forall capacity_fits (snap_entries (rq_capacity r)) ∧
  Forall (λ e, u64_fits (ev_path e)) (bundle_entries (rq_evidence r)) ∧
  policy_typed (rq_policy r) ∧ from_option incumbent_fits True (rq_incumbent r) ∧
  Forall u64_fits (rq_occupied_failure_domains r) ∧ expectation_fits (rq_expected r).

(** No optional identifier of the policy is present and zero. *)
Definition optionals_nonzero (v : PlacementPolicy) : Prop :=
  required_locality (pol_locality v) ≠ Some 0 ∧ preferred_locality (pol_locality v) ≠ Some 0 ∧
  required_domain (pol_failure_domains v) ≠ Some 0.

(** The limits that bound 32-bit counts. *)
Definition limits_32 (limits : Limits) : Prop :=
  Forall u32_fits [max_candidate_paths limits; max_capacity_entries limits;
    max_evidence_entries limits; max_occupied_failure_domains limits; max_objectives limits;
    max_policy_id_lists limits; max_affinity_refs limits; max_path_labels limits;
    max_path_reservations limits].

Lemma counted_intro {A} max_count (P : A → Prop) l :
  u32_fits max_count → size l ≤ max_count → Forall P l → counted max_count P l.
Proof. unfold counted, uint_fits. intros. split_and!; [lia|done|done]. Qed.

Lemma clamp32_id limit : u32_fits limit → clamp32 limit = limit.
Proof. unfold clamp32, uint_fits. change (2 ^ 32) with 4294967296. lia. Qed.

Lemma text_intro max_length s :
  u32_fits max_length → string_size s ≤ max_length → text_fits max_length s.
Proof. unfold text_fits, uint_fits. split; [lia|done]. Qed.

Section Valid.
Context (limits : Limits) (r : PlacementRequest).
Context (Hwf : well_formed r limits) (Ht : request_typed r) (Hl : limits_32 limits).

Lemma valid_path_fits p : p ∈ set_paths (rq_candidates r) → path_fits limits p.
Proof.
  intros Hp. destruct Hwf as [He _ _ [Hc _] _ _].
  destruct He as (_ & _ & _ & _ & _ & _ & _ & _ & _ & He).
  destruct Ht as (_ & _ & _ & _ & Hpt & _). rewrite Forall_forall in He, Hc, Hpt.
  destruct (He p Hp) as [Hr1 Hr2], (Hc p Hp) as (_ & _ & Hs1 & Hs2 & _).
  destruct (Hpt p Hp) as (Hf & ? & ? & ? & ? & ?).
  unfold limits_32 in Hl. open_fits.
  unfold path_fits, attributes_fit, tier_fits, enumerator.
  rewrite !Forall_cons, !Forall_nil, clamp32_id by done. split_and!; try done.
  - by apply counted_intro.
  - by apply counted_intro.
Qed.

Lemma valid_policy_fits : optionals_nonzero (rq_policy r) → policy_fits limits (rq_policy r).
Proof.
  intros (Ho1 & Ho2 & Ho3). destruct Hwf as [He _ Hb _ _ _].
  destruct He as (_ & _ & ? & ? & ? & ? & ? & Hobj & Htier & _).
  destruct Hb as (_ & _ & _ & _ & ? & ? & ? & Hids & ? & _).
  destruct Ht as (_ & _ & _ & _ & _ & _ & _ & Hp & _).
  destruct Hp as (Hf & Hf32 & Hobjt & Htiert & ? & ? & ? & ? & Hidst & ?).
  unfold limits_32 in Hl. open_fits.
  unfold policy_fits, locality_fits, failure_domains_fit, affinity_fits, admission_fits,
    service_fits, churn_fits, evidence_policy_fits, optional_fits, enumerator. cbv zeta.
  rewrite !Forall_cons, !Forall_nil, clamp32_id by done.
  split_and!; try done; try (by apply counted_intro).
  - apply counted_intro; [done..|]. rewrite Forall_forall in *. intros o Ho.
    destruct (Hobj o Ho), (Hobjt o Ho). by repeat split.
  - apply counted_intro; [done..|]. rewrite Forall_forall in *. intros t Hin.
    split; [by apply Htier|by apply Htiert].
Qed.

Lemma valid_request_fits : optionals_nonzero (rq_policy r) → request_fits limits r.
Proof.
  intros Ho. pose proof (valid_policy_fits Ho) as Hp. pose proof valid_path_fits as Hpaths.
  destruct Hwf as [He _ Hb _ Hce _].
  destruct He as (? & ? & _). destruct Hb as (? & ? & ? & ? & _ & _ & _ & _ & _ & ? & ?).
  destruct Hce as (_ & _ & Hev & _).
  destruct Ht as (Hf & ? & ? & ? & _ & ? & Hevt & _ & ? & ? & ?).
  unfold limits_32 in Hl. open_fits.
  unfold request_fits, set_fits, snapshot_fits, qos_fits, bundle_fits, provenance_fits, enumerator.
  rewrite !Forall_cons, !Forall_nil, clamp32_id by done.
  split_and!; try done; try (by apply counted_intro); try (by apply text_intro).
  - apply counted_intro; [done..|]. rewrite Forall_forall. apply Hpaths.
  - apply counted_intro; [done..|]. rewrite Forall_forall in *. intros e Hin.
    split; [by apply Hevt|by apply Hev].
Qed.
End Valid.

Definition request_bytes (r : PlacementRequest) : list N := EncodeRequest r [].

(** C26: A request the validator accepts survives the codec, where its fields are
    values of their C++ types, the limits are 32-bit and no optional identifier of the
    policy is present and zero (an optional zero is read back as absent,
    [optional_id_lost]): decoding its encoding returns that request and consumes the whole
    payload. *)
Theorem DecodeRequest_round_trip limits r :
  status_ok (ValidateRequest r limits) = true → request_typed r → limits_32 limits →
  optionals_nonzero (rq_policy r) →
  DecodeRequest limits (mkReader (request_bytes r) 0) =
  Value (r, mkReader (request_bytes r) (length (request_bytes r))).
Proof.
  intros Hv Ht Hl Ho. apply decodes_all_run, DecodeRequest_inverts.
  by apply valid_request_fits; [apply ValidateRequest_ok| | |].
Qed.

Lemma DecodeRequest_round_trip_witness :
  DecodeRequest default_limits (mkReader (request_bytes (Baseline 3 5000)) 0) =
  Value (Baseline 3 5000, mkReader (request_bytes (Baseline 3 5000))
                            (length (request_bytes (Baseline 3 5000)))).
Proof.
  apply DecodeRequest_round_trip.
  - vm_compute. reflexivity.
  - unfold request_typed, path_typed, policy_typed. cbn. rewrite !Forall_cons, !Forall_nil.
    split_and!; try done; by repeat constructor.
  - by repeat constructor.
  - done.
Defined.

(** What the request decoder accepts is bounded and stable.
    On any buffer of bytes, a request [DecodeRequest] returns respects the
    decoder's limits and the ranges of its types, and encoding it and decoding
    it again returns the same request. *)
Theorem DecodeRequest_accepts limits bs v r :
  Forall u8_fits bs → DecodeRequest limits (mkReader bs 0) = Value (v, r) →
  request_fits limits v ∧
  DecodeRequest limits (mkReader (request_bytes v) 0) =
  Value (v, mkReader (request_bytes v) (length (request_bytes v))).
Proof.
  intros Hbs Hr. assert (request_fits limits v) as Hv.
  { apply (accepts_all (DecodeRequest limits) (λ _, request_fits limits) bs v r); try done.
    - apply accepts_request.
    - unfold DecodeRequest. at_end. }
  split; [done|]. by apply decodes_all_run, DecodeRequest_inverts.
Qed.

Lemma DecodeRequest_accepts_witness :
  request_fits default_limits (Baseline 2 5000) ∧
  DecodeRequest default_limits (mkReader (request_bytes (Baseline 2 5000)) 0) =
  Value (Baseline 2 5000, mkReader (request_bytes (Baseline 2 5000))
                            (length (request_bytes (Baseline 2 5000)))).
Proof.
  apply (DecodeRequest_accepts default_limits (request_bytes (Baseline 2 5000)) (Baseline 2 5000)
    (mkReader (request_bytes (Baseline 2 5000)) (length (request_bytes (Baseline 2 5000))))).
  - apply all_u8. vm_compute. reflexivity.
  - vm_compute. reflexivity.
Defined.

(** ** Decisions *)

(** C27: the decision decoder accepts exactly the encodings of
    the decisions that fit.  On any buffer of bytes [DecodeDecision] returns [v]
    if and only if the buffer is the encoding of [v], whose fields fit their
    types and the limits: no byte is ignored and no decision has two
    encodings. *)
Theorem DecodeDecision_canonical limits bs v :
  Forall u8_fits bs →
  (∃ r, DecodeDecision limits (mkReader bs 0) = Value (v, r)) ↔
  bs = EncodeDecision v [] ∧ decision_fits limits v.
Proof.
  intros Hbs. apply (canonical (DecodeDecision limits) EncodeDecision (decision_fits limits)); [apply accepts_decision| |apply DecodeDecision_inverts|done].
  unfold DecodeDecision. at_end.
Qed.

Lemma DecodeDecision_canonical_witness :
  let d := Place default_limits (Baseline 3 5000) in
  (∃ r, DecodeDecision default_limits (mkReader (EncodeDecision d []) 0) = Value (d, r)) ↔
  EncodeDecision d [] = EncodeDecision d [] ∧ decision_fits default_limits d.
Proof.
  cbv zeta. apply DecodeDecision_canonical. apply all_u8. vm_compute. reflexivity.
Defined.

(** ** Store records *)

(** A store record is decoded from exactly its own bytes.
    Followed by anything, the encoding of a fitting attempt record decodes to
    that record and leaves the reader just after it, a placement record decodes
    to itself with the requires-revalidation mark set; and whatever either
    decoder accepts at the start of a buffer of bytes is such an encoding. *)
Theorem store_records_round_trip :
  (∀ v rest, attempt_fits v →
     let data := EncodeAttemptRecord v [] ++ rest in
     DecodeAttemptRecord (mkReader data 0) =
     Value (v, mkReader data (length (EncodeAttemptRecord v [])))) ∧
  (∀ v rest, placement_fits v →
     let data := EncodePlacementRecord v [] ++ rest in
     DecodePlacementRecord (mkReader data 0) =
     Value (unvalidated v, mkReader data (length (EncodePlacementRecord v [])))) ∧
  (∀ data v r, Forall u8_fits data → DecodeAttemptRecord (mkReader data 0) = Value (v, r) →
     attempt_fits v ∧ ∃ rest, data = EncodeAttemptRecord v [] ++ rest) ∧
  (∀ data v r, Forall u8_fits data → DecodePlacementRecord (mkReader data 0) = Value (v, r) →
     placement_fits v ∧ pl_requires_revalidation v = true ∧
     ∃ rest, data = EncodePlacementRecord v [] ++ rest).
Proof.
  split_and!.
  - intros v rest Hv. exact (DecodeAttemptRecord_inverts v Hv (mkReader _ 0) rest eq_refl).
  - intros v rest Hv. exact (DecodePlacementRecord_inverts v Hv (mkReader _ 0) rest eq_refl).
  - intros data v r Hd Hr.
    destruct (accepts_attempt (mkReader data 0) v r Hd) as (bs & rest & Hl & _ & -> & Hv).
    { unfold ok_of. by rewrite Hr. }
    eauto.
  - intros data v r Hd Hr.
    destruct (accepts_placement (mkReader data 0) v r Hd) as (bs & rest & Hl & _ & -> & Hv & Hm).
    { unfold ok_of. by rewrite Hr. }
    eauto.
Qed.

(** ** Values that do not survive *)

Definition with_locality (locality : LocalityConstraint) (p : PlacementPolicy) : PlacementPolicy :=
  mkPolicy (pol_id p) (pol_generation p) (pol_objectives p) (pol_allowed_tiers p)
    (pol_required_labels p) (pol_forbidden_labels p) locality (pol_failure_domains p)
    (pol_reservation_affinity p) (pol_admission p) (pol_service p) (pol_churn p) (pol_evidence p)
    (pol_revalidate_after_nanos p).

(** A request whose policy requires locality 0. *)
Definition locality_zero : PlacementRequest :=
  with_policy (with_locality (mkLocality (Some 0) None []) fixture_policy) (Baseline 3 5000).

(** A required locality of 0 is lost on the wire.  The
    validator accepts a policy that requires locality 0, which no candidate of
    this request has, and the engine finds no legal path; the encoder writes the
    requirement as absent, the decoder returns the request without it, and the
    same engine places that request. *)
Theorem optional_id_lost :
  status_ok (ValidateRequest locality_zero default_limits) = true ∧
  dec_outcome (Place default_limits locality_zero) = Outcome.kPolicyRejected ∧
  ∃ r, DecodeRequest default_limits (mkReader (request_bytes locality_zero) 0) =
       Value (Baseline 3 5000, r) ∧
       dec_outcome (Place default_limits (Baseline 3 5000)) = Outcome.kPlaced.
Proof.
  split; [by vm_compute|]. split; [by vm_compute|]. eexists. split; [|by vm_compute].
  vm_compute. reflexivity.
Qed.

(** Thirteen labels of twenty digits. *)
Definition long_labels : list N := (λ i, 18446744073709551600 + i) <$> indices 13.

(** A policy that requires and forbids the same labels. *)
Definition contradictory : PlacementRequest :=
  with_policy (with_labels long_labels long_labels fixture_policy) (Baseline 3 5000).

(** The engine can produce a decision its own decoder refuses.  For
    a policy that requires and forbids the same thirteen labels the note that
    names them is longer than [max_string_length], which the encoder does not
    look at and the decoder enforces. *)
Theorem oversized_note :
  let d := Place default_limits contradictory in
  dec_outcome d = Outcome.kConflictingInput ∧
  DecodeDecision default_limits (mkReader (EncodeDecision d []) 0) =
  Error (mkStatus StatusCode.kWireMalformed "malformed explanation") ∧
  Exists (λ note, max_string_length default_limits < string_size note) (ex_notes (dec_explanation d)).
Proof.
  cbv zeta. split; [by vm_compute|]. split; [by vm_compute|].
  apply Exists_exists. eexists. split; [vm_compute; by left|by vm_compute].
Qed.
