(* ===== verification/ScenarioTyped.v ===== *)
(** * The requests the parser builds

    Whatever the document, a request built from it holds values of the C++ types,
    and no optional identifier that is present and zero. *)

From Stdlib Require Import String Ascii.
From S2P Require Import Prelude StdAlgo Checked Status Bytes Hash Model ModelDigest Validate.
From S2P Require Import Explain Records Codec CodecFacts CodecExact CodecProps RuntimeState Scenario.

Open Scope string_scope.
Open Scope N_scope.

#[local] Arguments String.append : simpl nomatch.

(** ** What a chain of calls returns *)

Definition gives {A} (m : Arg A) (P : A → Prop) : Prop := ∀ p a p', m p = Value (a, p') → P a.

Lemma gives_ret {A} (a : A) (P : A → Prop) : P a → gives (mret a) P.
Proof. by intros H p a' p' [= <- _]. Qed.

Lemma gives_bind {A B} (m : Arg A) (k : A → Arg B) (P : A → Prop) (Q : B → Prop) :
  gives m P → (∀ a, P a → gives (k a) Q) → gives (m ≫= k) Q.
Proof.
  intros Hm Hk p b p'. unfold mbind, Arg_bind. destruct (m p) as [[a p1]|status] eqn:E; [|done].
  by apply (Hk a), (Hm p a p1).
Qed.

Lemma gives_mono {A} (m : Arg A) (P Q : A → Prop) : gives m P → (∀ a, P a → Q a) → gives m Q.
Proof. intros Hm HPQ p a p' H. by apply HPQ, (Hm p a p'). Qed.

Lemma gives_any {A} (m : Arg A) : gives m (λ _, True).
Proof. done. Qed.

Lemma gives_reject {A} code message (P : A → Prop) : gives (reject code message) P.
Proof. done. Qed.

(** ** Values *)

Lemma ParseU64_fits text n : ParseU64 text = Some n → u64_fits n.
Proof.
  unfold ParseU64. destruct text; [done|]. destruct (digits_value _ _); [|done]. cbn.
  case_match eqn:E; [|done]. intros [= <-]. b2p. unfold uint_fits, uint_max in *. lia.
Qed.

Lemma gives_u64 key required old : u64_fits old → gives (Args.U64 key required old) u64_fits.
Proof.
  intros Ho. eapply gives_bind; [apply gives_any|]. intros [value|] _; [|by apply gives_ret].
  destruct (ParseU64 value) eqn:E; [|done]. by eapply gives_ret, ParseU64_fits.
Qed.

Lemma gives_id key required : gives (Args.Id key required) u64_fits.
Proof. by apply gives_u64. Qed.

Lemma gives_narrowed w n message : gives (narrowed (Narrow w n) message) (uint_fits w).
Proof.
  unfold Narrow. destruct (_ <? _); [done|]. apply gives_ret, wrap_fits.
Qed.

Lemma gives_u32 key required : gives (Args.U32 key required) u32_fits.
Proof.
  eapply gives_bind; [apply gives_any|]. intros raw _. unfold NarrowU32, Narrow.
  destruct (_ <? _); [done|]. apply gives_ret, wrap_fits.
Qed.

Lemma gives_enum {T} key required (parse : string → option T) old (P : T → Prop) :
  P old → (∀ text v, parse text = Some v → P v) → gives (Args.Enum key required parse old) P.
Proof.
  intros Ho Hp. eapply gives_bind; [apply gives_any|]. intros [value|] _; [|by apply gives_ret].
  destruct (parse value) eqn:E; [|done]. by eapply gives_ret, Hp.
Qed.

Lemma parse_parts_all {A} (parse : string → option A) (P : A → Prop) :
  (∀ text a, parse text = Some a → P a) → ∀ parts l, Args.parse_parts parse parts = Some l → Forall P l.
Proof.
  intros Hp. induction parts as [|part parts IH]; cbn; intros l H; [by simplify_eq|].
  destruct (parse part) eqn:E; [|done]. cbn in H. destruct (Args.parse_parts parse parts) eqn:E'; [|done].
  cbn in H. simplify_eq. constructor; [by eapply Hp|by apply IH].
Qed.

Lemma gives_list {A} (parse : string → option A) entries key required max (P : A → Prop) :
  (∀ text a, parse text = Some a → P a) →
  gives (Args.List parse entries key required [] max) (Forall P).
Proof.
  intros Hp. eapply gives_bind; [apply gives_any|]. intros [value|] _; [|apply gives_ret; constructor].
  destruct (SplitCommas value max) as [parts|]; [|done].
  destruct (Args.parse_parts parse parts) eqn:E; [|done]. by eapply gives_ret, parse_parts_all.
Qed.

Lemma gives_ids key required max : gives (Args.IdList key required [] max) (Forall u64_fits).
Proof. apply gives_list, ParseU64_fits. Qed.

Lemma parse_ref_fits text ref : Args.parse_ref text = Some ref → reservation_fits ref.
Proof.
  unfold Args.parse_ref. destruct (cut ":" text) as [[before after]|]; [|done]. cbn.
  destruct (ParseU64 before) eqn:E1; [|done]. destruct (ParseU64 after) eqn:E2; [|done]. cbn.
  intros [= <-]. unfold reservation_fits. cbn. repeat constructor; by eapply ParseU64_fits.
Qed.

Lemma gives_refs key required max :
  gives (Args.RefList key required [] max) (Forall reservation_fits).
Proof. apply gives_list, parse_ref_fits. Qed.

Create HintDb gives.
#[export] Hint Resolve gives_ids gives_refs gives_id gives_u32 gives_narrowed : gives.

(** A name that is parsed stands for a declared enumerator. *)
Lemma parse_enum_value {T} (table : list (string * T)) (ordinal : T → N) (cast : N → T) :
  Forall (λ row, enum_value ordinal cast row.2) table →
  ∀ text v, ParseEnum table text = Some v → enum_value ordinal cast v.
Proof.
  intros Ht text v. unfold ParseEnum. destruct (find _ table) as [row|] eqn:E; [|done].
  intros [= <-]. apply find_some in E as [Hin _]. rewrite Forall_forall in Ht.
  by apply Ht, list_elem_of_In.
Qed.

Ltac declared := apply gives_enum; [done|by apply parse_enum_value; repeat constructor].

Lemma gives_ServiceClass key required :
  gives (Args.Enum key required ParseServiceClass ServiceClass.kBestEffort)
    (enum_value ServiceClass_ordinal ServiceClass_cast).
Proof. declared. Qed.
Lemma gives_PriorityClass key required :
  gives (Args.Enum key required ParsePriorityClass PriorityClass.kNormal)
    (enum_value PriorityClass_ordinal PriorityClass_cast).
Proof. declared. Qed.
Lemma gives_PathTier key required :
  gives (Args.Enum key required ParsePathTier PathTier.kStandard)
    (enum_value PathTier_ordinal PathTier_cast).
Proof. declared. Qed.
Lemma gives_LocalityScope key required :
  gives (Args.Enum key required ParseLocalityScope LocalityScope.kNode)
    (enum_value LocalityScope_ordinal LocalityScope_cast).
Proof. declared. Qed.
Lemma gives_EvidencePolicyMode key required :
  gives (Args.Enum key required ParseEvidencePolicyMode EvidencePolicyMode.kHardExclude)
    (enum_value EvidencePolicyMode_ordinal EvidencePolicyMode_cast).
Proof. declared. Qed.
Lemma gives_GateAction key required :
  gives (Args.Enum key required ParseGateAction GateAction.kPlace)
    (enum_value GateAction_ordinal GateAction_cast).
Proof. declared. Qed.
Lemma gives_ChurnAction key required :
  gives (Args.Enum key required ParseChurnAction ChurnAction.kAllowMove)
    (enum_value ChurnAction_ordinal ChurnAction_cast).
Proof. declared. Qed.

#[export] Hint Resolve gives_ServiceClass gives_PriorityClass gives_PathTier gives_LocalityScope
  gives_EvidencePolicyMode gives_GateAction gives_ChurnAction : gives.

(** ** Directives *)

(** Runs a chain of calls: each value is in the range of its call. *)
Ltac give_step :=
  first [eapply gives_bind; [solve [eauto with gives nocore|apply gives_u64; done]|intros]
        |eapply gives_bind; [apply gives_any|intros]].
Ltac give := repeat give_step; apply gives_ret.

Definition pair_typed (pair : N * N) : Prop := u64_fits pair.1 ∧ u64_fits pair.2.

Lemma pair_gives : gives pair_arguments pair_typed.
Proof. unfold pair_arguments. give. by split. Qed.

Lemma finished_pair_gives : gives finished_pair pair_typed.
Proof. unfold finished_pair. eapply gives_bind; [apply pair_gives|]. intros pair Hp. by give. Qed.

Lemma path_gives limits : gives (path_arguments limits) path_typed.
Proof.
  unfold path_arguments. give. unfold path_typed. cbn. rewrite !Forall_cons, Forall_nil. by split_and!.
Qed.

Lemma entry_gives : gives entry_arguments capacity_fits.
Proof. unfold entry_arguments. give. by repeat constructor. Qed.

Definition qos_typed (v : QosProfile) : Prop :=
  Forall u64_fits [qos_id v; qos_generation v; qos_required_residual_bytes v;
    qos_max_latency_nanos v] ∧
  enum_value ServiceClass_ordinal ServiceClass_cast (qos_service_class v) ∧
  enum_value PriorityClass_ordinal PriorityClass_cast (qos_priority v).

Lemma qos_gives : gives qos_arguments qos_typed.
Proof. unfold qos_arguments. give. split; [by repeat constructor|done]. Qed.

Lemma util_gives : gives util_arguments (λ e, u64_fits (ev_path e)).
Proof. unfold util_arguments. by give. Qed.

Lemma incumbent_gives : gives incumbent_arguments incumbent_fits.
Proof.
  unfold incumbent_arguments. give. unfold incumbent_fits. cbn. rewrite !Forall_cons, Forall_nil.
  split_and!; try done. destruct a8 as [|ref refs]; [by repeat constructor|]. by eapply Forall_inv.
Qed.

Lemma occupied_gives limits : gives (occupied_arguments limits) (Forall u64_fits).
Proof. unfold occupied_arguments. by give. Qed.

Lemma expected_gives : gives expected_arguments expectation_fits.
Proof. unfold expected_arguments. give. by repeat constructor. Qed.

Lemma provenance_gives : gives provenance_arguments
  (λ p, u64_fits (prov_source_sequence p) ∧ i64_fits (prov_observer_unix_nanos p)).
Proof. unfold provenance_arguments. give. split; [done|by apply i64_of_u64_fits]. Qed.

Lemma attempt_gives : gives attempt_arguments u64_fits.
Proof. unfold attempt_arguments. by give. Qed.

(** ** The policy *)

Definition objective_typed (o : Objective) : Prop :=
  enum_value ObjectiveKind_ordinal ObjectiveKind_cast (obj_kind o) ∧
  enum_value Direction_ordinal Direction_cast (obj_direction o).

Lemma objectives_give parts : gives (objectives_of parts) (Forall objective_typed).
Proof.
  induction parts as [|part parts IH]; cbn [objectives_of]; [apply gives_ret; constructor|].
  destruct (cut ":" part) as [[before after]|]; [|done].
  destruct (ParseObjectiveKind before) eqn:E1; [|apply gives_reject].
  destruct (ParseDirection after) eqn:E2; [|apply gives_reject].
  eapply gives_bind; [exact IH|]. intros objectives Ho. apply gives_ret. constructor; [|done].
  split; [revert E1|revert E2]; by apply parse_enum_value; repeat constructor.
Qed.

Lemma ParseObjectives_gives text max : gives (ParseObjectives text max) (Forall objective_typed).
Proof.
  unfold ParseObjectives. destruct (SplitCommas text max) as [[|part parts]|]; [done| |done].
  apply objectives_give.
Qed.

Lemma tiers_give parts :
  gives (tiers_of parts) (Forall (enum_value PathTier_ordinal PathTier_cast)).
Proof.
  induction parts as [|part parts IH]; cbn [tiers_of]; [apply gives_ret; constructor|].
  destruct (ParsePathTier part) eqn:E; [|done].
  eapply gives_bind; [exact IH|]. intros tiers Ht. apply gives_ret. constructor; [|done].
  revert E. by apply parse_enum_value; repeat constructor.
Qed.

Lemma ParseTierList_gives text :
  gives (ParseTierList text) (Forall (enum_value PathTier_ordinal PathTier_cast)).
Proof. unfold ParseTierList. destruct (SplitCommas text 3); [|done]. apply tiers_give. Qed.

Definition optional_typed (v : option N) : Prop := u64_fits (optional_value v) ∧ v ≠ Some 0.

Lemma optional_gives key : gives (optional_id key) optional_typed.
Proof.
  unfold optional_id. give. destruct (valid a) eqn:E; split; try done. by intros [= ->].
Qed.

#[export] Hint Resolve optional_gives ParseTierList_gives ParseObjectives_gives : gives.

Definition locality_typed (v : LocalityConstraint) : Prop :=
  optional_typed (required_locality v) ∧ optional_typed (preferred_locality v) ∧
  Forall u64_fits (forbidden_localities v).

Definition lists_typed
    (v : list Objective * list PathTier * list N * list N * LocalityConstraint) : Prop :=
  let '(objectives, tiers, required_labels, forbidden_labels, locality) := v in
  Forall objective_typed objectives ∧ Forall (enum_value PathTier_ordinal PathTier_cast) tiers ∧
  Forall u64_fits required_labels ∧ Forall u64_fits forbidden_labels ∧ locality_typed locality.

Lemma lists_give limits : gives (policy_lists limits) lists_typed.
Proof.
  unfold policy_lists. eapply gives_bind; [apply gives_any|]. intros text _.
  eapply gives_bind with (P := Forall objective_typed).
  { destruct text; [eauto with gives|apply gives_ret; constructor]. }
  intros objectives Ho. eapply gives_bind; [apply gives_any|]. intros tiers_text _.
  eapply gives_bind with (P := Forall (enum_value PathTier_ordinal PathTier_cast)).
  { destruct tiers_text; [eauto with gives|apply gives_ret; constructor]. }
  intros tiers Ht. give. by split_and!.
Qed.

Definition domains_typed (v : FailureDomainConstraint) : Prop :=
  optional_typed (required_domain v) ∧ Forall u64_fits (forbidden_domains v) ∧
  u32_fits (min_distinct_domains v).

Lemma domains_give limits : gives (domain_arguments limits) domains_typed.
Proof. unfold domain_arguments. give. by split_and!. Qed.

Lemma affinity_gives limits :
  gives (affinity_arguments limits) (λ v, Forall reservation_fits (affinity_refs v)).
Proof. unfold affinity_arguments. by give. Qed.

Lemma admission_gives : gives admission_arguments
  (λ v, u64_fits (min_residual_headroom_bytes v) ∧
        enum_value GateAction_ordinal GateAction_cast (on_below v)).
Proof. unfold admission_arguments. by give. Qed.

Lemma churn_gives : gives churn_arguments
  (λ v, enum_value ChurnAction_ordinal ChurnAction_cast (on_move v) ∧
        u64_fits (move_improvement_threshold v) ∧ u32_fits (threshold_objective_index v)).
Proof. unfold churn_arguments. by give. Qed.

Lemma evidence_policy_gives : gives evidence_policy_arguments
  (λ v, enum_value EvidencePolicyMode_ordinal EvidencePolicyMode_cast (on_missing v) ∧
        enum_value EvidencePolicyMode_ordinal EvidencePolicyMode_cast (on_stale v)).
Proof. unfold evidence_policy_arguments. by give. Qed.

#[export] Hint Resolve pair_gives lists_give domains_give affinity_gives admission_gives churn_gives
  evidence_policy_gives : gives.

Lemma policy_gives limits :
  gives (policy_arguments limits) (λ v, policy_typed v ∧ optionals_nonzero v).
Proof.
  unfold policy_arguments. repeat give_step.
  match goal with H : lists_typed ?lists |- _ => destruct lists as [[[[objectives tiers] rl] fl] locality] end.
  unfold pair_typed, lists_typed, locality_typed, domains_typed, optional_typed in *. apply gives_ret.
  destruct_and!. unfold policy_typed, optionals_nonzero. cbn. rewrite !Forall_cons, !Forall_nil. by split_and!.
Qed.

(** ** Documents *)

Definition scenario_typed (s : ScenarioState) : Prop :=
  request_typed (sn_request s) ∧ optionals_nonzero (rq_policy (sn_request s)).

Lemma ScenarioState_init_typed : scenario_typed ScenarioState_init.
Proof.
  split; [|by split_and!]. unfold request_typed, policy_typed. cbn.
  rewrite !Forall_cons, !Forall_nil. split_and!; try done; by repeat constructor.
Qed.

(** The values of a directive go to a request that stays typed. *)
Definition keeps_typed {A} (P : A → Prop) (f : A → PlacementRequest → PlacementRequest) : Prop :=
  ∀ a r, P a → request_typed r ∧ optionals_nonzero (rq_policy r) →
  request_typed (f a r) ∧ optionals_nonzero (rq_policy (f a r)).

Lemma take_typed {A} (arguments : Arg A) P f p s s' : gives arguments P → keeps_typed P f →
  scenario_typed s → take_arguments arguments f p s = Value s' → scenario_typed s'.
Proof.
  intros Hg Hf Hs. unfold take_arguments. destruct (arguments p) as [[a p']|] eqn:E; [|done].
  intros [= <-]. apply Hf; [by eapply Hg|done].
Qed.

Lemma once_typed {A} (arguments : Arg A) P f p s s' : gives arguments P → keeps_typed P f →
  scenario_typed s → declare_once arguments f p s = Value s' → scenario_typed s'.
Proof.
  intros Hg Hf Hs. unfold declare_once. destruct (have _ s); [done|].
  destruct (take_arguments arguments f p s) as [s1|] eqn:E; [|done]. intros [= <-].
  by apply (take_typed _ _ _ _ _ _ Hg Hf Hs E).
Qed.

Ltac keeps :=
  intros a r Ha [Hr Ho]; split; [|first [done|by apply Ha]];
  unfold request_typed, pair_typed, qos_typed in *; cbn in *;
  rewrite ?Forall_cons, ?Forall_nil in *; destruct_and?; split_and!;
  try done; try (by apply Forall_app_2; [|by apply Forall_singleton]).

Lemma flow_kept : keeps_typed pair_typed (λ a, rq_with_flow (fst a) (snd a)).
Proof. keeps. Qed.
Lemma candidates_kept : keeps_typed pair_typed
  (λ a r, rq_with_candidates (mkCandidateSet (fst a) (snd a) (set_paths (rq_candidates r))) r).
Proof. keeps. Qed.
Lemma path_kept : keeps_typed path_typed set_paths_with.
Proof. keeps. Qed.
Lemma capacity_kept : keeps_typed pair_typed
  (λ a r, rq_with_capacity (mkSnapshot (fst a) (snd a) (snap_entries (rq_capacity r))) r).
Proof. keeps. Qed.
Lemma entry_kept : keeps_typed capacity_fits snap_entries_with.
Proof. keeps. Qed.
Lemma qos_kept : keeps_typed qos_typed rq_with_qos.
Proof. keeps. Qed.
Lemma evidence_kept : keeps_typed pair_typed
  (λ a r, rq_with_evidence (mkBundle (fst a) (snd a) (bundle_entries (rq_evidence r))) r).
Proof. keeps. Qed.
Lemma util_kept : keeps_typed (λ e, u64_fits (ev_path e)) bundle_entries_with.
Proof. keeps. Qed.
Lemma policy_kept : keeps_typed (λ v, policy_typed v ∧ optionals_nonzero v) rq_with_policy.
Proof. keeps. Qed.
Lemma incumbent_kept : keeps_typed incumbent_fits rq_with_incumbent.
Proof. keeps. Qed.
Lemma occupied_kept : keeps_typed (Forall u64_fits) rq_with_occupied.
Proof. keeps. Qed.
Lemma expected_kept : keeps_typed expectation_fits rq_with_expected.
Proof. keeps. Qed.
Lemma provenance_kept : keeps_typed
  (λ p, u64_fits (prov_source_sequence p) ∧ i64_fits (prov_observer_unix_nanos p)) rq_with_provenance.
Proof. keeps. Qed.
Lemma attempt_kept : keeps_typed u64_fits rq_with_attempt.
Proof. keeps. Qed.

#[export] Hint Resolve finished_pair_gives path_gives entry_gives qos_gives util_gives policy_gives
  incumbent_gives occupied_gives expected_gives provenance_gives attempt_gives
  flow_kept candidates_kept path_kept capacity_kept entry_kept qos_kept evidence_kept util_kept
  policy_kept incumbent_kept occupied_kept expected_kept provenance_kept attempt_kept : gives.

Lemma ParseDirective_typed limits p s s' : scenario_typed s →
  ParseDirective limits p s = Value s' → scenario_typed s'.
Proof.
  intros Hs. unfold ParseDirective.
  repeat (match goal with
          | |- (if String.eqb _ _ then _ else _) = _ → _ => destruct (String.eqb _ _)
          | |- (if negb (have _ _) then _ else _) = _ → _ => destruct (have _ _); cbn [negb]
          | |- (if _ <=? _ then _ else _) = _ → _ => destruct (_ <=? _)
          end; try done);
  first [eapply once_typed|eapply take_typed]; eauto with gives nocore.
Qed.

Lemma ParseLine_typed limits number line s s' : scenario_typed s →
  ParseLine limits number line s = Value s' → scenario_typed s'.
Proof.
  intros Hs. unfold ParseLine. destruct (_ <? _); [done|].
  destruct (SplitWhitespace _) as [|directive tokens]; [by intros [= <-]|].
  destruct (String.eqb directive "version").
  - unfold ParseVersion. intros H. repeat case_match; by simplify_eq.
  - destruct (negb _); [done|]. by apply ParseDirective_typed.
Qed.

Lemma ParseLines_typed limits lines : ∀ number s s', scenario_typed s →
  ParseLines limits number lines s = Value s' → scenario_typed s'.
Proof.
  induction lines as [|line lines IH]; intros number s s' Hs; cbn [ParseLines]; [by intros [= <-]|].
  destruct (ParseLine limits number line s) as [s1|] eqn:E; [|done].
  by apply IH, (ParseLine_typed _ _ _ _ _ Hs E).
Qed.

(** A request built from a document holds values of the C++ types. *)
Lemma ParseScenario_typed text limits r : ParseScenario text limits = Value r →
  request_typed r ∧ optionals_nonzero (rq_policy r).
Proof.
  unfold ParseScenario. destruct (_ <? _); [done|].
  destruct (ParseLines _ _ _ _) as [s|] eqn:E; [|done]. destruct (find _ _); [done|].
  intros [= <-]. by apply (ParseLines_typed _ _ _ _ _ ScenarioState_init_typed E).
Qed.
