(* ===== verification/CommandLineFacts.v ===== *)
(** * Facts about the command line

    The chunks of a file add up to the file, the provenance of a parsed request is
    written in words, and the request of a worker stays valid. *)

From Stdlib Require Import String Ascii.
From S2P Require Import Prelude StdAlgo Checked Status Bytes Hash Model ModelDigest Validate.
From S2P Require Import Explain Records Codec CodecFacts CodecProps Wire WireFacts Transport RuntimeState.
From S2P Require Import ServerState Server.
From S2P Require Import Scenario ScenarioText ScenarioLines ScenarioDocument.
From S2P Require Import ScenarioTyped CommandLine.

Open Scope string_scope.
Open Scope N_scope.

#[local] Arguments String.append : simpl nomatch.

(** ** Files *)

Lemma substring_split n s : ∀ m, (String.length s ≤ m)%nat →
  String.substring 0 n s ++ String.substring n (m - n) s = s.
Proof.
  revert n. induction s as [|c s IH]; intros n m Hm; [by destruct n, (m - _)%nat|].
  destruct n as [|n].
  - destruct m as [|m]; [cbn in Hm; lia|].
    specialize (IH 0%nat m ltac:(cbn in Hm; lia)). rewrite Nat.sub_0_r in IH.
    replace (String.substring 0 0 s) with "" in IH by (by destruct s).
    change (String c (String.substring 0 m s) = String c s). by f_equal.
  - destruct m as [|m]; [cbn in Hm; lia|].
    change (String c (String.substring 0 n s ++ String.substring n (m - n) s) = String c s).
    f_equal. apply IH. cbn in Hm. lia.
Qed.

Lemma substring_length n : ∀ s, String.length (String.substring 0 n s) = Nat.min n (String.length s).
Proof. induction n as [|n IH]; intros [|c s]; cbn; [done..|]. by rewrite IH. Qed.

Lemma string_size_app a b : string_size (a ++ b) = string_size a + string_size b.
Proof. unfold string_size. induction a; cbn [String.append String.length] in *; lia. Qed.

(** The chunks are read to the end, and what was read is compared with the bound. *)
Lemma read_chunks_all path max_bytes rounds : ∀ file text,
  string_size file < 65536 * N.of_nat rounds →
  read_chunks rounds path max_bytes file text =
  if max_bytes <? string_size (text ++ file) then
    Error (mkStatus StatusCode.kOversizeRequest (path ++ " exceeds the maximum scenario size"))
  else Value (text ++ file).
Proof.
  assert (N.of_nat kReadChunk = 65536) as Hchunk by (by vm_compute).
  induction rounds as [|rounds IH]; intros file text Hr; [lia|]. cbn [read_chunks].
  pose proof (substring_split kReadChunk file (String.length file) ltac:(lia)) as Hs.
  pose proof (substring_length kReadChunk file) as Hl.
  revert Hs Hl. generalize (String.substring 0 kReadChunk file) as chunk.
  generalize (String.substring kReadChunk (String.length file - kReadChunk) file) as others.
  intros others chunk Hs Hl. subst file.
  rewrite <-!string_app_assoc. rewrite string_size_app in Hr.
  rewrite !(string_size_app (_ ++ chunk)). set (read := string_size (text ++ chunk)).
  destruct (N.ltb_spec max_bytes read).
  { by rewrite (proj2 (N.ltb_lt _ _)) by lia. }
  destruct (N.ltb_spec (string_size chunk) 65536) as [Hshort|Hfull].
  - destruct others as [|c others].
    { change (string_size "") with 0. rewrite string_app_nil, (proj2 (N.ltb_ge _ _)); [done|lia]. }
    exfalso. pose proof (string_size_app chunk (String c others)) as Hsum.
    unfold string_size in Hshort, Hsum. cbn [String.length] in Hsum.
    revert Hchunk Hl. generalize kReadChunk as bound. intros bound ??. lia.
  - rewrite IH, string_size_app; [done|]. lia.
Qed.

Lemma ReadFile_all path max_bytes env file : env_files env path = Some file →
  ReadFile path max_bytes env =
  if max_bytes <? string_size file then
    Error (mkStatus StatusCode.kOversizeRequest (path ++ " exceeds the maximum scenario size"))
  else Value file.
Proof.
  intros Hf. unfold ReadFile. rewrite Hf, read_chunks_all; [done|].
  rewrite Nat2N.inj_succ, N2Nat.id. pose proof (N.mod_lt (string_size file) 65536).
  pose proof (N.div_mod (string_size file) 65536). lia.
Qed.

(** What a scenario file is loaded as. *)
Lemma LoadScenario_parses args env path request :
  LoadScenario args env = Value (path, request) ↔
  path = Get "scenario" "" args ∧ path ≠ "" ∧
  ∃ file, env_files env path = Some file ∧ ParseScenario file default_limits = Value request.
Proof.
  unfold LoadScenario. destruct (String.eqb_spec (Get "scenario" "" args) "") as [He|He].
  { split; [done|]. intros (-> & Hne & _). done. }
  destruct (env_files env (Get "scenario" "" args)) as [file|] eqn:Hf.
  - rewrite (ReadFile_all _ _ _ _ Hf). destruct (N.ltb_spec kMaxScenarioBytes (string_size file)) as [Hs|Hs].
    + split; [done|]. intros (-> & _ & file' & Hf' & Hp). rewrite Hf in Hf'. injection Hf' as <-.
      unfold ParseScenario in Hp. by rewrite (proj2 (N.ltb_lt _ _) Hs) in Hp.
    + destruct (ParseScenario file default_limits) as [r|] eqn:Hp.
      * split; [intros [= <- <-]; split_and!; [done..|by exists file]|].
        intros (-> & _ & file' & Hf' & Hp'). rewrite Hf in Hf'. injection Hf' as <-. congruence.
      * split; [done|]. intros (-> & _ & file' & Hf' & Hp'). rewrite Hf in Hf'.
        injection Hf' as <-. congruence.
  - unfold ReadFile. rewrite Hf. split; [done|]. by intros (-> & _ & file & Hf' & _); rewrite Hf in Hf'.
Qed.

(** ** The provenance of a parsed request *)

Lemma split_words_plain text : text_all (not_char "#") text = true →
  text_all plain_char (split_words text).1 = true ∧ Forall is_word (split_words text).2.
Proof.
  induction text as [|c text IH]; [by repeat constructor|]. intros [Hc Ht]%andb_prop.
  destruct (IH Ht) as [Hw Hws]. cbn [split_words]. destruct (split_words text) as [word words].
  cbn [fst snd] in *. destruct (is_space c) eqn:Hs; cbn [fst snd].
  - split; [done|]. destruct word as [|d word]; [done|]. by constructor.
  - split; [|done]. apply andb_true_intro. split; [|done]. unfold plain_char. by rewrite Hs.
Qed.

Lemma without_comment_plain line : text_all (not_char "#") (without_comment line) = true.
Proof.
  unfold without_comment. induction line as [|c line IH]; [done|]. cbn [cut].
  destruct (Ascii.eqb c "#") eqn:Hc; [done|]. destruct (cut "#" line) as [[before after]|];
    cbn [mbind option_bind text_all] in *; apply andb_true_intro; (split; [|done]);
    unfold not_char; by rewrite Hc.
Qed.

Lemma line_words line : Forall is_word (SplitWhitespace (without_comment line)).
Proof.
  pose proof (split_words_plain _ (without_comment_plain line)) as H. unfold SplitWhitespace.
  destruct (split_words _) as [word words]. cbn [fst snd] in H. destruct H as [Hw Hws].
  destruct word; [done|]. by constructor.
Qed.

(** The values of the arguments are words. *)
Definition worded (args : list Argument) : Prop := Forall (λ a, is_word (arg_value a)) args.

Lemma collect_worded n : ∀ tokens args, (length tokens ≤ n)%nat → Forall is_word tokens →
  worded args → worded (collect_arguments tokens args).1.
Proof.
  induction n as [|n IH]; intros tokens args Hn Ht Ha;
    [by destruct tokens; [|cbn in Hn; lia]|].
  destruct Ht as [|key tokens Hk [|value tokens' Hv Ht]]; [done..|]. cbn [collect_arguments].
  destruct (existsb _ args); [done|]. apply IH; [cbn in Hn; lia|done|].
  apply Forall_app_2; [done|]. by apply Forall_singleton.
Qed.

Lemma ArgParser_worded directive tokens number : Forall is_word tokens →
  worded (ap_args (ArgParser_init directive tokens number)).
Proof.
  intros Ht. unfold ArgParser_init. destruct (negb _); [constructor|]. destruct (_ <? _); [constructor|].
  pose proof (collect_worded _ tokens [] (le_n _) Ht (Forall_nil_2 _)) as H.
  by destruct (collect_arguments tokens []).
Qed.

Lemma consume_worded key : ∀ args value args', worded args →
  consume key args = Some (value, args') → is_word value ∧ worded args'.
Proof.
  induction args as [|entry args IH]; [done|]. intros value args' Ha. inversion_clear Ha as [|?? Hw Hs].
  cbn [consume]. destruct (String.eqb _ key).
  - intros [= <- <-]. split; [done|]. by constructor.
  - destruct (consume key args) as [[value' args'']|]; [|done]. cbn.
    intros [= <- <-]. destruct (IH _ _ Hs eq_refl). split; [done|]. by constructor.
Qed.

Lemma Text_worded key max p text p' : worded (ap_args p) →
  Args.Text key true "" max p = Value (text, p') → is_word text ∧ worded (ap_args p').
Proof.
  intros Hp. unfold Args.Text, Args.Find, mbind, Arg_bind.
  destruct (consume key (ap_args p)) as [[value args]|] eqn:E; [|done].
  destruct (consume_worded _ _ _ _ Hp E) as [Hv Ha]. destruct (_ <? _); [done|].
  by intros [= <- <-].
Qed.

(** Nothing, as where the directive is missing, or two words. *)
Definition provenance_worded (v : Provenance) : Prop :=
  v = rq_provenance (sn_request ScenarioState_init) ∨
  is_word (prov_producer v) ∧ is_word (prov_producer_version v).

Lemma provenance_arguments_worded p v p' : worded (ap_args p) →
  provenance_arguments p = Value (v, p') → provenance_worded v.
Proof.
  intros Hp. unfold provenance_arguments. unfold mbind at 1, Arg_bind.
  destruct (Args.Text "producer" _ _ _ p) as [[producer p1]|] eqn:E1; [|done].
  destruct (Text_worded _ _ _ _ _ Hp E1) as [Hw1 Hp1]. unfold mbind at 1, Arg_bind.
  destruct (Args.Text "version" _ _ _ p1) as [[version p2]|] eqn:E2; [|done].
  destruct (Text_worded _ _ _ _ _ Hp1 E2) as [Hw2 _]. unfold mbind, Arg_bind.
  repeat (match goal with |- context [match ?m with _ => _ end] => destruct m as [[??]|]; [|done] end).
  intros [= <- _]. by right.
Qed.

Lemma ParseDirective_worded limits p s s' : worded (ap_args p) →
  provenance_worded (rq_provenance (sn_request s)) → ParseDirective limits p s = Value s' →
  provenance_worded (rq_provenance (sn_request s')).
Proof.
  assert (∀ {A} (arguments : Arg A) f s1,
    (∀ a r, rq_provenance (f a r) = rq_provenance r) →
    provenance_worded (rq_provenance (sn_request s)) →
    take_arguments arguments f p s = Value s1 → provenance_worded (rq_provenance (sn_request s1)))
    as Htake.
  { intros A arguments f s1 Hf Hs. unfold take_arguments.
    destruct (arguments p) as [[a p']|]; [|done]. intros [= <-]. cbn [sn_request]. by rewrite Hf. }
  assert (∀ {A} (arguments : Arg A) f s1,
    (∀ a r, rq_provenance (f a r) = rq_provenance r) →
    provenance_worded (rq_provenance (sn_request s)) →
    declare_once arguments f p s = Value s1 → provenance_worded (rq_provenance (sn_request s1)))
    as Honce.
  { intros A arguments f s1 Hf Hs. unfold declare_once. destruct (have _ s); [done|].
    destruct (take_arguments arguments f p s) as [s2|] eqn:E; [|done]. intros [= <-].
    by apply (Htake _ _ _ _ Hf Hs E). }
  intros Hp Hs. unfold ParseDirective.
  repeat (match goal with
          | |- (if String.eqb _ "provenance" then _ else _) = _ → _ => fail 1
          | |- (if String.eqb _ _ then _ else _) = _ → _ => destruct (String.eqb _ _)
          | |- (if negb (have _ _) then _ else _) = _ → _ => destruct (have _ _); cbn [negb]
          | |- (if _ <=? _ then _ else _) = _ → _ => destruct (_ <=? _)
          end; try done; try (by apply Honce); try (by apply Htake)).
  destruct (String.eqb _ "provenance"); [|destruct (String.eqb _ _); [by apply Honce|done]].
  unfold declare_once, take_arguments. destruct (have _ s); [done|].
  destruct (provenance_arguments p) as [[v p']|] eqn:E; [|done]. intros [= <-].
  by apply (provenance_arguments_worded _ _ _ Hp E).
Qed.

Lemma ParseLines_worded limits lines : ∀ number s s',
  provenance_worded (rq_provenance (sn_request s)) → ParseLines limits number lines s = Value s' →
  provenance_worded (rq_provenance (sn_request s')).
Proof.
  induction lines as [|line lines IH]; intros number s s' Hs; cbn [ParseLines]; [by intros [= <-]|].
  destruct (ParseLine limits number line s) as [s1|] eqn:E; [|done]. apply IH. revert E.
  unfold ParseLine. destruct (_ <? _); [done|]. pose proof (line_words line) as Hw.
  destruct (SplitWhitespace _) as [|directive tokens]; [by intros [= <-]|].
  destruct (String.eqb directive "version").
  - unfold ParseVersion. intros H. repeat case_match; by simplify_eq.
  - destruct (negb _); [done|]. apply ParseDirective_worded; [|done].
    apply ArgParser_worded. by inversion_clear Hw.
Qed.

Lemma ParseScenario_worded text limits r : ParseScenario text limits = Value r →
  provenance_worded (rq_provenance r).
Proof.
  unfold ParseScenario. destruct (_ <? _); [done|].
  destruct (ParseLines _ _ _ _) as [s|] eqn:E; [|done]. destruct (find _ _); [done|].
  intros [= <-]. eapply ParseLines_worded; [|exact E]. by left.
Qed.

(** ** What is rendered of a parsed request *)

(** The provenance as the rendering has it: an empty name is a dash. *)
Definition dashed (v : Provenance) : Provenance :=
  mkProvenance (dash_if_empty (prov_producer v)) (dash_if_empty (prov_producer_version v))
    (prov_source_sequence v) (prov_observer_unix_nanos v).

Definition named (r : PlacementRequest) : PlacementRequest :=
  rq_with_provenance (dashed (rq_provenance r)) r.

Lemma named_lines r : scenario_lines (named r) = scenario_lines r.
Proof.
  assert (∀ s, dash_if_empty (dash_if_empty s) = dash_if_empty s) as Hd by (by intros []).
  unfold scenario_lines, write_provenance. cbn. by rewrite !Hd.
Qed.

Lemma named_same r : prov_producer (rq_provenance r) ≠ "" → provenance_worded (rq_provenance r) →
  named r = r.
Proof.
  intros Hne [He|[Hp Hv]]; [by rewrite He in Hne|]. unfold named, dashed.
  rewrite !word_not_dashed by done. destruct r as [? ? ? ? ? ? ? ? ? ? [] ?]. done.
Qed.

Lemma named_fits limits r : request_fits limits r → request_fits limits (named r).
Proof.
  unfold request_fits, named. cbn. intros H. destruct_and!. split_and!; try done.
  assert (∀ s, text_fits kMaxProvenanceFieldLength s →
    text_fits kMaxProvenanceFieldLength (dash_if_empty s)) as Hd.
  { intros [|c s]; [|done]. intros _. by vm_compute. }
  unfold provenance_fits in *. destruct_and!. cbn. split_and!; try done; by apply Hd.
Qed.

Lemma named_plain r : provenance_worded (rq_provenance r) →
  (0 ≤ prov_observer_unix_nanos (rq_provenance r))%Z → provenance_plain (rq_provenance (named r)).
Proof.
  intros Hw Ho. unfold named, dashed, provenance_plain. cbn. revert Ho.
  destruct Hw as [->|[Hp Hv]]; [by repeat constructor|]. by rewrite !word_not_dashed.
Qed.

(** A valid reservation of an incumbent is read back. *)
Lemma valid_reservation_kept i : incumbent_ok i → reservation_kept i.
Proof.
  intros [_ Hp]. unfold reservation_kept, ReservationRef_valid, valid, paired in *.
  destruct (inc_reservation i) as [id generation]. cbn in *.
  destruct (N.eqb_spec id 0) as [->|Hi], (N.eqb_spec generation 0) as [->|Hg]; cbn; try tauto.
Qed.

(** Parsing what is rendered of a valid parsed request gives the request, an empty
    provenance aside. *)
Lemma parsed_writable text r :
  ParseScenario text default_limits = Value r →
  status_ok (ValidateRequest r default_limits) = true →
  (0 ≤ prov_observer_unix_nanos (rq_provenance r))%Z →
  Forall (λ line, string_size line ≤ kMaxScenarioLineBytes) (scenario_lines r) →
  string_size (WriteScenario r) ≤ kMaxScenarioBytes →
  writable default_limits (named r).
Proof.
  intros Hp Hv Ho Hl Hd. pose proof (ParseScenario_worded _ _ _ Hp) as Hw.
  apply ParseScenario_typed in Hp as [Ht Hopt]. pose proof Hv as Hwf%ValidateRequest_ok.
  constructor.
  - apply named_fits, valid_request_fits; [done|done| |done]. by repeat constructor.
  - by apply named_plain.
  - cbn. destruct Hwf as [_ (_ & _ & Hi) _ _ _ _].
    destruct (rq_incumbent r); [by apply valid_reservation_kept|done].
  - by rewrite named_lines.
  - unfold WriteScenario. by rewrite named_lines.
Qed.

(** ** The frames of a worker *)

(** The request of a round. *)
Definition round_request (request : PlacementRequest) (epoch attempt : N) : PlacementRequest :=
  rq_with_attempt attempt
    (rq_with_expected (exp_with_epoch epoch (rq_expected request)) request).

Lemma round_well_formed limits r epoch attempt : well_formed r limits → epoch ≠ 0 →
  well_formed (round_request r epoch attempt) limits.
Proof.
  intros [He Hg Hb Hc Hce Hp] Hepoch. constructor; [exact He| |exact Hb|exact Hc|exact Hce|exact Hp].
  destruct Hg as [Hd Hg]. split; [|exact Hg]. revert Hd. unfold declared_ids. cbn.
  rewrite !Forall_cons. tauto.
Qed.

Lemma round_typed r epoch attempt : request_typed r → u64_fits epoch → u64_fits attempt →
  request_typed (round_request r epoch attempt).
Proof.
  unfold request_typed, expectation_fits. cbn. rewrite !Forall_cons. tauto.
Qed.

(** ** The rounds of a worker *)

Definition counted_rounds (c : WorkerCounts) : N :=
  wc_committed c + wc_rejected c + wc_fenced c + wc_other c.

(** A reply is counted once. *)
Lemma count_reply_one reply c c' : counted_rounds c < uint_max 64 →
  count_reply reply c = inr c' → counted_rounds c' = counted_rounds c + 1.
Proof.
  unfold counted_rounds. intros Hc.
  assert (∀ n, n ≤ wc_committed c + wc_rejected c + wc_fenced c + wc_other c → wrap 64 (n + 1) = n + 1)
    as Hw.
  { intros n Hn. apply wrap_small. unfold uint_fits, uint_max in *. lia. }
  unfold count_reply. destruct (fr_kind reply); try done.
  - destruct (DecodePlaceResult _ _) as [[result ?]|]; [|done]. intros [= <-].
    unfold count_state. destruct (pres_state result); cbn; rewrite Hw; lia.
  - destruct (DecodeErrorPayload _) as [[error ?]|]; [|done]. intros [= <-].
    unfold count_error. destruct (StatusCode_eqb _ _); cbn; rewrite Hw; lia.
Qed.

Lemma worker_rounds_count strerror request epoch worker rounds : ∀ i sequence l c c' l',
  counted_rounds c + N.of_nat rounds ≤ uint_max 64 →
  worker_rounds strerror request epoch worker rounds i sequence l c = Some (inr (c', l')) →
  counted_rounds c' = counted_rounds c + N.of_nat rounds.
Proof.
  induction rounds as [|rounds IH]; intros i sequence l c c' l' Hc; cbn [worker_rounds].
  - intros [= <- _]. lia.
  - destruct (link_send _ _ _) as [[sent|] l1]; [|done]. destruct (negb _); [done|].
    destruct (link_receive _ l1) as [[[reply|]|] l2]; [|done..].
    destruct (count_reply reply c) as [|c1] eqn:E; [done|].
    apply count_reply_one in E; [|lia]. intros H%IH; [lia|]. lia.
Qed.

(** A round that ends the worker exits with 1. *)
Lemma worker_rounds_failed strerror request epoch worker rounds : ∀ i sequence l c report,
  worker_rounds strerror request epoch worker rounds i sequence l c = Some (inl report) →
  exit_code report = 1.
Proof.
  induction rounds as [|rounds IH]; intros i sequence l c report; cbn [worker_rounds]; [done|].
  destruct (link_send _ _ _) as [[sent|] l1]; [|done]. destruct (negb _); [by intros [= <-]|].
  destruct (link_receive _ l1) as [[[reply|]|] l2]; [|by intros [= <-]|done].
  destruct (count_reply reply c) as [failed|c1] eqn:E; [|apply IH].
  intros [= <-]. unfold count_reply in E. repeat case_match; by simplify_eq.
Qed.

Lemma GetU64_fits name fallback args : fallback ≤ uint_max 64 →
  (GetU64 name fallback args).1 ≤ uint_max 64.
Proof.
  intros Hf. unfold GetU64. destruct (find _ _) as [[key value]|]; [|done]. cbn [snd].
  unfold from_chars. destruct (leading_digits value 0) as [n rest].
  destruct (String.eqb rest value); [by apply N.le_0_l|].
  destruct (N.ltb_spec (uint_max 64) n); [by apply N.le_0_l|done].
Qed.

Lemma worker_options_fit args options repeat expected :
  worker_options args = Some (options, repeat, expected) → repeat ≤ uint_max 64.
Proof.
  unfold worker_options. destruct (GetU64 "port" _ _), (GetU64 "epoch" _ _).
  pose proof (GetU64_fits "repeat" 1 args ltac:(done)) as Hr.
  destruct (GetU64 "repeat" _ _), (GetU64 "worker" _ _), (GetU64 "expect-committed" _ _).
  destruct (_ || _); [done|]. by intros [= _ <- _].
Qed.
