(* ===== verification/CommandPlace.v ===== *)
(** * A placement from the command line

    [flowplace place --store] from its start to its exit code: the main thread beside the
    workers of its coordinator, which have nothing to do until the shutdown lets them go. *)

From Stdlib Require Import String Ascii.
From S2P Require Import Prelude StdAlgo Checked Status Bytes Hash Model ModelDigest Validate.
From S2P Require Import Explain Records Codec CodecProps Wire Store StoreOps Place Threads.
From S2P Require Import RuntimeState Runtime RuntimeInv RuntimeCalm RuntimeThreads RuntimeAlone.
From S2P Require Import RuntimeDemo Scenario CommandLine.

Open Scope N_scope.
Open Scope list_scope.

(** ** Threads that do not wait *)

(** What runs [t] and goes on runs it and goes on further. *)
Lemma alike_more {S A B C} (t : Thread (State := S) A) (k : A → Thread B) (u : Thread B)
    (g : B → Thread C) : alike t k u → alike t (λ a, k a ≫= g) (u ≫= g).
Proof.
  revert u. induction t as [a|R guard section next IH|m next IH|m next IH]; intros u; cbn [alike].
  - by intros ->.
  - intros (next' & -> & H). eexists. split; [done|]. intros r. by apply IH.
  - intros (next' & -> & H). eexists. split; [done|]. by apply IH.
  - intros (next' & -> & H). eexists. split; [done|]. by apply IH.
Qed.

Section Steady.
Context {F : Type} (frame : CoordinatorState → F).

(** Every section of the thread runs at once and keeps the frame. *)
Fixpoint steady {A} (t : Thread (State := CoordinatorState) A) : Prop :=
  match t with
  | Finished _ => True
  | Locked guard section next =>
      (∀ s, guard s = true ∧ frame (section s).2 = frame s) ∧ ∀ r, steady (next r)
  | Acquire _ next | Release _ next => steady next
  end.

Lemma steady_alone {A} (t : Thread A) : steady t → ∀ s,
  ∃ a s', alone t s = Some (a, s') ∧ frame s' = frame s.
Proof.
  induction t as [a|R guard section next IH|m next IH|m next IH]; cbn [steady alone]; intros Ht s;
    [by exists a, s| |by apply IH..].
  destruct Ht as [Hs Hn]. destruct (Hs s) as [-> Hf]. destruct (section s) as [r s1].
  destruct (IH r (Hn r) s1) as (a & s' & Ha & Hf'). exists a, s'. split; [done|]. by rewrite Hf'.
Qed.

Lemma steady_bind {A B} (t : Thread A) (k : A → Thread B) :
  steady t → (∀ a, steady (k a)) → steady (t ≫= k).
Proof.
  intros Ht Hk. induction t as [a|R guard section next IH|m next IH|m next IH];
    [apply Hk| |by apply IH..].
  destruct Ht as [Hs Hn]. split; [exact Hs|]. intros r. by apply IH.
Qed.

Lemma steady_locked {R} (section : CoordinatorState → R * CoordinatorState) :
  (∀ s, frame (section s).2 = frame s) → steady (locked section).
Proof. intros H. by split. Qed.

Lemma steady_peek {R} (f : CoordinatorState → R) : steady (peek f).
Proof. by apply steady_locked. Qed.

Lemma steady_update f : (∀ s, frame (f s) = frame s) → steady (update f).
Proof. intros H. by apply steady_locked. Qed.

Lemma steady_guarded {A} m (block : Thread A) : steady block → steady (guarded m block).
Proof.
  intros H. apply steady_bind; [done|]. intros _. by apply steady_bind.
Qed.
End Steady.

(** ** What a placement leaves alone *)

(** The run state, the number of live workers and the queue. *)
Definition standing (s : CoordinatorState) : RunState * N * list N :=
  (co_state s, co_live_workers s, co_queue s).

Lemma standing_store {A} (op : Io A) s : standing (with_store op s).2 = standing s.
Proof. unfold with_store. destruct (co_store s) as [w|]; [|done]. by destruct (op w). Qed.

Lemma standing_finalize ref state code s : standing (FinalizeLocked ref state code s) = standing s.
Proof. unfold FinalizeLocked. by destruct (sl_terminal _). Qed.

Lemma standing_reap fuel : ∀ limit scanned s, standing (reap fuel limit scanned s) = standing s.
Proof.
  induction fuel as [|fuel IH]; intros limit scanned s; cbn [reap]; [done|].
  repeat (case_match; try done); by rewrite IH.
Qed.

Lemma standing_admit request attempt digest enforce s :
  standing (admit_attempt request attempt digest enforce s).2 = standing s.
Proof.
  unfold admit_attempt. repeat (case_match; try done).
  match goal with H : add_slot _ _ _ _ = _ |- _ => injection H as <- <- end.
  unfold ReapRetainedSlots. cbn [snd]. by rewrite standing_reap.
Qed.

Lemma standing_phase ref phase code s : standing (journal_phase ref phase code s) = standing s.
Proof. unfold journal_phase. destruct phase; apply standing_store. Qed.

Lemma standing_memory intent delta digest epoch s :
  standing (commit_in_memory intent delta digest epoch s).2 = standing s.
Proof. unfold commit_in_memory. repeat (case_match; try done). Qed.

Lemma standing_refuse ref status s : standing (refuse_start ref status s) = standing s.
Proof. unfold refuse_start. case_match; [change (standing (upd_stats ?f ?s)) with (standing s)|]; apply standing_finalize. Qed.

Lemma standing_once ref state code s : standing (finalize_once ref state code s).2 = standing s.
Proof. unfold finalize_once. destruct (sl_terminal _); [done|]. apply standing_finalize. Qed.

Lemma standing_reject ref decision s : standing (reject_prepared ref decision s).2 = standing s.
Proof.
  unfold reject_prepared. destruct (sl_terminal _); [done|]. cbn [snd]. by rewrite standing_finalize.
Qed.

Lemma standing_claim ref s : standing (claim ref s).2 = standing s.
Proof. unfold claim. by destruct (sl_terminal _). Qed.

Lemma standing_cross ref s : standing (cross_boundary ref s).2 = standing s.
Proof. unfold cross_boundary. repeat (case_match; try done). Qed.

Create HintDb steady.
#[export] Hint Resolve steady_bind steady_locked steady_peek steady_update steady_guarded : steady.
#[export] Hint Resolve standing_store standing_finalize standing_admit standing_phase standing_memory
  standing_refuse standing_once standing_reject standing_claim standing_cross : steady.

(** Goes through a thread section by section. *)
Ltac steadily := cbv zeta; repeat first
  [ done
  | apply steady_peek
  | apply steady_update; intros; solve [done|eauto with steady nocore]
  | apply steady_locked; intros; solve [done|eauto with steady nocore]
  | apply steady_guarded
  | apply steady_bind; [|intros ?]
  | case_match ].

Lemma steady_terminal ref phase code : steady standing (JournalTerminal ref phase code).
Proof. unfold JournalTerminal. steadily. Qed.

Lemma steady_PlaceNow request attempt : steady standing (PlaceNow request attempt).
Proof.
  unfold PlaceNow, Runtime.Prepare, RegisterAttempt, journal_registered, start_durably, prepare_slot,
    Commit, FindSlot, commit_rejected, commit_prepared, CommitSlot, commit_crossed, CommitRecord,
    journal_start, commit_in_store.
  steadily; apply steady_terminal.
Qed.

Lemma steady_cancelled attempts : steady standing (journal_cancelled attempts).
Proof.
  induction attempts as [|attempt attempts IH]; cbn [journal_cancelled]; [done|].
  unfold FindSlot. steadily.
Qed.

(** ** The end of a placement *)

Lemma standing_folded {A} (step : CoordinatorState * list N → A → CoordinatorState * list N) l :
  (∀ acc a, standing (step acc a).1 = standing acc.1) →
  ∀ acc, standing (foldl step acc l).1 = standing acc.1.
Proof.
  intros Hs. induction l as [|a l IH]; intros acc; cbn [foldl]; [done|]. by rewrite IH, Hs.
Qed.

Lemma standing_shutdown_slot ref acc : standing (FinalizeShutdownSlot ref acc).1 = standing acc.1.
Proof.
  destruct acc as [s journal]. unfold FinalizeShutdownSlot.
  case_match; cbn [fst]; [|change (standing (upd_slot ?r ?f ?s)) with (standing s)];
    by rewrite standing_finalize.
Qed.

Lemma standing_queued acc attempt : standing (cancel_queued acc attempt).1 = standing acc.1.
Proof. unfold cancel_queued. repeat (case_match; try done). apply standing_shutdown_slot. Qed.

Lemma standing_registered active acc entry :
  standing (cancel_registered active acc entry).1 = standing acc.1.
Proof. unfold cancel_registered. repeat (case_match; try done); apply standing_shutdown_slot. Qed.

(** A running coordinator begins its shutdown with an empty queue. *)
Lemma begin_standing active s : co_state s = RunState.kRunning →
  ∃ attempts s', begin_shutdown active s = (StopsHere attempts, s') ∧
    standing s' = (RunState.kShuttingDown, co_live_workers s, []).
Proof.
  intros Hr. unfold begin_shutdown. rewrite Hr.
  set (s1 := co_with_state RunState.kShuttingDown s).
  pose proof (standing_folded cancel_queued (co_queue s1) standing_queued (s1, [])) as H1.
  destruct (foldl cancel_queued (s1, []) (co_queue s1)) as [s2 journal].
  cbn [fst] in H1. injection H1 as Hs2 Hl2 _.
  pose proof (standing_folded (cancel_registered active)
    (ordered_entries (co_slots (co_with_queue [] 0 s2))) (standing_registered active)
    (co_with_queue [] 0 s2, journal)) as H2.
  destruct (foldl (cancel_registered active) _ _) as [s3 journal']. exists journal', s3.
  split; [done|]. cbn [fst] in H2. rewrite H2. unfold standing. cbn. by rewrite Hs2, Hl2.
Qed.

(** From a store to the store closed: the file is closed and the flag set, nothing on the
    disk changes, and [shutdown] is a success exactly where there was no file to close or
    none of the calls on it failed: [fflush], [fsync] and [fclose], or [fclose] alone of a
    store opened to read. *)
Definition store_shut (before : option World) (shutdown : Status) (after : option World) : Prop :=
  match before with
  | None => after = None ∧ shutdown = Status_Ok
  | Some w => ∃ w', after = Some w' ∧ st_file_open (w_store w') = false ∧
      im_closed (st_impl (w_store w')) = true ∧ w_disk w' = w_disk w ∧
      (status_ok shutdown = true ↔
       st_file_open (w_store w) = false ∨
       Forall (λ outcome, outcome = IoOk)
         (take (if read_only (st_options (w_store w)) then 1 else 3) (w_io w)))
  end.

Lemma file_call_run failure s disk io :
  file_call failure (mkWorld s disk io) =
  (match io with [] | IoOk :: _ => Value tt | _ => Error failure end, mkWorld s disk (tail io)).
Proof. by destruct io as [|[]]. Qed.

Lemma Close_closes w :
  store_shut (Some w) (match (Close w).1 with Value _ => Status_Ok | Error status => status end)
    (Some (Close w).2).
Proof.
  destruct w as [store disk io]. exists (Close (mkWorld store disk io)).2. split; [done|].
  unfold Close, get_store, on_store, mbind, Io_bind. cbn [w_store w_disk w_io].
  change (st_file_open (on_impl (im_with_closed true) store)) with (st_file_open store).
  destruct (st_file_open store) eqn:Eo; cbn [negb].
  2: { cbn. split_and!; [exact Eo|done|done|]. by split; [left|]. }
  unfold io_status. cbn [w_store w_disk w_io].
  change (st_options (on_impl (im_with_closed true) store)) with (st_options store).
  destruct (read_only (st_options store)).
  - cbn [mret Io_ret]. rewrite file_call_run. destruct io as [|[| |n] io]; cbn;
      (split_and!; [done..|]); rewrite ?Forall_cons; naive_solver.
  - unfold SyncFile, mbind, Io_bind. rewrite file_call_run.
    destruct io as [|[| |n] io]; rewrite ?file_call_run; cbn [tail];
      try (destruct io as [|[| |n1] io]; rewrite ?file_call_run; cbn [tail]);
      try (destruct io as [|[| |n2] io]); cbn;
      (split_and!; [done..|]); rewrite ?Forall_cons; naive_solver.
Qed.

Lemma close_store_closes s :
  store_shut (co_store s) (if has_store s then (close_store s).1 else Status_Ok)
    (co_store (if has_store s then (close_store s).2 else s)).
Proof.
  unfold has_store, close_store, with_store. destruct (co_store s) as [w|] eqn:E.
  - rewrite bool_decide_true by done. pose proof (Close_closes w) as H.
    by destruct (Close w) as [[]].
  - by rewrite bool_decide_false by (by intros []).
Qed.

(** The join and the close of a coordinator whose workers have left; the destructor has
    nothing left to do. *)
Lemma finish_alone s : co_live_workers s = 0 →
  ∃ shutdown s', alone finish_shutdown s = Some (shutdown, s') ∧ co_state s' = RunState.kStopped ∧
    store_shut (co_store s) shutdown (co_store s').
Proof.
  intros Hl. unfold finish_shutdown. rewrite alone_bind. cbn [alone wait]. rewrite Hl. cbn [N.eqb].
  cbn [mbind option_bind]. rewrite alone_bind, alone_update. cbn [mbind option_bind].
  rewrite alone_bind, alone_peek. cbn [mbind option_bind].
  set (stopped := co_with_state RunState.kStopped s).
  pose proof (close_store_closes stopped) as H. change (co_store stopped) with (co_store s) in H.
  destruct (has_store stopped); [|by eexists _, _]. rewrite alone_guarded, alone_locked.
  assert (standing (close_store stopped).2 = standing stopped) as Hs.
  { rewrite <-(standing_store Close stopped). unfold close_store.
    by destruct (with_store Close stopped). }
  destruct (close_store stopped) as [result s']. injection Hs as Hs _ _. by eexists _, _.
Qed.

Lemma stopped_alone active s : co_state s = RunState.kStopped →
  alone (ShutdownInternal active) s = Some (Status_Ok, s).
Proof.
  intros Hs. unfold ShutdownInternal. rewrite alone_bind, alone_locked. unfold begin_shutdown.
  by rewrite Hs.
Qed.

(** ** The process *)

Abbreviation Process := (System (State := CoordinatorState) (Reply := Reply + Report)).

Lemma aside_ok {A} (f : A → Reply + Report) (t : Thread A) P Q s :
  meets free t P Q → coherent s → P s → wp free (aside f t) done_free s.
Proof.
  intros Ht Hc HP. assert (meets free (aside f t) P (λ _ _, True)) as H.
  { eapply meets_bind; [exact Ht|]. intros a. by apply (meets_ret _ _ _ _). }
  eapply wp_mono; [|by apply H]. by intros a held s' _ [-> _].
Qed.

Lemma process_worker_ok s : wp free process_worker done_free s.
Proof.
  apply wp_now. intros s1 _ Hc. apply (aside_ok _ _ (λ _, True) (λ _ _, True)); [|done|done].
  eapply meets_bind; [apply meets_worker_round|]. intros again. by apply (meets_ret _ _ _ _).
Qed.

Lemma process_restart_ok reply t s : process_restart reply = Some t → wp free t done_free s.
Proof.
  destruct reply as [reply|report]; [|done]. cbn [process_restart]. intros H.
  destruct (restart reply) as [t'|] eqn:E; [|done]. injection H as <-.
  destruct reply as [| | | | | | |[]]; try done. injection E as <-. apply process_worker_ok.
Qed.

Abbreviation process_steps :=
  (exec_all (λ call : Empty_set, match call with end) process_restart pass).

Lemma process_step_ok e sys sys' : disciplined sys →
  exec (λ call : Empty_set, match call return Thread (Reply + Report) with end) process_restart pass
    e sys = Some sys' → disciplined sys'.
Proof.
  intros Hd Hx.
  apply (disciplined_step (λ call : Empty_set, match call with end) process_restart pass (λ _, True)
    ltac:(by intros []) process_restart_ok ltac:(intros; by apply pass_ok) e sys sys'); [|done..].
  by destruct e.
Qed.

(** The main thread is about to run [u]; no mutex is held. *)
Record at_main (u : Thread (Reply + Report)) (others : list (Thread (Reply + Report)))
    (sys : Process) : Prop := {
  am_disciplined : disciplined sys;
  am_threads : sys_threads sys = u :: others;
  am_free m : sys_owner sys m = None;
}.

Lemma main_runs {A} (t : Thread A) k Q u others sys r s' :
  alike t k u → at_main u others sys → meets free t (λ _, True) Q →
  alone t (sys_state sys) = Some (r, s') →
  ∃ n sys', process_steps (replicate n (Run 0)) sys = Some sys' ∧ at_main (k r) others sys' ∧
    sys_state sys' = s'.
Proof.
  intros Hu [Hd Ht Ho] Hm Ha.
  assert (held_by 0 sys = free) as Hfree by (unfold held_by; by rewrite !Ho).
  destruct (alone_steps (λ call : Empty_set, match call with end) process_restart pass (λ _, True)
    ltac:(by intros []) process_restart_ok ltac:(intros; by apply pass_ok)
    t k (λ a held s, held = free ∧ Q a s) 0%nat u sys r s' Hu Hd)
    as (n & sys' & E & (Hd' & <- & Hk & Ho' & Hh & _) & u' & Hu').
  - by rewrite Ht.
  - intros m. left. apply Ho.
  - rewrite Hfree. apply Hm; [exact (dp_inv _ Hd)|done].
  - exact Ha.
  - exists n, sys'. split; [exact E|]. split; [|done]. rewrite Ht in Hu'. cbn in Hu'.
    constructor; [done| |].
    + rewrite Hu' in Hk. cbn in Hk. injection Hk as ->. by rewrite Hu'.
    + intros m. destruct (Ho' m) as [|Hm']; [done|]. unfold held_by, free in Hh.
      injection Hh as Hc Hs. destruct m; [rewrite Hm' in Hc|rewrite Hm' in Hs];
        by rewrite bool_decide_true in *.
Qed.

(** The workers find the queue empty and leave. *)
Lemma workers_leave u m : ∀ gone sys,
  at_main u (gone ++ replicate m process_worker) sys →
  standing (sys_state sys) = (RunState.kShuttingDown, N.of_nat m, []) →
  ∃ sys' others, process_steps (Run <$> seq (S (length gone)) m) sys = Some sys' ∧
    at_main u others sys' ∧ standing (sys_state sys') = (RunState.kShuttingDown, 0, []).
Proof.
  induction m as [|m IH]; intros gone sys [Hd Ht Ho] Hs; [by eexists _, _|].
  set (done := Finished (inl (ReplyWorker false)) : Thread (State := CoordinatorState) (Reply + Report)).
  set (s := sys_state sys) in *. injection Hs as Hr Hl Hq.
  set (s1 := co_with_live_workers (co_live_workers s - 1) s).
  set (sys1 := mkSystem s1 (sys_owner sys) (u :: (gone ++ [done]) ++ replicate m process_worker)
    : Process).
  assert (sys_threads sys !! S (length gone) = Some process_worker) as Hw.
  { rewrite Ht. change ((gone ++ replicate (S m) process_worker) !! length gone = Some process_worker).
    by rewrite lookup_app_r, Nat.sub_diag. }
  assert (exec (λ call : Empty_set, match call return Thread (Reply + Report) with end)
    process_restart pass (Run (S (length gone))) sys = Some sys1) as E.
  { assert (∃ next, process_worker = Locked work_ready take_work next ∧ next WorkerExit = done)
      as (next & Hp & Hn) by (eexists; split; reflexivity).
    assert (work_ready s = true ∧ take_work s = (WorkerExit, s1)) as [Hg Hx].
    { unfold work_ready, take_work, is_running. by rewrite Hr, Hq. }
    cbn [exec]. rewrite Hw, Hp. cbn [mbind option_bind run_thread]. fold s. rewrite Hg, Hx, Hn.
    unfold sys1, with_thread. cbn [sys_state sys_owner sys_threads]. do 2 f_equal. rewrite Ht.
    change (u :: <[length gone := done]> (gone ++ replicate (S m) process_worker) =
            u :: (gone ++ [done]) ++ replicate m process_worker).
    f_equal. rewrite insert_app_r_alt, Nat.sub_diag by apply le_n. by rewrite <-app_assoc. }
  destruct (IH (gone ++ [done]) sys1) as (sys' & others & E' & Ha & Hs').
  - constructor; [by eapply process_step_ok|done|exact Ho].
  - unfold standing. cbn. rewrite Hr, Hl, Hq. do 2 f_equal. lia.
  - exists sys', others. split; [|done]. cbn [seq fmap list_fmap exec_all]. rewrite E.
    rewrite length_app, Nat.add_1_r in E'. exact E'.
Qed.

Definition place_answer (attempt : N) (answer : Result AttemptOutcome) (shutdown : Status) : Report :=
  match answer with
  | Error status => placement_error status
  | Value outcome => place_report attempt outcome shutdown
  end.

(** What the main thread does with the answer. *)
Definition answered (attempt : N) (answer : Result AttemptOutcome) (shutdown : Status)
    : Thread (State := CoordinatorState) Report :=
  match answer with
  | Error status => mret (placement_error status)
  | Value outcome => _ ← ShutdownInternal false; mret (place_report attempt outcome shutdown)
  end.

Lemma meets_answered attempt answer shutdown :
  meets free (answered attempt answer shutdown) (λ _, True) (λ _ _, True).
Proof.
  destruct answer as [outcome|status]; [|by apply (meets_ret _ _ _ (λ _ _, True))].
  eapply meets_bind; [apply meets_ShutdownInternal|]. intros ?. by apply (meets_ret _ _ _ (λ _ _, True)).
Qed.

Definition shut_down_with (turn : ShutdownTurn) : Thread Status :=
  match turn with
  | AlreadyStopped => mret Status_Ok
  | StoppingElsewhere =>
      wait (λ st, bool_decide (co_state st = RunState.kStopped)) (λ st, (Status_Ok, st))
  | StopsHere attempts => _ ← journal_cancelled attempts; finish_shutdown
  end.

Lemma alike_ext {S A B} (t : Thread (State := S) A) (k k' : A → Thread B) : ∀ u,
  (∀ a, k a = k' a) → alike t k u → alike t k' u.
Proof.
  induction t as [a|R guard section next IH|m next IH|m next IH]; intros u Hk; cbn [alike].
  - by rewrite Hk.
  - intros (next' & -> & H). eexists. split; [done|]. intros r. by apply IH.
  - intros (next' & -> & H). eexists. split; [done|]. by apply IH.
  - intros (next' & -> & H). eexists. split; [done|]. by apply IH.
Qed.

Lemma place_alike request attempt :
  alike (PlaceNow request attempt)
    (λ answer, ShutdownInternal false ≫= answered attempt answer) (place_committing request attempt).
Proof. eapply alike_ext; [|apply alike_bind]. by intros [outcome|status]. Qed.

Lemma meets_place_committing request attempt :
  meets free (place_committing request attempt) (λ _, True) (λ _ _, True).
Proof.
  eapply meets_bind; [apply meets_PlaceNow|]. intros answer.
  assert (meets free (ShutdownInternal false ≫= answered attempt answer) (λ _, True) (λ _ _, True)) as H.
  { eapply meets_bind; [apply meets_ShutdownInternal|]. intros shutdown. apply meets_answered. }
  by destruct answer.
Qed.

Lemma answer_alone attempt answer s : co_live_workers s = 0 →
  ∃ shutdown s', alone (finish_shutdown ≫= answered attempt answer) s =
      Some (place_answer attempt answer shutdown, s') ∧ co_state s' = RunState.kStopped ∧
    store_shut (co_store s) shutdown (co_store s').
Proof.
  intros Hl. destruct (finish_alone s Hl) as (shutdown & s' & Ha & Hs & Hc). exists shutdown, s'.
  split; [|done]. rewrite alone_bind, Ha. cbn [mbind option_bind].
  destruct answer as [outcome|status]; [|done]. unfold answered.
  rewrite alone_bind, stopped_alone by done. done.
Qed.

(** The process from its start to the report of the main thread, by way of the shutdown
    whose cancellations are journalled and whose workers have left. *)
Lemma process_ends s request attempt answer s1 :
  coherent s → co_state s = RunState.kRunning → co_live_workers s = co_worker_count s →
  alone (PlaceNow request attempt) s = Some (answer, s1) →
  ∃ events closing joined sys' shutdown,
    process_schedule events (place_process s (place_committing request attempt)) = Some joined ∧
    process_schedule closing joined = Some sys' ∧
    Forall (λ e, ∃ i, e = Run i) (events ++ closing) ∧
    standing (sys_state joined) = (RunState.kShuttingDown, 0, []) ∧
    sys_threads sys' !! 0%nat = Some (Finished (inr (place_answer attempt answer shutdown))) ∧
    co_state (sys_state sys') = RunState.kStopped ∧
    store_shut (co_store (sys_state joined)) shutdown (co_store (sys_state sys')).
Proof.
  intros Hc Hrun Hlive Ha.
  set (g := λ report : Report, mret (inr report) : Thread (State := CoordinatorState) (Reply + Report)).
  set (workers := replicate (N.to_nat (co_worker_count s)) process_worker).
  assert (at_main (place_committing request attempt ≫= g) workers
    (place_process s (place_committing request attempt))) as H0.
  { constructor; [|done|done]. constructor; [done|done|]. intros [|i] t Ht.
    - injection Ht as <-. exact (aside_ok inr _ (λ _, True) (λ _ _, True) s
        (meets_place_committing request attempt) Hc I).
    - apply lookup_replicate_1 in Ht as [-> _]. apply (process_worker_ok s). }
  destruct (main_runs (PlaceNow request attempt) (λ answer, (ShutdownInternal false ≫= answered attempt answer) ≫= g)
    _ _ _ _ _ _ (alike_more _ _ _ g (place_alike request attempt)) H0 (meets_PlaceNow _ _) Ha)
    as (n1 & sys1 & E1 & H1 & <-).
  destruct (steady_alone standing _ (steady_PlaceNow request attempt) s) as (? & ? & Ha' & Hst).
  rewrite Ha in Ha'. injection Ha' as <- <-. injection Hst as Hr1 Hl1 _. rewrite Hrun in Hr1.
  destruct (begin_standing false (sys_state sys1) Hr1) as (attempts & s2 & Eb & Hs2).
  destruct (main_runs (locked (begin_shutdown false)) (λ turn, (shut_down_with turn ≫= answered attempt answer) ≫= g)
    (λ _ _, True) _ _ _ (StopsHere attempts) s2
    (alike_more _ _ _ g (alike_more _ _ _ _ (alike_bind _ shut_down_with))) H1
    (meets_begin_shutdown _)) as (n2 & sys2 & E2 & H2 & <-).
  { by rewrite alone_locked, Eb. }
  destruct (steady_alone standing _ (steady_cancelled attempts) (sys_state sys2)) as ([] & s3 & Ej & Hs3).
  destruct (main_runs (journal_cancelled attempts) (λ _, (finish_shutdown ≫= answered attempt answer) ≫= g)
    (λ _ _, True) _ _ _ tt s3
    (alike_more _ _ _ g (alike_more _ _ _ _ (alike_bind _ (λ _, finish_shutdown)))) H2
    (meets_journal_cancelled _) Ej) as (n3 & sys3 & E3 & H3 & <-).
  rewrite Hs2, Hl1, Hlive in Hs3.
  destruct (workers_leave ((finish_shutdown ≫= answered attempt answer) ≫= g)
    (N.to_nat (co_worker_count s)) [] sys3) as (sys4 & others & E4 & H4 & Hs4).
  { exact H3. } { by rewrite N2Nat.id. }
  cbn [length] in E4. pose proof Hs4 as Hl4. injection Hl4 as _ Hl4 _.
  destruct (answer_alone attempt answer (sys_state sys4) Hl4) as (shutdown & s5 & Ef & Hs5 & Hclosed).
  destruct (main_runs (finish_shutdown ≫= answered attempt answer) g (λ _ _, True) _ _ _ _ _
    (alike_bind _ g) H4 ltac:(eapply meets_bind; [apply meets_finish_shutdown|intros; apply meets_answered]) Ef)
    as (n5 & sys5 & E5 & H5 & <-).
  exists (replicate n1 (Run 0) ++ replicate n2 (Run 0) ++ replicate n3 (Run 0) ++
    (Run <$> seq 1 (N.to_nat (co_worker_count s)))), (replicate n5 (Run 0)), sys4, sys5, shutdown.
  split_and!.
  - unfold process_schedule. rewrite exec_all_app, E1. cbn [mbind option_bind].
    rewrite exec_all_app, E2. cbn [mbind option_bind]. rewrite exec_all_app, E3. cbn [mbind option_bind].
    exact E4.
  - exact E5.
  - repeat apply Forall_app_2; try (apply Forall_replicate; by eexists).
    apply Forall_fmap, Forall_true. intros i. by exists i.
  - exact Hs4.
  - by rewrite (am_threads _ _ _ H5).
  - exact Hs5.
  - exact Hclosed.
Qed.

(** ** The coordinator of the command *)

(** What [Start] returns for the options of the command. *)
Lemma place_started path request process now disk io s :
  Start (place_options path request) process now disk io = Value s →
  co_state s = RunState.kRunning ∧ co_live_workers s = co_worker_count s ∧ co_slots s = ∅ ∧
  opt_limits (co_options s) = default_limits ∧
  co_authority s = exp_with_epoch (co_epoch s) AuthorityExpectation_init ∧
  (exp_fabric_epoch (rq_expected request) ≠ 0 →
   co_epoch s = exp_fabric_epoch (rq_expected request)).
Proof.
  assert (∀ epoch : N, epoch ≠ 0 → (if valid epoch then epoch else 1) = epoch) as Hv.
  { intros epoch He. unfold valid. by apply N.eqb_neq in He as ->. }
  unfold Start. set (epoch := if valid (opt_initial_epoch _) then _ else _).
  assert (exp_fabric_epoch (rq_expected request) ≠ 0 →
    epoch = exp_fabric_epoch (rq_expected request)) as Hepoch.
  { intros He. subst epoch. unfold place_options. cbn [opt_initial_epoch]. rewrite !Hv by (by rewrite ?Hv).
    reflexivity. }
  revert Hepoch. generalize epoch. clear epoch. intros epoch Hepoch.
  assert (opt_limits (clamp_options (place_options path request)) = default_limits) as Hl by reflexivity.
  revert Hl. generalize (clamp_options (place_options path request)). intros clamped Hl.
  generalize (if valid (opt_incarnation (place_options path request)) then
    opt_incarnation (place_options path request)
    else AllocateIncarnation process now (opt_seed (place_options path request))) as incarnation.
  intros incarnation.
  assert (∀ store, Value (mkCoordinator clamped store (exp_with_epoch epoch AuthorityExpectation_init)
      epoch incarnation RunState.kRunning [] [] 0 0 ∅ CoordinatorStats_init 1 ∅
      (opt_worker_threads clamped) [] (opt_worker_threads clamped) now) = Value s →
    co_state s = RunState.kRunning ∧ co_live_workers s = co_worker_count s ∧ co_slots s = ∅ ∧
    opt_limits (co_options s) = default_limits ∧
    co_authority s = exp_with_epoch (co_epoch s) AuthorityExpectation_init ∧
    (exp_fabric_epoch (rq_expected request) ≠ 0 →
     co_epoch s = exp_fabric_epoch (rq_expected request))) as H.
  { intros store H. injection H as <-. repeat (split; [first [reflexivity|exact Hl]|]). exact Hepoch. }
  destruct (String.eqb _ _); [apply H|].
  destruct (Open _ _ disk) as [[store|status] disk']; [apply H|done].
Qed.

(** A new coordinator constrains nothing but the epoch. *)
Lemma new_authority_matches epoch expected :
  AuthorityMatches (exp_with_epoch epoch AuthorityExpectation_init) expected = true.
Proof. done. Qed.

Lemma place_report_success attempt outcome shutdown :
  exit_code (place_report attempt outcome shutdown) = 0 ↔
  status_ok shutdown = true ∧ ao_state outcome = AttemptState.kCommitted.
Proof.
  unfold place_report. destruct (status_ok shutdown); cbn [negb exit_code prints]; [|by split; [|intros []]].
  case_bool_decide; by split; [|intros []].
Qed.

Lemma failure_not_committed code : StateForFailure code ≠ AttemptState.kCommitted.
Proof. by destruct code. Qed.

(** How an attempt with this decision ends when nothing fences it. *)
Definition place_outcome (s : CoordinatorState) (request : PlacementRequest) (attempt : N)
    (decision : PlacementDecision) (store : option World) : AttemptOutcome :=
  match dec_intent decision with
  | None => mkOutcome attempt AttemptState.kRejected (dec_code decision) decision 0 0
  | Some intent =>
      match commit_result s request attempt store intent with
      | Value r =>
          mkOutcome attempt AttemptState.kCommitted StatusCode.kOk decision
            (pl_id r) (pl_generation r)
      | Error status =>
          mkOutcome attempt (StateForFailure (status_code status)) (status_code status) decision 0 0
      end
  end.

Lemma new_outcome s request attempt store :
  opt_limits (co_options s) = default_limits →
  co_authority s = exp_with_epoch (co_epoch s) AuthorityExpectation_init →
  expected_outcome s request attempt store =
  place_outcome s request attempt (Place default_limits (rq_with_attempt attempt request)) store.
Proof.
  intros Hl Ha. unfold expected_outcome, ends_as, place_outcome. rewrite Ha, new_authority_matches, Hl.
  cbn [fst snd]. reflexivity.
Qed.

Lemma place_outcome_committed s request attempt decision store :
  ao_state (place_outcome s request attempt decision store) = AttemptState.kCommitted ↔
  ∃ intent r, dec_intent decision = Some intent ∧
    commit_result s request attempt store intent = Value r.
Proof.
  unfold place_outcome. destruct (dec_intent decision) as [intent|]; [|split; [done|]].
  - destruct (commit_result _ _ _ _ intent) as [r|status] eqn:E; cbn [ao_state].
    + split; [|done]. intros _. by exists intent, r.
    + split; [by intros H%failure_not_committed|]. intros (i & r & [= <-] & H). congruence.
  - by intros (i & r & H & _).
Qed.
