(* ===== verification/WireProps.v ===== *)
(** * Properties of the wire protocol

    Delivery of frames over a connection that splits and joins the bytes as it
    likes, the integrity of what a stream accepts, damage to a frame in transit,
    the bound on the buffer, and the canonical form of frames and payloads. *)

From Stdlib Require Import String.
From S2P Require Import Prelude StdAlgo Checked Status Bytes Hash Model Explain Records Codec.
From S2P Require Import CodecFacts CodecExact Wire Transport WireFacts Fixture.

Section Connection.
Context (strerror : string).

(** What [n] calls of [ReceiveFrame] in a row return: the frames, and the status
    that ended them. *)
Fixpoint receive_frames (n : nat) (received : list Received) (c : TcpConnection)
    : list Frame * option Status :=
  match n with
  | O => ([], None)
  | S n' =>
      match ReceiveFrame strerror received c with
      | (Some (Value frame), received, c) =>
          let '(frames, ended) := receive_frames n' received c in (frame :: frames, ended)
      | (Some (Error status), _, _) => ([], Some status)
      | (None, _, _) => ([], None)
      end
  end.

(** A connection whose stream holds [bytes]. *)
Definition connected (max : N) (s : FrameStream) : TcpConnection := mkConnection true s max.

Lemma ReceiveFrame_open received max s :
  ReceiveFrame strerror received (connected max s) =
  let '(result, received, s) := receive_loop strerror received s in
  (result, received, connected max s).
Proof. unfold ReceiveFrame. cbn. by destruct (receive_loop strerror received s) as [[? ?] ?]. Qed.

Lemma receive_frames_S n received c :
  receive_frames (S n) received c =
  match ReceiveFrame strerror received c with
  | (Some (Value frame), received, c) =>
      let '(frames, ended) := receive_frames n received c in (frame :: frames, ended)
  | (Some (Error status), _, _) => ([], Some status)
  | (None, _, _) => ([], None)
  end.
Proof. done. Qed.

Lemma receive_frames_bytes max fs : ∀ chunks s,
  u32_fits max → Forall (frame_fits max) fs → fs_max_frame_bytes s = max →
  Forall (.≠ []) chunks → pending s ++ mjoin chunks = mjoin (frame_bytes <$> fs) →
  receive_frames (S (length fs)) ((RecvBytes <$> chunks) ++ [RecvBytes []]) (connected max s) =
  (fs, Some (connection_closed "peer closed the connection")).
Proof.
  induction fs as [|f fs IH]; intros chunks s Hm Hf Hs Hc Hb.
  - apply app_eq_nil in Hb as [Hp Hj].
    destruct chunks as [|chunk chunks];
      [|apply app_eq_nil in Hj as [-> _]; by apply Forall_cons in Hc as [? _]].
    cbn [length receive_frames fmap list_fmap app]. rewrite ReceiveFrame_open.
    cbn [receive_loop]. rewrite FrameStream_Next_spec. cbv zeta. by rewrite Hp.
  - apply Forall_cons in Hf as [Hf Hfs]. cbn [fmap list_fmap] in Hb.
    pose proof (receive_loop_spec strerror chunks [RecvBytes []] s Hc) as H. cbv zeta in H.
    rewrite Hs, Hb in H. change (mjoin (?b :: ?l)) with (b ++ mjoin l) in H.
    rewrite next_frame_bytes in H by done.
    destruct H as (left & s' & Hl & Hleft & Hrest & Hmax).
    change (length (f :: fs)) with (S (length fs)).
    rewrite receive_frames_S, ReceiveFrame_open, Hl. rewrite (IH left s') by done. done.
Qed.

Lemma send_loop_taken sends : ∀ left taken all,
  send_loop strerror sends left taken = (Some Status_Ok, all) → all = taken ++ left.
Proof.
  induction sends as [|chunk sends IH]; intros [|b left] taken all; cbn [send_loop];
    try (by intros [= <-]; rewrite app_nil_r).
  destruct (chunk =? 0); [done|]. intros H%IH. by rewrite <-app_assoc, take_drop in H.
Qed.
End Connection.

(** ** Delivery *)

(** C28: the frames a sender handed to a connection arrive, in order and
    unchanged.  Where every [SendFrame] of a list of fitting frames succeeded,
    whatever sizes the kernel took the bytes in, and the peer's bytes arrive in
    any split into non-empty chunks before it closes, repeated [ReceiveFrame]
    calls return exactly those frames, then that the peer closed. *)
Theorem frame_delivery strerror max fs takens chunks stream :
  kMinMaxFrameBytes ≤ max → u32_fits max → Forall (frame_fits max) fs →
  Forall2 (λ f taken, ∃ sends,
    SendFrame strerror sends f (connected max stream) = (Some Status_Ok, taken)) fs takens →
  Forall (.≠ []) chunks → mjoin chunks = mjoin takens →
  receive_frames strerror (S (length fs)) ((RecvBytes <$> chunks) ++ [RecvBytes []])
    (connected max (FrameStream_init max)) =
  (fs, Some (connection_closed "peer closed the connection")).
Proof.
  intros Hmin Hm Hf Hsent Hc Hb. apply receive_frames_bytes; [done..|].
  change (pending (FrameStream_init max)) with (@nil N). rewrite app_nil_l, Hb. f_equal.
  clear Hb Hc. induction Hsent as [|f taken fs takens [sends Hs] _ IH]; [done|].
  apply Forall_cons in Hf as [Hff Hf]. cbn. f_equal; [|by apply IH].
  unfold SendFrame in Hs. cbn in Hs.
  rewrite EncodeFrame_bytes in Hs by (done || apply (ff_body _ _ Hff)).
  by apply send_loop_taken in Hs.
Qed.

(** Sending ends.  A fitting frame is sent in full as soon as the kernel
    has taken at least one byte in as many calls as the frame has bytes; a body
    over the negotiated bound is refused and nothing is sent. *)
Theorem SendFrame_complete strerror sends max f stream :
  kMinMaxFrameBytes ≤ max → u32_fits max → Forall (.≠ 0) sends →
  (size (fr_body f) ≤ max → size (fr_body f) + 20 ≤ size sends →
   SendFrame strerror sends f (connected max stream) = (Some Status_Ok, frame_bytes f)) ∧
  (max < size (fr_body f) →
   SendFrame strerror sends f (connected max stream) =
   (Some (mkStatus StatusCode.kFrameTooLarge "frame body exceeds the negotiated bound"), [])).
Proof.
  intros Hmin Hm Hs. unfold SendFrame. cbn [con_open con_max_frame_bytes connected negb]. split.
  - intros Hb Hl. rewrite EncodeFrame_bytes by done. apply send_loop_all; [done|].
    pose proof (frame_bytes_size f). unfold size in *. lia.
  - intros Hb. unfold EncodeFrame.
    by rewrite (proj2 (N.ltb_ge _ _) Hmin), (proj2 (N.ltb_lt _ _) Hb).
Qed.

Definition sample_frame (body : list N) : Frame := mkFrame FrameKind.kPlaceRequest 0 7 body.

Lemma sample_fits body : Forall u8_fits body → size body ≤ 1024 → frame_fits 1024 (sample_frame body).
Proof. intros Hu Hb. by constructor. Qed.

Lemma SendFrame_complete_witness :
  SendFrame "" (replicate 24 1) (sample_frame [1; 2; 3; 4])
    (connected 1024 (FrameStream_init 1024)) =
  (Some Status_Ok, frame_bytes (sample_frame [1; 2; 3; 4])).
Proof.
  apply (SendFrame_complete "" (replicate 24 1) 1024); [done|done| |done|done].
  apply Forall_replicate. done.
Defined.

Lemma frame_delivery_witness :
  receive_frames "" 3
    ((RecvBytes <$> [frame_bytes (sample_frame [1; 2]) ++ [3]; [0; 0]; [0];
                     drop 4 (frame_bytes (sample_frame [5; 6; 7]))]) ++ [RecvBytes []])
    (connected 1024 (FrameStream_init 1024)) =
  ([sample_frame [1; 2]; sample_frame [5; 6; 7]],
   Some (connection_closed "peer closed the connection")).
Proof.
  apply (frame_delivery "" 1024 [sample_frame [1; 2]; sample_frame [5; 6; 7]]
    [frame_bytes (sample_frame [1; 2]); frame_bytes (sample_frame [5; 6; 7])] _
    (FrameStream_init 1024)); [done|done| | | |].
  - by repeat constructor.
  - repeat constructor; exists [7; 400]; by vm_compute.
  - by repeat constructor.
  - by vm_compute.
Defined.

(** ** Arbitrary bytes *)

(** The abstract stream: the first [n] frames of a byte string. *)
Fixpoint parse_frames (n : nat) (max : N) (bytes : list N) : list Frame * option Status :=
  match n with
  | O => ([], None)
  | S n' =>
      match next_frame max bytes with
      | Value (Some (frame, rest)) =>
          let '(frames, ended) := parse_frames n' max rest in (frame :: frames, ended)
      | Value None => ([], None)
      | Error status => ([], Some status)
      end
  end.

Lemma receive_frames_parse strerror n : ∀ max chunks s,
  Forall (.≠ []) chunks → fs_max_frame_bytes s = max →
  receive_frames strerror n (RecvBytes <$> chunks) (connected max s) =
  parse_frames n max (pending s ++ mjoin chunks).
Proof.
  induction n as [|n IH]; intros max chunks s Hc Hs; [done|].
  pose proof (receive_loop_spec strerror chunks [] s Hc) as H. cbv zeta in H.
  rewrite app_nil_r, Hs in H. rewrite receive_frames_S, ReceiveFrame_open. cbn [parse_frames].
  destruct (next_frame max (pending s ++ mjoin chunks)) as [[[frame rest]|]|status] eqn:E.
  - destruct H as (left & s' & -> & Hl & <- & Hmax). rewrite app_nil_r. by rewrite (IH max left s').
  - rewrite H. cbn [receive_loop]. rewrite FrameStream_Next_spec. cbv zeta.
    change (pending (mkStream ?b 0 max)) with b. cbn [fs_max_frame_bytes]. by rewrite E.
  - by destruct H as (left & s' & ->).
Qed.

(** C29: a connection implements the abstract stream.  Whatever the peer
    sends and however the bytes are split into non-empty chunks, the frames
    [ReceiveFrame] returns and the status that ends them are those of parsing
    the bytes in one piece. *)
Theorem receive_refines_parse strerror n max chunks :
  Forall (.≠ []) chunks →
  receive_frames strerror n (RecvBytes <$> chunks) (connected max (FrameStream_init max)) =
  parse_frames n max (mjoin chunks).
Proof. intros Hc. by rewrite receive_frames_parse. Qed.

Lemma receive_refines_parse_witness :
  receive_frames "" 4 (RecvBytes <$> [[1; 2; 3]; replicate 30 0])
    (connected 1024 (FrameStream_init 1024)) =
  parse_frames 4 1024 (mjoin [[1; 2; 3]; replicate 30 0]).
Proof. apply receive_refines_parse. by repeat constructor. Defined.

Lemma parse_frames_exact n : ∀ max bytes fs ended,
  Forall u8_fits bytes → parse_frames n max bytes = (fs, ended) →
  Forall (frame_fits max) fs ∧ ∃ rest, bytes = mjoin (frame_bytes <$> fs) ++ rest ∧
  ∀ status, ended = Some status → next_frame max rest = Error status.
Proof.
  induction n as [|n IH]; intros max bytes fs ended Hu Hp; cbn [parse_frames] in Hp.
  { injection Hp as <- <-. split; [done|]. by exists bytes. }
  destruct (next_frame max bytes) as [[[frame rest]|]|status] eqn:E.
  - apply next_frame_exact in E as [-> Hf]; [|done]. apply Forall_app in Hu as [_ Hu].
    destruct (parse_frames n max rest) as [frames ended'] eqn:Ep. injection Hp as <- <-.
    destruct (IH max rest frames ended' Hu Ep) as (Hfs & tail & -> & Hend).
    split; [by constructor|]. exists tail. split; [|done]. cbn. by rewrite <-app_assoc.
  - injection Hp as <- <-. split; [done|]. by exists bytes.
  - injection Hp as <- <-. split; [done|]. exists bytes. split; [done|]. by intros ? [= <-].
Qed.

(** Nothing but well-formed frames is delivered.  On any bytes, the
    frames [ReceiveFrame] returns have bodies within the bound and header fields
    of their types, and their encodings, joined, are exactly the first bytes the
    peer sent: no byte is skipped, none is read twice, and a frame whose length,
    checksum or kind is wrong ends the stream. *)
Theorem receive_integrity strerror n max chunks fs ended :
  Forall (.≠ []) chunks → Forall u8_fits (mjoin chunks) →
  receive_frames strerror n (RecvBytes <$> chunks) (connected max (FrameStream_init max)) =
    (fs, ended) →
  Forall (frame_fits max) fs ∧
  ∃ rest, mjoin chunks = mjoin (frame_bytes <$> fs) ++ rest ∧
          ∀ status, ended = Some status → next_frame max rest = Error status.
Proof.
  intros Hc Hu Hr. rewrite receive_frames_parse in Hr by done. by eapply parse_frames_exact.
Qed.

Lemma receive_integrity_witness :
  Forall (frame_fits 1024) [sample_frame [9]] ∧
  ∃ rest, mjoin [frame_bytes (sample_frame [9]) ++ [0; 255]; replicate 30 255] =
            mjoin (frame_bytes <$> [sample_frame [9]]) ++ rest ∧
          ∀ status, Some (mkStatus StatusCode.kFrameTooLarge
                            "declared frame length exceeds the negotiated bound") = Some status →
            next_frame 1024 rest = Error status.
Proof.
  apply (receive_integrity "" 3 1024 [frame_bytes (sample_frame [9]) ++ [0; 255]; replicate 30 255]).
  - by repeat constructor.
  - by repeat constructor.
  - vm_compute. reflexivity.
Defined.

(** A frame has one encoding.  [DecodeFrame] accepts exactly
    the bytes [EncodeFrame] produces for frames within the bound. *)
Theorem frame_canonical max data f :
  kMinMaxFrameBytes ≤ max → u32_fits max → Forall u8_fits data →
  DecodeFrame data max = Value f ↔
  frame_fits max f ∧ EncodeFrame f max = Value data.
Proof.
  intros Hmin Hm Hu. split.
  - intros H. apply DecodeFrame_exact in H as [-> Hf]; [|done]. split; [done|].
    apply EncodeFrame_bytes; [done..|apply (ff_body _ _ Hf)].
  - intros [Hf He]. rewrite EncodeFrame_bytes in He by (done || apply (ff_body _ _ Hf)).
    injection He as <-. by apply DecodeFrame_bytes.
Qed.

Lemma frame_canonical_witness :
  DecodeFrame (frame_bytes (sample_frame [1; 2; 3])) 1024 = Value (sample_frame [1; 2; 3]) ↔
  frame_fits 1024 (sample_frame [1; 2; 3]) ∧
  EncodeFrame (sample_frame [1; 2; 3]) 1024 = Value (frame_bytes (sample_frame [1; 2; 3])).
Proof. apply frame_canonical; [done|done|]. by repeat constructor. Defined.

(** C30: a damaged body is refused.  When up to four consecutive bytes of
    the body of a frame were overwritten in transit, [ReceiveFrame] does not
    return a frame but the checksum mismatch. *)
Theorem damaged_frame_refused strerror max f pre old new suf more chunks :
  u32_fits max → frame_fits max f → fr_body f = pre ++ old ++ suf →
  Forall u8_fits new → length new = length old → (length old <= 4)%nat → new ≠ old →
  Forall (.≠ []) chunks → mjoin chunks = frame_header f ++ (pre ++ new ++ suf) ++ more →
  ∃ left c, ReceiveFrame strerror (RecvBytes <$> chunks) (connected max (FrameStream_init max)) =
    (Some (Error (mkStatus StatusCode.kFrameChecksumMismatch "frame checksum mismatch")), left, c).
Proof.
  intros Hm Hf Hbody Hnew Hlen Hle Hne Hc Hj.
  assert (next_frame max (mjoin chunks) =
          Error (mkStatus StatusCode.kFrameChecksumMismatch "frame checksum mismatch")) as Hn.
  { assert (size (pre ++ new ++ suf) = size (fr_body f)) as Hsz.
    { rewrite Hbody. unfold size. rewrite !length_app. lia. }
    rewrite Hj, next_frame_header, DecodeFrame_header by done.
    destruct (N.eqb_spec (Crc32C_Compute (pre ++ new ++ suf)) (Crc32C_Compute (fr_body f)))
      as [Hcrc|]; [|done].
    pose proof (ff_bytes _ _ Hf) as Hu. rewrite Hbody, !Forall_app in Hu.
    rewrite Hbody in Hcrc. apply Crc32C_Compute_burst in Hcrc; [done|done|naive_solver|done|lia]. }
  pose proof (receive_loop_spec strerror chunks [] (FrameStream_init max) Hc) as H.
  cbv zeta in H. change (pending (FrameStream_init max) ++ ?b) with b in H.
  change (fs_max_frame_bytes (FrameStream_init max)) with max in H. rewrite Hn, app_nil_r in H.
  destruct H as (left & s' & H). exists ((RecvBytes <$> left) ++ []), (connected max s').
  by rewrite ReceiveFrame_open, H.
Qed.

Lemma damaged_frame_refused_witness :
  ∃ left c, ReceiveFrame "" (RecvBytes <$> [frame_header (sample_frame [1; 2; 3]); [1; 0; 0]])
              (connected 1024 (FrameStream_init 1024)) =
    (Some (Error (mkStatus StatusCode.kFrameChecksumMismatch "frame checksum mismatch")), left, c).
Proof.
  apply (damaged_frame_refused "" 1024 (sample_frame [1; 2; 3]) [1] [2; 3] [0; 0] [] []).
  - done.
  - apply sample_fits; [by repeat constructor|done].
  - done.
  - by repeat constructor.
  - done.
  - cbn. lia.
  - done.
  - by repeat constructor.
  - done.
Defined.

(** ** Errors and buffers *)

(** A stream error is final.  Once [Next] has reported an error, it
    reports the same error after any further bytes: a damaged stream never comes
    back to delivering frames. *)
Theorem stream_error_final s status s' data :
  FrameStream_Next s = (Error status, s') →
  FrameStream_Next (Feed data s') = (Error status, Feed data s').
Proof.
  rewrite !FrameStream_Next_spec. cbv zeta. pose proof (next_frame_app (fs_max_frame_bytes s) (pending s) data) as H.
  destruct (next_frame (fs_max_frame_bytes s) (pending s)) as [[[? ?]|]|st]; [done|done|].
  intros [= <- <-]. rewrite pending_Feed by done.
  change (pending (mkStream (pending s) 0 ?m)) with (pending s). cbn [fs_max_frame_bytes Feed].
  by rewrite H.
Qed.

Lemma stream_error_final_witness :
  FrameStream_Next (Feed [1; 2; 3] (mkStream (replicate 20 255) 0 1024)) =
  (Error (mkStatus StatusCode.kFrameTooLarge
            "declared frame length exceeds the negotiated bound"),
   Feed [1; 2; 3] (mkStream (replicate 20 255) 0 1024)).
Proof. apply (stream_error_final (mkStream (replicate 20 255) 0 1024)). by vm_compute. Defined.

(** The size of the buffer [ReceiveFrame] hands to [recv]. *)
Definition kReceiveChunk : N := 64 * 1024.

Lemma next_frame_rest max bytes f rest :
  next_frame max bytes = Value (Some (f, rest)) → size rest ≤ size bytes.
Proof.
  unfold next_frame. repeat (case_match; try done). intros [= _ <-].
  unfold size. rewrite length_drop. lia.
Qed.

Lemma receive_loop_bound strerror bound max received : ∀ s result left s',
  max + kFrameHeaderBytes + kReceiveChunk ≤ bound → fs_max_frame_bytes s = max →
  Forall (λ r, match r with RecvBytes chunk => size chunk ≤ kReceiveChunk | RecvError => True end)
    received →
  size (pending s) ≤ bound →
  receive_loop strerror received s = (result, left, s') →
  size (fs_buffer s') ≤ bound ∧ fs_offset s' = 0%nat ∧ fs_max_frame_bytes s' = max.
Proof.
  induction received as [|r received IH]; intros s result left s' Hb Hs Hr Hp; cbn [receive_loop];
    rewrite FrameStream_Next_spec; cbv zeta; rewrite Hs;
    destruct (next_frame max (pending s)) as [[[f rest]|]|status] eqn:E;
    try (intros [= _ _ <-]; cbn [fs_buffer fs_offset fs_max_frame_bytes];
         (apply next_frame_rest in E || idtac); (split_and!; [lia|done|done])).
  apply Forall_cons in Hr as [Hchunk Hr]. destruct r as [|[|b chunk]];
    try (intros [= _ _ <-]; cbn [fs_buffer fs_offset fs_max_frame_bytes]; (split_and!; [lia|done|done])).
  intros H. apply (IH (Feed (b :: chunk) (mkStream (pending s) 0 max)) result left s'); try done.
  rewrite pending_Feed by done. change (pending (mkStream ?p 0 max)) with p.
  apply next_frame_none in E. unfold size in *. rewrite length_app. unfold kFrameHeaderBytes in Hb. lia.
Qed.

(** The receive buffer is bounded.  Where [recv] fills at most 64 KiB at
    a time, the buffer of a connection never exceeds the negotiated bound plus the
    header plus 64 KiB, whatever the peer sends. *)
Theorem receive_buffer_bound strerror max received s result left c :
  Forall (λ r, match r with RecvBytes chunk => size chunk ≤ kReceiveChunk | RecvError => True end)
    received →
  fs_max_frame_bytes s = max → size (pending s) ≤ max + kFrameHeaderBytes + kReceiveChunk →
  ReceiveFrame strerror received (connected max s) = (result, left, c) →
  size (fs_buffer (con_stream c)) ≤ max + kFrameHeaderBytes + kReceiveChunk.
Proof.
  intros Hr Hs Hp H. rewrite ReceiveFrame_open in H.
  destruct (receive_loop strerror received s) as [[r l] s'] eqn:E.
  injection H as <- <- <-. cbn [con_stream connected].
  by eapply (receive_loop_bound strerror _ max received s).
Qed.

Lemma receive_buffer_bound_witness :
  size [1; 2; 3] ≤ 1024 + kFrameHeaderBytes + kReceiveChunk.
Proof.
  apply (receive_buffer_bound "" 1024 [RecvBytes [1; 2; 3]] (FrameStream_init 1024) None []
    (connected 1024 (mkStream [1; 2; 3] 0 1024))).
  - repeat constructor. by vm_compute.
  - done.
  - by vm_compute.
  - by vm_compute.
Defined.

(** An oversized frame is buffered.  A frame whose declared
    length is over the negotiated bound of 1024 bytes is held in the buffer with
    its body, past the bound, when [ReceiveFrame] refuses it. *)
Theorem oversized_frame_buffered :
  let chunk := frame_header (sample_frame (replicate 1025 0)) ++ replicate 1025 0 in
  size chunk ≤ kReceiveChunk ∧ kFrameHeaderBytes + 1024 < size chunk ∧
  ReceiveFrame "" [RecvBytes chunk] (connected 1024 (FrameStream_init 1024)) =
    (Some (Error (mkStatus StatusCode.kFrameTooLarge
                    "declared frame length exceeds the negotiated bound")), [],
     connected 1024 (mkStream chunk 0 1024)).
Proof. cbv zeta. split; [by vm_compute|]. split; [by vm_compute|]. vm_compute. reflexivity. Qed.

(** ** Payloads *)

(** Every fixed payload has exactly one encoding.  On any buffer of
    bytes the decoders of hello, hello acknowledgement, place result, epoch,
    error, intent, authority and recovery payloads return [v] if and only if the
    buffer is the encoding of [v], whose fields fit their types and limits. *)
Theorem payloads_canonical limits bs :
  Forall u8_fits bs →
  (∀ v, (∃ r, DecodeHello (mkReader bs 0) = Value (v, r)) ↔
        bs = EncodeHello v [] ∧ hello_fits v) ∧
  (∀ v, (∃ r, DecodeHelloAck (mkReader bs 0) = Value (v, r)) ↔
        bs = EncodeHelloAck v [] ∧ hello_ack_fits v) ∧
  (∀ v, (∃ r, DecodePlaceResult limits (mkReader bs 0) = Value (v, r)) ↔
        bs = EncodePlaceResult v [] ∧ place_result_fits limits v) ∧
  (∀ v, (∃ r, DecodeEpochPayload (mkReader bs 0) = Value (v, r)) ↔
        bs = EncodeEpochPayload v [] ∧ epoch_payload_fits v) ∧
  (∀ v, (∃ r, DecodeErrorPayload (mkReader bs 0) = Value (v, r)) ↔
        bs = EncodeErrorPayload v [] ∧ error_payload_fits v) ∧
  (∀ v, (∃ r, DecodeIntent (mkReader bs 0) = Value (v, r)) ↔
        bs = EncodeIntent v [] ∧ intent_fits v) ∧
  (∀ v, (∃ r, DecodeAuthorityVector (mkReader bs 0) = Value (v, r)) ↔
        bs = EncodeAuthorityVector v [] ∧ authority_fits v) ∧
  (∀ v, (∃ r, DecodeAuthorityExpectation (mkReader bs 0) = Value (v, r)) ↔
        bs = EncodeAuthorityExpectation v [] ∧ expectation_fits v) ∧
  (∀ v, (∃ r, DecodeRecoveryReport (mkReader bs 0) = Value (v, r)) ↔
        bs = EncodeRecoveryReport v [] ∧ report_fits v).
Proof.
  intros Hbs. split_and!; intros v.
  - apply (canonical _ EncodeHello hello_fits bs v accepts_hello); [|apply DecodeHello_inverts|done].
    unfold DecodeHello. at_end.
  - apply (canonical _ EncodeHelloAck hello_ack_fits bs v accepts_hello_ack);
      [|apply DecodeHelloAck_inverts|done]. unfold DecodeHelloAck. at_end.
  - apply (canonical _ EncodePlaceResult _ bs v (accepts_place_result limits));
      [apply DecodePlaceResult_ends|apply DecodePlaceResult_inverts|done].
  - apply (canonical _ EncodeEpochPayload epoch_payload_fits bs v accepts_epoch_payload);
      [|apply DecodeEpochPayload_inverts|done]. unfold DecodeEpochPayload. at_end.
  - apply (canonical _ EncodeErrorPayload error_payload_fits bs v accepts_error_payload);
      [|apply DecodeErrorPayload_inverts|done]. unfold DecodeErrorPayload. at_end.
  - apply (canonical _ EncodeIntent intent_fits bs v accepts_whole_intent);
      [|apply DecodeIntent_inverts|done]. unfold DecodeIntent. at_end.
  - apply (canonical _ EncodeAuthorityVector authority_fits bs v accepts_whole_authority);
      [|apply DecodeAuthorityVector_inverts|done]. unfold DecodeAuthorityVector. at_end.
  - apply (canonical _ EncodeAuthorityExpectation expectation_fits bs v accepts_whole_expectation);
      [|apply DecodeAuthorityExpectation_inverts|done]. unfold DecodeAuthorityExpectation. at_end.
  - apply (canonical _ EncodeRecoveryReport report_fits bs v accepts_report);
      [|apply DecodeRecoveryReport_inverts|done]. unfold DecodeRecoveryReport. at_end.
Qed.

Lemma payloads_canonical_witness :
  ∃ r, DecodeAuthorityExpectation (mkReader (EncodeAuthorityExpectation fixture_expected []) 0) =
       Value (fixture_expected, r).
Proof.
  apply (payloads_canonical default_limits (EncodeAuthorityExpectation fixture_expected [])).
  - by repeat constructor.
  - split; [done|]. by repeat constructor.
Defined.
