(* ===== verification/StoreProps.v ===== *)
(** * Properties of the store *)

From Stdlib Require Import String.
From S2P Require Import Prelude StdAlgo Checked Status Bytes Hash Model Explain Records Codec.
From S2P Require Import CodecFacts CodecExact Wire WireFacts Store JournalFacts Ledger.
From S2P Require Import StoreOps StoreFacts RecoveryFacts StoreTyped Durability.
From S2P Require Import CompactFacts.

(** ** Concrete inputs *)

Definition demo_options : StoreOptions := mkOptions true true false 4096 0 1000.
Definition empty_disk : Disk := mkDisk None None.

Definition demo_intent (attempt flow path : N) : PlacementIntent :=
  let intent digest := mkIntent flow 1 path 7 1 1 1 1 1 1 1 1 0 0 1 (mkRef 0 0) attempt 0 digest in
  intent (IntentDigest (intent Digest_zero)).

Definition demo_start (attempt flow : N) : AttemptRecord :=
  mkAttempt attempt 9 1 flow AttemptPhase.kStarted StatusCode.kOk Digest_zero 0 1000%Z.

Definition demo_end (phase : AttemptPhase) (attempt flow : N) : AttemptRecord :=
  mkAttempt attempt 9 1 flow phase StatusCode.kOk Digest_zero 0 1001%Z.

Definition demo_commit (attempt flow path : N) : StoreOp :=
  OpCommit (demo_intent attempt flow path) IncumbentDelta.kNoIncumbent Digest_zero 9 1 2000%Z.

(** A complete attempt that places [flow] on [path]. *)
Definition demo_attempt (attempt flow path : N) : list StoreOp :=
  [OpStart (demo_start attempt flow); demo_commit attempt flow path;
   OpTerminal (demo_end AttemptPhase.kCommitted attempt flow)].

(** Ranges of concrete values. *)
Ltac concrete_fits :=
  repeat first
    [ match goal with |- Forall _ _ => constructor | |- _ ∧ _ => split | |- True => constructor end
    | progress unfold demo_attempt, demo_commit, op_typed, attempt_fits, intent_fits,
        reservation_fits, digest_fits, i64_fits
    | vm_compute; first [reflexivity|discriminate] ].

Definition demo_store : PlacementStore :=
  match (Open "store" demo_options empty_disk).1 with
  | Value s => s
  | Error _ => mkStore "" demo_options report_init (mkStats 0 0 0 0 0 0) false Impl_init
  end.
Definition demo_disk : Disk := mkDisk (Some []) None.

Example demo_open : Open "store" demo_options empty_disk = (Value demo_store, demo_disk).
Proof. vm_compute. reflexivity. Qed.

Example demo_run :
  let w := run_ops (demo_attempt 5 3 11 ++ demo_attempt 6 3 12) (mkWorld demo_store demo_disk []) in
  (pl_generation <$> FindLatest 3 (w_store w), pl_generation <$> FindByAttempt 5 (w_store w),
   size (default [] (dk_journal (w_disk w)))) = (Some 2, Some 1, 966).
Proof. vm_compute. reflexivity. Qed.

Lemma demo_workable : workable demo_options.
Proof. by constructor. Qed.

(** ** Loading a journal *)

(** C7: loading terminates, as the replay of the journal's records.
    Every journal is, in exactly one way, the bytes of a list of records as
    [AppendRecordRaw] writes them and a rest that does not start with one; the
    fuel of the loop is enough for all of them.  The load fails with the status of
    the first record that cannot be applied; otherwise it ends with the state the
    records leave, when nothing follows them, and with what [HandleDamage] decides
    about the rest. *)
Theorem LoadJournal_total options data impl recovery :
  u32_fits (max_record_bytes options) → Forall u8_fits data →
  exists! p : list LogRecord * list N, let '(log, tail) := p in
    data = journal_bytes log ++ tail ∧ Forall (record_ok (max_record_bytes options)) log ∧
    read_record (max_record_bytes options) data (size (journal_bytes log)) = None ∧
    LoadJournal options (Some data) impl recovery =
    match replay (im_max_sequence impl) 0 log impl recovery with
    | Error status => Error status
    | Value (impl, recovery) =>
        if size tail =? 0 then Value (mkLoaded impl recovery (size log) (size data))
        else
          let '(status, recovery, journal_length) :=
            HandleDamage options data (size (journal_bytes log)) recovery in
          if status_ok status then Value (mkLoaded impl recovery (size log) journal_length)
          else Error status
    end.
Proof.
  intros Hl Hu. destruct (parse_log options data Hl Hu (length data) 0) as (log & tail & Hd & Hlog & Hend);
    [lia|lia|]. cbn [N.to_nat] in Hd. rewrite drop_0 in Hd. rewrite N.add_0_l in Hend.
  exists (log, tail). split.
  - split; [done|]. split; [done|]. split; [done|].
    rewrite (LoadJournal_log options data log tail) by done.
    destruct (replay _ _ _ _ _) as [[j rep]|]; [|done]. unfold load_end.
    assert ((size (journal_bytes log) <? size data) = negb (size tail =? 0)) as ->.
    { apply eq_true_iff_eq. rewrite Hd, size_app. b2p. lia. }
    by destruct (size tail =? 0).
  - intros [log' tail'] (Hd' & Hlog' & Hend' & _).
    destruct (parse_log_unique options data Hl log log' tail tail' 0) as [-> ->]; try done;
      by rewrite drop_0 || by rewrite N.add_0_l.
Qed.

Lemma LoadJournal_total_witness :
  exists! p : list LogRecord * list N, let '(log, tail) := p in
    [70; 80; 82] = journal_bytes log ++ tail ∧ Forall (record_ok 4096) log ∧
    read_record 4096 [70; 80; 82] (size (journal_bytes log)) = None ∧
    LoadJournal demo_options (Some [70; 80; 82]) Impl_init report_init =
    match replay (im_max_sequence Impl_init) 0 log Impl_init report_init with
    | Error status => Error status
    | Value (impl, recovery) =>
        if size tail =? 0 then Value (mkLoaded impl recovery (size log) (size [70; 80; 82]))
        else
          let '(status, recovery, journal_length) :=
            HandleDamage demo_options [70; 80; 82] (size (journal_bytes log)) recovery in
          if status_ok status then Value (mkLoaded impl recovery (size log) journal_length)
          else Error status
    end.
Proof.
  apply (LoadJournal_total demo_options [70; 80; 82] Impl_init report_init); [reflexivity|].
  by repeat constructor.
Defined.

(** The damage scan is the search of every offset.
    The scan reads the file in chunks that overlap by three bytes; it finds a
    record exactly when a complete one starts at or after the offset it is given,
    and its fuel is enough. *)
Theorem scan_finds_every_record fuel limit data scan :
  (N.to_nat (size data - scan) ≤ fuel)%nat →
  scan_chunks fuel limit data scan = true ↔
  ∃ candidate, scan ≤ candidate ∧ candidate + (kHeaderBytes + kTrailerBytes) ≤ size data ∧
    is_Some (read_record limit data candidate).
Proof.
  intros Hf. rewrite (scan_chunks_spec fuel limit data scan Hf). unfold record_after.
  split; intros (c & Hc & H); exists c; (split; [done|]).
  - unfold is_record_at in H. b2p. destruct H as [H1 H2].
    split; [done|]. by destruct (read_record _ _ _) as [[[? ?] ?]|].
  - destruct H as [H1 [x H2]]. unfold is_record_at. b2p. split; [done|]. rewrite H2. by destruct x as [[? ?] ?].
Qed.

Lemma scan_finds_every_record_witness :
  scan_chunks 60 4096 ([0; 0; 0] ++ encode_record 3 1 (le_bytes 8 0)) 1 = true ↔
  ∃ candidate, 1 ≤ candidate ∧ candidate + (kHeaderBytes + kTrailerBytes) ≤
      size ([0; 0; 0] ++ encode_record 3 1 (le_bytes 8 0)) ∧
    is_Some (read_record 4096 ([0; 0; 0] ++ encode_record 3 1 (le_bytes 8 0)) candidate).
Proof. apply scan_finds_every_record. vm_compute. lia. Defined.

(** ** The invariants of an open store *)

(** C6: the indices of the store are right and its history is numbered.
    After opening any disk and any operations, whatever the file system answers,
    [FindLatest] is the last placement of the flow, [FindByAttempt] the last of the
    attempt, and attempts are stored under their own identifier.  If in the store
    that was opened the generations of every flow were 1, 2, 3, ... and no attempt
    had two placements, then this still holds: a generation is never skipped or
    used twice, and an attempt never places twice. *)
Theorem store_coherent path options disk s disk' ops io :
  Open path options disk = (Value s, disk') →
  let w := run_ops ops (mkWorld s disk' io) in
  well_indexed (st_impl (w_store w)) ∧
  (numbered (st_impl s) → numbered (st_impl (w_store w))).
Proof.
  intros Ho w. pose proof (Open_well_indexed _ _ _ _ _ Ho) as Hw.
  split.
  - apply (run_ops_inv (λ _, True) well_indexed); [|by apply Forall_true|done].
    intros op impl impl' _. apply book_step_well_indexed.
  - intros Hn. apply (run_ops_inv (λ _, True) (λ impl, well_indexed impl ∧ numbered impl));
      [|by apply Forall_true|done].
    intros op impl impl' _ Hs [H1 H2].
    split; [by eapply book_step_well_indexed|by eapply book_step_numbered].
Qed.

Lemma store_coherent_witness :
  let w := run_ops (demo_attempt 5 3 11 ++ demo_attempt 6 3 12)
             (mkWorld demo_store demo_disk [IoOk; IoFail]) in
  well_indexed (st_impl (w_store w)) ∧
  (numbered (st_impl demo_store) → numbered (st_impl (w_store w))) ∧ numbered (st_impl demo_store).
Proof.
  destruct (store_coherent "store" demo_options empty_disk demo_store demo_disk
    (demo_attempt 5 3 11 ++ demo_attempt 6 3 12) [IoOk; IoFail] demo_open) as [H1 H2].
  split; [exact H1|]. split; [exact H2|]. constructor; [reflexivity|].
  intros attempt _. vm_compute. lia.
Defined.

(** C9: every value the store holds is in the range of its type.
    After opening a disk of any bytes and any operations whose arguments are in
    range, whatever the file system answers, every field of every placement and
    attempt fits its C++ type, generations and identifiers that were counted up
    included; so the verification of the encoding of a placement never fails. *)
Theorem store_typed path options disk s disk' ops io :
  workable options → disk_bytes disk → Forall op_typed ops →
  Open path options disk = (Value s, disk') →
  let w := run_ops ops (mkWorld s disk' io) in
  typed (st_impl (w_store w)) ∧
  ∀ intent delta digest by_incarnation epoch now record,
    op_typed (OpCommit intent delta digest by_incarnation epoch now) →
    next_placement intent delta digest by_incarnation epoch now (st_impl (w_store w)) = Value record →
    decodes_back record = true.
Proof.
  intros Hk Hu Ht Ho w. destruct (Open_session _ _ _ _ _ Hk Hu Ho) as [[_ Hw Hty _] _].
  assert (well_indexed (st_impl (w_store w)) ∧ typed (st_impl (w_store w))) as [Hw' Ht'].
  { apply (run_ops_inv op_typed (λ impl, well_indexed impl ∧ typed impl)); [|done..].
    intros op impl impl' Hop Hs H. by eapply book_step_typed. }
  split; [done|]. intros intent delta digest by_incarnation epoch now record Hop Hn.
  pose proof (next_placement_fits _ _ _ _ _ _ _ _ Hw' Ht' Hop Hn) as Hfit.
  unfold decodes_back. rewrite decode_placement_all by done. cbn [unvalidated pl_intent pl_id pl_generation].
  rewrite !N.eqb_refl, !andb_true_r. apply PlacementIntent_eqb_refl.
Qed.

Lemma store_typed_witness :
  let w := run_ops (demo_attempt 5 3 11) (mkWorld demo_store demo_disk [IoShort 9]) in
  typed (st_impl (w_store w)) ∧
  ∀ intent delta digest by_incarnation epoch now record,
    op_typed (OpCommit intent delta digest by_incarnation epoch now) →
    next_placement intent delta digest by_incarnation epoch now (st_impl (w_store w)) = Value record →
    decodes_back record = true.
Proof.
  apply (store_typed "store" demo_options empty_disk demo_store demo_disk (demo_attempt 5 3 11)
    [IoShort 9]); [exact demo_workable|by split| |exact demo_open].
  concrete_fits.
Defined.

(** ** Committing *)




(** ** Reopening *)

(** The disk a crash leaves: the journal with a part of the record that was being
    appended. *)
Definition crashed (w : World) (torn : list N) : Disk :=
  mkDisk (Some (default [] (dk_journal (w_disk w)) ++ torn)) (dk_snapshot (w_disk w)).

(** A torn write holds no complete record. *)
Definition no_embedded_record (options : StoreOptions) (w : World) (torn : list N) : Prop :=
  let journal := default [] (dk_journal (w_disk w)) in
  ¬ record_after (max_record_bytes options) (journal ++ torn) (size journal + 1).

Section Reopening.
Context (path : string) (options : StoreOptions) (disk0 disk : Disk) (s : PlacementStore)
  (ops : list StoreOp).
Context (Hworkable : workable options)
  (Hbytes : disk_bytes disk0) (Hopen : Open path options disk0 = (Value s, disk))
  (Htyped : Forall op_typed ops) (Hquiet : Forall quiet ops) (Hroom : room (size ops) s).

Lemma session_after :
  ∃ s' disk', run_ops ops (mkWorld s disk []) = mkWorld s' disk' [] ∧ session s' disk' ∧
    st_options s' = options ∧ dk_snapshot disk' = dk_snapshot disk0.
Proof.
  destruct (Open_session _ _ _ _ _ Hworkable Hbytes Hopen) as (Hs & <- & <-).
  by apply session_run.
Qed.

Lemma reopen_after (Hrepair : repair_torn_tail options = true) r k :
  let w := run_ops ops (mkWorld s disk []) in
  let torn := take k (record_bytes r) in
  record_ok (max_record_bytes options) r → (k < length (record_bytes r))%nat →
  no_embedded_record options w torn → ¬ ledger_orphaned (ledger_of (st_impl (w_store w))) →
  ∃ s', Open path options (crashed w torn) = (Value s', w_disk w) ∧
    ledger_of (st_impl s') = ledger_of (st_impl (w_store w)) ∧
    rep_truncated_tail (st_recovery s') = negb (size torn =? 0) ∧
    rep_bytes_discarded (st_recovery s') = size torn ∧
    rep_liveness_restored (st_recovery s') = false.
Proof.
  intros w torn Hr Hk Hno Horphan.
  destruct session_after as (s1 & disk1 & E & [_ Hw Ht Hres] & Ho & Hd).
  unfold w in *. rewrite E in *. cbn [w_store w_disk] in *. rewrite Ho in Hres.
  pose proof Hres as (base & brep & log & j & jrep & _ & Hj & Hlog & _).
  unfold crashed, no_embedded_record in *. cbn [w_disk] in *. rewrite Hj in *.
  change (default [] (Some (journal_bytes log))) with (journal_bytes log) in *.
  apply reopen_torn with (impl := st_impl s1); try done.
  intros (c & Hc & Hrec). destruct (N.eq_dec c (size (journal_bytes log))) as [->|Hne].
  - assert (Forall u8_fits (journal_bytes log)) as Hu by by eapply journal_bytes_u8.
    pose proof (torn_record _ _ r k (wk_limit _ Hworkable) Hu Hr Hk) as E'.
    assert (true = false) as [=]. rewrite <-Hrec. exact E'.
  - apply Hno. exists c. split; [lia|done].
Qed.
End Reopening.

(** C3: Opening the disk again restores the store after a quiet session, even one
    that died in the middle of an append.  A session is quiet here when: the options are
    workable (writable, records of at least 241 bytes and a 32-bit bound, tails are
    repaired); the store was opened from any bytes and its operations, with arguments of
    their C++ types, are no [Compact] and no [Close]; the journal stays too short for an
    automatic compaction; and no file-system call fails.  Then, with any strict prefix of
    a readable record on the disk behind the journal (the empty one: the process just
    ends), provided that the torn bytes do not themselves complete a record and that no
    attempt was recorded as committed without a placement, opening succeeds and gives the
    same latest placements, the same placement of every attempt, the same attempts,
    identifiers and sequence; exactly the torn bytes are discarded and reported, and the
    journal is repaired. *)
Theorem store_reopen path options disk0 disk s ops r k :
  workable options → repair_torn_tail options = true → disk_bytes disk0 →
  Open path options disk0 = (Value s, disk) →
  Forall op_typed ops → Forall quiet ops → room (size ops) s →
  let w := run_ops ops (mkWorld s disk []) in
  let torn := take k (record_bytes r) in
  record_ok (max_record_bytes options) r → (k < length (record_bytes r))%nat →
  no_embedded_record options w torn → ¬ ledger_orphaned (ledger_of (st_impl (w_store w))) →
  ∃ s', Open path options (crashed w torn) = (Value s', w_disk w) ∧
    ledger_of (st_impl s') = ledger_of (st_impl (w_store w)) ∧
    (∀ flow, FindLatest flow s' = unvalidated <$> FindLatest flow (w_store w)) ∧
    (∀ attempt, FindByAttempt attempt s' = unvalidated <$> FindByAttempt attempt (w_store w)) ∧
    rep_truncated_tail (st_recovery s') = negb (size torn =? 0) ∧
    rep_bytes_discarded (st_recovery s') = size torn ∧
    rep_liveness_restored (st_recovery s') = false.
Proof.
  intros Hk Hrep Hu Ho Ht Hq Hroom w torn Hr Hlen Hno Horphan.
  destruct (reopen_after path options disk0 disk s ops Hk Hu Ho Ht Hq Hroom Hrep r k Hr Hlen Hno Horphan)
    as (s' & Hs' & Hl & Hrest).
  change (ledger_of (st_impl s') = ledger_of (st_impl (w_store w))) in Hl.
  exists s'. split; [done|]. split; [done|].
  pose proof (Open_marked _ _ _ _ _ Hs') as Hmarked.
  destruct (ledger_queries s') as [Q1 Q2], (ledger_queries (w_store w)) as [Q3 Q4].
  split; [|split; [|done]].
  - intros flow. rewrite Q3, <-Hl, <-Q1. symmetry. by apply marked_query.
  - intros attempt. rewrite Q4, <-Hl, <-Q2. symmetry. by apply marked_query.
Qed.

Lemma no_orphans impl report :
  indexed impl → (recovery_accounting impl report).2 = false → ¬ ledger_orphaned (ledger_of impl).
Proof.
  intros Hi Ho. destruct (recovery_accounting impl report) as [[impl' rep] o] eqn:E. cbn in Ho. subst o.
  apply recovery_accounting_spec in E as (_ & Ho & _). rewrite <-orphaned_ledger by done.
  intros H. apply Ho in H. done.
Qed.

Lemma no_embedded_scan options w torn :
  scan_chunks (length (default [] (dk_journal (w_disk w)) ++ torn)) (max_record_bytes options)
    (default [] (dk_journal (w_disk w)) ++ torn) (size (default [] (dk_journal (w_disk w))) + 1) = false →
  no_embedded_record options w torn.
Proof.
  intros H. unfold no_embedded_record. cbv zeta. rewrite <-scan_chunks_spec; [by rewrite H|].
  unfold size. lia.
Qed.

Definition demo_torn : LogRecord := attempt_entry 4 (demo_start 6 3).

Lemma demo_indexed ops : indexed (st_impl (w_store (run_ops ops (mkWorld demo_store demo_disk [])))).
Proof.
  apply wi_indexed, (run_ops_inv (λ _, True) well_indexed); [|by apply Forall_true|].
  - intros op impl impl' _. apply book_step_well_indexed.
  - exact (Open_well_indexed _ _ _ _ _ demo_open).
Qed.

Lemma demo_torn_ok : record_ok 4096 demo_torn.
Proof.
  destruct (attempt_payload (demo_start 6 3)) as [Hu Hs].
  constructor; [by right; left|done|cbn [demo_torn attempt_entry lr_payload]; by rewrite Hs|exact Hu].
Qed.

Lemma store_reopen_witness :
  let w := run_ops (demo_attempt 5 3 11) (mkWorld demo_store demo_disk []) in
  let torn := take 50 (record_bytes demo_torn) in
  ∃ s', Open "store" demo_options (crashed w torn) = (Value s', w_disk w) ∧
    ledger_of (st_impl s') = ledger_of (st_impl (w_store w)) ∧
    (∀ flow, FindLatest flow s' = unvalidated <$> FindLatest flow (w_store w)) ∧
    (∀ attempt, FindByAttempt attempt s' = unvalidated <$> FindByAttempt attempt (w_store w)) ∧
    rep_truncated_tail (st_recovery s') = negb (size torn =? 0) ∧
    rep_bytes_discarded (st_recovery s') = size torn ∧
    rep_liveness_restored (st_recovery s') = false.
Proof.
  apply (store_reopen "store" demo_options empty_disk demo_disk demo_store (demo_attempt 5 3 11)
    demo_torn 50 demo_workable eq_refl); [by split|exact demo_open| | | |exact demo_torn_ok| | |].
  - concrete_fits.
  - by repeat constructor.
  - by left.
  - vm_compute. lia.
  - apply no_embedded_scan. vm_compute. reflexivity.
  - apply (no_orphans _ report_init); [|vm_compute; reflexivity].
    apply demo_indexed.
Defined.




(** ** Compaction *)

(** The placement of an attempt among the latest ones. *)
Definition kept_commit (attempt : N) (store : PlacementStore) : option PlacementRecord :=
  if valid attempt then last (of_attempt attempt (LatestPlacements store)) else None.

(** An attempt recorded as committed whose placement a later one replaced. *)
Definition committed_superseded (store : PlacementStore) : Prop :=
  ∃ id a, retained_attempt (st_options store) (st_impl store) id = Some a ∧
    at_phase a = AttemptPhase.kCommitted ∧ kept_commit id store = None.

Lemma session_sequence s disk :
  session s disk → disk_bytes (mkDisk None (dk_snapshot disk)) → u64_fits (im_max_sequence (st_impl s)).
Proof.
  intros [_ _ _ (base & brep & log & j & rep & Hb & _ & Hlog & Hr & _ & Hl)] Hu.
  destruct (ledger_eq_parts _ _ Hl) as [_ <-].
  eapply (replay_inv (max_record_bytes (st_options s)) (λ impl _, u64_fits (im_max_sequence impl)));
    [|exact Hlog| |exact Hr].
  - intros r off impl rec impl' rec' [_ Hs _ _] Hi. unfold apply_record.
    repeat (case_match; try done); by intros [= <- <-].
  - by destruct (load_base_typed (st_options s) (mkDisk None (dk_snapshot disk)) base brep Hu Hb).
Qed.

(** C8: What a compaction keeps.  After a quiet session (as in [store_reopen], with
    no torn record) and where the snapshot fits - its payload in a record, the latest
    placements and the retained attempts in the bound on records, which is not zero - the
    compaction succeeds.  Opening again then finds the latest placement of every flow, the
    attempts of the retention window, and the placement of an attempt exactly where it is
    the latest one of its flow; but where an attempt of the window is recorded as committed
    and its placement is not the latest one any more, and under these conditions only
    there, opening fails with [kStoreCorrupt]: compaction drops the placement and keeps the
    attempt. *)
Theorem compaction_reopen path options disk0 disk s ops :
  workable options → disk_bytes disk0 → Open path options disk0 = (Value s, disk) →
  Forall op_typed ops → Forall quiet ops → room (size ops) s → 0 < max_total_records options →
  let w := run_ops ops (mkWorld s disk []) in
  let store := w_store w in
  size (snapshot_payload store) ≤ max_record_bytes options →
  size (LatestPlacements store) ≤ N.min (max_total_records options) (uint_max 32) →
  size (retained_attempts options (st_impl store)) ≤ N.min (max_total_records options) (uint_max 32) →
  (Compact w).1 = Value tt ∧
  match Open path options (w_disk (Compact w).2) with
  | (Value s', disk') =>
      disk' = w_disk (Compact w).2 ∧ ¬ committed_superseded store ∧
      (∀ flow, FindLatest flow s' = unvalidated <$> FindLatest flow store) ∧
      (∀ attempt, FindByAttempt attempt s' = unvalidated <$> kept_commit attempt store) ∧
      (∀ attempt, FindAttempt attempt s' =
         settle (bool_decide (is_Some (kept_commit attempt store))) <$>
         retained_attempt options (st_impl store) attempt)
  | (Error status, _) =>
      status = store_corrupt "store records an acknowledged attempt with no durable placement" ∧
      committed_superseded store
  end.
Proof.
  intros Hk Hu Ho Ht Hq Hroom Hmax w store Hsize Hp Ha.
  destruct (session_after path options disk0 disk s ops Hk Hu Ho Ht Hq Hroom)
    as (s1 & disk1 & E & Hsession & Hopt & Hd). unfold store, w in *. clear w store.
  rewrite E in *. cbn [w_store] in *.
  assert (u64_fits (im_max_sequence (st_impl s1))) as Hseq.
  { eapply session_sequence; [exact Hsession|]. rewrite Hd. split; [constructor|apply Hu]. }
  destruct Hsession as [Happ Hw Hty _].
  destruct (Compact_run s1 disk1 Happ) as (s2 & -> & _); [by rewrite Hopt|].
  cbn [fst snd w_disk]. split; [done|]. unfold uint_max, LatestPlacements in *.
  destruct (Open_compacted path options s1) as (report & _ & ->); try done; try lia.
  destruct (compacted_facts options (st_impl s1) Hw) as (Wc & Pc & Ac).
  unfold open_loaded. cbn [ld_impl ld_recovery ld_journal_length ld_records_read dk_journal dk_snapshot
    fmap option_fmap option_map default from_option].
  destruct (recovery_accounting _ _) as [[impl rep] o] eqn:Er.
  apply recovery_accounting_spec in Er as (-> & Ho' & _).
  assert (∀ id, committed_placement id (compacted options (st_impl s1)) =
    unvalidated <$> kept_commit id s1) as Hcommit.
  { intros id. rewrite (wi_commit _ Wc), Pc, of_attempt_unvalidated. unfold kept_commit, LatestPlacements.
    destruct (valid id); [|done]. apply fmap_last. }
  assert (∀ id, is_Some (im_commit_by_attempt (compacted options (st_impl s1)) !! id) ↔
    is_Some (kept_commit id s1)) as Hsome.
  { intros id. rewrite <-(commits_is_Some _ id (wi_indexed _ Wc)).
    unfold ledger_of. fields. rewrite resolve_is_Some by apply Wc.
    rewrite <-(fmap_is_Some unvalidated), <-Hcommit. unfold committed_placement.
    destruct (im_commit_by_attempt (compacted options (st_impl s1)) !! id) as [i|] eqn:Ei.
    - pose proof (map_Forall_lookup_1 _ _ _ _ (ix_commit _ (wi_indexed _ Wc)) Ei) as Hlt.
      apply lookup_lt_is_Some_2 in Hlt as [p Hp']. cbn [mbind option_bind]. rewrite Hp'. split; eauto.
    - cbn [mbind option_bind]. split; intros [? [=]]. }
  assert (orphaned (compacted options (st_impl s1)) ↔ committed_superseded s1) as Horphan.
  { unfold orphaned, committed_superseded. rewrite Hopt. setoid_rewrite Ac.
    setoid_rewrite eq_None_not_Some. by setoid_rewrite Hsome. }
  rewrite (wk_writable _ Hk). destruct o; [split; [done|by apply Horphan, Ho']|].
  split; [by rewrite take_ge by (unfold size; lia)|]. split.
  { rewrite <-Horphan, <-Ho'. done. }
  unfold FindLatest, FindByAttempt, FindAttempt. cbn [st_impl]. split_and!.
  - intros flow. change (Latest flow (compacted options (st_impl s1)) = unvalidated <$> Latest flow (st_impl s1)).
    by rewrite (wi_latest _ Wc), Pc, of_flow_unvalidated, fmap_last, latest_of_flow.
  - intros id. exact (Hcommit id).
  - intros id. unfold im_with_attempts. fields. rewrite settle_all_lookup, Ac.
    by rewrite (bool_decide_ext _ _ (Hsome id)).
Qed.

Lemma compaction_reopen_witness :
  let w := run_ops (demo_attempt 5 3 11) (mkWorld demo_store demo_disk []) in
  (Compact w).1 = Value tt ∧
  match Open "store" demo_options (w_disk (Compact w).2) with
  | (Value s', disk') => FindLatest 3 s' = unvalidated <$> FindLatest 3 (w_store w)
  | (Error status, _) => committed_superseded (w_store w)
  end.
Proof.
  destruct (compaction_reopen "store" demo_options empty_disk demo_disk demo_store
    (demo_attempt 5 3 11)) as [H1 H2].
  - exact demo_workable.
  - by split.
  - exact demo_open.
  - concrete_fits.
  - by repeat constructor.
  - by left.
  - reflexivity.
  - vm_compute. discriminate.
  - vm_compute. discriminate.
  - vm_compute. discriminate.
  - split; [exact H1|]. destruct (Open _ _ _) as [[s'|status] disk']; [apply H2|apply H2].
Defined.

(** ** Where the store does not do what it promises *)

Definition demo_world : World := mkWorld demo_store demo_disk [].

Definition with_io (io : list IoOutcome) (w : World) : World := mkWorld (w_store w) (w_disk w) io.

(** The message of a failed open. *)
Definition open_error (options : StoreOptions) (disk : Disk) : option string :=
  match (Open "store" options disk).1 with
  | Value _ => None
  | Error status => Some (status_message status)
  end.

(** A disk a crash leaves: the new snapshot is in place, the journal is not yet
    replaced. *)
Definition crash_before_journal : list IoOutcome := [IoOk; IoOk; IoOk; IoOk; IoOk; IoFail].

Definition small_options : StoreOptions := mkOptions true true false 512 0 1000.

(** A compaction can leave a store that no longer opens.
    After each of these runs [Open] answers [kStoreCorrupt].  A flow is placed
    twice, both attempts are recorded as committed, and the store is compacted.
    The snapshot of three flows is larger than the 512 bytes the record bound
    allows, which compaction does not check.  The process dies in a second
    compaction, between the replacement of the snapshot and that of the journal,
    whose marker names the first snapshot; in a first compaction the same crash
    does no harm. *)
Theorem compaction_unreadable :
  (let w := run_ops (demo_attempt 5 3 11 ++ demo_attempt 6 3 12) demo_world in
   (Compact w).1 = Value tt ∧
   open_error demo_options (w_disk (Compact w).2) =
     Some "store records an acknowledged attempt with no durable placement"%string) ∧
  (let w := run_ops [demo_commit 5 3 11; demo_commit 6 4 12; demo_commit 7 5 13]
              (mkWorld (mkStore "store" small_options (st_recovery demo_store) (st_stats demo_store)
                          true (st_impl demo_store)) demo_disk []) in
   (Compact w).1 = Value tt ∧
   open_error small_options (w_disk (Compact w).2) =
     Some "snapshot payload exceeds the configured bound"%string) ∧
  (let w1 := run_ops (demo_attempt 5 3 11) demo_world in
   let w2 := run_ops (OpCompact :: demo_attempt 6 4 12) w1 in
   open_error demo_options (w_disk (Compact (with_io crash_before_journal w1)).2) = None ∧
   open_error demo_options (w_disk (Compact (with_io crash_before_journal w2)).2) =
     Some "journal reset marker does not match the snapshot it follows"%string).
Proof. cbv zeta. split_and!; vm_compute; reflexivity. Qed.

(** A failed sync can lose a later acknowledged commit.
    The sync of an attempt's start record fails, and the operation reports it, but
    the record stays in the journal while its sequence is handed out again.  The
    commit that follows is acknowledged under that sequence; opening the disk
    takes it for a record the snapshot or journal already had, and skips it. *)
Theorem failed_sync_loses_commit :
  let w1 := (run_op (OpStart (demo_start 5 3)) (with_io [IoOk; IoOk; IoFail] demo_world)) in
  let commit := CommitPlacement (demo_intent 6 4 12) IncumbentDelta.kNoIncumbent Digest_zero 9 1
                  2000%Z w1.2 in
  w1.1 = Error (mkStatus StatusCode.kStoreIoError "fsync failed") ∧
  (pl_id <$> FindByAttempt 6 (w_store commit.2)) = Some 1 ∧ result_ok commit.1 = true ∧
  match (Open "store" demo_options (w_disk commit.2)).1 with
  | Value s => FindByAttempt 6 s = None ∧ FindLatest 4 s = None ∧
               rep_truncated_tail (st_recovery s) = false
  | Error _ => False
  end.
Proof. vm_compute. repeat split. Qed.
