(* ===== verification/RuntimeProps.v ===== *)
(** * Properties of the coordinator

    What holds in every coordinator that [Start] returns, whatever its callers do
    and however the threads interleave. *)

From Stdlib Require Import String.
From S2P Require Import Prelude StdAlgo Checked Status Hash Model ModelDigest Validate.
From S2P Require Import Explain Records Wire Store StoreOps StoreFacts RecoveryFacts.
From S2P Require Import Place PlaceCases Threads RuntimeState Runtime RuntimeInv RuntimeCalm.
From S2P Require Import RuntimeCommit RuntimeThreads RuntimeFacts RuntimeAlone Fixture RuntimeDemo.

(** ** Started coordinators *)

Lemma starts_coherent st : starts st → coherent st.
Proof.
  intros (options & process & now & disk & io & Hf & Hs).
  assert (u64_fits (if valid (opt_initial_epoch options) then opt_initial_epoch options else 1)) as He.
  { by destruct (valid _). }
  assert (∀ store, (∀ w, store = Some w → well_indexed (st_impl (w_store w))) →
    st = mkCoordinator (clamp_options options) store
      (exp_with_epoch (if valid (opt_initial_epoch options) then opt_initial_epoch options else 1)
         AuthorityExpectation_init)
      (if valid (opt_initial_epoch options) then opt_initial_epoch options else 1)
      (if valid (opt_incarnation options) then opt_incarnation options
       else AllocateIncarnation process now (opt_seed options))
      RunState.kRunning [] [] 0 0 ∅ CoordinatorStats_init 1 ∅
      (opt_worker_threads (clamp_options options)) []
      (opt_worker_threads (clamp_options options)) now → coherent st) as H.
  { intros store Hw ->. constructor; try done.
    - constructor.
    - intros attempt. cbn. rewrite lookup_empty. split; [by intros ?%elem_of_nil|by intros []]. }
  unfold Start in Hs. destruct (String.eqb _ _).
  - injection Hs as Hs. by apply (H None).
  - destruct (Open _ _ _) as [[store|status] disk'] eqn:Eo; [|done]. injection Hs as Hs.
    apply (H (Some (mkWorld store disk' io))); [|done]. intros w [= <-].
    by eapply Open_well_indexed.
Qed.

(** C10: With honest callers a placement is only committed behind the fence.  Honest
    means two things of what is passed in: the epoch of an authority is a 64-bit value, and
    a decision handed to [Commit] carries an intent only if it places, as those of
    [Prepare] do.  In every coordinator a start can reach with such callers in any
    interleaving, a step changes the placements only by adding one that a registered
    attempt may commit at that moment: the attempt is past the boundary, the epoch it was
    admitted under is the current one, the current authority still matches it, and what is
    added is the engine's own decision on the attempt's request, stamped with that epoch
    and this incarnation.  The epoch never goes back.  Without the second condition this
    fails ([forged_commit]). *)
Theorem commit_fenced st sys e sys' :
  starts st → reaches honest st sys → allowed_event honest e → schedule [e] sys = Some sys' →
  co_epoch (sys_state sys) <= co_epoch (sys_state sys') ∧
  (placements (sys_state sys') = placements (sys_state sys) ∨
   ∃ ref slot r, co_heap (sys_state sys) !! ref = Some slot ∧
     fenced_commit (sys_state sys) slot r ∧ adds_placement (sys_state sys) r (sys_state sys')).
Proof.
  intros Hs Hr Ha Hx. cbn in Hx. destruct (exec _ _ _ e sys) as [sys1|] eqn:E; [|done].
  injection Hx as ->. destruct (reaches_step st sys e sys') as (He & h & Hm); [|done..|].
  { by apply starts_coherent. }
  split; [by destruct He|exact Hm].
Qed.

Lemma commit_fenced_witness :
  let sys := after lab_store (placing_after 18) in
  let sys' := after lab_store (placing_after 18 ++ [Run 1]) in
  (durable 5 (sys_state sys) = Some ([], Some AttemptPhase.kStarted, None) ∧
   durable 5 (sys_state sys') = Some ([1], Some AttemptPhase.kStarted, Some 1)) ∧
  (co_epoch (sys_state sys) <= co_epoch (sys_state sys') ∧
   (placements (sys_state sys') = placements (sys_state sys) ∨
    ∃ ref slot r, co_heap (sys_state sys) !! ref = Some slot ∧
      fenced_commit (sys_state sys) slot r ∧ adds_placement (sys_state sys) r (sys_state sys'))).
Proof.
  intros sys sys'. split; [split; by vm_compute|].
  apply (commit_fenced lab_store sys (Run 1) sys').
  - exact lab_store_starts.
  - apply plain_reaches; by vm_compute.
  - done.
  - apply after_app. by vm_compute.
Defined.

(** Once it is too late, it stays too late.  An attempt that has
    not crossed the commit boundary and is cancelled or finished, or whose coordinator
    is shutting down, never crosses it, whatever runs later. *)
Theorem boundary_closed st sys events sys' ref slot :
  starts st → reaches honest st sys → Forall (allowed_event honest) events →
  schedule events sys = Some sys' →
  co_heap (sys_state sys) !! ref = Some slot → sl_commit_boundary_crossed slot = false →
  sl_cancel_requested slot = true ∨ sl_terminal slot = true ∨
    co_state (sys_state sys) ≠ RunState.kRunning →
  ∃ slot', co_heap (sys_state sys') !! ref = Some slot' ∧
    sl_commit_boundary_crossed slot' = false.
Proof.
  intros Hs Hr He Hx Hslot Hb Hlate.
  destruct (schedule_evolves st sys events sys') as [_ Hev]; [by apply starts_coherent|done..|].
  destruct (ev_heap _ _ _ Hev ref slot Hslot) as (slot' & E & _ & Hc & _). exists slot'.
  split; [done|]. destruct (sl_commit_boundary_crossed slot') eqn:E'; [|done].
  destruct (Hc E' Hb) as (H1 & H2 & H3). naive_solver congruence.
Qed.

Lemma boundary_closed_witness :
  let events := [Spawn (CallSubmit lab_request 5)] ++ steps 1 8 ++ [Spawn (CallCancel 5); Run 2] in
  let more := steps 0 1 ++ [Spawn (CallAwait 5)] ++ steps 3 2 in
  ∃ slot', co_heap (sys_state (after lab_store (events ++ more))) !! 0%nat = Some slot' ∧
    sl_commit_boundary_crossed slot' = false.
Proof.
  intros events more.
  apply (boundary_closed lab_store (after lab_store events) more _ 0
           (slot_at 0 (sys_state (after lab_store events)))).
  - exact lab_store_starts.
  - apply plain_reaches; by vm_compute.
  - apply plain_allowed. by vm_compute.
  - apply after_app. by vm_compute.
  - apply slot_at_lookup. vm_compute. lia.
  - by vm_compute.
  - left. by vm_compute.
Defined.

(** C13: an outcome is final.  The state and the code of a finished
    attempt, its request and its identity never change again. *)
Theorem outcome_final st sys events sys' ref slot :
  starts st → reaches honest st sys → Forall (allowed_event honest) events →
  schedule events sys = Some sys' →
  co_heap (sys_state sys) !! ref = Some slot → sl_terminal slot = true →
  ∃ slot', co_heap (sys_state sys') !! ref = Some slot' ∧ sl_terminal slot' = true ∧
    ao_state (sl_outcome slot') = ao_state (sl_outcome slot) ∧
    ao_code (sl_outcome slot') = ao_code (sl_outcome slot) ∧
    sl_attempt slot' = sl_attempt slot ∧ sl_request slot' = sl_request slot.
Proof.
  intros Hs Hr He Hx Hslot Ht.
  destruct (schedule_evolves st sys events sys') as [_ Hev]; [by apply starts_coherent|done..|].
  destruct (ev_heap _ _ _ Hev ref slot Hslot) as (slot' & E & [] & _). exists slot'.
  destruct (se_terminal Ht) as (? & ? & ?). done.
Qed.

Lemma outcome_final_witness :
  let events := placing_after 28 in
  let more := [Spawn (CallShutdown true)] ++ steps 2 1 in
  let slot := slot_at 0 (sys_state (after lab_store events)) in
  ∃ slot', co_heap (sys_state (after lab_store (events ++ more))) !! 0%nat = Some slot' ∧
    sl_terminal slot' = true ∧ ao_state (sl_outcome slot') = ao_state (sl_outcome slot) ∧
    ao_code (sl_outcome slot') = ao_code (sl_outcome slot) ∧
    sl_attempt slot' = sl_attempt slot ∧ sl_request slot' = sl_request slot.
Proof.
  intros events more slot.
  apply (outcome_final lab_store (after lab_store events) more _ 0 slot).
  - exact lab_store_starts.
  - apply plain_reaches; by vm_compute.
  - apply plain_allowed. by vm_compute.
  - apply after_app. by vm_compute.
  - apply slot_at_lookup. vm_compute. lia.
  - by vm_compute.
Defined.

(** C11: An attempt that is reported committed has its placement.  At any
    moment of any run with honest callers: with a store, the store finds under the attempt
    a placement with the identity and the generation of the outcome and the intent the
    engine decides for the attempt's request.  Without a store only the latest placement of
    each flow is kept: the memory holds a placement of the attempt's flow, of the
    generation of the outcome or a later one that superseded it. *)
Theorem committed_recorded st sys ref slot :
  starts st → reaches honest st sys →
  co_heap (sys_state sys) !! ref = Some slot →
  sl_terminal slot = true → ao_state (sl_outcome slot) = AttemptState.kCommitted →
  match co_store (sys_state sys) with
  | Some w => ∃ r intent, FindByAttempt (sl_attempt slot) (w_store w) = Some r ∧
      pl_id r = ao_placement_id (sl_outcome slot) ∧
      pl_generation r = ao_placement_generation (sl_outcome slot) ∧
      dec_intent (Place (opt_limits (co_options (sys_state sys))) (sl_request slot)) = Some intent ∧
      PlacementIntent_eqb (pl_intent r) intent = true
  | None => ∃ r, co_latest_in_memory (sys_state sys) !! rq_flow (sl_request slot) = Some r ∧
      ao_placement_generation (sl_outcome slot) <= pl_generation r
  end.
Proof.
  intros Hs Hr Hslot Ht Hstate. pose proof (reaches_coherent st sys (starts_coherent st Hs) Hr) as Hc.
  apply (ch_recorded _ Hc ref slot Hslot). unfold slot_end. by rewrite Ht, Hstate.
Qed.

Lemma committed_recorded_witness :
  let s := sys_state (after lab_store (placing_after 28)) in
  match co_store s with
  | Some w => ∃ r intent, FindByAttempt (sl_attempt (slot_at 0 s)) (w_store w) = Some r ∧
      pl_id r = ao_placement_id (sl_outcome (slot_at 0 s)) ∧
      pl_generation r = ao_placement_generation (sl_outcome (slot_at 0 s)) ∧
      dec_intent (Place (opt_limits (co_options s)) (sl_request (slot_at 0 s))) = Some intent ∧
      PlacementIntent_eqb (pl_intent r) intent = true
  | None => ∃ r, co_latest_in_memory s !! rq_flow (sl_request (slot_at 0 s)) = Some r ∧
      ao_placement_generation (sl_outcome (slot_at 0 s)) <= pl_generation r
  end.
Proof.
  intros s. apply (committed_recorded lab_store (after lab_store (placing_after 28)) 0 (slot_at 0 s)).
  - exact lab_store_starts.
  - apply plain_reaches; by vm_compute.
  - apply slot_at_lookup. vm_compute. lia.
  - by vm_compute.
  - by vm_compute.
Defined.

(** C15: the mutexes cannot deadlock.  In every coordinator a start can
    reach, whatever the threads wait for, steps of the threads that hold a mutex alone
    lead to a state in which no mutex is held. *)
Theorem locks_released st sys :
  starts st → reaches honest st sys →
  ∃ steps sys', schedule (Run <$> steps) sys = Some sys' ∧
    (∀ i, i ∈ steps → ∃ m, sys_owner sys m = Some i) ∧ ∀ m, sys_owner sys' m = None.
Proof.
  intros Hs Hr.
  pose proof (reaches_disciplined st sys (starts_coherent st Hs) Hr) as Hd.
  edestruct (locks_free program restart pass honest) as (steps & sys' & Hx & _ & H1 & H2); [..|exact Hd|].
  - intros. by apply program_ok.
  - intros. by eapply restart_ok.
  - intros. by apply pass_ok.
  - by exists steps, sys'.
Qed.

Lemma locks_released_witness :
  let sys := after lab_store (placing_after 18) in
  (sys_owner sys CommitMu = Some 1%nat ∧ sys_owner sys StoreMu = Some 1%nat) ∧
  ∃ steps sys', schedule (Run <$> steps) sys = Some sys' ∧
    (∀ i, i ∈ steps → ∃ m, sys_owner sys m = Some i) ∧ ∀ m, sys_owner sys' m = None.
Proof.
  intros sys. split; [split; by vm_compute|]. apply (locks_released lab_store).
  - exact lab_store_starts.
  - apply plain_reaches; by vm_compute.
Defined.

(** The coordinator uses its store only through the store's operations.
    In every coordinator a start can reach the store is the one it was started with
    after some sequence of attempt records, commits and closes, so what holds of the
    store after any operations holds of it. *)
Theorem store_driven st sys w0 :
  starts st → reaches honest st sys → co_store st = Some w0 →
  ∃ ops w, co_store (sys_state sys) = Some w ∧ w = run_ops ops w0 ∧
    well_indexed (st_impl (w_store w)).
Proof.
  intros Hs Hr Ew. pose proof (starts_coherent st Hs) as Hc.
  pose proof (reaches_coherent st sys Hc Hr) as Hc'.
  destruct Hr as (events & He & Hx).
  assert (reaches honest st (started st)) as Hr0 by (exists []; done).
  destruct (schedule_evolves st (started st) events sys Hc Hr0 He Hx) as [_ Hev].
  pose proof (ev_store _ _ _ Hev) as Hst. change (sys_state (started st)) with st in Hst.
  rewrite Ew in Hst. destruct Hst as [ops E]. exists ops, (run_ops ops w0).
  split_and!; [done..|]. by apply (ch_indexed _ Hc').
Qed.

Lemma store_driven_witness :
  ∃ w0, co_store lab_store = Some w0 ∧
  ∃ ops w, co_store (sys_state (after lab_store (placing_after 28))) = Some w ∧
    w = run_ops ops w0 ∧ well_indexed (st_impl (w_store w)).
Proof.
  destruct (co_store lab_store) as [w0|] eqn:E; [|by vm_compute in E]. exists w0. split; [done|].
  apply (store_driven lab_store); [exact lab_store_starts| |exact E].
  apply plain_reaches; by vm_compute.
Defined.

(** ** Admission *)

(** The code an admission refuses with, if it does. *)
Definition refusal (request : PlacementRequest) (attempt : N) (digest : Digest) (enforce : bool)
    (s : CoordinatorState) : option StatusCode :=
  if negb (is_running s) then Some StatusCode.kShuttingDown
  else if negb (exp_fabric_epoch (rq_expected request) =? co_epoch s) then
    Some StatusCode.kStaleFabricEpoch
  else
    match co_slots s !! attempt with
    | Some ref =>
        Some (if Digest_eqb (sl_request_digest (slot_at ref s)) digest
              then StatusCode.kAlreadyExists else StatusCode.kDuplicateAttemptConflict)
    | None =>
        if enforce && (opt_queue_capacity (co_options s) <=? co_queue_depth s)
        then Some StatusCode.kQueueFull else None
    end.

Lemma admit_refusal request attempt digest enforce s :
  match admit_attempt request attempt digest enforce s with
  | (Value _, _) => refusal request attempt digest enforce s = None
  | (Error status, s') => refusal request attempt digest enforce s = Some (status_code status) ∧
      co_slots s' = co_slots s ∧ co_heap s' = co_heap s ∧ co_queue s' = co_queue s
  end.
Proof.
  unfold admit_attempt, refusal. change (is_running (upd_stats count_submitted s)) with (is_running s).
  destruct (is_running s); cbn [negb]; [|done].
  change (co_epoch (upd_stats count_submitted s)) with (co_epoch s).
  destruct (_ =? co_epoch s); cbn [negb]; [|done].
  change (co_slots (upd_stats count_submitted s)) with (co_slots s).
  destruct (co_slots s !! attempt) as [ref|].
  - change (slot_at ref (upd_stats count_submitted s)) with (slot_at ref s). by destruct (Digest_eqb _ _).
  - change (co_options (upd_stats count_submitted s)) with (co_options s).
    change (co_queue_depth (upd_stats count_submitted s)) with (co_queue_depth s).
    by destruct (enforce && _).
Qed.

(** C14: an attempt is admitted exactly once, and forgotten only when it is
    finished.  In every coordinator a start can reach, an attempt is refused with the
    code of the first of the conditions above that fails, and the table stays as it is;
    an admitted one is entered with its request, every attempt of the table that is not
    finished keeps its slot, and afterwards the table is within its bound or holds
    unfinished attempts only. *)
Theorem admission st sys request attempt enforce :
  starts st → reaches honest st sys → attempt ≠ 0 →
  let s := sys_state sys in
  let request' := rq_with_attempt attempt request in
  let digest := RequestDigest request' (opt_limits (co_options s)) in
  match admit_attempt request' attempt digest enforce s with
  | (Error status, s') =>
      refusal request' attempt digest enforce s = Some (status_code status) ∧
      co_slots s' = co_slots s ∧ co_heap s' = co_heap s ∧ co_queue s' = co_queue s
  | (Value ref, s') =>
      refusal request' attempt digest enforce s = None ∧
      co_slots s' !! attempt = Some ref ∧ slot_at ref s' = Slot_admitted attempt request' digest ∧
      (∀ a r, co_slots s !! a = Some r → sl_terminal (slot_at r s) = false →
         co_slots s' !! a = Some r ∧ slot_at r s' = slot_at r s) ∧
      (N.of_nat (base.size (co_slots s')) <= opt_max_retained_attempts (co_options s) ∨
       ∀ a r, co_slots s' !! a = Some r → sl_terminal (slot_at r s') = false)
  end.
Proof.
  intros Hs Hr Ha s request' digest.
  pose proof (reaches_coherent st sys (starts_coherent st Hs) Hr) as Hc.
  pose proof (admit_refusal request' attempt digest enforce s) as Hx.
  destruct (admit_attempt request' attempt digest enforce s) as [[ref|status] s'] eqn:E; [|done].
  split; [done|]. clear Hx.
  destruct (admit_facts request' attempt digest enforce s ref s') as (_ & _ & Hn & _ & Hc1 & -> & ->);
    [done..|]. cbv zeta in Hc1. set (s1 := enter_slot _ _ _ _) in *.
  destruct (ReapRetainedSlots_spec s1 Hc1) as [Hheap Hkept Hsub Hbound _].
  assert (∀ r, slot_at r (ReapRetainedSlots s1) = slot_at r s1) as Hslot.
  { intros r. unfold slot_at. by rewrite Hheap. }
  assert (slot_at (length (co_heap s)) s1 = Slot_admitted attempt request' digest) as Hnew.
  { apply lookup_slot_at. cbn. by rewrite lookup_app_r, Nat.sub_diag. }
  assert (∀ a r, co_slots s !! a = Some r → slot_at r s1 = slot_at r s) as Hold.
  { intros a r Er. pose proof (slots_allocated a r s Hc Er) as Hal.
    unfold slot_at. cbn. by rewrite app_nth1. }
  rewrite Hslot. split_and!; [|done|..].
  - destruct (Hkept attempt (length (co_heap s))) as [?|[_ Ht]]; [|done|].
    + cbn. by rewrite lookup_insert_eq.
    + by rewrite Hnew in Ht.
  - intros a r Er Ht. rewrite Hslot. split; [|by eapply Hold].
    destruct (Hkept a r) as [?|[_ Ht']]; [|done|].
    + cbn. rewrite lookup_insert_ne by congruence. done.
    + by rewrite (Hold a r Er), Ht in Ht'.
  - destruct Hbound as [Hb|Hlive]; [by left|right]. intros a r Er.
    destruct (Hlive a) as (r' & Er' & Ht); [by eexists|]. congruence.
Qed.

Lemma admission_witness :
  let s := sys_state (after lab_memory []) in
  let request := rq_with_attempt 5 lab_request in
  let digest := RequestDigest request (opt_limits (co_options s)) in
  match admit_attempt request 5 digest true s with
  | (Error status, s') =>
      refusal request 5 digest true s = Some (status_code status) ∧
      co_slots s' = co_slots s ∧ co_heap s' = co_heap s ∧ co_queue s' = co_queue s
  | (Value ref, s') =>
      refusal request 5 digest true s = None ∧
      co_slots s' !! 5 = Some ref ∧ slot_at ref s' = Slot_admitted 5 request digest ∧
      (∀ a r, co_slots s !! a = Some r → sl_terminal (slot_at r s) = false →
         co_slots s' !! a = Some r ∧ slot_at r s' = slot_at r s) ∧
      (N.of_nat (base.size (co_slots s')) <= opt_max_retained_attempts (co_options s) ∨
       ∀ a r, co_slots s' !! a = Some r → sl_terminal (slot_at r s') = false)
  end.
Proof.
  apply (admission lab_memory (after lab_memory []) lab_request 5 true).
  - exact lab_memory_starts.
  - apply plain_reaches; by vm_compute.
  - done.
Defined.

(** ** Counters *)

Lemma wrap_sum w a b c d e :
  wrap w (wrap w a + wrap w b + wrap w c + wrap w d + wrap w e) = wrap w (a + b + c + d + e).
Proof.
  unfold wrap. set (m := 2 ^ w).
  rewrite <-(N.Div0.mod_add _ (a / m + b / m + c / m + d / m + e / m) m). f_equal.
  rewrite (N.Div0.div_mod a m) at 3. rewrite (N.Div0.div_mod b m) at 3.
  rewrite (N.Div0.div_mod c m) at 3. rewrite (N.Div0.div_mod d m) at 3.
  rewrite (N.Div0.div_mod e m) at 3. lia.
Qed.

(** The counters count.  In every coordinator a start can reach the
    statistics are, modulo [2^64], the number of attempts ever admitted, the numbers of
    those that ended in each state, and the length of the queue; the completed ones are
    the sum over the states. *)
Theorem counters_agree st sys :
  starts st → reaches honest st sys →
  let s := sys_state sys in
  let t := stats_of s in
  counted_ends s ∧ cs_queued t = wrap 64 (size (co_queue s)) ∧
  cs_completed t =
    wrap 64 (cs_placed t + cs_rejected t + cs_cancelled t + cs_fenced t + cs_failed t).
Proof.
  intros Hs Hr s t. pose proof (reaches_coherent st sys (starts_coherent st Hs) Hr) as Hc.
  split; [apply Hc|]. split; [apply Hc|]. destruct (ch_counts _ Hc). subst t. unfold stats_of.
  cbn [cs_completed cs_placed cs_rejected cs_cancelled cs_fenced cs_failed].
  fold s in ce_placed, ce_rejected, ce_cancelled, ce_fenced, ce_failed, ce_completed.
  rewrite ce_placed, ce_rejected, ce_cancelled, ce_fenced, ce_failed, ce_completed.
  by rewrite (ended_any_sum s Hc), wrap_sum.
Qed.

Lemma counters_agree_witness :
  let s := sys_state (after lab_store (placing_after 28)) in
  let t := stats_of s in
  counted_ends s ∧ cs_queued t = wrap 64 (size (co_queue s)) ∧
  cs_completed t =
    wrap 64 (cs_placed t + cs_rejected t + cs_cancelled t + cs_fenced t + cs_failed t).
Proof.
  apply (counters_agree lab_store); [exact lab_store_starts|]. apply plain_reaches; by vm_compute.
Defined.

(** ** Shutdown *)

(** Nothing is left waiting by a shutdown.  In every running
    coordinator a start can reach the first block of a shutdown empties the queue and
    leaves every registered attempt finished, in the hands of a worker, past the commit
    boundary or, where active attempts are not to be cancelled, running.  It only
    finishes attempts that were queued or in none of those cases, as CANCELLED with
    SHUTTING_DOWN, and each of those is journalled by the shutdown or, when its start
    is not on record yet, left to the thread that records the start. *)
Theorem shutdown_begins st sys cancel_active :
  starts st → reaches honest st sys → is_running (sys_state sys) = true →
  let s := sys_state sys in
  ∃ journal s', begin_shutdown cancel_active s = (StopsHere journal, s') ∧
    co_state s' = RunState.kShuttingDown ∧ co_queue s' = [] ∧ co_queue_depth s' = 0 ∧
    (∀ attempt ref, co_slots s !! attempt = Some ref →
       settled cancel_active (slot_at ref s') = true) ∧
    ∀ ref, allocated ref s → let a := slot_at ref s in let b := slot_at ref s' in
      b = a ∨
      sl_terminal a = false ∧ sl_terminal b = true ∧
      ao_state (sl_outcome b) = AttemptState.kCancelled ∧
      ao_code (sl_outcome b) = StatusCode.kShuttingDown ∧
      ((∃ attempt, attempt ∈ co_queue s ∧ co_slots s !! attempt = Some ref) ∨
       settled cancel_active a = false) ∧
      if sl_journalled_start a then sl_attempt a ∈ journal
      else sl_pending_terminal b = true ∧ sl_pending_phase b = AttemptPhase.kCancelled.
Proof.
  intros Hs Hr Hrun s. pose proof (reaches_coherent st sys (starts_coherent st Hs) Hr) as Hc.
  destruct (begin_shutdown_spec cancel_active s Hc Hrun)
    as (journal & s' & E & H1 & H2 & H3 & _ & H4 & H5).
  exists journal, s'. split_and!; [done..|]. intros ref Ha. cbv zeta.
  destruct (H5 ref Ha) as [?|[Hw Hu Hb Hj]]; [by left|right].
  cbn [fst snd] in Hb, Hj. rewrite Hb.
  rewrite shut_terminal. unfold shut. cbn [end_slot sl_with_end sl_with_cancel sl_journalled_start].
  destruct (sl_journalled_start (slot_at ref s)); split_and!; try done. by apply Hj.
Qed.

Lemma shutdown_begins_witness :
  let s := sys_state (after lab_store ([Spawn (CallSubmit lab_request 5)] ++ steps 1 8)) in
  ∃ journal s', begin_shutdown true s = (StopsHere journal, s') ∧
    co_state s' = RunState.kShuttingDown ∧ co_queue s' = [] ∧ co_queue_depth s' = 0 ∧
    (∀ attempt ref, co_slots s !! attempt = Some ref →
       settled true (slot_at ref s') = true) ∧
    ∀ ref, allocated ref s → let a := slot_at ref s in let b := slot_at ref s' in
      b = a ∨
      sl_terminal a = false ∧ sl_terminal b = true ∧
      ao_state (sl_outcome b) = AttemptState.kCancelled ∧
      ao_code (sl_outcome b) = StatusCode.kShuttingDown ∧
      ((∃ attempt, attempt ∈ co_queue s ∧ co_slots s !! attempt = Some ref) ∨
       settled true a = false) ∧
      if sl_journalled_start a then sl_attempt a ∈ journal
      else sl_pending_terminal b = true ∧ sl_pending_phase b = AttemptPhase.kCancelled.
Proof.
  apply (shutdown_begins lab_store).
  - exact lab_store_starts.
  - apply plain_reaches; by vm_compute.
  - by vm_compute.
Defined.

(** ** A placement from beginning to end *)

(** C12: A placement is answered, and answered right.  In every
    coordinator that honest callers can reach, where no mutex is held, it is running, and
    the submission is valid, of the current epoch and of an attempt not yet known, a new
    caller of [PlaceNow] comes to its answer by its own steps.  Where the store refuses the
    start record the answer is its status.  Otherwise the answer is the engine's decision
    on the request, and the attempt ends with exactly that outcome: REJECTED with the
    decision's code where nothing was placed, FENCED where the authority has moved on, and
    where it was to be committed COMMITTED with the identity and the generation of the
    record that was stored, or the state of the status the store refused with. *)
Theorem PlaceNow_answers st sys request attempt :
  starts st → reaches honest st sys → (∀ m, sys_owner sys m = None) →
  let s := sys_state sys in
  let caller := length (sys_threads sys) in
  status_ok (check_submission request attempt (opt_limits (co_options s))) = true →
  is_running s = true → exp_fabric_epoch (rq_expected request) = co_epoch s →
  co_slots s !! attempt = None →
  ∃ count sys',
    schedule (Spawn (CallPlaceNow request attempt) :: replicate count (Run caller)) sys =
      Some sys' ∧
    match start_store s request attempt (co_store s) with
    | Error status =>
        sys_threads sys' !! caller = Some (Finished (ReplyOutcome (Error status)))
    | Value store =>
        let outcome := expected_outcome s request attempt store in
        sys_threads sys' !! caller = Some (Finished (ReplyOutcome (Value outcome))) ∧
        ∃ ref, ended_with attempt outcome ref (sys_state sys')
    end.
Proof.
  intros Hs Hr Hfree s caller Hcheck Hrun Hepoch Hfresh.
  pose proof (reaches_coherent st sys (starts_coherent st Hs) Hr) as Hc.
  set (sys1 := mkSystem s (sys_owner sys) (sys_threads sys ++ [program (CallPlaceNow request attempt)])).
  assert (reaches honest st sys1) as Hr1.
  { destruct Hr as (events & He & Hx). exists (events ++ [Spawn (CallPlaceNow request attempt)]).
    split; [by apply Forall_app; split; [|repeat constructor]|]. by rewrite exec_all_app, Hx. }
  pose proof (reaches_disciplined st sys1 (starts_coherent st Hs) Hr1) as Hd.
  assert (sys_threads sys1 !! caller = Some (program (CallPlaceNow request attempt))) as Ht.
  { cbn. by rewrite lookup_app_r, Nat.sub_diag. }
  assert (∀ r s', alone (PlaceNow request attempt) s = Some (r, s') →
    ∃ count sys', schedule (Spawn (CallPlaceNow request attempt) :: replicate count (Run caller)) sys =
        Some sys' ∧ sys_state sys' = s' ∧
      sys_threads sys' !! caller = Some (Finished (ReplyOutcome r))) as Hgo.
  { intros r s' Ha.
    edestruct (alone_schedule program restart pass honest) as (k & sys' & Hk & _ & H1 & H2);
      [..|exact Hd|exact Ht| | |].
    - intros. by apply program_ok.
    - intros. by eapply restart_ok.
    - intros. by apply pass_ok.
    - intros m. left. apply Hfree.
    - change (sys_state sys1) with s. cbn [program]. unfold replies. rewrite alone_bind, Ha.
      cbn [mbind option_bind]. by rewrite alone_ret.
    - by exists k, sys'. }
  pose proof (PlaceNow_alone s request attempt Hc Hcheck Hrun Hepoch Hfresh) as Halone.
  destruct (start_store s request attempt (co_store s)) as [store|status].
  - destruct Halone as (ref & s' & Ha & He). destruct (Hgo _ _ Ha) as (k & sys' & Hx & <- & Ht').
    exists k, sys'. split; [done|]. split; [done|]. by exists ref.
  - destruct Halone as (s' & Ha). destruct (Hgo _ _ Ha) as (k & sys' & Hx & _ & Ht').
    by exists k, sys'.
Qed.

Lemma PlaceNow_answers_witness :
  let s := sys_state (after lab_store []) in
  ∃ count sys',
    schedule (Spawn (CallPlaceNow lab_request 5) :: replicate count (Run 1)) (after lab_store []) =
      Some sys' ∧
    match start_store s lab_request 5 (co_store s) with
    | Error status =>
        sys_threads sys' !! 1%nat = Some (Finished (ReplyOutcome (Error status)))
    | Value store =>
        let outcome := expected_outcome s lab_request 5 store in
        sys_threads sys' !! 1%nat = Some (Finished (ReplyOutcome (Value outcome))) ∧
        ∃ ref, ended_with 5 outcome ref (sys_state sys')
    end.
Proof.
  apply (PlaceNow_answers lab_store (after lab_store []) lab_request 5).
  - exact lab_store_starts.
  - apply plain_reaches; by vm_compute.
  - by intros [].
  - by vm_compute.
  - by vm_compute.
  - by vm_compute.
  - by vm_compute.
Defined.

(** ** What the coordinator does not guarantee *)

(** The answer of a caller of [PlaceNow] or [Await]. *)
Definition outcome_of (thread : nat) (sys : System (State := CoordinatorState) (Reply := Reply))
    : option (AttemptState * StatusCode) :=
  match reply_of thread sys with
  | Some (ReplyOutcome (Value outcome)) => Some (ao_state outcome, ao_code outcome)
  | _ => None
  end.

(** Two submissions whose admissions precede both insertions into the queue. *)
Definition two_submissions : list (Event (Call := Call) (Tick := Z)) :=
  [Spawn (CallSubmit lab_request 5); Spawn (CallSubmit lab_request 6)] ++
  steps 1 3 ++ steps 2 3 ++ steps 1 1 ++ steps 2 1.

(** The queue is not bounded by its capacity.  [RegisterAttempt]
    compares the depth of the queue with the capacity in one critical section and
    [Submit] inserts the attempt in a later one, so two submissions that interleave both
    pass the check of a queue of capacity 1 and both enter it. *)
Theorem queue_overrun :
  runs lab_memory two_submissions = true ∧
  opt_queue_capacity (co_options lab_memory) = 1 ∧
  co_queue (sys_state (after lab_memory two_submissions)) = [5; 6] ∧
  co_queue_depth (sys_state (after lab_memory two_submissions)) = 2.
Proof. by vm_compute. Qed.

(** The intent of another path, with its digest. *)
Definition redirected (path : N) (i : PlacementIntent) : PlacementIntent :=
  let redirect digest :=
    mkIntent (int_flow i) (int_flow_generation i) path (int_path_authority i)
      (int_candidate_set i) (int_candidate_set_generation i) (int_capacity i)
      (int_capacity_generation i) (int_policy i) (int_policy_generation i) (int_qos i)
      (int_qos_generation i) (int_evidence i) (int_evidence_generation i) (int_fabric_epoch i)
      (int_reservation i) (int_attempt i) (int_revalidate_after_nanos i) digest in
  redirect (IntentDigest (redirect (int_digest i))).

(** A decision no engine gives: it does not place and carries an intent. *)
Definition forged : PreparedAttempt :=
  let request := rq_with_attempt 5 lab_request in
  let decision := Place default_limits request in
  mkPrepared 5 request
    (mkDecision Outcome.kNoLegalPath (dec_code decision) (redirected 777 <$> dec_intent decision)
       (dec_authority decision) (dec_delta decision) (dec_explanation decision)
       (dec_digest decision) (dec_validation decision)).

(** A placement has crossed the boundary, another caller hands the forged decision to
    [Commit], and the placement goes on. *)
Definition forged_events : list (Event (Call := Call) (Tick := Z)) :=
  placing_after 15 ++ [Spawn (CallCommit forged)] ++ steps 2 2 ++ steps 1 4.

Definition committed_paths (s : CoordinatorState) : option (list N) :=
  w ← co_store s; Some (int_path ∘ pl_intent <$> im_placements (st_impl (w_store w))).

(** Why the fence is about honest callers.  [Commit] does not compare a
    decision that does not place with the one computed for the attempt, and writes it into
    the slot, which it ends as REJECTED; a placement that is past the boundary then commits
    the intent it finds there, of a path that is no candidate. *)
Theorem forged_commit :
  let s := sys_state (after lab_store forged_events) in
  let decision := Place default_limits (rq_with_attempt 5 lab_request) in
  runs lab_store forged_events = true ∧
  committed_paths s = Some [777] ∧ (int_path <$> dec_intent decision) = Some 1 ∧
  (777 ∉ path_id <$> set_paths (rq_candidates lab_request)) ∧
  ao_state (sl_outcome (slot_at 0 s)) = AttemptState.kRejected.
Proof.
  split_and!; [by vm_compute..| |by vm_compute].
  apply (bool_decide_unpack _). by vm_compute.
Qed.

(** A placement stops past the boundary, the coordinator is shut down by another
    caller, a third one waits for the attempt, and the placement goes on before the
    store is closed. *)
Definition stopped_commit : list (Event (Call := Call) (Tick := Z)) :=
  placing_after 15 ++
  [Spawn (CallShutdown true)] ++ steps 2 1 ++ steps 0 1 ++ steps 2 2 ++
  [Spawn (CallAwait 5)] ++ steps 3 2 ++ steps 1 13.

(** A placement whose commit starts a compaction that fails. *)
Definition failed_compaction : CoordinatorState :=
  lab (lab_options "store" 2 1) (replicate 6 IoOk ++ [IoFail]).

Definition alone_outcome (st : CoordinatorState)
    : option ((AttemptState * StatusCode) * option (list N * option AttemptPhase * option N)) :=
  match alone (PlaceNow lab_request 5) st with
  | Some (Value outcome, s) => Some ((ao_state outcome, ao_code outcome), durable 5 s)
  | _ => None
  end.

(** FAILED does not mean that nothing was committed.  Where the
    coordinator stops while a placement is past the commit boundary, [Await] ends the
    attempt as FAILED and the placement still becomes durable and is journalled as
    committed; and where the compaction after a commit fails, the attempt ends as FAILED
    and is journalled as rejected although the store holds its placement. *)
Theorem failed_but_durable :
  (runs lab_store stopped_commit = true ∧
   let sys := after lab_store stopped_commit in
   outcome_of 3 sys = Some (AttemptState.kFailed, StatusCode.kShuttingDown) ∧
   outcome_of 1 sys = Some (AttemptState.kFailed, StatusCode.kShuttingDown) ∧
   durable 5 (sys_state sys) = Some ([1], Some AttemptPhase.kCommitted, Some 1)) ∧
  alone_outcome failed_compaction =
    Some ((AttemptState.kFailed, StatusCode.kStoreIoError),
          Some ([1], Some AttemptPhase.kRejected, Some 1)).
Proof. by vm_compute. Qed.
