(* ===== verification/ServerProps.v ===== *)
(** * Properties of the server

    What the server adds to the coordinator, for any clients, any bytes they send
    and any interleaving. *)

From Stdlib Require Import String.
From S2P Require Import Prelude StdAlgo Checked Status Bytes Hash Model ModelDigest Validate.
From S2P Require Import Explain Records Codec CodecFacts Wire Transport WireFacts.
From S2P Require Import Store StoreOps Place Threads RuntimeState Runtime RuntimeInv RuntimeCalm.
From S2P Require Import RuntimeThreads RuntimeAlone Fixture RuntimeDemo RuntimeProps.
From S2P Require Import ServerState Server ServerFacts ServerAlone Worker ServerDemo.

Lemma set_up_ok s : set_up s → server_ok s.
Proof.
  intros (options & bound & log_opened & ready & process & now & disk & io & Hf & Hs).
  unfold RunServer in Hs. destruct bound as [port|status]; [|done].
  destruct (Start _ _ _ _ _) as [st|status] eqn:E; [|done].
  destruct (negb _ && _); [done|]. injection Hs as <-. constructor; [|done].
  change (coherent st). apply starts_coherent. by exists (server_coordinator_options options), process, now, disk, io.
Qed.

Lemma server_schedule_app strerror events more sys :
  server_schedule strerror (events ++ more) sys =
  server_schedule strerror events sys ≫= server_schedule strerror more.
Proof. apply exec_all_app. Qed.

Lemma server_reaches_step strerror s0 sys e sys' : server_reaches strerror s0 sys →
  server_schedule strerror [e] sys = Some sys' → server_reaches strerror s0 sys'.
Proof.
  intros Hr Hx. eapply (reachable_step _ _ _ _ _ _ e); [by destruct e|exact Hr|].
  unfold server_schedule in Hx. cbn [exec_all] in Hx.
  by destruct (exec _ _ _ e sys) as [sys1|]; [injection Hx as ->|].
Qed.

(** A thread that comes to an end by itself does so by its own steps, where nobody holds
    a mutex. *)
Lemma runs_alone strerror s0 sys t thread reply s :
  set_up s0 → server_reaches strerror s0 sys → (∀ m, sys_owner sys m = None) →
  sys_threads sys !! t = Some thread → alone thread (sys_state sys) = Some (reply, s) →
  ∃ count sys', server_schedule strerror (replicate count (Run t)) sys = Some sys' ∧
    sys_threads sys' !! t = Some (Finished reply) ∧ sys_state sys' = s.
Proof.
  intros Hs Hr Hfree Ht Ha.
  pose proof (server_disciplined strerror s0 sys (set_up_ok s0 Hs) Hr) as Hd.
  edestruct (alone_schedule (connection_thread strerror) (server_restart strerror) happens
    (λ _, True)) as (k & sys' & Hk & _ & H1 & H2); [..|exact Hd|exact Ht| |exact Ha|].
  - intros j s3 _. eapply safe_done, safe_connection.
  - intros reply' t' s3 E. by eapply safe_done, safe_restart.
  - apply happens_ok.
  - intros m. left. apply Hfree.
  - by exists k, sys'.
Qed.

(** C17: no client gets anything past the fence.  In every server that can
    be reached, whatever bytes its clients send and however the threads of the
    connections, the accept loop and the coordinator's workers interleave, a step
    changes the coordinator's placements only by adding one that a registered attempt
    may commit at that moment under the current epoch and authority, and that is the
    engine's own decision on the attempt's request; the epoch never goes back and a
    finished attempt keeps its state and code. *)
Theorem server_fenced strerror s sys e sys' :
  set_up s → server_reaches strerror s sys → server_schedule strerror [e] sys = Some sys' →
  let st := sv_coordinator (sys_state sys) in
  let st' := sv_coordinator (sys_state sys') in
  co_epoch st <= co_epoch st' ∧
  (placements st' = placements st ∨
   ∃ ref slot r, co_heap st !! ref = Some slot ∧ fenced_commit st slot r ∧
     adds_placement st r st') ∧
  ∀ ref slot, co_heap st !! ref = Some slot → sl_terminal slot = true →
    ∃ slot', co_heap st' !! ref = Some slot' ∧ sl_terminal slot' = true ∧
      ao_state (sl_outcome slot') = ao_state (sl_outcome slot) ∧
      ao_code (sl_outcome slot') = ao_code (sl_outcome slot).
Proof.
  intros Hs Hr Hx st st'.
  destruct (server_step strerror s sys e sys' (set_up_ok s Hs) Hr Hx) as (_ & [] & h & Hm).
  split_and!; [done|exact Hm|]. intros ref slot E Ht.
  destruct (ev_heap ref slot E) as (slot' & E' & [] & _). exists slot'.
  destruct (se_terminal Ht) as (? & ? & ?). done.
Qed.

Lemma server_fenced_witness :
  let events := requesting ++ replicate 18 (Run 2) in
  let sys := served events in
  let sys' := served (events ++ [Run 2]) in
  let st := sv_coordinator (sys_state sys) in
  let st' := sv_coordinator (sys_state sys') in
  (length (map_to_list (co_latest_in_memory st)) = 0%nat ∧
   length (map_to_list (co_latest_in_memory st')) = 1%nat) ∧
  co_epoch st <= co_epoch st' ∧
  (placements st' = placements st ∨
   ∃ ref slot r, co_heap st !! ref = Some slot ∧ fenced_commit st slot r ∧
     adds_placement st r st') ∧
  ∀ ref slot, co_heap st !! ref = Some slot → sl_terminal slot = true →
    ∃ slot', co_heap st' !! ref = Some slot' ∧ sl_terminal slot' = true ∧
      ao_state (sl_outcome slot') = ao_state (sl_outcome slot) ∧
      ao_code (sl_outcome slot') = ao_code (sl_outcome slot).
Proof.
  intros events sys sys' st st'. split; [split; by vm_compute|].
  apply (server_fenced "" demo_server sys (Run 2) sys').
  - exact demo_set_up.
  - apply served_reaches. by vm_compute.
  - apply served_app. by vm_compute.
Defined.

(** C16: A placement request is served from bytes to bytes.  In every server that can
    be reached where no mutex is held, take a connection that has been negotiated (with a
    bound of at least [kMinMaxFrameBytes]) and on which the frame of a placement request
    that fits the limits has arrived, in whatever pieces.  The coordinator is running, the
    server is not stopping, the request is valid, it and its payload name the current
    epoch, and the attempt is not known yet; the reply is within the negotiated bound and
    the kernel takes its bytes.  Then the connection's thread comes by its own steps to
    have sent exactly one frame under the next sequence number: the result with the outcome
    that [PlaceNow] determines for the request, or the error the store answered to the
    start record; and it goes on to the next frame unless that was the last request the
    server serves. *)
Theorem served_placement strerror s0 sys t i sequence payload flags number max :
  set_up s0 → server_reaches strerror s0 sys → (∀ m, sys_owner sys m = None) →
  sys_threads sys !! t = Some (Finished (Serving i sequence)) →
  let s := sys_state sys in
  let st := sv_coordinator s in
  let request := bound_request payload in
  let frame := mkFrame FrameKind.kPlaceRequest flags number (EncodePlaceRequest payload []) in
  let reply := place_answer s sequence payload in
  kMinMaxFrameBytes ≤ max → u32_fits max → (i < length (sv_entries s))%nat →
  negotiated max (link_at i s) → arrives frame (link_at i s) → frame_fits max frame →
  place_request_fits (opt_limits (co_options st)) payload →
  sv_stop s = false → is_running st = true →
  preq_epoch payload = co_epoch st → exp_fabric_epoch (rq_expected request) = co_epoch st →
  status_ok (check_submission request (preq_attempt payload) (opt_limits (co_options st))) = true →
  co_slots st !! preq_attempt payload = None →
  size (fr_body reply) ≤ max → takes (size (fr_body reply) + 20) (link_at i s) →
  ∃ count sys',
    server_schedule strerror (replicate count (Run t)) sys = Some sys' ∧
    sys_threads sys' !! t =
      Some (Finished (if enough_served s payload then Served
                      else Serving i (next_sequence sequence))) ∧
    ln_sent (link_at i (sys_state sys')) = ln_sent (link_at i s) ++ frame_bytes reply.
Proof.
  intros Hs Hr Hfree Ht s st request frame reply Hmin Hmax Hi Hn Ha Hf Hp Hstop Hrun Hcur Hep Hck
    Hfresh Hfits Htk.
  pose proof (server_disciplined strerror s0 sys (set_up_ok s0 Hs) Hr) as Hd.
  destruct (serve_round_alone strerror max s i sequence payload frame) as (s1 & Hal & Hsent);
    try done.
  { apply (dp_inv _ Hd). }
  assert (∃ s2, alone (connection_round strerror i sequence) s =
      Some (if enough_served s payload then Served else Serving i (next_sequence sequence), s2) ∧
    ln_sent (link_at i s2) = ln_sent (link_at i s1)) as (s2 & Hal2 & Hsent2).
  { unfold connection_round. rewrite alone_bind, Hal. cbn [mbind option_bind].
    destruct (enough_served s payload); [|by exists s1].
    destruct (leave_alone i s1) as (s2 & H & E). exists s2. by rewrite E. }
  assert (server_schedule strerror [Run t] sys =
    Some (with_thread t (connection_round strerror i sequence) sys)) as Hx.
  { unfold server_schedule. cbn [exec_all exec]. by rewrite Ht. }
  edestruct (runs_alone strerror s0 (with_thread t (connection_round strerror i sequence) sys) t)
    as (k & sys' & Hk & H2 & H1); [done|..].
  - by eapply server_reaches_step.
  - done.
  - cbn. apply list_lookup_insert_eq. by eapply lookup_lt_Some.
  - exact Hal2.
  - exists (S k), sys'. split_and!; [|done|by rewrite H1, Hsent2].
    change (replicate (S k) (Run t)) with ([Run t] ++ replicate k (Run (Call := nat) (Tick := Happening) t)).
    rewrite server_schedule_app, Hx. exact Hk.
Qed.

Lemma served_placement_witness :
  let sys := served requesting in
  let s := sys_state sys in
  let reply := place_answer s 1 demo_payload in
  (fr_kind reply, fr_sequence reply, placed_in reply) =
    (FrameKind.kPlaceResult, 2, Some (5, AttemptState.kCommitted, 1, 1)) ∧
  ∃ count sys',
    server_schedule "" (replicate count (Run 2)) sys = Some sys' ∧
    sys_threads sys' !! 2%nat =
      Some (Finished (if enough_served s demo_payload then Served else Serving 0 (next_sequence 1))) ∧
    ln_sent (link_at 0 (sys_state sys')) = ln_sent (link_at 0 s) ++ frame_bytes reply.
Proof.
  intros sys s reply. split; [by vm_compute|].
  apply (served_placement "" demo_server sys 2 0 1 demo_payload 0 1 65536).
  - exact demo_set_up.
  - apply served_reaches. by vm_compute.
  - apply unowned. by vm_compute.
  - apply replied. by vm_compute.
  - done.
  - done.
  - apply Nat.ltb_lt. by vm_compute.
  - split; by vm_compute.
  - exists [take 30 (frame_bytes demo_request); drop 30 (frame_bytes demo_request)], [], [].
    split_and!; [by vm_compute|by repeat constructor|by vm_compute].
  - split; [done|done|by vm_compute|]. apply all_u8. by vm_compute.
  - exact demo_payload_fits.
  - by vm_compute.
  - by vm_compute.
  - by vm_compute.
  - by vm_compute.
  - by vm_compute.
  - by vm_compute.
  - by vm_compute.
  - apply takes_all. by vm_compute.
Defined.

(** C18: The two ends of a connection agree on it.  The smaller of the two frame
    bounds is at least [kMinMaxFrameBytes], the exchanged numbers fit their fields, both
    links start at the default bound, the kernels take the bytes of the handshake, and
    [ConnectWorker] comes to a connection within the attempts it may make.  In every server
    that can be reached where no mutex is held, the new thread of a connection on which the
    HELLO of [ConnectWorker] has arrived, in whatever pieces, comes by its own steps to
    have answered it with one HELLO_ACK, and goes on to serve exactly the workers that
    name the current epoch; and [ConnectWorker], where that frame arrives, has sent the
    HELLO, fills its result in from the answer and returns the connection exactly if it was
    accepted.  Both ends then hold the smaller of the two frame bounds. *)
Theorem handshake_agrees strerror s0 sys t i options process connection errors more :
  set_up s0 → server_reaches strerror s0 sys → (∀ m, sys_owner sys m = None) →
  sys_threads sys !! t = Some (connection_thread strerror i) →
  let s := sys_state sys in
  let st := sv_coordinator s in
  let server := sv_options s in
  let hello := worker_hello options process in
  let ack := hello_ack server (co_incarnation st) (co_epoch st) hello in
  let bound := N.min (wo_max_frame_bytes options) (svo_max_frame_bytes server) in
  let accepted := wo_epoch options =? co_epoch st in
  Forall u64_fits [process; wo_epoch options; wo_worker options; co_incarnation st] →
  Forall u32_fits [wo_max_frame_bytes options; svo_max_frame_bytes server;
                   svo_max_connections server] →
  kMinMaxFrameBytes ≤ bound → thread_created i s = true → (i < length (sv_entries s))%nat →
  negotiated kDefaultMaxFrameBytes (link_at i s) → arrives (hello_frame hello) (link_at i s) →
  takes kHandshakeBytes (link_at i s) →
  size errors < N.max 1 (wo_connect_attempts options) →
  negotiated (wo_max_frame_bytes options) connection → arrives (ack_frame ack 1) connection →
  takes kHandshakeBytes connection →
  (∃ count sys',
    server_schedule strerror (replicate count (Run t)) sys = Some sys' ∧
    sys_threads sys' !! t = Some (Finished (if accepted then Serving i 1 else Served)) ∧
    ln_sent (link_at i (sys_state sys')) =
      ln_sent (link_at i s) ++ frame_bytes (ack_frame ack 1) ∧
    negotiated bound (link_at i (sys_state sys'))) ∧
  (∃ connection',
    ConnectWorker strerror options process ((Error <$> errors) ++ Value connection :: more) =
      (Some (if accepted then Value connection'
             else Error (mkStatus StatusCode.kStaleFabricEpoch
                           "worker epoch is not the coordinator epoch")), worker_result ack) ∧
    ln_sent connection' = ln_sent connection ++ frame_bytes (hello_frame hello) ∧
    negotiated bound connection') ∧
  wr_handshake_accepted (worker_result ack) = accepted ∧
  wr_coordinator (worker_result ack) = co_incarnation st ∧
  wr_coordinator_epoch (worker_result ack) = co_epoch st.
Proof.
  intros Hs Hr Hfree Ht s st server hello ack bound accepted H64 H32 Hmin Hc Hi Hn Ha Htk He Hcn Hca Hct.
  rewrite !Forall_cons in H64. rewrite !Forall_cons in H32. destruct H64 as (? & ? & ? & ? & _), H32 as (? & ? & ? & _).
  assert (u64_fits (co_epoch st)) as Hep.
  { apply (ch_epoch_fits _), (so_coherent _),
      (dp_inv _ (server_disciplined strerror s0 sys (set_up_ok s0 Hs) Hr)). }
  assert (kMinMaxFrameBytes ≤ wo_max_frame_bytes options) by (unfold bound in Hmin; lia).
  assert (kMinMaxFrameBytes ≤ svo_max_frame_bytes server) by (unfold bound in Hmin; lia).
  assert (ack_accepted ack = accepted) as Eacc
    by (unfold ack, hello, hello_ack; cbn; fold accepted; by destruct accepted).
  split_and!; [| |done|unfold ack, hello_ack; cbn; by case_match..].
  - set (s1 := upd_entry i (en_with_thread ThreadRuns) s).
    assert (link_at i s1 = link_at i s) as E1 by (by apply link_at_upd).
    destruct (handshake_alone strerror options server process (co_incarnation st) (co_epoch st))
      with (s := s1) (i := i) as (s2 & Hal & Hsent & Hneg & _ & _);
      rewrite ?E1; try done; [cbn; by rewrite length_alter|].
    fold hello ack bound in Hal, Hsent, Hneg. rewrite Eacc in Hal.
    assert (∃ s3, alone (connection_thread strerror i) s =
        Some (if accepted then Serving i 1 else Served, s3) ∧
      link_at i s3 = link_at i s2) as (s3 & Hal3 & E3).
    { unfold connection_thread. rewrite alone_bind. cbn [alone wait]. rewrite Hc.
      cbn [mbind option_bind]. fold s1. rewrite alone_bind, Hal. cbn [mbind option_bind].
      destruct accepted; [by exists s2|]. apply leave_alone. }
    destruct (runs_alone strerror s0 sys t _ _ s3 Hs Hr Hfree Ht Hal3) as (k & sys' & Hk & Hth & Hst).
    exists k, sys'. rewrite Hst, E3, Hsent, E1. by split_and!.
  - destruct (ConnectWorker_answered strerror options server process (co_incarnation st) (co_epoch st))
      with (connection := connection) (errors := errors) (more := more) as (c & Hworker); try done.
    by exists c.
Qed.

Lemma handshake_agrees_witness :
  let sys := served (connecting 10) in
  let s := sys_state sys in
  let st := sv_coordinator s in
  let options := demo_worker 10 in
  let ack := hello_ack (sv_options s) (co_incarnation st) (co_epoch st) (worker_hello options 77) in
  (ack_accepted ack, ack_epoch ack, ack_max_frame_bytes ack) = (false, 11, 65536) ∧
  (∃ count sys',
    server_schedule "" (replicate count (Run 2)) sys = Some sys' ∧
    sys_threads sys' !! 2%nat = Some (Finished Served) ∧
    ln_sent (link_at 0 (sys_state sys')) =
      ln_sent (link_at 0 s) ++ frame_bytes (ack_frame ack 1) ∧
    negotiated 65536 (link_at 0 (sys_state sys'))) ∧
  (∃ connection',
    ConnectWorker "" options 77
      ((Error <$> [connection_closed "refused"]) ++ [Value (answered_link (ack_frame ack 1))]) =
      (Some (Error (mkStatus StatusCode.kStaleFabricEpoch
                           "worker epoch is not the coordinator epoch")), worker_result ack) ∧
    ln_sent connection' =
      ln_sent (answered_link (ack_frame ack 1)) ++ frame_bytes (hello_frame (worker_hello options 77)) ∧
    negotiated 65536 connection') ∧
  wr_handshake_accepted (worker_result ack) = false ∧
  wr_coordinator (worker_result ack) = co_incarnation st ∧
  wr_coordinator_epoch (worker_result ack) = co_epoch st.
Proof.
  intros sys s st options ack. split; [by vm_compute|].
  apply (handshake_agrees "" demo_server sys 2 0 options 77 (answered_link (ack_frame ack 1))
           [connection_closed "refused"] []).
  - exact demo_set_up.
  - apply served_reaches. by vm_compute.
  - apply unowned. by vm_compute.
  - apply (spawned ([Pass (Connects Connected)] ++ replicate 6 (Run 1))). by vm_compute.
  - by repeat constructor.
  - by repeat constructor.
  - by vm_compute.
  - by vm_compute.
  - apply Nat.ltb_lt. by vm_compute.
  - split; by vm_compute.
  - exists [take 7 (hello_bytes 10); drop 7 (hello_bytes 10)], [], [].
    split_and!; [by vm_compute|by repeat constructor|by vm_compute].
  - apply takes_all. by vm_compute.
  - by vm_compute.
  - split; by vm_compute.
  - exists [frame_bytes (ack_frame ack 1)], [], [].
    split_and!; [by vm_compute|by repeat constructor|by vm_compute].
  - apply takes_all. by vm_compute.
Defined.
