(* ===== verification/ScenarioProps.v ===== *)
(** * Properties of the scenario format

    What is rendered is parsed back, what is parsed can be sent, and what is refused
    is refused for a reason. *)

From Stdlib Require Import String Ascii.
From S2P Require Import Prelude StdAlgo Checked Status Bytes Hash Model ModelDigest Validate Explain.
From S2P Require Import Records Codec CodecFacts InputProps CodecProps Fixture RuntimeState Scenario.
From S2P Require Import ScenarioText ScenarioLines ScenarioDocument ScenarioTyped.
From S2P Require Import ScenarioStrict.

Open Scope string_scope.
Open Scope N_scope.

(** C31: For every request that the validator accepts, whose fields are values of
    their C++ types under 32-bit limits, whose optional identifiers are not present and
    zero, whose provenance is plain (a producer and a version of plain characters, a time of
    observation that is not negative) and whose incumbent, if any, has a valid reservation or one that is all zero,
    parsing the rendering of [WriteScenario] returns exactly that request, as long as the
    document and each of its lines stay within the bounds of the parser. *)
Theorem scenario_round_trip limits r :
  status_ok (ValidateRequest r limits) = true → request_typed r → limits_32 limits →
  optionals_nonzero (rq_policy r) → provenance_plain (rq_provenance r) →
  from_option reservation_kept True (rq_incumbent r) →
  Forall (λ line, string_size line ≤ kMaxScenarioLineBytes) (scenario_lines r) →
  string_size (WriteScenario r) ≤ kMaxScenarioBytes →
  ParseScenario (WriteScenario r) limits = Value r.
Proof.
  intros Hv Ht Hl Ho Hp Hi Hs Hd. apply rendered_request. constructor; try done.
  apply valid_request_fits; [by apply ValidateRequest_ok|done..].
Qed.

Lemma scenario_round_trip_witness :
  let r := with_incumbent (Some (incumbent_on 2)) (Baseline 3 5000) in
  ParseScenario (WriteScenario r) default_limits = Value r.
Proof.
  cbv zeta. apply scenario_round_trip.
  - vm_compute. reflexivity.
  - unfold request_typed, path_typed, policy_typed. cbn. rewrite !Forall_cons, !Forall_nil.
    split_and!; try done; by repeat constructor.
  - by repeat constructor.
  - by repeat split.
  - by repeat split.
  - by right.
  - by repeat constructor.
  - vm_compute. discriminate.
Defined.

(** Whatever the document, a request built from it holds values of the C++ types,
    the ranges of its integers and the declared enumerators; so when the validator accepts
    it, the other end decodes from its encoding exactly the request that was parsed. *)
Theorem scenario_sent text limits r :
  limits_32 limits → ParseScenario text limits = Value r →
  request_typed r ∧ optionals_nonzero (rq_policy r) ∧
  (status_ok (ValidateRequest r limits) = true →
   DecodeRequest limits (mkReader (request_bytes r) 0) =
   Value (r, mkReader (request_bytes r) (length (request_bytes r)))).
Proof.
  intros Hl [Ht Ho]%ParseScenario_typed. split_and!; [done..|]. intros Hv.
  apply decodes_all_run, DecodeRequest_inverts, valid_request_fits; [by apply ValidateRequest_ok|done..].
Qed.

(** The handwritten document of the tests. *)
Definition handwritten : string := String.concat "" ((λ line, line ++ newline) <$>
  ["version 1"; "flow id 100 gen 3"; "candidateset id 200 gen 2";
   "path id 1 auth 7 tier standard locality 10 scope rack domain 20 cost 100 latency 1000 hops 1";
   "path id 2 auth 7 tier standard locality 11 scope rack domain 21 cost 110 latency 1100 hops 2";
   "capacity id 300 gen 5"; "entry path 1 total 10000 residual 5000";
   "entry path 2 total 10000 residual 5000";
   "qos id 400 gen 4 class best_effort priority normal required 100 maxlatency 0";
   "evidence id 600 gen 9"; "util path 1 ppb 100000000"; "util path 2 ppb 101000000";
   "policy id 500 gen 6 objectives cost:min churn-threshold-objective 0";
   "expected pathauth 7 cset 2 cap 5 policy 6 qos 4 epoch 11 evidence 9"]).

(** The request it stands for, with the provenance left empty. *)
Definition handwritten_request : PlacementRequest :=
  rq_with_provenance (mkProvenance "" "" 0 0) (Baseline 2 5000).

Lemma scenario_sent_witness :
  ParseScenario handwritten default_limits = Value handwritten_request ∧
  request_typed handwritten_request ∧
  DecodeRequest default_limits (mkReader (request_bytes handwritten_request) 0) =
  Value (handwritten_request,
         mkReader (request_bytes handwritten_request) (length (request_bytes handwritten_request))).
Proof.
  assert (ParseScenario handwritten default_limits = Value handwritten_request) as Hp
    by (vm_compute; reflexivity).
  split; [exact Hp|]. destruct (scenario_sent handwritten default_limits handwritten_request)
    as (Ht & _ & Hd); [by repeat constructor|exact Hp|].
  split; [exact Ht|]. apply Hd. vm_compute. reflexivity.
Defined.

(** C32: A document is refused for exactly three reasons: it is over the bound of
    the format; or a line is refused while every line before it was accepted, and the message
    starts with the number of that line; or every line was accepted and a directive every
    scenario needs is on none of them. *)
Theorem scenario_refusal text limits status :
  ParseScenario text limits = Error status →
  kMaxScenarioBytes < string_size text ∧ status_code status = StatusCode.kOversizeRequest ∨
  (∃ before line after s message,
     split_on "010"%char text = (before ++ line :: after)%list ∧
     ParseLines limits 1 before ScenarioState_init = Value s ∧
     ParseLine limits (size before + 1) line s = Error status ∧
     status_message status = "line " ++ to_string (size before + 1) ++ ": " ++ message) ∨
  (∃ directive s,
     ParseLines limits 1 (split_on "010"%char text) ScenarioState_init = Value s ∧
     directive ∈ kRequiredDirectives ∧ status_code status = StatusCode.kMissingField ∧
     Forall (λ line, line_directive line ≠ Some directive) (split_on "010"%char text)).
Proof.
  unfold ParseScenario. destruct (_ <? _) eqn:Hs; [intros [= <-]; left; by b2p|right].
  destruct (ParseLines _ _ _ _) as [s|status'] eqn:E.
  - right. destruct (find _ _) as [directive|] eqn:Hf; [|done]. injection H as <-.
    apply find_some in Hf as [Hin%list_elem_of_In Hh]. exists directive, s. split_and!; [done..|].
    apply Forall_forall. intros line Hl Hd. apply ParseLines_declares in E as [_ E].
    specialize (E line directive Hl Hin Hd). apply negb_true_iff in Hh. revert Hh.
    apply not_false_iff_true, existsb_exists_elem. exists directive. by rewrite String.eqb_refl.
  - left. injection H as ->. apply ParseLines_refusal in E as (before & line & after & s & Hl & Hb & He).
    rewrite N.add_comm in He. destruct (ParseLine_tagged _ _ _ _ _ He) as [message Hm].
    exists before, line, after, s, message. split_and!; try done.
    rewrite Hm. unfold LineTag. by rewrite !string_app_assoc.
Qed.

Lemma scenario_refusal_witness :
  let text := "flow id 1 gen 1" ++ newline ++ "path id 1 auth 7" in
  let status := mkStatus StatusCode.kMissingField "line 2: path: candidateset must be declared first" in
  ParseScenario text default_limits = Error status ∧
  (kMaxScenarioBytes < string_size text ∧ status_code status = StatusCode.kOversizeRequest ∨
   (∃ before line after s message,
      split_on "010"%char text = (before ++ line :: after)%list ∧
      ParseLines default_limits 1 before ScenarioState_init = Value s ∧
      ParseLine default_limits (size before + 1) line s = Error status ∧
      status_message status = "line " ++ to_string (size before + 1) ++ ": " ++ message) ∨
   (∃ directive s,
      ParseLines default_limits 1 (split_on "010"%char text) ScenarioState_init = Value s ∧
      directive ∈ kRequiredDirectives ∧ status_code status = StatusCode.kMissingField ∧
      Forall (λ line, line_directive line ≠ Some directive) (split_on "010"%char text))).
Proof.
  cbv zeta. split; [vm_compute; reflexivity|]. apply scenario_refusal. vm_compute. reflexivity.
Defined.

(** A line that is accepted and whose directive is not [version], [flow] or
    [candidateset] consists of the directive and key/value pairs whose keys are distinct and
    all known to the directive: an unknown, repeated or valueless key is never ignored. *)
Theorem scenario_strict limits number line s s' directive tokens :
  ParseLine limits number line s = Value s' →
  SplitWhitespace (without_comment line) = directive :: tokens →
  directive ≠ "version" → ¬ unchecked directive →
  ∃ kvs, tokens = words_of kvs ∧ NoDup kvs.*1 ∧
         Forall (λ key, key ∈ known_keys directive) kvs.*1.
Proof.
  unfold ParseLine. destruct (_ <? _); [done|]. intros Hp Hs Hv Hu.
  pose proof (SplitWhitespace_nonempty (without_comment line)) as Hw. rewrite Hs in *.
  apply Forall_cons in Hw as [_ Hw]. rewrite (proj2 (String.eqb_neq _ _) Hv) in Hp.
  destruct (status_ok _) eqn:Hok; [|done]. cbn [negb] in Hp.
  destruct (ArgParser_init_valid _ _ _ Hw Hok) as (kvs & -> & Hn & Hi). rewrite Hi in Hp.
  exists kvs. split_and!; [done..|]. apply ParseDirective_keys in Hp; [|done|].
  - rewrite <-(asked_keys []). apply Forall_fmap. exact Hp.
  - unfold unmarked, asked, parsing. cbn. apply Forall_fmap, Forall_true. by intros [key value].
Qed.

Lemma scenario_strict_witness :
  ∃ kvs, ["path"; "1"; "total"; "10"; "residual"; "5"] = words_of kvs ∧ NoDup kvs.*1 ∧
         Forall (λ key, key ∈ known_keys "entry") kvs.*1.
Proof.
  eapply (scenario_strict default_limits 7 "entry path 1 total 10 residual 5 # bytes"
    (mkScenario PlacementRequest_init ["capacity"])).
  - vm_compute. reflexivity.
  - vm_compute. reflexivity.
  - discriminate.
  - intros [H|H]; discriminate H.
Defined.

(** The header says unknown keys are refused; [flow] and [candidateset] take them. *)
Lemma unchecked_keys limits number s directive : unchecked directive → have directive s = false →
  ∃ s', ParseLine limits number (directive ++ " id 1 gen 2 colour blue") s = Value s'.
Proof.
  intros Hu Hh. exists (mkScenario
    (if String.eqb directive "flow" then rq_with_flow 1 2 (sn_request s)
     else rq_with_candidates (mkCandidateSet 1 2 (set_paths (rq_candidates (sn_request s))))
            (sn_request s)) (directive :: sn_declared s)).
  assert (pairs_ok [("id", "1"); ("gen", "2"); ("colour", "blue")]) as Hp.
  { split; [by apply (bool_decide_unpack _)|by repeat constructor|done]. }
  change " id 1 gen 2 colour blue" with (render [("id", "1"); ("gen", "2"); ("colour", "blue")]).
  destruct Hu as [->| ->]; rewrite ParseLine_pairs by done; unfold ParseDirective, declare_once;
    cbn [ap_directive parsing String.eqb Ascii.eqb Bool.eqb]; by rewrite Hh.
Qed.
