(* ===== verification/BenchProps.v ===== *)
(** * Properties of the benchmark

    What the synthetic benchmark measures, and when its sweep ends. *)

From Stdlib Require Import String.
From S2P Require Import Prelude StdAlgo Checked Status Bytes Hash Model ModelDigest Validate.
From S2P Require Import Explain Records Place RuntimeState Bench BenchFacts.

Open Scope N_scope.

(** The sweep over the fan-out ends for every fan-out up to 2^63, with
    63 rounds of the doubling loop: it has at most six points, none above the configured fan-out, and ends with it.
    For a larger fan-out the doubled value wraps to 0 and the loop never ends. *)
Lemma bench_sweep config :
  (bc_fanout config ≤ 2 ^ 63 →
   ∃ fanouts, (∀ fuel, (63 ≤ fuel)%nat → sweep fuel config = Some fanouts) ∧
     size fanouts ≤ 6 ∧ last fanouts = Some (N.max 1 (bc_fanout config)) ∧
     Forall (λ f, 1 ≤ f ≤ N.max 1 (bc_fanout config)) fanouts) ∧
  (2 ^ 63 < bc_fanout config → ∀ fuel, sweep fuel config = None).
Proof.
  split.
  - intros Hf. set (target := N.max 1 (bc_fanout config)).
    destruct (powers_below_ends target 63 0) as (powers & Hp & H1); [lia|unfold target; lia|].
    pose proof (sweep_bound 63 config) as Hb. unfold sweep in *. cbv zeta in *. fold target in Hb |- *.
    rewrite Hp in Hb by lia. specialize (Hb _ eq_refl). eexists. split_and!.
    + intros fuel Hfuel. by rewrite Hp.
    + destruct (N.ltb_spec 6 (size (powers ++ [target]))) as [Hs|Hs]; [|done].
      autorewrite with size. unfold size in *. rewrite length_drop.
      lia.
    + destruct (N.ltb_spec 6 (size (powers ++ [target]))) as [Hs|Hs]; [|by rewrite last_snoc].
      rewrite drop_app_le by (rewrite length_app in *; unfold size in Hs; rewrite length_app in Hs; cbn in *; lia).
      rewrite app_comm_cons. by rewrite last_snoc.
    + apply Forall_and. split; [|exact Hb].
      assert (Forall (λ f, 1 ≤ f) (powers ++ [target])) as Hone.
      { apply Forall_app. split; [done|]. constructor; [unfold target; lia|constructor]. }
      destruct (6 <? _); [|done]. constructor; [|by apply Forall_drop].
      cbv beta. destruct (N.eqb_spec (target / 32) 0); [done|].
      by apply (N.le_succ_l 0), N.neq_0_lt_0.
  - intros Hf fuel. unfold sweep. cbv zeta.
    rewrite powers_below_loops; [done|lia|]. right. exists 0. by split.
Qed.

(** C36: Under the default limits, with at most 2^20 paths and fewer than 2^62 rounds,
    the benchmark ends and measures completed placements: it has a result of at most six
    points up to the configured fan-out; every point counts exactly the configured rounds
    as placed or placed with degradation, none as anything else, and what it counts, the
    digest accumulator included, does not depend on the clock. *)
Theorem bench_placements elapsed elapsed' config :
  bc_limits config = default_limits → bc_fanout config ≤ 2 ^ 20 → bc_iterations config < 2 ^ 62 →
  ∃ result, RunSyntheticPlacementBenchmark elapsed 63 config = Some result ∧
    size (br_samples result) ≤ 6 ∧
    last (bs_fanout <$> br_samples result) = Some (N.max 1 (bc_fanout config)) ∧
    Forall (λ s, bs_placed s + bs_placed_degraded s = bc_iterations config ∧
                 Forall (λ c, c = 0) [bs_no_legal_path s; bs_insufficient_capacity s;
                   bs_policy_rejected s; bs_deferred s; bs_stale_input s; bs_conflicting_input s])
      (br_samples result) ∧
    ∃ result', RunSyntheticPlacementBenchmark elapsed' 63 config = Some result' ∧
      untimed <$> br_samples result' = untimed <$> br_samples result.
Proof.
  intros Hl Hf Hi. destruct (proj1 (bench_sweep config)) as (fanouts & Hs & Hsize & Hlast & _); [lia|].
  specialize (Hs 63%nat (le_n _)). unfold RunSyntheticPlacementBenchmark. rewrite Hs.
  cbn [mbind option_bind]. apply sweep_bound in Hs. eexists. split; [done|]. cbn [br_samples].
  split_and!.
  - unfold size in *. by rewrite length_fmap.
  - assert (bs_fanout <$> (run_point elapsed config <$> fanouts) = fanouts) as ->; [|done].
    rewrite <-list_fmap_compose. rewrite <-(list_fmap_id fanouts) at 2.
    apply list_fmap_ext. intros _ fanout _. apply run_point_fanout.
  - apply Forall_fmap. eapply Forall_impl; [exact Hs|]. intros fanout Hfan. cbn in Hfan |- *.
    destruct (run_point_placed elapsed config fanout Hl) as [Hp Ho]; [lia|done|]. by split.
  - eexists. split; [done|]. cbn [br_samples]. rewrite <-!list_fmap_compose.
    apply list_fmap_ext. intros _ fanout _. apply run_point_untimed.
Qed.

Lemma bench_placements_witness :
  let config := mkBenchConfig 2 16 3 50 8 3 1 1 default_limits in
  ∃ result, RunSyntheticPlacementBenchmark (λ _ i, 1000 + i) 63 config = Some result ∧
    size (br_samples result) ≤ 6 ∧ last (bs_fanout <$> br_samples result) = Some 2 ∧
    Forall (λ s, bs_placed s + bs_placed_degraded s = 3 ∧
                 Forall (λ c, c = 0) [bs_no_legal_path s; bs_insufficient_capacity s;
                   bs_policy_rejected s; bs_deferred s; bs_stale_input s; bs_conflicting_input s])
      (br_samples result) ∧
    ∃ result', RunSyntheticPlacementBenchmark (λ _ _, 0) 63 config = Some result' ∧
      untimed <$> br_samples result' = untimed <$> br_samples result.
Proof.
  cbv zeta. apply (bench_placements (λ _ i, 1000 + i) (λ _ _, 0)
    (mkBenchConfig 2 16 3 50 8 3 1 1 default_limits)).
  - reflexivity.
  - cbn. lia.
  - cbn. lia.
Defined.
