(* ===== verification/CommandLineProps.v ===== *)
(** * Properties of the command line

    What the commands on a scenario file answer, and what a worker sends and counts. *)

From Stdlib Require Import String Ascii.
From S2P Require Import Prelude StdAlgo Checked Status Bytes Hash Model ModelDigest Validate.
From S2P Require Import Explain Records Codec CodecFacts CodecProps Wire WireFacts Fixture RuntimeState.
From S2P Require Import Transport Store Server ServerState Worker Scenario ScenarioDocument ScenarioTyped ScenarioProps.
From S2P Require Import Place Threads Runtime RuntimeInv RuntimeAlone RuntimeDemo RuntimeProps StoreOps.
From S2P Require Import CommandLine CommandLineFacts CommandPlace.

Open Scope string_scope.
Open Scope N_scope.

(** A process that finds one file and nothing else. *)
Definition one_file (path text : string) : Environment :=
  mkEnvironment (λ p, if String.eqb p path then Some text else None) (λ _, mkDisk None None) [] 1 0
    Status_Ok true "" [] Status_Ok.

Definition on_file (path : string) : Arguments := mkArguments [] [("scenario", path)].

(** The requests the commands take a document for. *)
Definition loads (args : Arguments) (env : Environment) (request : PlacementRequest) : Prop :=
  let path := Get "scenario" "" args in
  path ≠ "" ∧ ∃ file, env_files env path = Some file ∧
    ParseScenario file default_limits = Value request.

(** C33: [validate] exits with 0 exactly for a readable file whose document is parsed
    into a request the validator accepts, and with 1 otherwise.  For such a file whose
    provenance names a producer and a time of observation that is not negative, and whose
    rendering is within the bounds of the parser, [roundtrip] exits with 0 as well, and
    both print the digest of the same request. *)
Theorem scenario_commands args env :
  (exit_code (RunValidate args env) = 0 ↔
   ∃ request, loads args env request ∧ well_formed request default_limits) ∧
  exit_code (RunValidate args env) ≤ 1 ∧
  ∀ request, loads args env request → well_formed request default_limits →
    prov_producer (rq_provenance request) ≠ "" →
    (0 ≤ prov_observer_unix_nanos (rq_provenance request))%Z →
    Forall (λ line, string_size line ≤ kMaxScenarioLineBytes) (scenario_lines request) →
    string_size (WriteScenario request) ≤ kMaxScenarioBytes →
    let path := c_str (Get "scenario" "" args) in
    let digest := Digest_ToHex (RequestDigest request default_limits) in
    RunValidate args env =
      prints 0 ("valid: " ++ path ++ newline ++ "request_digest=" ++ digest ++ newline) ∧
    RunRoundtrip args env = prints 0 ("roundtrip ok: digest=" ++ digest ++ newline).
Proof.
  assert (∀ request, loads args env request →
    LoadScenario args env = Value (Get "scenario" "" args, request)) as Hload.
  { intros request [Hne Hf]. by apply LoadScenario_parses. }
  split_and!.
  - unfold RunValidate. split.
    + destruct (LoadScenario args env) as [[path request]|status] eqn:Hl; [|done].
      apply LoadScenario_parses in Hl as (-> & Hne & Hf). intros H. exists request.
      split; [by split|]. by apply ValidateRequest_ok; destruct (status_ok _).
    + intros (request & Hl%Hload & Hw%ValidateRequest_ok). by rewrite Hl, Hw.
  - unfold RunValidate. destruct (LoadScenario args env) as [[path request]|status]; [|done].
    by destruct (negb _).
  - intros request Hl Hv%ValidateRequest_ok Hp Ho Hlines Hsize path digest.
    split; [unfold RunValidate; by rewrite (Hload _ Hl), Hv|].
    destruct (Hl) as (_ & file & _ & Hparse).
    pose proof (parsed_writable _ _ Hparse Hv Ho Hlines Hsize) as Hw%rendered_request.
    rewrite named_same in Hw by (by eauto using ParseScenario_worded).
    unfold RunRoundtrip. rewrite (Hload _ Hl), Hw.
    rewrite (proj2 (Digest_eqb_eq _ _) eq_refl), String.eqb_refl. done.
Qed.

(** A document that names its producer. *)
Definition produced : string :=
  handwritten ++ "provenance producer lab version 1.2 sequence 7 observed 99" ++ newline.

(** The request it stands for. *)
Definition produced_request : PlacementRequest :=
  rq_with_provenance (mkProvenance "lab" "1.2" 7 99) (Baseline 2 5000).

Lemma scenario_commands_witness :
  let env := one_file "a.txt" produced in
  let digest := Digest_ToHex (RequestDigest produced_request default_limits) in
  RunValidate (on_file "a.txt") env =
    prints 0 ("valid: a.txt" ++ newline ++ "request_digest=" ++ digest ++ newline) ∧
  RunRoundtrip (on_file "a.txt") env = prints 0 ("roundtrip ok: digest=" ++ digest ++ newline).
Proof.
  cbv zeta.
  apply (proj2 (proj2 (scenario_commands (on_file "a.txt") (one_file "a.txt" produced)))).
  - split; [done|]. exists produced. split; [done|]. vm_compute. reflexivity.
  - apply ValidateRequest_ok. vm_compute. reflexivity.
  - done.
  - done.
  - by repeat constructor.
  - vm_compute. discriminate.
Defined.

(** [roundtrip] fails on valid documents: the handwritten
    scenario, which names no producer, validates, but its rendering has a dash for the empty producer, which is
    parsed back as a producer and changes the digest. *)
Lemma roundtrip_unnamed :
  let env := one_file "a.txt" handwritten in
  exit_code (RunValidate (on_file "a.txt") env) = 0 ∧
  exit_code (RunRoundtrip (on_file "a.txt") env) = 1.
Proof. split; vm_compute; reflexivity. Qed.

(** The attempt of a worker's round. *)
Definition round_attempt (worker i : N) : N := wrap 64 (1000000 + worker * 100000 + i).

(** C34: What a worker sends is what the server places.  Take a document that is
    parsed into a request the validator accepts (which [RunWorker] does not check), an
    epoch of 64 bits that is not zero and a round whose attempt is not zero.  The frame of
    the round decodes at the server to a fitting submission of the attempt under the epoch
    of the handshake, whose request is bound to both, keeps the candidates and the policy
    and passes the checks of an admission.  The rounds of one worker below 2^64 have
    distinct attempts, and so have two workers with identifiers below 2^40 and fewer than
    100000 rounds each. *)
Theorem worker_frames text request epoch worker i sequence :
  ParseScenario text default_limits = Value request → well_formed request default_limits →
  u64_fits epoch → epoch ≠ 0 → round_attempt worker i ≠ 0 →
  let body := fr_body (worker_frame request epoch worker i sequence) in
  (∃ payload rest,
    DecodePlaceRequest default_limits (mkReader body 0) = Value (payload, rest) ∧
    place_request_fits default_limits payload ∧
    preq_attempt payload = round_attempt worker i ∧ preq_epoch payload = epoch ∧
    exp_fabric_epoch (rq_expected (bound_request payload)) = epoch ∧
    rq_candidates (bound_request payload) = rq_candidates request ∧
    rq_policy (bound_request payload) = rq_policy request ∧
    status_ok (check_submission (bound_request payload) (preq_attempt payload) default_limits) = true) ∧
  (∀ j, i < 2 ^ 64 → j < 2 ^ 64 → round_attempt worker i = round_attempt worker j → i = j) ∧
  (∀ other j, worker < 2 ^ 40 → other < 2 ^ 40 → i < 100000 → j < 100000 →
    round_attempt worker i = round_attempt other j → worker = other ∧ i = j).
Proof.
  intros Hp Hw He Hne Ha body. apply ParseScenario_typed in Hp as [Ht Ho].
  set (bound := round_request request epoch (round_attempt worker i)).
  assert (u64_fits (round_attempt worker i)) as Hfit by apply wrap_fits.
  assert (place_request_fits default_limits
    (mkPlaceRequest (round_attempt worker i) epoch bound)) as Hpf.
  { split; [by repeat constructor|]. cbn [preq_request].
    apply valid_request_fits; [by apply round_well_formed|by apply round_typed|by repeat constructor|done]. }
  assert (bound_request (mkPlaceRequest (round_attempt worker i) epoch bound) = bound) as Hb.
  { unfold bound_request. cbn. by destruct (valid _). }
  split_and!.
  - eexists _, _. split_and!.
    + apply (decodes_all_run _ _ _ (DecodePlaceRequest_inverts default_limits _ Hpf)).
    + exact Hpf.
    + done.
    + done.
    + by rewrite Hb.
    + by rewrite Hb.
    + by rewrite Hb.
    + rewrite Hb. unfold check_submission, valid. cbn [preq_attempt bound round_request rq_attempt rq_with_attempt].
      rewrite (proj2 (N.eqb_neq _ _) Ha), N.eqb_refl. cbn.
      by apply ValidateRequest_ok, round_well_formed.
  - unfold round_attempt, wrap. intros j Hi Hj Hij.
    assert (∀ a n m, n < 2 ^ 64 → m < 2 ^ 64 → (a + n) mod 2 ^ 64 = (a + m) mod 2 ^ 64 → n = m) as Hinj.
    { clear. intros a n m Hn Hm H. pose proof (N.div_mod' (a + n) (2 ^ 64)).
      pose proof (N.div_mod' (a + m) (2 ^ 64)). rewrite H in *.
      revert H0 H1. generalize ((a + n) / 2 ^ 64), ((a + m) / 2 ^ 64), ((a + m) mod 2 ^ 64). nia. }
    by eapply Hinj.
  - unfold round_attempt, wrap. intros other j Hwk Hot Hi Hj. rewrite !N.mod_small by lia. lia.
Qed.

Lemma worker_frames_witness :
  let body := fr_body (worker_frame handwritten_request 11 4 1 3) in
  ∃ payload rest,
    DecodePlaceRequest default_limits (mkReader body 0) = Value (payload, rest) ∧
    place_request_fits default_limits payload ∧
    preq_attempt payload = 1400001 ∧ preq_epoch payload = 11 ∧
    exp_fabric_epoch (rq_expected (bound_request payload)) = 11 ∧
    rq_candidates (bound_request payload) = rq_candidates handwritten_request ∧
    rq_policy (bound_request payload) = rq_policy handwritten_request ∧
    status_ok (check_submission (bound_request payload) (preq_attempt payload) default_limits) = true.
Proof.
  refine (proj1 (worker_frames handwritten handwritten_request 11 4 1 3 _ _ _ _ _)).
  - vm_compute. reflexivity.
  - apply ValidateRequest_ok. vm_compute. reflexivity.
  - done.
  - done.
  - vm_compute. discriminate.
Defined.

(** A worker that comes to its end accounts for every round: its exit
    code is 0 or 2 only after each of the rounds it was asked for was answered and counted once, the counts it
    prints add up to the rounds, and the code is 0 exactly if no number of committed
    placements was expected or this number was committed. *)
Theorem worker_counts args env request options repeat expected report :
  loads args env request → worker_options args = Some (options, repeat, expected) →
  RunWorker args env = Exits report →
  exit_code report ≤ 3 ∧
  (exit_code report = 0 ∨ exit_code report = 2 →
   ∃ c handshake, printed report = worker_line c handshake ∧
     wc_committed c + wc_rejected c + wc_fenced c + wc_other c = N.max 1 repeat ∧
     (exit_code report = 0 ↔ expected = uint_max 64 ∨ wc_committed c = expected)).
Proof.
  intros [Hne Hf] Ho. assert (LoadScenario args env = Value (Get "scenario" "" args, request)) as Hl
    by (by apply LoadScenario_parses).
  assert (repeat ≤ uint_max 64) as Hrep by (by eapply worker_options_fit).
  unfold RunWorker. rewrite Hl, Ho.
  destruct (ConnectWorker _ _ _ _) as [[[connection|status]|] handshake]; [| |done].
  2: { intros [= <-]. cbn. split; [done|]. by intros [|]. }
  destruct (worker_rounds _ _ _ _ _ _ _ _ _) as [[failed|[c l]]|] eqn:E; [| |done].
  - apply worker_rounds_failed in E. intros [= <-]. rewrite E. split; [done|]. by intros [|].
  - apply worker_rounds_count in E; rewrite N2Nat.id in *;
      [|change (counted_rounds (mkCounts 0 0 0 0)) with 0; unfold uint_max in *; lia].
    change (counted_rounds (mkCounts 0 0 0 0)) with 0 in E. unfold counted_rounds in E.
    intros [= <-]. unfold finish_worker. destruct (negb (status_ok _)); [by split; [|intros [|]]|].
    destruct (N.eqb_spec expected (uint_max 64)) as [He|He];
      [|destruct (N.eqb_spec (wc_committed c) expected) as [Hc|Hc]]; cbn [negb andb exit_code prints printed];
      (split; [done|]); intros _; exists c, handshake; (split_and!; [done|lia|]); split; try done; try tauto.
Qed.

(** A worker whose two rounds were both fenced. *)
Definition fenced_frame : Frame :=
  mkFrame FrameKind.kError 0 2
    (EncodeErrorPayload (mkErrorPayload StatusCode.kFencedStaleEpoch 1 "superseded") []).

Definition fencing_link : Link :=
  let ack := mkHelloAck 1 9 12 kDefaultMaxFrameBytes 16 "" true StatusCode.kOk "" in
  mkLink (ln_connection (open_link kDefaultMaxFrameBytes))
    (RecvBytes <$> [frame_bytes (ack_frame ack 1); frame_bytes fenced_frame; frame_bytes fenced_frame])
    [replicate 128 50; replicate 4000 512; replicate 4000 512] [].

Definition working_process : Environment :=
  mkEnvironment (λ p, if String.eqb p "a.txt" then Some handwritten else None)
    (λ _, mkDisk None None) [] 1 0 Status_Ok true "" [Value fencing_link] Status_Ok.

Definition working : Arguments :=
  mkArguments [] [("scenario", "a.txt"); ("port", "9000"); ("repeat", "2")].

Lemma worker_counts_witness :
  let report := prints 0 ("worker: committed=0 rejected=0 fenced=2 other=0 coordinator=9 epoch=12"
                            ++ newline) in
  RunWorker working working_process = Exits report ∧
  ∃ c handshake, printed report = worker_line c handshake ∧
    wc_committed c + wc_rejected c + wc_fenced c + wc_other c = 2 ∧
    (exit_code report = 0 ↔ uint_max 64 = uint_max 64 ∨ wc_committed c = uint_max 64).
Proof.
  intros report. assert (RunWorker working working_process = Exits report) as Hr
    by (vm_compute; reflexivity).
  split; [exact Hr|].
  refine (proj2 (worker_counts working working_process handwritten_request
    (mkWorkerOptions "127.0.0.1" 9000 1 1 kDefaultMaxFrameBytes 400 10) 2 (uint_max 64) report _ _ Hr) _).
  - split; [done|]. exists handwritten. split; [done|]. vm_compute. reflexivity.
  - vm_compute. reflexivity.
  - by left.
Defined.

(** C35: A placement with [--store] comes to its end.  For every loaded request that the
    validator accepts, where the coordinator starts, there is a schedule of the main thread
    and the coordinator's workers that joins the workers, closes the store and ends with
    the main thread's report and the coordinator stopped.  The close leaves the file closed
    and the disk as it was, and its status is a success exactly where no call on the open
    file failed ([store_shut]); a coordinator without a store has nothing to close.
    Where the store refuses the start record the report is its status and the exit code 1.
    Otherwise the report is the outcome of the attempt and of the close: REJECTED with the
    decision's code where the engine places nothing, COMMITTED with the identity and the
    generation of the stored record, or the state of the store's refusal; and the exit code
    is 0 exactly where the placement was committed and the store closed without a
    failure. *)
Theorem place_command args explain env coordinator main request :
  loads args env request → well_formed request default_limits →
  RunPlace args explain env = Places coordinator main →
  let attempt := if valid (rq_attempt request) then rq_attempt request else 1 in
  let decision := Place default_limits (rq_with_attempt attempt request) in
  ∃ events closing joined sys' report shutdown,
    process_schedule events (place_process coordinator main) = Some joined ∧
    process_schedule closing joined = Some sys' ∧
    Forall (λ e, ∃ i, e = Run i) (events ++ closing) ∧
    co_state (sys_state joined) = RunState.kShuttingDown ∧
    co_live_workers (sys_state joined) = 0 ∧
    sys_threads sys' !! 0%nat = Some (Finished (inr report)) ∧
    co_state (sys_state sys') = RunState.kStopped ∧
    store_shut (co_store (sys_state joined)) shutdown (co_store (sys_state sys')) ∧
    match start_store coordinator request attempt (co_store coordinator) with
    | Error status => report = placement_error status ∧ exit_code report = 1
    | Value store =>
        let outcome := place_outcome coordinator request attempt decision store in
        report = place_report attempt outcome shutdown ∧
        (exit_code report = 0 ↔
         status_ok shutdown = true ∧ ∃ intent r, dec_intent decision = Some intent ∧
           commit_result coordinator request attempt store intent = Value r)
    end.
Proof.
  intros Hloads Hw Hrun attempt decision.
  assert (LoadScenario args env = Value (Get "scenario" "" args, request)) as Hl
    by (destruct Hloads; by apply LoadScenario_parses).
  unfold RunPlace in Hrun. rewrite Hl in Hrun. destruct (negb _ && _); [|done].
  destruct (Start _ _ _ _ _) as [s|status] eqn:Hs; [|done]. injection Hrun as <- <-. fold attempt.
  destruct (place_started _ _ _ _ _ _ _ Hs) as (Hr & Hlive & Hslots & Hlim & Hauth & Hep).
  destruct Hloads as (_ & file & _ & Hparse). apply ParseScenario_typed in Hparse as [Ht _].
  assert (exp_fabric_epoch (rq_expected request) ≠ 0) as Hne.
  { destruct Hw as [_ [Hd _] _ _ _ _]. unfold declared_ids in Hd. rewrite !Forall_cons in Hd. tauto. }
  assert (u64_fits (exp_fabric_epoch (rq_expected request))) as Hfit.
  { unfold request_typed, expectation_fits in Ht. rewrite !Forall_cons in Ht. tauto. }
  specialize (Hep Hne).
  assert (coherent s) as Hc.
  { apply starts_coherent. eexists _, _, _, _, _. split; [|exact Hs]. unfold place_options.
    cbn [opt_initial_epoch]. destruct (valid (exp_fabric_epoch _)); [exact Hfit|done]. }
  assert (status_ok (check_submission request attempt (opt_limits (co_options s))) = true) as Hcheck.
  { rewrite Hlim. unfold check_submission, attempt, valid.
    destruct (N.eqb_spec (rq_attempt request) 0) as [->|Ha]; cbn; [by apply ValidateRequest_ok|].
    rewrite N.eqb_refl, (proj2 (N.eqb_neq _ _) Ha). cbn. by apply ValidateRequest_ok. }
  pose proof (PlaceNow_alone s request attempt Hc Hcheck) as Halone.
  specialize (Halone ltac:(unfold is_running; by rewrite Hr) ltac:(by rewrite Hep)
    ltac:(by rewrite Hslots)).
  destruct (start_store s request attempt (co_store s)) as [store|status].
  - destruct Halone as (ref & s1 & Ha & _).
    destruct (process_ends s request attempt _ s1 Hc Hr Hlive Ha)
      as (events & closing & joined & sys' & shutdown & Hx & Hx' & Hall & [= Hj Hw' _] & Hth & Hst & Hcl).
    exists events, closing, joined, sys'. eexists. exists shutdown.
    do 8 (split; [eassumption|]). unfold place_answer.
    rewrite (new_outcome _ _ _ _ Hlim Hauth). fold decision.
    split; [reflexivity|]. rewrite place_report_success. by rewrite place_outcome_committed.
  - destruct Halone as (s1 & Ha).
    destruct (process_ends s request attempt _ s1 Hc Hr Hlive Ha)
      as (events & closing & joined & sys' & shutdown & Hx & Hx' & Hall & [= Hj Hw' _] & Hth & Hst & Hcl).
    exists events, closing, joined, sys'. eexists. exists shutdown.
    do 8 (split; [eassumption|]). done.
Qed.

(** A placement of the handwritten scenario into a new store. *)
Definition storing : Arguments := mkArguments [] [("scenario", "a.txt"); ("store", "s.bin")].

Definition storing_coordinator : CoordinatorState :=
  match Start (place_options "s.bin" handwritten_request) 1 0 (mkDisk None None) [] with
  | Value s => s
  | Error _ => unstarted
  end.

(** How it ends. *)
Definition storing_outcome : option (AttemptState * N * N) :=
  let s := storing_coordinator in
  match start_store s handwritten_request 1 (co_store s) with
  | Error _ => None
  | Value store =>
      let decision := Place default_limits (rq_with_attempt 1 handwritten_request) in
      let outcome := place_outcome s handwritten_request 1 decision store in
      Some (ao_state outcome, ao_placement_id outcome, ao_placement_generation outcome)
  end.

Lemma storing_places :
  RunPlace storing false (one_file "a.txt" handwritten) =
  Places storing_coordinator (place_committing handwritten_request 1).
Proof.
  assert (LoadScenario storing (one_file "a.txt" handwritten) = Value ("a.txt", handwritten_request))
    as Hl by (vm_compute; reflexivity).
  unfold RunPlace. rewrite Hl. change (negb (Has "no-commit" storing) && Has "store" storing) with true.
  cbv iota zeta. change (Get "store" "" storing) with "s.bin". unfold storing_coordinator.
  assert (match Start (place_options "s.bin" handwritten_request) 1 0 (mkDisk None None) [] with
          | Value _ => true | Error _ => false end = true) as Hs by (vm_compute; reflexivity).
  change (env_process _) with 1. change (env_now _) with 0%Z. change (env_disks _ _) with (mkDisk None None).
  change (env_io _) with (@nil IoOutcome).
  by destruct (Start (place_options "s.bin" handwritten_request) 1 0 (mkDisk None None) []).
Qed.

Lemma place_command_witness :
  storing_outcome = Some (AttemptState.kCommitted, 1, 1) ∧
  ∃ events closing joined sys' report shutdown,
    process_schedule events
      (place_process storing_coordinator (place_committing handwritten_request 1)) = Some joined ∧
    process_schedule closing joined = Some sys' ∧
    Forall (λ e, ∃ i, e = Run i) (events ++ closing) ∧
    sys_threads sys' !! 0%nat = Some (Finished (inr report)) ∧
    co_state (sys_state sys') = RunState.kStopped ∧
    store_shut (co_store (sys_state joined)) shutdown (co_store (sys_state sys')).
Proof.
  split; [vm_compute; reflexivity|].
  destruct (place_command storing false (one_file "a.txt" handwritten) storing_coordinator
    (place_committing handwritten_request 1) handwritten_request)
    as (events & closing & joined & sys' & report & shutdown & H & H' & Hr & _ & _ & Ht & Hs & Hc & _).
  - split; [done|]. exists handwritten. split; [done|]. vm_compute. reflexivity.
  - apply ValidateRequest_ok. vm_compute. reflexivity.
  - exact storing_places.
  - by exists events, closing, joined, sys', report, shutdown.
Defined.
