(* ===== verification/Process.v ===== *)
(** * Supervised processes

    [process.hpp] and [process.cpp], the branches for POSIX and for Windows.  The
    calls of the operating system are the fields of a class each: a call takes what
    the source hands it and the state of the host, and gives the results the source
    looks at with the host's next state.  [void*] is an [option], [int] and
    [std::int64_t] are [Z]. *)

From Stdlib Require Import String Ascii.
From S2P Require Import Prelude StdAlgo Status.

Local Open Scope Z_scope.

(** ** Conversions *)

(** [static_cast<int>] and [static_cast<pid_t>]: 32 bits, two's complement. *)
Definition as_int (v : Z) : Z := (v + 2 ^ 31) mod 2 ^ 32 - 2 ^ 31.

(** ** [ChildProcess] *)

Record ChildProcess := mkChild {
  cp_id : Z;
  cp_handle : option Z;
  cp_running : bool;
}.

Definition ChildProcess_init : ChildProcess := mkChild 0 None false.

Definition not_running (child : ChildProcess) : ChildProcess :=
  mkChild (cp_id child) (cp_handle child) false.

Definition invalid_argument (message : string) : Status :=
  mkStatus StatusCode.kInvalidArgument message.
Definition io_error (message : string) : Status := mkStatus StatusCode.kIoError message.

(** ** POSIX *)

(** [posix_spawn] on the program and its arguments gives its return code and the
    process; [waitpid], blocking or with [WNOHANG], its result and the status;
    [kill_SIGKILL] its result.  The macros take a status apart. *)
Class PosixHost (World : Type) := {
  posix_spawn : string → list string → World → Z * Z * World;
  waitpid : Z → bool → World → Z * Z * World;
  kill_SIGKILL : Z → World → Z * World;
  WIFEXITED : Z → bool;
  WEXITSTATUS : Z → Z;
  WIFSIGNALED : Z → bool;
  WTERMSIG : Z → Z;
  getpid : World → Z;
}.

Module Posix.
Section Posix.
Context {World : Type} `{PosixHost World}.

(** The working directory is not used; a null [out] is [None]. *)
Definition SpawnProcess (argv : list string) (working_directory : string)
    (out : option ChildProcess) (w : World) : Status * option ChildProcess * World :=
  match argv, out with
  | [], _ => (invalid_argument "argv must not be empty", out, w)
  | _, None => (invalid_argument "output handle is null", None, w)
  | program :: _, Some _ =>
      let '(rc, pid, w) := posix_spawn (c_str program) (map c_str argv) w in
      if negb (rc =? 0) then
        (io_error ("posix_spawn failed for " ++ program), Some ChildProcess_init, w)
      else (Status_Ok, Some (mkChild pid None true), w)
  end.

Definition ProcessRunning (child : ChildProcess) (w : World) : bool * ChildProcess * World :=
  if negb (cp_running child) then (false, child, w)
  else if cp_id child <=? 0 then (false, child, w)
  else
    let '(result, _, w) := waitpid (as_int (cp_id child)) true w in
    if result =? 0 then (true, child, w) else (false, not_running child, w).

(** The code the waiting functions make of a status. *)
Definition exit_code (status : Z) : option Z :=
  if WIFEXITED status then Some (WEXITSTATUS status)
  else if WIFSIGNALED status then Some (128 + WTERMSIG status)
  else None.

Definition WaitForExit (child : ChildProcess) (w : World) : Result Z * ChildProcess * World :=
  if negb (cp_running child) then
    (Error (invalid_argument "process is not running"), child, w)
  else
    let '(result, status, w) := waitpid (as_int (cp_id child)) false w in
    if result <? 0 then (Error (io_error "waitpid failed"), child, w)
    else
      (match exit_code status with
       | Some code => Value code
       | None => Error (io_error "unexpected wait status")
       end, not_running child, w).

Definition TryWaitForExit (child : ChildProcess) (w : World)
    : Result (option Z) * ChildProcess * World :=
  if negb (cp_running child) then (Value None, child, w)
  else
    let '(result, status, w) := waitpid (as_int (cp_id child)) true w in
    if result =? 0 then (Value None, child, w)
    else if result <? 0 then (Error (io_error "waitpid failed"), child, w)
    else
      (match exit_code status with
       | Some code => Value (Some code)
       | None => Error (io_error "unexpected wait status")
       end, not_running child, w).

Definition KillProcess (child : ChildProcess) (w : World) : Status * ChildProcess * World :=
  if negb (cp_running child) then (invalid_argument "process is not running", child, w)
  else
    let '(result, w) := kill_SIGKILL (as_int (cp_id child)) w in
    if negb (result =? 0) then (io_error "kill failed", child, w)
    else
      let '(_, _, w) := waitpid (as_int (cp_id child)) false w in
      (Status_Ok, not_running child, w).

(** A null pointer is [None]. *)
Definition DetachProcess (child : option ChildProcess) (w : World)
    : option ChildProcess * World :=
  match child with
  | None => (None, w)
  | Some child => (Some (not_running child), w)
  end.

Definition CurrentProcessId (w : World) : Z := getpid w.
End Posix.
End Posix.

(** ** Windows *)

Inductive WaitResult := WAIT_OBJECT_0 | WAIT_TIMEOUT | WAIT_FAILED.

(** [CreateProcessA] on a command line and a directory gives, when it succeeds, the
    process id, the process handle and the thread handle; [WaitForSingleObject] waits
    without end or not at all; [GetExitCodeProcess] gives a [DWORD] when it succeeds. *)
Class WindowsHost (World : Type) := {
  CreateProcessA : string → option string → World → option (N * Z * Z) * World;
  WaitForSingleObject : Z → bool → World → WaitResult * World;
  GetExitCodeProcess : Z → World → option N * World;
  TerminateProcess : Z → N → World → bool * World;
  CloseHandle : Z → World → World;
  GetCurrentProcessId : World → N;
}.

Module Windows.

(** The characters of [find_first_of] in [QuoteArgument]. *)
Definition needs_quotes (c : ascii) : bool :=
  existsb (Ascii.eqb c) [" "; "009"; "010"; "011"; "034"]%char.

(** The loop of [QuoteArgument] where [backslashes] of them have been counted, and
    the closing quote. *)
Fixpoint quote_loop (backslashes : nat) (argument : list ascii) : list ascii :=
  match argument with
  | [] => replicate (backslashes * 2) "\"%char ++ ["034"%char]
  | c :: argument =>
      if Ascii.eqb c "\" then quote_loop (S backslashes) argument
      else if Ascii.eqb c "034" then
        replicate (backslashes * 2 + 1) "\"%char ++ "034"%char :: quote_loop 0 argument
      else replicate backslashes "\"%char ++ c :: quote_loop 0 argument
  end.

Definition QuoteArgument (argument : string) : string :=
  let characters := list_ascii_of_string argument in
  if negb (bool_decide (characters = []) || existsb needs_quotes characters) then argument
  else string_of_list_ascii ("034"%char :: quote_loop 0 characters).

(** [SpawnProcess]: the arguments, quoted, with a blank between them. *)
Fixpoint command_line (argv : list string) : string :=
  match argv with
  | [] => ""
  | [argument] => QuoteArgument argument
  | argument :: argv => QuoteArgument argument ++ String " " (command_line argv)
  end.

Section Windows.
Context {World : Type} `{WindowsHost World}.

Definition SpawnProcess (argv : list string) (working_directory : string)
    (out : option ChildProcess) (w : World) : Status * option ChildProcess * World :=
  match argv, out with
  | [], _ => (invalid_argument "argv must not be empty", out, w)
  | _, None => (invalid_argument "output handle is null", None, w)
  | program :: _, Some _ =>
      let cwd :=
        if String.eqb working_directory "" then None else Some (c_str working_directory) in
      match CreateProcessA (c_str (command_line argv)) cwd w with
      | (None, w) =>
          (io_error ("CreateProcess failed for " ++ program), Some ChildProcess_init, w)
      | (Some (id, process, thread), w) =>
          (Status_Ok, Some (mkChild (Z.of_N id) (Some process) true), CloseHandle thread w)
      end
  end.

Definition ProcessRunning (child : ChildProcess) (w : World) : bool * ChildProcess * World :=
  if negb (cp_running child) then (false, child, w)
  else
    match cp_handle child with
    | None => (false, child, w)
    | Some handle =>
        match WaitForSingleObject handle false w with
        | (WAIT_TIMEOUT, w) => (true, child, w)
        | (_, w) => (false, not_running child, w)
        end
    end.

(** After the handle was signalled: the exit code as an [int]. *)
Definition exit_code (child : ChildProcess) (handle : Z) (w : World)
    : Result Z * ChildProcess * World :=
  match GetExitCodeProcess handle w with
  | (None, w) => (Error (io_error "GetExitCodeProcess failed"), child, w)
  | (Some code, w) => (Value (as_int (Z.of_N code)), not_running child, w)
  end.

Definition WaitForExit (child : ChildProcess) (w : World) : Result Z * ChildProcess * World :=
  if negb (cp_running child) then
    (Error (invalid_argument "process is not running"), child, w)
  else
    match cp_handle child with
    | None => (Error (invalid_argument "process handle is null"), child, w)
    | Some handle =>
        match WaitForSingleObject handle true w with
        | (WAIT_OBJECT_0, w) => exit_code child handle w
        | (_, w) => (Error (io_error "WaitForSingleObject failed"), child, w)
        end
    end.

Definition TryWaitForExit (child : ChildProcess) (w : World)
    : Result (option Z) * ChildProcess * World :=
  if negb (cp_running child) then (Value None, child, w)
  else
    match cp_handle child with
    | None => (Value None, child, w)
    | Some handle =>
        match WaitForSingleObject handle false w with
        | (WAIT_TIMEOUT, w) => (Value None, child, w)
        | (WAIT_OBJECT_0, w) =>
            match exit_code child handle w with
            | (Error status, child, w) => (Error status, child, w)
            | (Value code, child, w) => (Value (Some code), child, w)
            end
        | (WAIT_FAILED, w) => (Error (io_error "WaitForSingleObject failed"), child, w)
        end
    end.

(** [0xDEADu]. *)
Definition killed_code : N := 57005.

Definition KillProcess (child : ChildProcess) (w : World) : Status * ChildProcess * World :=
  if negb (cp_running child) then (invalid_argument "process is not running", child, w)
  else
    match cp_handle child with
    | None => (invalid_argument "process handle is null", child, w)
    | Some handle =>
        match TerminateProcess handle killed_code w with
        | (false, w) => (io_error "TerminateProcess failed", child, w)
        | (true, w) =>
            let '(_, w) := WaitForSingleObject handle true w in
            (Status_Ok, not_running child, w)
        end
    end.

Definition DetachProcess (child : option ChildProcess) (w : World)
    : option ChildProcess * World :=
  match child with
  | None => (None, w)
  | Some child =>
      match cp_handle child with
      | None => (Some (not_running child), w)
      | Some handle => (Some (mkChild (cp_id child) None false), CloseHandle handle w)
      end
  end.

Definition CurrentProcessId (w : World) : Z := Z.of_N (GetCurrentProcessId w).
End Windows.
End Windows.
