(* ===== verification/ProcessFacts.v ===== *)
(** * Supervision as an interface

    [Supervisor] is what the two platforms of [Process] have in common: the
    operations on a running child.  Its laws say how the flag [running] guards the
    operating system; the histories of a child are proved against them.  Then the
    life of a POSIX child as an abstract machine, which the operations refine where
    the host keeps what POSIX documents. *)

From Stdlib Require Import String.
From S2P Require Import Prelude StdAlgo Status Process.

Local Open Scope Z_scope.

(** ** The operations of both platforms *)

Inductive Operation := OpRunning | OpWait | OpTryWait | OpKill | OpDetach.

#[export] Instance Operation_eq_dec : EqDecision Operation.
Proof. solve_decision. Defined.

Inductive Outcome :=
  | Running (running : bool)
  | Waited (result : Result Z)
  | Tried (result : Result (option Z))
  | Killed (status : Status)
  | Detached.

(** The exit code an outcome reports. *)
Definition reported (outcome : Outcome) : option Z :=
  match outcome with
  | Waited (Value code) => Some code
  | Tried (Value code) => code
  | _ => None
  end.

Class Supervisor (World : Type) := {
  perform : Operation → ChildProcess → World → Outcome * ChildProcess * World;
}.

(** What the flag promises: without it no operation but the release of the handle
    reaches the host, no operation sets it, and what reports a code clears it. *)
Class SupervisorLaws (World : Type) `{Supervisor World} := {
  perform_stopped op child w :
    cp_running child = false → op ≠ OpDetach →
    perform op child w = ((perform op child w).1.1, child, w) ∧
    reported (perform op child w).1.1 = None;
  perform_detach child w : cp_running (perform OpDetach child w).1.2 = false;
  perform_keeps op child w :
    cp_running child = false → cp_running (perform op child w).1.2 = false;
  perform_reports op child w code :
    reported (perform op child w).1.1 = Some code →
    cp_running (perform op child w).1.2 = false;
  perform_detach_silent child w : reported (perform OpDetach child w).1.1 = None;
}.

#[export] Instance posix_supervisor `{PosixHost World} : Supervisor World := {|
  perform op child w :=
    match op with
    | OpRunning => let '(r, child, w) := Posix.ProcessRunning child w in (Running r, child, w)
    | OpWait => let '(r, child, w) := Posix.WaitForExit child w in (Waited r, child, w)
    | OpTryWait => let '(r, child, w) := Posix.TryWaitForExit child w in (Tried r, child, w)
    | OpKill => let '(r, child, w) := Posix.KillProcess child w in (Killed r, child, w)
    | OpDetach =>
        let '(detached, w) := Posix.DetachProcess (Some child) w in
        (Detached, default child detached, w)
    end
|}.

Definition windows_supervisor `{WindowsHost World} : Supervisor World := {|
  perform op child w :=
    match op with
    | OpRunning => let '(r, child, w) := Windows.ProcessRunning child w in (Running r, child, w)
    | OpWait => let '(r, child, w) := Windows.WaitForExit child w in (Waited r, child, w)
    | OpTryWait => let '(r, child, w) := Windows.TryWaitForExit child w in (Tried r, child, w)
    | OpKill => let '(r, child, w) := Windows.KillProcess child w in (Killed r, child, w)
    | OpDetach =>
        let '(detached, w) := Windows.DetachProcess (Some child) w in
        (Detached, default child detached, w)
    end
|}.

(** Several operations, one after the other. *)
Fixpoint history {World} `{Supervisor World} (ops : list Operation) (child : ChildProcess)
    (w : World) : list Outcome * ChildProcess * World :=
  match ops with
  | [] => ([], child, w)
  | op :: ops =>
      let '(outcome, child, w) := perform op child w in
      let '(outcomes, child, w) := history ops child w in
      (outcome :: outcomes, child, w)
  end.

Lemma history_cons `{Supervisor World} op ops child (w : World) outcome child1 w1
    outcomes child2 w2 :
  perform op child w = (outcome, child1, w1) →
  history ops child1 w1 = (outcomes, child2, w2) →
  history (op :: ops) child w = (outcome :: outcomes, child2, w2).
Proof. intros E1 E2. cbn. by rewrite E1, E2. Qed.

Lemma history_length `{Supervisor World} ops child (w : World) :
  length (history ops child w).1.1 = length ops.
Proof.
  revert child w. induction ops as [|op ops IH]; intros child w; [done|].
  destruct (perform op child w) as [[o c] w'] eqn:E.
  specialize (IH c w'). destruct (history ops c w') as [[os c'] w''] eqn:E2.
  rewrite (history_cons _ _ _ _ _ _ _ _ _ _ E E2). cbn in *. by f_equal.
Qed.

(** ** Both platforms keep the laws *)

(** Splits on the condition or the call an operation looks at next. *)
Ltac cases_of_call :=
  repeat
    match goal with
    | |- context [match ?call with _ => _ end] =>
        lazymatch call with
        | context [match _ with _ => _ end] => fail
        | _ => destruct call eqn:?; cbn in *
        end
    end.

#[export] Instance posix_laws `{PosixHost World} : SupervisorLaws World.
Proof.
  split.
  - intros [] child w Hr Hd; try done; cbn;
      unfold Posix.ProcessRunning, Posix.WaitForExit, Posix.TryWaitForExit, Posix.KillProcess;
      rewrite Hr; done.
  - done.
  - intros [] child w Hr; cbn; try done;
      unfold Posix.ProcessRunning, Posix.WaitForExit, Posix.TryWaitForExit, Posix.KillProcess;
      rewrite Hr; done.
  - intros [] child w code; cbn;
      unfold Posix.ProcessRunning, Posix.WaitForExit, Posix.TryWaitForExit, Posix.KillProcess;
      cases_of_call; done.
  - done.
Qed.

Section WindowsLaws.
Context {World : Type} `{WindowsHost World}.
#[local] Existing Instance windows_supervisor.

#[export] Instance windows_laws : @SupervisorLaws World windows_supervisor.
Proof.
  split.
  - intros [] child w Hr Hd; try done; cbn;
      unfold Windows.ProcessRunning, Windows.WaitForExit, Windows.TryWaitForExit,
        Windows.KillProcess; rewrite Hr; done.
  - intros child w. cbn. unfold Windows.DetachProcess. cases_of_call; done.
  - intros [] child w Hr; cbn; 
      unfold Windows.ProcessRunning, Windows.WaitForExit, Windows.TryWaitForExit,
        Windows.KillProcess, Windows.DetachProcess; rewrite ?Hr; try done.
    cases_of_call; done.
  - intros [] child w code; cbn;
      unfold Windows.ProcessRunning, Windows.WaitForExit, Windows.TryWaitForExit,
        Windows.KillProcess, Windows.DetachProcess, Windows.exit_code;
      cases_of_call; done.
  - intros child w. cbn. unfold Windows.DetachProcess. cases_of_call; done.
Qed.
End WindowsLaws.

Section History.
Context {World : Type} `{SupervisorLaws World}.
Implicit Types (child : ChildProcess) (w : World).

Lemma history_app ops1 ops2 child w outcomes1 child1 w1 :
  history ops1 child w = (outcomes1, child1, w1) →
  history (ops1 ++ ops2) child w =
    let '(outcomes2, child2, w2) := history ops2 child1 w1 in
    (outcomes1 ++ outcomes2, child2, w2).
Proof.
  revert child w outcomes1. induction ops1 as [|op ops1 IH]; intros child w outcomes1; cbn.
  - intros [= <- <- <-]. by destruct (history ops2 child w) as [[]].
  - destruct (perform op child w) as [[o c] w'].
    destruct (history ops1 c w') as [[os c'] w''] eqn:E. intros [= <- <- <-].
    rewrite (IH _ _ _ E). by destruct (history ops2 c' w'') as [[]].
Qed.

(** A child that is not running: nothing is reported, and the host is left alone. *)
Lemma history_stopped ops child w :
  cp_running child = false → OpDetach ∉ ops →
  (history ops child w).2 = w ∧ (history ops child w).1.2 = child ∧
  Forall (λ outcome, reported outcome = None) (history ops child w).1.1.
Proof.
  intros Hr. induction ops as [|op ops IH]; cbn; intros Hd; [done|].
  apply not_elem_of_cons in Hd as [Hop Hd]. specialize (IH Hd).
  destruct (perform_stopped op child w Hr (not_eq_sym Hop)) as [He Hn].
  destruct (perform op child w) as [[o c] w']; cbn in *. injection He as -> ->.
  destruct (history ops child w) as [[os c'] w'']; cbn in *. naive_solver.
Qed.

(** With releases of the handle among them: still nothing is reported. *)
Lemma history_silent ops child w :
  cp_running child = false →
  Forall (λ outcome, reported outcome = None) (history ops child w).1.1.
Proof.
  revert child w. induction ops as [|op ops IH]; cbn; intros child w Hr; [by constructor|].
  assert (reported (perform op child w).1.1 = None) as Ho.
  { destruct (decide (op = OpDetach)) as [->|Hd]; [apply perform_detach_silent|].
    by apply perform_stopped. }
  pose proof (perform_keeps op child w Hr) as Hk.
  destruct (perform op child w) as [[o c] w']; cbn in *. specialize (IH c w' Hk).
  destruct (history ops c w') as [[os c'] w'']; cbn in *. by constructor.
Qed.

(** Only a running child is reported on, so a child that still runs was never. *)
Lemma reported_running op child w code :
  reported (perform op child w).1.1 = Some code → cp_running child = true.
Proof.
  intros Hc. apply not_false_iff_true. intros Hr.
  destruct (decide (op = OpDetach)) as [->|Hd].
  - by rewrite perform_detach_silent in Hc.
  - destruct (perform_stopped op child w Hr Hd) as [_ Hn]. congruence.
Qed.

Lemma history_unreported ops child w :
  cp_running (history ops child w).1.2 = true →
  Forall (λ outcome, reported outcome = None) (history ops child w).1.1.
Proof.
  revert child w. induction ops as [|op ops IH]; cbn; intros child w; [by constructor|].
  pose proof (perform_reports op child w) as Hrep.
  destruct (perform op child w) as [[o c] w']; cbn in *. specialize (IH c w').
  assert (cp_running c = false → cp_running (history ops c w').1.2 = false) as Hk.
  { clear -H0. revert c w'. induction ops as [|op ops IH]; cbn; intros c w Hr; [done|].
    pose proof (perform_keeps op c w Hr) as Hk.
    destruct (perform op c w) as [[o c'] w']; cbn in *. specialize (IH c' w' Hk).
    by destruct (history ops c' w') as [[]]. }
  destruct (history ops c w') as [[os c'] w'']; cbn in *. intros Hr.
  constructor; [|by apply IH]. destruct (reported o) as [code|]; [|done].
  rewrite Hk in Hr; [done|]. by apply (Hrep code).
Qed.

Lemma silent_codes outcomes :
  Forall (λ outcome, reported outcome = None) outcomes → omap reported outcomes = [].
Proof. induction 1 as [|outcome outcomes Ho _ IH]; [done|]. cbn. by rewrite Ho. Qed.

Lemma history_reports_once ops child w :
  (length (omap reported (history ops child w).1.1) ≤ 1)%nat.
Proof.
  revert child w. induction ops as [|op ops IH]; cbn; intros child w; [lia|].
  pose proof (perform_reports op child w) as Hrep.
  destruct (perform op child w) as [[o c] w']; cbn in *. specialize (IH c w').
  pose proof (history_silent ops c w') as Hs.
  destruct (history ops c w') as [[os c'] w'']; cbn in *.
  destruct (reported o) as [code|]; [|done]. by rewrite silent_codes by by eapply Hs, Hrep.
Qed.
End History.

(** The supervisors the sources have. *)
Inductive Platform {World : Type} : Supervisor World → Prop :=
  | OnPosix (host : PosixHost World) : Platform posix_supervisor
  | OnWindows (host : WindowsHost World) : Platform windows_supervisor.

Lemma platform_laws {World} (supervisor : Supervisor World) :
  Platform supervisor → @SupervisorLaws World supervisor.
Proof. intros []; [apply posix_laws|apply windows_laws]. Qed.

(** ** What the host sees

    A host that also notes the calls that name the process, oldest first. *)

Inductive SystemCall :=
  | Waitpid (pid result : Z)
  | Kill (pid : Z)
  | Waits (handle : Z)
  | Asks (handle : Z)
  | Terminates (handle : Z)
  | Closes (handle : Z).

Definition noted {World} (call : SystemCall) (w : World) (log : list SystemCall) : World * list SystemCall :=
  (w, log ++ [call]).

Definition posix_noted `(host : PosixHost World) : PosixHost (World * list SystemCall) := {|
  posix_spawn program argv '(w, log) :=
    let '(rc, pid, w) := posix_spawn program argv w in (rc, pid, (w, log));
  waitpid pid nohang '(w, log) :=
    let '(result, status, w) := waitpid pid nohang w in
    (result, status, noted (Waitpid pid result) w log);
  kill_SIGKILL pid '(w, log) :=
    let '(result, w) := kill_SIGKILL pid w in (result, noted (Kill pid) w log);
  WIFEXITED := WIFEXITED;
  WEXITSTATUS := WEXITSTATUS;
  WIFSIGNALED := WIFSIGNALED;
  WTERMSIG := WTERMSIG;
  getpid '(w, _) := getpid w;
|}.

Definition windows_noted `(host : WindowsHost World) : WindowsHost (World * list SystemCall) := {|
  CreateProcessA command cwd '(w, log) :=
    let '(created, w) := CreateProcessA command cwd w in (created, (w, log));
  WaitForSingleObject handle infinite '(w, log) :=
    let '(result, w) := WaitForSingleObject handle infinite w in
    (result, noted (Waits handle) w log);
  GetExitCodeProcess handle '(w, log) :=
    let '(code, w) := GetExitCodeProcess handle w in (code, noted (Asks handle) w log);
  TerminateProcess handle code '(w, log) :=
    let '(done, w) := TerminateProcess handle code w in (done, noted (Terminates handle) w log);
  CloseHandle handle '(w, log) := noted (Closes handle) (CloseHandle handle w) log;
  GetCurrentProcessId '(w, _) := GetCurrentProcessId w;
|}.

(** The call after which the system may give the process id, or the handle, to
    somebody else. *)
Definition gives_up (call : SystemCall) : bool :=
  match call with
  | Waitpid _ result => 0 <? result
  | Closes _ => true
  | _ => false
  end.

(** A log in which nothing follows such a call. *)
Definition nothing_after (log : list SystemCall) : Prop :=
  ∀ before call after, log = before ++ call :: after → gives_up call = true → after = [].

Lemma nothing_after_none log :
  Forall (λ call, gives_up call = false) log → nothing_after log.
Proof.
  intros Hlog before call after -> Hc. apply Forall_app in Hlog as [_ Hlog].
  inversion Hlog; congruence.
Qed.

Lemma nothing_after_last log call :
  Forall (λ call, gives_up call = false) log → nothing_after (log ++ [call]).
Proof.
  intros Hlog before c after He Hc.
  destruct after as [|x after _] using rev_ind; [done|exfalso].
  rewrite app_comm_cons, app_assoc in He. apply app_inj_tail in He as [-> _].
  apply Forall_app in Hlog as [_ Hlog]. inversion Hlog; congruence.
Qed.

(** The calls of a supervisor that is inert once it gave its child up. *)
Section Noted.
Context {World : Type} `{Supervisor (World * list SystemCall)} (inert : ChildProcess → Prop).

(** What one operation adds to the log: nothing given up, or the child inert. *)
Definition careful (child' : ChildProcess) (log log' : list SystemCall) : Prop :=
  ∃ calls, log' = log ++ calls ∧
    (Forall (λ call, gives_up call = false) calls ∨
     inert child' ∧ ∃ early last, calls = early ++ [last] ∧
       Forall (λ call, gives_up call = false) early).

Lemma careful_none child' log : careful child' log log.
Proof. exists []. split; [by rewrite app_nil_r|]. by left. Qed.

Lemma careful_one child' log call :
  gives_up call = false ∨ inert child' → careful child' log (log ++ [call]).
Proof.
  intros Hc. exists [call]. split; [done|]. destruct Hc as [Hc|Hi]; [by left; repeat constructor|].
  right. split; [done|]. exists [], call. done.
Qed.

Lemma careful_two child' log call1 call2 :
  gives_up call1 = false → gives_up call2 = false ∨ inert child' →
  careful child' log ((log ++ [call1]) ++ [call2]).
Proof.
  intros H1 Hc. exists [call1; call2]. split; [by rewrite <-app_assoc|].
  destruct Hc as [Hc|Hi]; [by left; repeat constructor|].
  right. split; [done|]. exists [call1], call2. split; [done|]. by repeat constructor.
Qed.

Context (perform_inert : ∀ op child w,
  inert child → inert (perform op child w).1.2 ∧ (perform op child w).2.2 = w.2).
Context (perform_careful : ∀ op child w,
  careful (perform op child w).1.2 w.2 (perform op child w).2.2).

Lemma history_inert ops child w :
  inert child → (history ops child w).2.2 = w.2.
Proof.
  revert child w. induction ops as [|op ops IH]; cbn; intros child w Hi; [done|].
  destruct (perform_inert op child w Hi) as [Hc Hl].
  destruct (perform op child w) as [[o c] w']; cbn in *. specialize (IH c w' Hc).
  by destruct (history ops c w') as [[os c'] w'']; cbn in *; rewrite IH.
Qed.

Lemma history_careful ops child w :
  Forall (λ call, gives_up call = false) w.2 →
  nothing_after (history ops child w).2.2.
Proof.
  revert child w. induction ops as [|op ops IH]; cbn; intros child w Hlog.
  - by apply nothing_after_none.
  - pose proof (perform_careful op child w) as (calls & Hl & Hcalls).
    destruct (perform op child w) as [[o c] w']; cbn in *.
    pose proof (IH c w') as Hc. pose proof (history_inert ops c w') as Hi.
    destruct (history ops c w') as [[os c'] w'']; cbn in *.
    destruct Hcalls as [Hcalls|(Hin & early & last & -> & He)].
    + apply Hc. rewrite Hl. by apply Forall_app.
    + rewrite (Hi Hin), Hl, app_assoc. apply nothing_after_last. by apply Forall_app.
Qed.
End Noted.

(** Closes the goals that [cases_of_call] leaves of an operation's calls. *)
Ltac careful_calls :=
  first
    [ apply careful_none
    | apply careful_one; first [by right | by left | left; cbn; lia]
    | apply careful_two; [done|first [by right | by left]] ].

Section PosixNoted.
Context {World : Type} (host : PosixHost World).
#[local] Existing Instance posix_noted.

Lemma posix_inert op child (w : World * list SystemCall) :
  cp_running child = false →
  cp_running (perform op child w).1.2 = false ∧ (perform op child w).2.2 = w.2.
Proof.
  intros Hr. destruct (decide (op = OpDetach)) as [->|Hd]; [done|].
  destruct (perform_stopped op child w Hr Hd) as [-> _]. done.
Qed.

Lemma posix_careful op child (w : World * list SystemCall) :
  careful (λ child, cp_running child = false) (perform op child w).1.2 w.2
    (perform op child w).2.2.
Proof.
  destruct w as [w log], op; cbn;
    unfold Posix.ProcessRunning, Posix.WaitForExit, Posix.TryWaitForExit, Posix.KillProcess, noted;
    cases_of_call; careful_calls.
Qed.
End PosixNoted.

Section WindowsNoted.
Context {World : Type} (host : WindowsHost World).
#[local] Existing Instance windows_noted.
#[local] Existing Instance windows_supervisor.

(** A child whose handle was released. *)
Definition released (child : ChildProcess) : Prop :=
  cp_running child = false ∧ cp_handle child = None.

Lemma windows_inert op child (w : World * list SystemCall) :
  released child →
  released (perform op child w).1.2 ∧ (perform op child w).2.2 = w.2.
Proof.
  intros [Hr Hh]. destruct (decide (op = OpDetach)) as [->|Hd].
  - cbn. unfold Windows.DetachProcess. rewrite Hh. done.
  - destruct (perform_stopped op child w Hr Hd) as [-> _]. done.
Qed.

Lemma windows_careful op child (w : World * list SystemCall) :
  careful released (perform op child w).1.2 w.2 (perform op child w).2.2.
Proof.
  destruct w as [w log], op; cbn;
    unfold Windows.ProcessRunning, Windows.WaitForExit, Windows.TryWaitForExit,
      Windows.KillProcess, Windows.DetachProcess, Windows.exit_code, noted;
    cases_of_call; careful_calls.
Qed.
End WindowsNoted.

(** * The life of a POSIX child

    What POSIX documents of [waitpid] and [kill] for a child as laws of the host
    ([PosixProcesses]), and the supervised child as an abstract machine: it is alive,
    it has ended and waits to be collected, or it is gone.  The operations of
    [process.cpp] refine the machine.  [ScriptHost] is a host that keeps the laws. *)

(** ** The host *)

(** A child of this process: alive, ended with a wait status, or no child of it (any more). *)
Inductive Life := Alive | Ended (status : Z) | Gone.

(** A status that says how a process ended, and the code the sources make of it. *)
Definition status_code_of `{PosixHost World} (status code : Z) : Prop :=
  Posix.exit_code status = Some code ∧ 0 ≤ code < 256.

(** The documented behaviour: a blocking [waitpid] of a child returns when it has ended
    and collects it, with [WNOHANG] it returns 0 as long as the child is alive; a child
    that has ended stays as it is until it is collected; [kill] of a child succeeds.
    No signal handler interrupts the calls.  A child may end at any time. *)
Class PosixProcesses (World : Type) `{PosixHost World} := {
  life : World → Z → Life;
  spawned program argv w pid w' :
    posix_spawn program argv w = (0, pid, w') → 0 < pid < 2 ^ 31 ∧ life w' pid ≠ Gone;
  waitpid_alive pid w :
    life w pid = Alive → ∃ status w', waitpid pid true w = (0, status, w') ∧ life w' pid ≠ Gone;
  waitpid_ended pid nohang w status :
    life w pid = Ended status →
    ∃ w', waitpid pid nohang w = (pid, status, w') ∧ life w' pid = Gone;
  waitpid_blocks pid w :
    life w pid = Alive →
    ∃ status w', waitpid pid false w = (pid, status, w') ∧ life w' pid = Gone ∧
      ∃ code, status_code_of status code;
  kill_child pid w :
    life w pid ≠ Gone → ∃ w', kill_SIGKILL pid w = (0, w') ∧ life w' pid ≠ Gone;
  ended_status w pid status :
    life w pid = Ended status → ∃ code, status_code_of status code;
}.

(** ** The machine *)

Section Machine.
Context {World : Type} `{PosixHost World}.

(** What an operation answers in each state, and what becomes of the child. *)
Inductive answers : Life → Operation → Outcome → Life → Prop :=
  | AliveRunning : answers Alive OpRunning (Running true) Alive
  | AliveTry : answers Alive OpTryWait (Tried (Value None)) Alive
  | EndedRunning status : answers (Ended status) OpRunning (Running false) Gone
  | EndedTry status code :
      status_code_of status code →
      answers (Ended status) OpTryWait (Tried (Value (Some code))) Gone
  | EndedWait status code :
      status_code_of status code → answers (Ended status) OpWait (Waited (Value code)) Gone
  | ChildKill state : state ≠ Gone → answers state OpKill (Killed Status_Ok) Gone
  | AnyDetach state : answers state OpDetach Detached Gone
  | GoneRunning : answers Gone OpRunning (Running false) Gone
  | GoneTry : answers Gone OpTryWait (Tried (Value None)) Gone
  | GoneWait :
      answers Gone OpWait (Waited (Error (invalid_argument "process is not running"))) Gone
  | GoneKill : answers Gone OpKill (Killed (invalid_argument "process is not running")) Gone.

(** A run: operations with their answers; the child may end before any of them. *)
Inductive lives : Life → list (Operation * Outcome) → Life → Prop :=
  | LivesNil state : lives state [] state
  | LivesEnds status code trace state :
      status_code_of status code → lives (Ended status) trace state → lives Alive trace state
  | LivesStep state op outcome state1 trace state2 :
      answers state op outcome state1 → lives state1 trace state2 →
      lives state ((op, outcome) :: trace) state2.

(** The codes a run reports are exit codes. *)
Lemma lives_codes state trace final code :
  lives state trace final → Some code ∈ reported <$> trace.*2 → 0 ≤ code < 256.
Proof.
  induction 1 as [|status c trace final Hc Hl IH|state op outcome state1 trace state2 Ha Hl IH];
    cbn; [by intros ?%elem_of_nil|done|].
  intros [Hc|Hc]%elem_of_cons; [|by apply IH].
  destruct Ha as [| | |status c [_ Hr]|status c [_ Hr]| | | | | |]; cbn in Hc; congruence.
Qed.

(** What [process.hpp] documents of each operation, for a child in a state in which its
    handle is still in use: [ProcessRunning] is true exactly while the process runs,
    [WaitForExit] returns an exit code, [TryWaitForExit] an empty optional while the
    process runs and its exit code when it has exited, no system call fails. *)
Inductive documented : Life → Operation → Outcome → Prop :=
  | DocRunning : documented Alive OpRunning (Running true)
  | DocNotRunning status : documented (Ended status) OpRunning (Running false)
  | DocStill : documented Alive OpTryWait (Tried (Value None))
  | DocExited status code :
      status_code_of status code → documented (Ended status) OpTryWait (Tried (Value (Some code)))
  | DocWaited state status code :
      state = Alive ∨ state = Ended status → status_code_of status code →
      documented state OpWait (Waited (Value code))
  | DocKilled state : state ≠ Gone → documented state OpKill (Killed Status_Ok)
  | DocDetached state : state ≠ Gone → documented state OpDetach Detached.
End Machine.

(** ** The refinement *)

Lemma as_int_small v : 0 < v < 2 ^ 31 → as_int v = v.
Proof. intros Hv. unfold as_int. rewrite Z.mod_small; lia. Qed.

Section Refinement.
Context {World : Type} `{PosixProcesses World}.
Implicit Types (child : ChildProcess) (w : World) (state : Life).

(** A handle on a child of the machine's state: a running one on a child that is not
    gone, which may be further than the machine knows. *)
Inductive represents (child : ChildProcess) (w : World) : Life → Prop :=
  | Watched state :
      cp_running child = true → 0 < cp_id child < 2 ^ 31 → life w (cp_id child) = state →
      state ≠ Gone → represents child w state
  | Unwatched : cp_running child = false → represents child w Gone.

(** A child that an operation left running is alive or has ended since. *)
Lemma represents_again child w :
  cp_running child = true → 0 < cp_id child < 2 ^ 31 → life w (cp_id child) ≠ Gone →
  ∃ state, represents child w state ∧
    ∀ trace final, lives state trace final → lives Alive trace final.
Proof.
  intros Hr Hid Hl. exists (life w (cp_id child)). split; [by apply Watched|].
  intros trace final Ht. destruct (life w (cp_id child)) as [|status|] eqn:E; [done| |done].
  destruct (ended_status _ _ _ E) as [code Hc]. by eapply LivesEnds.
Qed.

Lemma alive_refined op child w :
  cp_running child = true → 0 < cp_id child < 2 ^ 31 → life w (cp_id child) = Alive →
  ∀ outcome child' w', perform op child w = (outcome, child', w') →
  ∃ state', represents child' w' state' ∧
    ∀ trace final, lives state' trace final → lives Alive ((op, outcome) :: trace) final.
Proof.
  intros Hr Hid Hl outcome child' w'.
  assert ((0 <? cp_id child) = true) as Hpos by lia.
  destruct op; cbn.
  - unfold Posix.ProcessRunning. rewrite Hr, Z.leb_antisym, Hpos, as_int_small by done. cbn.
    destruct (waitpid_alive _ _ Hl) as (status & w1 & -> & Hl1). cbn. intros [= <- <- <-].
    destruct (represents_again child w1 Hr Hid Hl1) as (state' & Hrep & Hlives).
    exists state'. split; [done|]. intros. eapply LivesStep; [constructor|auto].
  - unfold Posix.WaitForExit. rewrite Hr, as_int_small by done. cbn.
    destruct (waitpid_blocks _ _ Hl) as (status & w1 & -> & Hl1 & code & Hc).
    rewrite (proj2 (Z.ltb_ge _ _)) by lia. destruct Hc as [Hc Hrange]. rewrite Hc.
    intros [= <- <- <-]. exists Gone. split; [by apply Unwatched|]. intros.
    eapply LivesEnds; [by split|]. eapply LivesStep; [by constructor|done].
  - unfold Posix.TryWaitForExit. rewrite Hr, as_int_small by done. cbn.
    destruct (waitpid_alive _ _ Hl) as (status & w1 & -> & Hl1). cbn. intros [= <- <- <-].
    destruct (represents_again child w1 Hr Hid Hl1) as (state' & Hrep & Hlives).
    exists state'. split; [done|]. intros. eapply LivesStep; [constructor|auto].
  - unfold Posix.KillProcess. rewrite Hr, as_int_small by done. cbn.
    destruct (kill_child (cp_id child) w) as (w1 & -> & Hl1); [by rewrite Hl|]. cbn.
    destruct (waitpid (cp_id child) false w1) as [[]]. intros [= <- <- <-].
    exists Gone. split; [by apply Unwatched|]. intros. eapply LivesStep; [by constructor|done].
  - intros [= <- <- <-]. exists Gone. split; [by apply Unwatched|].
    intros. eapply LivesStep; [by constructor|done].
Qed.

Lemma ended_refined op child w status :
  cp_running child = true → 0 < cp_id child < 2 ^ 31 → life w (cp_id child) = Ended status →
  ∀ outcome child' w', perform op child w = (outcome, child', w') →
  represents child' w' Gone ∧ answers (Ended status) op outcome Gone.
Proof.
  intros Hr Hid Hl outcome child' w'.
  assert ((cp_id child <=? 0) = false ∧ (cp_id child =? 0) = false ∧ (cp_id child <? 0) = false)
    as (Hle & Hz & Hlt) by lia.
  destruct (ended_status _ _ _ Hl) as [code [Hc Hrange]].
  destruct op; cbn.
  - unfold Posix.ProcessRunning. rewrite Hr, Hle, as_int_small by done. cbn.
    destruct (waitpid_ended _ true _ _ Hl) as (w1 & -> & Hl1). rewrite Hz.
    intros [= <- <- <-]. split; [by apply Unwatched|constructor].
  - unfold Posix.WaitForExit. rewrite Hr, as_int_small by done. cbn.
    destruct (waitpid_ended _ false _ _ Hl) as (w1 & -> & Hl1). rewrite Hlt, Hc.
    intros [= <- <- <-]. split; [by apply Unwatched|by constructor].
  - unfold Posix.TryWaitForExit. rewrite Hr, as_int_small by done. cbn.
    destruct (waitpid_ended _ true _ _ Hl) as (w1 & -> & Hl1). rewrite Hz, Hlt, Hc.
    intros [= <- <- <-]. split; [by apply Unwatched|by constructor].
  - unfold Posix.KillProcess. rewrite Hr, as_int_small by done. cbn.
    destruct (kill_child (cp_id child) w) as (w1 & -> & Hl1); [by rewrite Hl|]. cbn.
    destruct (waitpid (cp_id child) false w1) as [[]]. intros [= <- <- <-].
    split; [by apply Unwatched|by constructor].
  - intros [= <- <- <-]. split; [by apply Unwatched|constructor].
Qed.

Lemma gone_refined op child w outcome child' w' :
  cp_running child = false → perform op child w = (outcome, child', w') →
  cp_running child' = false ∧ answers Gone op outcome Gone.
Proof.
  intros Hr He. pose proof (perform_keeps op child w Hr) as Hk. rewrite He in Hk.
  split; [done|]. revert He. destruct op; cbn;
    unfold Posix.ProcessRunning, Posix.WaitForExit, Posix.TryWaitForExit, Posix.KillProcess;
    rewrite ?Hr; cbn; intros [= <- <- <-]; constructor.
Qed.

(** The answers of a handle that is in use are the documented ones. *)
Lemma watched_documented op child w state :
  cp_running child = true → represents child w state →
  life w (cp_id child) = state ∧ documented state op (perform op child w).1.1.
Proof.
  intros Hr [state' _ Hid Hl Hn|Hr']; [|congruence]. split; [done|].
  destruct (perform op child w) as [[outcome child'] w'] eqn:E. cbn [fst].
  destruct state' as [|status|]; [| |done].
  - revert E. destruct op; cbn.
    + unfold Posix.ProcessRunning. rewrite Hr, (proj2 (Z.leb_gt _ _)), as_int_small by lia. cbn.
      destruct (waitpid_alive _ _ Hl) as (status & w1 & -> & _). intros [= <- <- <-]. constructor.
    + unfold Posix.WaitForExit. rewrite Hr, as_int_small by done. cbn.
      destruct (waitpid_blocks _ _ Hl) as (status & w1 & -> & _ & code & Hc).
      rewrite (proj2 (Z.ltb_ge _ _)) by lia. pose proof Hc as [-> _]. intros [= <- <- <-].
      apply (DocWaited _ status); [by left|done].
    + unfold Posix.TryWaitForExit. rewrite Hr, as_int_small by done. cbn.
      destruct (waitpid_alive _ _ Hl) as (status & w1 & -> & _). intros [= <- <- <-]. constructor.
    + unfold Posix.KillProcess. rewrite Hr, as_int_small by done. cbn.
      destruct (kill_child (cp_id child) w) as (w1 & -> & _); [by rewrite Hl|]. cbn.
      destruct (waitpid (cp_id child) false w1) as [[]]. intros [= <- <- <-]. by constructor.
    + intros [= <- <- <-]. by constructor.
  - destruct (ended_refined op child w status Hr Hid Hl _ _ _ E) as [_ Ha].
    inversion Ha; subst; econstructor; eauto.
Qed.

Lemma history_refined ops child w state :
  represents child w state →
  ∃ final, lives state (zip ops (history ops child w).1.1) final ∧
    represents (history ops child w).1.2 (history ops child w).2 final.
Proof.
  revert child w state. induction ops as [|op ops IH]; intros child w state Hrep;
    [by eexists; split; [constructor|]|].
  destruct (perform op child w) as [[outcome child'] w'] eqn:E.
  destruct (history ops child' w') as [[outcomes c2] w2] eqn:E2.
  rewrite (history_cons op ops _ _ _ _ _ _ _ _ E E2). cbn [zip zip_with fst snd].
  assert (∀ state', represents child' w' state' →
    ∃ final, lives state' (zip ops outcomes) final ∧ represents c2 w2 final)
    as Hlater by (intros state' Hs; specialize (IH child' w' state' Hs); by rewrite E2 in IH).
  destruct Hrep as [state Hr Hid Hl Hn|Hr].
  - destruct state as [|status|]; [| |done].
    + destruct (alive_refined op child w Hr Hid Hl _ _ _ E) as (state' & Hs & Hlives).
      destruct (Hlater _ Hs) as (final & Hf & Hend). exists final. auto.
    + destruct (ended_refined op child w status Hr Hid Hl _ _ _ E) as [Hs Ha].
      destruct (Hlater _ Hs) as (final & Hf & Hend). exists final. split; [by eapply LivesStep|done].
  - destruct (gone_refined op child w _ _ _ Hr E) as [Hr' Ha].
    destruct (Hlater Gone) as (final & Hf & Hend); [by apply Unwatched|].
    exists final. split; [by eapply LivesStep|done].
Qed.

(** A child that was just started. *)
Lemma SpawnProcess_represents argv directory out child w w' :
  Posix.SpawnProcess argv directory out w = (Status_Ok, Some child, w') →
  cp_running child = true ∧ 0 < cp_id child < 2 ^ 31 ∧ life w' (cp_id child) ≠ Gone.
Proof.
  unfold Posix.SpawnProcess. destruct argv as [|program argv]; [done|].
  destruct out; [|done].
  destruct (posix_spawn _ _ w) as [[rc pid] w1] eqn:E.
  destruct (Z.eqb_spec rc 0) as [->|]; cbn; [|done].
  intros [= <- <-]. cbn. by destruct (spawned _ _ _ _ _ E).
Qed.
End Refinement.

(** ** A host that keeps the laws *)

(** One child, which is alive for a number of polls and then ends with a status in the
    encoding of Linux: the exit code in the second byte, or the signal in the first. *)
Record Script := mkScript {
  sh_alive : nat;
  sh_status : N;
  sh_collected : bool;
}.

Definition script_pid : Z := 4242.

(** The statuses the encoding has: an exit, or a signal other than 127. *)
Definition encoded (status : N) : bool :=
  ((status mod 128 =? 0) && (status <? 65536) || (status <? 127))%N.

Definition script_life (w : Script) (pid : Z) : Life :=
  if negb (pid =? script_pid) || sh_collected w || negb (encoded (sh_status w)) then Gone
  else match sh_alive w with O => Ended (Z.of_N (sh_status w)) | S _ => Alive end.

#[export] Instance script_host : PosixHost Script := {|
  posix_spawn program argv w :=
    if encoded (sh_status w) then
      (0, script_pid, mkScript (sh_alive w) (sh_status w) false)
    else (2, 0, w);
  waitpid pid nohang w :=
    match script_life w pid, nohang with
    | Gone, _ => (-1, 0, w)
    | Alive, true => (0, 0, mkScript (pred (sh_alive w)) (sh_status w) false)
    | _, _ => (pid, Z.of_N (sh_status w), mkScript 0 (sh_status w) true)
    end;
  kill_SIGKILL pid w :=
    match script_life w pid with
    | Gone => (-1, w)
    | Alive => (0, mkScript 0 9 false)
    | Ended _ => (0, w)
    end;
  WIFEXITED status := status mod 128 =? 0;
  WEXITSTATUS status := (status / 256) mod 256;
  WIFSIGNALED status := negb (status mod 128 =? 0) && negb (status mod 128 =? 127);
  WTERMSIG status := status mod 128;
  getpid _ := 4000;
|}.

Lemma encoded_code status :
  encoded status = true → ∃ code, status_code_of (Z.of_N status) code.
Proof.
  unfold encoded, status_code_of, Posix.exit_code. intros He. cbn -[Z.modulo Z.div].
  assert (Z.of_N status mod 128 = 0 ∨
          0 < Z.of_N status mod 128 < 127) as [Hs|Hs].
  { apply orb_true_iff in He as [He|He].
    - apply andb_true_iff in He as [He _]. apply N.eqb_eq in He. left.
      change 128 with (Z.of_N 128). by rewrite <-N2Z.inj_mod, He.
    - apply N.ltb_lt in He. rewrite Z.mod_small by lia. lia. }
  - rewrite Hs. cbn -[Z.modulo Z.div]. eexists. split; [done|].
    apply Z.mod_pos_bound. lia.
  - rewrite (proj2 (Z.eqb_neq _ _)), (proj2 (Z.eqb_neq _ 127)) by lia. cbn -[Z.modulo Z.div].
    eexists. split; [done|]. lia.
Qed.

(** The child exists where its life says so. *)
Lemma script_life_child w pid :
  script_life w pid ≠ Gone →
  pid = script_pid ∧ sh_collected w = false ∧ encoded (sh_status w) = true.
Proof.
  unfold script_life. destruct (Z.eqb_spec pid script_pid); cbn; [|done].
  destruct (sh_collected w); cbn; [done|]. destruct (encoded (sh_status w)); done.
Qed.

Lemma script_life_status w pid status :
  script_life w pid = Ended status → status = Z.of_N (sh_status w).
Proof.
  unfold script_life. destruct (_ || _); [done|]. by destruct (sh_alive w); intros [= <-].
Qed.

Lemma script_life_again alive status :
  encoded status = true → script_life (mkScript alive status false) script_pid ≠ Gone.
Proof. intros He. unfold script_life. cbn. rewrite He. by destruct alive. Qed.

#[export] Instance script_processes : PosixProcesses Script.
Proof.
  split with (life := script_life).
  - intros program argv w pid w'. cbn. destruct (encoded (sh_status w)) eqn:E; [|done].
    intros [= <- <-]. split; [done|]. by apply script_life_again.
  - intros pid w Hl. cbn. rewrite Hl. do 2 eexists. split; [done|].
    destruct (script_life_child w pid) as (-> & _ & He); [by rewrite Hl|].
    by apply script_life_again.
  - intros pid nohang w status Hl. cbn. rewrite Hl.
    apply script_life_status in Hl as ->.
    destruct nohang; eexists; (split; [done|]); unfold script_life; cbn; by rewrite orb_true_r.
  - intros pid w Hl. cbn. rewrite Hl. do 2 eexists. split_and!; [done| |].
    + unfold script_life. cbn. by rewrite orb_true_r.
    + apply encoded_code. apply (script_life_child w pid). by rewrite Hl.
  - intros pid w Hl. cbn. destruct (script_life_child w pid Hl) as (-> & Hc & He).
    destruct (script_life w script_pid) eqn:E; [| |done]; eexists; (split; [done|]).
    + by apply script_life_again.
    + by rewrite E.
  - intros w pid status Hl. destruct (script_life_child w pid) as (-> & _ & He); [by rewrite Hl|].
    apply script_life_status in Hl as ->.
    by apply encoded_code.
Qed.
