(* ===== verification/QuoteFacts.v ===== *)
(** * The command line of a Windows process

    The rules Microsoft documents for taking a command line apart, as the laws of a
    parser ([CommandLineParser]); what [QuoteArgument] writes is read back under them.
    [Documented.parser] is a parser that keeps the laws. *)

From Stdlib Require Import String Ascii.
From S2P Require Import Prelude StdAlgo Status Process.

Abbreviation backslash := "\"%char.
Abbreviation quote := "034"%char.

(** A blank separates arguments. *)
Definition blank (c : ascii) : bool := Ascii.eqb c " " || Ascii.eqb c "009".

(** The text [rest] does not start with a quote, or with a quote or a backslash. *)
Definition no_quote_next (rest : list ascii) : Prop := head rest ≠ Some quote.
Definition neither_next (rest : list ascii) : Prop :=
  no_quote_next rest ∧ head rest ≠ Some backslash.

(** An argument ends at a blank or at the end. *)
Definition ends_argument (rest : list ascii) : Prop :=
  match rest with [] => True | c :: _ => blank c = true end.

(** [command] takes a command line apart: the name of the program, and what is left of
    the line between two arguments.  [argument] is in an argument, inside quotes or not,
    of which it has read a text.  Backslashes are literal unless they precede a quote:
    then each pair is one backslash, and a single one left makes the quote literal. *)
Class CommandLineParser := {
  command : list ascii → list string;
  between : list ascii → list string;
  argument : bool → list ascii → list ascii → list string;
  command_plain name rest :
    name ≠ [] → Forall (λ c : ascii, blank c = false ∧ c ≠ quote) name → ends_argument rest →
    command (name ++ rest) = string_of_list_ascii name :: between rest;
  command_quoted name rest :
    (quote ∉ name) → ends_argument rest →
    command (quote :: name ++ quote :: rest) = string_of_list_ascii name :: between rest;
  between_nil : between [] = [];
  between_blank c rest : blank c = true → between (c :: rest) = between rest;
  between_argument c rest :
    blank c = false → between (c :: rest) = argument false [] (c :: rest);
  argument_end text : argument false text [] = [string_of_list_ascii text];
  argument_blank text c rest :
    blank c = true → argument false text (c :: rest) = string_of_list_ascii text :: between rest;
  argument_plain (quoted : bool) text c rest :
    c ≠ quote → c ≠ backslash → (if quoted then True else blank c = false) →
    argument quoted text (c :: rest) = argument quoted (text ++ [c]) rest;
  argument_backslashes quoted text n rest :
    neither_next rest →
    argument quoted text (replicate n backslash ++ rest) =
      argument quoted (text ++ replicate n backslash) rest;
  argument_open text n rest :
    argument false text (replicate (n * 2) backslash ++ quote :: rest) =
      argument true (text ++ replicate n backslash) rest;
  argument_close text n rest :
    no_quote_next rest →
    argument true text (replicate (n * 2) backslash ++ quote :: rest) =
      argument false (text ++ replicate n backslash) rest;
  argument_escaped quoted text n rest :
    argument quoted text (replicate (n * 2 + 1) backslash ++ quote :: rest) =
      argument quoted (text ++ replicate n backslash ++ [quote]) rest;
}.

(** ** Characters *)

Lemma list_ascii_app s1 s2 :
  list_ascii_of_string (s1 ++ s2) = list_ascii_of_string s1 ++ list_ascii_of_string s2.
Proof. induction s1 as [|c s1 IH]; [done|]. cbn [list_ascii_of_string app]. by rewrite <-IH. Qed.

Lemma ends_argument_next rest : ends_argument rest → neither_next rest.
Proof.
  destruct rest as [|c rest]; [done|]. cbn. intros Hb.
  split; intros [= ->]; done.
Qed.

Lemma needs_quotes_false c :
  Windows.needs_quotes c = false → blank c = false ∧ c ≠ quote.
Proof.
  unfold Windows.needs_quotes, blank. cbn. rewrite !orb_false_iff. intros (Hs & Ht & _ & _ & Hq & _).
  rewrite Hs, Ht. split; [done|]. intros ->. done.
Qed.

Lemma replicate_shift n (c : ascii) l : replicate n c ++ c :: l = replicate (S n) c ++ l.
Proof. by rewrite replicate_S_end, <-app_assoc. Qed.

(** The two forms of an argument. *)
Lemma plain_or_quoted s :
  (Windows.QuoteArgument s = s ∧ list_ascii_of_string s ≠ [] ∧
   Forall (λ c : ascii, blank c = false ∧ c ≠ quote) (list_ascii_of_string s)) ∨
  Windows.QuoteArgument s =
    string_of_list_ascii (quote :: Windows.quote_loop 0 (list_ascii_of_string s)).
Proof.
  unfold Windows.QuoteArgument. case_bool_decide as He; cbn [orb negb]; [by right|].
  destruct (existsb _ _) eqn:Ex; cbn [negb]; [by right|]. left. split_and!; [done..|].
  apply Forall_forall. intros c Hc. apply needs_quotes_false.
  destruct (Windows.needs_quotes c) eqn:E; [|done]. rewrite <-Ex. symmetry.
  apply existsb_exists_elem. eauto.
Qed.

(** ** Reading an argument back *)

Section Reading.
Context `{CommandLineParser}.

Lemma argument_opens rest : argument false [] (quote :: rest) = argument true [] rest.
Proof. exact (argument_open [] 0 rest). Qed.

Lemma argument_closes text rest :
  no_quote_next rest → argument true text (quote :: rest) = argument false text rest.
Proof.
  intros Hr. etransitivity; [exact (argument_close text 0 rest Hr)|]. by rewrite app_nil_r.
Qed.

Lemma argument_plain_text quoted text n plain rest :
  Forall (λ c : ascii, blank c = false ∧ c ≠ quote) plain → neither_next rest →
  argument quoted text (replicate n backslash ++ plain ++ rest) =
    argument quoted (text ++ replicate n backslash ++ plain) rest.
Proof.
  intros Hplain Hrest. revert n text.
  induction Hplain as [|c plain [Hb Hq] Hplain IH]; intros n text; cbn [app].
  - rewrite argument_backslashes by done. by rewrite app_nil_r.
  - destruct (decide (c = backslash)) as [->|Hc].
    + rewrite replicate_shift, IH. by rewrite replicate_shift.
    + rewrite argument_backslashes by (split; intros [= ->]; done).
      rewrite argument_plain by (try done; by destruct quoted).
      specialize (IH 0%nat). cbn [replicate app] in IH. rewrite IH. f_equal.
      by rewrite <-!app_assoc.
Qed.

Lemma quote_loop_read text n characters rest :
  no_quote_next rest →
  argument true text (Windows.quote_loop n characters ++ rest) =
    argument false (text ++ replicate n backslash ++ characters) rest.
Proof.
  intros Hrest. revert n text.
  induction characters as [|c characters IH]; intros n text; cbn [Windows.quote_loop].
  - rewrite <-app_assoc. cbn [app]. rewrite argument_close by done. by rewrite app_nil_r.
  - destruct (Ascii.eqb_spec c backslash) as [->|Hc].
    { rewrite IH. by rewrite replicate_shift. }
    destruct (Ascii.eqb_spec c quote) as [->|Hq]; rewrite <-app_assoc; cbn [app].
    + rewrite argument_escaped, IH. cbn [replicate app]. by rewrite <-!app_assoc.
    + rewrite argument_backslashes by (split; intros [= ->]; done).
      rewrite argument_plain, IH by done. cbn [replicate app]. by rewrite <-!app_assoc.
Qed.

(** An argument as [QuoteArgument] writes it. *)
Lemma QuoteArgument_read s rest :
  ends_argument rest →
  between (list_ascii_of_string (Windows.QuoteArgument s) ++ rest) =
    argument false (list_ascii_of_string s) rest.
Proof.
  intros Hrest. pose proof (ends_argument_next rest Hrest) as Hnext.
  destruct (plain_or_quoted s) as [[-> [Hne Hplain]]| ->].
  - destruct (list_ascii_of_string s) as [|c plain] eqn:Es; [done|].
    cbn [app]. rewrite between_argument by (by inversion Hplain as [|?? [? _]]).
    exact (argument_plain_text false [] 0 (c :: plain) rest Hplain Hnext).
  - rewrite list_ascii_of_string_of_list_ascii. cbn [app].
    by rewrite between_argument, argument_opens, quote_loop_read by (done || apply Hnext).
Qed.

Lemma arguments_read argv :
  argv ≠ [] → between (list_ascii_of_string (Windows.command_line argv)) = argv.
Proof.
  induction argv as [|s argv IH]; [done|]. intros _. cbn [Windows.command_line].
  destruct argv as [|s2 argv].
  - rewrite <-(app_nil_r (list_ascii_of_string _)), QuoteArgument_read by done.
    by rewrite argument_end, string_of_list_ascii_of_string.
  - rewrite list_ascii_app.
    set (more := Windows.command_line (s2 :: argv)) in *. cbn [list_ascii_of_string].
    rewrite QuoteArgument_read by done.
    rewrite argument_blank by done. by rewrite IH, string_of_list_ascii_of_string.
Qed.
End Reading.

(** ** The program name *)

(** A name that is written without a doubled backslash: quotes are not escaped in it. *)
Definition plain_program (name : string) : Prop :=
  (quote ∉ list_ascii_of_string name) ∧
  last (list_ascii_of_string name) ≠ Some backslash.

Lemma quote_loop_plain n characters :
  quote ∉ characters → last (replicate n backslash ++ characters) ≠ Some backslash →
  Windows.quote_loop n characters = replicate n backslash ++ characters ++ [quote].
Proof.
  revert n. induction characters as [|c characters IH]; intros n Hq Hl; cbn [Windows.quote_loop].
  - destruct n as [|n]; [done|]. exfalso. apply Hl.
    by rewrite app_nil_r, replicate_S_end, last_snoc.
  - apply not_elem_of_cons in Hq as [Hc Hq]. destruct (Ascii.eqb_spec c backslash) as [->|Hb].
    + rewrite IH; [by rewrite <-replicate_shift|done|]. by rewrite <-replicate_shift.
    + destruct (Ascii.eqb_spec c quote) as [->|_]; [done|].
      rewrite (IH 0%nat); [done|done|]. intros Hl2. apply Hl.
      rewrite last_app, last_cons. cbn in Hl2. by rewrite Hl2.
Qed.

Lemma program_read `{CommandLineParser} name rest :
  plain_program name → ends_argument rest →
  command (list_ascii_of_string (Windows.QuoteArgument name) ++ rest) = name :: between rest.
Proof.
  intros [Hq Hl] Hrest. rewrite <-(string_of_list_ascii_of_string name) at 2.
  destruct (plain_or_quoted name) as [[-> Hplain]| ->].
  - destruct Hplain as [Hne Hplain]. by apply command_plain.
  - rewrite list_ascii_of_string_of_list_ascii, (quote_loop_plain 0) by done.
    cbn [replicate app]. rewrite <-app_assoc. by apply command_quoted.
Qed.

Lemma command_line_read `{CommandLineParser} program argv :
  plain_program program →
  command (list_ascii_of_string (Windows.command_line (program :: argv))) = program :: argv.
Proof.
  intros Hp. destruct argv as [|s argv].
  - cbn [Windows.command_line]. rewrite <-(app_nil_r (list_ascii_of_string _)).
    by rewrite program_read, between_nil.
  - change (Windows.command_line (program :: s :: argv)) with
      (Windows.QuoteArgument program ++ String " " (Windows.command_line (s :: argv)))%string.
    rewrite list_ascii_app. cbn [list_ascii_of_string].
    by rewrite program_read, between_blank, arguments_read.
Qed.

(** ** No NUL is added *)

Lemma c_str_all s : Ascii.zero ∉ list_ascii_of_string s → c_str s = s.
Proof.
  induction s as [|c s IH]; [done|]. cbn. intros Hn. apply not_elem_of_cons in Hn as [Hc Hn].
  destruct (Ascii.eqb_spec c Ascii.zero) as [->|_]; [done|]. by rewrite IH.
Qed.

Lemma quote_loop_characters n characters c :
  c ∈ Windows.quote_loop n characters → c ∈ characters ∨ c = backslash ∨ c = quote.
Proof.
  revert n. induction characters as [|d characters IH]; intros n; cbn [Windows.quote_loop].
  - rewrite elem_of_app, list_elem_of_singleton. intros [Hc|Hc]; [|auto].
    apply elem_of_replicate in Hc as [-> _]. auto.
  - destruct (Ascii.eqb d backslash); [intros Hc; apply IH in Hc; set_solver|].
    destruct (Ascii.eqb d quote);
      rewrite elem_of_app, elem_of_cons; intros [Hc|[->|Hc]];
      try (apply elem_of_replicate in Hc as [-> _]); try (apply IH in Hc); set_solver.
Qed.

Lemma command_line_characters argv c :
  c ∈ list_ascii_of_string (Windows.command_line argv) →
  c = backslash ∨ c = quote ∨ c = " "%char ∨
  Exists (λ s, c ∈ list_ascii_of_string s) argv.
Proof.
  assert (∀ s, c ∈ list_ascii_of_string (Windows.QuoteArgument s) →
               c ∈ list_ascii_of_string s ∨ c = backslash ∨ c = quote) as Harg.
  { intros s. destruct (plain_or_quoted s) as [[-> _]| ->]; [auto|].
    rewrite list_ascii_of_string_of_list_ascii, elem_of_cons. intros [->|Hc]; [auto|].
    by apply quote_loop_characters in Hc. }
  induction argv as [|s argv IH]; [by intros ?%not_elem_of_nil|].
  cbn [Windows.command_line]. destruct argv as [|s2 argv].
  - intros Hc. rewrite Exists_cons. naive_solver.
  - rewrite list_ascii_app, elem_of_app. cbn [list_ascii_of_string]. rewrite elem_of_cons.
    rewrite Exists_cons. intros [Hc|[->|Hc]]; [naive_solver|auto|].
    apply IH in Hc. naive_solver.
Qed.

(** ** A parser that keeps the laws *)

Module Documented.

(** In an argument or not, inside quotes or not, with the backslashes counted since the
    text. *)
Fixpoint scan (started quoted : bool) (n : nat) (text rest : list ascii) : list string :=
  match rest with
  | [] => if started then [string_of_list_ascii (text ++ replicate n backslash)] else []
  | c :: rest =>
      if negb started && blank c then scan false false 0 [] rest
      else if Ascii.eqb c backslash then scan true quoted (S n) text rest
      else if Ascii.eqb c quote then
        let text := text ++ replicate (Nat.div2 n) backslash in
        if Nat.odd n then scan true quoted 0 (text ++ [quote]) rest
        else scan true (negb quoted) 0 text rest
      else if blank c && negb quoted then
        string_of_list_ascii (text ++ replicate n backslash) :: scan false false 0 [] rest
      else scan true quoted 0 (text ++ replicate n backslash ++ [c]) rest
  end.

Fixpoint program (quoted : bool) (text rest : list ascii) : list string :=
  match rest with
  | [] => [string_of_list_ascii text]
  | c :: rest =>
      if Ascii.eqb c quote then program (negb quoted) text rest
      else if blank c && negb quoted then
        string_of_list_ascii text :: scan false false 0 [] rest
      else program quoted (text ++ [c]) rest
  end.

Lemma scan_backslashes quoted n m text rest :
  scan true quoted m text (replicate n backslash ++ rest) = scan true quoted (n + m) text rest.
Proof.
  revert m. induction n as [|n IH]; intros m; [done|]. cbn. rewrite IH. f_equal. lia.
Qed.

Lemma scan_flush quoted n text rest :
  neither_next rest →
  scan true quoted n text rest = scan true quoted 0 (text ++ replicate n backslash) rest.
Proof.
  intros [Hq Hb]. destruct rest as [|c rest]; cbn; [by rewrite app_nil_r|].
  destruct (Ascii.eqb_spec c backslash) as [->|_]; [by destruct Hb|].
  destruct (Ascii.eqb_spec c quote) as [->|_]; [by destruct Hq|].
  destruct (blank c && negb quoted); [by rewrite app_nil_r|]. by rewrite <-app_assoc.
Qed.

Lemma program_plain name rest text :
  Forall (λ c : ascii, blank c = false ∧ c ≠ quote) name →
  program false text (name ++ rest) = program false (text ++ name) rest.
Proof.
  intros Hn. revert text. induction Hn as [|c name [Hb Hq] Hn IH]; intros text; cbn.
  - by rewrite app_nil_r.
  - destruct (Ascii.eqb_spec c quote); [done|]. rewrite Hb. cbn. by rewrite IH, <-app_assoc.
Qed.

Lemma program_quoted name rest text :
  (quote ∉ name) → program true text (name ++ rest) = program true (text ++ name) rest.
Proof.
  revert text. induction name as [|c name IH]; intros text Hn; cbn; [by rewrite app_nil_r|].
  apply not_elem_of_cons in Hn as [Hc Hn]. destruct (Ascii.eqb_spec c quote); [done|].
  rewrite andb_false_r. by rewrite IH, <-app_assoc.
Qed.

Lemma program_ends text rest :
  ends_argument rest →
  program false text rest = string_of_list_ascii text :: scan false false 0 [] rest.
Proof.
  destruct rest as [|c rest]; [done|]. cbn. intros Hb.
  destruct (Ascii.eqb_spec c quote) as [->|_]; [done|]. by rewrite Hb.
Qed.

Lemma div2_double n : Nat.div2 (n * 2) = n.
Proof. rewrite Nat.mul_comm. apply Nat.div2_double. Qed.

Lemma scan_quote quoted n text rest :
  scan true quoted n text (quote :: rest) =
    if Nat.odd n then scan true quoted 0 (text ++ replicate (Nat.div2 n) backslash ++ [quote]) rest
    else scan true (negb quoted) 0 (text ++ replicate (Nat.div2 n) backslash) rest.
Proof. cbn. by rewrite <-app_assoc. Qed.

#[export] Instance parser : CommandLineParser.
Proof.
  split with (command := program false []) (between := scan false false 0 [])
    (argument := λ quoted, scan true quoted 0).
  - intros name rest _ Hn Hr. by rewrite program_plain, program_ends.
  - intros name rest Hn Hr. cbn. rewrite program_quoted by done. cbn. by apply program_ends.
  - done.
  - intros c rest Hb. cbn. by rewrite Hb.
  - intros c rest Hb. cbn. by rewrite Hb.
  - intros text. cbn. by rewrite app_nil_r.
  - intros text c rest Hb. cbn.
    destruct (Ascii.eqb_spec c backslash) as [->|_]; [done|].
    destruct (Ascii.eqb_spec c quote) as [->|_]; [done|]. by rewrite Hb, app_nil_r.
  - intros quoted text c rest Hq Hb Hplain. cbn.
    destruct (Ascii.eqb_spec c backslash); [done|]. destruct (Ascii.eqb_spec c quote); [done|].
    destruct quoted; [by rewrite andb_false_r|by rewrite Hplain].
  - intros quoted text n rest Hr. rewrite scan_backslashes, Nat.add_0_r. by apply scan_flush.
  - intros text n rest. rewrite scan_backslashes, Nat.add_0_r, scan_quote, div2_double.
    by rewrite <-Nat.negb_even, Nat.even_mul, orb_true_r.
  - intros text n rest _. rewrite scan_backslashes, Nat.add_0_r, scan_quote, div2_double.
    by rewrite <-Nat.negb_even, Nat.even_mul, orb_true_r.
  - intros quoted text n rest. rewrite scan_backslashes, Nat.add_0_r, scan_quote.
    rewrite Nat.add_1_r, Nat.odd_succ, Nat.even_mul, orb_true_r.
    by rewrite (Nat.mul_comm n), Nat.div2_succ_double.
Defined.
End Documented.
