(* ===== verification/Sockets.v ===== *)
(** * Sockets

    The part of [transport.hpp] and [transport.cpp] that opens, hands on and closes
    sockets: the socket subsystem, [TcpConnection] with its descriptor, and
    [TcpListener].  The calls of the system are the fields of [SocketHost]; they take
    and give the state of the host.  What goes through an open connection is
    [Transport], on the view [framed]. *)

From Stdlib Require Import String.
From S2P Require Import Prelude StdAlgo Checked Status Bytes Hash Wire Transport Process.

Local Open Scope Z_scope.

Inductive SocketOption := TCP_NODELAY | SO_REUSEADDR.

(** A call gives its result, where it has one the sources look at: a descriptor, or a
    number that is 0 on success; [inet_pton] the address when its result is 1,
    [getsockname] the port when its result is 0.  [startup] is [WSAStartup], and 0
    without a call on POSIX, where [cleanup], [WSACleanup], is nothing; [strerror] is the text of the error the host has noted. *)
Class SocketHost (World : Type) := {
  startup : World → Z * World;
  cleanup : World → World;
  socket : World → Z * World;
  setsockopt : Z → SocketOption → Z → World → Z * World;
  inet_pton : string → option N;
  connect : Z → N → N → World → Z * World;
  bind : Z → N → N → World → Z * World;
  listen : Z → Z → World → Z * World;
  getsockname : Z → World → option N * World;
  select : Z → Z → Z → World → Z * World;
  accept : Z → World → Z * World;
  shutdown : Z → World → World;
  close : Z → World → World;
  strerror : World → string;
}.

(** The host, and the two [std::once_flag]s: the result of the initialization, when it
    was made, and whether the subsystem was shut down. *)
Record System (World : Type) := mkSystem {
  sy_host : World;
  g_socket_init_result : option Z;
  shutdown_once : bool;
}.
Arguments mkSystem {World}.
Arguments sy_host {World}.
Arguments g_socket_init_result {World}.
Arguments shutdown_once {World}.

(** ** Calls *)

Definition Calls (World A : Type) : Type := System World → A * System World.

#[export] Instance calls_ret {World} : MRet (Calls World) := λ A a s, (a, s).
#[export] Instance calls_bind {World} : MBind (Calls World) := λ A B k m s,
  let '(a, s) := m s in k a s.

(** A call of the host. *)
Definition calls {World A} (call : World → A * World) : Calls World A := λ s,
  let '(a, w) := call (sy_host s) in
  (a, mkSystem w (g_socket_init_result s) (shutdown_once s)).
Definition calls_ {World} (call : World → World) : Calls World unit :=
  calls (λ w, (tt, call w)).

Section Sockets.
Context {World : Type} `{SocketHost World}.

(** ** The subsystem *)

Definition InitializeSocketsOnce : Calls World Z := λ s,
  match g_socket_init_result s with
  | Some result => (result, s)
  | None =>
      let '(result, w) := startup (sy_host s) in
      (result, mkSystem w (Some result) (shutdown_once s))
  end.

Definition socket_error (message : string) : Status := mkStatus StatusCode.kSocketError message.

Definition InitializeSockets : Calls World Status :=
  result ← InitializeSocketsOnce;
  mret (if result =? 0 then Status_Ok
        else socket_error "socket subsystem initialization failed").

Definition ShutdownSockets : Calls World Status := λ s,
  if shutdown_once s then (Status_Ok, s)
  else (Status_Ok, mkSystem (cleanup (sy_host s)) (g_socket_init_result s) true).

(** [LastSocketError], of the error noted last. *)
Definition last_error (what : string) : Calls World Status :=
  calls (λ w, (LastSocketError (strerror w) what, w)).

(** [CloseSocket], for the value the source returns next. *)
Definition closing {A} (descriptor : Z) (a : A) : Calls World A :=
  _ ← calls_ (close descriptor);
  mret a.

(** The failing of a call on a new socket: the error is noted before the socket is closed. *)
Definition failed {A} (descriptor : Z) (what : string) : Calls World (Result A) :=
  status ← last_error what;
  closing descriptor (Error status).

(** ** [TcpConnection] *)

Record Connection := mkConn {
  cn_socket : Z;
  cn_stream : FrameStream;
  cn_max_frame_bytes : N;
}.

Definition Connection_init : Connection :=
  mkConn (-1) (FrameStream_init kDefaultMaxFrameBytes) kDefaultMaxFrameBytes.

Definition Connection_valid (c : Connection) : bool := 0 <=? cn_socket c.

(** What [SendFrame] and [ReceiveFrame] see of a connection. *)
Definition framed (c : Connection) : TcpConnection :=
  mkConnection (Connection_valid c) (cn_stream c) (cn_max_frame_bytes c).

Definition Connection_closed (c : Connection) : Connection :=
  mkConn (-1) (cn_stream c) (cn_max_frame_bytes c).

Definition Connection_Close (c : Connection) : Calls World (Status * Connection) :=
  if cn_socket c <? 0 then mret (Status_Ok, c)
  else
    _ ← calls_ (shutdown (cn_socket c));
    _ ← calls_ (close (cn_socket c));
    mret (Status_Ok, Connection_closed c).

(** The move constructor: the new connection and what is left of the other. *)
Definition Connection_move (other : Connection) : Connection * Connection :=
  (mkConn (cn_socket other) (FrameStream_init (cn_max_frame_bytes other))
     (cn_max_frame_bytes other),
   Connection_closed other).

(** The move assignment between different objects: the stream keeps what it holds. *)
Definition Connection_assign (c other : Connection) : Calls World (Connection * Connection) :=
  '(_, c) ← Connection_Close c;
  mret
    (mkConn (cn_socket other) (SetMaxFrameBytes (cn_max_frame_bytes other) (cn_stream c))
       (cn_max_frame_bytes other),
     Connection_closed other).

(** A new connection on a descriptor, at the end of [Connect] and of [Accept]. *)
Definition connection_on (descriptor : Z) (max_frame_bytes : N) : Connection :=
  mkConn descriptor (SetMaxFrameBytes max_frame_bytes (cn_stream Connection_init))
    max_frame_bytes.

Definition Connect (host : string) (port max_frame_bytes : N) : Calls World (Result Connection) :=
  result ← InitializeSocketsOnce;
  if negb (result =? 0) then mret (Error (socket_error "socket subsystem is not available"))
  else
    descriptor ← calls socket;
    if descriptor =? -1 then (status ← last_error "socket"; mret (Error status))
    else
      match inet_pton (c_str host) with
      | None =>
          closing descriptor (Error (invalid_argument "connect host must be an IPv4 address"))
      | Some address =>
          connected ← calls (connect descriptor address port);
          if negb (connected =? 0) then failed descriptor "connect"
          else
            _ ← calls (setsockopt descriptor TCP_NODELAY 1);
            mret (Value (connection_on descriptor max_frame_bytes))
      end.

Definition SetNoDelay (enable : bool) (c : Connection) : Calls World Status :=
  if cn_socket c <? 0 then mret (connection_closed "connection is closed")
  else
    result ← calls (setsockopt (cn_socket c) TCP_NODELAY (if enable then 1 else 0));
    if negb (result =? 0) then last_error "setsockopt(TCP_NODELAY)" else mret Status_Ok.

(** ** [TcpListener] *)

Record Listener := mkListener {
  ls_socket : Z;
  ls_port : N;
}.

Definition Listener_init : Listener := mkListener (-1) 0.
Definition Listener_valid (l : Listener) : bool := 0 <=? ls_socket l.

Definition Listener_Close (l : Listener) : Calls World (Status * Listener) :=
  if ls_socket l <? 0 then mret (Status_Ok, l)
  else
    _ ← calls_ (close (ls_socket l));
    mret (Status_Ok, mkListener (-1) (ls_port l)).

Definition Listener_move (other : Listener) : Listener * Listener :=
  (mkListener (ls_socket other) (ls_port other), mkListener (-1) 0).

Definition Listener_assign (l other : Listener) : Calls World (Listener * Listener) :=
  _ ← Listener_Close l;
  mret (mkListener (ls_socket other) (ls_port other), mkListener (-1) 0).

(** [Bind] with an address that was taken apart, from the call of [bind] on. *)
Definition bind_and_listen (descriptor : Z) (address port : N) : Calls World (Result Listener) :=
  bound ← calls (bind descriptor address port);
  if negb (bound =? 0) then failed descriptor "bind"
  else
    listening ← calls (listen descriptor 16);
    if negb (listening =? 0) then failed descriptor "listen"
    else
      name ← calls (getsockname descriptor);
      match name with
      | None => failed descriptor "getsockname"
      | Some port => mret (Value (mkListener descriptor port))
      end.

Definition Bind (address : string) (port : N) : Calls World (Result Listener) :=
  result ← InitializeSocketsOnce;
  if negb (result =? 0) then mret (Error (socket_error "socket subsystem is not available"))
  else
    descriptor ← calls socket;
    if descriptor =? -1 then (status ← last_error "socket"; mret (Error status))
    else
      _ ← calls (setsockopt descriptor SO_REUSEADDR 1);
      match inet_pton (c_str address) with
      | None =>
          closing descriptor (Error (invalid_argument "listen address must be an IPv4 address"))
      | Some local => bind_and_listen descriptor local port
      end.

Definition not_listening : Status := mkStatus StatusCode.kNotRunning "listener is closed".

(** [ready] is the caller's flag, [None] for a null pointer; [long] is [std::int64_t]. *)
Definition WaitReadable (timeout_millis : Z) (ready : option bool) (l : Listener)
    : Calls World (Status * option bool) :=
  match ready with
  | None => mret (invalid_argument "output flag is null", None)
  | Some _ =>
      if ls_socket l <? 0 then mret (not_listening, Some false)
      else
        result ← calls (select (ls_socket l) (Z.quot timeout_millis 1000)
                          (Z.rem timeout_millis 1000 * 1000));
        if result <? 0 then (status ← last_error "select"; mret (status, Some false))
        else mret (Status_Ok, Some (0 <? result))
  end.

Definition Accept (l : Listener) : Calls World (Result Connection) :=
  if ls_socket l <? 0 then mret (Error not_listening)
  else
    accepted ← calls (accept (ls_socket l));
    if accepted =? -1 then (status ← last_error "accept"; mret (Error status))
    else
      _ ← calls (setsockopt accepted TCP_NODELAY 1);
      mret (Value (connection_on accepted kDefaultMaxFrameBytes)).
End Sockets.
