(* ===== verification/SocketFacts.v ===== *)
(** * Who owns a descriptor

    The connections and listeners of a process as objects, what can be done to them as
    actions, and the invariant that the open descriptors are those of the objects,
    each of one object, beside the ones that were open before.  [TableHost] is a host
    that keeps the laws. *)

From Stdlib Require Import String.
From S2P Require Import Prelude StdAlgo Checked Status Bytes Hash Wire Transport Process Sockets.

Local Open Scope Z_scope.

(** ** The host's descriptors *)

(** What POSIX documents of descriptors: a call that makes one gives one that was not
    open, or -1; [close] takes an open one away, and nothing is known of it otherwise; the
    other calls leave them as they are. *)
Class SocketLaws (World : Type) `{SocketHost World} := {
  descriptors : World → gset Z;
  socket_fresh w :
    (socket w).1 = -1 ∧ descriptors (socket w).2 = descriptors w ∨
    0 ≤ (socket w).1 ∧ ((socket w).1 ∉ descriptors w) ∧
    descriptors (socket w).2 = {[(socket w).1]} ∪ descriptors w;
  accept_fresh s w :
    (accept s w).1 = -1 ∧ descriptors (accept s w).2 = descriptors w ∨
    0 ≤ (accept s w).1 ∧ ((accept s w).1 ∉ descriptors w) ∧
    descriptors (accept s w).2 = {[(accept s w).1]} ∪ descriptors w;
  close_takes s w : s ∈ descriptors w → descriptors (close s w) = descriptors w ∖ {[s]};
  shutdown_keeps s w : descriptors (shutdown s w) = descriptors w;
  startup_keeps w : descriptors (startup w).2 = descriptors w;
  setsockopt_keeps s o v w : descriptors (setsockopt s o v w).2 = descriptors w;
  connect_keeps s a p w : descriptors (connect s a p w).2 = descriptors w;
  bind_keeps s a p w : descriptors (bind s a p w).2 = descriptors w;
  listen_keeps s n w : descriptors (listen s n w).2 = descriptors w;
  getsockname_keeps s w : descriptors (getsockname s w).2 = descriptors w;
  select_keeps s a b w : descriptors (select s a b w).2 = descriptors w;
}.

(** ** Objects and actions *)

Inductive Object := ConnectionObject (c : Connection) | ListenerObject (l : Listener).

Definition descriptor_of (o : Object) : Z :=
  match o with ConnectionObject c => cn_socket c | ListenerObject l => ls_socket l end.

(** An object that was destroyed stays in its place, closed. *)
Inductive Action :=
  | Connects (host : string) (port max_frame_bytes : N)
  | Binds (address : string) (port : N)
  | Accepts (i : nat)
  | Waits (i : nat) (timeout_millis : Z)
  | SetsNoDelay (i : nat) (enable : bool)
  | Closes (i : nat)
  | Destroys (i : nat)
  | MovesTo (i : nat)
  | Assigns (i j : nat).

Section Actions.
Context {World : Type} `{SocketHost World}.

(** [~TcpConnection] and [~TcpListener]. *)
Definition destroy (o : Object) : Calls World Object :=
  match o with
  | ConnectionObject c => '(_, c) ← Connection_Close c; mret (ConnectionObject c)
  | ListenerObject l => '(_, l) ← Listener_Close l; mret (ListenerObject l)
  end.

(** A result with its object, if it has one, put behind the objects. *)
Definition created {A} (make : A → Object) (objects : list Object) (result : Result A)
    : list Object :=
  match result with Value a => objects ++ [make a] | Error _ => objects end.

(** An action on the objects; one that its objects do not have does nothing. *)
Definition act (action : Action) (objects : list Object) : Calls World (list Object) :=
  match action with
  | Connects host port max_frame_bytes =>
      result ← Connect host port max_frame_bytes;
      mret (created ConnectionObject objects result)
  | Binds address port =>
      result ← Bind address port; mret (created ListenerObject objects result)
  | Accepts i =>
      match objects !! i with
      | Some (ListenerObject l) =>
          result ← Accept l; mret (created ConnectionObject objects result)
      | _ => mret objects
      end
  | Waits i timeout_millis =>
      match objects !! i with
      | Some (ListenerObject l) => _ ← WaitReadable timeout_millis (Some false) l; mret objects
      | _ => mret objects
      end
  | SetsNoDelay i enable =>
      match objects !! i with
      | Some (ConnectionObject c) => _ ← SetNoDelay enable c; mret objects
      | _ => mret objects
      end
  | Closes i | Destroys i =>
      match objects !! i with
      | Some o => o ← destroy o; mret (<[i := o]> objects)
      | None => mret objects
      end
  | MovesTo i =>
      match objects !! i with
      | Some (ConnectionObject other) =>
          let '(c, other) := Connection_move other in
          mret (<[i := ConnectionObject other]> objects ++ [ConnectionObject c])
      | Some (ListenerObject other) =>
          let '(l, other) := Listener_move other in
          mret (<[i := ListenerObject other]> objects ++ [ListenerObject l])
      | None => mret objects
      end
  | Assigns i j =>
      if Nat.eqb i j then mret objects
      else
        match objects !! i, objects !! j with
        | Some (ConnectionObject c), Some (ConnectionObject other) =>
            '(c, other) ← Connection_assign c other;
            mret (<[i := ConnectionObject c]> (<[j := ConnectionObject other]> objects))
        | Some (ListenerObject l), Some (ListenerObject other) =>
            '(l, other) ← Listener_assign l other;
            mret (<[i := ListenerObject l]> (<[j := ListenerObject other]> objects))
        | _, _ => mret objects
        end
  end.

Fixpoint acts (actions : list Action) (objects : list Object) : Calls World (list Object) :=
  match actions with
  | [] => mret objects
  | action :: actions => objects ← act action objects; acts actions objects
  end.
End Actions.

(** The descriptors the objects hold. *)
Definition owned (objects : list Object) : list Z :=
  filter (λ s, 0 ≤ s) (map descriptor_of objects).

(** ** Effects of calls on the descriptors *)

Section Effects.
Context {World : Type} `{SocketLaws World}.

Definition open (s : System World) : gset Z := descriptors (sy_host s).

(** From a system with the descriptors [D], the call ends in a result and descriptors
    that satisfy [Q]. *)
Definition triple {A} (D : gset Z) (m : Calls World A) (Q : A → gset Z → Prop) : Prop :=
  ∀ s, open s = D → Q (m s).1 (open (m s).2).

Lemma triple_ret {A} D (a : A) (Q : A → gset Z → Prop) : Q a D → triple D (mret a) Q.
Proof. intros HQ s <-. exact HQ. Qed.

Lemma triple_bind {A B} D (m : Calls World A) (k : A → Calls World B) R Q :
  triple D m R → (∀ a D', R a D' → triple D' (k a) Q) → triple D (m ≫= k) Q.
Proof.
  intros Hm Hk s Hs. specialize (Hm s Hs). unfold mbind, calls_bind.
  destruct (m s) as [a s']. exact (Hk _ _ Hm s' eq_refl).
Qed.

Lemma triple_weaken {A} D (m : Calls World A) (R Q : A → gset Z → Prop) :
  triple D m R → (∀ a D', R a D' → Q a D') → triple D m Q.
Proof. intros Hm HQ s Hs. apply HQ. by apply Hm. Qed.

Lemma triple_calls {A} D (call : World → A * World) (Q : A → gset Z → Prop) :
  (∀ w, descriptors w = D → Q (call w).1 (descriptors (call w).2)) → triple D (calls call) Q.
Proof.
  intros Hc s Hs. specialize (Hc _ Hs). unfold calls, open.
  by destruct (call (sy_host s)) as [a w].
Qed.

(** A call that leaves the descriptors as they are. *)
Lemma triple_keeps {A B} D (call : World → A * World) (k : A → Calls World B) Q :
  (∀ w, descriptors (call w).2 = descriptors w) → (∀ a, triple D (k a) Q) →
  triple D (calls call ≫= k) Q.
Proof.
  intros Hc Hk. eapply (triple_bind _ _ _ (λ _ D', D' = D)).
  - apply triple_calls. intros w <-. apply Hc.
  - by intros a _ ->.
Qed.

Lemma triple_initialize {B} D (k : Z → Calls World B) Q :
  (∀ result, triple D (k result) Q) → triple D (InitializeSocketsOnce ≫= k) Q.
Proof.
  intros Hk. eapply (triple_bind _ _ _ (λ _ D', D' = D)); [|by intros a _ ->].
  intros s Hs. unfold InitializeSocketsOnce. destruct (g_socket_init_result s); [done|].
  pose proof (startup_keeps (sy_host s)) as Hw. unfold open in *.
  destruct (startup (sy_host s)) as [result w]. cbn in *. congruence.
Qed.

(** A new object and its descriptor, or no object and the descriptors as they were. *)
Definition opened {A} (descriptor : A → Z) (D : gset Z) (result : Result A) (D' : gset Z) : Prop :=
  match result with
  | Value a => 0 ≤ descriptor a ∧ (descriptor a ∉ D) ∧ D' = {[descriptor a]} ∪ D
  | Error _ => D' = D
  end.

Lemma minus_added (D : gset Z) d : (d ∉ D) → ({[d]} ∪ D) ∖ {[d]} = D.
Proof. intros Hd. apply set_eq. intros x. rewrite !elem_of_difference, elem_of_union,
  elem_of_singleton. split; [naive_solver|]. intros Hx. split; [auto|]. congruence. Qed.

Lemma closing_closes {A} (descriptor : A → Z) D d (status : Status) :
  (d ∉ D) → triple ({[d]} ∪ D) (closing d (Error (T := A) status)) (opened descriptor D).
Proof.
  intros Hd. unfold closing, calls_. eapply (triple_bind _ _ _ (λ _ D', D' = D)).
  - apply triple_calls. intros w Hw. cbn. rewrite close_takes, Hw; [by apply minus_added|].
    rewrite Hw. apply elem_of_union_l, elem_of_singleton. done.
  - intros a _ ->. by apply triple_ret.
Qed.

Lemma failed_closes {A} (descriptor : A → Z) D d what :
  (d ∉ D) → triple ({[d]} ∪ D) (failed d what) (opened descriptor D).
Proof.
  intros Hd. unfold failed, last_error. apply triple_keeps; [done|]. intros status.
  by apply closing_closes.
Qed.

Lemma last_error_keeps {A} (descriptor : A → Z) D what :
  triple D (status ← last_error what; mret (Error status)) (opened descriptor D).
Proof. unfold last_error. apply triple_keeps; [done|]. intros status. by apply triple_ret. Qed.

(** The call that makes a descriptor. *)
Lemma triple_fresh {B} D (call : World → Z * World) (k : Z → Calls World B) Q :
  (∀ w, (call w).1 = -1 ∧ descriptors (call w).2 = descriptors w ∨
        0 ≤ (call w).1 ∧ ((call w).1 ∉ descriptors w) ∧
        descriptors (call w).2 = {[(call w).1]} ∪ descriptors w) →
  triple D (k (-1)) Q →
  (∀ d, 0 ≤ d → (d ∉ D) → triple ({[d]} ∪ D) (k d) Q) →
  triple D (calls call ≫= k) Q.
Proof.
  intros Hc Hnone Hk.
  eapply (triple_bind _ _ _ (λ d D', d = -1 ∧ D' = D ∨ 0 ≤ d ∧ (d ∉ D) ∧ D' = {[d]} ∪ D)).
  - apply triple_calls. intros w <-. apply Hc.
  - intros d D' [[-> ->]|(Hd & Hn & ->)]; [done|]. by apply Hk.
Qed.

(** ** The operations *)

Lemma fresh_not_missing d : 0 ≤ d → (d =? -1) = false.
Proof. lia. Qed.

Lemma connection_on_opened D d max_frame_bytes :
  0 ≤ d → (d ∉ D) →
  opened cn_socket D (Value (connection_on d max_frame_bytes)) ({[d]} ∪ D).
Proof. done. Qed.

Lemma Connect_opened host port max_frame_bytes D :
  triple D (Connect host port max_frame_bytes) (opened cn_socket D).
Proof.
  unfold Connect. apply triple_initialize. intros result.
  destruct (negb _); [by apply triple_ret|].
  apply triple_fresh; [apply socket_fresh|apply last_error_keeps|]. intros d Hd Hn.
  rewrite fresh_not_missing by done.
  destruct (inet_pton (c_str host)) as [address|]; [|by apply closing_closes].
  apply triple_keeps; [intros w; apply connect_keeps|]. intros connected.
  destruct (negb _); [by apply failed_closes|].
  apply triple_keeps; [intros w; apply setsockopt_keeps|]. intros _.
  by apply triple_ret, connection_on_opened.
Qed.

Lemma bind_and_listen_opened D d address port :
  0 ≤ d → (d ∉ D) → triple ({[d]} ∪ D) (bind_and_listen d address port) (opened ls_socket D).
Proof.
  intros Hd Hn. unfold bind_and_listen.
  apply triple_keeps; [intros w; apply bind_keeps|]. intros bound.
  destruct (negb _); [by apply failed_closes|].
  apply triple_keeps; [intros w; apply listen_keeps|]. intros listening.
  destruct (negb _); [by apply failed_closes|].
  apply triple_keeps; [intros w; apply getsockname_keeps|]. intros [p|]; [|by apply failed_closes].
  by apply triple_ret.
Qed.

Lemma Bind_opened address port D : triple D (Bind address port) (opened ls_socket D).
Proof.
  unfold Bind. apply triple_initialize. intros result.
  destruct (negb _); [by apply triple_ret|].
  apply triple_fresh; [apply socket_fresh|apply last_error_keeps|]. intros d Hd Hn.
  rewrite fresh_not_missing by done.
  apply triple_keeps; [intros w; apply setsockopt_keeps|]. intros _.
  destruct (inet_pton (c_str address)) as [local|]; [|by apply closing_closes].
  by apply bind_and_listen_opened.
Qed.

Lemma Accept_opened l D : triple D (Accept l) (opened cn_socket D).
Proof.
  unfold Accept. destruct (ls_socket l <? 0); [by apply triple_ret|].
  apply triple_fresh; [intros w; apply accept_fresh|apply last_error_keeps|]. intros d Hd Hn.
  rewrite fresh_not_missing by done.
  apply triple_keeps; [intros w; apply setsockopt_keeps|]. intros _.
  by apply triple_ret, connection_on_opened.
Qed.

Lemma WaitReadable_keeps timeout_millis ready l D :
  triple D (WaitReadable timeout_millis ready l) (λ _ D', D' = D).
Proof.
  unfold WaitReadable. destruct ready; [|by apply triple_ret].
  destruct (ls_socket l <? 0); [by apply triple_ret|].
  apply triple_keeps; [intros w; apply select_keeps|]. intros result.
  destruct (result <? 0); [|by apply triple_ret].
  unfold last_error. apply triple_keeps; [done|]. intros status. by apply triple_ret.
Qed.

Lemma SetNoDelay_keeps enable c D : triple D (SetNoDelay enable c) (λ _ D', D' = D).
Proof.
  unfold SetNoDelay. destruct (cn_socket c <? 0); [by apply triple_ret|].
  apply triple_keeps; [intros w; apply setsockopt_keeps|]. intros result.
  destruct (negb _); [|by apply triple_ret].
  unfold last_error. apply triple_calls. by intros w <-.
Qed.

(** What the closing of an object takes away. *)
Definition held (descriptor : Z) : gset Z := if descriptor <? 0 then ∅ else {[descriptor]}.

Lemma minus_none (D : gset Z) : D ∖ ∅ = D.
Proof.
  apply set_eq. intros x. rewrite elem_of_difference.
  split; [by intros []|]. intros Hx. split; [done|]. apply not_elem_of_empty.
Qed.

Lemma Connection_Close_closes c D :
  (0 ≤ cn_socket c → cn_socket c ∈ D) →
  triple D (Connection_Close c) (λ r D', cn_socket r.2 < 0 ∧ D' = D ∖ held (cn_socket c)).
Proof.
  intros Hopen. unfold Connection_Close, held. destruct (Z.ltb_spec (cn_socket c) 0).
  - apply triple_ret. by rewrite minus_none.
  - unfold calls_. apply triple_keeps; [intros w; apply shutdown_keeps|]. intros _.
    eapply (triple_bind _ _ _ (λ _ D', D' = D ∖ {[cn_socket c]})).
    + apply triple_calls. intros w <-. by apply close_takes, Hopen.
    + intros _ _ ->. by apply triple_ret.
Qed.

Lemma Listener_Close_closes l D :
  (0 ≤ ls_socket l → ls_socket l ∈ D) →
  triple D (Listener_Close l) (λ r D', ls_socket r.2 < 0 ∧ D' = D ∖ held (ls_socket l)).
Proof.
  intros Hopen. unfold Listener_Close, held. destruct (Z.ltb_spec (ls_socket l) 0).
  - apply triple_ret. by rewrite minus_none.
  - unfold calls_. eapply (triple_bind _ _ _ (λ _ D', D' = D ∖ {[ls_socket l]})).
    + apply triple_calls. intros w <-. by apply close_takes, Hopen.
    + intros _ _ ->. by apply triple_ret.
Qed.

Lemma destroy_closes o D :
  (0 ≤ descriptor_of o → descriptor_of o ∈ D) →
  triple D (destroy o) (λ o' D', descriptor_of o' < 0 ∧ D' = D ∖ held (descriptor_of o)).
Proof.
  destruct o as [c|l]; cbn [destroy descriptor_of]; intros Hopen.
  - eapply triple_bind; [by apply Connection_Close_closes|]. intros [status c'] D' Hc.
    by apply triple_ret.
  - eapply triple_bind; [by apply Listener_Close_closes|]. intros [status l'] D' Hl.
    by apply triple_ret.
Qed.
End Effects.

(** ** The account *)

(** The descriptors of a list, each once and none of them among [base], are the open
    ones beside [base]. *)
Definition accounted (base : gset Z) (l : list Z) (D : gset Z) : Prop :=
  NoDup l ∧ (∀ d, d ∈ l → d ∉ base) ∧ (∀ d, d ∈ D ↔ d ∈ base ∨ d ∈ l).

Definition holding (descriptor : Z) : list Z := if descriptor <? 0 then [] else [descriptor].

Lemma accounted_perm base l l' D : l ≡ₚ l' → accounted base l D → accounted base l' D.
Proof.
  intros Hp (Hnd & Hb & HD). split_and!; [by rewrite <-Hp| |]; intros d; rewrite <-Hp; auto.
Qed.

Lemma accounted_close base d l D :
  accounted base (holding d ++ l) D → accounted base l (D ∖ held d).
Proof.
  unfold holding, held. destruct (d <? 0); cbn [app]; [by rewrite minus_none|].
  intros (Hnd & Hb & HD). apply NoDup_cons in Hnd as [Hd Hnd].
  split_and!; [done| |].
  - intros x Hx. apply Hb. by right.
  - intros x. rewrite elem_of_difference, elem_of_singleton, HD, elem_of_cons.
    specialize (Hb d (list_elem_of_here _ _)). split; [naive_solver|].
    intros [Hx|Hx]; (split; [by auto|congruence]).
Qed.

Lemma accounted_open base d l D :
  (d ∉ D) → accounted base l D → accounted base (d :: l) ({[d]} ∪ D).
Proof.
  intros Hn (Hnd & Hb & HD). rewrite HD in Hn. split_and!.
  - apply NoDup_cons. auto.
  - intros x [->|Hx]%elem_of_cons; [|by apply Hb]. auto.
  - intros x. rewrite elem_of_union, elem_of_singleton, HD, elem_of_cons. naive_solver.
Qed.

Lemma owned_cons o objects : owned (o :: objects) = holding (descriptor_of o) ++ owned objects.
Proof.
  unfold owned, holding. cbn [map]. rewrite filter_cons.
  destruct (Z.ltb_spec (descriptor_of o) 0); case_decide; done || lia.
Qed.

Lemma owned_app objects1 objects2 : owned (objects1 ++ objects2) = owned objects1 ++ owned objects2.
Proof. unfold owned. by rewrite map_app, filter_app. Qed.

Lemma owned_snoc objects o : owned (objects ++ [o]) ≡ₚ holding (descriptor_of o) ++ owned objects.
Proof. rewrite owned_app, owned_cons, app_nil_r. apply Permutation_app_comm. Qed.

(** An object in its place, and another put there. *)
Lemma owned_place objects i o :
  objects !! i = Some o →
  ∃ rest, owned objects ≡ₚ holding (descriptor_of o) ++ rest ∧
    ∀ o', owned (<[i := o']> objects) ≡ₚ holding (descriptor_of o') ++ rest.
Proof.
  intros Hi. exists (owned (take i objects ++ drop (S i) objects)).
  assert (∀ x, owned (take i objects ++ x :: drop (S i) objects) ≡ₚ
               holding (descriptor_of x) ++ owned (take i objects ++ drop (S i) objects)) as Hx.
  { intros x. rewrite !owned_app, owned_cons, !app_assoc. f_equiv. apply Permutation_app_comm. }
  split.
  - rewrite <-Hx. by rewrite take_drop_middle.
  - intros o'. rewrite insert_take_drop by (by eapply lookup_lt_Some). apply Hx.
Qed.

Section Invariant.
Context {World : Type} `{SocketLaws World} (base : gset Z).

(** What an action keeps. *)
Definition kept (objects : list Object) (D : gset Z) : Prop := accounted base (owned objects) D.

Lemma created_kept {A} (make : A → Object) (descriptor : A → Z) objects D result D' :
  (∀ a, descriptor_of (make a) = descriptor a) → kept objects D →
  opened descriptor D result D' → kept (created make objects result) D'.
Proof.
  intros Hm Hk. destruct result as [a|status]; cbn; [|by intros ->].
  intros (Ha & Hn & ->). unfold kept.
  eapply accounted_perm; [symmetry; apply owned_snoc|]. rewrite Hm. unfold holding.
  destruct (Z.ltb_spec (descriptor a) 0); [lia|]. by apply accounted_open.
Qed.

Lemma make_kept {A} (make : A → Object) (descriptor : A → Z) (m : Calls World (Result A))
    objects D :
  (∀ a, descriptor_of (make a) = descriptor a) → kept objects D →
  triple D m (opened descriptor D) →
  triple D (result ← m; mret (created make objects result)) kept.
Proof.
  intros Hm Hk Ht. eapply triple_bind; [exact Ht|]. intros result D' Ho.
  apply triple_ret. by eapply created_kept.
Qed.

Lemma same_kept {A} (m : Calls World A) objects D :
  kept objects D → triple D m (λ _ D', D' = D) → triple D (_ ← m; mret objects) kept.
Proof.
  intros Hk Ht. eapply triple_bind; [exact Ht|]. intros _ _ ->. by apply triple_ret.
Qed.

(** What an object holds is open. *)
Lemma kept_open objects i o D :
  kept objects D → objects !! i = Some o → 0 ≤ descriptor_of o → descriptor_of o ∈ D.
Proof.
  intros (_ & _ & HD) Hi Ho. apply HD. right. unfold owned.
  apply list_elem_of_filter. split; [done|]. apply list_elem_of_In, in_map, list_elem_of_In.
  by eapply list_elem_of_lookup_2.
Qed.

Lemma destroy_kept objects i o D :
  kept objects D → objects !! i = Some o →
  triple D (o ← destroy o; mret (<[i := o]> objects)) kept.
Proof.
  intros Hk Hi. eapply triple_bind; [by apply destroy_closes, (kept_open objects i o)|]. intros o' D' [Ho ->].
  apply triple_ret. destruct (owned_place objects i o Hi) as (rest & Hrest & Hput).
  eapply accounted_perm; [symmetry; apply Hput|]. unfold holding.
  destruct (Z.ltb_spec (descriptor_of o') 0); [|lia]. apply accounted_close.
  by eapply accounted_perm.
Qed.

(** A new object with the descriptor of the one in a place, which loses it. *)
Lemma move_kept objects i o o1 o2 D :
  kept objects D → objects !! i = Some o → descriptor_of o1 = -1 →
  descriptor_of o2 = descriptor_of o → kept (<[i := o1]> objects ++ [o2]) D.
Proof.
  intros Hk Hi H1 H2. destruct (owned_place objects i o Hi) as (rest & Hrest & Hput).
  eapply accounted_perm; [|exact Hk]. rewrite owned_snoc, Hput, Hrest, H1, H2. done.
Qed.

(** The object in one place, closed, gets the descriptor of another, which loses it. *)
Lemma assign_kept objects i j o o2 o' o2' D :
  kept objects D → i ≠ j → objects !! i = Some o → objects !! j = Some o2 →
  descriptor_of o' = descriptor_of o2 → descriptor_of o2' = -1 →
  kept (<[i := o']> (<[j := o2']> objects)) (D ∖ held (descriptor_of o)).
Proof.
  intros Hk Hij Hi Hj Ho Ho2. destruct (owned_place objects j o2 Hj) as (rest & Hrest & Hput).
  destruct (owned_place (<[j := o2']> objects) i o) as (rest' & Hrest' & Hput').
  { by rewrite list_lookup_insert_ne. }
  eapply accounted_perm; [symmetry; apply Hput'|]. rewrite Ho. apply accounted_close.
  eapply accounted_perm; [|exact Hk].
  rewrite Hput, Ho2 in Hrest'. cbn [holding Z.ltb Z.compare app] in Hrest'.
  rewrite Hrest, Hrest'. rewrite !app_assoc. f_equiv. apply Permutation_app_comm.
Qed.

Lemma act_kept action objects D : kept objects D → triple D (act action objects) kept.
Proof.
  intros Hk. destruct action as [host port max|address port|i|i timeout|i enable|i|i|i|i j];
    cbn [act].
  - by apply (make_kept _ cn_socket); [|done|apply Connect_opened].
  - by apply (make_kept _ ls_socket); [|done|apply Bind_opened].
  - destruct (objects !! i) as [[c|l]|]; [by apply triple_ret| |by apply triple_ret].
    by apply (make_kept _ cn_socket); [|done|apply Accept_opened].
  - destruct (objects !! i) as [[c|l]|]; [by apply triple_ret| |by apply triple_ret].
    apply same_kept; [done|apply WaitReadable_keeps].
  - destruct (objects !! i) as [[c|l]|]; [|by apply triple_ret..].
    apply same_kept; [done|apply SetNoDelay_keeps].
  - destruct (objects !! i) as [o|] eqn:Hi; [by apply destroy_kept|by apply triple_ret].
  - destruct (objects !! i) as [o|] eqn:Hi; [by apply destroy_kept|by apply triple_ret].
  - destruct (objects !! i) as [[c|l]|] eqn:Hi; cbn; [| |by apply triple_ret];
      apply triple_ret; by eapply move_kept.
  - destruct (Nat.eqb_spec i j); [by apply triple_ret|].
    destruct (objects !! i) as [[c|l]|] eqn:Hi; [| |by apply triple_ret];
      destruct (objects !! j) as [[c2|l2]|] eqn:Hj; try by apply triple_ret.
    + unfold Connection_assign.
      apply (triple_bind _ _ _ (λ r D', kept
        (<[i := ConnectionObject r.1]> (<[j := ConnectionObject r.2]> objects)) D'));
        [|intros [] D' Hq; by apply triple_ret].
      eapply triple_bind; [apply Connection_Close_closes;
        exact (kept_open objects i (ConnectionObject c) D Hk Hi)|]. intros [status c'] D' [_ ->].
      apply triple_ret. cbn [fst snd].
      by apply (assign_kept objects i j (ConnectionObject c) (ConnectionObject c2)).
    + unfold Listener_assign.
      apply (triple_bind _ _ _ (λ r D', kept
        (<[i := ListenerObject r.1]> (<[j := ListenerObject r.2]> objects)) D'));
        [|intros [] D' Hq; by apply triple_ret].
      eapply triple_bind; [apply Listener_Close_closes;
        exact (kept_open objects i (ListenerObject l) D Hk Hi)|]. intros [status l'] D' [_ ->].
      apply triple_ret. cbn [fst snd].
      by apply (assign_kept objects i j (ListenerObject l) (ListenerObject l2)).
Qed.

Lemma acts_kept actions objects D : kept objects D → triple D (acts actions objects) kept.
Proof.
  revert objects D. induction actions as [|action actions IH]; intros objects D Hk; cbn [acts].
  - by apply triple_ret.
  - eapply triple_bind; [by apply act_kept|]. intros objects' D' Hk'. by apply IH.
Qed.
End Invariant.

(** ** A host that keeps the laws *)

(** The open descriptors; a new one is above all of them.  The host knows one address,
    on which nobody listens at port 0. *)
Definition Table : Type := list Z.

Definition unused (w : Table) : Z := 1 + foldr Z.max (-1) w.

Lemma unused_above w : 0 ≤ unused w ∧ ∀ d, d ∈ w → d < unused w.
Proof.
  unfold unused. induction w as [|x w [IHpos IH]]; cbn [foldr].
  - split; [done|]. intros d Hd. by apply not_elem_of_nil in Hd.
  - split; [lia|]. intros d [->|Hd]%elem_of_cons; [lia|]. specialize (IH d Hd). lia.
Qed.

#[export] Instance table_host : SocketHost Table := {|
  startup w := (0, w);
  cleanup w := w;
  socket w := (unused w, unused w :: w);
  setsockopt _ _ _ w := (0, w);
  inet_pton address := if String.eqb address "127.0.0.1" then Some 2130706433%N else None;
  connect _ _ port w := ((if N.eqb port 0 then -1 else 0), w);
  bind _ _ _ w := (0, w);
  listen _ _ w := (0, w);
  getsockname _ w := (Some 49152%N, w);
  select _ _ _ w := (1, w);
  accept _ w := (unused w, unused w :: w);
  shutdown _ w := w;
  close d w := filter (λ x, x ≠ d) w;
  strerror _ := "Connection refused"%string;
|}.

#[export] Instance table_laws : SocketLaws Table.
Proof.
  assert (∀ w : Table, 0 ≤ unused w ∧ (unused w ∉ (list_to_set w : gset Z))) as Hunused.
  { intros w. destruct (unused_above w) as [Hpos Habove]. split; [done|].
    rewrite elem_of_list_to_set. intros Hd. specialize (Habove _ Hd). lia. }
  split with (descriptors := list_to_set); try done.
  - intros w. right. by destruct (Hunused w).
  - intros s w. right. by destruct (Hunused w).
  - intros d w _. apply set_eq. intros x. cbn.
    rewrite elem_of_list_to_set, list_elem_of_filter, elem_of_difference, elem_of_list_to_set,
      elem_of_singleton. naive_solver.
Qed.
