(* ===== verification/SystemProps.v ===== *)
(** * Properties of processes and sockets

    What a handle on a child reports and when it stops to touch the system, on both
    platforms; the abstract life a POSIX child has for its supervisor; the command
    line of a Windows child.  The ownership of descriptors, whatever the system answers
    and whatever is done with connections and listeners; what a new connection is to
    the rest of the library; the stream of an assigned connection. *)

From Stdlib Require Import String Ascii.
From S2P Require Import Prelude StdAlgo Checked Status Bytes Hash Wire Transport ServerState.
From S2P Require Import Server WireFacts Process ProcessFacts QuoteFacts Sockets SocketFacts.

Local Open Scope Z_scope.

(** ** Processes *)


(** On either platform, whatever the system answers, a handle reports the
    exit code of its child at most once: the operations before the one that reports it
    and those after it report none, and until the handle is released the later ones leave
    the system alone. *)
Theorem exit_reported_once {World} (supervisor : Supervisor World) before op after child
    (w : World) outcomes child1 w1 outcome child2 w2 code :
  Platform supervisor →
  history before child w = (outcomes, child1, w1) →
  perform op child1 w1 = (outcome, child2, w2) →
  reported outcome = Some code →
  Forall (λ outcome, reported outcome = None) outcomes ∧
  Forall (λ outcome, reported outcome = None) (history after child2 w2).1.1 ∧
  ((OpDetach ∉ after) → (history after child2 w2).2 = w2).
Proof.
  intros Hp Hh Ho Hc. pose proof (platform_laws _ Hp) as Hlaws.
  assert (cp_running child1 = true) as Hr1.
  { apply (reported_running op child1 w1 code). by rewrite Ho. }
  assert (cp_running child2 = false) as Hr2.
  { pose proof (perform_reports op child1 w1 code) as Hrep. rewrite Ho in Hrep. by apply Hrep. }
  split_and!.
  - pose proof (history_unreported before child w) as Hn. rewrite Hh in Hn. by apply Hn.
  - by apply history_silent.
  - intros Hd. by apply history_stopped.
Qed.

(** A handle on the child of [ScriptHost]. *)
Definition script_child : ChildProcess := mkChild script_pid None true.

Lemma exit_reported_once_witness :
  Forall (λ outcome, reported outcome = None) [Tried (Value None); Running true] ∧
  Forall (λ outcome, reported outcome = None)
    (history [OpTryWait; OpWait; OpKill] (not_running script_child)
       (mkScript 0 (3 * 256) true)).1.1 ∧
  ((OpDetach ∉ [OpTryWait; OpWait; OpKill]) →
   (history [OpTryWait; OpWait; OpKill] (not_running script_child)
      (mkScript 0 (3 * 256) true)).2 = mkScript 0 (3 * 256) true).
Proof.
  apply (exit_reported_once posix_supervisor [OpTryWait; OpRunning] OpWait
    [OpTryWait; OpWait; OpKill] script_child (mkScript 4 (3 * 256) false)
    [Tried (Value None); Running true] script_child (mkScript 2 (3 * 256) false)
    (Waited (Value 3)) (not_running script_child) (mkScript 0 (3 * 256) true) 3).
  - constructor.
  - vm_compute. reflexivity.
  - vm_compute. reflexivity.
  - reflexivity.
Defined.

(** C38: On either platform, whatever the system answers, no call follows the
    one that gave the child up: a process id that was collected is never waited for or
    signalled again through its handle, and a handle that was closed is never used or
    closed again. *)
Theorem given_up_untouched :
  (∀ World (host : PosixHost World) ops child (w : World),
     nothing_after
       (@history _ (@posix_supervisor _ (posix_noted host)) ops child (w, [])).2.2) ∧
  (∀ World (host : WindowsHost World) ops child (w : World),
     nothing_after
       (@history _ (@windows_supervisor _ (windows_noted host)) ops child (w, [])).2.2).
Proof.
  split; intros World host ops child w.
  - apply (history_careful (λ child, cp_running child = false));
      [apply posix_inert|apply posix_careful|by constructor].
  - apply (history_careful released);
      [apply windows_inert|apply windows_careful|by constructor].
Qed.

(** C39: On a POSIX host that keeps what is documented of waiting and signalling,
    any operations on a spawned child give the answers of a run of the abstract machine:
    alive, ended with a code of 0 to 255 and not yet collected, gone.  At most one of
    them reports a code; none does where [ProcessRunning] collected the child, or it was
    killed or released, before a wait did.  As long as the handle is marked running the
    state of the machine is the life of the child and each operation answers what
    [process.hpp] documents for that life.  Once it is not, the machine is gone:
    [ProcessRunning] is false, [WaitForExit] and [KillProcess] are errors, and
    [TryWaitForExit] is the empty optional, where the header has it mean a process that
    is still running. *)
Theorem supervision_refines `{PosixProcesses World} argv directory out (w : World) child w' ops
    outcomes child1 w1 :
  Posix.SpawnProcess argv directory out w = (Status_Ok, Some child, w') →
  history ops child w' = (outcomes, child1, w1) →
  length outcomes = length ops ∧
  (length (omap reported outcomes) ≤ 1)%nat ∧
  Forall (λ code, 0 ≤ code < 256) (omap reported outcomes) ∧
  ∃ final, lives Alive (zip ops outcomes) final ∧
    if cp_running child1
    then life w1 (cp_id child1) = final ∧ ∀ op, documented final op (perform op child1 w1).1.1
    else final = Gone.
Proof.
  intros Hs Hh. pose proof (history_length ops child w') as Hlen.
  pose proof (history_reports_once ops child w') as Honce.
  destruct (SpawnProcess_represents _ _ _ _ _ _ Hs) as (Hr & Hid & Hl).
  destruct (represents_again child w' Hr Hid Hl) as (state & Hrep & Hlives).
  destruct (history_refined ops child w' state Hrep) as (final & Hf & Hend).
  rewrite Hh in *. cbn [fst snd] in *. split; [done|]. split; [done|]. split.
  - apply Forall_forall. intros code (outcome & Ho & Hc)%list_elem_of_omap.
    apply (lives_codes _ _ _ code Hf). apply list_elem_of_fmap. exists outcome.
    by rewrite snd_zip by lia.
  - exists final. split; [by apply Hlives|]. destruct (cp_running child1) eqn:E.
    + split; [|intros op]; by apply (watched_documented OpRunning) || by apply watched_documented.
    + destruct Hend as [state' Hr' _ _ _|_]; [congruence|done].
Qed.

(** A child that is polled, asked, collected and polled again. *)
Definition watching : list Operation := [OpTryWait; OpRunning; OpTryWait; OpTryWait].

Definition seen : list Outcome :=
  [Tried (Value None); Running true; Tried (Value (Some 3%Z)); Tried (Value None)].

Lemma supervision_refines_witness :
  length seen = length watching ∧
  (length (omap reported seen) ≤ 1)%nat ∧ Forall (λ code, 0 ≤ code < 256) (omap reported seen) ∧
  ∃ final, lives Alive (zip watching seen) final ∧ final = Gone.
Proof.
  exact (supervision_refines ["server"%string] "" (Some ChildProcess_init)
    (mkScript 2 (3 * 256) false) script_child (mkScript 2 (3 * 256) false) watching seen
    (not_running script_child) (mkScript 0 (3 * 256) true) eq_refl eq_refl).
Defined.

(** C40: A Windows child whose runtime keeps the documented rules is
    started with exactly the arguments it was given: taking apart what the system reads
    of the command line gives the arguments back, blanks, quotes and backslashes
    included, where none has a NUL and the program's name no quote or final backslash. *)
Theorem command_line_round_trip `{CommandLineParser} program argv :
  plain_program program →
  Forall (λ s, Ascii.zero ∉ list_ascii_of_string s) (program :: argv) →
  command (list_ascii_of_string (c_str (Windows.command_line (program :: argv)))) =
    program :: argv.
Proof.
  intros Hp Hn. rewrite c_str_all; [by apply command_line_read|].
  intros Hc. apply command_line_characters in Hc as [Hc|[Hc|[Hc|Hc]]]; [done..|].
  apply Exists_exists in Hc as (s & Hs & Hc). rewrite Forall_forall in Hn. by apply (Hn s).
Qed.

#[local] Existing Instance Documented.parser.

(** A blank, a quote, final backslashes and an empty argument. *)
Definition server_command : list string :=
  ["C:\Program Files\flowplace.exe"; "serve"; "--store=D:\a b\"; String quote "\\"; ""]%string.

Lemma command_line_round_trip_witness :
  command (list_ascii_of_string (c_str (Windows.command_line server_command))) = server_command.
Proof.
  apply command_line_round_trip.
  - split; [|vm_compute; discriminate]. apply (bool_decide_unpack _). vm_compute. exact I.
  - apply (bool_decide_unpack _). vm_compute. exact I.
Defined.

(** ** Sockets *)


(** ** The accept loop's listener

    What a round of the accept loop asks of the listener: [None] where nobody has come,
    otherwise what [accept_connection] takes from the list of what will be reported,
    with the connection when there is one. *)
Definition poll_listener `{SocketHost World} (l : Listener)
    : Calls World (option (Listened * option Connection)) :=
  '(status, ready) ← WaitReadable 50 (Some false) l;
  if negb (status_ok status) then mret (Some (WaitFails status, None))
  else if negb (default false ready) then mret None
  else
    accepted ← Accept l;
    mret (Some
      match accepted with
      | Error status => (AcceptFails status, None)
      | Value c => (Connected, Some c)
      end).

(** C37: Connecting, binding, accepting, waiting, closing, destroying, moving
    and assigning, in any order and under any answers of the system, neither leak nor
    share a descriptor: the open ones are the ones that were open before and those the
    objects hold, each of one object; what is closed was open. *)
Theorem descriptors_owned `{SocketLaws World} actions (s : System World) :
  let '(objects, s') := acts actions [] s in
  NoDup (owned objects) ∧
  (∀ d, d ∈ owned objects → d ∉ open s) ∧
  (∀ d, d ∈ open s' ↔ d ∈ open s ∨ d ∈ owned objects).
Proof.
  assert (kept (open s) [] (open s)) as Hk.
  { split_and!; [by constructor|by intros d ?%not_elem_of_nil|].
    intros d. split; [by left|]. by intros [|?%not_elem_of_nil]. }
  pose proof (acts_kept (open s) actions [] (open s) Hk s eq_refl) as Ha.
  by destruct (acts actions [] s) as [objects s'].
Qed.

(** A server's listener and two connections; one fails, one moves, one is closed. *)
Definition demo_actions : list Action :=
  [Binds "127.0.0.1" 0; Accepts 0; Connects "localhost" 7000 65536;
   Connects "127.0.0.1" 0 65536; Connects "127.0.0.1" 49152 65536; MovesTo 1; Assigns 1 2;
   Closes 3; Closes 3; Destroys 2].

Lemma descriptors_owned_witness :
  let '(objects, s') := acts demo_actions [] (mkSystem [0; 1; 2] None false) in
  (map descriptor_of objects = [3; 5; -1; -1] ∧ sy_host s' = [5; 3; 0; 1; 2]) ∧
  NoDup (owned objects) ∧
  (∀ d, d ∈ owned objects → d ∉ open (mkSystem [0; 1; 2] None false)) ∧
  (∀ d, d ∈ open s' ↔ d ∈ open (mkSystem [0; 1; 2] None false) ∨ d ∈ owned objects).
Proof.
  pose proof (descriptors_owned demo_actions (mkSystem [0; 1; 2] None false)) as Hd.
  vm_compute in Hd |- *. split; [by split|exact Hd].
Defined.

(** What [Connect] and [Accept] hand out is the open connection the server and the worker
    start from. *)
Lemma connection_on_open descriptor max_frame_bytes :
  0 ≤ descriptor →
  framed (connection_on descriptor max_frame_bytes) = ln_connection (open_link max_frame_bytes).
Proof.
  intros Hd. unfold framed, Connection_valid. cbn [cn_socket connection_on].
  by rewrite (proj2 (Z.leb_le _ _) Hd).
Qed.

Lemma Connect_answers `{SocketHost World} host port max_frame_bytes (s : System World) :
  match (Connect host port max_frame_bytes s).1 with
  | Value c => ∃ descriptor, c = connection_on descriptor max_frame_bytes
  | Error status =>
      status_code status = StatusCode.kSocketError ∨
      status_code status = StatusCode.kInvalidArgument ∧ inet_pton (c_str host) = None
  end.
Proof.
  unfold Connect, failed, closing, last_error, calls_, calls, mbind, calls_bind, mret, calls_ret.
  destruct (InitializeSocketsOnce s) as [result s1].
  destruct (negb (result =? 0)); [by left|].
  destruct (socket (sy_host s1)) as [d w]. destruct (d =? -1); [by left|].
  destruct (inet_pton (c_str host)) as [address|]; cbn; [|by right].
  destruct (connect d address port w) as [connected w2].
  destruct (negb (connected =? 0)); cbn; [by left|].
  destruct (setsockopt d TCP_NODELAY 1 w2). cbn. eauto.
Qed.

Lemma Accept_answers `{SocketHost World} l (s : System World) c :
  (Accept l s).1 = Value c → ∃ descriptor, c = connection_on descriptor kDefaultMaxFrameBytes.
Proof.
  unfold Accept, last_error, calls_, calls, mbind, calls_bind, mret, calls_ret.
  destruct (ls_socket l <? 0); [done|].
  destruct (accept (ls_socket l) (sy_host s)) as [d w].
  destruct (d =? -1); [done|]. cbn. destruct (setsockopt d TCP_NODELAY 1 w). cbn.
  intros [= <-]. eauto.
Qed.

(** A connection the listener accepts is the one the server's model enters: the entry
    gets the accepted connection by a move. *)
Lemma accepted_entry `{SocketLaws World} l (s s' : System World) listened connection context :
  poll_listener l s = (Some (listened, connection), s') →
  sv_arriving context = [listened] →
  match listened with
  | WaitFails status => (accept_connection context).1 = ListenerFailed status ∧ connection = None
  | AcceptFails status => (accept_connection context).1 = ArrivalFailed status ∧ connection = None
  | Connected =>
      ∃ c, connection = Some c ∧ 0 ≤ cn_socket c ∧
        (accept_connection context).1 = Arrived (length (sv_entries context)) ∧
        ln_connection (en_connection (entry_at (length (sv_entries context))
          (accept_connection context).2)) = framed (Connection_move c).1
  end.
Proof.
  unfold poll_listener. intros Hp Ha. unfold accept_connection. rewrite Ha. revert Hp.
  unfold mbind, calls_bind at 1.
  destruct (WaitReadable 50 (Some false) l s) as [[status ready] s1].
  destruct (negb (status_ok status)); [by intros [= <- <- _]|].
  destruct (negb (default false ready)); [done|].
  pose proof (Accept_opened l (open s1) s1 eq_refl) as Ho.
  unfold calls_bind, mret, calls_ret. destruct (Accept l s1) as [[c|st] s2] eqn:E;
    [|by intros [= <- <- _]].
  intros [= <- <- _]. exists c. destruct Ho as [Hc _]. split_and!; [done|done|done|].
  destruct (Accept_answers l s1 c) as [d ->]; [by rewrite E|].
  unfold entry_at, sv_with_entries. cbn [snd sv_entries].
  rewrite (nth_middle (sv_entries context) [] _ Entry_none). cbn [en_connection].
  symmetry. by apply (connection_on_open d kDefaultMaxFrameBytes).
Qed.

(** The seconds and microseconds of a wait are the milliseconds; those of a negative one
    are negative, which the system refuses. *)
Lemma wait_split timeout_millis :
  let sec := Z.quot timeout_millis 1000 in
  let usec := Z.rem timeout_millis 1000 * 1000 in
  sec * 1000000 + usec = timeout_millis * 1000 ∧ Z.abs usec < 1000000 ∧
  (0 ≤ timeout_millis → 0 ≤ sec ∧ 0 ≤ usec).
Proof.
  cbn zeta. pose proof (Z.quot_rem' timeout_millis 1000) as Hq.
  pose proof (Z.rem_bound_abs timeout_millis 1000 ltac:(done)) as Hb.
  split_and!; [lia|lia|]. intros Ht.
  pose proof (Z.quot_pos timeout_millis 1000 Ht ltac:(done)).
  pose proof (Z.rem_nonneg timeout_millis 1000 ltac:(done) Ht). lia.
Qed.

(** A connection that was closed with bytes in its stream hands them to the connection
    assigned to it: the first frame of the new connection was sent on the old one. *)
Definition stale_bytes : list N := frame_bytes (mkFrame FrameKind.kShutdown 0 9 []).

Example assigned_connection_stale :
  let old := mkConn (-1) (Feed stale_bytes (FrameStream_init 65536)) 65536 in
  let '(c, _, _) :=
    Connection_assign old (connection_on 7 65536) (mkSystem [7] None false) in
  (ReceiveFrame "" [] (framed c)).1.1 =
    Some (Value (mkFrame FrameKind.kShutdown 0 9 [])).
Proof. vm_compute. reflexivity. Qed.
